(* ===== verification/_CoqProject ===== *)
-Q . S2P
Prelude.v
Result.v
F64.v
Utf8.v
Btree.v
Core.v
Access.v
Bytes.v
Catalog.v
Ir.v
Policy.v
Activate.v
Protect.v
CompilePolicy.v
Plan.v
Turso.v
Descriptors.v
SqlAst.v
Binding.v
Binder.v
Complexity.v
Emit.v
Sealing.v
Gateway.v
Semantics.v
SqlMeaning.v
Views.v
SerdeJson.v
Compiler.v
State.v
Volatile.v
Io.v
Cost.v
Bounds.v
Limits.v
Canonical.v
Identity.v
Machine.v
Checks.v
Commands.v
Interactive.v
Atomic.v
Execution.v
Run.v
Values.v
Manifest.v
Runtime.v
Service.v
Frames.v
HandlerFrames.v
Batches.v
Failing.v
World.v
Progress.v
Commits.v
Readable.v
Lanes.v
Canon.v
StrictFacts.v
CallbackFacts.v
TursoFacts.v
ResultFacts.v
ActivateFacts.v
PolicyWorld.v
ParameterFacts.v
EmitFacts.v
SealFacts.v
DescriptorFacts.v
ProtectFacts.v
ViewFacts.v
BindFacts.v
BinderFacts.v
MutationFacts.v
FlowFacts.v
Divergences.v
CoreFacts.v
SessionFacts.v
ManifestFacts.v
GatewayFacts.v
RuntimeFacts.v
