(* ===== verification/Prelude.v ===== *)
(** * PolicySQL: a verification development

    PolicySQL lets clients send SQL to a database under a policy. The text of a statement is parsed
    and bound against a catalog, protected by the policies of the caller's role, emitted as SQLite
    text, sealed as an execution plan, and run by a transaction owner whose core is a step function:
    a host gives it the texts of a durable record and a volatile state, one event and a few facts,
    and executes the effects it returns. One WebAssembly module holds it all: it is built from a
    manifest of the catalog, a bundle of policies and limits, compiles JSON requests, keeps the plans
    and runs the steps. This development models that module, from its configuration and the texts
    it is given to the texts it returns, with the SQL parser as an interface; the sources are the
    crates under src/crates.

    ** The parts of the program and the files

    Names and values ([policysql-core], [policysql-catalog], [policysql-ir]).
    - Core.v (lib.rs: identities, names, sessions, logical values, the value contract and its
      formats), Bytes.v (bytes.rs: the base64 codec), Catalog.v, Ir.v (bound statements, the
      protected plan).

    The binder ([policysql-parser], lib.rs), from the syntax tree of SqlAst.v to a bound document.
    - Binding.v (names, scopes, parameters, literals, expressions), Binder.v (sources, joins,
      derived tables, whole statements, the limits and the trace).

    The policy compiler ([policysql-policy], lib.rs).
    - Policy.v (the bundle as its text says it and as it is activated), Activate.v (the
      activation against a catalog), Protect.v (predicates, permissions, nested selects),
      CompilePolicy.v ([compile_select], [compile_insert], [compile_update], [compile_delete]).

    The emitter ([policysql-sqlite]), from a protected plan to a sealed one.
    - Plan.v ([policysql-execution], lib.rs: candidate and verified plans; parameter_contracts.rs:
      which client values a statement accepts), Descriptors.v (lib.rs: the columns a statement
      returns), Complexity.v (complexity.rs), Emit.v (lib.rs: the syntax tree of a plan), Sealing.v
      (lib.rs: the verifier of plans and the four operations that seal one).

    The gateway ([policysql-gateway], lib.rs) and results ([policysql-turso], lib.rs).
    - Gateway.v (an envelope of requests, compiled one by one and executed together), Turso.v (what
      a result must be to answer a plan).

    The module ([policysql-wasm]).
    - Access.v (session.rs: who a caller is and what it may use), Limits.v (limits.rs: the
      configured limits, and the machine's limits made from them), the end of Bounds.v
      (result_budget.rs: the values of a result).
    - lib.rs: Values.v (parameters, cells of results, constraints and schemas between JSON and the
      program), Manifest.v (the catalog from its manifest and the schema of the database), Runtime.v
      ([PolicySqlRuntime]: its construction, compiled requests, the plans under handles, results),
      Service.v (the exported methods and the documents they return).
    - step.rs: the end of Runtime.v and of Service.v (the runtime as the compiler of the step
      machine).

    The transaction core ([policysql-transaction]).
    - [machine/state.rs]: State.v (the durable record, its phases, its wire form and consistency)
      and Volatile.v (the task in progress, the callback lane, the capability, the atomic run).
    - [machine/io.rs], [machine/compiler.rs]: Io.v (events, host facts, effects, error codes,
      replies) and Compiler.v (what the machine exchanges with the policy compiler).
    - [machine/step.rs]: Machine.v (the [Step] structure, its plumbing and its pure helpers),
      Commands.v (begin, statement, commit, rollback, up to the first awaited effect),
      Interactive.v (what each task does with each outcome; fail closed, discard, abandon, timer),
      Run.v (the dispatch, the checks of the output, [run]).
    - [machine/step/checks.rs]: Checks.v (the validators in turn, and their queries).
    - [machine/step/atomic.rs]: Atomic.v (requests, replies, limits), Execution.v (placement, the
      transitions, the outcomes up to the one COMMIT).
    - [bounds.rs], [machine/mod.rs]: Bounds.v. [canonical.rs], [strict.rs]: Canonical.v.
      [machine/time.rs], [identity.rs]: Identity.v. [cost.rs]: Cost.v.

    What the program takes from Rust's standard library: Prelude.v (this file: machine integers,
    bytes, lists), Result.v ([Result] and its loops, state-and-error monads), Utf8.v (characters,
    [str::parse]), F64.v (doubles), Btree.v (ordered maps), SerdeJson.v (JSON values, documents,
    streams).

    Definitions keep the names of the source in the spelling Rocq allows; above each stands the
    file, the lines and the symbol it translates.

    ** How the program is modelled

    A function that may fail returns a [result]; the policy compiler adds the map of the server
    values it collects (the monad [Compile]), the binder its trace ([binding]), the emitter the
    parameters and columns so far ([emission]), the count of complexity its numbers ([counting]). A
    handler of [Step] is a computation of the monad [M] of Machine.v: a function from the step's
    state [St] (the two states, the effects so far, the reset flag, the compiler's table of handles)
    to a value or a [Fault] and the state reached. Rust's [?] is the monad's bind; a fault keeps the
    state reached, because only [run_dispatch] restores the one the step started from. Integers are
    [Z] with the saturating, checked and wrapping operations of the source; [usize] has the width of
    the class [Target], 32 or 64 bits. A [f64] is the standard library's IEEE double. Strings are
    byte strings, as Rust's are, in UTF-8. Bound expressions are one nested inductive type, with the
    selects of EXISTS inside, and syntax trees are mutual inductive types.

    Code that is not in the repository is an interface. turso_parser is the class [Dialect] (its
    parser and printer, and the text of a name) over the part of its syntax tree the sources name;
    serde_json is the class [Serde] (its printer and its event stream), [SerdeNumber] (a number from
    its text) and [StateSerde], [EventSerde], [AtomicSerde], [CostSerde], [RuntimeSerde] (the
    derived readers and printers of the program's own types), serde_yaml the classes [Yaml] and
    [ManifestSerde], regex-lite [Regex], the base64 crate [Base64], SHA-256 [Sha2], the Unicode
    tables [Unicode]; the compiler the step machine knows through a trait is the class [Compiler],
    of which Service.v proves the runtime an instance with its laws ([runtime_compiler],
    [runtime_compiler_laws]). Their documented behaviour is stated in the classes [SerdeLaws],
    [YamlLaws], [Base64Laws], [Sha2Laws], [CompilerLaws], which a theorem names when it needs them.
    World.v gives an instance of each that evaluates, and runs a transaction from begin to commit on
    it; PolicyWorld.v has a database engine, a catalog and a bundle; BinderFacts.v and
    GatewayFacts.v have queries as syntax trees, ManifestFacts.v and RuntimeFacts.v a manifest and a
    deployment; the witnesses use them. Where the module would panic, a definition says so:
    [Panicked] in Turso.v, [None] in the validation of results of Runtime.v.

    ** The specifications

    Semantics.v says what a bound statement means on a database: three-valued logic over the class
    [Engine] (comparison, coercion, functions and order of an SQL engine; nothing in the repository
    defines them), a negative LIMIT being no limit, as SQLite documents. Views.v says what a policy
    promises: a role sees, of each resource, the rows its filter holds on with the columns it is
    permitted, a conditional one only where its condition holds. SqlMeaning.v says what a query of a
    caller means by its own names, on the syntax tree, and what the emitted syntax tree means on the
    tables behind the catalog. So the whole path has a specification on both
    sides: the query of a caller over its view, and the emitted SQL over the tables.

    ** What is proved

    - From the configuration and the request to the rows (RuntimeFacts.v): what the SQL a deployment
      answers a query of a request with returns on the tables is what the query says about the view
      of the caller's role. The theorem has conditions that the code does not check (well-named
      sources, plain EXISTS in WHERE only, a LIMIT that is an integer and not negative, literals that
      read back); what happens without them is in Divergences.v and GatewayFacts.v. It rests on what the construction of the module has checked (ManifestFacts.v:
      the columns of the catalog are those of the manifest and of the database; ActivateFacts.v:
      what an activated bundle guarantees) and on the gateway (GatewayFacts.v), which composes the
      refinements of the binder (BindFacts.v, BinderFacts.v: a bound query means what the query
      says), of the policy compiler (ProtectFacts.v, ViewFacts.v, FlowFacts.v: a compiled select
      with EXISTS in WHERE only and such a LIMIT answers on the database what the caller's select
      answers on its view, and is refused without policies), and of the emitter (EmitFacts.v: the
      emitted tree returns the rows of the bound select when its number literals read back;
      SealFacts.v: what is sealed is what was emitted). An atomic
      execution only reads.
    - The values of a request and the cells of a result (RuntimeFacts.v): which are of a type, and
      that what is written is read back; the handles of plans; the budget that the results of an
      execution share; what Explain refuses.
    - MutationFacts.v: the rows and columns a mutation touches, checks and returns.
      DescriptorFacts.v: the columns described as not nullable, the JSON paths. Divergences.v:
      behaviours that the documents of the repository do not promise, as theorems on every statement
      they concern.
    - Sessions (SessionFacts.v): server parameters are claims of the trusted
      session under reserved names; an authorized caller, and how it re-enters.
    - Parameters (ParameterFacts.v): the client values that are accepted, and that no parameter with
      an influence on a select is missed.
    - Results (TursoFacts.v, ResultFacts.v): the results that answer a plan and their public form,
      the agreement of the value contract with the result boundary, and where that panics.
    - Values and catalog (CoreFacts.v, Bytes.v, Catalog.v): formats against the calendar,
      the codec, lookups.
    - Every step of the machine (Frames.v, HandlerFrames.v): a frame logic for the handlers. A
      relation on states with the primitives of [Base] is preserved by every handler, and, with
      those of [Whole], by a whole step, through faults, failing closed and discarding (Batches.v).
      Readable.v, Lanes.v and Commits.v instantiate it: the consistency of the states a step leaves,
      the execution contract of a batch and the agreement of the lanes with the effects (an Abandon
      event is the exception of both), and when COMMIT may be sent. Failing.v says exactly what
      failing closed (the record stored, who is told what) and discarding leave.
      Progress.v: every request is answered; the tasks of a client are ordered, each outcome leads
      to an earlier task or to a reply, and a step that fails closed replies. Its steps are those of
      [run_dispatch], from the states a step leaves to the next.
    - The callback lane (CallbackFacts.v): who may query a transaction that is being
      validated, what a validator is given, the token, the comparison of hashes, a decision; and the
      exact retry of the last completed command.
    - Texts (Canon.v, StrictFacts.v): canonical JSON identifies a value up to
      the order of members, the strict check accepts what the parser accepts, the
      fingerprints depend on exactly the caller and the binding; the calendar and the public
      timestamps.
    - Numbers (Bounds.v, Limits.v, Cost.v): the derived bounds are the exact sizes, also for every
      configuration that is accepted, the cost estimates and the count of a result's values.

    ** Bounds and fuel

    Almost every definition recurses on data only. [dec] prints an integer with 20 digits of fuel,
    and a [u64] has at most 20, and a double is printed with at most 17 digits, which distinguish
    all of them; [visit_value] and [check_value] of the texts stop at [MAX_DEPTH], the source's own
    bound of 64 (and recurse on the stream); [chars] and [trim_tx] take the length of their text,
    and every round consumes at least a byte; so does [json_segments], whose end on every text is
    proved; [literal_parameter] tries one more name than there are parameters, and one of them is
    free; [group_rows] takes the number of rows, and every round removes one group; a JSON schema is
    read to 33 levels, the source's own bound of 32 below the root. The parser of World.v, which
    only the witnesses use, has fuel 100.

    ** What is not modelled

    The parser and the printer of SQL texts are the third-party crate turso_parser. The host
    adapters (src/deploy) are TypeScript and I/O, the testkit and the spikes are fixtures and
    experiments: they are left out. The effects of a step are data here: their JSON text is a
    generated serializer.*)

From Stdlib Require Export ZArith Lia Ascii String.
From stdpp Require Export base tactics option list strings gmap.

#[global] Open Scope Z_scope.

(** ** Machine integers

    A Rust [u64], [u32] or [usize] is a [Z]; the saturating, checked and
    wrapping operations of the source write their bounds out. *)

Definition U64_MAX : Z := 2 ^ 64 - 1.
Definition U32_MAX : Z := 2 ^ 32 - 1.

Definition in_u64 (n : Z) : Prop := 0 <= n <= U64_MAX.

Definition sat_add (m a b : Z) : Z := Z.min (a + b) m.
Definition sat_mul (m a b : Z) : Z := Z.min (a * b) m.
Definition sat_sub (a b : Z) : Z := Z.max 0 (a - b).

Definition sat_add64 : Z -> Z -> Z := sat_add U64_MAX.
Definition sat_mul64 : Z -> Z -> Z := sat_mul U64_MAX.

Definition wrap64 (n : Z) : Z := n mod 2 ^ 64.
Definition wrap32 (n : Z) : Z := n mod 2 ^ 32.

(** [u64::checked_add]. *)
Definition checked_add64 (a b : Z) : option Z :=
  if (a + b <=? U64_MAX)%Z then Some (a + b) else None.

Declare Scope u64_scope.
Delimit Scope u64_scope with u64.
Infix "+|" := sat_add64 (at level 50, left associativity) : u64_scope.
Infix "*|" := sat_mul64 (at level 40, left associativity) : u64_scope.
Infix "-|" := sat_sub (at level 50, left associativity) : u64_scope.

(** The width of [usize] is the target's: 32 bits for the shipped Wasm module,
    64 bits for a native build. *)
Class Target := {
  usize_max : Z;
  usize_width : usize_max = U32_MAX \/ usize_max = U64_MAX
}.

#[export] Instance wasm32 : Target := {| usize_max := U32_MAX; usize_width := or_introl eq_refl |}.

(** [usize::try_from(n).unwrap_or(usize::MAX)]. *)
Definition to_usize `{Target} (n : Z) : Z := Z.min n usize_max.

Lemma usize_max_bounds `{Target} : U32_MAX <= usize_max <= U64_MAX.
Proof. destruct usize_width as [-> | ->]; unfold U32_MAX, U64_MAX; lia. Qed.

Lemma sat_add_mono m a b a' b' :
  a <= a' -> b <= b' -> sat_add m a b <= sat_add m a' b'.
Proof. unfold sat_add; lia. Qed.

Lemma sat_mul_mono m a b a' b' :
  0 <= a <= a' -> 0 <= b <= b' -> sat_mul m a b <= sat_mul m a' b'.
Proof. unfold sat_mul; intros; apply Z.min_le_compat_r; nia. Qed.

Lemma sat_add_le m a b : sat_add m a b <= m.
Proof. unfold sat_add; lia. Qed.

Lemma sat_add_exact m a b : a + b <= m -> sat_add m a b = a + b.
Proof. unfold sat_add; lia. Qed.

Lemma sat_mul_exact m a b : a * b <= m -> sat_mul m a b = a * b.
Proof. unfold sat_mul; lia. Qed.

Lemma sat_add_nonneg m a b : 0 <= m -> 0 <= a -> 0 <= b -> 0 <= sat_add m a b.
Proof. unfold sat_add; lia. Qed.

Lemma sat_mul_nonneg m a b : 0 <= m -> 0 <= a -> 0 <= b -> 0 <= sat_mul m a b.
Proof. unfold sat_mul; intros; apply Z.min_glb; nia. Qed.

(** ** Strings

    A Rust [&str] is the [string] of its UTF-8 bytes, so [String.length] is
    [str::len] and character classes are tests on bytes. *)

Definition byte_of (c : ascii) : Z := Z.of_N (N_of_ascii c).
Definition char_of (b : Z) : ascii := ascii_of_N (Z.to_N b).

Definition len (s : string) : Z := Z.of_nat (String.length s).

Fixpoint str_forallb (p : ascii -> bool) (s : string) : bool :=
  match s with
  | EmptyString => true
  | String c s' => p c && str_forallb p s'
  end.

(** [str::starts_with] and [str::strip_prefix]. *)
Fixpoint strip_prefix (p s : string) : option string :=
  match p, s with
  | EmptyString, _ => Some s
  | String c p', String d s' => if ascii_dec c d then strip_prefix p' s' else None
  | String _ _, EmptyString => None
  end.

Definition starts_with (p s : string) : bool := bool_decide (is_Some (strip_prefix p s)).

(** [str::strip_suffix] of one character. *)
Fixpoint strip_suffix (c : ascii) (s : string) : option string :=
  match s with
  | EmptyString => None
  | String x EmptyString => if Ascii.eqb x c then Some EmptyString else None
  | String x s' => String x <$> strip_suffix c s'
  end.

(** [str::get(a..b)] on ASCII text: [None] when the range leaves the text. *)
Definition str_get (s : string) (a b : nat) : option string :=
  if (b <=? String.length s)%nat && (a <=? b)%nat then Some (substring a (b - a) s) else None.

Definition in_range (lo hi b : Z) : bool := (lo <=? b)%Z && (b <=? hi)%Z.

Definition is_digit (c : ascii) : bool := in_range 48 57 (byte_of c).
Definition is_lower (c : ascii) : bool := in_range 97 122 (byte_of c).
Definition is_upper (c : ascii) : bool := in_range 65 90 (byte_of c).
Definition is_alnum (c : ascii) : bool := is_digit c || is_lower c || is_upper c.
Definition is_hex_lower (c : ascii) : bool := is_digit c || in_range 97 102 (byte_of c).

(** The double-quote character. *)
Definition dquote : string := String (ascii_of_nat 34) EmptyString.

Definition opt_forallb {A} (p : A -> bool) (o : option A) : bool :=
  match o with Some a => p a | None => true end.
Definition opt_existsb {A} (p : A -> bool) (o : option A) : bool :=
  match o with Some a => p a | None => false end.

Definition str_in (s : string) (l : list string) : bool := bool_decide (s ∈ l).

(** The members of an association list: [iter().find(|(k, _)| k == key)]. *)
Fixpoint assoc {A} (key : string) (l : list (string * A)) : option A :=
  match l with
  | [] => None
  | (k, v) :: l' => if String.eqb k key then Some v else assoc key l'
  end.

(** [windows(2).all(p)]. *)
Fixpoint windows2 {A} (p : A -> A -> bool) (l : list A) : bool :=
  match l with
  | a :: ((b :: _) as l') => p a b && windows2 p l'
  | _ => true
  end.

(** The decimal digits of an integer, as [format!] prints it. *)
Definition pos_digits (fuel : nat) (n : Z) : string :=
  (fix go (fuel : nat) (n : Z) (acc : string) : string :=
     match fuel with
     | O => acc
     | S fuel' =>
         let acc' := String (char_of (48 + n mod 10)) acc in
         if (n <? 10)%Z then acc' else go fuel' (n / 10) acc'
     end) fuel n EmptyString.

(** 20 digits hold every [u64]. *)
Definition dec (n : Z) : string := pos_digits 20 n.

(** ** Automation *)

Create HintDb policysql.
Create Rewrite HintDb policysql.

(** Splits boolean conjunctions and equations of the hypotheses. *)
Ltac bools :=
  repeat match goal with
    | H : _ && _ = true |- _ => apply andb_true_iff in H; destruct H
    | H : negb _ = true |- _ => apply negb_true_iff in H
    | H : bool_decide _ = true |- _ => apply bool_decide_eq_true in H
    | H : bool_decide _ = false |- _ => apply bool_decide_eq_false in H
    | H : (_ =? _)%Z = true |- _ => apply Z.eqb_eq in H
    | H : (_ <=? _)%Z = true |- _ => apply Z.leb_le in H
    | H : (_ <? _)%Z = true |- _ => apply Z.ltb_lt in H
    | H : (_ =? _)%Z = false |- _ => apply Z.eqb_neq in H
    | H : (_ <=? _)%Z = false |- _ => apply Z.leb_gt in H
    | H : (_ <? _)%Z = false |- _ => apply Z.ltb_ge in H
    end.

(** [lia] with division and remainder. *)
Ltac zlia := Z.to_euclidean_division_equations; lia.

Lemma append_cons c s t : (String c s ++ t)%string = String c (s ++ t)%string.
Proof. reflexivity. Qed.

Lemma append_nil t : (EmptyString ++ t)%string = t.
Proof. reflexivity. Qed.

Lemma str_forallb_app p s t : str_forallb p (s ++ t)%string = str_forallb p s && str_forallb p t.
Proof.
  induction s as [|c s IH]; rewrite ?append_cons, ?append_nil; simpl; [done|].
  by rewrite IH, andb_assoc.
Qed.

Lemma str_forallb_impl (p q : ascii -> bool) s :
  (forall c, p c = true -> q c = true) -> str_forallb p s = true -> str_forallb q s = true.
Proof.
  intros Hpq; induction s as [|c s IH]; simpl; [done|].
  rewrite !andb_true_iff; intros [? ?]; auto.
Qed.

Lemma substring_forallb p n m s :
  str_forallb p s = true -> str_forallb p (substring n m s) = true.
Proof.
  revert n m. induction s as [|c s IH]; intros n m; simpl; [by destruct n, m|].
  intros [Hc Hs]%andb_true_iff. destruct n; [|by apply IH].
  destruct m; simpl; [done|]. by rewrite Hc, IH.
Qed.

Lemma substring_length n m s :
  (n + m <= String.length s)%nat -> String.length (substring n m s) = m.
Proof.
  revert n m. induction s as [|c s IH]; intros n m; simpl.
  - intros Hl. destruct n, m; simpl in *; lia.
  - intros Hl. destruct n; [|apply IH; lia]. destruct m; [done|]. simpl. by rewrite IH by lia.
Qed.

Lemma byte_of_inj a b : byte_of a = byte_of b -> a = b.
Proof.
  unfold byte_of. intros E. apply N2Z.inj in E.
  rewrite <- (ascii_N_embedding a), <- (ascii_N_embedding b). by rewrite E.
Qed.

Lemma string_length_app s t : String.length (s ++ t) = (String.length s + String.length t)%nat.
Proof.
  induction s as [|c s IH]; rewrite ?append_cons, ?append_nil; [done|]. cbn [String.length]. lia.
Qed.

Lemma len_nonneg s : 0 <= len s.
Proof. unfold len; lia. Qed.

Lemma len_app s t : len (s ++ t)%string = len s + len t.
Proof.
  unfold len. induction s as [|c s IH]; rewrite ?append_cons, ?append_nil; simpl; lia.
Qed.

Lemma strip_prefix_app p s : strip_prefix p (p ++ s)%string = Some s.
Proof.
  induction p as [|c p IH]; rewrite ?append_cons, ?append_nil; simpl; [done|].
  by destruct (ascii_dec c c).
Qed.

Lemma strip_prefix_Some p s t : strip_prefix p s = Some t -> s = (p ++ t)%string.
Proof.
  revert s; induction p as [|c p IH]; intros [|d s];
    rewrite ?append_cons, ?append_nil; simpl; try congruence.
  destruct (ascii_dec c d); [subst|done]. intros H. by rewrite (IH _ H).
Qed.

#[export] Hint Resolve len_nonneg sat_add_nonneg sat_mul_nonneg sat_add_le : policysql.
#[export] Hint Rewrite len_app str_forallb_app : policysql.

Lemma strip_suffix_Some c s t : strip_suffix c s = Some t <-> s = (t ++ String c EmptyString)%string.
Proof.
  revert t. induction s as [|x s IH]; intros t.
  - split; [done|]. by destruct t.
  - destruct s as [|y s].
    + simpl. destruct (Ascii.eqb_spec x c) as [->|Hne].
      * split; [by intros [= <-]|]. destruct t as [|z [|w t]]; by intros [= ].
      * split; [done|]. destruct t as [|z [|w t]]; by intros [= ].
    + change (strip_suffix c (String x (String y s)))
        with (String x <$> strip_suffix c (String y s)).
      split.
      * destruct (strip_suffix c (String y s)) as [u|]; [|done]. intros [= <-].
        by rewrite (proj1 (IH u) eq_refl).
      * destruct t as [|z t]; [by intros [= ]|]. intros [= -> Ht]. by rewrite (proj2 (IH t) Ht).
Qed.
