(* ===== verification/Result.v ===== *)
(** * Computations that may fail

    Rust's [Result<T, E>], with the functions and loops of the source on it, and the lemmas that
    open a computation that succeeded. *)

From S2P Require Import Prelude.

Definition result (E A : Type) : Type := (A + E)%type.
#[export] Instance result_ret {E} : MRet (result E) := fun A a => inl a.
#[export] Instance result_bind {E} : MBind (result E) := fun A B k m =>
  match m with inl a => k a | inr e => inr e end.
#[export] Instance result_fmap {E} : FMap (result E) := fun A B f m =>
  match m with inl a => inl (f a) | inr e => inr e end.
Definition throw {E A} (e : E) : result E A := inr e.
(** [Option::ok_or]. *)
Definition ok_or {E A} (o : option A) (e : E) : result E A :=
  match o with Some a => inl a | None => inr e end.
(** [Result::map_err(|_| e)]. *)
Definition map_err {A E E'} (m : A + E) (e : E') : result E' A :=
  match m with inl a => inl a | inr _ => inr e end.
(** An early return of [e]. *)
Definition require {E} (condition : bool) (e : E) : result E unit :=
  if condition then inl () else inr e.

(** [iter().map(f).collect::<Result<Vec<_>, _>>()]. *)
Definition collect {E A B} (f : A -> result E B) : list A -> result E (list B) :=
  fix go l :=
    match l with
    | [] => mret []
    | a :: l' => b ← f a; bs ← go l'; mret (b :: bs)
    end.

(** A [for] loop that returns at the first error. *)
Definition for_each {E A} (f : A -> result E unit) : list A -> result E unit :=
  fix go l :=
    match l with
    | [] => mret ()
    | a :: l' => _ ← f a; go l'
    end.

Definition if_some {E A} (f : A -> result E unit) (o : option A) : result E unit :=
  match o with Some a => f a | None => mret () end.

(** A [for] loop that threads a state. *)
Definition for_fold {E A S} (f : S -> A -> result E S) : S -> list A -> result E S :=
  fix go s l :=
    match l with
    | [] => mret s
    | a :: l' => s' ← f s a; go s' l'
    end.

(** ** Inversion *)

Lemma result_bind_inl {E A B} (k : A -> result E B) (m : result E A) b :
  (x ← m; k x) = inl b -> exists a, m = inl a /\ k a = inl b.
Proof. destruct m as [a|]; [|done]. by exists a. Qed.

Lemma ok_or_inl {E A} (o : option A) (e : E) a : ok_or o e = inl a -> o = Some a.
Proof. destruct o; [|done]. by intros [= ->]. Qed.

Lemma map_err_inl {A E E'} (m : A + E) (e : E') a : map_err m e = inl a -> m = inl a.
Proof. destruct m; [|done]. by intros [= ->]. Qed.

Lemma require_inl {E} b (e : E) : require b e = inl () -> b = true.
Proof. by destruct b. Qed.

Lemma require_bind {E A} b (e : E) (k : result E A) a :
  (_ ← require b e; k) = inl a <-> b = true /\ k = inl a.
Proof. destruct b; simpl; split; try done; by intros []. Qed.

Lemma for_each_inl {E A} (f : A -> result E unit) l :
  for_each f l = inl () <-> Forall (fun a => f a = inl ()) l.
Proof.
  induction l as [|a l IH]; simpl; [by split; [constructor|]|]. rewrite Forall_cons, <- IH. split.
  - intros H. apply result_bind_inl in H as [[] [? ?]]. done.
  - intros [-> H]. exact H.
Qed.

Lemma collect_inl {E A B} (f : A -> result E B) l : forall bs,
  collect f l = inl bs <-> Forall2 (fun a b => f a = inl b) l bs.
Proof.
  induction l as [|a l IH]; intros bs; simpl.
  - split; [intros [= <-]; constructor|]. by inversion 1.
  - split.
    + intros Hc. apply result_bind_inl in Hc as [b [Hb Hc]].
      apply result_bind_inl in Hc as [bs' [Hbs Hc]]. injection Hc as <-.
      constructor; [done|]. by apply IH.
    + inversion 1 as [|? b ? bs' Hb Hbs]; subst. rewrite Hb. simpl.
      apply IH in Hbs as ->. done.
Qed.

Lemma for_fold_invariant {E A S} (P : S -> Prop) (f : S -> A -> result E S) l :
  (forall s a s', a ∈ l -> P s -> f s a = inl s' -> P s') ->
  forall s s', P s -> for_fold f s l = inl s' -> P s'.
Proof.
  induction l as [|a l IH]; intros Hf s s' Hs Hl; simpl in Hl; [by injection Hl as <-|].
  apply result_bind_inl in Hl as [s1 [H1 Hl]]. eapply IH; [|by eapply Hf; [by left|..]|exact Hl].
  intros s2 a' s3 Ha. apply Hf. by right.
Qed.

(** ** Computations with a state

    What a computation returns, whatever the state it starts in: the form in which facts about
    [emission] and [binding] are stated and composed. *)

Definition yields {S E A} (m : S -> result E (A * S)) (P : A -> Prop) : Prop :=
  forall s a s', m s = inl (a, s') -> P a.

Section yields.
Context {S E : Type}.

Lemma yields_ret {A} (a : A) (P : A -> Prop) :
  P a -> yields (fun s : S => inl (a, s) : result E (A * S)) P.
Proof. by intros Ha s a' s' [= <- _]. Qed.

Lemma yields_bind {A B} (m : S -> result E (A * S)) (k : A -> S -> result E (B * S)) P Q :
  yields m P -> (forall a, P a -> yields (k a) Q) ->
  yields (fun s => match m s with inl (a, s') => k a s' | inr e => inr e end) Q.
Proof.
  intros Hm Hk s b s' Hb. destruct (m s) as [[a s1]|] eqn:Ea; [|done].
  exact (Hk a (Hm _ _ _ Ea) _ _ _ Hb).
Qed.

Lemma yields_lift {A} (r : result E A) :
  yields (fun s : S => match r with inl a => inl (a, s) | inr e => inr e end) (fun a => r = inl a).
Proof. intros s a s' Ha. destruct r; [by injection Ha as <-|done]. Qed.

Lemma yields_fails {A} (e : E) (P : A -> Prop) : yields (fun _ : S => inr e) P.
Proof. by intros s a s'. Qed.

Lemma yields_any {A} (m : S -> result E (A * S)) : yields m (fun _ => True).
Proof. by intros s a s' _. Qed.

Lemma yields_impl {A} (m : S -> result E (A * S)) (P Q : A -> Prop) :
  yields m P -> (forall a, P a -> Q a) -> yields m Q.
Proof. intros Hm HPQ s a s' Ha. by eapply HPQ, Hm. Qed.
End yields.
