(* ===== verification/F64.v ===== *)
(** * IEEE doubles

    Rust's [f64] as the standard library's [spec_float] (53 bits of precision,
    exponent 1024): the usage durations of [machine/state.rs] and the numbers of
    [canonical.rs] keep their rounding and their special values. *)

From Stdlib Require Import SpecFloat.
From S2P Require Import Prelude.

Abbreviation f64 := spec_float.

Module F64.

Definition prec : Z := 53.
Definition emax : Z := 1024.

Definition zero : f64 := S754_zero false.
Definition nan : f64 := S754_nan.

Definition add : f64 -> f64 -> f64 := SFadd prec emax.
Definition mul : f64 -> f64 -> f64 := SFmul prec emax.
Definition div : f64 -> f64 -> f64 := SFdiv prec emax.

(** The double nearest to an integer ([n as f64]). *)
Definition of_Z (n : Z) : f64 := binary_normalize prec emax n 0 false.

Definition is_finite (x : f64) : bool :=
  match x with S754_zero _ | S754_finite _ _ _ => true | _ => false end.

(** [==] and [<=] of Rust: false on a NaN, and the two zeros are equal. *)
Definition eqb (x y : f64) : bool := SFeqb x y.
Definition leb (x y : f64) : bool := SFleb x y.
Definition ltb (x y : f64) : bool := SFltb x y.

Definition abs (x : f64) : f64 := SFabs x.

(** [x.fract() == 0.0]: the value is an integer. *)
Definition is_integer (x : f64) : bool :=
  match x with
  | S754_zero _ => true
  | S754_finite _ m e => (0 <=? e)%Z || (Z.pos m mod 2 ^ (- e) =? 0)%Z
  | _ => false
  end.

(** The truncation toward zero, before the saturation of the cast. *)
Definition trunc_Z (x : f64) : Z :=
  match x with
  | S754_finite s m e =>
      let a := if (0 <=? e)%Z then Z.pos m * 2 ^ e else Z.pos m / 2 ^ (- e) in
      if s then - a else a
  | _ => 0
  end.

Definition to_i64 (x : f64) : Z :=
  match x with
  | S754_infinity s => if s then - 2 ^ 63 else 2 ^ 63 - 1
  | _ => Z.max (- 2 ^ 63) (Z.min (2 ^ 63 - 1) (trunc_Z x))
  end.

Definition to_u64 (x : f64) : Z :=
  match x with
  | S754_infinity s => if s then 0 else U64_MAX
  | _ => Z.max 0 (Z.min U64_MAX (trunc_Z x))
  end.

(** [f64::round]: to the nearest integer, halves away from zero; the sign of a
    zero result is kept. *)
Definition round (x : f64) : f64 :=
  match x with
  | S754_finite s m e =>
      if (0 <=? e)%Z then x
      else
        let q := (Z.pos m + 2 ^ (- e - 1)) / 2 ^ (- e) in
        if (q =? 0)%Z then S754_zero s
        else of_Z (if s then - q else q)
  | _ => x
  end.

End F64.
