(* ===== verification/Utf8.v ===== *)
(** * Text as characters, and the numbers read from it

    What the source uses of Rust's standard library on text: the characters of a
    [str], slices at character boundaries, white space, and [str::parse] for
    integers and doubles. *)

From Stdlib Require Import SpecFloat.
From S2P Require Import Prelude F64.

(** The code points of UTF-8 text. *)
Fixpoint continuation (n : nat) (acc : Z) (s : string) : Z * string :=
  match n, s with
  | S n', String c s' => continuation n' (acc * 64 + Z.land (byte_of c) 63) s'
  | _, _ => (acc, s)
  end.

Fixpoint chars (fuel : nat) (s : string) : list Z :=
  match fuel, s with
  | S fuel', String c s' =>
      let b := byte_of c in
      let '(point, rest) :=
        if (b <? 128)%Z then (b, s')
        else if (b <? 224)%Z then continuation 1 (Z.land b 31) s'
        else if (b <? 240)%Z then continuation 2 (Z.land b 15) s'
        else continuation 3 (Z.land b 7) s' in
      point :: chars fuel' rest
  | _, _ => []
  end.

(** [s.chars()]: a text has at most as many characters as bytes. *)
Definition chars_of (s : string) : list Z := chars (String.length s) s.

(** [char::is_whitespace]: the Unicode property White_Space. *)
Definition is_whitespace (c : Z) : bool :=
  in_range 9 13 c || in_range 8192 8202 c
  || existsb (Z.eqb c) [32; 133; 160; 5760; 8232; 8233; 8239; 8287; 12288].

(** [u8::to_ascii_lowercase] and [str::to_ascii_lowercase]. *)
Definition to_ascii_lowercase (c : Z) : Z := if in_range 65 90 c then c + 32 else c.

Fixpoint lowercase (s : string) : string :=
  match s with
  | EmptyString => EmptyString
  | String c s' => String (char_of (to_ascii_lowercase (byte_of c))) (lowercase s')
  end.

(** [str::eq_ignore_ascii_case]. *)
Definition eq_ignore_ascii_case (s t : string) : bool := String.eqb (lowercase s) (lowercase t).

(** [str::is_char_boundary]: the start of a character, or the end of the text. *)
Definition is_char_boundary (s : string) (i : nat) : bool :=
  match String.get i s with
  | Some c => negb (in_range 128 191 (byte_of c))
  | None => (i =? String.length s)%nat
  end.

(** [str::get(a..b)]. *)
Definition slice (s : string) (a b : nat) : option string :=
  if is_char_boundary s a && is_char_boundary s b then str_get s a b else None.

(** [value.as_bytes().get(i) == Some(&byte)]. *)
Definition byte_is (s : string) (i : nat) (b : Z) : bool :=
  opt_existsb (fun c => byte_of c =? b)%Z (String.get i s).

Fixpoint take_while (p : ascii -> bool) (s : string) : string :=
  match s with
  | String c s' => if p c then String c (take_while p s') else EmptyString
  | EmptyString => EmptyString
  end.

Fixpoint str_drop (n : nat) (s : string) : string :=
  match n, s with S n', String _ s' => str_drop n' s' | _, _ => s end.

(** ** Prefixes *)

(** The text does not go on with a byte of [p]. *)
Definition stops (p : ascii -> bool) (text : string) : Prop :=
  match text with String c _ => p c = false | EmptyString => True end.

Lemma take_while_app p s text :
  str_forallb p s = true -> stops p text -> take_while p (s ++ text) = s.
Proof.
  intros Hs Ht. induction s as [|c s IH]; [by destruct text; simpl in *; [|rewrite Ht]|].
  rewrite append_cons. simpl in *. bools. by rewrite H, IH.
Qed.

Lemma str_drop_app s text : str_drop (String.length s) (s ++ text) = text.
Proof. induction s as [|c s IH]; [by destruct text|exact IH]. Qed.

(** A text is its longest prefix in [p] and the rest. *)
Lemma take_while_split p s :
  s = (take_while p s ++ str_drop (String.length (take_while p s)) s)%string
  /\ str_forallb p (take_while p s) = true.
Proof.
  induction s as [|c s [IH1 IH2]]; [done|]. simpl. destruct (p c) eqn:E; [|done]. simpl.
  rewrite append_cons, E. split; [by rewrite <- IH1|done].
Qed.

(** ** [str::parse] *)

Definition digits_value (acc : Z) (s : string) : Z :=
  (fix go (acc : Z) (s : string) :=
     match s with
     | EmptyString => acc
     | String c s' => go (acc * 10 + (byte_of c - 48)) s'
     end) acc s.

Definition digits (s : string) : bool := negb (String.eqb s "") && str_forallb is_digit s.

(** An unsigned integer of at most [max]: digits, after an optional plus sign. *)
Definition parse_unsigned (max : Z) (s : string) : option Z :=
  let body := default s (strip_prefix "+" s) in
  if digits body && (digits_value 0 body <=? max)%Z then Some (digits_value 0 body) else None.

Definition parse_i64 (s : string) : option Z :=
  match strip_prefix "-" s with
  | Some body =>
      if digits body && (digits_value 0 body <=? 2 ^ 63)%Z
      then Some (- digits_value 0 body) else None
  | None => parse_unsigned (2 ^ 63 - 1) s
  end.

(** The double nearest to [m * 10 ^ e]: one division of two integers, correctly rounded. *)
Definition decimal_f64 (negative : bool) (m e : Z) : f64 :=
  match m with
  | Z.pos p =>
      if (0 <=? e)%Z then binary_normalize F64.prec F64.emax
                            (if negative then - (m * 10 ^ e) else m * 10 ^ e) 0 negative
      else
        match 10 ^ (- e) with
        | Z.pos q => F64.div (S754_finite negative p 0) (S754_finite false q 0)
        | _ => S754_zero negative
        end
  | _ => S754_zero negative
  end.

(** [f64::from_str]: a sign, then [inf], [infinity], [nan], or digits with at most one point and
    an exponent. *)
Definition parse_exponent (s : string) : option Z :=
  match s with
  | EmptyString => Some 0
  | String c s' =>
      if String.eqb (lowercase (String c EmptyString)) "e" then
        match strip_prefix "-" s' with
        | Some body => if digits body then Some (- digits_value 0 body) else None
        | None =>
            let body := default s' (strip_prefix "+" s') in
            if digits body then Some (digits_value 0 body) else None
        end
      else None
  end.

Definition parse_decimal (negative : bool) (s : string) : option f64 :=
  let whole := take_while is_digit s in
  let rest := str_drop (String.length whole) s in
  let '(fraction, rest) :=
    match strip_prefix "." rest with
    | Some rest =>
        let fraction := take_while is_digit rest in
        (fraction, str_drop (String.length fraction) rest)
    | None => (EmptyString, rest)
    end in
  if String.eqb (whole ++ fraction) "" then None
  else
    e ← parse_exponent rest;
    Some (decimal_f64 negative (digits_value 0 (whole ++ fraction)) (e - len fraction)).

Definition parse_f64 (s : string) : option f64 :=
  let negative := starts_with "-" s in
  let body := default (default s (strip_prefix "+" s)) (strip_prefix "-" s) in
  let word := lowercase body in
  if String.eqb word "inf" || String.eqb word "infinity" then Some (S754_infinity negative)
  else if String.eqb word "nan" then Some S754_nan
  else parse_decimal negative body.

Example parse_f64_exact : parse_f64 "-12.5e1" = Some (F64.of_Z (-125)).
Proof. reflexivity. Qed.
Example parse_f64_tenth : parse_f64 "0.1" = Some (F64.div (F64.of_Z 1) (F64.of_Z 10)).
Proof. reflexivity. Qed.
Example parse_f64_rejects : map parse_f64 ["."; "e1"; ""; "1e"; "+-1"]%string = [None; None; None; None; None].
Proof. reflexivity. Qed.
Example parse_unsigned_plus : parse_unsigned 255 "+7" = Some 7.
Proof. reflexivity. Qed.

(** ** Printing a double

    [f64::to_string]: the shortest digits that read back as the number, without an exponent. *)

Module Display.
Fixpoint zeros (n : nat) : string :=
  match n with O => EmptyString | S n => String "0" (zeros n) end.

(** The integer nearest to [a / b], for positive integers. *)
Definition round_div (a b : Z) : Z := (2 * a + b) / (2 * b).

(** How many tens [a / b] is multiplied with until it is at least one. *)
Fixpoint tens (fuel : nat) (a b : Z) : Z :=
  match fuel with
  | O => 0
  | S fuel => if (b <=? a)%Z then 0 else 1 + tens fuel (10 * a) b
  end.

(** The position of the first digit of [a / b]: it is below [10 ^ k] and not below
    [10 ^ (k - 1)]. *)
Definition decimal_point (a b : Z) : Z :=
  if (b <=? a)%Z then tens 310 1 (a / b + 1) else 1 - tens 330 a b.

(** The digits of [a / b] to [n] places from the first, with the place of the last. *)
Definition decimal_digits (a b n : Z) : Z * Z :=
  let k := decimal_point a b in
  let e := n - k in
  let d := if (0 <=? e)%Z then round_div (a * 10 ^ e) b else round_div a (b * 10 ^ (- e)) in
  if (d =? 10 ^ n)%Z then (10 ^ (n - 1), 1 - e) else (d, - e).

(** The first number of digits that reads back as [x], at most 17. *)
Fixpoint shortest (fuel : nat) (x : f64) (a b n : Z) : Z * Z :=
  let '(d, e) := decimal_digits a b n in
  match fuel with
  | S fuel => if F64.eqb (decimal_f64 false d e) x then (d, e) else shortest fuel x a b (n + 1)
  | O => (d, e)
  end.

Definition positional (d e : Z) : string :=
  let digits := dec d in
  let n := String.length digits in
  if (0 <=? e)%Z then (digits ++ zeros (Z.to_nat e))%string
  else
    let places := Z.to_nat (- e) in
    if (n <=? places)%nat then ("0." ++ zeros (places - n) ++ digits)%string
    else (substring 0 (n - places) digits ++ "." ++ str_drop (n - places) digits)%string.

Definition text (x : f64) : string :=
  let sign (negative : bool) := if negative then "-"%string else EmptyString in
  match x with
  | S754_nan => "NaN"
  | S754_infinity negative => sign negative ++ "inf"
  | S754_zero negative => sign negative ++ "0"
  | S754_finite negative m e =>
      let '(a, b) := if (0 <=? e)%Z then (Z.pos m * 2 ^ e, 1) else (Z.pos m, 2 ^ (- e)) in
      let '(d, e) := shortest 16 (F64.abs x) a b 1 in
      sign negative ++ positional d e
  end%string.

Example text_reads :
  map (fun s => text (default F64.nan (parse_f64 s)))
    ["0.1"; "5"; "-12.75"; "1e-6"; "1e23"; "123456.789"; "-0"; "0.30000000000000004"; "5e-7"]%string
  = ["0.1"; "5"; "-12.75"; "0.000001"; "100000000000000000000000"; "123456.789"; "-0";
     "0.30000000000000004"; "0.0000005"]%string.
Proof. vm_compute. reflexivity. Qed.
End Display.

Lemma substring_app_r p s n : substring (String.length p) n (p ++ s) = substring 0 n s.
Proof. induction p as [|c p IH]; [done|]. exact IH. Qed.

Lemma substring_app_l m q : substring 0 (String.length m) (m ++ q) = m.
Proof. induction m as [|c m IH]; [by destruct q|]. simpl. f_equal. exact IH. Qed.

(** ** Printed integers *)

Lemma byte_of_char b : 0 <= b < 256 -> byte_of (char_of b) = b.
Proof. intros Hb. unfold byte_of, char_of. rewrite N_ascii_embedding by lia. lia. Qed.

Lemma digit_char d : 0 <= d < 10 -> is_digit (char_of (48 + d)) = true.
Proof.
  intros Hd. unfold is_digit, in_range. rewrite byte_of_char by lia.
  apply andb_true_iff. rewrite !Z.leb_le. lia.
Qed.

(** The loop of [dec] with the digits so far. *)
Fixpoint dec_loop (fuel : nat) (n : Z) (acc : string) : string :=
  match fuel with
  | O => acc
  | S fuel' =>
      let acc' := String (char_of (48 + n mod 10)) acc in
      if (n <? 10)%Z then acc' else dec_loop fuel' (n / 10) acc'
  end.

Lemma dec_loop_dec n : dec n = dec_loop 20 n EmptyString.
Proof. reflexivity. Qed.

Lemma dec_loop_app fuel n acc x :
  (dec_loop fuel n acc ++ x)%string = dec_loop fuel n (acc ++ x)%string.
Proof.
  revert n acc. induction fuel as [|fuel IH]; intros n acc; simpl; [done|].
  destruct (n <? 10)%Z; [by rewrite append_cons|]. by rewrite IH, append_cons.
Qed.

Definition digit_head (s : string) : Prop :=
  exists d u, s = String (char_of (48 + d)) u /\ 0 <= d < 10.

Lemma dec_loop_head fuel n acc : digit_head acc -> digit_head (dec_loop fuel n acc).
Proof.
  revert n acc. induction fuel as [|fuel IH]; intros n acc Ha; [done|]. cbn [dec_loop]. cbv zeta.
  assert (Hd : digit_head (String (char_of (48 + n mod 10)) acc))
    by (eexists _, _; split; [done|apply Z.mod_pos_bound; lia]).
  destruct (n <? 10)%Z; [done|by apply IH].
Qed.

Lemma dec_head n x : digit_head (dec n ++ x).
Proof.
  rewrite dec_loop_dec, dec_loop_app. cbn [dec_loop]. cbv zeta.
  assert (Hd : digit_head (String (char_of (48 + n mod 10)) (EmptyString ++ x)))
    by (eexists _, _; split; [done|apply Z.mod_pos_bound; lia]).
  destruct (n <? 10)%Z; [done|]. by apply (dec_loop_head 19).
Qed.

(** A printed integer is digits that read back as it. *)
Lemma dec_loop_digits fuel n acc :
  0 <= n -> str_forallb is_digit acc = true -> str_forallb is_digit (dec_loop fuel n acc) = true.
Proof.
  revert n acc. induction fuel as [|fuel IH]; intros n acc Hn Ha; [done|]. cbn [dec_loop]. cbv zeta.
  assert (Hc : str_forallb is_digit (String (char_of (48 + n mod 10)) acc) = true).
  { simpl. rewrite digit_char by (apply Z.mod_pos_bound; lia). done. }
  destruct (n <? 10)%Z; [done|]. apply IH; [apply Z.div_pos; lia|done].
Qed.

Lemma digits_value_loop fuel n acc :
  0 <= n < 10 ^ Z.of_nat fuel -> digits_value 0 (dec_loop fuel n acc) = digits_value n acc.
Proof.
  revert n acc. induction fuel as [|fuel IH]; intros n acc Hn; [simpl in *; f_equal; lia|].
  cbn [dec_loop]. cbv zeta. pose proof (Z.mod_pos_bound n 10 ltac:(lia)) as Hm.
  assert (Hread : forall a, digits_value a (String (char_of (48 + n mod 10)) acc)
                    = digits_value (a * 10 + n mod 10) acc).
  { intros a. unfold digits_value. rewrite byte_of_char by lia. f_equal. lia. }
  destruct (Z.ltb_spec n 10); [rewrite Hread, Z.mod_small by lia; f_equal; lia|].
  rewrite IH, Hread by (rewrite Nat2Z.inj_succ, Z.pow_succ_r in Hn by lia;
    split; [apply Z.div_pos; lia|apply Z.div_lt_upper_bound; lia]).
  f_equal. pose proof (Z.div_mod n 10). lia.
Qed.

Lemma dec_value n : 0 <= n < 2 ^ 64 -> digits_value 0 (dec n) = n.
Proof.
  intros Hn. rewrite dec_loop_dec, digits_value_loop; [done|].
  split; [lia|]. etransitivity; [apply Hn|]. vm_compute. reflexivity.
Qed.

Lemma dec_digits n : 0 <= n -> digits (dec n) = true.
Proof.
  intros Hn. unfold digits. rewrite dec_loop_dec, dec_loop_digits by done.
  pose proof (dec_head n EmptyString) as (d & u & Hd & _).
  rewrite dec_loop_dec, dec_loop_app in Hd. rewrite append_nil in Hd. by rewrite Hd.
Qed.

Lemma parse_i64_dec n : 0 <= n < 2 ^ 63 -> parse_i64 (dec n) = Some n.
Proof.
  intros Hn. unfold parse_i64, parse_unsigned.
  pose proof (dec_digits n ltac:(lia)) as Hd. pose proof (dec_value n ltac:(lia)) as Hv.
  assert (Hsign : forall c, is_digit c = false -> strip_prefix (String c EmptyString) (dec n) = None).
  { intros c Hc. destruct (dec n) as [|x s]; [done|]. simpl.
    destruct (ascii_dec c x) as [->|]; [|done]. unfold digits in Hd. simpl in Hd. by rewrite Hc in Hd. }
  rewrite !Hsign by done. simpl. rewrite Hd, Hv. simpl.
  by rewrite (proj2 (Z.leb_le n (2 ^ 63 - 1))) by lia.
Qed.

Lemma parse_i64_negative n : 0 <= n <= 2 ^ 63 -> parse_i64 ("-" ++ dec n) = Some (- n).
Proof.
  intros Hn. unfold parse_i64. rewrite strip_prefix_app, dec_digits, dec_value by lia. simpl.
  by rewrite (proj2 (Z.leb_le n (2 ^ 63))) by lia.
Qed.
