(* ===== verification/Btree.v ===== *)
(** * Ordered maps

    Rust's [BTreeMap] where the source observes its order: the list of its
    entries, in strictly ascending order of their keys. *)

From Stdlib Require Import Sorting.Sorted Sorting.Permutation.
From S2P Require Import Prelude.

(** The order of the keys is a strict total order. *)
Class TotalOrder {K} (cmp : K -> K -> comparison) : Prop := {
  order_eq k l : cmp k l = Eq <-> k = l;
  order_antisym k l : cmp l k = CompOpp (cmp k l);
  order_trans k l m : cmp k l = Lt -> cmp l m = Lt -> cmp k m = Lt
}.

Section map.
Context {K V : Type} (cmp : K -> K -> comparison).

(** [BTreeMap::get]. *)
Fixpoint bt_get (k : K) (m : list (K * V)) : option V :=
  match m with
  | [] => None
  | (l, v) :: m' => match cmp k l with Eq => Some v | _ => bt_get k m' end
  end.

(** [BTreeMap::insert]: the new map, and the value the key had. *)
Fixpoint bt_insert (k : K) (v : V) (m : list (K * V)) : list (K * V) * option V :=
  match m with
  | [] => ([(k, v)], None)
  | (l, w) :: m' =>
      match cmp k l with
      | Lt => ((k, v) :: m, None)
      | Eq => ((k, v) :: m', Some w)
      | Gt => let '(m'', old) := bt_insert k v m' in ((l, w) :: m'', old)
      end
  end.

(** The keys ascend. *)
Fixpoint bt_sorted (m : list (K * V)) : Prop :=
  match m with
  | [] => True
  | (k, _) :: m' => (forall l v, (l, v) ∈ m' -> cmp k l = Lt) /\ bt_sorted m'
  end.

Context `{!TotalOrder cmp}.

Lemma order_refl k : cmp k k = Eq.
Proof. by apply order_eq. Qed.

Lemma bt_sorted_keys m : bt_sorted m -> NoDup (map fst m).
Proof.
  induction m as [|[k v] m IH]; simpl; [constructor|]. intros [Hk Hs].
  constructor; [|by apply IH]. intros [[l w] [-> Hl]]%list_elem_of_fmap.
  specialize (Hk _ _ Hl). simpl in Hk. by rewrite order_refl in Hk.
Qed.

Lemma bt_get_below k m : (forall l v, (l, v) ∈ m -> cmp k l = Lt) -> bt_get k m = None.
Proof.
  induction m as [|[l v] m IH]; simpl; [done|]. intros Hm.
  rewrite (Hm l v) by left. apply IH. intros l' v' Hl. apply (Hm l' v'). by right.
Qed.

Lemma bt_get_elem k v m : bt_sorted m -> bt_get k m = Some v <-> (k, v) ∈ m.
Proof.
  induction m as [|[l w] m IH]; simpl; [by split; [|inversion 1]|]. intros [Hl Hs].
  rewrite elem_of_cons. destruct (cmp k l) eqn:E.
  - apply order_eq in E as ->. split; [intros [= ->]; by left|]. intros [[= ->]|Hk]; [done|].
    specialize (Hl _ _ Hk). by rewrite order_refl in Hl.
  - rewrite IH by done. split; [by right|]. intros [[= -> ->]|Hk]; [by rewrite order_refl in E|done].
  - rewrite IH by done. split; [by right|]. intros [[= -> ->]|Hk]; [by rewrite order_refl in E|done].
Qed.

Lemma bt_insert_elem k v m l w :
  (l, w) ∈ fst (bt_insert k v m) -> l = k /\ w = v \/ (l, w) ∈ m.
Proof.
  induction m as [|[k' v'] m IH]; simpl.
  - rewrite list_elem_of_singleton. intros [= -> ->]. by left.
  - destruct (cmp k k').
    + simpl. rewrite !elem_of_cons. intros [[= -> ->]|Hl]; [by left|by right; right].
    + simpl. rewrite !elem_of_cons. intros [[= -> ->]|Hl]; [by left|by right].
    + destruct (bt_insert k v m) as [m'' old]. simpl in *. rewrite !elem_of_cons.
      intros [[= -> ->]|Hl]; [right; by left|]. destruct (IH Hl) as [?|?]; [by left|by right; right].
Qed.

Lemma bt_insert_sorted k v m : bt_sorted m -> bt_sorted (fst (bt_insert k v m)).
Proof.
  induction m as [|[l w] m IH]; simpl; [by intros _; split; [inversion 1|]|]. intros [Hl Hs].
  destruct (cmp k l) eqn:E.
  - apply order_eq in E as ->. by split.
  - simpl. split; [|done]. intros l' v'. rewrite elem_of_cons. intros [[= -> ->]|Hk]; [done|].
    by eapply order_trans, Hl, Hk.
  - specialize (IH Hs). pose proof (bt_insert_elem k v m) as He.
    destruct (bt_insert k v m) as [m'' old]. simpl in *. split; [|done]. intros l' v' Hk.
    destruct (He _ _ Hk) as [[-> ->]|Hk']; [by rewrite order_antisym, E|by eapply Hl].
Qed.

(** The value replaced is the one the key had. *)
Lemma bt_insert_old k v m : bt_sorted m -> snd (bt_insert k v m) = bt_get k m.
Proof.
  induction m as [|[l w] m IH]; simpl; [done|]. intros [Hl Hs]. destruct (cmp k l) eqn:E; [done| |].
  - simpl. symmetry. apply bt_get_below. intros l' v' Hk. eapply order_trans; [exact E|by eapply Hl].
  - rewrite <- IH by done. by destruct (bt_insert k v m).
Qed.

Lemma bt_get_insert k v m l :
  bt_get l (fst (bt_insert k v m)) = match cmp l k with Eq => Some v | _ => bt_get l m end.
Proof.
  induction m as [|[k' v'] m IH]; simpl; [done|]. destruct (cmp k k') eqn:E; simpl.
  - apply order_eq in E as ->. by destruct (cmp l k').
  - done.
  - destruct (bt_insert k v m) as [m'' old]. simpl in *. rewrite IH.
    destruct (cmp l k') eqn:E', (cmp l k) eqn:E''; try done.
    apply order_eq in E'. apply order_eq in E''. subst. by rewrite order_refl in E.
Qed.
End map.

#[export] Instance string_order : TotalOrder String.compare.
Proof.
  split.
  - intros k l. split; [apply String.compare_eq_iff|intros ->].
    induction l as [|c l IH]; simpl; [done|]. unfold Ascii.compare. by rewrite N.compare_refl.
  - intros k l. apply String.compare_antisym.
  - intros s. induction s as [|a s IH]; intros [|b t] [|c u]; simpl; try done.
    destruct (Ascii.compare a b) eqn:Eab; try done; intros Hst.
    + apply Ascii.compare_eq_iff in Eab as ->. destruct (Ascii.compare b c); try done. by apply IH.
    + intros Htu. assert (Hac : Ascii.compare a c = Lt); [|by rewrite Hac].
      destruct (Ascii.compare b c) eqn:Ebc; try done.
      * apply Ascii.compare_eq_iff in Ebc as ->. done.
      * unfold Ascii.compare in *. rewrite N.compare_lt_iff in *. lia.
Qed.

#[export] Instance Z_order : TotalOrder Z.compare.
Proof.
  split; [apply Z.compare_eq_iff|intros; by rewrite <- Z.compare_antisym|].
  intros k l m. rewrite !Z.compare_lt_iff. lia.
Qed.

(** ** Orders shared by the components

    The order of strings by their bytes ([String.compare]) as a strict total
    order, and insertion sorts: sortedness and permutation for any comparison
    by a string key. *)

Definition slt (s t : string) : Prop := String.compare s t = Lt.
Definition sle (s t : string) : Prop := String.compare s t <> Gt.

Lemma compare_refl s : String.compare s s = Eq.
Proof. exact (order_refl String.compare s). Qed.

Lemma slt_irrefl s : ~ slt s s.
Proof. unfold slt. by rewrite compare_refl. Qed.

Lemma slt_trans s t u : slt s t -> slt t u -> slt s u.
Proof. exact (order_trans (cmp := String.compare) s t u). Qed.

Lemma sle_cases s t : sle s t <-> slt s t \/ s = t.
Proof.
  unfold sle, slt. split.
  - destruct (String.compare s t) eqn:E; [right; by apply String.compare_eq_iff|by left|done].
  - intros [->| ->]; [done|by rewrite compare_refl].
Qed.

Lemma sle_trans s t u : sle s t -> sle t u -> sle s u.
Proof.
  rewrite !sle_cases. intros [Hst| ->] [Htu| ->]; auto. left. by eapply slt_trans.
Qed.

Lemma compare_gt s t : String.compare s t = Gt -> slt t s.
Proof. unfold slt. rewrite String.compare_antisym. by destruct (String.compare t s). Qed.

Lemma slt_sle s t : slt s t -> sle s t.
Proof. rewrite sle_cases. auto. Qed.

Lemma slt_not_eq s t : slt s t -> s <> t.
Proof. intros Hs ->. by apply slt_irrefl in Hs. Qed.

(** ** Insertion sort by a string key *)
Section insertion.
Context {A : Type} (key : A -> string).

Fixpoint insert_by (a : A) (l : list A) : list A :=
  match l with
| [] => [a]
| b :: l' => match String.compare (key a) (key b) with
               | Gt => b :: insert_by a l'
               | _ => a :: l
               end
  end.

Definition sort_by (l : list A) : list A := foldr insert_by [] l.

Definition key_le (a b : A) : Prop := sle (key a) (key b).
Definition key_lt (a b : A) : Prop := slt (key a) (key b).

Lemma insert_by_perm a l : Permutation (insert_by a l) (a :: l).
Proof.
  induction l as [|b l IH]; simpl; [done|].
  destruct (String.compare _ _); [done|done|]. rewrite IH. apply perm_swap.
Qed.

Lemma insert_by_sorted a l : StronglySorted key_le l -> StronglySorted key_le (insert_by a l).
Proof.
  induction l as [|b l IH]; simpl; intros Hl; [by repeat constructor|].
  apply StronglySorted_inv in Hl as [Hl Hb].
  assert (Hins : forall p, Forall p l -> p a -> Forall p (insert_by a l)).
  { intros p Hp Ha. rewrite insert_by_perm. by constructor. }
  destruct (String.compare (key a) (key b)) eqn:E.
  1, 2: assert (Hab : key_le a b) by (unfold key_le, sle; by rewrite E);
    constructor; [by constructor|]; constructor; [done|];
    eapply Forall_impl; [exact Hb|]; intros x; by apply sle_trans.
  constructor; [by apply IH|]. apply Hins; [done|]. apply slt_sle, compare_gt, E.
Qed.

Lemma sort_by_perm l : Permutation (sort_by l) l.
Proof. induction l as [|a l IH]; simpl; [done|]. by rewrite insert_by_perm, IH. Qed.

Lemma sort_by_sorted l : StronglySorted key_le (sort_by l).
Proof. induction l as [|a l IH]; simpl; [constructor|by apply insert_by_sorted]. Qed.

(** Two sorted lists with distinct keys and the same elements are equal. *)
Lemma sorted_unique l k :
  StronglySorted key_le l -> StronglySorted key_le k -> Permutation l k -> NoDup (map key l) -> l = k.
Proof.
  revert k. induction l as [|a l IH]; intros k Hl Hk Hp Hn.
  { apply Permutation_nil in Hp. by subst. }
  destruct k as [|b k]; [by apply Permutation_sym, Permutation_nil in Hp|].
  apply StronglySorted_inv in Hl as [Hl Ha]. apply StronglySorted_inv in Hk as [Hk Hb].
  apply NoDup_cons in Hn as [Hna Hn].
  assert (Hab : a = b).
  { assert (Hin : a ∈ b :: k) by (rewrite <- Hp; left).
    assert (Hin' : b ∈ a :: l) by (rewrite Hp; left).
    apply elem_of_cons in Hin as [->|Hin]; [done|].
    apply elem_of_cons in Hin' as [->|Hin']; [done|].
    rewrite Forall_forall in Ha, Hb.
    pose proof (Ha _ Hin') as H1. pose proof (Hb _ Hin) as H2. unfold key_le in *.
    apply sle_cases in H1 as [H1|H1]; [apply sle_cases in H2 as [H2|H2]|].
    - exfalso. by eapply slt_irrefl, slt_trans.
    - exfalso. rewrite H2 in H1. by eapply slt_irrefl.
    - exfalso. apply Hna. rewrite H1. apply list_elem_of_fmap. by exists b. }
  subst b. f_equal. apply IH; try done. by eapply Permutation_cons_inv.
Qed.

Lemma strict_NoDup l : StronglySorted key_lt l -> NoDup (map key l).
Proof.
  induction 1 as [|a l Hl IH Ha]; simpl; [constructor|]. constructor; [|done].
  intros Hx. apply list_elem_of_fmap in Hx as (b & Eb & Hb).
  rewrite Forall_forall in Ha. specialize (Ha b Hb). unfold key_lt in Ha. rewrite Eb in Ha.
  by apply slt_irrefl in Ha.
Qed.

(** Sorting forgets the order of members with distinct keys. *)
Lemma sort_by_permutation l k :
  Permutation l k -> NoDup (map key l) -> sort_by l = sort_by k.
Proof.
  intros Hp Hn. apply sorted_unique; [apply sort_by_sorted..| |].
  - by rewrite !sort_by_perm.
  - eapply NoDup_Permutation_proper; [|exact Hn]. apply Permutation_map, sort_by_perm.
Qed.
End insertion.
