(* ===== verification/Core.v ===== *)
(** * Identities, names, and logical values

    The crate [policysql-core] (lib.rs): the numeric identities, the validated
    names, the trusted session, the logical types and values, and the contract a
    value must satisfy on its way in and out. Regular expressions are the crate
    regex-lite's: an operation of the class [Regex]. *)

From S2P Require Import Prelude F64 Utf8.

(* [core/lib.rs:535-545] CoreError *)
Module CoreError.
Inductive core_error :=
| EmptyIdentifier | EmptyResultName | ZeroIdentity | InvalidCanonicalKey | InvalidParameterName
| ReservedParameterNamespace | ReservedSessionKey | EmptySubject.
#[global] Instance core_error_eq_dec : EqDecision core_error.
Proof. solve_decision. Defined.
End CoreError.
Abbreviation core_result A := (A + CoreError.core_error)%type.

(* [core/lib.rs:8-8]! SERVER_PARAMETER_PREFIX *)
Definition SERVER_PARAMETER_PREFIX : string := "__policysql_".

(** ** Identities *)

(** A [ResourceId] and a [PolicyId] are their numbers. *)
(* [core/lib.rs:10-38]! numeric_id *)
Definition numeric_id (value : Z) : core_result Z :=
  if (value =? 0)%Z then inr CoreError.ZeroIdentity else inl value.

(* [core/lib.rs:40-45] ColumnId *)
Record ColumnId := { column_resource : Z; column_ordinal : Z }.

#[export] Instance column_id_eq_dec : EqDecision ColumnId.
Proof. solve_decision. Defined.
#[export] Instance column_id_countable : Countable ColumnId.
Proof.
  refine (inj_countable' (fun c => (column_resource c, column_ordinal c))
            (fun '(r, o) => {| column_resource := r; column_ordinal := o |}) _).
  by intros [].
Defined.

(** The derived order of [ColumnId]. *)
Definition column_compare (c d : ColumnId) : comparison :=
  match Z.compare (column_resource c) (column_resource d) with
  | Eq => Z.compare (column_ordinal c) (column_ordinal d)
  | o => o
  end.

(** ** Names *)

(* [core/lib.rs:92-94] non_empty *)
Definition non_empty (value : string) : bool :=
  existsb (fun c => negb (is_whitespace c)) (chars_of value).

(* [core/lib.rs:96-102] canonical_key *)
Definition canonical_key (value : string) : bool :=
  match value with
  | String c rest =>
      is_lower c && str_forallb (fun c => is_lower c || is_digit c || (byte_of c =? 95)%Z) rest
  | EmptyString => false
  end.

(* [core/lib.rs:64-90]! validated_string *)
Definition validated_string (validation : string -> bool) (e : CoreError.core_error)
    (value : string) : core_result string :=
  if negb (validation value) then inr e else inl value.

(* [core/lib.rs:104-109]! ResourceName *)
Definition resource_name_new := validated_string non_empty CoreError.EmptyIdentifier.
(* [core/lib.rs:110-115]! ColumnName *)
Definition column_name_new := validated_string non_empty CoreError.EmptyIdentifier.
(* [core/lib.rs:116-121]! ResultName *)
Definition result_name_new := validated_string non_empty CoreError.EmptyResultName.
(* [core/lib.rs:122-127]! RoleName *)
Definition role_name_new := validated_string canonical_key CoreError.InvalidCanonicalKey.
(* [core/lib.rs:128-133]! SessionKey *)
Definition session_key_new := validated_string canonical_key CoreError.InvalidCanonicalKey.
(* [core/lib.rs:134-139]! SnapshotId *)
Definition snapshot_id_new := validated_string non_empty CoreError.EmptyIdentifier.
(* [core/lib.rs:140-145]! BackendProfileId *)
Definition backend_profile_id_new := validated_string non_empty CoreError.EmptyIdentifier.

(* [core/lib.rs:147-172]! ClientParameterName *)
Definition client_parameter_name_new (value : string) : core_result string :=
  if starts_with SERVER_PARAMETER_PREFIX value then inr CoreError.ReservedParameterNamespace
  else if negb (canonical_key value) then inr CoreError.InvalidParameterName
  else inl value.

(* [core/lib.rs:174-195]! ServerParameterName *)
Definition from_trusted_suffix (suffix : string) : core_result string :=
  if negb (canonical_key suffix) then inr CoreError.InvalidParameterName
  else inl (SERVER_PARAMETER_PREFIX ++ suffix)%string.

(** ** Types and values *)

(* [core/lib.rs:197-203] OperationKind *)
Module OperationKind.
Inductive operation_kind := Select | Insert | Update | Delete.
#[global] Instance operation_kind_eq_dec : EqDecision operation_kind.
Proof. solve_decision. Defined.
End OperationKind.

(* [core/lib.rs:205-217] LogicalType *)
Module LogicalType.
Inductive logical_type :=
| String | Integer | Boolean | Int64 | Number | Bytes | Date | DateTime | Instant | Json.
#[global] Instance logical_type_eq_dec : EqDecision logical_type.
Proof. solve_decision. Defined.
End LogicalType.
Abbreviation LogicalType := LogicalType.logical_type.

(* [core/lib.rs:219-227] StorageClass *)
Module StorageClass.
Inductive storage_class := Integer | Real | Text | Blob.
#[global] Instance storage_class_eq_dec : EqDecision storage_class.
Proof. solve_decision. Defined.
End StorageClass.

(* [core/lib.rs:229-236] ValueRepresentation *)
Module ValueRepresentation.
Inductive value_representation := String | Boolean | Number | Base64 | Json.
#[global] Instance value_representation_eq_dec : EqDecision value_representation.
Proof. solve_decision. Defined.
End ValueRepresentation.

(* [core/lib.rs:238-246] ConstraintScalar *)
Module ConstraintScalar.
Inductive constraint_scalar :=
| String (s : string)
| Number (spelling : string)
| Boolean (b : bool).
#[global] Instance constraint_scalar_eq_dec : EqDecision constraint_scalar.
Proof. solve_decision. Defined.
End ConstraintScalar.

(* [core/lib.rs:248-256] ValueConstraints *)
Record ValueConstraints := {
  allowed : list ConstraintScalar.constraint_scalar;
  minimum : option string;
  maximum : option string;
  min_length : option Z;
  max_length : option Z;
  pattern : option string
}.
#[export] Instance value_constraints_eq_dec : EqDecision ValueConstraints.
Proof. solve_decision. Defined.

(* [core/lib.rs:269-278] JsonSchemaType *)
Module JsonSchemaType.
Inductive json_schema_type := Null | Boolean | Integer | Number | String | Array | Object.
#[global] Instance json_schema_type_eq_dec : EqDecision json_schema_type.
Proof. solve_decision. Defined.
End JsonSchemaType.

(* [core/lib.rs:258-267] JsonValueSchema *)
Inductive JsonValueSchema := {
  js_types : list JsonSchemaType.json_schema_type;
  js_properties : list (string * JsonValueSchema);
  js_items : option JsonValueSchema;
  js_required : list string;
  js_additional_properties : bool;
  js_any_of : list JsonValueSchema
}.
#[export] Instance json_value_schema_eq_dec : EqDecision JsonValueSchema.
Proof.
  unfold EqDecision, RelDecision. fix go 1.
  intros [types properties items required additional any].
  intros [types' properties' items' required' additional' any'].
  pose (go' := go : EqDecision JsonValueSchema).
  destruct (decide (types = types')); [|right; congruence].
  destruct (decide (properties = properties')); [|right; congruence].
  destruct (decide (items = items')); [|right; congruence].
  destruct (decide (required = required')); [|right; congruence].
  destruct (decide (additional = additional')); [|right; congruence].
  destruct (decide (any = any')); [|right; congruence].
  left; congruence.
Defined.

(* [core/lib.rs:280-289] ValueDescriptor *)
Record ValueDescriptor := {
  vd_logical_type : LogicalType;
  vd_representation : ValueRepresentation.value_representation;
  vd_nullable : bool;
  vd_format : option string;
  vd_storage : option StorageClass.storage_class;
  vd_constraints : option ValueConstraints;
  vd_json_schema : option JsonValueSchema
}.
#[export] Instance value_descriptor_eq_dec : EqDecision ValueDescriptor.
Proof. solve_decision. Defined.

(* [core/lib.rs:291-300] LogicalValue *)
Module LogicalValue.
Inductive logical_value :=
| Null
| String (s : string)
| Boolean (b : bool)
| Int64 (n : Z)
| Number (x : f64)
| Bytes (bytes : list Z)
| Json (text : string).
#[local] Instance spec_float_eq_dec : EqDecision f64.
Proof. solve_decision. Defined.
#[global] Instance logical_value_eq_dec : EqDecision logical_value.
Proof. solve_decision. Defined.
End LogicalValue.
Abbreviation LogicalValue := LogicalValue.logical_value.

(** ** Formats *)

(** [value.get(a..b).and_then(|value| value.parse().ok())] for an unsigned integer. *)
(* [core/lib.rs:411-413]! basic_date *)
Definition number_at (max : Z) (value : string) (a b : nat) : option Z :=
  part ← slice value a b; parse_unsigned max part.

(* [core/lib.rs:404-428] basic_date *)
Definition basic_date (value : string) : bool :=
  if negb (len value =? 10)%Z || negb (byte_is value 4 45) || negb (byte_is value 7 45)
  then false
  else
    match number_at 65535 value 0 4, number_at 255 value 5 7, number_at 255 value 8 10 with
    | Some year, Some month, Some day =>
        let leap := (year mod 4 =? 0)%Z && (negb (year mod 100 =? 0)%Z || (year mod 400 =? 0)%Z) in
        let maximum :=
          if existsb (Z.eqb month) [1; 3; 5; 7; 8; 10; 12] then Some 31
          else if existsb (Z.eqb month) [4; 6; 9; 11] then Some 30
          else if (month =? 2)%Z then Some (if leap then 29 else 28)
          else None in
        opt_existsb (fun maximum => in_range 1 maximum day) maximum
    | _, _, _ => false
    end.

(** The offset of an RFC 3339 time. *)
(* [core/lib.rs:469-481]! basic_datetime *)
Definition offset_suffix (suffix : string) : bool :=
  String.eqb suffix "Z"
  || ((len suffix =? 6)%Z && (byte_is suffix 0 43 || byte_is suffix 0 45) && byte_is suffix 3 58
      && opt_existsb (fun n => n <? 24)%Z (number_at 255 suffix 1 3)
      && opt_existsb (fun n => n <? 60)%Z (number_at 255 suffix 4 6)).

(** A field of the time below its bound. *)
(* [core/lib.rs:443-446]! basic_datetime *)
Definition field_below (bound : Z) (time : string) (a b : nat) : bool :=
  opt_existsb (fun n => n <? bound)%Z (number_at 255 time a b).

(* [core/lib.rs:430-481] basic_datetime *)
Definition basic_datetime (value : string) (require_offset : bool) : bool :=
  if (len value <? 19)%Z
     || negb (opt_existsb basic_date (slice value 0 10))
     || negb (byte_is value 10 84 || byte_is value 10 32)
  then false
  else
    match slice value 11 19 with
    | None => false
    | Some time =>
        if negb (byte_is time 2 58) || negb (byte_is time 5 58) then false
        else if negb (field_below 24 time 0 2) || negb (field_below 60 time 3 5)
                || negb (field_below 60 time 6 8) then false
        else
          let suffix := default "" (slice value 19 (String.length value)) in
          let suffix :=
            if starts_with "." suffix then
              let digits := take_while is_digit (str_drop 1 suffix) in
              if String.eqb digits "" then None
              else Some (str_drop (String.length digits + 1) suffix)
            else Some suffix in
          match suffix with
          | None => false
          | Some suffix =>
              if negb require_offset then String.eqb suffix "" else offset_suffix suffix
          end
    end.

Definition is_hexdigit (c : ascii) : bool :=
  is_digit c || in_range 97 102 (byte_of c) || in_range 65 70 (byte_of c).

(** [value.bytes().enumerate().all(...)] of the [uuid] format, from byte [index]. *)
(* [core/lib.rs:386-392]! format_accepts *)
Fixpoint uuid_bytes (index : Z) (s : string) : bool :=
  match s with
  | EmptyString => true
  | String c s' =>
      (if existsb (Z.eqb index) [8; 13; 18; 23] then (byte_of c =? 45)%Z else is_hexdigit c)
      && uuid_bytes (index + 1) s'
  end.

(** [value.split_once('@')]. *)
(* [core/lib.rs:394-396]! format_accepts *)
Definition split_at (value : string) : option (string * string) :=
  let local := take_while (fun c => negb (byte_of c =? 64)%Z) value in
  match str_drop (String.length local) value with
  | String _ domain => Some (local, domain)
  | EmptyString => None
  end.

(* [core/lib.rs:381-402] format_accepts *)
Definition format_accepts (value : LogicalValue) (format : option string) : bool :=
  match format, value with
  | None, _ => true
  | Some f, _ =>
      if str_in f ["int64"; "base64"] then true
      else
        match value with
        | LogicalValue.String value =>
            if String.eqb f "uuid" then (len value =? 36)%Z && uuid_bytes 0 value
            else if String.eqb f "email" then
              opt_existsb (fun '(local, domain) =>
                negb (String.eqb local "")
                && negb (str_forallb (fun c => negb (byte_of c =? 46)%Z) domain)) (split_at value)
            else if String.eqb f "iso-date" then basic_date value
            else if String.eqb f "sqlite-datetime" then basic_datetime value false
            else if String.eqb f "rfc3339" then basic_datetime value true
            else false
        | _ => false
        end
  end.

(** ** The value contract *)

(** [regex_lite::Regex::new(pattern)], and [is_match] when the pattern is one. *)
Class Regex := { regex_match : string -> option (string -> bool) }.

Section contract.
Context `{Regex}.

(* [core/lib.rs:327-341]! value_satisfies_contract *)
Definition scalar_allowed (value : LogicalValue) (scalar : ConstraintScalar.constraint_scalar)
    : bool :=
  match value, scalar with
  | LogicalValue.String value, ConstraintScalar.String allowed => String.eqb value allowed
  | LogicalValue.Boolean value, ConstraintScalar.Boolean allowed => Bool.eqb value allowed
  | LogicalValue.Int64 value, ConstraintScalar.Number allowed =>
      bool_decide (parse_i64 allowed = Some value)
  | LogicalValue.Number value, ConstraintScalar.Number allowed =>
      opt_existsb (fun x => F64.eqb x value) (parse_f64 allowed)
  | _, _ => false
  end.

(* [core/lib.rs:345-349]! value_satisfies_contract *)
Definition numeric_value (value : LogicalValue) : option f64 :=
  match value with
  | LogicalValue.Int64 value => Some (F64.of_Z value)
  | LogicalValue.Number value => Some value
  | _ => None
  end.

(** A bound that is not a number, or a value that is none, breaks the bound. *)
(* [core/lib.rs:350-353]! value_satisfies_contract *)
Definition bound_broken (broken : f64 -> f64 -> bool) (value : LogicalValue)
    (bound : option string) : bool :=
  opt_existsb (fun spelling =>
    match numeric_value value, parse_f64 spelling with
    | Some value, Some bound => broken value bound
    | _, _ => true
    end) bound.

(* [core/lib.rs:361-377]! value_satisfies_contract *)
Definition text_accepted (constraints : ValueConstraints) (value : string) : bool :=
  let length := Z.of_nat (List.length (chars_of value)) in
  negb (opt_existsb (fun minimum => length <? minimum)%Z (min_length constraints)
        || opt_existsb (fun maximum => maximum <? length)%Z (max_length constraints)
        || opt_existsb (fun pattern =>
             match regex_match pattern with Some matches => negb (matches value) | None => true end)
             (pattern constraints)).

(* [core/lib.rs:302-379] value_satisfies_contract *)
Definition value_satisfies_contract (value : LogicalValue) (descriptor : ValueDescriptor)
    (max_bytes_per_value : Z) : bool :=
  let too_long :=
    match value with
    | LogicalValue.Bytes bytes => (max_bytes_per_value <? Z.of_nat (length bytes))%Z
    | _ => false
    end in
  if too_long then false
  else if bool_decide (value = LogicalValue.Null) then vd_nullable descriptor
  else if negb (format_accepts value (vd_format descriptor)) then false
  else
    match vd_constraints descriptor with
    | None => true
    | Some constraints =>
        if negb (bool_decide (allowed constraints = []))
           && negb (existsb (scalar_allowed value) (allowed constraints)) then false
        else if bound_broken F64.ltb value (minimum constraints)
                || bound_broken (fun value bound => F64.ltb bound value) value (maximum constraints)
        then false
        else match value with
             | LogicalValue.String value => text_accepted constraints value
             | _ => true
             end
    end.
End contract.

(** ** The trusted session *)

(* [core/lib.rs:488-493] TrustedSession *)
Record TrustedSession := { session_role : string; session_values : gmap string string }.

(** The claims in their order, each a valid key that is not reserved. *)
(* [core/lib.rs:512-517]! TrustedSession::new *)
Fixpoint session_claims (session : list (string * string)) (values : gmap string string)
    : core_result (gmap string string) :=
  match session with
  | [] => inl values
  | (key, value) :: session' =>
      if str_in key ["subject_id"; "role"] then inr CoreError.ReservedSessionKey
      else
        match session_key_new key with
        | inr e => inr e
        | inl key => session_claims session' (<[key := value]> values)
        end
  end.

(* [core/lib.rs:496-522] TrustedSession::new *)
Definition trusted_session_new (role subject_id : string) (session : list (string * string))
    : core_result TrustedSession :=
  if String.eqb subject_id "" then inr CoreError.EmptySubject
  else
    match session_claims session ∅ with
    | inr e => inr e
    | inl values =>
        inl {| session_role := role;
               session_values := <["role" := role]> (<["subject_id" := subject_id]> values) |}
    end.

(* [core/lib.rs:529-532] TrustedSession::get *)
Definition session_get (session : TrustedSession) (key : string) : option string :=
  session_values session !! key.

Example date_leap : map basic_date ["2024-02-29"; "2023-02-29"; "2024-13-01"; "2024-1-01"]%string
  = [true; false; false; false].
Proof. reflexivity. Qed.
Example datetime_offset :
  map (fun s => basic_datetime s true)
    ["2024-02-29T23:59:59Z"; "2024-02-29 23:59:59.5+09:00"; "2024-02-29T23:59:60Z"]%string
  = [true; true; false].
Proof. reflexivity. Qed.
