(* ===== verification/Access.v ===== *)
(** * Authorization

    The rules a session supplied by the wrapper must satisfy, the role it selects and the
    endpoints it opens (crate [policysql-wasm], session.rs, with the types of
    [policysql-gateway], lib.rs). *)

From S2P Require Import Prelude Result F64 Utf8 Core.

(* [gateway/lib.rs:19-25] EndpointPermission *)
Module EndpointPermission.
Inductive endpoint_permission := Execute | Explain | Catalog | Debug.
#[global] Instance endpoint_permission_eq_dec : EqDecision endpoint_permission.
Proof. solve_decision. Defined.
#[global] Instance endpoint_permission_countable : Countable endpoint_permission.
Proof.
  refine (inj_countable'
    (fun p => match p with Execute => 0 | Explain => 1 | Catalog => 2 | Debug => 3 end)
    (fun n => if n =? 0 then Execute else if n =? 1 then Explain
              else if n =? 2 then Catalog else Debug) _).
  by intros [].
Defined.
End EndpointPermission.
Abbreviation EndpointPermission := EndpointPermission.endpoint_permission.

(* [gateway/lib.rs:27-31] AuthContext *)
Record AuthContext := { auth_session : TrustedSession; auth_permissions : gset EndpointPermission }.

(** The claims are a [BTreeMap]: each key once. *)
(* [wasm/session.rs:13-23] SessionInput *)
Record SessionInput := {
  si_principal : string;
  si_subject : string;
  si_roles : list string;
  si_default_role : string;
  si_access : list string;
  si_session : list (string * string)
}.

(* [wasm/session.rs:25-36] AuthorizedSession *)
Record AuthorizedSession := {
  as_principal : string;
  as_subject : string;
  as_role : string;
  as_roles : list string;
  as_access : list string;
  as_session : list (string * string)
}.

Module SessionFault.
(* [wasm/session.rs:38-49] SessionFault *)
Inductive session_fault := Shape | Principal | Subject | Roles | DefaultRole | Access | Session.
End SessionFault.

Module SessionError.
(* [wasm/session.rs:51-57] SessionError *)
Inductive session_error := Malformed (fault : SessionFault.session_fault) | Forbidden.
End SessionError.

(* [wasm/session.rs:59-67] parse_access *)
Definition parse_access (value : string) : option EndpointPermission :=
  if String.eqb value "execute" then Some EndpointPermission.Execute
  else if String.eqb value "explain" then Some EndpointPermission.Explain
  else if String.eqb value "catalog" then Some EndpointPermission.Catalog
  else if String.eqb value "debug" then Some EndpointPermission.Debug
  else None.

(* [wasm/session.rs:69-71] unique *)
Definition unique (values : list string) (expected : nat) : bool :=
  (size (list_to_set values : gset string) =? expected)%nat.

(** Whether a name is valid: [RoleName::new(...).is_ok()]. *)
Definition is_ok {A E} (r : A + E) : bool := match r with inl _ => true | inr _ => false end.

(** The claims the wrapper may not supply. *)
(* [wasm/session.rs:110-112]! authorize_session *)
Definition bad_claim (key : string) : bool :=
  str_in key ["subject_id"; "role"] || negb (is_ok (session_key_new key)).

(** The rules on the shape of the session, which the request does not enter. *)
(* [wasm/session.rs:83-114]! authorize_session *)
Definition check_shape (input : SessionInput)
    : result SessionError.session_error (gset EndpointPermission) :=
  if String.eqb (si_principal input) ""
  then throw (SessionError.Malformed SessionFault.Principal)
  else if String.eqb (si_subject input) ""
  then throw (SessionError.Malformed SessionFault.Subject)
  else if bool_decide (length (si_roles input) = 0)%nat
          || existsb (fun role => negb (is_ok (role_name_new role))) (si_roles input)
          || negb (unique (si_roles input) (length (si_roles input)))
  then throw (SessionError.Malformed SessionFault.Roles)
  else if negb (str_in (si_default_role input) (si_roles input))
  then throw (SessionError.Malformed SessionFault.DefaultRole)
  else
    access ← ok_or (mapM parse_access (si_access input))
               (SessionError.Malformed SessionFault.Access);
    let permissions : gset EndpointPermission := list_to_set access in
    if (size permissions =? 0)%nat || negb (size permissions =? length (si_access input))%nat
    then throw (SessionError.Malformed SessionFault.Access)
    else if existsb (fun '(key, _) => bad_claim key) (si_session input)
    then throw (SessionError.Malformed SessionFault.Session)
    else mret permissions.

(* [wasm/session.rs:73-134] authorize_session *)
Definition authorize_session (input : SessionInput) (requested_role : option string)
    (required : EndpointPermission)
    : result SessionError.session_error (AuthorizedSession * AuthContext) :=
  permissions ← check_shape input;
  let role := default (si_default_role input) requested_role in
  if negb (str_in role (si_roles input)) || negb (bool_decide (required ∈ permissions))
  then throw SessionError.Forbidden
  else
    role_name ← map_err (role_name_new role) SessionError.Forbidden;
    trusted ← map_err (trusted_session_new role_name (si_subject input) (si_session input))
                (SessionError.Malformed SessionFault.Session);
    mret
      ({| as_principal := si_principal input; as_subject := si_subject input; as_role := role;
          as_roles := si_roles input; as_access := si_access input;
          as_session := si_session input |},
       {| auth_session := trusted; auth_permissions := permissions |}).

(* [wasm/session.rs:136-156] activate_authorized *)
Definition activate_authorized (canonical : AuthorizedSession) (required : EndpointPermission)
    : result SessionError.session_error AuthContext :=
  snd <$> authorize_session
    {| si_principal := as_principal canonical; si_subject := as_subject canonical;
       si_roles := as_roles canonical; si_default_role := as_role canonical;
       si_access := as_access canonical; si_session := as_session canonical |}
    (Some (as_role canonical)) required.
