(* ===== verification/Bytes.v ===== *)
(** * The wire codec of bytes

    The file [bytes.rs] of the crate [policysql-core]. The base64 engine is a crate: the class
    [Base64] has its two operations on the standard alphabet. *)

From S2P Require Import Prelude Utf8.

(** [base64::engine::general_purpose::STANDARD]. *)
Class Base64 := {
  standard_decode : string -> option (list Z);
  standard_encode : list Z -> string
}.

(* [core/bytes.rs:8-8]! DEFAULT_MAX_BYTES_PER_VALUE *)
Definition DEFAULT_MAX_BYTES_PER_VALUE : Z := 262144.
(* [core/bytes.rs:12-12]! HARD_MAX_BYTES_PER_VALUE *)
Definition HARD_MAX_BYTES_PER_VALUE : Z := 1048576.

(* [core/bytes.rs:14-18] DecodeError *)
Module DecodeError.
Inductive decode_error := InvalidEncoding | TooLarge.
End DecodeError.

(** The number of ['='] bytes at the end. *)
(* [core/bytes.rs:33-33]! decode *)
Fixpoint trailing_padding (count : nat) (s : string) : nat :=
  match s with
  | EmptyString => count
  | String c s' => trailing_padding (if (byte_of c =? 61)%Z then S count else 0) s'
  end.

(* [core/bytes.rs:35-37]! decode *)
Definition base64_byte (c : ascii) : bool :=
  is_alnum c || (byte_of c =? 43)%Z || (byte_of c =? 47)%Z.

Section codec.
Context `{Base64}.

(* [core/bytes.rs:20-54] decode *)
Definition decode (value : string) (max_bytes : Z) : list Z + DecodeError.decode_error :=
  let n := String.length value in
  let padding := trailing_padding 0 value in
  if negb (n mod 4 =? 0)%nat then inr DecodeError.InvalidEncoding
  else if (2 <? padding)%nat || negb (str_forallb base64_byte (substring 0 (n - padding) value))
  then inr DecodeError.InvalidEncoding
  else if (4 <=? n)%nat && bool_decide (standard_decode (str_drop (n - 4) value) = None)
  then inr DecodeError.InvalidEncoding
  else
    let length := sat_sub (Z.of_nat (n / 4 * 3)) (Z.of_nat padding) in
    if (max_bytes <? length)%Z then inr DecodeError.TooLarge
    else
      match standard_decode value with
      | Some bytes => inl bytes
      | None => inr DecodeError.InvalidEncoding
      end.

(* [core/bytes.rs:56-59] encode *)
Definition encode (value : list Z) : string := standard_encode value.
End codec.

(** ** The bytes codec is RFC 4648

    [decode] accepts exactly the canonical base64 texts, whatever their length, and says
    [TooLarge] of exactly those that decode to more bytes than the limit, before decoding them.
    The law of the engine is RFC 4648: [rfc_decode] below, with padding required and unused bits
    zero. *)

(** ** RFC 4648 *)

(** The value of a character of the standard alphabet. *)
Definition sextet (c : ascii) : option Z :=
  let b := byte_of c in
  if in_range 65 90 b then Some (b - 65)
  else if in_range 97 122 b then Some (b - 71)
  else if in_range 48 57 b then Some (b + 4)
  else if (b =? 43)%Z then Some 62
  else if (b =? 47)%Z then Some 63
  else None.

Definition alphabet (n : Z) : ascii :=
  char_of (if (n <? 26)%Z then n + 65 else if (n <? 52)%Z then n + 71
           else if (n <? 62)%Z then n - 4 else if (n =? 62)%Z then 43 else 47).

Definition pad : ascii := char_of 61.

(** Four characters of a text that goes on: three bytes. *)
Definition full_quad (a b c d : ascii) : option (list Z) :=
  a ← sextet a; b ← sextet b; c ← sextet c; d ← sextet d;
  Some [a * 4 + b / 16; b mod 16 * 16 + c / 4; c mod 4 * 64 + d].

(** The last four characters: up to two of padding, before which the unused bits are zero. *)
Definition last_quad (a b c d : ascii) : option (list Z) :=
  if ascii_dec d pad then
    if ascii_dec c pad then
      a ← sextet a; b ← sextet b;
      if (b mod 16 =? 0)%Z then Some [a * 4 + b / 16] else None
    else
      a ← sextet a; b ← sextet b; c ← sextet c;
      if (c mod 4 =? 0)%Z then Some [a * 4 + b / 16; b mod 16 * 16 + c / 4] else None
  else full_quad a b c d.

Fixpoint rfc_decode (s : string) : option (list Z) :=
  match s with
  | EmptyString => Some []
  | String a (String b (String c (String d rest))) =>
      match rest with
      | EmptyString => last_quad a b c d
      | _ => bytes ← full_quad a b c d; more ← rfc_decode rest; Some (bytes ++ more)
      end
  | _ => None
  end.

Fixpoint rfc_encode (bytes : list Z) : string :=
  match bytes with
  | [] => EmptyString
  | [x] => String (alphabet (x / 4)) (String (alphabet (x mod 4 * 16))
             (String pad (String pad EmptyString)))
  | [x; y] => String (alphabet (x / 4)) (String (alphabet (x mod 4 * 16 + y / 16))
                (String (alphabet (y mod 16 * 4)) (String pad EmptyString)))
  | x :: y :: z :: rest =>
      String (alphabet (x / 4)) (String (alphabet (x mod 4 * 16 + y / 16))
        (String (alphabet (y mod 16 * 4 + z / 64)) (String (alphabet (z mod 64))
          (rfc_encode rest))))
  end.

(** The engine follows the RFC. *)
Class Base64Laws `{Base64} : Prop := {
  decode_rfc s : standard_decode s = rfc_decode s;
  encode_rfc bytes : standard_encode bytes = rfc_encode bytes
}.

#[export] Instance rfc_base64 : Base64 :=
  {| standard_decode := rfc_decode; standard_encode := rfc_encode |}.
#[export] Instance rfc_base64_laws : Base64Laws.
Proof. done. Qed.

(** ** The checks before decoding *)

Lemma string_quad_ind (P : string -> Prop) :
  P EmptyString -> (forall a, P (String a EmptyString)) ->
  (forall a b, P (String a (String b EmptyString))) ->
  (forall a b c, P (String a (String b (String c EmptyString)))) ->
  (forall a b c d rest, P rest -> P (String a (String b (String c (String d rest))))) ->
  forall s, P s.
Proof.
  intros H0 H1 H2 H3 H4. assert (H : forall n s, (String.length s <= n)%nat -> P s);
    [|intros s; by apply (H (String.length s))].
  induction n as [|n IH]; intros [|a [|b [|c [|d s]]]] Hs; simpl in Hs; auto; try lia.
  apply H4, IH. lia.
Qed.

Lemma ascii_exhaustive (p : ascii -> bool) :
  forallb p (map ascii_of_nat (seq 0 256)) = true -> forall c, p c = true.
Proof.
  rewrite forallb_forall. intros Hp c. apply Hp, in_map_iff. exists (nat_of_ascii c).
  split; [apply ascii_nat_embedding|]. apply in_seq. pose proof (nat_ascii_bounded c). lia.
Qed.

Definition is_pad (c : ascii) : bool := (byte_of c =? 61)%Z.

Lemma is_pad_dec c : is_pad c = bool_decide (c = pad).
Proof.
  assert (Hc := ascii_exhaustive (fun c => Bool.eqb (is_pad c) (bool_decide (c = pad)))
    eq_refl c). by apply Bool.eqb_prop.
Qed.

Lemma sextet_byte c : base64_byte c = bool_decide (is_Some (sextet c)).
Proof.
  assert (Hc := ascii_exhaustive (fun c => Bool.eqb (base64_byte c)
    (bool_decide (is_Some (sextet c)))) eq_refl c). by apply Bool.eqb_prop.
Qed.

Lemma sextet_pad : sextet pad = None.
Proof. reflexivity. Qed.

Lemma alphabet_sextet n : 0 <= n < 64 -> sextet (alphabet n) = Some n.
Proof.
  intros Hn. assert (Hall : forallb (fun k => bool_decide (sextet (alphabet (Z.of_nat k))
    = Some (Z.of_nat k))) (seq 0 64) = true) by reflexivity.
  rewrite forallb_forall in Hall. specialize (Hall (Z.to_nat n)). bools.
  rewrite Z2Nat.id in Hall by zlia. eapply bool_decide_eq_true, Hall, in_seq. lia.
Qed.

Lemma alphabet_no_pad n : 0 <= n < 64 -> alphabet n <> pad.
Proof. intros Hn Heq. apply alphabet_sextet in Hn. by rewrite Heq, sextet_pad in Hn. Qed.

(** ** Round trip *)


Definition is_byte (b : Z) : Prop := 0 <= b < 256.

Lemma rfc_roundtrip bytes : Forall is_byte bytes -> rfc_decode (rfc_encode bytes) = Some bytes.
Proof.
  assert (H : forall n bytes, (length bytes <= n)%nat -> Forall is_byte bytes ->
    rfc_decode (rfc_encode bytes) = Some bytes); [|by eapply H].
  induction n as [|n IH]; intros [|x [|y [|z rest]]] Hn Hb; simpl in Hn; try zlia; try done;
    repeat match goal with H : Forall _ (_ :: _) |- _ => apply Forall_cons in H as [? H] end;
    unfold is_byte in *.
  - simpl. unfold last_quad. simpl. rewrite !alphabet_sextet by zlia. simpl.
    rewrite Z_mod_mult. simpl. do 2 f_equal. zlia.
  - simpl. unfold last_quad. destruct (ascii_dec pad pad); [|done].
    destruct (ascii_dec (alphabet (y mod 16 * 4)) pad) as [Heq|_];
      [by apply alphabet_no_pad in Heq; [|zlia]|].
    rewrite !alphabet_sextet by zlia. simpl.
    rewrite (proj2 (Z.eqb_eq _ _)) by zlia. do 3 f_equal; zlia.
  - assert (Hfull : full_quad (alphabet (x / 4)) (alphabet (x mod 4 * 16 + y / 16))
      (alphabet (y mod 16 * 4 + z / 64)) (alphabet (z mod 64)) = Some [x; y; z]).
    { unfold full_quad. rewrite !alphabet_sextet by zlia. simpl. do 4 f_equal; zlia. }
    cbn [rfc_encode]. destruct rest as [|w rest].
    + cbn [rfc_encode rfc_decode]. unfold last_quad.
      destruct (ascii_dec (alphabet (z mod 64)) pad) as [Heq|_];
        [by apply alphabet_no_pad in Heq; [|zlia]|]. done.
    + cbn [rfc_decode]. rewrite IH by (simpl in *; try zlia; done).
      destruct (rfc_encode (w :: rest)) eqn:E.
      { by destruct rest as [|? [|]]. }
      rewrite Hfull. done.
Qed.

(** ** The checks before decoding accept what the engine decodes *)

Abbreviation padding s := (trailing_padding 0 s).

(** The padding of a text that is not all padding does not depend on what comes before. *)
Lemma trailing_padding_spec s :
  (forall k, trailing_padding k s = (k + String.length s)%nat)
  \/ (exists p, (p < String.length s)%nat /\ forall k, trailing_padding k s = p).
Proof.
  induction s as [|c s IH]; simpl; [left; intros k; lia|].
  destruct (byte_of c =? 61)%Z, IH as [Hall|[p [Hp Hk]]].
  - left. intros k. rewrite Hall. lia.
  - right. exists p. split; [lia|]. intros k. apply Hk.
  - right. exists (String.length s). split; [lia|]. intros k. rewrite Hall. lia.
  - right. exists p. split; [lia|]. intros k. apply Hk.
Qed.

(** What [decode] checks before it decodes. *)
Definition well_formed (s : string) : bool :=
  (String.length s mod 4 =? 0)%nat && (padding s <=? 2)%nat
  && str_forallb base64_byte (substring 0 (String.length s - padding s) s)
  && negb ((4 <=? String.length s)%nat
           && bool_decide (rfc_decode (str_drop (String.length s - 4) s) = None)).

Lemma substring_all n s : substring 0 (String.length s + n) s = s.
Proof. induction s as [|c s IH]; simpl; [by destruct n|by rewrite IH]. Qed.

(** One quad. *)
Lemma well_formed_last a b c d :
  let s := String a (String b (String c (String d EmptyString))) in
  well_formed s = bool_decide (is_Some (rfc_decode s))
  /\ forall bytes, rfc_decode s = Some bytes ->
     Z.of_nat (length bytes) = 3 - Z.of_nat (padding s).
Proof.
  intros s. subst s. unfold well_formed. cbn [String.length trailing_padding].
  change (4 - 4)%nat with 0%nat. cbn [str_drop rfc_decode].
  fold (is_pad a) (is_pad b) (is_pad c) (is_pad d). rewrite !is_pad_dec.
  unfold last_quad, full_quad.
  destruct (ascii_dec d pad) as [->|Hd], (ascii_dec c pad) as [->|Hc],
    (decide (b = pad)) as [->|Hb], (decide (a = pad)) as [->|Ha];
    rewrite ?(bool_decide_true (pad = pad)) by done;
    rewrite ?(bool_decide_false (_ = pad)) by done;
    change (bool_decide (pad = pad)) with true; cbn -[base64_byte sextet];
    rewrite ?sextet_byte; cbn; change (sextet "=") with (@None Z);
    try (destruct (sextet a)); try (destruct (sextet b)); try (destruct (sextet c));
    try (destruct (sextet d)); cbn; repeat case_match; (split; [done|]);
    intros bytes Hbytes; by simplify_eq/=.
Qed.

(** A quad before more text. *)
Lemma well_formed_step a b c d e rest :
  let s := String e rest in
  let t := String a (String b (String c (String d s))) in
  (padding s <= 2)%nat -> (4 <= String.length s)%nat ->
  padding t = padding s
  /\ well_formed t = bool_decide (is_Some (full_quad a b c d)) && well_formed s.
Proof.
  intros s t Hp Hl.
  assert (Hpt : padding t = padding s).
  { destruct (trailing_padding_spec s) as [Hall|[p [_ Hk]]]; [rewrite Hall in Hp; lia|].
    subst t. cbn [trailing_padding]. by rewrite !Hk. }
  split; [done|]. unfold well_formed. rewrite Hpt.
  assert (Hlen : String.length t = (4 + String.length s)%nat) by done. rewrite Hlen.
  replace ((4 + String.length s) mod 4)%nat with (String.length s mod 4)%nat
    by (rewrite Nat.add_comm; replace 4%nat with (1 * 4)%nat at 2 by done; by rewrite Nat.Div0.mod_add).
  replace (4 + String.length s - padding s)%nat with (4 + (String.length s - padding s))%nat by lia.
  replace (4 + String.length s - 4)%nat with (4 + (String.length s - 4))%nat by lia.
  subst t. cbn [Nat.add substring str_forallb str_drop].
  rewrite !sextet_byte, (proj2 (Nat.leb_le 4 (String.length s)) Hl).
  replace (4 <=? S (S (S (S (String.length s)))))%nat with true
    by (symmetry; apply Nat.leb_le; lia).
  unfold full_quad. destruct (sextet a), (sextet b), (sextet c), (sextet d); cbn;
    by rewrite ?andb_false_r.
Qed.

Lemma well_formed_padding s : well_formed s = true -> (padding s <= 2)%nat.
Proof. unfold well_formed. intros Hw. bools. by apply Nat.leb_le. Qed.

Lemma well_formed_length s :
  well_formed s = true -> s <> EmptyString -> (4 <= String.length s)%nat.
Proof.
  unfold well_formed. intros Hw Hs. bools. destruct s as [|a [|b [|c [|d s]]]]; try done.
  simpl. lia.
Qed.

Lemma full_quad_length a b c d bytes : full_quad a b c d = Some bytes -> length bytes = 3%nat.
Proof.
  unfold full_quad. destruct (sextet a), (sextet b), (sextet c), (sextet d); try done.
  by intros [= <-].
Qed.

Lemma well_formed_spec s :
  well_formed s = bool_decide (is_Some (rfc_decode s))
  /\ forall bytes, rfc_decode s = Some bytes ->
     Z.of_nat (length bytes) = Z.of_nat (String.length s / 4 * 3) - Z.of_nat (padding s).
Proof.
  induction s as [|a|a b|a b c|a b c d rest [IHw IHl]] using string_quad_ind; try done.
  - split; [done|]. by intros bytes [= <-].
  - destruct rest as [|e rest]; [exact (well_formed_last a b c d)|].
    set (s := String e rest) in *. set (t := String a _) in *.
    assert (Ht : rfc_decode t = bytes ← full_quad a b c d; more ← rfc_decode s; Some (bytes ++ more))
      by done.
    destruct (decide ((padding s <= 2)%nat /\ (4 <= String.length s)%nat)) as [[Hp Hl]|Hn].
    + destruct (well_formed_step a b c d e rest Hp Hl) as [Hpt Hw]. fold s t in Hpt, Hw.
      rewrite Hw, IHw, Ht, Hpt. destruct (full_quad a b c d) as [q|] eqn:Eq; [|done].
      apply full_quad_length in Eq. destruct (rfc_decode s) as [more|]; [|done]. split; [done|].
      intros bytes Hbytes. injection Hbytes as <-. rewrite length_app, Nat2Z.inj_add, (IHl _ eq_refl), Eq.
      change (String.length t) with (4 + String.length s)%nat.
      replace ((4 + String.length s) / 4)%nat with (1 + String.length s / 4)%nat
        by (symmetry; exact (Nat.div_add_l 1 4 (String.length s) ltac:(done))). lia.
    + assert (Hs : well_formed s = false).
      { apply not_true_iff_false. intros Hw. apply Hn.
        split; [by apply well_formed_padding|by apply well_formed_length]. }
      rewrite Hs in IHw. destruct (rfc_decode s) eqn:E; [done|].
      assert (Hnone : rfc_decode t = None) by (rewrite Ht; by destruct (full_quad a b c d)).
      rewrite Hnone. split; [|done]. apply not_true_iff_false. intros Hw. apply Hn.
      assert (Hmod : (String.length s mod 4 = 0)%nat).
      { unfold well_formed in Hw. bools.
        match goal with H : (_ =? 0)%nat = true |- _ => apply Nat.eqb_eq in H; rename H into Hm end.
        change (String.length t) with (4 + String.length s)%nat in Hm.
        rewrite Nat.add_comm in Hm. replace 4%nat with (1 * 4)%nat in Hm at 1 by done.
        by rewrite Nat.Div0.mod_add in Hm. }
      assert (Hlen : (4 <= String.length s)%nat).
      { destruct (Nat.lt_ge_cases (String.length s) 4) as [Hlt|]; [|done].
        rewrite Nat.mod_small in Hmod by done. by subst s. }
      split; [|done]. apply well_formed_padding in Hw.
      destruct (trailing_padding_spec s) as [Hall|[p [Hp Hk]]].
      * change (padding t) with (trailing_padding (padding (String a (String b (String c
          (String d EmptyString))))) s) in Hw. rewrite Hall in Hw. lia.
      * change (padding t) with (trailing_padding (padding (String a (String b (String c
          (String d EmptyString))))) s) in Hw. by rewrite Hk in *.
Qed.

(** ** The codec *)

Section codec.
Context `{Base64Laws}.

Lemma decode_spec value max :
  decode value max =
    match rfc_decode value with
    | None => inr DecodeError.InvalidEncoding
    | Some bytes =>
        if (max <? Z.of_nat (length bytes))%Z then inr DecodeError.TooLarge else inl bytes
    end.
Proof.
  destruct (well_formed_spec value) as [Hw Hl]. unfold decode. rewrite !decode_rfc.
  assert (Hchecks : forall A (x y : A),
    (if negb (String.length value mod 4 =? 0)%nat then x
     else if (2 <? padding value)%nat
             || negb (str_forallb base64_byte (substring 0 (String.length value - padding value) value))
     then x
     else if (4 <=? String.length value)%nat
             && bool_decide (rfc_decode (str_drop (String.length value - 4) value) = None)
     then x else y) = if well_formed value then y else x).
  { intros A x y. unfold well_formed. rewrite Nat.ltb_antisym.
    destruct (_ mod 4 =? 0)%nat, (_ <=? 2)%nat, (str_forallb _ _), (_ && bool_decide _); done. }
  rewrite Hchecks, Hw. destruct (rfc_decode value) as [bytes|]; [|done].
  change (bool_decide (is_Some (Some bytes))) with true. unfold sat_sub.
  rewrite <- (Hl _ eq_refl), Z.max_r by lia. done.
Qed.

(** C34: the wire codec of bytes is RFC 4648 base64, exactly. What [decode] accepts is what the
    reference decoder accepts, with the same bytes; malformed text is [InvalidEncoding] whatever
    its length, and only well-formed text over the limit is [TooLarge]; and what [encode] prints
    reads back. *)
Theorem bytes_codec_exact value max :
  decode value max =
    match rfc_decode value with
    | None => inr DecodeError.InvalidEncoding
    | Some bytes =>
        if (max <? Z.of_nat (length bytes))%Z then inr DecodeError.TooLarge else inl bytes
    end
  /\ forall bytes, Forall is_byte bytes -> Z.of_nat (length bytes) <= max ->
     decode (encode bytes) max = inl bytes.
Proof.
  split; [apply decode_spec|]. intros bytes Hb Hl. unfold encode.
  rewrite decode_spec, encode_rfc, rfc_roundtrip by done. by rewrite (proj2 (Z.ltb_ge _ _)).
Qed.
End codec.

Lemma bytes_codec_exact_witness :
  decode "TWFu" 3 = inl [77; 97; 110] /\ decode "TWFu" 2 = inr DecodeError.TooLarge
  /\ decode "TWE" 9 = inr DecodeError.InvalidEncoding /\ decode (encode [77; 97]) 2 = inl [77; 97].
Proof.
  split; [rewrite (proj1 (bytes_codec_exact "TWFu" 3)); reflexivity|].
  split; [reflexivity|]. split; [reflexivity|].
  apply (proj2 (bytes_codec_exact "" 2) [77; 97]); [repeat constructor; unfold is_byte; lia|simpl; lia].
Defined.
