(* ===== verification/Catalog.v ===== *)
(** * The catalog

    The crate [policysql-catalog] (lib.rs): the resources and columns a statement
    may name, found without regard to ASCII case, and their stable identities. *)

From S2P Require Import Prelude Utf8 Btree Core.

(* [catalog/lib.rs:157-164] CatalogError *)
Module CatalogError.
Inductive catalog_error :=
| EmptyCatalog
| EmptyResource
| TooManyColumns
| DuplicateResource (name : string)
| DuplicateColumn (name : string).
End CatalogError.

(* [catalog/lib.rs:7-15] ColumnDescriptor *)
Record ColumnDescriptor := {
  cd_id : ColumnId;
  cd_name : string;
  cd_value : ValueDescriptor;
  cd_declared_type_bytes : Z
}.

(* [catalog/lib.rs:17-23] ResourceDescriptor *)
Record ResourceDescriptor := {
  rd_id : Z;
  rd_name : string;
  rd_source : string;
  rd_columns : list (string * ColumnDescriptor)
}.

(* [catalog/lib.rs:153-155] canonical *)
Definition canonical (value : string) : string := lowercase value.

(** The columns in their order: each gets the next ordinal. *)
(* [catalog/lib.rs:50-63]! ResourceDescriptor::new_with_source *)
Fixpoint resolve_columns (id ordinal : Z) (columns : list (string * ValueDescriptor))
    (resolved : list (string * ColumnDescriptor))
    : list (string * ColumnDescriptor) + CatalogError.catalog_error :=
  match columns with
  | [] => inl resolved
  | (name, value) :: columns' =>
      let key := canonical name in
      if (U32_MAX <? ordinal)%Z then inr CatalogError.TooManyColumns
      else
        let descriptor :=
          {| cd_id := {| column_resource := id; column_ordinal := ordinal |}; cd_name := name;
             cd_value := value; cd_declared_type_bytes := 0 |} in
        match bt_insert String.compare key descriptor resolved with
        | (_, Some _) => inr (CatalogError.DuplicateColumn key)
        | (resolved', None) => resolve_columns id (ordinal + 1) columns' resolved'
        end
  end.

(* [catalog/lib.rs:39-73] ResourceDescriptor::new_with_source *)
Definition new_with_source (id : Z) (name source : string)
    (columns : list (string * ValueDescriptor))
    : ResourceDescriptor + CatalogError.catalog_error :=
  match resolve_columns id 0 columns [] with
  | inr e => inr e
  | inl [] => inr CatalogError.EmptyResource
  | inl resolved =>
      inl {| rd_id := id; rd_name := name; rd_source := source; rd_columns := resolved |}
  end.

(* [catalog/lib.rs:31-37]! ResourceDescriptor::new *)
Definition resource_new (id : Z) (name : string) (columns : list (string * ValueDescriptor))
    : ResourceDescriptor + CatalogError.catalog_error := new_with_source id name name columns.

(* [catalog/lib.rs:75-82] ResourceDescriptor::with_declared_type_bytes *)
Definition with_declared_type_bytes (column : string) (bytes : Z) (r : ResourceDescriptor)
    : ResourceDescriptor :=
  match bt_get String.compare (canonical column) (rd_columns r) with
  | None => r
  | Some d =>
      let d := {| cd_id := cd_id d; cd_name := cd_name d; cd_value := cd_value d;
                  cd_declared_type_bytes := bytes |} in
      {| rd_id := rd_id r; rd_name := rd_name r; rd_source := rd_source r;
         rd_columns := fst (bt_insert String.compare (canonical column) d (rd_columns r)) |}
  end.

(* [catalog/lib.rs:84-87] ResourceDescriptor::column *)
Definition column (r : ResourceDescriptor) (name : string) : option ColumnDescriptor :=
  bt_get String.compare (canonical name) (rd_columns r).

(* [catalog/lib.rs:89-91] ResourceDescriptor::columns *)
Definition columns (r : ResourceDescriptor) : list ColumnDescriptor := map snd (rd_columns r).

(* [catalog/lib.rs:93-98] ResourceDescriptor::column_by_id *)
Definition column_by_id (r : ResourceDescriptor) (id : ColumnId) : option ColumnDescriptor :=
  if (column_resource id =? rd_id r)%Z
  then List.find (fun column => bool_decide (cd_id column = id)) (columns r)
  else None.

(* [catalog/lib.rs:101-105] Catalog *)
Record Catalog := {
  cat_snapshot : string;
  cat_resources : list (string * ResourceDescriptor)
}.

(* [catalog/lib.rs:117-123]! Catalog::new *)
Fixpoint resolve_resources (resources : list ResourceDescriptor)
    (resolved : list (string * ResourceDescriptor))
    : list (string * ResourceDescriptor) + CatalogError.catalog_error :=
  match resources with
  | [] => inl resolved
  | resource :: resources' =>
      let key := canonical (rd_name resource) in
      match bt_insert String.compare key resource resolved with
      | (_, Some _) => inr (CatalogError.DuplicateResource key)
      | (resolved', None) => resolve_resources resources' resolved'
      end
  end.

(* [catalog/lib.rs:108-131] Catalog::new *)
Definition catalog_new (snapshot : string) (resources : list ResourceDescriptor)
    : Catalog + CatalogError.catalog_error :=
  match resolve_resources resources [] with
  | inr e => inr e
  | inl [] => inr CatalogError.EmptyCatalog
  | inl resolved => inl {| cat_snapshot := snapshot; cat_resources := resolved |}
  end.

(* [catalog/lib.rs:138-141] Catalog::resource *)
Definition resource (c : Catalog) (name : string) : option ResourceDescriptor :=
  bt_get String.compare (canonical name) (cat_resources c).

(* [catalog/lib.rs:143-145] Catalog::resources *)
Definition resources (c : Catalog) : list ResourceDescriptor := map snd (cat_resources c).

(* [catalog/lib.rs:147-150] Catalog::resource_by_id *)
Definition resource_by_id (c : Catalog) (id : Z) : option ResourceDescriptor :=
  List.find (fun resource => (rd_id resource =? id)%Z) (resources c).

(** ** What the catalog guarantees

    Names are found without regard to ASCII case and only one resource or column answers to a
    name; the identity of a column is its resource and its position, and finds it back. *)

(** ** Columns *)

(** The columns resolved so far: keyed by their canonical names, each of this resource with an
    ordinal below the next one, no two with the same. *)
Record columns_resolved (id ordinal : Z) (resolved : list (string * ColumnDescriptor)) : Prop := {
  resolved_sorted : bt_sorted String.compare resolved;
  resolved_key k d : (k, d) ∈ resolved -> k = canonical (cd_name d);
  resolved_id k d : (k, d) ∈ resolved -> column_resource (cd_id d) = id;
  resolved_ordinal k d : (k, d) ∈ resolved -> 0 <= column_ordinal (cd_id d) < ordinal;
  resolved_unique k d k' d' :
    (k, d) ∈ resolved -> (k', d') ∈ resolved -> cd_id d = cd_id d' -> d = d'
}.

(** The descriptor of the column at a position. *)
Definition column_at (id ordinal : Z) (c : string * ValueDescriptor) : ColumnDescriptor :=
  {| cd_id := {| column_resource := id; column_ordinal := ordinal |}; cd_name := c.1;
     cd_value := c.2; cd_declared_type_bytes := 0 |}.

Lemma insert_elem {A} (resolved : list (string * A)) key d k' d' :
  bt_sorted String.compare resolved -> bt_get String.compare key resolved = None ->
  (k', d') ∈ fst (bt_insert String.compare key d resolved)
  <-> k' = key /\ d' = d \/ (k', d') ∈ resolved.
Proof.
  intros Hs Hnone.
  assert (Hs' := bt_insert_sorted String.compare key d _ Hs).
  rewrite <- (bt_get_elem String.compare k' d' _ Hs'), (bt_get_insert String.compare key d resolved k').
  destruct (String.compare k' key) eqn:E.
  - apply String.compare_eq_iff in E as ->. split; [intros [= ->]; by left|].
    intros [[_ ->]|Hin]; [done|]. apply (proj2 (bt_get_elem String.compare _ _ _ Hs)) in Hin. congruence.
  - rewrite (bt_get_elem String.compare _ _ _ Hs). split; [by right|].
    intros [[-> _]|Hin]; [by rewrite (order_refl String.compare) in E|done].
  - rewrite (bt_get_elem String.compare _ _ _ Hs). split; [by right|].
    intros [[-> _]|Hin]; [by rewrite (order_refl String.compare) in E|done].
Qed.


Section resolution.
Context (id : Z).

Lemma resolve_columns_spec columns : forall ordinal resolved out,
  0 <= ordinal -> columns_resolved id ordinal resolved ->
  resolve_columns id ordinal columns resolved = inl out ->
  columns_resolved id (ordinal + Z.of_nat (length columns)) out
  /\ forall k d, (k, d) ∈ out <-> (k, d) ∈ resolved
       \/ exists i c, columns !! i = Some c /\ k = canonical c.1
          /\ d = column_at id (ordinal + Z.of_nat i) c.
Proof.
  induction columns as [|[name value] columns IH]; intros ordinal resolved out Ho Hr Hc;
    simpl in Hc.
  { injection Hc as <-. rewrite Z.add_0_r. split; [done|]. intros k d. split; [by left|].
    intros [?|(i & c & Hi & _)]; [done|]. by rewrite lookup_nil in Hi. }
  case_match; [done|].
  set (new := {| cd_id := _ |}) in Hc.
  assert (Hold := bt_insert_old String.compare (canonical name) new _ (resolved_sorted _ _ _ Hr)).
  assert (Hsorted := bt_insert_sorted String.compare (canonical name) new _ (resolved_sorted _ _ _ Hr)).
  assert (Hin := fun Hnone k d => insert_elem resolved (canonical name) new k d
    (resolved_sorted _ _ _ Hr) Hnone).
  destruct (bt_insert _ _ _ _) as [resolved' [old|]]; [done|]. simpl in *.
  specialize (Hin (eq_sym Hold)). apply IH in Hc as [Hr' Hout]; [|lia|].
  - split; [replace (ordinal + Z.of_nat (S (length columns)))
      with (ordinal + 1 + Z.of_nat (length columns)) by lia; done|].
    intros k d. rewrite Hout, Hin. split.
    + intros [[[-> ->]|?]|(i & c & Hi & -> & ->)]; [right; exists 0%nat, (name, value)|by left|].
      * split; [done|]. split; [done|]. unfold column_at. simpl. by rewrite Z.add_0_r.
      * right. exists (S i), c. split; [done|]. split; [done|]. f_equal. lia.
    + intros [?|([|i] & c & Hi & -> & ->)]; [by left; right| |].
      * injection Hi as <-. left; left. split; [done|]. unfold column_at. simpl.
        by rewrite Z.add_0_r.
      * right. exists i, c. split; [done|]. split; [done|]. f_equal. lia.
  - destruct Hr as [_ Hkey Hid Hord Huniq]. split; [done|..].
    + intros k d. rewrite Hin. intros [[-> ->]|?]; [done|by apply Hkey].
    + intros k d. rewrite Hin. intros [[-> ->]|?]; [done|by eapply Hid].
    + intros k d. rewrite Hin. intros [[-> ->]|Hk]; [simpl; lia|].
      specialize (Hord _ _ Hk). lia.
    + intros k d k' d'. rewrite !Hin. intros [[-> ->]|Hk] [[-> ->]|Hk'] He; [done| | |].
      * specialize (Hord _ _ Hk'). rewrite <- He in Hord. simpl in Hord. lia.
      * specialize (Hord _ _ Hk). rewrite He in Hord. simpl in Hord. lia.
      * by eapply Huniq.
Qed.
End resolution.

(** What [ResourceDescriptor::new] makes of a list of columns. *)
Record resource_valid (r : ResourceDescriptor) : Prop := {
  columns_sorted : bt_sorted String.compare (rd_columns r);
  column_key k d : (k, d) ∈ rd_columns r -> k = canonical (cd_name d);
  column_of_resource k d : (k, d) ∈ rd_columns r -> column_resource (cd_id d) = rd_id r;
  column_unique k d k' d' :
    (k, d) ∈ rd_columns r -> (k', d') ∈ rd_columns r -> cd_id d = cd_id d' -> d = d'
}.

Lemma resource_new_spec id name source columns r :
  new_with_source id name source columns = inl r ->
  resource_valid r /\ rd_id r = id /\ rd_name r = name /\
  forall k d, (k, d) ∈ rd_columns r <-> exists i c,
    columns !! i = Some c /\ k = canonical c.1 /\ d = column_at id (Z.of_nat i) c.
Proof.
  unfold new_with_source. destruct (resolve_columns _ _ _ _) as [resolved|] eqn:E; [|done].
  apply resolve_columns_spec in E as [Hr Hin]; [|done|].
  - destruct resolved as [|p resolved]; [done|]. intros [= <-]. destruct Hr. split; [done|].
    split; [done|]. split; [done|]. intros k d. simpl. rewrite Hin. split; [|by right].
    intros [Hk|?]; [by inversion Hk|done].
  - split; [done|..]; intros; exfalso; by eapply not_elem_of_nil.
Qed.

Lemma column_spec r name d :
  resource_valid r ->
  column r name = Some d <-> (canonical name, d) ∈ rd_columns r.
Proof. intros [Hs _ _ _]. exact (bt_get_elem String.compare _ _ _ Hs). Qed.

(** A column found by name is one of the resource's. *)
Lemma column_id_resource r name d :
  resource_valid r -> column r name = Some d -> column_resource (cd_id d) = rd_id r.
Proof. intros Hr Hc. apply column_spec in Hc; [|done]. by eapply column_of_resource. Qed.

(** ** Catalogs *)

Lemma with_declared_type_bytes_valid name bytes r :
  resource_valid r -> resource_valid (with_declared_type_bytes name bytes r).
Proof.
  intros Hr. unfold with_declared_type_bytes.
  destruct (bt_get _ _ _) as [d|] eqn:E; [|done].
  assert (Hd := proj1 (bt_get_elem String.compare _ _ _ (columns_sorted _ Hr)) E).
  set (d' := {| cd_id := cd_id d |}).
  assert (Hin : forall k x, (k, x) ∈ fst (bt_insert String.compare (canonical name) d' (rd_columns r))
    <-> k = canonical name /\ x = d' \/ k <> canonical name /\ (k, x) ∈ rd_columns r).
  { intros k x.
    assert (Hs' := bt_insert_sorted String.compare (canonical name) d' _ (columns_sorted _ Hr)).
    rewrite <- (bt_get_elem String.compare k x _ Hs').
    rewrite (bt_get_insert String.compare (canonical name) d' (rd_columns r) k).
    rewrite <- (bt_get_elem String.compare k x _ (columns_sorted _ Hr)).
    destruct (String.compare k (canonical name)) eqn:Ec.
    - apply String.compare_eq_iff in Ec as ->. split; [intros [= ->]; by left|].
      by intros [[_ ->]|[? _]].
    - assert (k <> canonical name) by (intros ->; by rewrite (order_refl String.compare) in Ec).
      tauto.
    - assert (k <> canonical name) by (intros ->; by rewrite (order_refl String.compare) in Ec).
      tauto. }
  destruct Hr as [Hs Hkey Hres Huniq]. split; simpl.
  - exact (bt_insert_sorted String.compare _ _ _ Hs).
  - intros k x. rewrite Hin. intros [[-> ->]|[_ Hx]]; [simpl|]; eauto.
  - intros k x. rewrite Hin. intros [[-> ->]|[_ Hx]]; [simpl|]; eauto.
  - intros k x k' x'. rewrite !Hin. intros [[-> ->]|[Hk Hx]] [[-> ->]|[Hk' Hx']] He; [done|..].
    + assert (d = x') as <- by (by eapply Huniq). by rewrite (Hkey _ _ Hd), (Hkey _ _ Hx') in Hk'.
    + assert (d = x) as <- by (by eapply Huniq). by rewrite (Hkey _ _ Hd), (Hkey _ _ Hx) in Hk.
    + by eapply Huniq.
Qed.

(** The resources and catalogs the program builds. *)
Inductive resource_built : ResourceDescriptor -> Prop :=
| built_new id name source columns r :
    new_with_source id name source columns = inl r -> resource_built r
| built_bytes name bytes r :
    resource_built r -> resource_built (with_declared_type_bytes name bytes r).

Definition catalog_built (c : Catalog) : Prop :=
  exists snapshot rs, catalog_new snapshot rs = inl c /\ Forall resource_built rs.

Definition catalog_valid (c : Catalog) : Prop :=
  forall name r, resource c name = Some r -> resource_valid r.

Lemma resource_built_valid r : resource_built r -> resource_valid r.
Proof.
  induction 1; [by eapply resource_new_spec|by apply with_declared_type_bytes_valid].
Qed.

Lemma resolve_resources_spec rs : forall resolved out,
  bt_sorted String.compare resolved -> resolve_resources rs resolved = inl out ->
  bt_sorted String.compare out /\ forall k r,
    (k, r) ∈ out <-> (k, r) ∈ resolved \/ r ∈ rs /\ k = canonical (rd_name r).
Proof.
  induction rs as [|r rs IH]; intros resolved out Hs Hr; simpl in Hr.
  { injection Hr as <-. split; [done|]. intros k r. split; [by left|].
    by intros [?|[Hin _]]; [|inversion Hin]. }
  assert (Hold := bt_insert_old String.compare (canonical (rd_name r)) r _ Hs).
  assert (Hs' := bt_insert_sorted String.compare (canonical (rd_name r)) r _ Hs).
  assert (Hin := fun Hnone k d => insert_elem resolved (canonical (rd_name r)) r k d Hs Hnone).
  destruct (bt_insert _ _ _ _) as [resolved' [old|]]; [done|]. simpl in *.
  specialize (Hin (eq_sym Hold)). apply IH in Hr as [Hso Ho]; [|done]. split; [done|].
  intros k r'. rewrite Ho, Hin, elem_of_cons. split; [|intuition (subst; auto)].
  intros [[[-> ->]|?]|[? ->]]; auto.
Qed.

Lemma catalog_new_spec snapshot rs c query r :
  catalog_new snapshot rs = inl c ->
  resource c query = Some r <-> r ∈ rs /\ canonical query = canonical (rd_name r).
Proof.
  unfold catalog_new. destruct (resolve_resources rs []) as [out|] eqn:E; [|done].
  apply resolve_resources_spec in E as [Hs Hin]; [|done]. intros Hc.
  assert (Hcat : cat_resources c = out) by (by destruct out; [done|injection Hc as <-]).
  unfold resource. rewrite Hcat, (bt_get_elem String.compare _ _ _ Hs), Hin.
  split; [|by right]. intros [Hn|?]; [by inversion Hn|done].
Qed.

Lemma catalog_built_valid c : catalog_built c -> catalog_valid c.
Proof.
  intros (snapshot & rs & Hc & Hrs) name r Hr. apply (catalog_new_spec _ _ _ _ _ Hc) in Hr as [Hr _].
  apply resource_built_valid. by apply (proj1 (Forall_forall _ _) Hrs).
Qed.

(** ** The theorems *)

(** Columns are found by their names without regard to case, and by nothing else: the column a
    name finds is the one declared under it, with its position as the ordinal of its identity;
    and the identity finds the same column. *)
Theorem column_lookup id name source columns r query d :
  new_with_source id name source columns = inl r ->
  (column r query = Some d <-> exists i c, columns !! i = Some c
     /\ eq_ignore_ascii_case query c.1 = true /\ d = column_at id (Z.of_nat i) c)
  /\ (column r query = Some d -> column_by_id r (cd_id d) = Some d).
Proof.
  intros Hnew. apply resource_new_spec in Hnew as (Hr & Hid & _ & Hin). split.
  - rewrite column_spec, Hin by done. unfold eq_ignore_ascii_case, canonical.
    split; intros (i & c & Hi & Hk & ->); exists i, c; (split; [done|split; [|done]]).
    + by apply String.eqb_eq.
    + by apply String.eqb_eq in Hk.
  - rewrite column_spec by done. intros Hd. unfold column_by_id.
    rewrite (column_of_resource _ Hr _ _ Hd), Z.eqb_refl. unfold Catalog.columns.
    assert (Hall : forall k d', (k, d') ∈ rd_columns r -> cd_id d' = cd_id d -> d' = d)
      by (intros k d' Hk He; by eapply column_unique).
    clear Hr Hid Hin. induction (rd_columns r) as [|[k d'] l IH]; [by inversion Hd|]. simpl.
    case_bool_decide as He; [f_equal; apply (Hall k); [by left|done]|].
    apply IH; [|intros k' d1 Hk; apply (Hall k'); by right].
    apply elem_of_cons in Hd as [[= _ ->]|Hd]; [done|done].
Qed.

(** Resources are found by their names without regard to case, and by nothing else. *)
Theorem resource_lookup snapshot rs c query r :
  catalog_new snapshot rs = inl c ->
  resource c query = Some r <-> r ∈ rs /\ eq_ignore_ascii_case query (rd_name r) = true.
Proof.
  intros Hc. rewrite (catalog_new_spec _ _ _ _ _ Hc). unfold eq_ignore_ascii_case, canonical.
  by rewrite String.eqb_eq.
Qed.

(** ** A concrete catalog *)

Definition text_value : ValueDescriptor :=
  {| vd_logical_type := LogicalType.String; vd_representation := ValueRepresentation.String;
     vd_nullable := false; vd_format := None; vd_storage := None; vd_constraints := None;
     vd_json_schema := None |}.
Definition people_columns : list (string * ValueDescriptor) :=
  [("Name", text_value); ("City", text_value)]%string.
Definition people : ResourceDescriptor :=
  match resource_new 1 "People" people_columns with
  | inl r => r
  | inr _ => {| rd_id := 0; rd_name := ""; rd_source := ""; rd_columns := [] |}
  end.

Lemma column_lookup_witness :
  column people "CITY" = Some (column_at 1 1 ("City"%string, text_value))
  /\ column_by_id people {| column_resource := 1; column_ordinal := 1 |}
     = Some (column_at 1 1 ("City"%string, text_value)).
Proof.
  destruct (column_lookup 1 "People" "People" people_columns people "CITY"
    (column_at 1 1 ("City"%string, text_value)) eq_refl) as [Hname Hid].
  assert (Hc : column people "CITY" = Some (column_at 1 1 ("City"%string, text_value))).
  { apply Hname. by exists 1%nat, ("City"%string, text_value). }
  split; [exact Hc|exact (Hid Hc)].
Defined.

Lemma resource_lookup_witness :
  exists c, catalog_new "s" [people] = inl c /\ resource c "PEOPLE" = Some people.
Proof.
  eexists. split; [reflexivity|].
  apply (resource_lookup "s" [people] _ "PEOPLE" people eq_refl). split; [by left|reflexivity].
Defined.
