(* ===== verification/Ir.v ===== *)
(** * The bound statement

    The crate [policysql-ir] (lib.rs): what the binder makes of a statement and the policy
    compiler rewrites. Every column is its catalog identity. The structures that hold
    expressions take the type of expressions as a parameter, so that [BoundExpr], which holds a
    whole [BoundSelect] in [Exists], is one nested inductive type. *)

From S2P Require Import Prelude F64 Core.

(* [ir/lib.rs:9-23] ColumnUsage *)
Module ColumnUsage.
Inductive column_usage :=
| Projection | Filter | PolicyFilter | Join | Order | Group | Having | Aggregate | Window
| Mutation | Write | Returning.
#[global] Instance column_usage_eq_dec : EqDecision column_usage.
Proof. solve_decision. Defined.
End ColumnUsage.

(* [ir/lib.rs:25-30] BoundColumn *)
Record BoundColumn := {
  bc_id : ColumnId;
  bc_logical_type : LogicalType;
  bc_usage : ColumnUsage.column_usage
}.

(* [ir/lib.rs:98-103] ScalarFunction *)
Module ScalarFunction.
Inductive scalar_function := Lower | Upper | JsonExtract.
End ScalarFunction.

(* [ir/lib.rs:111-115] SortDirection *)
Module SortDirection.
Inductive sort_direction := Ascending | Descending.
End SortDirection.

(* [ir/lib.rs:123-127] JoinKind *)
Module JoinKind.
Inductive join_kind := Inner | Left.
#[global] Instance join_kind_eq_dec : EqDecision join_kind.
Proof. solve_decision. Defined.
End JoinKind.

(* [ir/lib.rs:105-109] BoundProjection *)
Record BoundProjectionOf (E : Type) := { bp_expression : E; bp_output_name : string }.
(* [ir/lib.rs:117-121] BoundOrder *)
Record BoundOrderOf (E : Type) := {
  bo_expression : E;
  bo_direction : SortDirection.sort_direction
}.
(* [ir/lib.rs:129-135] BoundJoin *)
Record BoundJoinOf (E : Type) := {
  bj_resource : Z;
  bj_alias : option string;
  bj_kind : JoinKind.join_kind;
  bj_on : E
}.
(* [ir/lib.rs:137-149] BoundSelect *)
Record BoundSelectOf (E : Type) := {
  bs_resource : Z;
  bs_alias : option string;
  bs_joins : list (BoundJoinOf E);
  bs_projections : list (BoundProjectionOf E);
  bs_predicate : option E;
  bs_group_by : list BoundColumn;
  bs_having : option E;
  bs_order_by : list (BoundOrderOf E);
  bs_limit : option E;
  bs_offset : option E
}.
Arguments bp_expression {E} _.
Arguments bp_output_name {E} _.
Arguments bo_expression {E} _.
Arguments bo_direction {E} _.
Arguments bj_resource {E} _.
Arguments bj_alias {E} _.
Arguments bj_kind {E} _.
Arguments bj_on {E} _.
Arguments bs_resource {E} _.
Arguments bs_alias {E} _.
Arguments bs_joins {E} _.
Arguments bs_projections {E} _.
Arguments bs_predicate {E} _.
Arguments bs_group_by {E} _.
Arguments bs_having {E} _.
Arguments bs_order_by {E} _.
Arguments bs_limit {E} _.
Arguments bs_offset {E} _.

(* [ir/lib.rs:32-85] BoundExpr *)
Module BoundExpr.
Inductive bound_expr :=
| Column (column : BoundColumn)
| ClientParameter (name : string) (logical_type : LogicalType)
| ServerParameter (name : string) (logical_type : LogicalType)
| Literal (value : LogicalValue)
| Equal (l r : bound_expr)
| NotEqual (l r : bound_expr)
| Less (l r : bound_expr)
| LessEqual (l r : bound_expr)
| Greater (l r : bound_expr)
| GreaterEqual (l r : bound_expr)
| And (l r : bound_expr)
| Or (l r : bound_expr)
| Not (inner : bound_expr)
| IsNull (inner : bound_expr)
| In (expression : bound_expr) (values : list bound_expr) (negated : bool)
| Like (l r : bound_expr)
| Glob (l r : bound_expr)
| Least (l r : bound_expr)
| Concat (l r : bound_expr)
| CastText (inner : bound_expr)
| Case (branches : list (bound_expr * bound_expr)) (else_expression : option bound_expr)
    (logical_type : LogicalType)
| ConditionalOutput (value visible_if : bound_expr)
| Exists (select : BoundSelectOf bound_expr)
| CountAll (resource : Z)
| ScalarFunction (function : ScalarFunction.scalar_function) (arguments : list bound_expr)
    (logical_type : LogicalType)
| RowNumber (resource : Z) (partition_by : list BoundColumn)
    (order_by : list (BoundOrderOf bound_expr)).
End BoundExpr.
Abbreviation BoundExpr := BoundExpr.bound_expr.
Abbreviation BoundProjection := (BoundProjectionOf BoundExpr).
Abbreviation BoundOrder := (BoundOrderOf BoundExpr).
Abbreviation BoundJoin := (BoundJoinOf BoundExpr).
Abbreviation BoundSelect := (BoundSelectOf BoundExpr).

(* [ir/lib.rs:88-95] BoundExpr::direct_column *)
Definition direct_column (e : BoundExpr) : option BoundColumn :=
  match e with BoundExpr.Column column => Some column | _ => None end.

(** The passes over a statement thread what they collect: the items of a list in turn, and the
    item of an option. *)
Definition add_all {A S} (add : A -> S -> S) (l : list A) (state : S) : S :=
  fold_left (fun state a => add a state) l state.

Definition add_option {A S} (add : A -> S -> S) (o : option A) (state : S) : S :=
  match o with Some a => add a state | None => state end.

(* [ir/lib.rs:151-155] BoundAssignment *)
Record BoundAssignment := { ba_column : BoundColumn; ba_value : BoundExpr }.

(* [ir/lib.rs:157-162] BoundInsert *)
Record BoundInsert := {
  bi_resource : Z;
  bi_rows : list (list BoundAssignment);
  bi_returning : list BoundProjection
}.

(* [ir/lib.rs:164-170] BoundUpdate *)
Record BoundUpdate := {
  bu_resource : Z;
  bu_assignments : list BoundAssignment;
  bu_predicate : option BoundExpr;
  bu_returning : list BoundProjection
}.

(* [ir/lib.rs:172-177] BoundDelete *)
Record BoundDelete := {
  bd_resource : Z;
  bd_predicate : option BoundExpr;
  bd_returning : list BoundProjection
}.

(* [ir/lib.rs:179-182] BoundConstantSelect *)
Record BoundConstantSelect := { bcs_projections : list BoundProjection }.

(* [ir/lib.rs:184-193] BoundJsonCollectionSelect *)
Record BoundJsonCollectionSelect := {
  bjc_resource : Z;
  bjc_alias : option string;
  bjc_document : BoundColumn;
  bjc_path : BoundExpr;
  bjc_recursive : bool;
  bjc_output_name : string;
  bjc_predicate : option BoundExpr
}.

(* [ir/lib.rs:195-203] BoundStatement *)
Module BoundStatement.
Inductive bound_statement :=
| Select (select : BoundSelect)
| ConstantSelect (select : BoundConstantSelect)
| JsonCollectionSelect (select : BoundJsonCollectionSelect)
| Insert (insert : BoundInsert)
| Update (update : BoundUpdate)
| Delete (delete : BoundDelete).
End BoundStatement.
Abbreviation BoundStatement := BoundStatement.bound_statement.

(* [ir/lib.rs:218-225] ClientStringLiteral *)
Record ClientStringLiteral := { csl_token : string; csl_value : string }.

(* [ir/lib.rs:227-237] StringLiteralWitnesses *)
Record StringLiteralWitnesses := {
  slw_client : list ClientStringLiteral;
  slw_policy : gset string
}.

(* [ir/lib.rs:205-216] ProtectedPlan *)
Record ProtectedPlan := {
  pp_statement : BoundStatement;
  pp_applied_policies : list Z;
  pp_server_values : gmap string LogicalValue;
  pp_policy_limit : option Z;
  pp_operation_check : option BoundExpr;
  pp_expected_affected_rows : option Z;
  pp_expected_result_rows : option Z;
  pp_string_literals : StringLiteralWitnesses
}.

(** ** Induction

    The induction principle of [BoundExpr], with a hypothesis for every expression inside
    the lists and selects. *)

Definition option_holds {A} (P : A -> Prop) (o : option A) : Prop :=
  match o with Some a => P a | None => True end.

Definition select_forall (P : BoundExpr -> Prop) (s : BoundSelect) : Prop :=
  Forall (fun j => P (bj_on j)) (bs_joins s)
  /\ Forall (fun p => P (bp_expression p)) (bs_projections s)
  /\ option_holds P (bs_predicate s)
  /\ option_holds P (bs_having s)
  /\ Forall (fun o => P (bo_expression o)) (bs_order_by s)
  /\ option_holds P (bs_limit s)
  /\ option_holds P (bs_offset s).

Lemma option_holds_impl {A} (P Q : A -> Prop) o :
  option_holds P o -> (forall a, P a -> Q a) -> option_holds Q o.
Proof. destruct o; simpl; auto. Qed.

Lemma select_forall_impl (P Q : BoundExpr -> Prop) s :
  select_forall P s -> (forall e, P e -> Q e) -> select_forall Q s.
Proof.
  intros (Hj & Hp & Hw & Hh & Ho & Hl & Hoff) HPQ.
  split_and!; try (by eapply option_holds_impl); (eapply Forall_impl; [done|]); auto.
Qed.

Lemma select_forall_true (P : BoundExpr -> Prop) s : (forall e, P e) -> select_forall P s.
Proof.
  intros HP. assert (Ho : forall o, option_holds P o) by (intros []; simpl; auto).
  split_and!; try apply Ho; by apply Forall_true.
Qed.

Section induction.
Context (P : BoundExpr -> Prop).

Definition all_of {A} (Q : A -> Prop) (f : forall a, Q a) : forall l, Forall Q l :=
  fix all l :=
    match l with
    | [] => @List.Forall_nil A Q
    | a :: l' => @List.Forall_cons A Q a l' (f a) (all l')
    end.

Definition some_of {A} (Q : A -> Prop) (f : forall a, Q a) (o : option A) : option_holds Q o :=
  match o with Some a => f a | None => I end.

Context (Column : forall c, P (BoundExpr.Column c)).
Context (ClientParameter : forall n t, P (BoundExpr.ClientParameter n t)).
Context (ServerParameter : forall n t, P (BoundExpr.ServerParameter n t)).
Context (Literal : forall v, P (BoundExpr.Literal v)).
Context (Equal : forall l r, P l -> P r -> P (BoundExpr.Equal l r)).
Context (NotEqual : forall l r, P l -> P r -> P (BoundExpr.NotEqual l r)).
Context (Less : forall l r, P l -> P r -> P (BoundExpr.Less l r)).
Context (LessEqual : forall l r, P l -> P r -> P (BoundExpr.LessEqual l r)).
Context (Greater : forall l r, P l -> P r -> P (BoundExpr.Greater l r)).
Context (GreaterEqual : forall l r, P l -> P r -> P (BoundExpr.GreaterEqual l r)).
Context (And : forall l r, P l -> P r -> P (BoundExpr.And l r)).
Context (Or : forall l r, P l -> P r -> P (BoundExpr.Or l r)).
Context (Not : forall e, P e -> P (BoundExpr.Not e)).
Context (IsNull : forall e, P e -> P (BoundExpr.IsNull e)).
Context (In : forall e vs n, P e -> Forall P vs -> P (BoundExpr.In e vs n)).
Context (Like : forall l r, P l -> P r -> P (BoundExpr.Like l r)).
Context (Glob : forall l r, P l -> P r -> P (BoundExpr.Glob l r)).
Context (Least : forall l r, P l -> P r -> P (BoundExpr.Least l r)).
Context (Concat : forall l r, P l -> P r -> P (BoundExpr.Concat l r)).
Context (CastText : forall e, P e -> P (BoundExpr.CastText e)).
Context (Case : forall bs e t, Forall (fun b => P b.1 /\ P b.2) bs -> option_holds P e ->
  P (BoundExpr.Case bs e t)).
Context (ConditionalOutput : forall v c, P v -> P c -> P (BoundExpr.ConditionalOutput v c)).
Context (Exists : forall s, select_forall P s -> P (BoundExpr.Exists s)).
Context (CountAll : forall r, P (BoundExpr.CountAll r)).
Context (ScalarFunction : forall f es t, Forall P es -> P (BoundExpr.ScalarFunction f es t)).
Context (RowNumber : forall r ps os, Forall (fun o => P (bo_expression o)) os ->
  P (BoundExpr.RowNumber r ps os)).

Fixpoint bound_expr_nested_ind (e : BoundExpr) : P e :=
  match e with
  | BoundExpr.Column c => Column c
  | BoundExpr.ClientParameter n t => ClientParameter n t
  | BoundExpr.ServerParameter n t => ServerParameter n t
  | BoundExpr.Literal v => Literal v
  | BoundExpr.Equal l r => Equal l r (bound_expr_nested_ind l) (bound_expr_nested_ind r)
  | BoundExpr.NotEqual l r => NotEqual l r (bound_expr_nested_ind l) (bound_expr_nested_ind r)
  | BoundExpr.Less l r => Less l r (bound_expr_nested_ind l) (bound_expr_nested_ind r)
  | BoundExpr.LessEqual l r => LessEqual l r (bound_expr_nested_ind l) (bound_expr_nested_ind r)
  | BoundExpr.Greater l r => Greater l r (bound_expr_nested_ind l) (bound_expr_nested_ind r)
  | BoundExpr.GreaterEqual l r =>
      GreaterEqual l r (bound_expr_nested_ind l) (bound_expr_nested_ind r)
  | BoundExpr.And l r => And l r (bound_expr_nested_ind l) (bound_expr_nested_ind r)
  | BoundExpr.Or l r => Or l r (bound_expr_nested_ind l) (bound_expr_nested_ind r)
  | BoundExpr.Not e => Not e (bound_expr_nested_ind e)
  | BoundExpr.IsNull e => IsNull e (bound_expr_nested_ind e)
  | BoundExpr.In e vs n =>
      In e vs n (bound_expr_nested_ind e) (all_of P bound_expr_nested_ind vs)
  | BoundExpr.Like l r => Like l r (bound_expr_nested_ind l) (bound_expr_nested_ind r)
  | BoundExpr.Glob l r => Glob l r (bound_expr_nested_ind l) (bound_expr_nested_ind r)
  | BoundExpr.Least l r => Least l r (bound_expr_nested_ind l) (bound_expr_nested_ind r)
  | BoundExpr.Concat l r => Concat l r (bound_expr_nested_ind l) (bound_expr_nested_ind r)
  | BoundExpr.CastText e => CastText e (bound_expr_nested_ind e)
  | BoundExpr.Case bs e t =>
      Case bs e t
        (all_of _ (fun b => conj (bound_expr_nested_ind b.1) (bound_expr_nested_ind b.2)) bs)
        (some_of P bound_expr_nested_ind e)
  | BoundExpr.ConditionalOutput v c =>
      ConditionalOutput v c (bound_expr_nested_ind v) (bound_expr_nested_ind c)
  | BoundExpr.Exists s =>
      Exists s
        (conj (all_of _ (fun j => bound_expr_nested_ind (bj_on j)) (bs_joins s))
        (conj (all_of _ (fun p => bound_expr_nested_ind (bp_expression p)) (bs_projections s))
        (conj (some_of P bound_expr_nested_ind (bs_predicate s))
        (conj (some_of P bound_expr_nested_ind (bs_having s))
        (conj (all_of _ (fun o => bound_expr_nested_ind (bo_expression o)) (bs_order_by s))
        (conj (some_of P bound_expr_nested_ind (bs_limit s))
              (some_of P bound_expr_nested_ind (bs_offset s))))))))
  | BoundExpr.CountAll r => CountAll r
  | BoundExpr.ScalarFunction f es t => ScalarFunction f es t (all_of P bound_expr_nested_ind es)
  | BoundExpr.RowNumber r ps os =>
      RowNumber r ps os (all_of _ (fun o => bound_expr_nested_ind (bo_expression o)) os)
  end.
End induction.
