(* ===== verification/Policy.v ===== *)
(** * Policy bundles

    The data of the crate [policysql-policy] (lib.rs): the bundle as its text says it, and the
    activated policies of each resource and role. serde_yaml reads the text: the class [Yaml]
    has its reader, [YamlValue] is its public type of values with the accessors the source
    uses. Maps the source only looks up are [gmap]s; where it observes their order they are the
    ordered maps of Btree.v. *)

From S2P Require Import Prelude Result F64 Utf8 Btree Core Catalog Ir Bytes.

(* [policy/lib.rs:17-18] MAX_COMMIT_CHECKS *)
Definition MAX_COMMIT_CHECKS : nat := 4.
(* [policy/lib.rs:19-20] MAX_COMMIT_CHECK_TIMEOUT_MS *)
Definition MAX_COMMIT_CHECK_TIMEOUT_MS : Z := 1500.

(* [policy/lib.rs:1930-1954] PolicyError *)
Module PolicyError.
Inductive policy_error :=
| InvalidBundle | InvalidRole | UnknownResource | UnknownColumn | UnknownOperator
| InvalidPredicate | IncompatibleOperand | BytesPresetTooLarge | NullComparison
| UnsupportedCapability | UnsupportedRedaction | DuplicateColumnPermission
| PresetColumnOverlap | DuplicatePolicy | TooManyPolicies | MissingPolicy | ForbiddenColumn
| ForbiddenColumnContext | MissingSessionValue | InvalidSessionKey
| InvariantViolation (message : string).
#[global] Instance policy_error_eq_dec : EqDecision policy_error.
Proof. solve_decision. Defined.
End PolicyError.

(** [Result<A, PolicyError>]; the bind is Rust's [?]. *)
Abbreviation policy_result := (result PolicyError.policy_error).

(** ** YAML values *)

Module YamlNumber.
Inductive yaml_number := PosInt (n : Z) | NegInt (n : Z) | Float (x : f64).
End YamlNumber.

Module YamlValue.
Inductive yaml_value :=
| Null
| Bool (b : bool)
| Number (n : YamlNumber.yaml_number)
| String (s : string)
| Sequence (values : list yaml_value)
| Mapping (entries : list (yaml_value * yaml_value))
| Tagged (tag : string) (value : yaml_value).
End YamlValue.
Abbreviation YamlValue := YamlValue.yaml_value.

(** The accessors look through tags. *)
Fixpoint untag (v : YamlValue) : YamlValue :=
  match v with YamlValue.Tagged _ v => untag v | _ => v end.

Definition as_bool (v : YamlValue) : option bool :=
  match untag v with YamlValue.Bool b => Some b | _ => None end.
Definition as_str (v : YamlValue) : option string :=
  match untag v with YamlValue.String s => Some s | _ => None end.
Definition as_mapping (v : YamlValue) : option (list (YamlValue * YamlValue)) :=
  match untag v with YamlValue.Mapping entries => Some entries | _ => None end.
Definition as_sequence (v : YamlValue) : option (list YamlValue) :=
  match untag v with YamlValue.Sequence values => Some values | _ => None end.
Definition is_null (v : YamlValue) : bool :=
  match untag v with YamlValue.Null => true | _ => false end.
Definition as_i64 (v : YamlValue) : option Z :=
  match untag v with
  | YamlValue.Number (YamlNumber.PosInt n) => if (n <=? 2 ^ 63 - 1)%Z then Some n else None
  | YamlValue.Number (YamlNumber.NegInt n) => Some n
  | _ => None
  end.
Definition as_f64 (v : YamlValue) : option f64 :=
  match untag v with
  | YamlValue.Number (YamlNumber.PosInt n) => Some (F64.of_Z n)
  | YamlValue.Number (YamlNumber.NegInt n) => Some (F64.of_Z n)
  | YamlValue.Number (YamlNumber.Float x) => Some x
  | _ => None
  end.

(** [mapping.get(Value::String(key))]. *)
(* [policy/lib.rs:1235-1237] mapping_value *)
Fixpoint mapping_value (mapping : list (YamlValue * YamlValue)) (key : string)
    : option YamlValue :=
  match mapping with
  | [] => None
  | (YamlValue.String k, v) :: mapping' =>
      if String.eqb k key then Some v else mapping_value mapping' key
  | _ :: mapping' => mapping_value mapping' key
  end.

(** ** The bundle as its text says it *)

(* [policy/lib.rs:152-158] RawCommitHook *)
Record RawCommitHook := { rh_timeout_ms : Z }.
(* [policy/lib.rs:144-150] RawCommitCheck *)
Record RawCommitCheck := {
  rc_triggered_by : list string;
  rc_role : option string;
  rc_hook : RawCommitHook
}.
(* [policy/lib.rs:203-207] RawReturning *)
Record RawReturning := { rr_columns : list string }.
(* [policy/lib.rs:175-183] RawInsert *)
Record RawInsert := {
  ri_columns : list string;
  ri_presets : list (string * YamlValue);
  ri_check : YamlValue;
  ri_returning : option RawReturning
}.
(* [policy/lib.rs:185-194] RawUpdate *)
Record RawUpdate := {
  ru_columns : list string;
  ru_presets : list (string * YamlValue);
  ru_filter : YamlValue;
  ru_check : YamlValue;
  ru_returning : option RawReturning
}.
(* [policy/lib.rs:196-201] RawDelete *)
Record RawDelete := { rd_filter : YamlValue; rd_returning : option RawReturning }.
(* [policy/lib.rs:221-230] RawColumn *)
Module RawColumn.
Inductive raw_column :=
| Regular (name : string)
| Conditional (name : string) (visible_if on_deny : YamlValue).
End RawColumn.
(* [policy/lib.rs:209-219] RawSelect *)
Record RawSelect := {
  rs_columns : list RawColumn.raw_column;
  rs_filter : YamlValue;
  rs_limit : option Z;
  rs_allow_aggregations : bool;
  rs_allow_windows : bool
}.
(* [policy/lib.rs:166-173] RawRole *)
Record RawRole := {
  role_select : option RawSelect;
  role_insert : option RawInsert;
  role_update : option RawUpdate;
  role_delete : option RawDelete
}.
(* [policy/lib.rs:160-164] RawResource *)
Record RawResource := { rr_roles : list (string * RawRole) }.
(* [policy/lib.rs:135-142] RawBundle *)
Record RawBundle := {
  rb_version : Z;
  rb_resources : list (string * RawResource);
  rb_commit_checks : list (string * RawCommitCheck)
}.

(** [serde_yaml::from_str], for the derived readers of the types above. *)
Class Yaml := { yaml_from_str : string -> option RawBundle }.

(** ** Activated policies *)

(* [policy/lib.rs:96-105] ComparisonOperator *)
Module ComparisonOperator.
Inductive comparison_operator :=
| Equal | NotEqual | Less | LessEqual | Greater | GreaterEqual | Like.
#[global] Instance comparison_operator_eq_dec : EqDecision comparison_operator.
Proof. solve_decision. Defined.
End ComparisonOperator.

(* [policy/lib.rs:107-112] PolicyOperand *)
Module PolicyOperand.
Inductive policy_operand :=
| Session (key : string)
| Literal (value : LogicalValue)
| Column (column : BoundColumn).
End PolicyOperand.
Abbreviation PolicyOperand := PolicyOperand.policy_operand.

(* [policy/lib.rs:114-133] PolicyPredicate *)
Module PolicyPredicate.
Inductive policy_predicate :=
| Comparison (column : BoundColumn) (operator : ComparisonOperator.comparison_operator)
    (operand : PolicyOperand)
| In (column : BoundColumn) (values : list LogicalValue) (negated : bool)
| IsNull (column : BoundColumn) (is_null : bool)
| And (predicates : list policy_predicate)
| Or (predicates : list policy_predicate)
| Not (predicate : policy_predicate).
End PolicyPredicate.
Abbreviation PolicyPredicate := PolicyPredicate.policy_predicate.

Abbreviation Presets := (list (ColumnId * (LogicalType * PolicyOperand))).

(* [policy/lib.rs:59-66] InsertPolicy *)
Record InsertPolicy := {
  ip_id : Z;
  ip_columns : gset ColumnId;
  ip_presets : Presets;
  ip_check : PolicyPredicate;
  ip_returning : gset ColumnId
}.
(* [policy/lib.rs:68-76] UpdatePolicy *)
Record UpdatePolicy := {
  up_id : Z;
  up_columns : gset ColumnId;
  up_presets : Presets;
  up_filter : PolicyPredicate;
  up_check : PolicyPredicate;
  up_returning : gset ColumnId
}.
(* [policy/lib.rs:78-83] DeletePolicy *)
Record DeletePolicy := {
  dp_id : Z;
  dp_filter : PolicyPredicate;
  dp_returning : gset ColumnId
}.
(* [policy/lib.rs:85-94] SelectPolicy *)
Record SelectPolicy := {
  sp_id : Z;
  sp_regular_columns : gset ColumnId;
  sp_conditional_columns : gmap ColumnId PolicyPredicate;
  sp_filter : PolicyPredicate;
  sp_limit : option Z;
  sp_allow_aggregations : bool;
  sp_allow_windows : bool
}.

(* [policy/lib.rs:1239-1239] PolicyMap *)
Abbreviation PolicyMap T := (gmap Z (gmap string T)).

(* [policy/lib.rs:51-57] ActivatedCommitCheck *)
Record ActivatedCommitCheck := {
  acc_id : string;
  acc_triggered_by : gset Z;
  acc_role : option string;
  acc_timeout_ms : Z
}.

(* [policy/lib.rs:22-32] PolicyBundle *)
Record PolicyBundle := {
  pb_snapshot : string;
  pb_select : PolicyMap SelectPolicy;
  pb_insert : PolicyMap InsertPolicy;
  pb_update : PolicyMap UpdatePolicy;
  pb_delete : PolicyMap DeletePolicy;
  pb_commit_checks : list ActivatedCommitCheck;
  pb_quoted_string_literals : gset string
}.

(** The policy of a resource for a role: [get(&resource)?.get(role)]. *)
(* [policy/lib.rs:612-616]! PolicyBundle::compile_json_collection_select *)
Definition policy_of {T} (policies : PolicyMap T) (resource : Z) (role : string) : option T :=
  roles ← policies !! resource; roles !! role.

(* [policy/lib.rs:34-42] SelectAccess *)
Record SelectAccess := {
  sa_regular_columns : gset ColumnId;
  sa_conditional_columns : gset ColumnId;
  sa_max_rows : option Z;
  sa_allow_aggregations : bool;
  sa_allow_windows : bool
}.
(* [policy/lib.rs:44-49] MutationAccess *)
Record MutationAccess := { ma_columns : gset ColumnId; ma_returning : gset ColumnId }.

(* [policy/lib.rs:233-250] PolicyBundle::select_access *)
Definition select_access (b : PolicyBundle) (resource : Z) (role : string)
    : option SelectAccess :=
  policy ← policy_of (pb_select b) resource role;
  Some {| sa_regular_columns := sp_regular_columns policy;
          sa_conditional_columns := dom (sp_conditional_columns policy);
          sa_max_rows := sp_limit policy;
          sa_allow_aggregations := sp_allow_aggregations policy;
          sa_allow_windows := sp_allow_windows policy |}.

(* [policy/lib.rs:252-265] PolicyBundle::insert_access *)
Definition insert_access (b : PolicyBundle) (resource : Z) (role : string)
    : option MutationAccess :=
  policy ← policy_of (pb_insert b) resource role;
  Some {| ma_columns := ip_columns policy; ma_returning := ip_returning policy |}.

(* [policy/lib.rs:267-280] PolicyBundle::update_access *)
Definition update_access (b : PolicyBundle) (resource : Z) (role : string)
    : option MutationAccess :=
  policy ← policy_of (pb_update b) resource role;
  Some {| ma_columns := up_columns policy; ma_returning := up_returning policy |}.

(* [policy/lib.rs:282-295] PolicyBundle::delete_access *)
Definition delete_access (b : PolicyBundle) (resource : Z) (role : string)
    : option MutationAccess :=
  policy ← policy_of (pb_delete b) resource role;
  Some {| ma_columns := ∅; ma_returning := dp_returning policy |}.
