(* ===== verification/Activate.v ===== *)
(** * Activating a policy bundle

    The activation of the crate [policysql-policy] (lib.rs): the text of a bundle against a
    catalog snapshot, every name resolved, every predicate typed, every permission disjoint. *)

From S2P Require Import Prelude Result F64 Utf8 Btree Core Catalog Ir Bytes Policy.

(** ** Predicates *)

(* [policy/lib.rs:1350-1356] bound_policy_column *)
Definition bound_policy_column (column : ColumnDescriptor) (usage : ColumnUsage.column_usage)
    : BoundColumn :=
  {| bc_id := cd_id column; bc_logical_type := vd_logical_type (cd_value column);
     bc_usage := usage |}.

(** [resource.column(name).ok_or(PolicyError::UnknownColumn)]. *)
(* [policy/lib.rs:966-966]! activate_insert *)
Definition known_column (resource : ResourceDescriptor) (name : string)
    : policy_result ColumnDescriptor :=
  ok_or (column resource name) PolicyError.UnknownColumn.

(* [policy/lib.rs:1341-1348] policy_column *)
Definition policy_column (resource : ResourceDescriptor) (name : string)
    (usage : ColumnUsage.column_usage) : policy_result BoundColumn :=
  column ← known_column resource name;
  mret (bound_policy_column column usage).

(* [policy/lib.rs:1314-1339] literal_for_type *)
Definition literal_for_type (value : YamlValue) (expected : LogicalType)
    : policy_result LogicalValue :=
  if is_null value then throw PolicyError.NullComparison
  else
    match expected with
    | LogicalType.String | LogicalType.Date | LogicalType.DateTime | LogicalType.Instant =>
        ok_or (LogicalValue.String <$> as_str value) PolicyError.IncompatibleOperand
    | LogicalType.Boolean =>
        ok_or (LogicalValue.Boolean <$> as_bool value) PolicyError.IncompatibleOperand
    | LogicalType.Integer | LogicalType.Int64 =>
        ok_or (LogicalValue.Int64 <$> as_i64 value) PolicyError.IncompatibleOperand
    | LogicalType.Number =>
        ok_or (LogicalValue.Number <$> as_f64 value) PolicyError.IncompatibleOperand
    | LogicalType.Bytes | LogicalType.Json => throw PolicyError.UnsupportedCapability
    end.

(* [policy/lib.rs:1201-1233] parse_operand *)
Definition parse_operand (value : YamlValue) (resource : ResourceDescriptor)
    (expected : LogicalType) : policy_result PolicyOperand :=
  match as_mapping value with
  | Some mapping =>
      if negb (length mapping =? 1)%nat then throw PolicyError.InvalidPredicate
      else
        match mapping_value mapping "session" with
        | Some session =>
            if negb (bool_decide (expected = LogicalType.String))
            then throw PolicyError.IncompatibleOperand
            else
              key ← ok_or (as_str session) PolicyError.InvalidPredicate;
              key ← map_err (session_key_new key) PolicyError.InvalidPredicate;
              mret (PolicyOperand.Session key)
        | None =>
            match mapping_value mapping "column" with
            | Some column_name =>
                column_name ← ok_or (as_str column_name) PolicyError.InvalidPredicate;
                column ← policy_column resource column_name ColumnUsage.PolicyFilter;
                if negb (bool_decide (bc_logical_type column = expected))
                then throw PolicyError.IncompatibleOperand
                else mret (PolicyOperand.Column column)
            | None =>
                match mapping_value mapping "literal" with
                | Some literal =>
                    PolicyOperand.Literal <$> literal_for_type literal expected
                | None => throw PolicyError.InvalidPredicate
                end
            end
        end
  | None => PolicyOperand.Literal <$> literal_for_type value expected
  end.

(* [policy/lib.rs:1153-1162]! parse_comparison *)
Definition comparison_of (operator : string) : policy_result ComparisonOperator.comparison_operator :=
  if String.eqb operator "eq" then mret ComparisonOperator.Equal
  else if String.eqb operator "neq" then mret ComparisonOperator.NotEqual
  else if String.eqb operator "lt" then mret ComparisonOperator.Less
  else if String.eqb operator "lte" then mret ComparisonOperator.LessEqual
  else if String.eqb operator "gt" then mret ComparisonOperator.Greater
  else if String.eqb operator "gte" then mret ComparisonOperator.GreaterEqual
  else if String.eqb operator "like" then mret ComparisonOperator.Like
  else throw PolicyError.UnknownOperator.

(* [policy/lib.rs:1120-1173] parse_comparison *)
Definition parse_comparison (column_name : string) (value : YamlValue)
    (resource : ResourceDescriptor) : policy_result PolicyPredicate :=
  column ← policy_column resource column_name ColumnUsage.PolicyFilter;
  mapping ← ok_or (as_mapping value) PolicyError.InvalidPredicate;
  match mapping with
  | [(operator, operand)] =>
      operator ← ok_or (as_str operator) PolicyError.InvalidPredicate;
      if String.eqb operator "is_null" then
        is_null ← ok_or (as_bool operand) PolicyError.InvalidPredicate;
        mret (PolicyPredicate.IsNull column is_null)
      else if str_in operator ["in"; "not_in"] then
        values ← ok_or (as_sequence operand) PolicyError.InvalidPredicate;
        if bool_decide (length values = 0)%nat then throw PolicyError.InvalidPredicate
        else
          values ← collect (fun value => literal_for_type value (bc_logical_type column)) values;
          mret (PolicyPredicate.In column values (String.eqb operator "not_in"))
      else
        operator ← comparison_of operator;
        if bool_decide (operator = ComparisonOperator.Like)
           && negb (bool_decide (bc_logical_type column = LogicalType.String))
        then throw PolicyError.IncompatibleOperand
        else
          operand ← parse_operand operand resource (bc_logical_type column);
          mret (PolicyPredicate.Comparison column operator operand)
  | _ => throw PolicyError.InvalidPredicate
  end.

(** [as_mapping] and [as_sequence] are written out, for the recursion to be structural. *)
(* [policy/lib.rs:1087-1118] parse_predicate *)
Fixpoint parse_predicate (resource : ResourceDescriptor) (value : YamlValue)
    : policy_result PolicyPredicate :=
  match untag value with
  | YamlValue.Mapping [(key, body)] =>
      key ← ok_or (as_str key) PolicyError.InvalidPredicate;
      if str_in key ["and"; "or"] then
        match untag body with
        | YamlValue.Sequence [] => throw PolicyError.InvalidPredicate
        | YamlValue.Sequence values =>
            predicates ← collect (parse_predicate resource) values;
            mret (if String.eqb key "and" then PolicyPredicate.And predicates
                  else PolicyPredicate.Or predicates)
        | _ => throw PolicyError.InvalidPredicate
        end
      else if String.eqb key "not" then
        PolicyPredicate.Not <$> parse_predicate resource body
      else parse_comparison key body resource
  | _ => throw PolicyError.InvalidPredicate
  end.

(** ** The policy of one operation *)

(* [policy/lib.rs:909-943]! activate_select *)
Definition select_column (resource : ResourceDescriptor)
    (state : gset ColumnId * gset ColumnId * gmap ColumnId PolicyPredicate)
    (raw_column : RawColumn.raw_column)
    : policy_result (gset ColumnId * gset ColumnId * gmap ColumnId PolicyPredicate) :=
  let '(names, regular_columns, conditional_columns) := state in
  match raw_column with
  | RawColumn.Regular name =>
      column ← policy_column resource name ColumnUsage.Projection;
      if bool_decide (bc_id column ∈ names) then throw PolicyError.DuplicateColumnPermission
      else mret ({[bc_id column]} ∪ names, {[bc_id column]} ∪ regular_columns,
                 conditional_columns)
  | RawColumn.Conditional name visible_if on_deny =>
      match on_deny with
      | YamlValue.Null =>
          bound ← policy_column resource name ColumnUsage.Projection;
          if opt_existsb (fun descriptor => vd_nullable (cd_value descriptor))
               (column resource name)
          then throw PolicyError.UnsupportedRedaction
          else if bool_decide (bc_id bound ∈ names)
          then throw PolicyError.DuplicateColumnPermission
          else
            predicate ← parse_predicate resource visible_if;
            mret ({[bc_id bound]} ∪ names, regular_columns,
                  <[bc_id bound := predicate]> conditional_columns)
      | _ => throw PolicyError.UnsupportedRedaction
      end
  end.

(** [PolicyId::new(policy_id).map_err(|_| PolicyError::TooManyPolicies)]. *)
(* [policy/lib.rs:945-945]! activate_select *)
Definition policy_id_new (policy_id : Z) : policy_result Z :=
  map_err (numeric_id policy_id) PolicyError.TooManyPolicies.

(* [policy/lib.rs:901-953] activate_select *)
Definition activate_select (raw : RawSelect) (resource : ResourceDescriptor) (policy_id : Z)
    : policy_result SelectPolicy :=
  if bool_decide (length (rs_columns raw) = 0)%nat then throw PolicyError.InvalidBundle
  else
    state ← for_fold (select_column resource) (∅, ∅, ∅) (rs_columns raw);
    let '(_, regular_columns, conditional_columns) := state in
    id ← policy_id_new policy_id;
    filter ← parse_predicate resource (rs_filter raw);
    mret {| sp_id := id; sp_regular_columns := regular_columns;
            sp_conditional_columns := conditional_columns; sp_filter := filter;
            sp_limit := rs_limit raw; sp_allow_aggregations := rs_allow_aggregations raw;
            sp_allow_windows := rs_allow_windows raw |}.

(** A list of names as the set of its columns, each named once. *)
(* [policy/lib.rs:964-970]! activate_insert *)
Definition column_set (resource : ResourceDescriptor) (names : list string)
    : policy_result (gset ColumnId) :=
  for_fold (fun columns name =>
    column ← known_column resource name;
    if bool_decide (cd_id column ∈ (columns : gset ColumnId))
    then throw PolicyError.DuplicateColumnPermission
    else mret ({[cd_id column]} ∪ columns)) ∅ names.

(** The four maps of the roles of one resource, and the next policy identity. *)
Abbreviation Roles := (Z * (gmap string SelectPolicy * gmap string InsertPolicy
                            * gmap string UpdatePolicy * gmap string DeletePolicy))%type.

(** The four maps of the bundle, and the next policy identity. *)
Abbreviation Policies := (Z * (PolicyMap SelectPolicy * PolicyMap InsertPolicy
                               * PolicyMap UpdatePolicy * PolicyMap DeletePolicy))%type.

Section activation.
Context `{Yaml} `{Base64}.

(* [policy/lib.rs:1175-1199] parse_preset *)
Definition parse_preset (value : YamlValue) (resource : ResourceDescriptor)
    (expected : LogicalType) (max_bytes_per_value : Z) : policy_result PolicyOperand :=
  if negb (bool_decide (expected = LogicalType.Bytes)) then parse_operand value resource expected
  else
    mapping ← ok_or (as_mapping value) PolicyError.IncompatibleOperand;
    if negb (length mapping =? 1)%nat then throw PolicyError.IncompatibleOperand
    else
      literal ← ok_or (mapping_value mapping "literal" ≫= as_str)
                  PolicyError.IncompatibleOperand;
      match decode literal max_bytes_per_value with
      | inl value => mret (PolicyOperand.Literal (LogicalValue.Bytes value))
      | inr DecodeError.TooLarge => throw PolicyError.BytesPresetTooLarge
      | inr DecodeError.InvalidEncoding => throw PolicyError.IncompatibleOperand
      end.

(* [policy/lib.rs:971-987]! activate_insert *)
Definition activate_presets (resource : ResourceDescriptor) (columns : gset ColumnId)
    (max_bytes_per_value : Z) (presets : list (string * YamlValue)) : policy_result Presets :=
  for_fold (fun presets '(name, value) =>
    column ← known_column resource name;
    if bool_decide (cd_id column ∈ columns) then throw PolicyError.PresetColumnOverlap
    else
      let logical_type := vd_logical_type (cd_value column) in
      operand ← parse_preset value resource logical_type max_bytes_per_value;
      match operand with
      | PolicyOperand.Column _ => throw PolicyError.InvalidPredicate
      | _ => mret (fst (bt_insert column_compare (cd_id column) (logical_type, operand) presets))
      end) [] presets.

(* [policy/lib.rs:1052-1070] activate_returning *)
Definition activate_returning (raw : option RawReturning) (resource : ResourceDescriptor)
    : policy_result (gset ColumnId) :=
  match raw with
  | None => mret ∅
  | Some raw =>
      if bool_decide (length (rr_columns raw) = 0)%nat then throw PolicyError.InvalidBundle
      else column_set resource (rr_columns raw)
  end.

(* [policy/lib.rs:955-995] activate_insert *)
Definition activate_insert (max_bytes_per_value : Z) (raw : RawInsert)
    (resource : ResourceDescriptor) (policy_id : Z) : policy_result InsertPolicy :=
  if bool_decide (length (ri_columns raw) = 0)%nat then throw PolicyError.UnsupportedCapability
  else
    columns ← column_set resource (ri_columns raw);
    presets ← activate_presets resource columns max_bytes_per_value (ri_presets raw);
    id ← policy_id_new policy_id;
    check ← parse_predicate resource (ri_check raw);
    returning ← activate_returning (ri_returning raw) resource;
    mret {| ip_id := id; ip_columns := columns; ip_presets := presets; ip_check := check;
            ip_returning := returning |}.

(* [policy/lib.rs:997-1038] activate_update *)
Definition activate_update (max_bytes_per_value : Z) (raw : RawUpdate)
    (resource : ResourceDescriptor) (policy_id : Z) : policy_result UpdatePolicy :=
  if bool_decide (length (ru_columns raw) = 0)%nat then throw PolicyError.UnsupportedCapability
  else
    columns ← column_set resource (ru_columns raw);
    presets ← activate_presets resource columns max_bytes_per_value (ru_presets raw);
    id ← policy_id_new policy_id;
    filter ← parse_predicate resource (ru_filter raw);
    check ← parse_predicate resource (ru_check raw);
    returning ← activate_returning (ru_returning raw) resource;
    mret {| up_id := id; up_columns := columns; up_presets := presets; up_filter := filter;
            up_check := check; up_returning := returning |}.

(* [policy/lib.rs:1040-1050] activate_delete *)
Definition activate_delete (raw : RawDelete) (resource : ResourceDescriptor) (policy_id : Z)
    : policy_result DeletePolicy :=
  id ← policy_id_new policy_id;
  filter ← parse_predicate resource (rd_filter raw);
  returning ← activate_returning (rd_returning raw) resource;
  mret {| dp_id := id; dp_filter := filter; dp_returning := returning |}.

(** ** String literals that look like SQL tokens *)

(* [policy/lib.rs:1304-1312] collect_quoted_value *)
Definition collect_quoted_value (value : LogicalValue) (output : gset string) : gset string :=
  match value with
  | LogicalValue.String value =>
      if (2 <=? len value)%Z && byte_is value 0 39
         && byte_is value (String.length value - 1) 39
      then {[value]} ∪ output else output
  | _ => output
  end.

(* [policy/lib.rs:1298-1302] collect_quoted_operand *)
Definition collect_quoted_operand (operand : PolicyOperand) (output : gset string)
    : gset string :=
  match operand with
  | PolicyOperand.Literal value => collect_quoted_value value output
  | _ => output
  end.

(* [policy/lib.rs:1280-1296] collect_quoted_predicate *)
Fixpoint collect_quoted_predicate (predicate : PolicyPredicate) (output : gset string)
    : gset string :=
  match predicate with
  | PolicyPredicate.Comparison _ _ operand => collect_quoted_operand operand output
  | PolicyPredicate.In _ values _ =>
      fold_left (fun output value => collect_quoted_value value output) values output
  | PolicyPredicate.IsNull _ _ => output
  | PolicyPredicate.And values | PolicyPredicate.Or values =>
      fold_left (fun output value => collect_quoted_predicate value output) values output
  | PolicyPredicate.Not value => collect_quoted_predicate value output
  end.

(** [policies.values().flat_map(BTreeMap::values)]. *)
(* [policy/lib.rs:1255-1255]! quoted_policy_literals *)
Definition all_policies {T} (policies : PolicyMap T) : list T :=
  map_to_list policies ≫= fun '(_, roles) => map snd (map_to_list roles).

(* [policy/lib.rs:1263-1265]! quoted_policy_literals *)
Definition collect_presets (presets : Presets) (output : gset string) : gset string :=
  fold_left (fun output '(_, (_, operand)) => collect_quoted_operand operand output)
    presets output.

(* [policy/lib.rs:1241-1278] quoted_policy_literals *)
Definition quoted_policy_literals (select : PolicyMap SelectPolicy)
    (insert : PolicyMap InsertPolicy) (update : PolicyMap UpdatePolicy)
    (delete : PolicyMap DeletePolicy) : gset string :=
  let output := fold_left (fun output policy =>
    fold_left (fun output '(_, predicate) => collect_quoted_predicate predicate output)
      (map_to_list (sp_conditional_columns policy))
      (collect_quoted_predicate (sp_filter policy) output)) (all_policies select) ∅ in
  let output := fold_left (fun output policy =>
    collect_presets (ip_presets policy) (collect_quoted_predicate (ip_check policy) output))
    (all_policies insert) output in
  let output := fold_left (fun output policy =>
    collect_presets (up_presets policy)
      (collect_quoted_predicate (up_check policy)
        (collect_quoted_predicate (up_filter policy) output))) (all_policies update) output in
  fold_left (fun output policy => collect_quoted_predicate (dp_filter policy) output)
    (all_policies delete) output.

(** ** The bundle *)

(* [policy/lib.rs:868-897]! activate_commit_checks *)
Definition activate_commit_check (catalog : Catalog) (raw : string * RawCommitCheck)
    : policy_result ActivatedCommitCheck :=
  let '(id, check) := raw in
  let timeout_ms := rh_timeout_ms (rc_hook check) in
  _ ← map_err (role_name_new id) PolicyError.InvalidBundle;
  if bool_decide (length (rc_triggered_by check) = 0)%nat || (timeout_ms =? 0)%Z
     || (MAX_COMMIT_CHECK_TIMEOUT_MS <? timeout_ms)%Z
  then throw PolicyError.InvalidBundle
  else
    triggered_by ← collect (fun name =>
      ok_or (rd_id <$> resource catalog name) PolicyError.UnknownResource)
      (rc_triggered_by check);
    role ← match rc_role check with
           | None => mret None
           | Some role => Some <$> map_err (role_name_new role) PolicyError.InvalidRole
           end;
    mret {| acc_id := id; acc_triggered_by := list_to_set triggered_by; acc_role := role;
            acc_timeout_ms := timeout_ms |}.

(* [policy/lib.rs:860-899] activate_commit_checks *)
Definition activate_commit_checks (raw : list (string * RawCommitCheck)) (catalog : Catalog)
    : policy_result (list ActivatedCommitCheck) :=
  if (MAX_COMMIT_CHECKS <? length raw)%nat then throw PolicyError.InvalidBundle
  else collect (activate_commit_check catalog) raw.

(** The policy of one operation of a role takes the next identity. *)
(* [policy/lib.rs:355-363]! PolicyBundle::activate_with_value_limit *)
Definition add_policy {Raw T} (activate : Raw -> ResourceDescriptor -> Z -> policy_result T)
    (resource : ResourceDescriptor) (role : string) (raw : option Raw)
    (state : Z * gmap string T) : policy_result (Z * gmap string T) :=
  match raw with
  | None => mret state
  | Some raw =>
      let '(next_policy_id, roles) := state in
      policy ← activate raw resource next_policy_id;
      next_policy_id ← ok_or (checked_add64 next_policy_id 1) PolicyError.TooManyPolicies;
      match roles !! role with
      | Some _ => throw PolicyError.DuplicatePolicy
      | None => mret (next_policy_id, <[role := policy]> roles)
      end
  end.

(* [policy/lib.rs:347-393]! PolicyBundle::activate_with_value_limit *)
Definition activate_role (resource : ResourceDescriptor) (max_bytes_per_value : Z)
    (state : Roles) (raw : string * RawRole) : policy_result Roles :=
  let '(role_name, raw_role) := raw in
  let '(next, (select_roles, insert_roles, update_roles, delete_roles)) := state in
  role ← map_err (role_name_new role_name) PolicyError.InvalidRole;
  s ← add_policy activate_select resource role (role_select raw_role) (next, select_roles);
  i ← add_policy (activate_insert max_bytes_per_value) resource role (role_insert raw_role)
        (fst s, insert_roles);
  u ← add_policy (activate_update max_bytes_per_value) resource role (role_update raw_role)
        (fst i, update_roles);
  d ← add_policy activate_delete resource role (role_delete raw_role) (fst u, delete_roles);
  mret (fst d, (snd s, snd i, snd u, snd d)).

(* [policy/lib.rs:339-401]! PolicyBundle::activate_with_value_limit *)
Definition activate_resource (catalog : Catalog) (max_bytes_per_value : Z) (state : Policies)
    (raw : string * RawResource) : policy_result Policies :=
  let '(resource_name, raw_resource) := raw in
  let '(next, (select, insert, update, delete)) := state in
  resource ← ok_or (resource catalog resource_name) PolicyError.UnknownResource;
  roles ← for_fold (activate_role resource max_bytes_per_value) (next, (∅, ∅, ∅, ∅))
            (rr_roles raw_resource);
  let '(next, (select_roles, insert_roles, update_roles, delete_roles)) := roles in
  let id := rd_id resource in
  if bool_decide (id ∈ dom select ∪ dom insert ∪ dom update ∪ dom delete)
  then throw PolicyError.DuplicatePolicy
  else mret (next, (<[id := select_roles]> select, <[id := insert_roles]> insert,
                    <[id := update_roles]> update, <[id := delete_roles]> delete)).

(* [policy/lib.rs:317-417] PolicyBundle::activate_with_value_limit *)
Definition activate_with_value_limit (yaml : string) (catalog : Catalog) (snapshot : string)
    (max_bytes_per_value : Z) : policy_result PolicyBundle :=
  raw ← ok_or (yaml_from_str yaml) PolicyError.InvalidBundle;
  if negb (rb_version raw =? 1)%Z || bool_decide (length (rb_resources raw) = 0)%nat
  then throw PolicyError.InvalidBundle
  else
    commit_checks ← activate_commit_checks (rb_commit_checks raw) catalog;
    policies ← for_fold (activate_resource catalog max_bytes_per_value) (1, (∅, ∅, ∅, ∅))
                 (rb_resources raw);
    let '(_, (select, insert, update, delete)) := policies in
    mret {| pb_snapshot := snapshot; pb_select := select; pb_insert := insert;
            pb_update := update; pb_delete := delete; pb_commit_checks := commit_checks;
            pb_quoted_string_literals := quoted_policy_literals select insert update delete |}.

(* [policy/lib.rs:297-315] PolicyBundle::activate *)
Definition activate (yaml : string) (catalog : Catalog) (snapshot : string)
    : policy_result PolicyBundle :=
  activate_with_value_limit yaml catalog snapshot DEFAULT_MAX_BYTES_PER_VALUE.
End activation.
