(* ===== verification/Protect.v ===== *)
(** * Compiling a statement under a policy

    The compilation of the crate [policysql-policy] (lib.rs): a bound statement, the policies of
    the caller's role and the trusted session give a protected plan. The functions that
    instantiate policy predicates also collect the server parameters: they are computations of
    the monad [Compile], which threads the map of their values. *)

From S2P Require Import Prelude Result F64 Utf8 Core Ir Policy.

Abbreviation ServerValues := (gmap string LogicalValue).

(** [&mut BTreeMap<ServerParameterName, LogicalValue>] and [Result<A, PolicyError>]. *)
Definition Compile (A : Type) : Type := ServerValues -> policy_result (A * ServerValues).
#[export] Instance compile_ret : MRet Compile := fun A a s => inl (a, s).
#[export] Instance compile_bind : MBind Compile := fun A B k m s =>
  match m s with inl (a, s') => k a s' | inr e => inr e end.
#[export] Instance compile_fmap : FMap Compile := fun A B f m s =>
  match m s with inl (a, s') => inl (f a, s') | inr e => inr e end.
(** A result that collects nothing. *)
Definition checked {A} (r : policy_result A) : Compile A := fun s =>
  match r with inl a => inl (a, s) | inr e => inr e end.

(** [server_values.insert(name, value)]. *)
(* [policy/lib.rs:1730-1730]! instantiate_operand *)
Definition insert_value (name : string) (value : LogicalValue) : Compile unit := fun s =>
  inl ((), <[name := value]> s).

(** A loop over a vector that rewrites its elements. *)
Definition traverse {A B} (f : A -> Compile B) : list A -> Compile (list B) :=
  fix go l :=
    match l with
    | [] => mret []
    | a :: l' => b ← f a; bs ← go l'; mret (b :: bs)
    end.

Definition traverse_option {A B} (f : A -> Compile B) (o : option A) : Compile (option B) :=
  match o with Some a => b ← f a; mret (Some b) | None => mret None end.

(** ** The output *)

(* [policy/lib.rs:1920-1928] Explain *)
Record Explain := {
  ex_operation : OperationKind.operation_kind;
  ex_resource : option Z;
  ex_resources : list Z;
  ex_referenced_columns : gmap Z (gset ColumnId);
  ex_applied_policies : list Z;
  ex_policy_limit : option Z
}.
(* [policy/lib.rs:1914-1918] CompileOutput *)
Record CompileOutput := { co_plan : ProtectedPlan; co_explain : Explain }.

(** ** Policy predicates as expressions *)

(* [policy/lib.rs:1715-1739] instantiate_operand *)
Definition instantiate_operand (operand : PolicyOperand) (expected : LogicalType)
    (session : TrustedSession) : Compile BoundExpr :=
  match operand with
  | PolicyOperand.Session key =>
      if negb (bool_decide (expected = LogicalType.String))
      then checked (throw PolicyError.IncompatibleOperand)
      else
        value ← checked (ok_or (session_get session key) PolicyError.MissingSessionValue);
        name ← checked (map_err (from_trusted_suffix ("session_" ++ key))
                          PolicyError.InvalidSessionKey);
        _ ← insert_value name (LogicalValue.String value);
        mret (BoundExpr.ServerParameter name LogicalType.String)
  | PolicyOperand.Literal value => mret (BoundExpr.Literal value)
  | PolicyOperand.Column column => mret (BoundExpr.Column column)
  end.

(* [policy/lib.rs:1652-1666]! instantiate_predicate *)
Definition comparison (operator : ComparisonOperator.comparison_operator)
    : BoundExpr -> BoundExpr -> BoundExpr :=
  match operator with
  | ComparisonOperator.Equal => BoundExpr.Equal
  | ComparisonOperator.NotEqual => BoundExpr.NotEqual
  | ComparisonOperator.Less => BoundExpr.Less
  | ComparisonOperator.LessEqual => BoundExpr.LessEqual
  | ComparisonOperator.Greater => BoundExpr.Greater
  | ComparisonOperator.GreaterEqual => BoundExpr.GreaterEqual
  | ComparisonOperator.Like => BoundExpr.Like
  end.

(** [fold_logical], for the predicates [instantiate] rewrites. *)
(* [policy/lib.rs:1695-1713] fold_logical *)
Definition fold_logical {A} (instantiate : A -> Compile BoundExpr) (values : list A) (and : bool)
    : Compile BoundExpr :=
  match values with
  | [] => checked (throw PolicyError.InvalidPredicate)
  | first :: values =>
      output ← instantiate first;
      (fix go (output : BoundExpr) (values : list A) : Compile BoundExpr :=
         match values with
         | [] => mret output
         | value :: values =>
             next ← instantiate value;
             go (if and then BoundExpr.And output next else BoundExpr.Or output next) values
         end) output values
  end.

(* [policy/lib.rs:1639-1693] instantiate_predicate *)
Fixpoint instantiate_predicate (session : TrustedSession) (predicate : PolicyPredicate)
    : Compile BoundExpr :=
  match predicate with
  | PolicyPredicate.Comparison column operator operand =>
      rhs ← instantiate_operand operand (bc_logical_type column) session;
      mret (comparison operator (BoundExpr.Column column) rhs)
  | PolicyPredicate.In column values negated =>
      mret (BoundExpr.In (BoundExpr.Column column) (map BoundExpr.Literal values) negated)
  | PolicyPredicate.IsNull column is_null =>
      let expression := BoundExpr.IsNull (BoundExpr.Column column) in
      mret (if is_null then expression else BoundExpr.Not expression)
  | PolicyPredicate.And values => fold_logical (instantiate_predicate session) values true
  | PolicyPredicate.Or values => fold_logical (instantiate_predicate session) values false
  | PolicyPredicate.Not value => BoundExpr.Not <$> instantiate_predicate session value
  end.

(* [policy/lib.rs:1393-1398] and_optional *)
Definition and_optional (current : option BoundExpr) (required : BoundExpr) : BoundExpr :=
  match current with
  | Some current => BoundExpr.And current required
  | None => required
  end.

(** [i64::MAX]. *)
Definition I64_MAX : Z := 2 ^ 63 - 1.

(** The limit [apply_policy_limit] leaves. *)
(* [policy/lib.rs:1745-1753]! apply_policy_limit *)
Definition limited (limit : option BoundExpr) (policy_limit : Z) : BoundExpr :=
  let policy_value := if (policy_limit <=? I64_MAX)%Z then policy_limit else I64_MAX in
  let policy := BoundExpr.Literal (LogicalValue.Int64 policy_value) in
  match limit with
  | Some (BoundExpr.Literal (LogicalValue.Int64 client)) =>
      BoundExpr.Literal (LogicalValue.Int64 (Z.min client policy_value))
  | Some client => BoundExpr.Least client policy
  | None => policy
  end.

(** Assignments to one field of a select. *)
Definition with_predicate (s : BoundSelect) (predicate : option BoundExpr) : BoundSelect :=
  {| bs_resource := bs_resource s; bs_alias := bs_alias s; bs_joins := bs_joins s;
     bs_projections := bs_projections s; bs_predicate := predicate;
     bs_group_by := bs_group_by s; bs_having := bs_having s; bs_order_by := bs_order_by s;
     bs_limit := bs_limit s; bs_offset := bs_offset s |}.
Definition with_limit (s : BoundSelect) (limit : option BoundExpr) : BoundSelect :=
  {| bs_resource := bs_resource s; bs_alias := bs_alias s; bs_joins := bs_joins s;
     bs_projections := bs_projections s; bs_predicate := bs_predicate s;
     bs_group_by := bs_group_by s; bs_having := bs_having s; bs_order_by := bs_order_by s;
     bs_limit := limit; bs_offset := bs_offset s |}.
Definition with_projections (s : BoundSelect) (projections : list BoundProjection)
    : BoundSelect :=
  {| bs_resource := bs_resource s; bs_alias := bs_alias s; bs_joins := bs_joins s;
     bs_projections := projections; bs_predicate := bs_predicate s;
     bs_group_by := bs_group_by s; bs_having := bs_having s; bs_order_by := bs_order_by s;
     bs_limit := bs_limit s; bs_offset := bs_offset s |}.
Definition with_joins (s : BoundSelect) (joins : list BoundJoin) : BoundSelect :=
  {| bs_resource := bs_resource s; bs_alias := bs_alias s; bs_joins := joins;
     bs_projections := bs_projections s; bs_predicate := bs_predicate s;
     bs_group_by := bs_group_by s; bs_having := bs_having s; bs_order_by := bs_order_by s;
     bs_limit := bs_limit s; bs_offset := bs_offset s |}.

(* [policy/lib.rs:1741-1754] apply_policy_limit *)
Definition apply_policy_limit (select : BoundSelect) (policy_limit : option Z) : BoundSelect :=
  match policy_limit with
  | None => select
  | Some policy_limit => with_limit select (Some (limited (bs_limit select) policy_limit))
  end.

(** ** What a client expression may use *)

(* [policy/lib.rs:1400-1487] validate_client_expression *)
Fixpoint validate_client_expression (allowed : gset ColumnId) (expression : BoundExpr)
    : policy_result unit :=
  match expression with
  | BoundExpr.Column column =>
      if bool_decide (bc_id column ∈ allowed) then mret ()
      else throw PolicyError.ForbiddenColumn
  | BoundExpr.ClientParameter _ _ | BoundExpr.ServerParameter _ _ | BoundExpr.Literal _
  | BoundExpr.CountAll _ => mret ()
  | BoundExpr.RowNumber _ partition_by order_by =>
      _ ← for_each (fun column =>
            if bool_decide (bc_id column ∈ allowed) then mret ()
            else throw PolicyError.ForbiddenColumn) partition_by;
      for_each (fun order => validate_client_expression allowed (bo_expression order)) order_by
  | BoundExpr.ScalarFunction _ arguments _ =>
      for_each (validate_client_expression allowed) arguments
  | BoundExpr.Equal lhs rhs | BoundExpr.NotEqual lhs rhs | BoundExpr.Less lhs rhs
  | BoundExpr.LessEqual lhs rhs | BoundExpr.Greater lhs rhs
  | BoundExpr.GreaterEqual lhs rhs | BoundExpr.And lhs rhs | BoundExpr.Or lhs rhs
  | BoundExpr.Like lhs rhs | BoundExpr.Glob lhs rhs | BoundExpr.Least lhs rhs
  | BoundExpr.Concat lhs rhs =>
      _ ← validate_client_expression allowed lhs;
      validate_client_expression allowed rhs
  | BoundExpr.Not inner | BoundExpr.IsNull inner | BoundExpr.CastText inner =>
      validate_client_expression allowed inner
  | BoundExpr.In expression values _ =>
      _ ← validate_client_expression allowed expression;
      for_each (validate_client_expression allowed) values
  | BoundExpr.ConditionalOutput _ _ => throw PolicyError.ForbiddenColumnContext
  | BoundExpr.Case branches else_expression _ =>
      _ ← for_each (fun '(condition, value) =>
            _ ← validate_client_expression allowed condition;
            validate_client_expression allowed value) branches;
      if_some (validate_client_expression allowed) else_expression
  | BoundExpr.Exists select =>
      _ ← for_each (fun projection =>
            validate_client_expression allowed (bp_expression projection))
            (bs_projections select);
      if_some (validate_client_expression allowed) (bs_predicate select)
  end.

(* [policy/lib.rs:1072-1085] validate_returning *)
Definition validate_returning (returning : list BoundProjection) (allowed : gset ColumnId)
    : policy_result unit :=
  for_each (fun projection =>
    match bp_expression projection with
    | BoundExpr.Column column =>
        if negb (bool_decide (bc_id column ∈ allowed)) then throw PolicyError.ForbiddenColumn
        else mret ()
    | _ => throw PolicyError.ForbiddenColumnContext
    end) returning.

(** ** The resources of a select *)

(** [collect_expression_resources], as the list of resources it pushes. *)
(* [policy/lib.rs:1489-1558] collect_expression_resources *)
Fixpoint collect_expression_resources (expression : BoundExpr) : list Z :=
  match expression with
  | BoundExpr.Exists select =>
      bs_resource select
      :: flat_map (fun projection => collect_expression_resources (bp_expression projection))
           (bs_projections select)
      ++ match bs_predicate select with
         | Some predicate => collect_expression_resources predicate
         | None => []
         end
  | BoundExpr.Equal lhs rhs | BoundExpr.NotEqual lhs rhs | BoundExpr.Less lhs rhs
  | BoundExpr.LessEqual lhs rhs | BoundExpr.Greater lhs rhs
  | BoundExpr.GreaterEqual lhs rhs | BoundExpr.And lhs rhs | BoundExpr.Or lhs rhs
  | BoundExpr.Like lhs rhs | BoundExpr.Glob lhs rhs | BoundExpr.Least lhs rhs
  | BoundExpr.Concat lhs rhs | BoundExpr.ConditionalOutput lhs rhs =>
      collect_expression_resources lhs ++ collect_expression_resources rhs
  | BoundExpr.Not inner | BoundExpr.IsNull inner | BoundExpr.CastText inner =>
      collect_expression_resources inner
  | BoundExpr.ScalarFunction _ arguments _ => flat_map collect_expression_resources arguments
  | BoundExpr.In expression values _ =>
      collect_expression_resources expression ++ flat_map collect_expression_resources values
  | BoundExpr.Case branches else_expression _ =>
      flat_map (fun '(condition, value) =>
        collect_expression_resources condition ++ collect_expression_resources value) branches
      ++ match else_expression with
         | Some value => collect_expression_resources value
         | None => []
         end
  | BoundExpr.Column _ | BoundExpr.ClientParameter _ _ | BoundExpr.ServerParameter _ _
  | BoundExpr.Literal _ | BoundExpr.CountAll _ => []
  | BoundExpr.RowNumber resource _ _ => [resource]
  end.

(** [sort_unstable] and [dedup]: the distinct resources in ascending order. *)
Fixpoint insert_resource (resource : Z) (l : list Z) : list Z :=
  match l with
  | [] => [resource]
  | r :: l' =>
      match Z.compare resource r with
      | Lt => resource :: l
      | Eq => l
      | Gt => r :: insert_resource resource l'
      end
  end.

(* [policy/lib.rs:844-845]! PolicyBundle::select_policies *)
Definition sort_dedup (l : list Z) : list Z := fold_right insert_resource [] l.

Abbreviation Selected := (gmap Z SelectPolicy).

(* [policy/lib.rs:828-857] PolicyBundle::select_policies *)
Definition select_policies (b : PolicyBundle) (select : BoundSelect) (role : string)
    : policy_result (list Z * Selected) :=
  let resources :=
    bs_resource select :: map bj_resource (bs_joins select)
    ++ match bs_predicate select with
       | Some predicate => collect_expression_resources predicate
       | None => []
       end in
  let resources := sort_dedup resources in
  selected ← collect (fun resource =>
    policy ← ok_or (policy_of (pb_select b) resource role) PolicyError.MissingPolicy;
    mret (resource, policy)) resources;
  mret (resources, list_to_map selected).

(** ** Projections *)

(* [policy/lib.rs:1358-1391] apply_projection_permissions *)
Definition apply_projection_permission (policies : Selected) (session : TrustedSession)
    (projection : BoundProjection) : Compile BoundProjection :=
  match bp_expression projection with
  | BoundExpr.Column column =>
      policy ← checked (ok_or (policies !! column_resource (bc_id column))
                          PolicyError.MissingPolicy);
      if bool_decide (bc_id column ∈ sp_regular_columns policy) then mret projection
      else
        visible_if ← checked (ok_or (sp_conditional_columns policy !! bc_id column)
                                PolicyError.ForbiddenColumn);
        visible_if ← instantiate_predicate session visible_if;
        mret {| bp_expression :=
                  BoundExpr.ConditionalOutput (bp_expression projection) visible_if;
                bp_output_name := bp_output_name projection |}
  | BoundExpr.CountAll _ | BoundExpr.RowNumber _ _ _ | BoundExpr.ScalarFunction _ _ _
  | BoundExpr.Concat _ _ | BoundExpr.CastText _ | BoundExpr.Case _ _ _ => mret projection
  | _ => checked (throw PolicyError.ForbiddenColumnContext)
  end.

Definition apply_projection_permissions (projections : list BoundProjection)
    (policies : Selected) (session : TrustedSession) : Compile (list BoundProjection) :=
  traverse (apply_projection_permission policies session) projections.

(** ** Nested selects *)

(** A node with two operands, both rewritten. *)
Definition binary (node : BoundExpr -> BoundExpr -> BoundExpr) (lhs rhs : Compile BoundExpr)
    : Compile BoundExpr :=
  lhs ← lhs; rhs ← rhs; mret (node lhs rhs).

(* [policy/lib.rs:1560-1637] protect_nested_selects *)
Fixpoint protect_nested_selects (policies : Selected) (session : TrustedSession)
    (expression : BoundExpr) : Compile BoundExpr :=
  let protect := protect_nested_selects policies session in
  match expression with
  | BoundExpr.Exists select =>
      predicate ← traverse_option protect (bs_predicate select);
      policy ← checked (ok_or (policies !! bs_resource select) PolicyError.MissingPolicy);
      filter ← instantiate_predicate session (sp_filter policy);
      mret (BoundExpr.Exists
        (apply_policy_limit (with_predicate select (Some (and_optional predicate filter)))
           (sp_limit policy)))
  | BoundExpr.Equal lhs rhs => binary BoundExpr.Equal (protect lhs) (protect rhs)
  | BoundExpr.NotEqual lhs rhs => binary BoundExpr.NotEqual (protect lhs) (protect rhs)
  | BoundExpr.Less lhs rhs => binary BoundExpr.Less (protect lhs) (protect rhs)
  | BoundExpr.LessEqual lhs rhs => binary BoundExpr.LessEqual (protect lhs) (protect rhs)
  | BoundExpr.Greater lhs rhs => binary BoundExpr.Greater (protect lhs) (protect rhs)
  | BoundExpr.GreaterEqual lhs rhs =>
      binary BoundExpr.GreaterEqual (protect lhs) (protect rhs)
  | BoundExpr.And lhs rhs => binary BoundExpr.And (protect lhs) (protect rhs)
  | BoundExpr.Or lhs rhs => binary BoundExpr.Or (protect lhs) (protect rhs)
  | BoundExpr.Like lhs rhs => binary BoundExpr.Like (protect lhs) (protect rhs)
  | BoundExpr.Glob lhs rhs => binary BoundExpr.Glob (protect lhs) (protect rhs)
  | BoundExpr.Least lhs rhs => binary BoundExpr.Least (protect lhs) (protect rhs)
  | BoundExpr.Concat lhs rhs => binary BoundExpr.Concat (protect lhs) (protect rhs)
  | BoundExpr.ConditionalOutput value visible_if =>
      binary BoundExpr.ConditionalOutput (protect value) (protect visible_if)
  | BoundExpr.Not inner => BoundExpr.Not <$> protect inner
  | BoundExpr.IsNull inner => BoundExpr.IsNull <$> protect inner
  | BoundExpr.CastText inner => BoundExpr.CastText <$> protect inner
  | BoundExpr.ScalarFunction function arguments logical_type =>
      arguments ← traverse protect arguments;
      mret (BoundExpr.ScalarFunction function arguments logical_type)
  | BoundExpr.In expression values negated =>
      expression ← protect expression;
      values ← traverse protect values;
      mret (BoundExpr.In expression values negated)
  | BoundExpr.Case branches else_expression logical_type =>
      branches ← traverse (fun '(condition, value) =>
        condition ← protect condition; value ← protect value; mret (condition, value)) branches;
      else_expression ← traverse_option protect else_expression;
      mret (BoundExpr.Case branches else_expression logical_type)
  | BoundExpr.Column _ | BoundExpr.ClientParameter _ _ | BoundExpr.ServerParameter _ _
  | BoundExpr.Literal _ | BoundExpr.CountAll _ | BoundExpr.RowNumber _ _ _ => mret expression
  end.

(** ** The columns a statement refers to *)

Abbreviation ReferencedColumns := (gmap Z (gset ColumnId)).

(* [policy/lib.rs:1833-1838] add_column *)
Definition add_column (column : ColumnId) (columns : ReferencedColumns) : ReferencedColumns :=
  <[column_resource column := {[column]} ∪ default ∅ (columns !! column_resource column)]>
    columns.

(** [collect_select_columns] and [collect_projection_columns], for what adds the columns of an
    expression. *)
(* [policy/lib.rs:1824-1831] collect_projection_columns *)
Definition projection_columns (add : BoundExpr -> ReferencedColumns -> ReferencedColumns)
    (projections : list BoundProjection) : ReferencedColumns -> ReferencedColumns :=
  add_all (fun projection => add (bp_expression projection)) projections.

(* [policy/lib.rs:1797-1822] collect_select_columns *)
Definition select_columns (add : BoundExpr -> ReferencedColumns -> ReferencedColumns)
    (select : BoundSelect) (columns : ReferencedColumns) : ReferencedColumns :=
  let columns := projection_columns add (bs_projections select) columns in
  let columns := add_all (fun join => add (bj_on join)) (bs_joins select) columns in
  let columns := add_option add (bs_predicate select) columns in
  let columns := add_option add (bs_having select) columns in
  let columns := add_option add (bs_limit select) columns in
  let columns := add_option add (bs_offset select) columns in
  let columns := add_all (fun column => add_column (bc_id column)) (bs_group_by select) columns in
  add_all (fun order => add (bo_expression order)) (bs_order_by select) columns.

(* [policy/lib.rs:1840-1912] collect_expression_columns *)
Fixpoint collect_expression_columns (expression : BoundExpr) (columns : ReferencedColumns)
    : ReferencedColumns :=
  match expression with
  | BoundExpr.Column column => add_column (bc_id column) columns
  | BoundExpr.Equal lhs rhs | BoundExpr.NotEqual lhs rhs | BoundExpr.Less lhs rhs
  | BoundExpr.LessEqual lhs rhs | BoundExpr.Greater lhs rhs
  | BoundExpr.GreaterEqual lhs rhs | BoundExpr.And lhs rhs | BoundExpr.Or lhs rhs
  | BoundExpr.Like lhs rhs | BoundExpr.Glob lhs rhs | BoundExpr.Least lhs rhs
  | BoundExpr.Concat lhs rhs | BoundExpr.ConditionalOutput lhs rhs =>
      collect_expression_columns rhs (collect_expression_columns lhs columns)
  | BoundExpr.Not inner | BoundExpr.IsNull inner | BoundExpr.CastText inner =>
      collect_expression_columns inner columns
  | BoundExpr.In expression values _ =>
      add_all collect_expression_columns values (collect_expression_columns expression columns)
  | BoundExpr.ScalarFunction _ arguments _ => add_all collect_expression_columns arguments columns
  | BoundExpr.Case branches else_expression _ =>
      add_option collect_expression_columns else_expression
        (add_all (fun '(condition, value) columns =>
           collect_expression_columns value (collect_expression_columns condition columns))
           branches columns)
  | BoundExpr.Exists select => select_columns collect_expression_columns select columns
  | BoundExpr.RowNumber _ partition_by order_by =>
      add_all (fun order => collect_expression_columns (bo_expression order)) order_by
        (add_all (fun column => add_column (bc_id column)) partition_by columns)
  | BoundExpr.ClientParameter _ _ | BoundExpr.ServerParameter _ _ | BoundExpr.Literal _
  | BoundExpr.CountAll _ => columns
  end.

(* [policy/lib.rs:1771-1774]! referenced_columns *)
Definition assignment_columns (assignment : BoundAssignment) (columns : ReferencedColumns)
    : ReferencedColumns :=
  collect_expression_columns (ba_value assignment)
    (add_column (bc_id (ba_column assignment)) columns).

(* [policy/lib.rs:1756-1795] referenced_columns *)
Definition referenced_columns (statement : BoundStatement) : ReferencedColumns :=
  let expression := add_option collect_expression_columns in
  let projections := projection_columns collect_expression_columns in
  match statement with
  | BoundStatement.Select select => select_columns collect_expression_columns select ∅
  | BoundStatement.ConstantSelect _ => ∅
  | BoundStatement.JsonCollectionSelect select =>
      expression (bjc_predicate select)
        (collect_expression_columns (bjc_path select)
           (add_column (bc_id (bjc_document select)) ∅))
  | BoundStatement.Insert insert =>
      projections (bi_returning insert)
        (add_all assignment_columns (concat (bi_rows insert)) ∅)
  | BoundStatement.Update update =>
      projections (bu_returning update)
        (expression (bu_predicate update)
           (add_all assignment_columns (bu_assignments update) ∅))
  | BoundStatement.Delete delete =>
      projections (bd_returning delete) (expression (bd_predicate delete) ∅)
  end.
