(* ===== verification/CompilePolicy.v ===== *)
(** * The operations of the policy compiler

    [PolicyBundle::compile_select], [compile_insert], [compile_update] and [compile_delete] of
    the crate [policysql-policy] (lib.rs), built from the functions of Protect.v. *)

From S2P Require Import Prelude Result F64 Utf8 Core Ir Policy Protect.

(** A computation started on no server values. *)
Definition run_compile {A} (m : Compile A) : policy_result (A * ServerValues) := m ∅.

(* [policy/lib.rs:419-424] PolicyBundle::string_literal_witnesses *)
Definition string_literal_witnesses (b : PolicyBundle) : StringLiteralWitnesses :=
  {| slw_client := []; slw_policy := pb_quoted_string_literals b |}.

(* [policy/lib.rs:447-468]! PolicyBundle::compile_select *)
Definition compile_constant_select (b : PolicyBundle) (select : BoundConstantSelect)
    : CompileOutput :=
  {| co_plan :=
       {| pp_statement := BoundStatement.ConstantSelect select; pp_applied_policies := [];
          pp_server_values := ∅; pp_policy_limit := None; pp_operation_check := None;
          pp_expected_affected_rows := None; pp_expected_result_rows := None;
          pp_string_literals := string_literal_witnesses b |};
     co_explain :=
       {| ex_operation := OperationKind.Select; ex_resource := None; ex_resources := [];
          ex_referenced_columns := ∅; ex_applied_policies := []; ex_policy_limit := None |} |}.

(** ** The checks of a select *)

(* [policy/lib.rs:490-499]! PolicyBundle::compile_select *)
Definition check_conditional_output (left_resources : gset Z) (projection : BoundProjection)
    : policy_result unit :=
  match bp_expression projection with
  | BoundExpr.ConditionalOutput value _ =>
      match value with
      | BoundExpr.Column column =>
          require (negb (bool_decide (column_resource (bc_id column) ∈ left_resources)))
            PolicyError.ForbiddenColumnContext
      | _ => throw PolicyError.ForbiddenColumnContext
      end
  | _ => mret ()
  end.

(* [policy/lib.rs:519-554]! PolicyBundle::compile_select *)
Definition check_projection (selected : Selected) (regular_columns : gset ColumnId)
    (projection : BoundProjection) : policy_result unit :=
  match bp_expression projection with
  | BoundExpr.CountAll resource =>
      policy ← ok_or (selected !! resource) PolicyError.MissingPolicy;
      require (sp_allow_aggregations policy) PolicyError.UnsupportedCapability
  | BoundExpr.RowNumber resource partition_by order_by =>
      policy ← ok_or (selected !! resource) PolicyError.MissingPolicy;
      require
        (negb (negb (sp_allow_windows policy)
               || existsb (fun column => negb (bool_decide (bc_id column ∈ regular_columns)))
                    partition_by
               || existsb (fun order =>
                    match validate_client_expression regular_columns (bo_expression order) with
                    | inl _ => false | inr _ => true
                    end) order_by))
        PolicyError.UnsupportedCapability
  | BoundExpr.ScalarFunction _ _ _ | BoundExpr.Concat _ _ | BoundExpr.CastText _
  | BoundExpr.Case _ _ _ =>
      validate_client_expression regular_columns (bp_expression projection)
  | _ => mret ()
  end.

(* [policy/lib.rs:484-557]! PolicyBundle::compile_select *)
Definition check_select (selected : Selected) (protected : BoundSelect) : policy_result unit :=
  let left_resources : gset Z :=
    list_to_set (map bj_resource
      (List.filter (fun join => bool_decide (bj_kind join = JoinKind.Left))
         (bs_joins protected))) in
  _ ← for_each (check_conditional_output left_resources) (bs_projections protected);
  let regular_columns : gset ColumnId :=
    ⋃ (map (fun '(_, policy) => sp_regular_columns policy) (map_to_list selected)) in
  let validate := validate_client_expression regular_columns in
  _ ← if_some validate (bs_predicate protected);
  _ ← for_each (fun order => validate (bo_expression order)) (bs_order_by protected);
  _ ← for_each (fun column =>
        require (bool_decide (bc_id column ∈ regular_columns)) PolicyError.ForbiddenColumn)
        (bs_group_by protected);
  _ ← if_some validate (bs_having protected);
  _ ← for_each (check_projection selected regular_columns) (bs_projections protected);
  for_each (fun join => validate (bj_on join)) (bs_joins protected).

(** ** Row filters *)

(** The filter of a joined resource: an inner join's in WHERE, a left join's in ON. The
    accumulator is the predicate and the joins rewritten so far. *)
(* [policy/lib.rs:564-577]! PolicyBundle::compile_select *)
Fixpoint filter_joins (selected : Selected) (session : TrustedSession)
    (predicate : option BoundExpr) (joins : list BoundJoin)
    : Compile (option BoundExpr * list BoundJoin) :=
  match joins with
  | [] => mret (predicate, [])
  | join :: joins =>
      policy ← checked (ok_or (selected !! bj_resource join) PolicyError.MissingPolicy);
      filter ← instantiate_predicate session (sp_filter policy);
      match bj_kind join with
      | JoinKind.Inner =>
          rest ← filter_joins selected session (Some (and_optional predicate filter)) joins;
          mret (fst rest, join :: snd rest)
      | JoinKind.Left =>
          rest ← filter_joins selected session predicate joins;
          mret (fst rest,
                {| bj_resource := bj_resource join; bj_alias := bj_alias join;
                   bj_kind := bj_kind join; bj_on := BoundExpr.And (bj_on join) filter |}
                :: snd rest)
      end
  end.

(** [selected.values().filter_map(|policy| policy.limit).min()]. *)
(* [policy/lib.rs:578-578]! PolicyBundle::compile_select *)
Definition least_limit (selected : Selected) : option Z :=
  fold_right (fun '(_, policy) least =>
    match sp_limit policy, least with
    | Some limit, Some least => Some (Z.min limit least)
    | Some limit, None => Some limit
    | None, least => least
    end) None (map_to_list selected).

(** The select that [compile_select] protects, once its policies are selected. *)
(* [policy/lib.rs:476-579]! PolicyBundle::compile_select *)
Definition protect_select (selected : Selected) (session : TrustedSession)
    (select : BoundSelect) : Compile BoundSelect :=
  projections ← apply_projection_permissions (bs_projections select) selected session;
  let protected := with_projections select projections in
  _ ← checked (check_select selected protected);
  predicate ← traverse_option (protect_nested_selects selected session) (bs_predicate protected);
  root ← checked (ok_or (selected !! bs_resource protected) PolicyError.MissingPolicy);
  root_filter ← instantiate_predicate session (sp_filter root);
  filtered ← filter_joins selected session (Some (and_optional predicate root_filter))
               (bs_joins protected);
  let protected := with_joins (with_predicate protected (fst filtered)) (snd filtered) in
  mret (apply_policy_limit protected (least_limit selected)).

(* [policy/lib.rs:607-648] PolicyBundle::compile_json_collection_select *)
Definition compile_json_collection_select (b : PolicyBundle)
    (select : BoundJsonCollectionSelect) (original : BoundStatement) (session : TrustedSession)
    : policy_result CompileOutput :=
  policy ← ok_or (policy_of (pb_select b) (bjc_resource select) (session_role session))
             PolicyError.MissingPolicy;
  if negb (sp_allow_aggregations policy)
     || negb (bool_decide (bc_id (bjc_document select) ∈ sp_regular_columns policy))
  then throw PolicyError.UnsupportedCapability
  else
    _ ← if_some (validate_client_expression (sp_regular_columns policy)) (bjc_predicate select);
    filter ← run_compile (instantiate_predicate session (sp_filter policy));
    let '(filter, server_values) := filter in
    let protected :=
      {| bjc_resource := bjc_resource select; bjc_alias := bjc_alias select;
         bjc_document := bjc_document select; bjc_path := bjc_path select;
         bjc_recursive := bjc_recursive select; bjc_output_name := bjc_output_name select;
         bjc_predicate := Some (and_optional (bjc_predicate select) filter) |} in
    mret
      {| co_plan :=
           {| pp_statement := BoundStatement.JsonCollectionSelect protected;
              pp_applied_policies := [sp_id policy]; pp_server_values := server_values;
              pp_policy_limit := None; pp_operation_check := None;
              pp_expected_affected_rows := None; pp_expected_result_rows := Some 1;
              pp_string_literals := string_literal_witnesses b |};
         co_explain :=
           {| ex_operation := OperationKind.Select; ex_resource := Some (bjc_resource select);
              ex_resources := [bjc_resource select];
              ex_referenced_columns := referenced_columns original;
              ex_applied_policies := [sp_id policy]; ex_policy_limit := None |} |}.

(* [policy/lib.rs:436-605] PolicyBundle::compile_select *)
Definition compile_select (b : PolicyBundle) (statement : BoundStatement)
    (session : TrustedSession) : policy_result CompileOutput :=
  match statement with
  | BoundStatement.ConstantSelect select => mret (compile_constant_select b select)
  | BoundStatement.JsonCollectionSelect select =>
      compile_json_collection_select b select statement session
  | BoundStatement.Select select =>
      selection ← select_policies b select (session_role session);
      let '(resource_ids, selected) := selection in
      protected ← run_compile (protect_select selected session select);
      let '(protected, server_values) := protected in
      let policy_limit := least_limit selected in
      let applied_policies :=
        omap (fun resource => sp_id <$> selected !! resource) resource_ids in
      mret
        {| co_plan :=
             {| pp_statement := BoundStatement.Select protected;
                pp_applied_policies := applied_policies; pp_server_values := server_values;
                pp_policy_limit := policy_limit; pp_operation_check := None;
                pp_expected_affected_rows := None; pp_expected_result_rows := None;
                pp_string_literals := string_literal_witnesses b |};
           co_explain :=
             {| ex_operation := OperationKind.Select; ex_resource := Some (bs_resource select);
                ex_resources := resource_ids;
                ex_referenced_columns := referenced_columns statement;
                ex_applied_policies := applied_policies; ex_policy_limit := policy_limit |} |}
  | _ => throw PolicyError.UnsupportedCapability
  end.

(** ** Mutations *)

(** A caller may not assign a preset column, nor one outside its columns. *)
(* [policy/lib.rs:672-678]! PolicyBundle::compile_insert *)
Definition check_assignment (columns : gset ColumnId) (presets : Presets)
    (assignment : BoundAssignment) : policy_result unit :=
  let id := bc_id (ba_column assignment) in
  require (bool_decide (id ∈ columns) && negb (existsb (fun '(c, _) => bool_decide (c = id)) presets))
    PolicyError.ForbiddenColumn.

(** The presets in the order of their columns, as assignments. *)
(* [policy/lib.rs:679-693]! PolicyBundle::compile_insert *)
Definition preset_assignments (session : TrustedSession) (presets : Presets)
    : Compile (list BoundAssignment) :=
  traverse (fun '(column_id, (logical_type, operand)) =>
    value ← instantiate_operand operand logical_type session;
    mret {| ba_column :=
              {| bc_id := column_id; bc_logical_type := logical_type;
                 bc_usage := ColumnUsage.Write |};
            ba_value := value |}) presets.

(** [u64::try_from(rows.len())]. *)
(* [policy/lib.rs:696-697]! PolicyBundle::compile_insert *)
Definition row_count {A} (rows : list A) : policy_result Z :=
  let n := Z.of_nat (length rows) in
  if (n <=? U64_MAX)%Z then mret n
  else throw (PolicyError.InvariantViolation "too many INSERT rows").

(** The plan and explanation of a mutation of one resource under one policy. *)
(* [policy/lib.rs:698-717]! PolicyBundle::compile_insert *)
Definition mutation_output (b : PolicyBundle) (operation : OperationKind.operation_kind)
    (resource policy_id : Z) (original protected : BoundStatement)
    (server_values : ServerValues) (check : option BoundExpr) (affected : option Z)
    : CompileOutput :=
  {| co_plan :=
       {| pp_statement := protected; pp_applied_policies := [policy_id];
          pp_server_values := server_values; pp_policy_limit := None;
          pp_operation_check := check; pp_expected_affected_rows := affected;
          pp_expected_result_rows := None;
          pp_string_literals := string_literal_witnesses b |};
     co_explain :=
       {| ex_operation := operation; ex_resource := Some resource; ex_resources := [resource];
          ex_referenced_columns := referenced_columns original;
          ex_applied_policies := [policy_id]; ex_policy_limit := None |} |}.

(* [policy/lib.rs:650-718] PolicyBundle::compile_insert *)
Definition compile_insert (b : PolicyBundle) (statement : BoundStatement)
    (session : TrustedSession) : policy_result CompileOutput :=
  match statement with
  | BoundStatement.Insert insert =>
      policy ← ok_or (policy_of (pb_insert b) (bi_resource insert) (session_role session))
                 PolicyError.MissingPolicy;
      _ ← validate_returning (bi_returning insert) (ip_returning policy);
      compiled ← run_compile (
        rows ← traverse (fun row =>
          _ ← checked (for_each (check_assignment (ip_columns policy) (ip_presets policy)) row);
          presets ← preset_assignments session (ip_presets policy);
          mret (row ++ presets)) (bi_rows insert);
        check ← instantiate_predicate session (ip_check policy);
        mret (rows, check));
      let '(rows, check, server_values) := compiled in
      expected ← row_count rows;
      mret (mutation_output b OperationKind.Insert (bi_resource insert) (ip_id policy) statement
              (BoundStatement.Insert
                 {| bi_resource := bi_resource insert; bi_rows := rows;
                    bi_returning := bi_returning insert |})
              server_values (Some check) (Some expected))
  | _ => throw PolicyError.UnsupportedCapability
  end.

(* [policy/lib.rs:720-781] PolicyBundle::compile_update *)
Definition compile_update (b : PolicyBundle) (statement : BoundStatement)
    (session : TrustedSession) : policy_result CompileOutput :=
  match statement with
  | BoundStatement.Update update =>
      policy ← ok_or (policy_of (pb_update b) (bu_resource update) (session_role session))
                 PolicyError.MissingPolicy;
      _ ← validate_returning (bu_returning update) (up_returning policy);
      _ ← for_each (check_assignment (up_columns policy) (up_presets policy))
            (bu_assignments update);
      compiled ← run_compile (
        presets ← preset_assignments session (up_presets policy);
        filter ← instantiate_predicate session (up_filter policy);
        check ← instantiate_predicate session (up_check policy);
        mret (presets, filter, check));
      let '(presets, filter, check, server_values) := compiled in
      mret (mutation_output b OperationKind.Update (bu_resource update) (up_id policy) statement
              (BoundStatement.Update
                 {| bu_resource := bu_resource update;
                    bu_assignments := bu_assignments update ++ presets;
                    bu_predicate := Some (and_optional (bu_predicate update) filter);
                    bu_returning := bu_returning update |})
              server_values (Some check) None)
  | _ => throw PolicyError.UnsupportedCapability
  end.

(* [policy/lib.rs:783-826] PolicyBundle::compile_delete *)
Definition compile_delete (b : PolicyBundle) (statement : BoundStatement)
    (session : TrustedSession) : policy_result CompileOutput :=
  match statement with
  | BoundStatement.Delete delete =>
      policy ← ok_or (policy_of (pb_delete b) (bd_resource delete) (session_role session))
                 PolicyError.MissingPolicy;
      _ ← validate_returning (bd_returning delete) (dp_returning policy);
      compiled ← run_compile (instantiate_predicate session (dp_filter policy));
      let '(filter, server_values) := compiled in
      mret (mutation_output b OperationKind.Delete (bd_resource delete) (dp_id policy) statement
              (BoundStatement.Delete
                 {| bd_resource := bd_resource delete;
                    bd_predicate := Some (and_optional (bd_predicate delete) filter);
                    bd_returning := bd_returning delete |})
              server_values None None)
  | _ => throw PolicyError.UnsupportedCapability
  end.
