(* ===== verification/Plan.v ===== *)
(** * Execution plans

    The crate [policysql-execution] (lib.rs): what is sealed for execution. A candidate is built
    step by step; a verifier of its backend profile seals it. *)

From S2P Require Import Prelude Result F64 Utf8 Core Catalog Ir.

(* [execution/lib.rs:11-18] ExecutionLimits *)
Record ExecutionLimits := {
  el_max_rows : Z;
  el_max_result_bytes : Z;
  el_timeout_ms : Z;
  el_max_bytes_per_value : Z
}.

(* [execution/lib.rs:20-39] ComplexityCause *)
Module ComplexityCause.
Inductive complexity_cause :=
| Height | Recursion | Columns | Parameters | LikePattern | ColumnMetadata
| DatabaseExpressionDepth.

(* [execution/lib.rs:42-54] ComplexityCause::name *)
Definition name (c : complexity_cause) : string :=
  match c with
  | Height => "height"
  | Recursion => "recursion"
  | Columns => "columns"
  | Parameters => "parameters"
  | LikePattern => "like_pattern"
  | ColumnMetadata => "column_metadata"
  | DatabaseExpressionDepth => "database_expression_depth"
  end.
End ComplexityCause.

(** A column of the result; a conditional column comes with a boolean companion that says
    whether it is visible. *)
(* [execution/lib.rs:57-68] ResultColumnDescriptor *)
Record ResultColumnDescriptor := {
  rc_name : string;
  rc_value : ValueDescriptor;
  rc_possible_types : list LogicalType;
  rc_redacted_on_null : bool;
  rc_visibility_column : option string
}.
#[export] Instance result_column_descriptor_eq_dec : EqDecision ResultColumnDescriptor.
Proof. solve_decision. Defined.

(** The profile of a plan is a type without values in the source. *)
(* [execution/lib.rs:70-85] CandidateExecutionPlan *)
Record CandidateExecutionPlan := {
  plan_protected_sql : string;
  plan_client_parameters : gmap string LogicalValue;
  plan_server_parameters : gmap string LogicalValue;
  plan_result : list ResultColumnDescriptor;
  plan_operation : OperationKind.operation_kind;
  plan_limits : ExecutionLimits;
  plan_snapshot : string;
  plan_profile_id : string;
  plan_expected_affected_rows : option Z;
  plan_expected_result_rows : option Z;
  plan_operation_check_column : option string;
  plan_column_metadata_bytes : Z
}.

(* [execution/lib.rs:88-111] CandidateExecutionPlan::new *)
Definition candidate_new (protected_sql : string) (operation : OperationKind.operation_kind)
    (limits : ExecutionLimits) (snapshot profile_id : string) : CandidateExecutionPlan :=
  {| plan_protected_sql := protected_sql; plan_client_parameters := ∅;
     plan_server_parameters := ∅; plan_result := []; plan_operation := operation;
     plan_limits := limits; plan_snapshot := snapshot; plan_profile_id := profile_id;
     plan_expected_affected_rows := None; plan_expected_result_rows := None;
     plan_operation_check_column := None; plan_column_metadata_bytes := 0 |}.

Section builders.
Context (p : CandidateExecutionPlan).

(* [execution/lib.rs:118-123] CandidateExecutionPlan::with_column_metadata_bytes *)
Definition with_column_metadata_bytes (bytes : Z) : CandidateExecutionPlan :=
  {| plan_protected_sql := plan_protected_sql p;
     plan_client_parameters := plan_client_parameters p;
     plan_server_parameters := plan_server_parameters p; plan_result := plan_result p;
     plan_operation := plan_operation p; plan_limits := plan_limits p;
     plan_snapshot := plan_snapshot p; plan_profile_id := plan_profile_id p;
     plan_expected_affected_rows := plan_expected_affected_rows p;
     plan_expected_result_rows := plan_expected_result_rows p;
     plan_operation_check_column := plan_operation_check_column p;
     plan_column_metadata_bytes := bytes |}.

(* [execution/lib.rs:130-141] CandidateExecutionPlan::with_bindings *)
Definition with_bindings (client_parameters server_parameters : gmap string LogicalValue)
    (result : list ResultColumnDescriptor) : CandidateExecutionPlan :=
  {| plan_protected_sql := plan_protected_sql p; plan_client_parameters := client_parameters;
     plan_server_parameters := server_parameters; plan_result := result;
     plan_operation := plan_operation p; plan_limits := plan_limits p;
     plan_snapshot := plan_snapshot p; plan_profile_id := plan_profile_id p;
     plan_expected_affected_rows := plan_expected_affected_rows p;
     plan_expected_result_rows := plan_expected_result_rows p;
     plan_operation_check_column := plan_operation_check_column p;
     plan_column_metadata_bytes := plan_column_metadata_bytes p |}.

(** The three expectations a plan may carry. *)
Definition with_expectations (affected result : option Z) (check : option string)
    : CandidateExecutionPlan :=
  {| plan_protected_sql := plan_protected_sql p;
     plan_client_parameters := plan_client_parameters p;
     plan_server_parameters := plan_server_parameters p; plan_result := plan_result p;
     plan_operation := plan_operation p; plan_limits := plan_limits p;
     plan_snapshot := plan_snapshot p; plan_profile_id := plan_profile_id p;
     plan_expected_affected_rows := affected; plan_expected_result_rows := result;
     plan_operation_check_column := check;
     plan_column_metadata_bytes := plan_column_metadata_bytes p |}.

(* [execution/lib.rs:143-152] CandidateExecutionPlan::with_mutation_invariants *)
Definition with_mutation_invariants (expected_affected_rows : Z) (operation_check_column : string)
    : CandidateExecutionPlan :=
  with_expectations (Some expected_affected_rows) (plan_expected_result_rows p)
    (Some operation_check_column).

(* [execution/lib.rs:154-158] CandidateExecutionPlan::with_operation_check *)
Definition with_operation_check (operation_check_column : string) : CandidateExecutionPlan :=
  with_expectations (plan_expected_affected_rows p) (plan_expected_result_rows p)
    (Some operation_check_column).

(* [execution/lib.rs:160-164] CandidateExecutionPlan::with_expected_affected_rows *)
Definition with_expected_affected_rows (expected_affected_rows : Z) : CandidateExecutionPlan :=
  with_expectations (Some expected_affected_rows) (plan_expected_result_rows p)
    (plan_operation_check_column p).

(* [execution/lib.rs:166-170] CandidateExecutionPlan::with_expected_result_rows *)
Definition with_expected_result_rows (expected_result_rows : Z) : CandidateExecutionPlan :=
  with_expectations (plan_expected_affected_rows p) (Some expected_result_rows)
    (plan_operation_check_column p).
End builders.

(** ** Sealing *)

Module VerificationError.
(* [execution/lib.rs:330-335] VerificationError *)
Inductive verification_error :=
| EmptyProtectedSql
| ProfileMismatch
| InvariantViolation (message : string).
End VerificationError.

(** The trait [PlanVerifier]. *)
(* [execution/lib.rs:218-227] PlanVerifier *)
Record PlanVerifier := {
  verifier_verify : CandidateExecutionPlan -> result VerificationError.verification_error unit;
  verifier_profile_id : string
}.

(** A [VerifiedExecutionPlan] is the candidate it seals; only [verify] makes one. *)
Record VerifiedExecutionPlan := { sealed : CandidateExecutionPlan }.

(* [execution/lib.rs:242-259] VerifiedExecutionPlan::verify *)
Definition verify (candidate : CandidateExecutionPlan) (verifier : PlanVerifier)
    : result VerificationError.verification_error VerifiedExecutionPlan :=
  if negb (non_empty (plan_protected_sql candidate))
  then throw VerificationError.EmptyProtectedSql
  else if negb (String.eqb (plan_profile_id candidate) (verifier_profile_id verifier))
  then throw VerificationError.ProfileMismatch
  else
    _ ← verifier_verify verifier candidate;
    mret {| sealed := candidate |}.

(** ** The errors of the lowering *)

Module EmitError.
(* [sqlite/lib.rs:2105-2120] EmitError *)
Inductive emit_error :=
| UnsupportedStatement
| UnknownResource
| UnknownColumn
| MissingServerParameter (name : string)
| LiteralRequiresParameter
| UnsupportedValue
| TooManyLiterals
| Formatting
| InvariantViolation (message : string)
| TooComplex (cause : ComplexityCause.complexity_cause)
| ReparseFailed.
End EmitError.

Module CompileError.
(* [sqlite/lib.rs:2156-2162] CompileError *)
Inductive compile_error :=
| Emit (e : EmitError.emit_error)
| ClientParameterMismatch
| ClientParameterTypeMismatch
| Verification (e : VerificationError.verification_error).
End CompileError.

(** ** The parameters of the client

    The pass over a bound statement that finds its client parameters, what the compiler proves of
    each, and the check of the values a request supplies (crate [policysql-sqlite],
    parameter_contracts.rs). *)

(* [sqlite/parameter_contracts.rs:32-38] ClientParameterContract *)
Record ClientParameterContract := {
  cpc_logical_type : LogicalType;
  cpc_nullable : bool;
  cpc_columns : list BoundColumn
}.

(* [sqlite/parameter_contracts.rs:67-72] ClientParameterAnalysis *)
Record ClientParameterAnalysis := {
  cpa_parameters : gmap string ClientParameterContract;
  cpa_type_conflict : bool
}.

(* [sqlite/parameter_contracts.rs:75-79] ClientParameterAnalysis::names *)
Definition names (a : ClientParameterAnalysis) : gset string := dom (cpa_parameters a).

(** [ClientParameterTypeConflict] has no fields. *)
(* [sqlite/parameter_contracts.rs:81-95] ClientParameterAnalysis::contracts *)
Definition contracts (a : ClientParameterAnalysis)
    : result unit (gmap string ClientParameterContract) :=
  if cpa_type_conflict a then throw () else mret (cpa_parameters a).

(** Where an occurrence of a parameter sits relative to a column of the catalog. *)
(* [sqlite/parameter_contracts.rs:190-199] Position *)
Module Position.
Inductive position :=
| Assignment (column : BoundColumn)
| Compared (column : BoundColumn)
| Other.
End Position.
Abbreviation Position := Position.position.

(* [sqlite/parameter_contracts.rs:180-188] column_descriptor *)
Definition column_descriptor (catalog : Catalog) (column : BoundColumn) : option ValueDescriptor :=
  resource ← resource_by_id catalog (column_resource (bc_id column));
  column ← column_by_id resource (bc_id column);
  Some (cd_value column).

(** ** The pass *)

Section visitor.
Context (catalog : Catalog).

(** The column an occurrence is next to, and whether it proves that NULL is safe. *)
(* [sqlite/parameter_contracts.rs:419-426]! Visitor::parameter *)
Definition position_column (p : Position) : option BoundColumn * bool :=
  match p with
  | Position.Assignment column =>
      (Some column, opt_existsb vd_nullable (column_descriptor catalog column))
  | Position.Compared column => (Some column, false)
  | Position.Other => (None, false)
  end.

(* [sqlite/parameter_contracts.rs:413-445] Visitor::parameter *)
Definition parameter (name : string) (logical_type : LogicalType) (p : Position)
    (a : ClientParameterAnalysis) : ClientParameterAnalysis :=
  let '(column, nullable) := position_column p in
  let contract :=
    default {| cpc_logical_type := logical_type; cpc_nullable := nullable; cpc_columns := [] |}
      (cpa_parameters a !! name) in
  let columns :=
    match column with
    | Some column =>
        if existsb (fun known => bool_decide (bc_id known = bc_id column)) (cpc_columns contract)
        then cpc_columns contract else (cpc_columns contract ++ [column])%list
    | None => cpc_columns contract
    end in
  {| cpa_parameters :=
       <[name := {| cpc_logical_type := cpc_logical_type contract;
                    cpc_nullable := cpc_nullable contract && nullable;
                    cpc_columns := columns |}]> (cpa_parameters a);
     cpa_type_conflict :=
       cpa_type_conflict a || negb (bool_decide (cpc_logical_type contract = logical_type)) |}.

(** [direct_column().map_or(Position::Other, Position::Compared)]. *)
(* [sqlite/parameter_contracts.rs:324-336]! Visitor::compared *)
Definition compared_with (e : BoundExpr) : Position :=
  match direct_column e with Some column => Position.Compared column | None => Position.Other end.

(** The passes over lists of expressions and over a whole select, for the pass over one. *)
(* [sqlite/parameter_contracts.rs:258-286] Visitor::select *)
Definition visit_select {S} (expr : BoundExpr -> S -> S) (select : BoundSelect) (state : S) : S :=
  add_option expr (bs_offset select)
    (add_option expr (bs_limit select)
      (add_all (fun order => expr (bo_expression order)) (bs_order_by select)
        (add_option expr (bs_having select)
          (add_option expr (bs_predicate select)
            (add_all (fun join => expr (bj_on join)) (bs_joins select)
              (add_all (fun projection => expr (bp_expression projection))
                (bs_projections select) state)))))).

(* [sqlite/parameter_contracts.rs:338-411] Visitor::expr_at *)
Fixpoint expr_at (expression : BoundExpr) (p : Position) (a : ClientParameterAnalysis)
    : ClientParameterAnalysis :=
  let expr e := expr_at e Position.Other in
  match expression with
  | BoundExpr.ClientParameter name logical_type => parameter name logical_type p a
  | BoundExpr.Equal lhs rhs | BoundExpr.NotEqual lhs rhs | BoundExpr.Less lhs rhs
  | BoundExpr.LessEqual lhs rhs | BoundExpr.Greater lhs rhs | BoundExpr.GreaterEqual lhs rhs
  | BoundExpr.Like lhs rhs | BoundExpr.Glob lhs rhs | BoundExpr.Least lhs rhs
  | BoundExpr.Concat lhs rhs =>
      expr_at rhs (compared_with lhs) (expr_at lhs (compared_with rhs) a)
  | BoundExpr.And lhs rhs | BoundExpr.Or lhs rhs | BoundExpr.ConditionalOutput lhs rhs =>
      expr rhs (expr lhs a)
  | BoundExpr.Not inner | BoundExpr.IsNull inner | BoundExpr.CastText inner => expr inner a
  | BoundExpr.In expression values _ =>
      add_all (fun value => expr_at value (compared_with expression)) values (expr expression a)
  | BoundExpr.ScalarFunction _ arguments _ => add_all expr arguments a
  | BoundExpr.Exists select => visit_select expr select a
  | BoundExpr.Case branches else_expression _ =>
      add_option expr else_expression
        (add_all (fun '(condition, value) a => expr value (expr condition a)) branches a)
  | BoundExpr.RowNumber _ _ order_by =>
      add_all (fun order => expr (bo_expression order)) order_by a
  | BoundExpr.Column _ | BoundExpr.ServerParameter _ _ | BoundExpr.Literal _
  | BoundExpr.CountAll _ => a
  end.

(* [sqlite/parameter_contracts.rs:319-321] Visitor::expr *)
Definition expr (e : BoundExpr) : ClientParameterAnalysis -> ClientParameterAnalysis :=
  expr_at e Position.Other.

(* [sqlite/parameter_contracts.rs:288-291] Visitor::assignment *)
Definition assignment (b : BoundAssignment) : ClientParameterAnalysis -> ClientParameterAnalysis :=
  expr_at (ba_value b) (Position.Assignment (ba_column b)).

(* [sqlite/parameter_contracts.rs:293-301] Visitor::projections *)
Definition projections (ps : list BoundProjection)
    : ClientParameterAnalysis -> ClientParameterAnalysis :=
  add_all (fun p => expr (bp_expression p)) ps.

(* [sqlite/parameter_contracts.rs:207-256] Visitor::statement *)
Definition visit_statement (statement : BoundStatement) (a : ClientParameterAnalysis)
    : ClientParameterAnalysis :=
  match statement with
  | BoundStatement.Select select => visit_select expr select a
  | BoundStatement.ConstantSelect select => projections (bcs_projections select) a
  | BoundStatement.JsonCollectionSelect select =>
      add_option expr (bjc_predicate select) (expr (bjc_path select) a)
  | BoundStatement.Insert insert =>
      projections (bi_returning insert) (add_all assignment (concat (bi_rows insert)) a)
  | BoundStatement.Update update =>
      projections (bu_returning update)
        (add_option expr (bu_predicate update) (add_all assignment (bu_assignments update) a))
  | BoundStatement.Delete delete =>
      projections (bd_returning delete) (add_option expr (bd_predicate delete) a)
  end.
End visitor.

(* [sqlite/parameter_contracts.rs:98-117] analyze_client_parameters *)
Definition analyze_client_parameters (statement : BoundStatement) (catalog : Catalog)
    : ClientParameterAnalysis :=
  visit_statement catalog statement {| cpa_parameters := ∅; cpa_type_conflict := false |}.

(** ** The values of a request *)

(* [sqlite/parameter_contracts.rs:158-178] logical_value_matches *)
Definition logical_value_matches (value : LogicalValue) (expected : LogicalType)
    (max_bytes_per_value : Z) : bool :=
  match value, expected with
  | LogicalValue.String _, (LogicalType.String | LogicalType.Date | LogicalType.DateTime
                            | LogicalType.Instant)
  | LogicalValue.Boolean _, LogicalType.Boolean
  | LogicalValue.Int64 _, LogicalType.Int64
  | LogicalValue.Number _, LogicalType.Number
  | LogicalValue.Json _, LogicalType.Json => true
  | LogicalValue.Bytes value, LogicalType.Bytes =>
      (Z.of_nat (length value) <=? max_bytes_per_value)%Z
  | LogicalValue.Int64 value, LogicalType.Integer =>
      in_range (-9007199254740991) 9007199254740991 value
  | _, _ => false
  end.

Section validation.
Context `{Regex}.

(* [sqlite/parameter_contracts.rs:138-154]! validate_client_parameters *)
Definition check_value (catalog : Catalog) (values : gmap string LogicalValue)
    (max_bytes_per_value : Z) (entry : string * ClientParameterContract)
    : result CompileError.compile_error unit :=
  let '(name, contract) := entry in
  value ← ok_or (values !! name) CompileError.ClientParameterMismatch;
  let proven_null := bool_decide (value = LogicalValue.Null) && cpc_nullable contract in
  if negb proven_null
     && negb (logical_value_matches value (cpc_logical_type contract) max_bytes_per_value)
  then throw CompileError.ClientParameterTypeMismatch
  else
    for_each (fun column =>
      descriptor ← ok_or (column_descriptor catalog column)
                     CompileError.ClientParameterTypeMismatch;
      require (value_satisfies_contract value descriptor max_bytes_per_value)
        CompileError.ClientParameterTypeMismatch) (cpc_columns contract).

(** The parameters are checked in the order of their names there; every error of the loop is
    the same. *)
(* [sqlite/parameter_contracts.rs:119-156] validate_client_parameters *)
Definition validate_client_parameters (analysis : ClientParameterAnalysis) (catalog : Catalog)
    (values : gmap string LogicalValue) (max_bytes_per_value : Z)
    : result CompileError.compile_error unit :=
  if negb (bool_decide (names analysis = dom values))
  then throw CompileError.ClientParameterMismatch
  else
    contracts ← map_err (contracts analysis) CompileError.ClientParameterTypeMismatch;
    for_each (check_value catalog values max_bytes_per_value) (map_to_list contracts).
End validation.
