(* ===== verification/Turso.v ===== *)
(** * Results of the database

    The crate [policysql-turso] (lib.rs): what an untrusted result must be to answer a sealed
    plan. A text is sliced by byte positions, which stops the program at a position inside a
    character: a computation here may panic as well as return an error. The result is updated in
    place; its callers drop it when an error is returned. *)

From S2P Require Import Prelude Result F64 Utf8 Core Plan.

(* [turso/lib.rs:8-14] ExecuteResult *)
Record ExecuteResult := {
  er_columns : list string;
  er_rows : list (list LogicalValue);
  er_redactions : list (list bool);
  er_affected_rows : Z
}.

Module AdapterError.
(* [turso/lib.rs:535-546] AdapterError *)
Inductive adapter_error :=
| NotConfigured | Timeout | LimitExceeded | ExpectationFailed | InvalidResult | Conflict
| TransactionRequired | Rejected (message : string) | Remote.
End AdapterError.
Abbreviation AdapterError := AdapterError.adapter_error.

(** A computation stops with an error, or panics. *)
Inductive Stop := Panicked | Failed (e : AdapterError).
Definition fail {A} (e : AdapterError) : result Stop A := throw (Failed e).
(** The value of a computation that may only panic. *)
Definition or_panic {A} (o : option A) : result Stop A := ok_or o Panicked.

(** ** Formats *)

(** The lazy [&&] of conditions that may panic. *)
Definition and_also (a b : option bool) : option bool :=
  a ≫= fun a : bool => if a then b else Some false.

(* [turso/lib.rs:408-417] valid_uuid *)
Definition valid_uuid (value : string) : bool := (len value =? 36)%Z && uuid_bytes 0 value.

(** [u8::is_ascii_whitespace] or [u8::is_ascii_control]. *)
Definition blank_or_control (c : ascii) : bool := (byte_of c <=? 32)%Z || (byte_of c =? 127)%Z.

Definition is_dot (c : ascii) : bool := (byte_of c =? 46)%Z.

(* [turso/lib.rs:424-437] valid_email *)
Definition valid_email (value : string) : bool :=
  match split_at value with
  | None => false
  | Some (local, domain) =>
      negb (String.eqb local "") && (len local <=? 64)%Z && (len domain <=? 253)%Z
      && negb (byte_is domain 0 46) && negb (byte_is domain (String.length domain - 1) 46)
      && negb (str_forallb (fun c => negb (is_dot c)) domain)
      && str_forallb (fun c => negb (blank_or_control c)) value
  end.

(** [value.get(a..b).and_then(|value| value.parse::<u32>().ok())]. *)
(* [turso/lib.rs:446-450]! valid_date *)
Definition part_at (value : string) (a b : nat) : option Z := number_at U32_MAX value a b.

(* [turso/lib.rs:439-463] valid_date *)
Definition valid_date (value : string) : bool :=
  if negb (len value =? 10)%Z || negb (byte_is value 4 45) || negb (byte_is value 7 45)
  then false
  else
    match part_at value 0 4, part_at value 5 7, part_at value 8 10 with
    | Some year, Some month, Some day =>
        let leap := (year mod 4 =? 0)%Z && (negb (year mod 100 =? 0)%Z || (year mod 400 =? 0)%Z) in
        let days :=
          if existsb (Z.eqb month) [1; 3; 5; 7; 8; 10; 12] then Some 31
          else if existsb (Z.eqb month) [4; 6; 9; 11] then Some 30
          else if (month =? 2)%Z then Some (if leap then 29 else 28)
          else None in
        opt_existsb (fun days => in_range 1 days day) days
    | _, _, _ => false
    end.

(** [text[a..b].parse::<u32>().is_ok_and(|n| n < bound)]. *)
(* [turso/lib.rs:476-478]! valid_datetime *)
Definition part_below (bound : Z) (text : string) (a b : nat) : option bool :=
  part ← slice text a b;
  Some (opt_existsb (fun n => n <? bound)%Z (parse_unsigned U32_MAX part)).

(* [turso/lib.rs:476-478]! valid_datetime *)
Definition valid_time (time : string) : option bool :=
  and_also (part_below 24 time 0 2) (and_also (part_below 60 time 3 5) (part_below 60 time 6 8)).

(** [None] when the fraction has no digit. *)
(* [turso/lib.rs:482-489]! valid_datetime *)
Definition without_fraction (suffix : string) : option string :=
  if starts_with "." suffix then
    let digits := take_while is_digit (str_drop 1 suffix) in
    if String.eqb digits "" then None else Some (str_drop (String.length digits + 1) suffix)
  else Some suffix.

(* [turso/lib.rs:493-500]! valid_datetime *)
Definition valid_offset (suffix : string) : option bool :=
  if String.eqb suffix "Z" || String.eqb suffix "z" then Some true
  else if negb ((len suffix =? 6)%Z && (byte_is suffix 0 43 || byte_is suffix 0 45)
                && byte_is suffix 3 58) then Some false
  else and_also (part_below 24 suffix 1 3) (part_below 60 suffix 4 6).

(* [turso/lib.rs:465-501] valid_datetime *)
Definition valid_datetime (value : string) (require_offset : bool) : option bool :=
  if (len value <? 19)%Z then Some false
  else
    date ← slice value 0 10;
    if negb (valid_date date) || negb (byte_is value 10 84 || byte_is value 10 32)
    then Some false
    else
      time ← slice value 11 19;
      if negb (byte_is time 2 58) || negb (byte_is time 5 58) then Some false
      else
        valid ← valid_time time;
        if negb valid then Some false
        else
          suffix ← slice value 19 (String.length value);
          match without_fraction suffix with
          | None => Some false
          | Some suffix =>
              if negb require_offset then Some (String.eqb suffix "") else valid_offset suffix
          end.

(* [turso/lib.rs:326-341] validate_format *)
Definition validate_format (value : LogicalValue) (descriptor : ValueDescriptor)
    : result Stop unit :=
  valid ← or_panic
    match vd_format descriptor, value with
    | None, _ => Some true
    | Some f, _ =>
        if str_in f ["int64"; "base64"] then Some true
        else
          match value with
          | LogicalValue.String value =>
              if String.eqb f "uuid" then Some (valid_uuid value)
              else if String.eqb f "email" then Some (valid_email value)
              else if String.eqb f "iso-date" then Some (valid_date value)
              else if String.eqb f "sqlite-datetime" then valid_datetime value false
              else if String.eqb f "rfc3339" then valid_datetime value true
              else Some false
          | _ => Some false
          end
    end;
  require valid (Failed AdapterError.InvalidResult).

(** ** Values *)

(* [turso/lib.rs:394-406] constraint_equal *)
Definition constraint_equal (value : LogicalValue) (allowed : ConstraintScalar.constraint_scalar)
    : bool :=
  match value, allowed with
  | LogicalValue.String value, ConstraintScalar.String allowed => String.eqb value allowed
  | LogicalValue.Boolean value, ConstraintScalar.Boolean allowed => Bool.eqb value allowed
  | LogicalValue.Int64 value, ConstraintScalar.Number allowed =>
      bool_decide (parse_i64 allowed = Some value)
  | LogicalValue.Number value, ConstraintScalar.Number allowed =>
      opt_existsb (fun x => F64.eqb x value) (parse_f64 allowed)
  | _, _ => false
  end.

(* [turso/lib.rs:299-315]! validate_value *)
Definition type_matches (value : LogicalValue) (logical_type : LogicalType) : bool :=
  match value, logical_type with
  | LogicalValue.String _, (LogicalType.String | LogicalType.Date | LogicalType.DateTime
                            | LogicalType.Instant)
  | LogicalValue.Boolean _, LogicalType.Boolean
  | LogicalValue.Int64 _, (LogicalType.Integer | LogicalType.Int64)
  | LogicalValue.Bytes _, LogicalType.Bytes
  | LogicalValue.Json _, LogicalType.Json => true
  | LogicalValue.Number value, LogicalType.Number => F64.is_finite value
  | _, _ => false
  end.

(** An integer that JavaScript numbers do not represent exactly. *)
(* [turso/lib.rs:316-318]! validate_value *)
Definition unsafe_integer (value : LogicalValue) (descriptor : ValueDescriptor) : bool :=
  match value with
  | LogicalValue.Int64 n =>
      bool_decide (vd_logical_type descriptor = LogicalType.Integer)
      && (9007199254740991 <? Z.abs n)%Z
  | _ => false
  end.

Section values.
Context `{Regex}.

(* [turso/lib.rs:343-392] validate_constraints *)
Definition validate_constraints (value : LogicalValue) (descriptor : ValueDescriptor)
    : result Stop unit :=
  match vd_constraints descriptor with
  | None => mret ()
  | Some constraints =>
      if negb (bool_decide (allowed constraints = []))
         && negb (existsb (constraint_equal value) (allowed constraints))
      then fail AdapterError.InvalidResult
      else if bound_broken F64.ltb value (minimum constraints)
              || bound_broken (fun value bound => F64.ltb bound value) value (maximum constraints)
      then fail AdapterError.InvalidResult
      else
        match value with
        | LogicalValue.String value =>
            require (text_accepted constraints value) (Failed AdapterError.InvalidResult)
        | _ => mret ()
        end
  end.

(* [turso/lib.rs:283-324] validate_value *)
Definition validate_value (value : LogicalValue) (descriptor : ValueDescriptor)
    (possible_types : list LogicalType) (max_bytes_per_value : Z) : result Stop unit :=
  let too_long :=
    match value with
    | LogicalValue.Bytes bytes => (max_bytes_per_value <? Z.of_nat (length bytes))%Z
    | _ => false
    end in
  if too_long then fail AdapterError.LimitExceeded
  else if bool_decide (value = LogicalValue.Null)
  then require (vd_nullable descriptor) (Failed AdapterError.InvalidResult)
  else if negb (existsb (type_matches value) possible_types) || unsafe_integer value descriptor
  then fail AdapterError.InvalidResult
  else
    _ ← validate_format value descriptor;
    validate_constraints value descriptor.

(* [turso/lib.rs:503-513] value_size *)
Definition value_size (value : LogicalValue) : Z :=
  match value with
  | LogicalValue.Null => 0
  | LogicalValue.String value | LogicalValue.Json value => len value
  | LogicalValue.Boolean _ => 1
  | LogicalValue.Int64 _ | LogicalValue.Number _ => 8
  | LogicalValue.Bytes value => Z.of_nat (length value)
  end.

(** ** Columns *)

(* [turso/lib.rs:168-180] physical_result_columns *)
Definition physical_result_columns (plan : CandidateExecutionPlan) : list string :=
  flat_map (fun descriptor => rc_name descriptor :: option_list (rc_visibility_column descriptor))
    (plan_result plan).

(** One row: the values of the columns and whether each is redacted. *)
(* [turso/lib.rs:191-221]! strip_visibility_columns *)
Fixpoint strip_row (descriptors : list ResultColumnDescriptor) (physical_row : list LogicalValue)
    : result Stop (list LogicalValue * list bool) :=
  match descriptors, physical_row with
  | [], [] => mret ([], [])
  | [], _ :: _ => fail AdapterError.InvalidResult
  | _ :: _, [] => fail AdapterError.InvalidResult
  | descriptor :: descriptors', value :: physical_row' =>
      '(redacted, rest) ←
        match rc_visibility_column descriptor, physical_row' with
        | None, _ => mret (false, physical_row')
        | Some _, LogicalValue.Boolean visible :: rest =>
            if negb visible && negb (bool_decide (value = LogicalValue.Null))
            then fail AdapterError.InvalidResult
            else mret (negb visible, rest)
        | Some _, _ => fail AdapterError.InvalidResult
        end;
      '(public_row, row_redactions) ← strip_row descriptors' rest;
      mret (value :: public_row, redacted :: row_redactions)
  end.

(* [turso/lib.rs:182-231] strip_visibility_columns *)
Definition strip_visibility_columns (plan : CandidateExecutionPlan) (r : ExecuteResult)
    : result Stop ExecuteResult :=
  if negb (bool_decide (er_columns r = physical_result_columns plan))
  then fail AdapterError.InvalidResult
  else
    rows ← collect (strip_row (plan_result plan)) (er_rows r);
    mret {| er_columns := map rc_name (plan_result plan); er_rows := map fst rows;
            er_redactions := map snd rows; er_affected_rows := er_affected_rows r |}.

(** ** Results *)

(** [checked_add] of the sizes, and the limit. *)
(* [turso/lib.rs:142-147]! validate_public_result *)
Definition add_size (max_result_bytes bytes : Z) (value : LogicalValue) : result Stop Z :=
  bytes ← ok_or (checked_add64 bytes (value_size value)) (Failed AdapterError.LimitExceeded);
  if (max_result_bytes <? bytes)%Z then fail AdapterError.LimitExceeded else mret bytes.

(** The flags of a row are as many as its values; only a column that may be redacted has one. *)
(* [turso/lib.rs:149-157]! validate_public_result *)
Definition bad_flags (descriptors : list ResultColumnDescriptor) (row : list LogicalValue)
    (flags : list bool) : bool :=
  negb (length flags =? length row)%nat
  || existsb (fun '(flag, descriptor) => flag && negb (rc_redacted_on_null descriptor))
       (zip flags descriptors).

(* [turso/lib.rs:136-147]! validate_public_result *)
Definition validate_cell (plan : CandidateExecutionPlan) (max_result_bytes bytes : Z)
    (cell : LogicalValue * ResultColumnDescriptor) : result Stop Z :=
  let '(value, descriptor) := cell in
  _ ← validate_value value (rc_value descriptor) (rc_possible_types descriptor)
        (el_max_bytes_per_value (plan_limits plan));
  add_size max_result_bytes bytes value.

(* [turso/lib.rs:131-158]! validate_public_result *)
Definition validate_row (plan : CandidateExecutionPlan) (max_result_bytes bytes : Z)
    (row : list LogicalValue) (flags : option (list bool)) : result Stop Z :=
  if negb (length row =? length (plan_result plan))%nat then fail AdapterError.InvalidResult
  else
    bytes ← for_fold (validate_cell plan max_result_bytes) bytes (zip row (plan_result plan));
    if match flags with None => true | Some flags => bad_flags (plan_result plan) row flags end
    then fail AdapterError.InvalidResult else mret bytes.

(** The flags of row [i] are [result.redactions.get(i)]. *)
(* [turso/lib.rs:130-158]! validate_public_result *)
Fixpoint validate_rows (plan : CandidateExecutionPlan) (max_result_bytes bytes : Z)
    (rows : list (list LogicalValue)) (redactions : list (list bool)) : result Stop Z :=
  match rows with
  | [] => mret bytes
  | row :: rows' =>
      bytes ← validate_row plan max_result_bytes bytes row (head redactions);
      validate_rows plan max_result_bytes bytes rows' (tail redactions)
  end.

(** [u64::try_from(rows.len())]. *)
Definition result_rows (r : ExecuteResult) : Z := Z.of_nat (length (er_rows r)).

(* [turso/lib.rs:104-166] validate_public_result *)
Definition validate_public_result (plan : CandidateExecutionPlan) (r : ExecuteResult)
    (max_result_bytes : Z) : result Stop ExecuteResult :=
  if negb (bool_decide (er_redactions r = [])) then fail AdapterError.InvalidResult
  else
    r ← strip_visibility_columns plan r;
    if negb (bool_decide (er_columns r = map rc_name (plan_result plan)))
    then fail AdapterError.InvalidResult
    else if (el_max_rows (plan_limits plan) <? result_rows r)%Z
    then fail AdapterError.LimitExceeded
    else
      _ ← validate_rows plan max_result_bytes 0 (er_rows r) (er_redactions r);
      if opt_existsb (fun expected => negb (result_rows r =? expected)%Z)
           (plan_expected_result_rows plan)
      then fail AdapterError.ExpectationFailed
      else mret r.

(* [turso/lib.rs:58-70] validate_result *)
Definition validate_result (plan : CandidateExecutionPlan) (r : ExecuteResult)
    (max_result_bytes : Z) : result Stop ExecuteResult :=
  if negb (er_affected_rows r =? 0)%Z then fail AdapterError.InvalidResult
  else if negb (bool_decide (er_redactions r = [])) then fail AdapterError.InvalidResult
  else validate_public_result plan r max_result_bytes.

(** [row.pop()]: the last value and the rest. *)
Definition pop {A} (l : list A) : option (list A * A) :=
  match rev l with [] => None | a :: l' => Some (rev l', a) end.

(* [turso/lib.rs:255-261]! validate_mutation_result *)
Definition pop_check (row : list LogicalValue) : result Stop (list LogicalValue) :=
  match pop row with
  | Some (row, LogicalValue.Boolean true) => mret row
  | _ => fail (AdapterError.Rejected "mutation post-state check failed")
  end.

(** The columns and rows without the operation check. *)
(* [turso/lib.rs:247-275]! validate_mutation_result *)
Definition operation_checked (plan : CandidateExecutionPlan) (r : ExecuteResult)
    : result Stop ExecuteResult :=
  let one_row_each := (result_rows r =? er_affected_rows r)%Z in
  match plan_operation_check_column plan with
  | Some check_column =>
      if negb (bool_decide (er_columns r = (physical_result_columns plan ++ [check_column])%list))
         || negb one_row_each
      then fail AdapterError.InvalidResult
      else
        rows ← collect pop_check (er_rows r);
        mret {| er_columns := physical_result_columns plan;
                er_rows := if bool_decide (length (plan_result plan) = 0)%nat then [] else rows;
                er_redactions := er_redactions r; er_affected_rows := er_affected_rows r |}
  | None =>
      if negb (bool_decide (er_columns r = physical_result_columns plan))
         || (negb (bool_decide (length (plan_result plan) = 0)%nat) && negb one_row_each)
      then fail AdapterError.InvalidResult else mret r
  end.

(* [turso/lib.rs:233-281] validate_mutation_result *)
Definition validate_mutation_result (plan : CandidateExecutionPlan) (r : ExecuteResult)
    (max_result_bytes : Z) : result Stop ExecuteResult :=
  if negb (bool_decide (er_redactions r = [])) then fail AdapterError.InvalidResult
  else if opt_existsb (fun expected => negb (er_affected_rows r =? expected)%Z)
            (plan_expected_affected_rows plan)
  then fail AdapterError.ExpectationFailed
  else
    checked ← operation_checked plan r;
    validated ← validate_public_result plan
      {| er_columns := er_columns checked; er_rows := er_rows checked;
         er_redactions := er_redactions checked; er_affected_rows := 0 |} max_result_bytes;
    mret {| er_columns := er_columns validated; er_rows := er_rows validated;
            er_redactions := er_redactions validated; er_affected_rows := er_affected_rows checked |}.

(* [turso/lib.rs:84-102] validate_sealed_result_within *)
Definition validate_sealed_result_within (plan : VerifiedExecutionPlan) (r : ExecuteResult)
    (max_result_bytes : Z) : result Stop ExecuteResult :=
  let max_result_bytes :=
    Z.min max_result_bytes (el_max_result_bytes (plan_limits (sealed plan))) in
  match plan_operation (sealed plan) with
  | OperationKind.Select => validate_result (sealed plan) r max_result_bytes
  | _ => validate_mutation_result (sealed plan) r max_result_bytes
  end.

(* [turso/lib.rs:72-82] validate_sealed_result *)
Definition validate_sealed_result (plan : VerifiedExecutionPlan) (r : ExecuteResult)
    : result Stop ExecuteResult :=
  validate_sealed_result_within plan r (el_max_result_bytes (plan_limits (sealed plan))).

(** The transport is the trait [TursoTransport]: an argument. *)
(* [turso/lib.rs:41-56]! TursoExecutor *)
Definition execute (transport : VerifiedExecutionPlan -> result Stop ExecuteResult)
    (plan : VerifiedExecutionPlan) : result Stop ExecuteResult :=
  match plan_operation (sealed plan) with
  | OperationKind.Select =>
      r ← transport plan;
      validate_result (sealed plan) r (el_max_result_bytes (plan_limits (sealed plan)))
  | _ => fail AdapterError.TransactionRequired
  end.
End values.
