(* ===== verification/Descriptors.v ===== *)
(** * The columns a statement returns

    The result descriptors of the crate [policysql-sqlite] (lib.rs): for every projection of a
    protected statement its name, type, format and nullability, and the types a JSON path may
    have under the schema of its column. *)

From S2P Require Import Prelude Result F64 Utf8 Core Catalog Ir Plan.

(* [sqlite/lib.rs:38-38] PROFILE_ID *)
Definition PROFILE_ID : string := "sqlite-turso-v1".
(* [sqlite/lib.rs:40-40] CHECK_COLUMN *)
Definition CHECK_COLUMN : string := "__policysql_check".
(* [sqlite/lib.rs:41-41] VISIBILITY_COLUMN_PREFIX *)
Definition VISIBILITY_COLUMN_PREFIX : string := "__policysql_visibility_".
(* [sqlite/lib.rs:42-42] LITERAL_PARAMETER_PREFIX *)
Definition LITERAL_PARAMETER_PREFIX : string := "__policysql_literal_".

Definition invariant {A} (message : string) : result EmitError.emit_error A :=
  throw (EmitError.InvariantViolation message).

(** ** JSON paths *)

(* [sqlite/lib.rs:1899-1903] JsonPathSegment *)
Module JsonPathSegment.
Inductive json_path_segment := Property (name : string) | Index.
End JsonPathSegment.

Definition invalid_path {A} : result EmitError.emit_error A := invariant "invalid SQLite JSON path".

(** A byte of a property name. *)
(* [sqlite/lib.rs:2019-2019]! parse_json_path *)
Definition name_byte (c : ascii) : bool := negb ((byte_of c =? 46)%Z || (byte_of c =? 91)%Z).

(** The segments after the dollar sign; every round consumes a byte. *)
(* [sqlite/lib.rs:2014-2046]! parse_json_path *)
Fixpoint json_segments (fuel : nat) (path : string)
    : result EmitError.emit_error (list JsonPathSegment.json_path_segment) :=
  match fuel, path with
  | _, EmptyString => mret []
  | O, _ => invalid_path
  | S fuel, String c rest =>
      if (byte_of c =? 46)%Z then
        let name := take_while name_byte rest in
        if String.eqb name "" then invalid_path
        else
          segments ← json_segments fuel (str_drop (String.length name) rest);
          mret (JsonPathSegment.Property name :: segments)
      else if (byte_of c =? 91)%Z then
        let digits := take_while is_digit rest in
        match str_drop (String.length digits) rest with
        | String close rest =>
            if String.eqb digits "" || negb (byte_of close =? 93)%Z then invalid_path
            else
              segments ← json_segments fuel rest;
              mret (JsonPathSegment.Index :: segments)
        | EmptyString => invalid_path
        end
      else invalid_path
  end.

(* [sqlite/lib.rs:2006-2048] parse_json_path *)
Definition parse_json_path (path : string)
    : result EmitError.emit_error (list JsonPathSegment.json_path_segment) :=
  match path with
  | String c rest =>
      if (byte_of c =? 36)%Z then json_segments (String.length rest) rest else invalid_path
  | EmptyString => invalid_path
  end.

(** ** JSON Schemas *)

(* [sqlite/lib.rs:1981-1985] schema_branches *)
Definition schema_branches (schema : JsonValueSchema) : list JsonValueSchema :=
  schema :: js_any_of schema.

(** One segment leads from the schemas of a value to those of its parts. *)
(* [sqlite/lib.rs:1826-1833]! json_schema_candidates *)
Definition descend (segment : JsonPathSegment.json_path_segment)
    (candidates : list JsonValueSchema) : list JsonValueSchema :=
  omap (fun schema =>
    match segment with
    | JsonPathSegment.Property name => assoc name (js_properties schema)
    | JsonPathSegment.Index => js_items schema
    end) (flat_map schema_branches candidates).

(* [sqlite/lib.rs:1820-1841] json_schema_candidates *)
Definition json_schema_candidates (schema : JsonValueSchema) (path : string)
    : result EmitError.emit_error (list JsonValueSchema) :=
  segments ← parse_json_path path;
  for_fold (fun candidates segment =>
    match descend segment candidates with
    | [] => invariant "JSON path is outside the Catalog Schema"
    | candidates => mret candidates
    end) [schema] segments.

(** The type names of a schema; with [recursive], of everything inside it. *)
(* [sqlite/lib.rs:1987-2004] collect_json_types *)
Fixpoint collect_json_types (recursive : bool) (schema : JsonValueSchema)
    : list JsonSchemaType.json_schema_type :=
  let '(Build_JsonValueSchema types properties items _ _ any_of) := schema in
  types ++ flat_map (collect_json_types recursive) any_of
  ++ if recursive then
       flat_map (fun '(_, property) => collect_json_types recursive property) properties
       ++ match items with Some items => collect_json_types recursive items | None => [] end
     else [].

(* [sqlite/lib.rs:1789-1800] collect_json_schemas *)
Fixpoint collect_json_schemas (schema : JsonValueSchema) : list JsonValueSchema :=
  let '(Build_JsonValueSchema _ properties items _ _ any_of) := schema in
  schema :: flat_map (fun '(_, property) => collect_json_schemas property) properties
  ++ match items with Some items => collect_json_schemas items | None => [] end
  ++ flat_map collect_json_schemas any_of.

(* [sqlite/lib.rs:1802-1818] json_path_value *)
Definition json_path_value (path : BoundExpr) (client_parameters : gmap string LogicalValue)
    : result EmitError.emit_error string :=
  match path with
  | BoundExpr.Literal (LogicalValue.String path) => mret path
  | BoundExpr.ClientParameter name _ =>
      match client_parameters !! name with
      | Some (LogicalValue.String path) => mret path
      | _ => invariant "JSON path value is invalid"
      end
  | _ => invariant "JSON path is not typed"
  end.

Section descriptors.
Context (catalog : Catalog).

(** [catalog.resource_by_id(...).and_then(|resource| resource.column_by_id(...))]. *)
Definition catalog_column (column : BoundColumn) : option ColumnDescriptor :=
  resource ← resource_by_id catalog (column_resource (bc_id column));
  column_by_id resource (bc_id column).

(* [sqlite/lib.rs:1745-1787] json_collection_item_schema *)
Definition json_collection_item_schema (select : BoundJsonCollectionSelect)
    (client_parameters : gmap string LogicalValue)
    : result EmitError.emit_error JsonValueSchema :=
  schema ← ok_or (resource ← resource_by_id catalog (bjc_resource select);
                  column ← column_by_id resource (bc_id (bjc_document select));
                  vd_json_schema (cd_value column))
             (EmitError.InvariantViolation "JSON Schema is unavailable");
  path ← json_path_value (bjc_path select) client_parameters;
  targets ← json_schema_candidates schema path;
  let items :=
    flat_map (fun branch =>
      if bjc_recursive select then collect_json_schemas branch
      else (map snd (js_properties branch) ++ option_list (js_items branch))%list)
      (flat_map schema_branches targets) in
  match items with
  | [] => invariant "JSON collection path has no finite element Schema"
  | [item] => mret item
  | items => mret {| js_types := []; js_properties := []; js_items := None; js_required := [];
                     js_additional_properties := false; js_any_of := items |}
  end.

(** The types in the order of the advertised union, each once. *)
(* [sqlite/lib.rs:1959-1972]! json_extract_types *)
Definition ordered_types (types : list JsonSchemaType.json_schema_type) : list LogicalType :=
  fold_left (fun output '(schema_type, logical_type) =>
    if bool_decide (schema_type ∈ types) && negb (bool_decide (logical_type ∈ output))
    then (output ++ [logical_type])%list else output)
    [(JsonSchemaType.Boolean, LogicalType.Boolean); (JsonSchemaType.Integer, LogicalType.Integer);
     (JsonSchemaType.Number, LogicalType.Number); (JsonSchemaType.String, LogicalType.String);
     (JsonSchemaType.Array, LogicalType.Json); (JsonSchemaType.Object, LogicalType.Json)] [].

(* [sqlite/lib.rs:1905-1979] json_extract_types *)
Definition json_extract_types (arguments : list BoundExpr)
    (client_parameters : gmap string LogicalValue)
    : result EmitError.emit_error (list LogicalType) :=
  column ← ok_or (head arguments ≫= direct_column)
             (EmitError.InvariantViolation "JSON document provenance is unavailable");
  schema ← ok_or (descriptor ← catalog_column column; vd_json_schema (cd_value descriptor))
             (EmitError.InvariantViolation "JSON Schema is unavailable");
  path ← match arguments !! 1%nat with
         | Some path => json_path_value path client_parameters
         | None => invariant "JSON path is not typed"
         end;
  candidates ← if String.eqb path "" then mret [schema] else json_schema_candidates schema path;
  match ordered_types (flat_map (collect_json_types (String.eqb path "")) candidates) with
  | [] => invariant "JSON path has no value type"
  | output => mret output
  end.

(** ** Nullability *)

Section select.
Context (select : option BoundSelect).

(** A column of a resource the select joins on the left. *)
(* [sqlite/lib.rs:2063-2070]! expression_nullable *)
Definition left_joined (column : BoundColumn) : bool :=
  opt_existsb (fun select =>
    existsb (fun join => (bj_resource join =? column_resource (bc_id column))%Z
                         && bool_decide (bj_kind join = JoinKind.Left)) (bs_joins select)) select.

(* [sqlite/lib.rs:2050-2103] expression_nullable *)
Fixpoint expression_nullable (expression : BoundExpr) : result EmitError.emit_error bool :=
  let or_nullable e := match expression_nullable e with inl b => b | inr _ => true end in
  match expression with
  | BoundExpr.Column column =>
      descriptor ← ok_or (catalog_column column) EmitError.UnknownColumn;
      mret (vd_nullable (cd_value descriptor) || left_joined column)
  | BoundExpr.ScalarFunction function arguments _ =>
      match function with
      | ScalarFunction.Lower | ScalarFunction.Upper =>
          match arguments with
          | argument :: _ => expression_nullable argument
          | [] => invariant "registered function arity"
          end
      | ScalarFunction.JsonExtract => mret true
      end
  | BoundExpr.Concat lhs rhs =>
      nullable ← (expression_nullable lhs : result EmitError.emit_error bool);
      if (nullable : bool) then mret true else expression_nullable rhs
  | BoundExpr.CastText inner => expression_nullable inner
  | BoundExpr.Case branches else_expression _ =>
      mret (existsb (fun '(_, value) => or_nullable value) branches
            || match else_expression with Some value => or_nullable value | None => true end)
  | BoundExpr.ClientParameter _ _ | BoundExpr.ServerParameter _ _ | BoundExpr.Literal _ =>
      mret false
  | _ => invariant "registered function argument"
  end.

(* [sqlite/lib.rs:1734-1743] direct_expression_format *)
Definition direct_expression_format (expression : BoundExpr) : option string :=
  column ← direct_column expression;
  descriptor ← catalog_column column;
  vd_format (cd_value descriptor).

(** The representation of a computed value. *)
(* [sqlite/lib.rs:1711-1722]! compound_result_descriptor *)
Definition computed_representation (logical_type : LogicalType)
    : ValueRepresentation.value_representation :=
  match logical_type with
  | LogicalType.String | LogicalType.Date | LogicalType.DateTime | LogicalType.Instant
  | LogicalType.Int64 => ValueRepresentation.String
  | LogicalType.Boolean => ValueRepresentation.Boolean
  | LogicalType.Integer | LogicalType.Number => ValueRepresentation.Number
  | LogicalType.Bytes => ValueRepresentation.Base64
  | LogicalType.Json => ValueRepresentation.Json
  end.

(** A descriptor without storage, constraints and schema. *)
Definition computed (name : string) (logical_type : LogicalType)
    (representation : ValueRepresentation.value_representation) (nullable : bool)
    (format : option string) (possible_types : list LogicalType) : ResultColumnDescriptor :=
  {| rc_name := name;
     rc_value := {| vd_logical_type := logical_type; vd_representation := representation;
                    vd_nullable := nullable; vd_format := format; vd_storage := None;
                    vd_constraints := None; vd_json_schema := None |};
     rc_possible_types := possible_types; rc_redacted_on_null := false;
     rc_visibility_column := None |}.

(** The format of a CASE: that of its values when all have one and the same. *)
(* [sqlite/lib.rs:1690-1703]! compound_result_descriptor *)
Definition case_format (branches : list (BoundExpr * BoundExpr)) (else_expression : option BoundExpr)
    : option string :=
  match map (fun '(_, value) => direct_expression_format value) branches with
  | Some first :: formats =>
      if forallb (fun format => bool_decide (format = Some first)) formats
         && match else_expression with
            | Some value => bool_decide (direct_expression_format value = Some first)
            | None => true
            end
      then Some first else None
  | _ => None
  end.

(* [sqlite/lib.rs:1662-1732] compound_result_descriptor *)
Definition compound_result_descriptor (projection : BoundProjection)
    : result EmitError.emit_error (option ResultColumnDescriptor) :=
  let compound logical_type nullable format :=
    Some (computed (bp_output_name projection) logical_type
            (computed_representation logical_type) nullable format [logical_type]) in
  match bp_expression projection with
  | BoundExpr.Concat _ _ =>
      nullable ← expression_nullable (bp_expression projection);
      mret (compound LogicalType.String nullable None)
  | BoundExpr.CastText inner =>
      nullable ← expression_nullable inner;
      mret (compound LogicalType.String nullable None)
  | BoundExpr.Case branches else_expression logical_type =>
      nullable ← expression_nullable (bp_expression projection);
      mret (compound logical_type nullable (case_format branches else_expression))
  | _ => mret None
  end.

(* [sqlite/lib.rs:1843-1897] scalar_result_descriptor *)
Definition scalar_result_descriptor (projection : BoundProjection)
    (client_parameters : gmap string LogicalValue)
    : result EmitError.emit_error (option ResultColumnDescriptor) :=
  match bp_expression projection with
  | BoundExpr.ScalarFunction function arguments logical_type =>
      nullable ← expression_nullable (bp_expression projection);
      possible_types ←
        match function with
        | ScalarFunction.JsonExtract => json_extract_types arguments client_parameters
        | _ => mret [logical_type]
        end;
      result_type ← ok_or (head possible_types)
                      (EmitError.InvariantViolation "empty result type union");
      mret (Some (computed (bp_output_name projection) result_type
                    (computed_representation result_type) nullable None possible_types))
  | _ => mret None
  end.

(** A direct column, which a policy may have made conditional. *)
(* [sqlite/lib.rs:1614-1658]! result_descriptors *)
Definition column_result_descriptor (index : nat) (projection : BoundProjection)
    : result EmitError.emit_error ResultColumnDescriptor :=
  '(column, conditional) ←
    match bp_expression projection with
    | BoundExpr.Column column => mret (column, false)
    | BoundExpr.ConditionalOutput (BoundExpr.Column column) _ => mret (column, true)
    | BoundExpr.ConditionalOutput _ _ => invariant "conditional output is not a direct column"
    | _ => invariant "projection is not a permitted output shape"
    end;
  source ← ok_or (resource_by_id catalog (column_resource (bc_id column)))
             EmitError.UnknownResource;
  descriptor ← ok_or (column_by_id source (bc_id column)) EmitError.UnknownColumn;
  let value := cd_value descriptor in
  mret {| rc_name := bp_output_name projection;
          rc_value := {| vd_logical_type := vd_logical_type value;
                         vd_representation := vd_representation value;
                         vd_nullable := vd_nullable value || conditional || left_joined column;
                         vd_format := vd_format value; vd_storage := vd_storage value;
                         vd_constraints := vd_constraints value;
                         vd_json_schema := vd_json_schema value |};
          rc_possible_types := [vd_logical_type value]; rc_redacted_on_null := conditional;
          rc_visibility_column :=
            if conditional
            then Some (VISIBILITY_COLUMN_PREFIX ++ dec (Z.of_nat index))%string else None |}.

(* [sqlite/lib.rs:1562-1659]! result_descriptors *)
Definition projection_descriptor (client_parameters : gmap string LogicalValue) (index : nat)
    (projection : BoundProjection) : result EmitError.emit_error ResultColumnDescriptor :=
  let number logical_type :=
    computed (bp_output_name projection) logical_type ValueRepresentation.Number false None
      [logical_type] in
  match bp_expression projection with
  | BoundExpr.Literal (LogicalValue.Int64 _) => mret (number LogicalType.Integer)
  | BoundExpr.Literal (LogicalValue.Number _) => mret (number LogicalType.Number)
  | BoundExpr.Literal _ => throw EmitError.UnsupportedStatement
  | BoundExpr.CountAll _ | BoundExpr.RowNumber _ _ _ => mret (number LogicalType.Int64)
  | _ =>
      scalar ← scalar_result_descriptor projection client_parameters;
      match scalar with
      | Some descriptor => mret descriptor
      | None =>
          compound ← compound_result_descriptor projection;
          match compound with
          | Some descriptor => mret descriptor
          | None => column_result_descriptor index projection
          end
      end
  end.
End select.

(** The numbered projections of a statement over an optional resource. *)
(* [sqlite/lib.rs:1546-1660]! result_descriptors *)
Definition projection_descriptors (resource : option Z) (projections : list BoundProjection)
    (select : option BoundSelect) (client_parameters : gmap string LogicalValue)
    : result EmitError.emit_error (list ResultColumnDescriptor) :=
  if opt_existsb (fun resource =>
       match resource_by_id catalog resource with Some _ => false | None => true end) resource
  then throw EmitError.UnknownResource
  else
    collect (fun '(index, projection) =>
      projection_descriptor select client_parameters index projection)
      (imap pair projections).

(* [sqlite/lib.rs:1517-1660] result_descriptors *)
Definition result_descriptors (statement : BoundStatement)
    (client_parameters : gmap string LogicalValue)
    : result EmitError.emit_error (list ResultColumnDescriptor) :=
  match statement with
  | BoundStatement.JsonCollectionSelect select =>
      item_schema ← json_collection_item_schema select client_parameters;
      mret [{| rc_name := bjc_output_name select;
               rc_value :=
                 {| vd_logical_type := LogicalType.Json;
                    vd_representation := ValueRepresentation.Json; vd_nullable := false;
                    vd_format := None; vd_storage := None; vd_constraints := None;
                    vd_json_schema :=
                      Some {| js_types := [JsonSchemaType.Array]; js_properties := [];
                              js_items := Some item_schema; js_required := [];
                              js_additional_properties := false; js_any_of := [] |} |};
               rc_possible_types := [LogicalType.Json]; rc_redacted_on_null := false;
               rc_visibility_column := None |}]
  | BoundStatement.Select value =>
      projection_descriptors (Some (bs_resource value)) (bs_projections value) (Some value)
        client_parameters
  | BoundStatement.ConstantSelect value =>
      projection_descriptors None (bcs_projections value) None client_parameters
  | BoundStatement.Insert value =>
      projection_descriptors (Some (bi_resource value)) (bi_returning value) None
        client_parameters
  | BoundStatement.Update value =>
      projection_descriptors (Some (bu_resource value)) (bu_returning value) None
        client_parameters
  | BoundStatement.Delete value =>
      projection_descriptors (Some (bd_resource value)) (bd_returning value) None
        client_parameters
  end.
End descriptors.
