(* ===== verification/SqlAst.v ===== *)
(** * The syntax trees of SQL

    The syntax trees of the crate turso_parser, which the binder reads and the emitter builds: the
    nodes and fields that the sources of the repository name. A node they do not tell apart from
    others is one of the [Other] constructors, and a field they only test for its presence is
    [unread]. Printing, parsing and the text of a name are the crate's: the class [Dialect]. *)

From S2P Require Import Prelude.

(** ** Tokens *)

(** [value.replace(c, cc)]. *)
Fixpoint doubled (c : ascii) (value : string) : string :=
  match value with
  | EmptyString => EmptyString
  | String x value =>
      if Ascii.eqb x c then String x (String x (doubled c value))
      else String x (doubled c value)
  end.

Definition double_quote : ascii := ascii_of_nat 34.
Definition single_quote : ascii := ascii_of_nat 39.

(** ** Leaves *)

(** What the sources only test for its presence. *)
Inductive unread := Unread.

(** A name is built from a token, with its quotes, or from the exact text. *)
Inductive SqlName := from_string (token : string) | exact (text : string).

Record QualifiedName := { qn_db_name : option SqlName; qn_name : SqlName }.
Definition single (name : SqlName) : QualifiedName := {| qn_db_name := None; qn_name := name |}.

(** [As]: an alias after AS, or one that stands next to what it names. *)
Record As := { as_explicit : bool; as_name : SqlName }.
Definition as_as (name : SqlName) : As := {| as_explicit := true; as_name := name |}.

Record SqlVariable := { var_name : option string; var_index : option Z }.
Definition named (name : string) (index : Z) : SqlVariable :=
  {| var_name := Some name; var_index := Some index |}.

Module SqlLiteral.
Inductive sql_literal := Numeric (raw : string) | String (token : string) | Null | True | False | Other.
End SqlLiteral.

Module SqlOperator.
Inductive sql_operator :=
| Equals | NotEquals | Less | LessEquals | Greater | GreaterEquals | And | Or | Concat | Is | IsNot
| Other.
End SqlOperator.

Module UnaryOperator.
Inductive unary_operator := Not | Negative | Other.
End UnaryOperator.

Module LikeOperator.
Inductive like_operator := Like | Glob | Other.
End LikeOperator.

Module JoinType.
Inductive join_type := INNER | LEFT | LEFT_OUTER | Other.
End JoinType.

Module JoinOperator.
Inductive join_operator := Comma | TypedJoin (kind : option JoinType.join_type) | Other.
End JoinOperator.

Module SortOrder.
Inductive sort_order := Asc | Desc.
End SortOrder.

Record SqlType := { type_name : string; type_size : option unread; type_array_dimensions : Z }.

(** ** Parts that hold expressions of a type *)

Record SortedColumnOf (E : Type) := {
  sc_expr : E;
  sc_order : option SortOrder.sort_order;
  sc_nulls : option unread
}.
Record WindowOf (E : Type) := {
  window_base : option unread;
  window_partition_by : list E;
  window_order_by : list (SortedColumnOf E);
  window_frame_clause : option unread
}.
Inductive OverOf (E : Type) := OverName | OverWindow (window : WindowOf E).
Record FunctionTailOf (E : Type) := {
  filter_clause : option E;
  over_clause : option (OverOf E)
}.
Inductive ResultColumnOf (E : Type) :=
| ResultExpr (expression : E) (alias : option As)
| Star
| TableStar.
Record GroupByOf (E : Type) := { gb_exprs : list E; gb_having : option E }.
Record LimitOf (E : Type) := { limit_expr : E; limit_offset : option E }.
Inductive JoinConstraintOf (E : Type) := On (expression : E) | Using.
Record SetOf (E : Type) := { set_col_names : list SqlName; set_expr : E }.
Arguments sc_expr {E} _.
Arguments sc_order {E} _.
Arguments sc_nulls {E} _.
Arguments window_base {E} _.
Arguments window_partition_by {E} _.
Arguments window_order_by {E} _.
Arguments window_frame_clause {E} _.
Arguments OverName {E}.
Arguments OverWindow {E} _.
Arguments filter_clause {E} _.
Arguments over_clause {E} _.
Arguments ResultExpr {E} _ _.
Arguments Star {E}.
Arguments TableStar {E}.
Arguments gb_exprs {E} _.
Arguments gb_having {E} _.
Arguments limit_expr {E} _.
Arguments limit_offset {E} _.
Arguments On {E} _.
Arguments Using {E}.
Arguments set_col_names {E} _.
Arguments set_expr {E} _.

(** ** Expressions and selects *)

Module SqlExpr.
Inductive sql_expr :=
| Id (name : SqlName)
| Name (name : SqlName)
| Qualified (source name : SqlName)
| DoublyQualified (db source name : SqlName)
| VariableExpr (variable : SqlVariable)
| Literal (literal : SqlLiteral.sql_literal)
| Binary (l : sql_expr) (op : SqlOperator.sql_operator) (r : sql_expr)
| Unary (op : UnaryOperator.unary_operator) (inner : sql_expr)
| Parenthesized (elements : list sql_expr)
| IsNull (inner : sql_expr)
| NotNull (inner : sql_expr)
| Collate (inner : sql_expr)
| Between (lhs start stop : sql_expr)
| InList (lhs : sql_expr) (negated : bool) (rhs : list sql_expr)
| InSelect (lhs : sql_expr) (rhs : sql_select)
| Like (lhs : sql_expr) (negated : bool) (op : LikeOperator.like_operator) (rhs : sql_expr)
    (escape : option sql_expr)
| Cast (inner : sql_expr) (type_name : option SqlType)
| Case (base : option sql_expr) (when_then_pairs : list (sql_expr * sql_expr))
    (else_expr : option sql_expr)
| FunctionCall (name : SqlName) (distinctness : option unread) (args : list sql_expr)
    (order_by within_group : list (SortedColumnOf sql_expr))
    (filter_over : FunctionTailOf sql_expr)
| FunctionCallStar (name : SqlName) (filter_over : FunctionTailOf sql_expr)
| Exists (select : sql_select)
| Subquery (select : sql_select)
| Other
with sql_select :=
| Build_Select (with_clause : option sql_with) (select : one_select) (compounds : list one_select)
    (order_by : list (SortedColumnOf sql_expr)) (limit : option (LimitOf sql_expr))
with one_select :=
| OneSelect (distinctness : option unread) (columns : list (ResultColumnOf sql_expr))
    (from : option from_clause) (where_clause : option sql_expr)
    (group_by : option (GroupByOf sql_expr)) (window_clause : list unread)
| Values (rows : list (list sql_expr))
with from_clause :=
| Build_From (select : select_table) (joins : list joined_select_table)
with joined_select_table :=
| Build_Joined (operator : JoinOperator.join_operator) (table : select_table)
    (constraint : option (JoinConstraintOf sql_expr))
with select_table :=
| Table (name : QualifiedName) (alias : option As) (indexed : option unread)
| TableCall (name : QualifiedName) (arguments : list sql_expr) (alias : option As)
| SubSelect (select : sql_select) (alias : option As)
| SubFrom (from : from_clause) (alias : option As)
with sql_with :=
| Build_With (recursive : bool) (ctes : list common_table_expression)
with common_table_expression :=
| Build_Cte (tbl_name : SqlName) (columns : list unread) (materialized_any : bool)
    (select : sql_select).
End SqlExpr.
Abbreviation SqlExpr := SqlExpr.sql_expr.
Abbreviation SqlSelect := SqlExpr.sql_select.
Abbreviation SelectTable := SqlExpr.select_table.
Abbreviation FromClause := SqlExpr.from_clause.
Abbreviation SortedColumn := (SortedColumnOf SqlExpr).
Abbreviation FunctionTail := (FunctionTailOf SqlExpr).
Abbreviation ResultColumn := (ResultColumnOf SqlExpr).
Abbreviation SqlLimit := (LimitOf SqlExpr).
Abbreviation SqlSet := (SetOf SqlExpr).

(** ** Statements *)

(** A conflict clause of an INSERT, and the next one. *)
Inductive Upsert :=
| Build_Upsert (index : option (list SortedColumn * option SqlExpr))
    (sets : option (list SqlSet * option SqlExpr)) (next : option Upsert).

Module InsertBody.
Inductive insert_body := Select (select : SqlSelect) (upsert : option Upsert) | DefaultValues.
End InsertBody.

Record SqlUpdate := {
  upd_with : option unread;
  upd_or_conflict : option unread;
  upd_tbl_name : QualifiedName;
  upd_indexed : option unread;
  upd_sets : list SqlSet;
  upd_from : option unread;
  upd_where_clause : option SqlExpr;
  upd_returning : list ResultColumn;
  upd_order_by : list SortedColumn;
  upd_limit : option SqlLimit
}.

Module Stmt.
Inductive stmt :=
| Select (select : SqlSelect)
| Insert (with_clause or_conflict : option unread) (tbl_name : QualifiedName)
    (columns : list SqlName) (body : InsertBody.insert_body) (returning : list ResultColumn)
| Update (update : SqlUpdate)
| Delete (with_clause : option unread) (tbl_name : QualifiedName) (indexed : option unread)
    (where_clause : option SqlExpr) (returning : list ResultColumn)
    (order_by : list SortedColumn) (limit : option SqlLimit)
| Other.
End Stmt.
Abbreviation Stmt := Stmt.stmt.

Module Cmd.
Inductive cmd := Stmt (statement : Stmt) | Explain (statement : Stmt) | ExplainQueryPlan (statement : Stmt).
End Cmd.
Abbreviation Cmd := Cmd.cmd.

(** ** What the crate does with them *)

Class Dialect := {
  (** [Parser::new(sql).collect()]: the commands of a text that parses. *)
  parse_commands : string -> option (list Cmd);
  (** [to_string] of a command and of a statement. *)
  print_cmd : Cmd -> string;
  print_stmt : Stmt -> string;
  (** [Name::as_str]. *)
  as_str : SqlName -> string;
  (** The equality of statements, which [PartialEq] derives. *)
  stmt_eqb : Stmt -> Stmt -> bool;
  (** [MAX_EXPR_DEPTH]: the parser's bound of the height and of the recursion. *)
  MAX_EXPR_DEPTH : Z
}.
