(* ===== verification/Binding.v ===== *)
(** * Binding expressions

    The crate [policysql-parser] (lib.rs), its first part: names resolved in the scopes of a
    statement, literals, and expressions bound with their types. What a statement is made of is
    bound in Binder.v. *)

From S2P Require Import Prelude Result F64 Utf8 Core Catalog Ir SqlAst.

(* [parser/lib.rs:18-24] BindingLimits *)
Record BindingLimits := {
  max_expression_depth : Z;
  max_parameters : Z;
  max_projections : Z;
  max_joins : Z
}.

(* [parser/lib.rs:27-34] BindingLimits::default *)
Definition default_limits : BindingLimits :=
  {| max_expression_depth := 32; max_parameters := 1024; max_projections := 128;
     max_joins := 8 |}.

(* [parser/lib.rs:1696-1725] BindError *)
Module BindError.
Inductive bind_error :=
| Empty
| InvalidSql
| MultipleStatements
| Unsupported (shape : string)
| MissingFrom
| UnknownResource
| UnknownColumn
| AmbiguousColumn
| DuplicateAlias
| ImplicitRowId
| ProjectionLimit
| JoinLimit
| ParameterLimit
| ExpressionDepth
| PositionalParameter
| UnsupportedParameterPrefix
| InvalidParameterName
| ReservedParameterNamespace
| UnprovableParameterType
| IncompatibleTypes
| InvalidLiteral
| NullComparison
| InvalidLimit
| InvalidResultName
| DuplicateResultName
| DuplicateWriteColumn
| InsertArity.
#[global] Instance bind_error_eq_dec : EqDecision bind_error.
Proof. solve_decision. Defined.
End BindError.
Abbreviation BindError := BindError.bind_error.

Definition unsupported {A} (shape : string) : result BindError A :=
  throw (BindError.Unsupported shape).

(* [parser/lib.rs:57-62] BindTrace *)
Record BindTrace := {
  tr_parameters : gset string;
  tr_string_literals : list ClientStringLiteral
}.
Definition no_trace : BindTrace := {| tr_parameters := ∅; tr_string_literals := [] |}.

(** Computations that add to the trace. *)
Definition binding (A : Type) : Type := BindTrace -> result BindError (A * BindTrace).
#[export] Instance binding_ret : MRet binding := fun A a t => inl (a, t).
#[export] Instance binding_bind : MBind binding := fun A B k m t =>
  match m t with inl (a, t') => k a t' | inr e => inr e end.
Definition lift {A} (m : result BindError A) : binding A := fun t =>
  match m with inl a => inl (a, t) | inr e => inr e end.
Definition refuse {A} (shape : string) : binding A := lift (unsupported shape).

(** Loops that stop at the first error. *)
Definition bind_all {A B} (f : A -> binding B) : list A -> binding (list B) :=
  fix go l :=
    match l with
    | [] => mret []
    | a :: l => b ← f a; bs ← go l; mret (b :: bs)
    end.
Definition bind_zip {A B C} (f : A -> B -> binding C) : list A -> list B -> binding (list C) :=
  fix go l ks :=
    match l, ks with
    | a :: l, k :: ks => c ← f a k; cs ← go l ks; mret (c :: cs)
    | _, _ => mret []
    end.
Definition bind_option {A B} (f : A -> binding B) (o : option A) : binding (option B) :=
  match o with Some a => b ← f a; mret (Some b) | None => mret None end.

(** ** Literals *)

(* [parser/lib.rs:1667-1675]! decode_string_literal *)
Fixpoint decode_characters (inner : string) : result BindError string :=
  match inner with
  | EmptyString => mret EmptyString
  | String c inner =>
      if Ascii.eqb c "000" then throw BindError.InvalidLiteral
      else if Ascii.eqb c single_quote then
        match inner with
        | String d inner =>
            if Ascii.eqb d single_quote
            then value ← decode_characters inner; mret (String c value)
            else throw BindError.InvalidLiteral
        | EmptyString => throw BindError.InvalidLiteral
        end
      else value ← decode_characters inner; mret (String c value)
  end.

(** The characters it looks for are single bytes. *)
(* [parser/lib.rs:1652-1676] decode_string_literal *)
Definition decode_string_literal (token : string) : result BindError string :=
  inner ← ok_or (rest ← strip_prefix (String single_quote EmptyString) token;
                 strip_suffix single_quote rest) BindError.InvalidLiteral;
  decode_characters inner.

(* [parser/lib.rs:1646-1648]! bind_literal *)
Definition expected_is (expected : option LogicalType) (t : LogicalType) : bool :=
  match expected with Some expected => bool_decide (expected = t) | None => true end.

(* [parser/lib.rs:1624-1650] bind_literal *)
Definition bind_literal (literal : SqlLiteral.sql_literal) (expected : option LogicalType)
    : result BindError (BoundExpr * LogicalType) :=
  '(value, logical_type) ←
    match literal with
    | SqlLiteral.String token =>
        value ← decode_string_literal token;
        mret (LogicalValue.String value, LogicalType.String)
    | SqlLiteral.Numeric value =>
        match parse_i64 value with
        | Some n => mret (LogicalValue.Int64 n, LogicalType.Int64)
        | None =>
            x ← ok_or (parse_f64 value) BindError.InvalidLiteral;
            mret (LogicalValue.Number x, LogicalType.Number)
        end
    | SqlLiteral.True => mret (LogicalValue.Boolean true, LogicalType.Boolean)
    | SqlLiteral.False => mret (LogicalValue.Boolean false, LogicalType.Boolean)
    | SqlLiteral.Null => throw BindError.NullComparison
    | SqlLiteral.Other => unsupported "literal"
    end;
  if expected_is expected logical_type then mret (BoundExpr.Literal value, logical_type)
  else throw BindError.IncompatibleTypes.

(** ** Names *)

(* [parser/lib.rs:1597-1603] bound_column *)
Definition bound_column (column : ColumnDescriptor) (usage : ColumnUsage.column_usage)
    : BoundColumn :=
  {| bc_id := cd_id column; bc_logical_type := vd_logical_type (cd_value column);
     bc_usage := usage |}.

(** The result names of a statement: none is reserved, and none is there twice. *)
(* [parser/lib.rs:1611-1622] ensure_unique_result_names *)
Definition ensure_unique_result_names (projections : list BoundProjection)
    : result BindError unit :=
  _ ← for_fold (fun (names : gset string) projection =>
    let name := canonical (bp_output_name projection) in
    if starts_with "__policysql_" name then throw BindError.InvalidResultName
    else if bool_decide (name ∈ names) then throw BindError.DuplicateResultName
    else mret ({[ name ]} ∪ names)) ∅ projections;
  mret ().

(* [parser/lib.rs:837-843] SourceScope *)
Record SourceScope := {
  sc_resource : ResourceDescriptor;
  sc_alias : option string;
  sc_qualifier : string;
  sc_columns : gmap string ColumnDescriptor
}.

Section names.
Context `{Dialect} (catalog : Catalog).

(* [parser/lib.rs:1605-1609] explicit_alias *)
Definition explicit_alias (alias : option As) : option string :=
  alias ← alias;
  if as_explicit alias then Some (as_str (as_name alias)) else None.

(** The columns of a resource by their names; of two with the same name the later. *)
(* [parser/lib.rs:825-828]! bind_source *)
Definition scope_columns (columns : list ColumnDescriptor) : gmap string ColumnDescriptor :=
  fold_left (fun scope column => <[canonical (cd_name column) := column]> scope) columns ∅.

(* [parser/lib.rs:802-835] bind_source *)
Definition bind_source (table : SelectTable) : result BindError SourceScope :=
  match table with
  | SqlExpr.Table name alias indexed =>
      _ ← require (negb (bool_decide (is_Some (qn_db_name name))))
            (BindError.Unsupported "database qualifier");
      _ ← require (match indexed with Some _ => false | None => true end)
            (BindError.Unsupported "INDEXED BY");
      resource ← ok_or (resource catalog (as_str (qn_name name))) BindError.UnknownResource;
      let alias := canonical <$> explicit_alias alias in
      mret {| sc_resource := resource; sc_alias := alias;
              sc_qualifier := default (canonical (rd_name resource)) alias;
              sc_columns := scope_columns (columns resource) |}
  | _ => unsupported "table source"
  end.

(* [parser/lib.rs:1557-1561]! BindState::resolve_direct_column *)
Definition direct_name (e : SqlExpr) : result BindError (option string * string) :=
  match e with
  | SqlExpr.Id name | SqlExpr.Name name => mret (None, as_str name)
  | SqlExpr.Qualified source name => mret (Some (as_str source), as_str name)
  | _ => unsupported "derived projection"
  end.

(* [parser/lib.rs:1556-1586] BindState::resolve_direct_column *)
Definition resolve_direct_column (scopes : list SourceScope) (e : SqlExpr)
    : result BindError ColumnDescriptor :=
  '(qualifier, name) ← direct_name e;
  if bool_decide (canonical name ∈ ["rowid"; "_rowid_"; "oid"]%string)
  then throw BindError.ImplicitRowId
  else
    match qualifier with
    | Some qualifier =>
        scope ← ok_or (List.find (fun scope =>
                         eq_ignore_ascii_case (sc_qualifier scope) qualifier) scopes)
                  BindError.UnknownResource;
        ok_or (sc_columns scope !! canonical name) BindError.UnknownColumn
    | None =>
        match omap (fun scope => sc_columns scope !! canonical name) scopes with
        | [] => throw BindError.UnknownColumn
        | [column] => mret column
        | _ => throw BindError.AmbiguousColumn
        end
    end.
End names.

(** ** The parts of an expression

    Each takes the binding of its operands as an argument: [bind expected e] at the depth of the
    operands. *)

Definition is_variable (e : SqlExpr) : bool :=
  match e with SqlExpr.VariableExpr _ => true | _ => false end.

Section parts.
Context (bind : option LogicalType -> SqlExpr -> binding (BoundExpr * LogicalType)).

(* [parser/lib.rs:1286-1307] BindState::bind_comparison *)
Definition bind_comparison (l r : SqlExpr) : binding (BoundExpr * BoundExpr) :=
  if is_variable l && is_variable r then lift (throw BindError.UnprovableParameterType)
  else if is_variable l then
    '(r, right_type) ← bind None r;
    '(l, _) ← bind (Some right_type) l;
    mret (l, r)
  else
    '(l, left_type) ← bind None l;
    '(r, right_type) ← bind (Some left_type) r;
    if bool_decide (left_type = right_type) then mret (l, r)
    else lift (throw BindError.IncompatibleTypes).

(** The first value that is no parameter, which gives a parameter on the left its type. *)
(* [parser/lib.rs:1173-1177]! BindState::bind_in_list *)
Definition bind_first_value : list SqlExpr -> binding (BoundExpr * LogicalType) :=
  fix go l :=
    match l with
    | [] => lift (throw BindError.UnprovableParameterType)
    | value :: l => if is_variable value then go l else bind None value
    end.

(* [parser/lib.rs:1164-1194] BindState::bind_in_list *)
Definition bind_in_list (lhs : SqlExpr) (negated : bool) (rhs : list SqlExpr)
    : binding BoundExpr :=
  '(expression, logical_type) ←
    (if is_variable lhs then
       '(_, logical_type) ← bind_first_value rhs;
       bind (Some logical_type) lhs
     else bind None lhs);
  values ← bind_all (fun value =>
             '(value, _) ← bind (Some logical_type) value; mret value) rhs;
  mret (BoundExpr.In expression values negated).

(* [parser/lib.rs:1417-1434] BindState::bind_concat *)
Definition bind_concat (expected : option LogicalType) (l r : SqlExpr)
    : binding (BoundExpr * LogicalType) :=
  if negb (expected_is expected LogicalType.String)
  then lift (throw BindError.IncompatibleTypes)
  else
    '(l, _) ← bind (Some LogicalType.String) l;
    '(r, _) ← bind (Some LogicalType.String) r;
    mret (BoundExpr.Concat l r, LogicalType.String).

(* [parser/lib.rs:1436-1456] BindState::bind_cast_text *)
Definition bind_cast_text (expected : option LogicalType) (type : option SqlType) (e : SqlExpr)
    : binding (BoundExpr * LogicalType) :=
  match type with
  | None => refuse "CAST type"
  | Some type =>
      if negb (type_array_dimensions type =? 0)%Z
         || match type_size type with Some _ => true | None => false end
         || negb (eq_ignore_ascii_case (type_name type) "text")
         || negb (expected_is expected LogicalType.String)
      then refuse "CAST type"
      else
        '(inner, _) ← bind None e;
        mret (BoundExpr.CastText inner, LogicalType.String)
  end.

(** The branches of a CASE; each is bound with the type of the one before. *)
(* [parser/lib.rs:1466-1473]! BindState::bind_case *)
Definition bind_branches (condition : SqlExpr -> binding BoundExpr)
    : option LogicalType -> list (SqlExpr * SqlExpr)
      -> binding (list (BoundExpr * BoundExpr) * option LogicalType) :=
  fix go result_type pairs :=
    match pairs with
    | [] => mret ([], result_type)
    | (when, then_) :: pairs =>
        when ← condition when;
        '(result, branch_type) ← bind result_type then_;
        '(branches, result_type) ← go (Some branch_type) pairs;
        mret ((when, result) :: branches, result_type)
    end.

(* [parser/lib.rs:1458-1489] BindState::bind_case *)
Definition bind_case (condition : SqlExpr -> binding BoundExpr) (expected : option LogicalType)
    (pairs : list (SqlExpr * SqlExpr)) (otherwise : option SqlExpr)
    : binding (BoundExpr * LogicalType) :=
  '(branches, result_type) ← bind_branches condition expected pairs;
  result_type ← lift (ok_or result_type BindError.UnprovableParameterType);
  otherwise ← bind_option (fun e => '(e, _) ← bind (Some result_type) e; mret e) otherwise;
  mret (BoundExpr.Case branches otherwise result_type, result_type).

(* [parser/lib.rs:1499-1516]! BindState::bind_registered_scalar *)
Definition registered_scalar (name : string)
    : result BindError (ScalarFunction.scalar_function * list LogicalType * LogicalType) :=
  let name := canonical name in
  if String.eqb name "lower"
  then mret (ScalarFunction.Lower, [LogicalType.String], LogicalType.String)
  else if String.eqb name "upper"
  then mret (ScalarFunction.Upper, [LogicalType.String], LogicalType.String)
  else if String.eqb name "json_extract"
  then mret (ScalarFunction.JsonExtract, [LogicalType.Json; LogicalType.String],
             LogicalType.Json)
  else unsupported "scalar function".

(* [parser/lib.rs:1491-1538] BindState::bind_registered_scalar *)
Definition bind_registered_scalar (expected : option LogicalType) (name : string)
    (arguments : list SqlExpr) : binding (BoundExpr * LogicalType) :=
  '(function, signature, return_type) ← lift (registered_scalar name);
  if negb (length arguments =? length signature)%nat
     || negb (expected_is expected return_type)
  then lift (throw BindError.IncompatibleTypes)
  else
    arguments ← bind_zip (fun argument expected =>
      '(argument, _) ← bind (Some expected) argument; mret argument) arguments signature;
    mret (BoundExpr.ScalarFunction function arguments return_type, return_type).
End parts.

(** ** Projections *)

(* [parser/lib.rs:934-935]! BindState::bind_projection *)
Definition plain_tail (t : FunctionTail) : bool :=
  match filter_clause t, over_clause t with None, None => true | _, _ => false end.

Section projections.
Context `{Dialect} (scopes : list SourceScope).

(** The resource of the innermost scope, which COUNT counts. *)
(* [parser/lib.rs:937-942]! BindState::bind_projection *)
Definition counted_resource : result BindError Z :=
  match last scopes with
  | Some scope => mret (rd_id (sc_resource scope))
  | None => throw BindError.MissingFrom
  end.

(* [parser/lib.rs:1035-1038]! BindState::bind_row_number *)
Definition direction (order : option SortOrder.sort_order) : SortDirection.sort_direction :=
  match order with
  | Some SortOrder.Desc => SortDirection.Descending
  | None | Some SortOrder.Asc => SortDirection.Ascending
  end.

(* [parser/lib.rs:1028-1040]! BindState::bind_row_number *)
Definition bind_window_order (order : SortedColumn) : result BindError BoundOrder :=
  match sc_nulls order with
  | Some _ => unsupported "window NULLS ordering"
  | None =>
      column ← resolve_direct_column scopes (sc_expr order);
      mret {| bo_expression := BoundExpr.Column (bound_column column ColumnUsage.Window);
              bo_direction := direction (sc_order order) |}
  end.

(* [parser/lib.rs:1053-1058]! BindState::bind_row_number *)
Definition orders_resource (resource : Z) (order : BoundOrder) : bool :=
  match direct_column (bo_expression order) with
  | Some column => (column_resource (bc_id column) =? resource)%Z
  | None => false
  end.

(* [parser/lib.rs:995-1067] BindState::bind_row_number *)
Definition bind_row_number (distinctness : option unread) (args : list SqlExpr)
    (argument_order within_group : list SortedColumn) (tail : FunctionTail)
    : result BindError BoundExpr :=
  match distinctness, args, argument_order, within_group, filter_clause tail with
  | None, [], [], [], None =>
      match over_clause tail with
      | Some (OverWindow window) =>
          match window_base window, window_frame_clause window, window_order_by window with
          | None, None, _ :: _ =>
              partition_by ← collect (fun e =>
                column ← resolve_direct_column scopes e;
                mret (bound_column column ColumnUsage.Window)) (window_partition_by window);
              order_by ← collect bind_window_order (window_order_by window);
              first ← ok_or (head order_by) (BindError.Unsupported "window without order");
              column ← ok_or (direct_column (bo_expression first))
                         (BindError.Unsupported "window order expression");
              let resource := column_resource (bc_id column) in
              if existsb (fun column =>
                   negb (column_resource (bc_id column) =? resource)%Z) partition_by
                 || existsb (fun order => negb (orders_resource resource order)) order_by
              then unsupported "multi-resource window"
              else mret (BoundExpr.RowNumber resource partition_by order_by)
          | _, _, _ => unsupported "window shape"
          end
      | _ => unsupported "ROW_NUMBER without inline window"
      end
  | _, _, _, _, _ => unsupported "ROW_NUMBER option"
  end.

(* [parser/lib.rs:962-967]! BindState::bind_projection *)
Definition is_registered (name : string) : bool :=
  bool_decide (canonical name ∈ ["lower"; "upper"; "json_extract"]%string).

(** The expression of a projection, with the name it has without an alias. *)
(* [parser/lib.rs:931-987]! BindState::bind_projection *)
Definition bind_projected (scalar : SqlExpr -> binding (BoundExpr * LogicalType)) (e : SqlExpr)
    (alias : option As) : binding (BoundExpr * string) :=
  let named :=
    output_name ← lift (ok_or (explicit_alias alias) BindError.InvalidResultName);
    '(bound, _) ← scalar e;
    mret (bound, output_name) in
  let column :=
    column ← lift (resolve_direct_column scopes e);
    mret (BoundExpr.Column (bound_column column ColumnUsage.Projection), cd_name column) in
  match e with
  | SqlExpr.FunctionCallStar name filter_over =>
      if eq_ignore_ascii_case (as_str name) "count" && plain_tail filter_over then
        resource ← lift counted_resource;
        mret (BoundExpr.CountAll resource, "count"%string)
      else column
  | SqlExpr.FunctionCall name distinctness args order_by within_group filter_over =>
      if eq_ignore_ascii_case (as_str name) "row_number" then
        bound ← lift (bind_row_number distinctness args order_by within_group filter_over);
        mret (bound, "row_number"%string)
      else if is_registered (as_str name) then
        '(bound, _) ← scalar e;
        mret (bound, canonical (as_str name))
      else column
  | SqlExpr.Case _ _ _ | SqlExpr.Cast _ _ | SqlExpr.Binary _ SqlOperator.Concat _ => named
  | _ => column
  end.

(* [parser/lib.rs:927-993] BindState::bind_projection *)
Definition bind_projection (scalar : SqlExpr -> binding (BoundExpr * LogicalType))
    (result : ResultColumn) : binding BoundProjection :=
  match result with
  | ResultExpr e alias =>
      '(bound, default_name) ← bind_projected scalar e alias;
      name ← lift (map_err (result_name_new (default default_name (explicit_alias alias)))
                     BindError.InvalidResultName);
      mret {| bp_expression := bound; bp_output_name := name |}
  | _ => refuse "star projection"
  end.
End projections.

(** ** Expressions *)

(* [parser/lib.rs:1143-1149]! BindState::bind_boolean *)
Definition like_expression (op : LikeOperator.like_operator)
    : option (BoundExpr -> BoundExpr -> BoundExpr) :=
  match op with
  | LikeOperator.Like => Some BoundExpr.Like
  | LikeOperator.Glob => Some BoundExpr.Glob
  | LikeOperator.Other => None
  end.

(* [parser/lib.rs:1089-1113]! BindState::bind_boolean *)
Definition comparison (op : SqlOperator.sql_operator)
    : option (BoundExpr -> BoundExpr -> BoundExpr) :=
  match op with
  | SqlOperator.Equals => Some BoundExpr.Equal
  | SqlOperator.NotEquals => Some BoundExpr.NotEqual
  | SqlOperator.Less => Some BoundExpr.Less
  | SqlOperator.LessEquals => Some BoundExpr.LessEqual
  | SqlOperator.Greater => Some BoundExpr.Greater
  | SqlOperator.GreaterEquals => Some BoundExpr.GreaterEqual
  | _ => None
  end.

Definition is_null_literal (e : SqlExpr) : bool :=
  match e with SqlExpr.Literal SqlLiteral.Null => true | _ => false end.

(* [parser/lib.rs:1150-1154]! BindState::bind_boolean *)
Definition negate_if (negated : bool) (e : BoundExpr) : BoundExpr :=
  if negated then BoundExpr.Not e else e.

(** [SELECT 1] without an alias: what an EXISTS may return instead of a column. *)
(* [parser/lib.rs:1242-1249]! BindState::bind_exists *)
Definition is_constant_one `{Dialect} (column : ResultColumn) : bool :=
  match column with
  | ResultExpr (SqlExpr.Literal (SqlLiteral.Numeric raw)) alias =>
      String.eqb raw "1" && bool_decide (explicit_alias alias = None)
  | _ => false
  end.
(* [parser/lib.rs:1250-1254]! BindState::bind_exists *)
Definition exists_value : result BindError BoundProjection :=
  name ← map_err (result_name_new "exists_value") BindError.InvalidResultName;
  mret {| bp_expression := BoundExpr.Literal (LogicalValue.Int64 1); bp_output_name := name |}.

(* [parser/lib.rs:1240-1265]! BindState::bind_exists *)
Definition bind_exists_columns `{Dialect} (scopes : list SourceScope)
    (scalar : SqlExpr -> binding (BoundExpr * LogicalType)) (columns : list ResultColumn)
    : binding (list BoundProjection) :=
  match columns with
  | [(Star | TableStar)] => refuse "subquery projection"
  | [column] =>
      if is_constant_one column then projection ← lift exists_value; mret [projection]
      else projection ← bind_projection scopes scalar column; mret [projection]
  | _ => bind_all (bind_projection scopes scalar) columns
  end.

(* [parser/lib.rs:1329-1352]! BindState::bind_scalar *)
Definition bind_parameter (limits : BindingLimits) (expected : option LogicalType)
    (variable : SqlVariable) : binding (BoundExpr * LogicalType) := fun t =>
  name ← ok_or (var_name variable) BindError.PositionalParameter;
  name ← ok_or (strip_prefix ":" name) BindError.UnsupportedParameterPrefix;
  name ← match client_parameter_name_new name with
         | inl name => mret name
         | inr CoreError.ReservedParameterNamespace => throw BindError.ReservedParameterNamespace
         | inr _ => throw BindError.InvalidParameterName
         end;
  logical_type ← ok_or expected BindError.UnprovableParameterType;
  let parameters := {[ name ]} ∪ tr_parameters t in
  if (max_parameters limits <? Z.of_nat (size parameters))%Z
  then throw BindError.ParameterLimit
  else
    inl ((BoundExpr.ClientParameter name logical_type, logical_type),
         {| tr_parameters := parameters; tr_string_literals := tr_string_literals t |}).

(* [parser/lib.rs:1355-1362]! BindState::bind_scalar *)
Definition add_string_literal (literal : SqlLiteral.sql_literal) (bound : BoundExpr)
    : binding unit := fun t =>
  match literal, bound with
  | SqlLiteral.String token, BoundExpr.Literal (LogicalValue.String value) =>
      inl ((), {| tr_parameters := tr_parameters t;
                  tr_string_literals :=
                    tr_string_literals t ++ [{| csl_token := token; csl_value := value |}] |})
  | _, _ => inl ((), t)
  end.

Section expressions.
Context `{Dialect} (limits : BindingLimits) (catalog : Catalog).

(* [parser/lib.rs:1588-1594] BindState::check_depth *)
Definition check_depth (depth : Z) : binding unit :=
  lift (require (negb (max_expression_depth limits <? depth)%Z) BindError.ExpressionDepth).

(* [parser/lib.rs:1069-1162] BindState::bind_boolean *)
Fixpoint bind_boolean (scopes : list SourceScope) (usage : ColumnUsage.column_usage) (depth : Z)
    (e : SqlExpr) {struct e} : binding BoundExpr :=
  let scalar expected e := bind_scalar scopes usage expected (depth + 1) e in
  let boolean e := bind_boolean scopes usage (depth + 1) e in
  check_depth depth;;
  match e with
  | SqlExpr.Binary l op r =>
      match op, comparison op with
      | (SqlOperator.Is | SqlOperator.IsNot), _ =>
          if is_null_literal r then
            '(l, _) ← scalar None l;
            mret (negate_if (match op with SqlOperator.IsNot => true | _ => false end)
                    (BoundExpr.IsNull l))
          else refuse "boolean expression"
      | SqlOperator.And, _ => l ← boolean l; r ← boolean r; mret (BoundExpr.And l r)
      | SqlOperator.Or, _ => l ← boolean l; r ← boolean r; mret (BoundExpr.Or l r)
      | _, Some compared => '(l, r) ← bind_comparison scalar l r; mret (compared l r)
      | _, None => refuse "boolean expression"
      end
  | SqlExpr.Unary UnaryOperator.Not inner => inner ← boolean inner; mret (BoundExpr.Not inner)
  | SqlExpr.IsNull inner => '(inner, _) ← scalar None inner; mret (BoundExpr.IsNull inner)
  | SqlExpr.NotNull inner =>
      '(inner, _) ← scalar None inner; mret (BoundExpr.Not (BoundExpr.IsNull inner))
  | SqlExpr.InList lhs negated rhs =>
      match rhs with
      | [] => refuse "boolean expression"
      | _ => bind_in_list scalar lhs negated rhs
      end
  | SqlExpr.Like lhs negated op rhs escape =>
      match escape, like_expression op with
      | None, Some like =>
          '(l, r) ← bind_comparison scalar lhs rhs; mret (negate_if negated (like l r))
      | _, _ => refuse "boolean expression"
      end
  | SqlExpr.Parenthesized [item] => boolean item
  | SqlExpr.Exists select => bind_exists scopes (depth + 1) select
  | _ => refuse "boolean expression"
  end
(* [parser/lib.rs:1309-1415] BindState::bind_scalar *)
with bind_scalar (scopes : list SourceScope) (usage : ColumnUsage.column_usage)
    (expected : option LogicalType) (depth : Z) (e : SqlExpr) {struct e}
    : binding (BoundExpr * LogicalType) :=
  let scalar expected e := bind_scalar scopes usage expected (depth + 1) e in
  check_depth depth;;
  match e with
  | SqlExpr.Id _ | SqlExpr.Name _ | SqlExpr.Qualified _ _ =>
      column ← lift (resolve_direct_column scopes e);
      let logical_type := vd_logical_type (cd_value column) in
      if expected_is expected logical_type
      then mret (BoundExpr.Column (bound_column column usage), logical_type)
      else lift (throw BindError.IncompatibleTypes)
  | SqlExpr.VariableExpr variable => bind_parameter limits expected variable
  | SqlExpr.Literal literal =>
      '(bound, logical_type) ← lift (bind_literal literal expected);
      add_string_literal literal bound;;
      mret (bound, logical_type)
  | SqlExpr.FunctionCallStar name filter_over =>
      if eq_ignore_ascii_case (as_str name) "count" && plain_tail filter_over then
        resource ← lift (counted_resource scopes);
        mret (BoundExpr.CountAll resource, LogicalType.Int64)
      else refuse "scalar expression"
  | SqlExpr.FunctionCall name None args [] [] filter_over =>
      if plain_tail filter_over
      then bind_registered_scalar scalar expected (as_str name) args
      else refuse "scalar expression"
  | SqlExpr.Parenthesized [item] => scalar expected item
  | SqlExpr.Binary l SqlOperator.Concat r => bind_concat scalar expected l r
  | SqlExpr.Cast inner type => bind_cast_text scalar expected type inner
  | SqlExpr.Case None pairs otherwise =>
      match pairs with
      | [] => refuse "scalar expression"
      | _ =>
          bind_case scalar (fun e => bind_boolean scopes usage (depth + 1) e) expected pairs
            otherwise
      end
  | _ => refuse "scalar expression"
  end
(* [parser/lib.rs:1196-1284] BindState::bind_exists *)
with bind_exists (scopes : list SourceScope) (depth : Z) (select : SqlSelect) {struct select}
    : binding BoundExpr :=
  check_depth depth;;
  match select with
  | SqlExpr.Build_Select None body [] [] None =>
      match body with
      | SqlExpr.OneSelect None columns from where_clause None [] =>
          match from with
          | None => lift (throw BindError.MissingFrom)
          | Some (SqlExpr.Build_From table (_ :: _)) => refuse "subquery JOIN"
          | Some (SqlExpr.Build_From table []) =>
              source ← lift (bind_source catalog table);
              if existsb (fun scope =>
                   (rd_id (sc_resource scope) =? rd_id (sc_resource source))%Z) scopes
              then refuse "same-resource correlation"
              else
                let nested := scopes ++ [source] in
                projections ←
                  bind_exists_columns nested
                    (fun e => bind_scalar nested ColumnUsage.Projection None 0 e) columns;
                lift (ensure_unique_result_names projections);;
                predicate ←
                  bind_option (fun e => bind_boolean nested ColumnUsage.Filter (depth + 1) e)
                    where_clause;
                mret (BoundExpr.Exists
                  {| bs_resource := rd_id (sc_resource source); bs_alias := sc_alias source;
                     bs_joins := []; bs_projections := projections; bs_predicate := predicate;
                     bs_group_by := []; bs_having := None; bs_order_by := []; bs_limit := None;
                     bs_offset := None |})
          end
      | SqlExpr.OneSelect _ _ _ _ _ _ => refuse "subquery shape"
      | SqlExpr.Values _ => refuse "subquery VALUES"
      end
  | _ => refuse "subquery option"
  end.
End expressions.
