(* ===== verification/Binder.v ===== *)
(** * Binding statements

    The crate [policysql-parser] (lib.rs), its second part: selects with their sources and joins,
    JSON collections, mutations, and the document of a bound statement. *)

From S2P Require Import Prelude Result F64 Utf8 Core Catalog Ir SqlAst Binding.

(** ** Text *)

Definition utf8_len (c : Z) : Z :=
  if (c <? 128)%Z then 1 else if (c <? 2048)%Z then 2 else if (c <? 65536)%Z then 3 else 4.

(** The bytes of the white space a text starts with. *)
Fixpoint white_bytes (cs : list Z) : Z :=
  match cs with
  | c :: cs => if is_whitespace c then utf8_len c + white_bytes cs else 0
  | [] => 0
  end.

(* [parser/lib.rs:42-46] SourceSpan *)
Record SourceSpan := { span_start : Z; span_end : Z }.

(* [parser/lib.rs:148-151]! SqliteFrontend::bind_document *)
Definition source_span (sql : string) : SourceSpan :=
  {| span_start := white_bytes (chars_of sql);
     span_end := len sql - white_bytes (rev (chars_of sql)) |}.

(* [parser/lib.rs:48-55] BoundDocument *)
Record BoundDocument := {
  doc_statement : BoundStatement;
  doc_source_span : SourceSpan;
  doc_parameters : gset string;
  doc_string_literals : list ClientStringLiteral
}.

Section binder.
Context `{Dialect} (limits : BindingLimits) (catalog : Catalog).

Abbreviation scalar scopes usage expected := (bind_scalar limits catalog scopes usage expected 0).
Abbreviation boolean scopes usage := (bind_boolean limits catalog scopes usage 0).

(** ** Joins *)

(* [parser/lib.rs:852-861]! bind_joins *)
Definition join_kind (operator : JoinOperator.join_operator) : result BindError JoinKind.join_kind :=
  match operator with
  | JoinOperator.TypedJoin (None | Some JoinType.INNER) => mret JoinKind.Inner
  | JoinOperator.TypedJoin (Some (JoinType.LEFT | JoinType.LEFT_OUTER)) => mret JoinKind.Left
  | _ => unsupported "JOIN type"
  end.

(** The joins in turn, each in the scopes before it and its own; with the scopes after them. *)
(* [parser/lib.rs:845-895] bind_joins *)
Fixpoint bind_joins (scopes : list SourceScope) (joins : list SqlExpr.joined_select_table)
    : binding (list BoundJoin * list SourceScope) :=
  match joins with
  | [] => mret ([], scopes)
  | SqlExpr.Build_Joined operator table constraint :: joins =>
      kind ← lift (join_kind operator);
      joined ← lift (bind_source catalog table);
      if existsb (fun scope =>
           (rd_id (sc_resource scope) =? rd_id (sc_resource joined))%Z) scopes
      then refuse "self JOIN"
      else if existsb (fun scope =>
           eq_ignore_ascii_case (sc_qualifier scope) (sc_qualifier joined)) scopes
      then lift (throw BindError.DuplicateAlias)
      else
        let scopes := scopes ++ [joined] in
        on ← match constraint with
             | None => refuse "JOIN without ON"
             | Some Using => refuse "JOIN constraint"
             | Some (On on) => boolean scopes ColumnUsage.Join on
             end;
        '(bound, scopes) ← bind_joins scopes joins;
        mret ({| bj_resource := rd_id (sc_resource joined); bj_alias := sc_alias joined;
                 bj_kind := kind; bj_on := on |} :: bound, scopes)
  end.

(** ** Derived tables *)

(** The columns of a derived table by the names it returns them under. *)
(* [parser/lib.rs:774-788]! SqliteFrontend::bind_derived_source *)
Definition derived_column (resource : ResourceDescriptor)
    (columns : gmap string ColumnDescriptor) (projection : BoundProjection)
    : result BindError (gmap string ColumnDescriptor) :=
  match bp_expression projection with
  | BoundExpr.Column column =>
      descriptor ← ok_or (column_by_id resource (bc_id column)) BindError.UnknownColumn;
      let name := canonical (bp_output_name projection) in
      match columns !! name with
      | Some _ => throw BindError.DuplicateResultName
      | None => mret (<[name := descriptor]> columns)
      end
  | _ => unsupported "derived expression"
  end.

(* [parser/lib.rs:761-769]! SqliteFrontend::bind_derived_source *)
Definition is_transparent (inner : BoundSelect) : bool :=
  match bs_joins inner, bs_order_by inner, bs_limit inner, bs_offset inner, bs_group_by inner,
        bs_having inner with
  | [], [], None, None, [], None => true
  | _, _, _, _, _, _ => false
  end.

(** What a select reads from, the predicate of a derived table, and what binding it added. *)
Abbreviation Root := (SourceScope * option BoundExpr * BindTrace)%type.

Section sources.
Context (bind_select : SqlSelect -> result BindError (BoundSelect * BindTrace)).

(* [parser/lib.rs:754-799] SqliteFrontend::bind_derived_source *)
Definition bind_derived_source (inner : SqlSelect) (alias : string) : result BindError Root :=
  '(inner, trace) ← bind_select inner;
  if negb (is_transparent inner) then unsupported "non-transparent derived table"
  else
    resource ← ok_or (resource_by_id catalog (bs_resource inner)) BindError.UnknownResource;
    columns ← for_fold (derived_column resource) ∅ (bs_projections inner);
    mret ({| sc_resource := resource; sc_alias := Some (canonical alias);
             sc_qualifier := canonical alias; sc_columns := columns |},
          bs_predicate inner, trace).

(* [parser/lib.rs:707-752] SqliteFrontend::bind_root_source *)
Definition bind_root_source (with_clause : option SqlExpr.sql_with) (table : SelectTable)
    : result BindError Root :=
  match table, with_clause with
  | SqlExpr.Table name alias indexed,
    Some (SqlExpr.Build_With recursive [SqlExpr.Build_Cte tbl_name columns any select]) =>
      if negb (eq_ignore_ascii_case (as_str tbl_name) (as_str (qn_name name)))
      then unsupported "table source"
      else
        match qn_db_name name, indexed with
        | None, None =>
            if bool_decide (is_Some (resource catalog (as_str tbl_name)))
            then unsupported "CTE shadows protected resource"
            else if recursive || match columns with [] => false | _ => true end || negb any
            then unsupported "CTE options"
            else bind_derived_source select (default (as_str tbl_name) (explicit_alias alias))
        | _, _ => unsupported "CTE qualifier"
        end
  | SqlExpr.Table _ _ _, None =>
      source ← bind_source catalog table;
      mret (source, None, no_trace)
  | SqlExpr.SubSelect inner alias, None =>
      alias ← ok_or (explicit_alias alias)
                (BindError.Unsupported "derived table without alias");
      bind_derived_source inner alias
  | _, _ => unsupported "table source"
  end.
End sources.

(** ** Selects *)

(* [parser/lib.rs:1540-1554] BindState::bind_limit *)
Definition bind_limit (scopes : list SourceScope) (e : SqlExpr) : binding BoundExpr :=
  match e with
  | SqlExpr.Literal (SqlLiteral.Numeric value) =>
      value ← lift (ok_or (parse_i64 value) BindError.InvalidLimit);
      if (value <? 0)%Z then lift (throw BindError.InvalidLimit)
      else mret (BoundExpr.Literal (LogicalValue.Int64 value))
  | SqlExpr.VariableExpr _ =>
      '(bound, _) ← scalar scopes ColumnUsage.Filter (Some LogicalType.Int64) e; mret bound
  | _ => lift (throw BindError.InvalidLimit)
  end.

(* [parser/lib.rs:614-620]! SqliteFrontend::bind_select *)
Definition and_inherited (inherited predicate : option BoundExpr) : option BoundExpr :=
  match inherited, predicate with
  | Some inherited, Some outer => Some (BoundExpr.And inherited outer)
  | Some inherited, None => Some inherited
  | None, outer => outer
  end.

(* [parser/lib.rs:621-642]! SqliteFrontend::bind_select *)
Definition bind_group_by (scopes : list SourceScope) (group_by : option (GroupByOf SqlExpr))
    : binding (list BoundColumn * option BoundExpr) :=
  match group_by with
  | None => mret ([], None)
  | Some group =>
      match gb_exprs group with
      | [] => refuse "empty GROUP BY"
      | exprs =>
          columns ← lift (collect (fun e =>
            column ← resolve_direct_column scopes e;
            mret (bound_column column ColumnUsage.Group)) exprs);
          having ← bind_option (boolean scopes ColumnUsage.Having) (gb_having group);
          mret (columns, having)
      end
  end.

(** The projection that a name in ORDER BY stands for when it is no column. *)
(* [parser/lib.rs:652-664]! SqliteFrontend::bind_select *)
Definition named_projection (projections : list BoundProjection) (e : SqlExpr)
    : result BindError BoundExpr :=
  match e with
  | SqlExpr.Id name | SqlExpr.Name name =>
      projection ← ok_or (List.find (fun projection =>
          eq_ignore_ascii_case (bp_output_name projection) (as_str name)) projections)
        BindError.UnknownColumn;
      mret (bp_expression projection)
  | _ => throw BindError.UnknownColumn
  end.

(* [parser/lib.rs:643-675]! SqliteFrontend::bind_select *)
Definition bind_order (scopes : list SourceScope) (projections : list BoundProjection)
    (order : SortedColumn) : result BindError BoundOrder :=
  match sc_nulls order with
  | Some _ => unsupported "NULLS ordering"
  | None =>
      e ← match resolve_direct_column scopes (sc_expr order) with
          | inl column => mret (BoundExpr.Column (bound_column column ColumnUsage.Order))
          | inr BindError.UnknownColumn => named_projection projections (sc_expr order)
          | inr error => throw error
          end;
      mret {| bo_expression := e; bo_direction := direction (sc_order order) |}
  end.

(** The select once its scope is known. *)
(* [parser/lib.rs:597-705]! SqliteFrontend::bind_select *)
Definition bind_body (root : SourceScope) (inherited_predicate : option BoundExpr)
    (columns : list ResultColumn) (joins : list SqlExpr.joined_select_table)
    (where_clause : option SqlExpr) (group_by : option (GroupByOf SqlExpr))
    (order_by : list SortedColumn) (limit : option SqlLimit) : binding BoundSelect :=
  '(joins, scopes) ← bind_joins [root] joins;
  projections ←
    bind_all (bind_projection scopes (scalar scopes ColumnUsage.Projection None)) columns;
  lift (ensure_unique_result_names projections);;
  predicate ← bind_option (boolean scopes ColumnUsage.Filter) where_clause;
  '(group_by, having) ← bind_group_by scopes group_by;
  order_by ← lift (collect (bind_order scopes projections) order_by);
  limit_expr ← bind_option (fun limit => bind_limit scopes (limit_expr limit)) limit;
  offset ← bind_option (bind_limit scopes) (limit ← limit; limit_offset limit);
  mret {| bs_resource := rd_id (sc_resource root); bs_alias := sc_alias root; bs_joins := joins;
          bs_projections := projections;
          bs_predicate := and_inherited inherited_predicate predicate;
          bs_group_by := group_by; bs_having := having; bs_order_by := order_by;
          bs_limit := limit_expr; bs_offset := offset |}.

(* [parser/lib.rs:559-705] SqliteFrontend::bind_select *)
Fixpoint bind_select (select : SqlSelect) {struct select}
    : result BindError (BoundSelect * BindTrace) :=
  let '(SqlExpr.Build_Select with_clause body compounds order_by limit) := select in
  match compounds, body with
  | _ :: _, _ => unsupported "compound SELECT"
  | [], SqlExpr.Values _ => unsupported "VALUES"
  | [], SqlExpr.OneSelect (Some _) _ _ _ _ _ => unsupported "DISTINCT or ALL"
  | [], SqlExpr.OneSelect None _ _ _ _ (_ :: _) => unsupported "WINDOW"
  | [], SqlExpr.OneSelect None columns from where_clause group_by [] =>
      match from with
      | None => throw BindError.MissingFrom
      | Some (SqlExpr.Build_From table joins) =>
          if (max_joins limits <? Z.of_nat (length joins))%Z then throw BindError.JoinLimit
          else
            '(root, inherited_predicate, inherited_trace) ←
              bind_root_source bind_select with_clause table;
            if match columns with [] => true | _ => false end
               || (max_projections limits <? Z.of_nat (length columns))%Z
            then throw BindError.ProjectionLimit
            else
              bind_body root inherited_predicate columns joins where_clause group_by order_by
                limit inherited_trace
      end
  end.

(** ** Constants and JSON collections *)

(* [parser/lib.rs:188-204]! SqliteFrontend::bind_constant_select *)
Definition bind_constant (column : ResultColumn) : result BindError BoundProjection :=
  match column with
  | ResultExpr (SqlExpr.Literal (SqlLiteral.Numeric raw)) alias =>
      '(bound, _) ← bind_literal (SqlLiteral.Numeric raw) None;
      name ← map_err (result_name_new (default raw (explicit_alias alias)))
               BindError.InvalidResultName;
      mret {| bp_expression := bound; bp_output_name := name |}
  | ResultExpr _ _ => unsupported "constant expression"
  | _ => unsupported "constant star"
  end.

(* [parser/lib.rs:160-208] SqliteFrontend::bind_constant_select *)
Definition bind_constant_select (select : SqlSelect) : result BindError BoundConstantSelect :=
  match select with
  | SqlExpr.Build_Select None body [] [] None =>
      match body with
      | SqlExpr.OneSelect None columns None None None [] =>
          if match columns with [] => true | _ => false end
             || (max_projections limits <? Z.of_nat (length columns))%Z
          then unsupported "constant SELECT option"
          else
            projections ← collect bind_constant columns;
            _ ← ensure_unique_result_names projections;
            mret {| bcs_projections := projections |}
      | SqlExpr.OneSelect _ _ None _ _ _ => unsupported "constant SELECT option"
      | _ => unsupported "constant SELECT"
      end
  | _ => unsupported "constant SELECT option"
  end.

(* [parser/lib.rs:256-263]! SqliteFrontend::bind_json_collection_select *)
Definition json_table (name : QualifiedName) (arguments : list SqlExpr)
    : result BindError (SqlExpr * SqlExpr * bool) :=
  match qn_db_name name, arguments with
  | None, [document; path] =>
      let name := canonical (as_str (qn_name name)) in
      if String.eqb name "json_each" then mret (document, path, false)
      else if String.eqb name "json_tree" then mret (document, path, true)
      else unsupported "table function"
  | _, _ => unsupported "JSON table arguments"
  end.

(** [json_group_array(alias.value)]. *)
(* [parser/lib.rs:296-321]! SqliteFrontend::bind_json_collection_select *)
Definition check_json_aggregate (table_alias : string) (e : SqlExpr) : result BindError unit :=
  match e with
  | SqlExpr.FunctionCall name None args order_by within_group filter_over =>
      let values_of_table :=
        match args with
        | [SqlExpr.Qualified source column] =>
            eq_ignore_ascii_case (as_str source) table_alias
            && eq_ignore_ascii_case (as_str column) "value"
        | _ => false
        end in
      let unordered := match order_by, within_group with [], [] => true | _, _ => false end in
      require (eq_ignore_ascii_case (as_str name) "json_group_array" && unordered
               && plain_tail filter_over && values_of_table)
        (BindError.Unsupported "JSON collection aggregate")
  | _ => unsupported "JSON collection aggregate"
  end.

(* [parser/lib.rs:272-292]! SqliteFrontend::bind_json_collection_select *)
Definition bind_json_arguments (scopes : list SourceScope) (document path : SqlExpr)
    : binding (BoundColumn * BoundExpr) :=
  '(document, document_type) ←
    scalar scopes ColumnUsage.Aggregate (Some LogicalType.Json) document;
  match document with
  | BoundExpr.Column document =>
      lift (require (bool_decide (document_type = LogicalType.Json)) BindError.IncompatibleTypes);;
      '(path, path_type) ← scalar scopes ColumnUsage.Aggregate (Some LogicalType.String) path;
      lift (require (bool_decide (path_type = LogicalType.String)) BindError.IncompatibleTypes);;
      mret (document, path)
  | _ => refuse "JSON document provenance"
  end.

(* [parser/lib.rs:242-265]! SqliteFrontend::bind_json_collection_select *)
Definition json_source (from : FromClause)
    : result BindError (SourceScope * (SqlExpr * SqlExpr * bool) * string) :=
  match from with
  | SqlExpr.Build_From table [SqlExpr.Build_Joined operator joined constraint] =>
      root ← bind_source catalog table;
      _ ← require match operator, constraint with
                  | (JoinOperator.Comma | JoinOperator.TypedJoin None), None => true
                  | _, _ => false
                  end (BindError.Unsupported "JSON table join");
      match joined with
      | SqlExpr.TableCall name arguments alias =>
          called ← json_table name arguments;
          alias ← ok_or (explicit_alias alias) (BindError.Unsupported "JSON table alias");
          mret (root, called, alias)
      | _ => unsupported "JSON table source"
      end
  | _ => unsupported "JSON collection shape"
  end.

(** The collection, once its shape is known. *)
(* [parser/lib.rs:242-340]! SqliteFrontend::bind_json_collection_select *)
Definition bind_json_body (from : FromClause) (column : ResultColumn)
    (where_clause : option SqlExpr) : binding BoundJsonCollectionSelect :=
  '(root, (document, path, recursive), table_alias) ← lift (json_source from);
  '(document, path) ← bind_json_arguments [root] document path;
  match column with
  | ResultExpr e output_alias =>
      lift (check_json_aggregate table_alias e);;
      name ← lift (ok_or (explicit_alias output_alias) BindError.InvalidResultName);
      name ← lift (map_err (result_name_new name) BindError.InvalidResultName);
      predicate ← bind_option (boolean [root] ColumnUsage.Filter) where_clause;
      mret {| bjc_resource := rd_id (sc_resource root); bjc_alias := sc_alias root;
              bjc_document := document; bjc_path := path; bjc_recursive := recursive;
              bjc_output_name := name; bjc_predicate := predicate |}
  | _ => refuse "JSON collection projection"
  end.

(* [parser/lib.rs:210-341] SqliteFrontend::bind_json_collection_select *)
Definition bind_json_collection_select (select : SqlSelect)
    : binding BoundJsonCollectionSelect :=
  match select with
  | SqlExpr.Build_Select None body [] [] None =>
      match body with
      | SqlExpr.OneSelect None [column] (Some from) where_clause None [] =>
          bind_json_body from column where_clause
      | SqlExpr.OneSelect _ _ (Some _) _ _ _ => refuse "JSON collection shape"
      | _ => refuse "JSON collection"
      end
  | _ => refuse "JSON collection option"
  end.

(* [parser/lib.rs:1682-1694] has_json_table_call *)
Definition has_json_table_call (select : SqlSelect) : bool :=
  match select with
  | SqlExpr.Build_Select _ (SqlExpr.OneSelect _ _ (Some (SqlExpr.Build_From _ joins)) _ _ _) _ _
      _ =>
      existsb (fun '(SqlExpr.Build_Joined _ table _) =>
        match table with
        | SqlExpr.TableCall name _ _ =>
            bool_decide (canonical (as_str (qn_name name)) ∈ ["json_each"; "json_tree"]%string)
        | _ => false
        end) joins
  | _ => false
  end.

(** ** Mutations *)

(* [parser/lib.rs:905-925] BindState::bind_returning *)
Definition bind_returning (scopes : list SourceScope) (returning : list ResultColumn)
    : result BindError (list BoundProjection) :=
  output ← collect (fun column =>
    match column with
    | ResultExpr e alias =>
        column ← resolve_direct_column scopes e;
        name ← map_err (result_name_new (default (cd_name column) (explicit_alias alias)))
                 BindError.InvalidResultName;
        mret {| bp_expression := BoundExpr.Column (bound_column column ColumnUsage.Returning);
                bp_output_name := name |}
    | _ => unsupported "RETURNING star"
    end) returning;
  _ ← ensure_unique_result_names output;
  mret output.

(* [parser/lib.rs:437-442]! SqliteFrontend::bind_update *)
Definition is_value (e : BoundExpr) : bool :=
  match e with BoundExpr.ClientParameter _ _ | BoundExpr.Literal _ => true | _ => false end.

(** A written value has the type of its column, and is a parameter or a literal. *)
(* [parser/lib.rs:428-446]! SqliteFrontend::bind_update *)
Definition bind_assignment (scopes : list SourceScope) (shape : string) (e : SqlExpr)
    (column : ColumnDescriptor) : binding BoundAssignment :=
  let expected := vd_logical_type (cd_value column) in
  '(value, logical_type) ← scalar scopes ColumnUsage.Write (Some expected) e;
  if negb (bool_decide (logical_type = expected))
  then lift (throw BindError.IncompatibleTypes)
  else if negb (is_value value) then refuse shape
  else mret {| ba_column := bound_column column ColumnUsage.Write; ba_value := value |}.

(** A column is written once. *)
(* [parser/lib.rs:422-427]! SqliteFrontend::bind_update *)
Definition written_column (resource : ResourceDescriptor) (seen : list ColumnId) (name : SqlName)
    : result BindError ColumnDescriptor :=
  column ← ok_or (column resource (as_str name)) BindError.UnknownColumn;
  if bool_decide (cd_id column ∈ seen) then throw BindError.DuplicateWriteColumn
  else mret column.

(* [parser/lib.rs:343-385] SqliteFrontend::bind_delete *)
Definition bind_delete (with_clause : option unread) (table : QualifiedName)
    (indexed : option unread) (predicate : option SqlExpr) (returning : list ResultColumn)
    (order_by : list SortedColumn) (limit : option SqlLimit) : binding BoundStatement :=
  match with_clause, qn_db_name table, indexed, order_by, limit with
  | None, None, None, [], None =>
      resource ← lift (ok_or (resource catalog (as_str (qn_name table))) BindError.UnknownResource);
      root ← lift (bind_source catalog (SqlExpr.Table table None None));
      predicate ← bind_option (boolean [root] ColumnUsage.Mutation) predicate;
      returning ← lift (bind_returning [root] returning);
      mret (BoundStatement.Delete
        {| bd_resource := rd_id resource; bd_predicate := predicate; bd_returning := returning |})
  | _, _, _, _, _ => refuse "DELETE option"
  end.

(* [parser/lib.rs:417-447]! SqliteFrontend::bind_update *)
Fixpoint bind_sets (resource : ResourceDescriptor) (scopes : list SourceScope)
    (seen : list ColumnId) (sets : list SqlSet) : binding (list BoundAssignment) :=
  match sets with
  | [] => mret []
  | set :: sets =>
      match set_col_names set with
      | [name] =>
          column ← lift (written_column resource seen name);
          assignment ← bind_assignment scopes "UPDATE assignment expression" (set_expr set) column;
          assignments ← bind_sets resource scopes (cd_id column :: seen) sets;
          mret (assignment :: assignments)
      | _ => refuse "row-value UPDATE"
      end
  end.

(* [parser/lib.rs:387-463] SqliteFrontend::bind_update *)
Definition bind_update (update : SqlUpdate) : binding BoundStatement :=
  match upd_with update, upd_or_conflict update, qn_db_name (upd_tbl_name update),
        upd_indexed update, upd_from update, upd_order_by update, upd_limit update,
        upd_sets update with
  | None, None, None, None, None, [], None, _ :: _ =>
      resource ← lift (ok_or (resource catalog (as_str (qn_name (upd_tbl_name update))))
                         BindError.UnknownResource);
      root ← lift (bind_source catalog (SqlExpr.Table (upd_tbl_name update) None None));
      assignments ← bind_sets resource [root] [] (upd_sets update);
      predicate ← bind_option (boolean [root] ColumnUsage.Mutation) (upd_where_clause update);
      returning ← lift (bind_returning [root] (upd_returning update));
      mret (BoundStatement.Update
        {| bu_resource := rd_id resource; bu_assignments := assignments;
           bu_predicate := predicate; bu_returning := returning |})
  | _, _, _, _, _, _, _, _ => refuse "UPDATE option"
  end.

(* [parser/lib.rs:485-495]! SqliteFrontend::bind_insert *)
Fixpoint written_columns (resource : ResourceDescriptor) (seen : list ColumnId)
    (columns : list SqlName) : result BindError (list ColumnDescriptor) :=
  match columns with
  | [] => mret []
  | name :: columns =>
      column ← written_column resource seen name;
      descriptors ← written_columns resource (cd_id column :: seen) columns;
      mret (column :: descriptors)
  end.

(* [parser/lib.rs:496-511]! SqliteFrontend::bind_insert *)
Definition insert_values (body : InsertBody.insert_body) : result BindError (list (list SqlExpr)) :=
  match body with
  | InsertBody.Select (SqlExpr.Build_Select None (SqlExpr.Values values) [] [] None) None =>
      match values with [] => unsupported "empty VALUES" | _ => mret values end
  | InsertBody.Select _ None => unsupported "INSERT SELECT"
  | _ => unsupported "INSERT body"
  end.

(* [parser/lib.rs:520-550]! SqliteFrontend::bind_insert *)
Definition bind_row (scopes : list SourceScope) (descriptors : list ColumnDescriptor)
    (values : list SqlExpr) : binding (list BoundAssignment) :=
  if negb (length values =? length descriptors)%nat then lift (throw BindError.InsertArity)
  else bind_zip (bind_assignment scopes "INSERT value expression") values descriptors.

(* [parser/lib.rs:465-557] SqliteFrontend::bind_insert *)
Definition bind_insert (with_clause or_conflict : option unread) (table : QualifiedName)
    (columns : list SqlName) (body : InsertBody.insert_body) (returning : list ResultColumn)
    : binding BoundStatement :=
  match with_clause, or_conflict, qn_db_name table with
  | None, None, None =>
      lift (require (match columns with [] => false | _ => true end)
              (BindError.Unsupported "INSERT columns"));;
      resource ← lift (ok_or (resource catalog (as_str (qn_name table))) BindError.UnknownResource);
      descriptors ← lift (written_columns resource [] columns);
      values ← lift (insert_values body);
      root ← lift (bind_source catalog (SqlExpr.Table table None None));
      rows ← bind_all (bind_row [root] descriptors) values;
      returning ← lift (bind_returning [root] returning);
      mret (BoundStatement.Insert
        {| bi_resource := rd_id resource; bi_rows := rows; bi_returning := returning |})
  | _, _, _ => refuse "INSERT option"
  end.

(** ** Documents *)

(* [parser/lib.rs:103-147]! SqliteFrontend::bind_document *)
Definition bind_statement (statement : Stmt) : result BindError (BoundStatement * BindTrace) :=
  match statement with
  | Stmt.Select select =>
      if has_json_table_call select then
        '(select, trace) ← bind_json_collection_select select no_trace;
        mret (BoundStatement.JsonCollectionSelect select, trace)
      else
        match select with
        | SqlExpr.Build_Select _ (SqlExpr.OneSelect _ _ None _ _ _) _ _ _ =>
            select ← bind_constant_select select;
            mret (BoundStatement.ConstantSelect select, no_trace)
        | _ =>
            '(select, trace) ← bind_select select;
            mret (BoundStatement.Select select, trace)
        end
  | Stmt.Insert with_clause or_conflict tbl_name columns body returning =>
      bind_insert with_clause or_conflict tbl_name columns body returning no_trace
  | Stmt.Delete with_clause tbl_name indexed where_clause returning order_by limit =>
      bind_delete with_clause tbl_name indexed where_clause returning order_by limit no_trace
  | Stmt.Update update => bind_update update no_trace
  | Stmt.Other => unsupported "statement"
  end.

(* [parser/lib.rs:80-158] SqliteFrontend::bind_document *)
Definition bind_document (sql : string) : result BindError BoundDocument :=
  if forallb is_whitespace (chars_of sql) then throw BindError.Empty
  else
    parsed ← ok_or (parse_commands sql) BindError.InvalidSql;
    match parsed with
    | [Cmd.Stmt statement] =>
        '(statement, trace) ← bind_statement statement;
        mret {| doc_statement := statement; doc_source_span := source_span sql;
                doc_parameters := tr_parameters trace;
                doc_string_literals := tr_string_literals trace |}
    | [_] => unsupported "EXPLAIN"
    | _ => throw BindError.MultipleStatements
    end.

(* [parser/lib.rs:70-78] SqliteFrontend::bind *)
Definition bind (sql : string) : result BindError BoundStatement :=
  document ← bind_document sql;
  mret (doc_statement document).
End binder.
