(* ===== verification/Complexity.v ===== *)
(** * The complexity of a statement

    The crate [policysql-sqlite] (complexity.rs): the height and the recursion depth of the
    expressions of a syntax tree, as the parser counts them, the widest list of result columns and
    the parameters that are patterns. *)

From S2P Require Import Prelude Result SqlAst.

(* [sqlite/complexity.rs:33-34] MAX_RESULT_COLUMNS *)
Definition MAX_RESULT_COLUMNS : Z := 2000.
(* [sqlite/complexity.rs:35-36] MAX_HOST_PARAMETERS *)
Definition MAX_HOST_PARAMETERS : Z := 32766.
(* [sqlite/complexity.rs:37-38] MAX_LIKE_PATTERN_BYTES *)
Definition MAX_LIKE_PATTERN_BYTES : Z := 50000.

(* [sqlite/complexity.rs:44-56] Measure *)
Record Measure := {
  ms_height : Z;
  ms_recursion : Z;
  ms_columns : Z;
  ms_pattern_variables : list string
}.
Definition no_measure : Measure :=
  {| ms_height := 0; ms_recursion := 0; ms_columns := 0; ms_pattern_variables := [] |}.

(* [sqlite/complexity.rs:31-32] MAX_PARSER_DEPTH *)
Definition MAX_PARSER_DEPTH `{Dialect} : Z := MAX_EXPR_DEPTH.

(* [sqlite/complexity.rs:59-63] Measure::height_exceeded *)
Definition height_exceeded `{Dialect} (m : Measure) : bool := (MAX_PARSER_DEPTH <? ms_height m)%Z.
(* [sqlite/complexity.rs:65-69] Measure::recursion_exceeded *)
Definition recursion_exceeded `{Dialect} (m : Measure) : bool :=
  (MAX_PARSER_DEPTH <? ms_recursion m)%Z.

(** ** The counter *)

(* [sqlite/complexity.rs:40-42] Uncountable *)
Inductive Uncountable := uncountable.

(* [sqlite/complexity.rs:83-86] Counter *)
Definition counting (A : Type) : Type := Measure -> result Uncountable (A * Measure).

#[export] Instance counting_ret : MRet counting := fun _ a m => inl (a, m).
#[export] Instance counting_bind : MBind counting := fun _ _ k c m =>
  match c m with inl (a, m) => k a m | inr e => inr e end.

Definition refuse {A} : counting A := fun _ => inr uncountable.

Definition see_height (height : Z) : counting unit := fun m =>
  inl ((), {| ms_height := Z.max (ms_height m) height; ms_recursion := ms_recursion m;
              ms_columns := ms_columns m; ms_pattern_variables := ms_pattern_variables m |}).
Definition see_recursion (frame : Z) : counting unit := fun m =>
  inl ((), {| ms_height := ms_height m; ms_recursion := Z.max (ms_recursion m) frame;
              ms_columns := ms_columns m; ms_pattern_variables := ms_pattern_variables m |}).
Definition see_columns (count : Z) : counting unit := fun m =>
  inl ((), {| ms_height := ms_height m; ms_recursion := ms_recursion m;
              ms_columns := Z.max (ms_columns m) count;
              ms_pattern_variables := ms_pattern_variables m |}).
Definition see_pattern (name : string) : counting unit := fun m =>
  inl ((), {| ms_height := ms_height m; ms_recursion := ms_recursion m;
              ms_columns := ms_columns m;
              ms_pattern_variables := ms_pattern_variables m ++ [name] |}).

(** The tallest of the expressions of a list and of an option; none has height zero. *)
Definition tallest {A} (f : A -> counting Z) : list A -> counting Z :=
  fix go l :=
    match l with
    | [] => mret 0
    | a :: l => h ← f a; rest ← go l; mret (Z.max h rest)
    end.
Definition tallest_option {A} (f : A -> counting Z) (o : option A) : counting Z :=
  match o with Some a => f a | None => mret 0 end.

(** The loops that count and drop the heights. *)
Definition count_all {A B} (f : A -> counting B) : list A -> counting unit :=
  fix go l :=
    match l with
    | [] => mret ()
    | a :: l => _ ← f a; go l
    end.
Definition count_option {A B} (f : A -> counting B) (o : option A) : counting unit :=
  match o with Some a => _ ← f a; mret () | None => mret () end.

(* [sqlite/complexity.rs:345-351] Counter::pattern *)
Definition pattern (e : SqlExpr) : counting unit :=
  match e with
  | SqlExpr.VariableExpr variable =>
      match var_name variable with Some name => see_pattern name | None => mret () end
  | _ => mret ()
  end.

(** The parts that hold expressions, for the count of one. *)
Section parts.
Context (expression : SqlExpr -> counting Z).

(* [sqlite/complexity.rs:270-275] Counter::sorted_columns *)
Definition sorted_columns : list SortedColumn -> counting unit :=
  count_all (fun column => expression (sc_expr column)).

(* [sqlite/complexity.rs:277-285] Counter::limit *)
Definition count_limit (limit : option SqlLimit) : counting unit :=
  match limit with
  | Some limit =>
      _ ← expression (limit_expr limit);
      count_option expression (limit_offset limit)
  | None => mret ()
  end.

(* [sqlite/complexity.rs:173-184] Counter::result_columns *)
Definition result_columns (columns : list ResultColumn) : counting unit :=
  see_columns (Z.of_nat (length columns));;
  count_all (fun column =>
    match column with
    | ResultExpr e _ => _ ← expression e; mret ()
    | Star | TableStar => refuse
    end) columns.

(* [sqlite/complexity.rs:416-426] Counter::sorted_heights *)
Definition sorted_heights : list SortedColumn -> counting Z :=
  tallest (fun column => expression (sc_expr column)).

(* [sqlite/complexity.rs:428-447] Counter::tail *)
Definition tail (t : FunctionTail) : counting Z :=
  filter ← tallest_option expression (filter_clause t);
  match over_clause t with
  | None => mret filter
  | Some OverName => refuse
  | Some (OverWindow window) =>
      match window_frame_clause window with
      | Some _ => refuse
      | None =>
          partition ← tallest expression (window_partition_by window);
          order ← sorted_heights (window_order_by window);
          mret (Z.max (Z.max filter partition) order)
      end
  end.

(* [sqlite/complexity.rs:245-251]! Counter::from *)
Definition count_constraint (c : option (JoinConstraintOf SqlExpr)) : counting unit :=
  match c with
  | None => mret ()
  | Some (On e) => _ ← expression e; mret ()
  | Some Using => refuse
  end.

(* [sqlite/complexity.rs:220-227]! Counter::one_select *)
Definition count_group_by (group_by : option (GroupByOf SqlExpr)) : counting unit :=
  match group_by with
  | Some group_by =>
      count_all expression (gb_exprs group_by);;
      count_option expression (gb_having group_by)
  | None => mret ()
  end.
End parts.

(** One round of the loop over the left spine: the height with the operator around what the
    operands are high. *)
(* [sqlite/complexity.rs:339-340]! Counter::expression *)
Definition wrap (leaf : bool) (height right : Z) : counting Z :=
  let height := if leaf then 1 else 1 + Z.max height right in
  see_height height;;
  mret height.

(** [spine e frame] is the loop of one call at recursion depth [frame]: an operator takes the
    height of its left operand from the same call and enters a call for every right one;
    [operand] is the head of the spine. A nested select is counted at the depth it stands at. *)
(* [sqlite/complexity.rs:287-343] Counter::expression *)
Fixpoint spine (e : SqlExpr) (frame : Z) {struct e} : counting Z :=
  let expression e base := see_recursion (base + 1);; spine e (base + 1) in
  let inside e := expression e frame in
  let operand (height : counting Z) := height ← height; see_height height;; mret height in
  match e with
  | SqlExpr.Binary l _ r =>
      height ← spine l frame; right ← inside r; wrap false height right
  | SqlExpr.Collate l | SqlExpr.IsNull l | SqlExpr.NotNull l =>
      height ← spine l frame; wrap false height 0
  | SqlExpr.Between l start stop =>
      height ← spine l frame;
      start ← inside start;
      stop ← inside stop;
      wrap false height (Z.max start stop)
  | SqlExpr.InList l _ rhs =>
      height ← spine l frame;
      right ← tallest inside rhs;
      wrap (match rhs with [] => true | _ => false end) height right
  | SqlExpr.InSelect l rhs =>
      height ← spine l frame;
      count_select rhs frame;;
      wrap false height 1
  | SqlExpr.Like l _ _ rhs escape =>
      height ← spine l frame;
      pattern rhs;;
      right ← inside rhs;
      match escape with
      | Some escape =>
          pattern escape;;
          other ← inside escape;
          wrap false height (Z.max right other)
      | None => wrap false height right
      end
  | SqlExpr.Literal _ | SqlExpr.Id _ | SqlExpr.Qualified _ _ | SqlExpr.DoublyQualified _ _ _
  | SqlExpr.VariableExpr _ => operand (mret 1)
  | SqlExpr.Parenthesized elements =>
      operand (right ← tallest inside elements; mret (1 + right))
  | SqlExpr.Subquery select | SqlExpr.Exists select =>
      operand (count_select select frame;; mret 1)
  | SqlExpr.Unary _ inner | SqlExpr.Cast inner _ =>
      operand (right ← inside inner; mret (1 + right))
  | SqlExpr.Case base pairs otherwise =>
      operand
        (first ← tallest_option inside base;
         branches ← tallest (fun pair =>
           condition ← inside pair.1;
           value ← inside pair.2;
           mret (Z.max condition value)) pairs;
         last ← tallest_option inside otherwise;
         mret (1 + Z.max (Z.max first branches) last))
  | SqlExpr.FunctionCall _ _ args order_by within_group filter_over =>
      operand
        (arguments ← tallest inside args;
         order ← sorted_heights inside order_by;
         within ← sorted_heights inside within_group;
         tail ← tail inside filter_over;
         mret (1 + Z.max (Z.max (Z.max arguments order) within) tail))
  | SqlExpr.FunctionCallStar _ filter_over =>
      operand (tail ← tail inside filter_over; mret (1 + tail))
  | SqlExpr.Name _ | SqlExpr.Other => refuse
  end
(* [sqlite/complexity.rs:186-198] Counter::select *)
with count_select (select : SqlSelect) (base : Z) {struct select} : counting unit :=
  let expression e := see_recursion (base + 1);; spine e (base + 1) in
  let '(SqlExpr.Build_Select with_clause body compounds order_by limit) := select in
  match with_clause with
  | Some (SqlExpr.Build_With _ ctes) =>
      count_all (fun '(SqlExpr.Build_Cte _ _ _ select) => count_select select base) ctes
  | None => mret ()
  end;;
  count_one_select body base;;
  count_all (fun body => count_one_select body base) compounds;;
  sorted_columns expression order_by;;
  count_limit expression limit
(* [sqlite/complexity.rs:200-239] Counter::one_select *)
with count_one_select (body : SqlExpr.one_select) (base : Z) {struct body} : counting unit :=
  let expression e := see_recursion (base + 1);; spine e (base + 1) in
  match body with
  | SqlExpr.OneSelect _ columns from where_clause group_by window_clause =>
      match window_clause with
      | _ :: _ => refuse
      | [] =>
          result_columns expression columns;;
          match from with Some from => count_from from base | None => mret () end;;
          count_option expression where_clause;;
          count_group_by expression group_by
      end
  | SqlExpr.Values rows => count_all (count_all expression) rows
  end
(* [sqlite/complexity.rs:241-254] Counter::from *)
with count_from (from : FromClause) (base : Z) {struct from} : counting unit :=
  let expression e := see_recursion (base + 1);; spine e (base + 1) in
  let '(SqlExpr.Build_From table joins) := from in
  count_table table base;;
  count_all (fun '(SqlExpr.Build_Joined _ table c) =>
    count_table table base;; count_constraint expression c) joins
(* [sqlite/complexity.rs:256-268] Counter::select_table *)
with count_table (table : SelectTable) (base : Z) {struct table} : counting unit :=
  let expression e := see_recursion (base + 1);; spine e (base + 1) in
  match table with
  | SqlExpr.Table _ _ _ => mret ()
  | SqlExpr.TableCall _ arguments _ => count_all expression arguments
  | SqlExpr.SubSelect select _ => count_select select base
  | SqlExpr.SubFrom from _ => count_from from base
  end.

(* [sqlite/complexity.rs:287-290]! Counter::expression *)
Definition expression (e : SqlExpr) (base : Z) : counting Z :=
  see_recursion (base + 1);; spine e (base + 1).

(** ** Statements *)

Definition top (e : SqlExpr) : counting Z := expression e 0.

Definition count_sets (sets : list SqlSet) : counting unit := count_all (fun set => top (set_expr set)) sets.

(* [sqlite/complexity.rs:148-167] Counter::upsert *)
Fixpoint count_upsert (upsert : Upsert) : counting unit :=
  let '(Build_Upsert index sets next) := upsert in
  match index with
  | Some (targets, where_clause) =>
      sorted_columns top targets;; count_option top where_clause
  | None => mret ()
  end;;
  match sets with
  | Some (sets, where_clause) => count_sets sets;; count_option top where_clause
  | None => mret ()
  end;;
  match next with Some next => count_upsert next | None => mret () end.

(* [sqlite/complexity.rs:169-171] Counter::returning *)
Definition count_returning : list ResultColumn -> counting unit := result_columns top.

(* [sqlite/complexity.rs:89-146] Counter::statement *)
Definition count_statement (statement : Stmt) : counting unit :=
  match statement with
  | Stmt.Select select => count_select select 0
  | Stmt.Insert with_clause _ _ _ body returning =>
      match with_clause with
      | Some _ => refuse
      | None =>
          match body with
          | InsertBody.Select select upsert =>
              count_select select 0;;
              match upsert with Some upsert => count_upsert upsert | None => mret () end
          | InsertBody.DefaultValues => mret ()
          end;;
          count_returning returning
      end
  | Stmt.Update update =>
      match upd_with update, upd_from update with
      | None, None =>
          count_sets (upd_sets update);;
          count_option top (upd_where_clause update);;
          sorted_columns top (upd_order_by update);;
          count_limit top (upd_limit update);;
          count_returning (upd_returning update)
      | _, _ => refuse
      end
  | Stmt.Delete with_clause _ _ where_clause returning order_by limit =>
      match with_clause with
      | Some _ => refuse
      | None =>
          count_option top where_clause;;
          sorted_columns top order_by;;
          count_limit top limit;;
          count_returning returning
      end
  | Stmt.Other => refuse
  end.

(* [sqlite/complexity.rs:72-81] measure *)
Definition measure (statement : Stmt) : result Uncountable Measure :=
  match count_statement statement no_measure with
  | inl (_, m) => inl m
  | inr e => inr e
  end.
