(* ===== verification/Emit.v ===== *)
(** * The emitter

    The crate [policysql-sqlite] (lib.rs): the syntax tree of a protected plan. Only names of the
    catalog, parameters and numbers get into the tree; every other literal becomes a parameter of
    the server. *)

From S2P Require Import Prelude Result F64 Utf8 Core Catalog Ir Plan SqlAst Complexity Descriptors.

(* [sqlite/lib.rs:39-39] TABLE_ALIAS *)
Definition TABLE_ALIAS : string := "__policysql_t0".

(* [sqlite/lib.rs:59-64] EmittedColumn *)
Record EmittedColumn := { alias_bytes : Z; declared_type_bytes : Z }.

(** ** Names *)

(* [sqlite/lib.rs:153-155] AstEmitState::quoted_name *)
Definition quoted_name (value : string) : SqlName :=
  from_string (dquote ++ doubled double_quote value ++ dquote).

(* [sqlite/lib.rs:157-159] AstEmitState::qualified_name *)
Definition qualified_name (value : string) : QualifiedName := single (quoted_name value).

(* [sqlite/lib.rs:161-163] AstEmitState::alias *)
Definition quoted_alias (value : string) : As := as_as (quoted_name value).

(* [sqlite/lib.rs:165-170] AstEmitState::function_tail *)
Definition function_tail : FunctionTail := {| filter_clause := None; over_clause := None |}.

(** A call without clauses. *)
Definition function_call (name : string) (args : list SqlExpr) : SqlExpr :=
  SqlExpr.FunctionCall (exact name) None args [] [] function_tail.

(** A select without clauses around one body. *)
Definition bare_select (body : SqlExpr.one_select) : SqlSelect :=
  SqlExpr.Build_Select None body [] [] None.

(* [sqlite/lib.rs:611-613] AstEmitState::parenthesized *)
Definition parenthesized (e : SqlExpr) : SqlExpr := SqlExpr.Parenthesized [e].

(** [CASE WHEN condition THEN value ELSE otherwise END]. *)
Definition case_when (condition value otherwise : SqlExpr) : SqlExpr :=
  SqlExpr.Case None [(condition, value)] (Some otherwise).

(** [CASE WHEN condition THEN TRUE ELSE FALSE END]. *)
Definition truth_flag (condition : SqlExpr) : SqlExpr :=
  case_when condition (SqlExpr.Literal SqlLiteral.True) (SqlExpr.Literal SqlLiteral.False).

(** ** The state of an emission *)

(* [sqlite/lib.rs:138-150] AstEmitState *)
Record EmitState := {
  es_server_parameters : gmap string LogicalValue;
  es_next_literal : Z;
  es_parameter_indices : gmap string Z;
  es_next_parameter : Z;
  es_columns : list EmittedColumn
}.

Definition emission (A : Type) : Type := EmitState -> result EmitError.emit_error (A * EmitState).

#[export] Instance emission_ret : MRet emission := fun _ a s => inl (a, s).
#[export] Instance emission_bind : MBind emission := fun _ _ k m s =>
  match m s with inl (a, s) => k a s | inr e => inr e end.

Definition lift {A} (r : result EmitError.emit_error A) : emission A := fun s =>
  match r with inl a => inl (a, s) | inr e => inr e end.

Definition emit_all {A B} (f : A -> emission B) : list A -> emission (list B) :=
  fix go l :=
    match l with
    | [] => mret []
    | a :: l => b ← f a; bs ← go l; mret (b :: bs)
    end.

Definition emit_option {A B} (f : A -> emission B) (o : option A) : emission (option B) :=
  match o with Some a => b ← f a; mret (Some b) | None => mret None end.

Definition push_column (column : EmittedColumn) : emission unit := fun s =>
  inl ((), {| es_server_parameters := es_server_parameters s;
              es_next_literal := es_next_literal s;
              es_parameter_indices := es_parameter_indices s;
              es_next_parameter := es_next_parameter s;
              es_columns := es_columns s ++ [column] |}).

(** The columns of a subquery are set aside. *)
(* [sqlite/lib.rs:762-765]! AstEmitState::expression *)
Definition aside {A} (m : emission A) : emission A := fun s =>
  match m {| es_server_parameters := es_server_parameters s;
             es_next_literal := es_next_literal s;
             es_parameter_indices := es_parameter_indices s;
             es_next_parameter := es_next_parameter s; es_columns := [] |} with
  | inl (a, s') =>
      inl (a, {| es_server_parameters := es_server_parameters s';
                 es_next_literal := es_next_literal s';
                 es_parameter_indices := es_parameter_indices s';
                 es_next_parameter := es_next_parameter s'; es_columns := es_columns s |})
  | inr e => inr e
  end.

(** ** Parameters and literals *)

(* [sqlite/lib.rs:826-840] AstEmitState::parameter *)
Definition emit_parameter (value : string) : emission SqlExpr := fun s =>
  let name := (":" ++ value)%string in
  match es_parameter_indices s !! name with
  | Some index => inl (SqlExpr.VariableExpr (named name index), s)
  | None =>
      let index := (es_next_parameter s + 1)%Z in
      if (U32_MAX <? index)%Z then inr EmitError.TooManyLiterals
      else
        inl (SqlExpr.VariableExpr (named name index),
             {| es_server_parameters := es_server_parameters s;
                es_next_literal := es_next_literal s;
                es_parameter_indices := <[name := index]> (es_parameter_indices s);
                es_next_parameter := index; es_columns := es_columns s |})
  end.

(** The parameter of the server that a literal becomes. A name that is taken is overwritten and
    the next one tried; every round takes a number that no other round takes. *)
(* [sqlite/lib.rs:860-876]! AstEmitState::literal *)
Fixpoint literal_parameter (fuel : nat) (value : LogicalValue) : emission SqlExpr := fun s =>
  let suffix := ("literal_" ++ dec (es_next_literal s))%string in
  match checked_add64 (es_next_literal s) 1, from_trusted_suffix suffix with
  | None, _ => inr EmitError.TooManyLiterals
  | Some _, inr _ => inr (EmitError.InvariantViolation "literal name")
  | Some next, inl name =>
      let s' := {| es_server_parameters := <[name := value]> (es_server_parameters s);
                   es_next_literal := next;
                   es_parameter_indices := es_parameter_indices s;
                   es_next_parameter := es_next_parameter s; es_columns := es_columns s |} in
      match es_server_parameters s !! name, fuel with
      | None, _ => emit_parameter name s'
      | Some _, S fuel => literal_parameter fuel value s'
      | Some _, O => inr EmitError.TooManyLiterals
      end
  end.

Definition numeric (text : string) : SqlExpr := SqlExpr.Literal (SqlLiteral.Numeric text).
Definition negative (text : string) : SqlExpr :=
  SqlExpr.Unary UnaryOperator.Negative (numeric text).

(* [sqlite/lib.rs:842-877] AstEmitState::literal *)
Definition emit_literal (value : LogicalValue) : emission SqlExpr :=
  match value with
  | LogicalValue.Null => mret (SqlExpr.Literal SqlLiteral.Null)
  | LogicalValue.Boolean true => mret (SqlExpr.Literal SqlLiteral.True)
  | LogicalValue.Boolean false => mret (SqlExpr.Literal SqlLiteral.False)
  | LogicalValue.Int64 value =>
      mret (if (value <? 0)%Z then negative (dec (- value)) else numeric (dec value))
  | LogicalValue.Number value =>
      if F64.is_finite value then
        mret (if F64.ltb value F64.zero then negative (Display.text (SpecFloat.SFopp value))
              else numeric (Display.text value))
      else lift (throw EmitError.UnsupportedValue)
  | LogicalValue.String _ | LogicalValue.Bytes _ | LogicalValue.Json _ => fun s =>
      literal_parameter (size (es_server_parameters s)) value s
  end.

Section emitter.
Context (catalog : Catalog) (aliases : gmap Z string).

Definition known_resource (id : Z) : emission ResourceDescriptor :=
  lift (ok_or (resource_by_id catalog id) EmitError.UnknownResource).
Definition known_column (r : ResourceDescriptor) (id : ColumnId) : emission ColumnDescriptor :=
  lift (ok_or (column_by_id r id) EmitError.UnknownColumn).
Definition known_alias (resource : Z) : emission string :=
  lift (ok_or (aliases !! resource) EmitError.UnknownResource).

(** ** Expressions *)

(** Without an alias the column is named alone. *)
(* [sqlite/lib.rs:631-651]! AstEmitState::expression *)
Definition emit_column (column : BoundColumn) : emission SqlExpr :=
  resource ← known_resource (column_resource (bc_id column));
  descriptor ← known_column resource (bc_id column);
  alias ← known_alias (column_resource (bc_id column));
  mret (if String.eqb alias "" then SqlExpr.Id (quoted_name (cd_name descriptor))
        else SqlExpr.Qualified (quoted_name alias) (quoted_name (cd_name descriptor))).

(* [sqlite/lib.rs:653-658]! AstEmitState::expression *)
Definition emit_server_parameter (name : string) : emission SqlExpr := fun s =>
  match es_server_parameters s !! name with
  | None => inr (EmitError.MissingServerParameter name)
  | Some _ => emit_parameter name s
  end.

(* [sqlite/lib.rs:777-784]! AstEmitState::expression *)
Definition function_name (function : ScalarFunction.scalar_function) : string :=
  match function with
  | ScalarFunction.Lower => "LOWER"
  | ScalarFunction.Upper => "UPPER"
  | ScalarFunction.JsonExtract => "JSON_EXTRACT"
  end.

(** The columns a projection adds to the result are known to the state. *)
(* [sqlite/lib.rs:192-206]! AstEmitState::projection *)
Definition projection_column (projection : BoundProjection) : EmittedColumn :=
  let direct :=
    match bp_expression projection with
    | BoundExpr.ConditionalOutput value _ => direct_column value
    | other => direct_column other
    end in
  {| alias_bytes := len (bp_output_name projection);
     declared_type_bytes :=
       match column ← direct; catalog_column catalog column with
       | Some descriptor => cd_declared_type_bytes descriptor
       | None => 0
       end |}.

(* [sqlite/lib.rs:208-208]! AstEmitState::projection *)
Definition visibility_name (index : nat) : string :=
  (VISIBILITY_COLUMN_PREFIX ++ dec (Z.of_nat index))%string.

Section nodes.
Context (expression : BoundExpr -> emission SqlExpr).

(* [sqlite/lib.rs:615-626] AstEmitState::binary *)
Definition emit_binary (l : BoundExpr) (op : SqlOperator.sql_operator) (r : BoundExpr)
    : emission SqlExpr :=
  l ← expression l;
  r ← expression r;
  mret (parenthesized (SqlExpr.Binary l op r)).

(* [sqlite/lib.rs:670-683]! AstEmitState::expression *)
Definition emit_like (l : BoundExpr) (op : LikeOperator.like_operator) (r : BoundExpr)
    : emission SqlExpr :=
  l ← expression l;
  r ← expression r;
  mret (parenthesized (SqlExpr.Like l false op r None)).

(* [sqlite/lib.rs:172-181] AstEmitState::sorted *)
Definition emit_sorted (order : BoundOrder) : emission SortedColumn :=
  e ← expression (bo_expression order);
  mret {| sc_expr := e;
          sc_order := Some match bo_direction order with
                           | SortDirection.Ascending => SortOrder.Asc
                           | SortDirection.Descending => SortOrder.Desc
                           end;
          sc_nulls := None |}.

(* [sqlite/lib.rs:183-227] AstEmitState::projection *)
Definition emit_projection (index : nat) (projection : BoundProjection)
    : emission (list ResultColumn) :=
  e ← expression (bp_expression projection);
  push_column (projection_column projection);;
  let column := ResultExpr e (Some (quoted_alias (bp_output_name projection))) in
  match bp_expression projection with
  | BoundExpr.ConditionalOutput _ visible_if =>
      let visibility := visibility_name index in
      push_column {| alias_bytes := len visibility; declared_type_bytes := 0 |};;
      condition ← expression visible_if;
      mret [column; ResultExpr (truth_flag condition) (Some (quoted_alias visibility))]
  | _ => mret [column]
  end.

(** The projections from an index on. *)
(* [sqlite/lib.rs:229-238] AstEmitState::projections *)
Fixpoint emit_projections_from (index : nat) (projections : list BoundProjection)
    : emission (list ResultColumn) :=
  match projections with
  | [] => mret []
  | projection :: projections =>
      columns ← emit_projection index projection;
      rest ← emit_projections_from (S index) projections;
      mret (columns ++ rest)
  end.
Definition emit_projections : list BoundProjection -> emission (list ResultColumn) :=
  emit_projections_from 0.

(* [sqlite/lib.rs:413-435]! AstEmitState::select_node *)
Definition emit_join (join : BoundJoin) : emission SqlExpr.joined_select_table :=
  joined ← known_resource (bj_resource join);
  alias ← known_alias (bj_resource join);
  on ← expression (bj_on join);
  mret (SqlExpr.Build_Joined
          (JoinOperator.TypedJoin (Some match bj_kind join with
                                        | JoinKind.Inner => JoinType.INNER
                                        | JoinKind.Left => JoinType.LEFT
                                        end))
          (SqlExpr.Table (qualified_name (rd_source joined)) (Some (quoted_alias alias)) None)
          (Some (On on))).

(* [sqlite/lib.rs:437-455]! AstEmitState::select_node *)
Definition emit_group_by (select : BoundSelect) : emission (option (GroupByOf SqlExpr)) :=
  match bs_group_by select, bs_having select with
  | [], None => mret None
  | columns, having =>
      exprs ← emit_all emit_column columns;
      having ← emit_option expression having;
      mret (Some {| gb_exprs := exprs; gb_having := having |})
  end.

(* [sqlite/lib.rs:461-475]! AstEmitState::select_node *)
Definition emit_limit (select : BoundSelect) : emission (option SqlLimit) :=
  match bs_limit select, bs_offset select with
  | Some limit, offset =>
      limit ← expression limit;
      offset ← emit_option expression offset;
      mret (Some {| limit_expr := limit; limit_offset := offset |})
  | None, None => mret None
  | None, Some _ => lift (invariant "OFFSET requires LIMIT")
  end.

(* [sqlite/lib.rs:399-504] AstEmitState::select_node *)
Definition select_node (select : BoundSelect) (resource : ResourceDescriptor)
    : emission SqlSelect :=
  match bs_projections select with
  | [] => lift (invariant "empty projection")
  | _ =>
      root_alias ← known_alias (bs_resource select);
      joins ← emit_all emit_join (bs_joins select);
      group_by ← emit_group_by select;
      order_by ← emit_all emit_sorted (bs_order_by select);
      limit ← emit_limit select;
      columns ← emit_projections (bs_projections select);
      where_clause ← emit_option expression (bs_predicate select);
      mret (SqlExpr.Build_Select None
              (SqlExpr.OneSelect None columns
                 (Some (SqlExpr.Build_From
                          (SqlExpr.Table (qualified_name (rd_source resource))
                             (Some (quoted_alias root_alias)) None)
                          joins))
                 where_clause group_by [])
              [] order_by limit)
  end.
End nodes.

(* [sqlite/lib.rs:628-824] AstEmitState::expression *)
Fixpoint expression (e : BoundExpr) {struct e} : emission SqlExpr :=
  match e with
  | BoundExpr.Column column => emit_column column
  | BoundExpr.ClientParameter name _ => emit_parameter name
  | BoundExpr.ServerParameter name _ => emit_server_parameter name
  | BoundExpr.Literal value => emit_literal value
  | BoundExpr.Equal l r => emit_binary expression l SqlOperator.Equals r
  | BoundExpr.NotEqual l r => emit_binary expression l SqlOperator.NotEquals r
  | BoundExpr.Less l r => emit_binary expression l SqlOperator.Less r
  | BoundExpr.LessEqual l r => emit_binary expression l SqlOperator.LessEquals r
  | BoundExpr.Greater l r => emit_binary expression l SqlOperator.Greater r
  | BoundExpr.GreaterEqual l r => emit_binary expression l SqlOperator.GreaterEquals r
  | BoundExpr.And l r => emit_binary expression l SqlOperator.And r
  | BoundExpr.Or l r => emit_binary expression l SqlOperator.Or r
  | BoundExpr.Like l r => emit_like expression l LikeOperator.Like r
  | BoundExpr.Glob l r => emit_like expression l LikeOperator.Glob r
  | BoundExpr.Not inner =>
      inner ← expression inner;
      mret (parenthesized (SqlExpr.Unary UnaryOperator.Not inner))
  | BoundExpr.IsNull inner =>
      inner ← expression inner;
      mret (parenthesized
              (SqlExpr.Binary inner SqlOperator.Is (SqlExpr.Literal SqlLiteral.Null)))
  | BoundExpr.In e values negated =>
      match values with
      | [] => lift (invariant "empty IN list")
      | _ =>
          lhs ← expression e;
          rhs ← emit_all expression values;
          mret (parenthesized (SqlExpr.InList lhs negated rhs))
      end
  | BoundExpr.Least l r =>
      l ← expression l;
      r ← expression r;
      mret (function_call "MIN" [l; r])
  | BoundExpr.Concat l r => emit_binary expression l SqlOperator.Concat r
  | BoundExpr.CastText inner =>
      inner ← expression inner;
      mret (SqlExpr.Cast inner
              (Some {| type_name := "TEXT"; type_size := None; type_array_dimensions := 0 |}))
  | BoundExpr.Case branches else_expression _ =>
      pairs ← emit_all (fun branch =>
        condition ← expression branch.1;
        value ← expression branch.2;
        mret (condition, value)) branches;
      otherwise ← emit_option expression else_expression;
      mret (SqlExpr.Case None pairs otherwise)
  | BoundExpr.ConditionalOutput value visible_if =>
      condition ← expression visible_if;
      value ← expression value;
      mret (case_when condition value (SqlExpr.Literal SqlLiteral.Null))
  | BoundExpr.Exists select =>
      resource ← known_resource (bs_resource select);
      nested ← aside (select_node expression select resource);
      mret (SqlExpr.Exists nested)
  | BoundExpr.CountAll _ => mret (SqlExpr.FunctionCallStar (exact "COUNT") function_tail)
  | BoundExpr.ScalarFunction function arguments _ =>
      args ← emit_all expression arguments;
      mret (function_call (function_name function) args)
  | BoundExpr.RowNumber _ partition_by order_by =>
      partition_by ← emit_all emit_column partition_by;
      order_by ← emit_all (emit_sorted expression) order_by;
      mret (SqlExpr.FunctionCall (exact "ROW_NUMBER") None [] [] []
              {| filter_clause := None;
                 over_clause :=
                   Some (OverWindow {| window_base := None; window_partition_by := partition_by;
                                       window_order_by := order_by;
                                       window_frame_clause := None |}) |})
  end.
End emitter.

(** ** Statements *)

Section statements.
Context (catalog : Catalog) (aliases : gmap Z string).

Abbreviation expression := (expression catalog aliases).
Abbreviation projections := (emit_projections catalog expression).

(* [sqlite/lib.rs:240-257] AstEmitState::check_column *)
Definition emit_check_column (check : BoundExpr) : emission ResultColumn :=
  push_column {| alias_bytes := len CHECK_COLUMN; declared_type_bytes := 0 |};;
  condition ← expression check;
  mret (ResultExpr (truth_flag condition) (Some (quoted_alias CHECK_COLUMN))).

(** RETURNING of an INSERT or UPDATE: the projections and the check. *)
(* [sqlite/lib.rs:299-302]! AstEmitState::insert *)
Definition emit_checked_returning (returning : list BoundProjection) (check : option BoundExpr)
    (message : string) : emission (list ResultColumn) :=
  columns ← projections returning;
  check ← lift (ok_or check (EmitError.InvariantViolation message));
  check ← emit_check_column check;
  mret (columns ++ [check]).

(** A row must name the columns of the first one, in its order. *)
(* [sqlite/lib.rs:283-292]! AstEmitState::insert *)
Definition same_columns (row first : list BoundAssignment) : bool :=
  bool_decide (map (fun a => bc_id (ba_column a)) row = map (fun a => bc_id (ba_column a)) first).

(* [sqlite/lib.rs:282-298]! AstEmitState::insert *)
Definition emit_row (first row : list BoundAssignment) : emission (list SqlExpr) :=
  if same_columns row first then emit_all (fun a => expression (ba_value a)) row
  else lift (invariant "INSERT rows have inconsistent columns").

(* [sqlite/lib.rs:259-322] AstEmitState::insert *)
Definition emit_insert (insert : BoundInsert) (check : option BoundExpr) : emission Stmt :=
  resource ← known_resource catalog (bi_resource insert);
  first ← lift (ok_or (head (bi_rows insert)) (EmitError.InvariantViolation "empty INSERT"));
  columns ← emit_all (fun a =>
    column ← known_column resource (bc_id (ba_column a));
    mret (quoted_name (cd_name column))) first;
  values ← emit_all (emit_row first) (bi_rows insert);
  returning ← emit_checked_returning (bi_returning insert) check
                "INSERT requires operation check";
  mret (Stmt.Insert None None (qualified_name (rd_source resource)) columns
          (InsertBody.Select (bare_select (SqlExpr.Values values)) None) returning).

(* [sqlite/lib.rs:324-369] AstEmitState::update *)
Definition emit_update (update : BoundUpdate) (check : option BoundExpr) : emission Stmt :=
  resource ← known_resource catalog (bu_resource update);
  match bu_assignments update with
  | [] => lift (invariant "empty UPDATE")
  | _ =>
      sets ← emit_all (fun a =>
        column ← known_column resource (bc_id (ba_column a));
        value ← expression (ba_value a);
        mret {| set_col_names := [quoted_name (cd_name column)]; set_expr := value |})
        (bu_assignments update);
      returning ← emit_checked_returning (bu_returning update) check
                    "UPDATE requires operation check";
      where_clause ← emit_option expression (bu_predicate update);
      mret (Stmt.Update {| upd_with := None; upd_or_conflict := None;
                           upd_tbl_name := qualified_name (rd_source resource);
                           upd_indexed := None; upd_sets := sets; upd_from := None;
                           upd_where_clause := where_clause; upd_returning := returning;
                           upd_order_by := []; upd_limit := None |})
  end.

(* [sqlite/lib.rs:371-389] AstEmitState::delete *)
Definition emit_delete (delete : BoundDelete) : emission Stmt :=
  resource ← known_resource catalog (bd_resource delete);
  where_clause ← emit_option expression (bd_predicate delete);
  returning ← projections (bd_returning delete);
  mret (Stmt.Delete None (qualified_name (rd_source resource)) None where_clause returning [] None).

(* [sqlite/lib.rs:506-529] AstEmitState::constant_select *)
Definition emit_constant_select (select : BoundConstantSelect) : emission Stmt :=
  match bcs_projections select with
  | [] => lift (invariant "empty projection")
  | _ =>
      columns ← projections (bcs_projections select);
      mret (Stmt.Select (bare_select (SqlExpr.OneSelect None columns None None None [])))
  end.

Definition JSON_ALIAS : string := "__policysql_json".

(* [sqlite/lib.rs:531-609] AstEmitState::json_collection *)
Definition emit_json_collection (select : BoundJsonCollectionSelect) : emission Stmt :=
  resource ← known_resource catalog (bjc_resource select);
  column ← known_column resource (bc_id (bjc_document select));
  push_column {| alias_bytes := len (bjc_output_name select); declared_type_bytes := 0 |};;
  path ← expression (bjc_path select);
  where_clause ← emit_option expression (bjc_predicate select);
  let value := SqlExpr.Qualified (quoted_name JSON_ALIAS) (quoted_name "value") in
  let document := SqlExpr.Qualified (quoted_name TABLE_ALIAS) (quoted_name (cd_name column)) in
  let function := exact (if bjc_recursive select then "JSON_TREE" else "JSON_EACH") in
  mret (Stmt.Select (bare_select
    (SqlExpr.OneSelect None
       [ResultExpr (function_call "JSON_GROUP_ARRAY" [value])
          (Some (quoted_alias (bjc_output_name select)))]
       (Some (SqlExpr.Build_From
                (SqlExpr.Table (qualified_name (rd_source resource))
                   (Some (quoted_alias TABLE_ALIAS)) None)
                [SqlExpr.Build_Joined JoinOperator.Comma
                   (SqlExpr.TableCall (single function) [document; path]
                      (Some (quoted_alias JSON_ALIAS)))
                   None]))
       where_clause None []))).

(* [sqlite/lib.rs:86-102]! TypedSqliteEmitter::emit *)
Definition emit_statement (statement : BoundStatement) (check : option BoundExpr)
    : emission Stmt :=
  match statement with
  | BoundStatement.Select select =>
      resource ← known_resource catalog (bs_resource select);
      node ← select_node catalog aliases expression select resource;
      mret (Stmt.Select node)
  | BoundStatement.ConstantSelect select => emit_constant_select select
  | BoundStatement.JsonCollectionSelect select => emit_json_collection select
  | BoundStatement.Insert insert => emit_insert insert check
  | BoundStatement.Update update => emit_update update check
  | BoundStatement.Delete delete => emit_delete delete
  end.
End statements.

(** ** Aliases *)

Definition table_alias (n : Z) : string := ("__policysql_t" ++ dec n)%string.

(** The aliases so far and the number of the next one. *)
Abbreviation Aliases := (gmap Z string * Z)%type.

(* [sqlite/lib.rs:921-926]! allocate_nested_aliases *)
Definition allocate (resource : Z) (state : Aliases) : Aliases :=
  let '(aliases, next) := state in
  match aliases !! resource with
  | Some _ => state
  | None => (<[resource := table_alias next]> aliases, next + 1)
  end.

(* [sqlite/lib.rs:914-986] allocate_nested_aliases *)
Fixpoint allocate_nested_aliases (e : BoundExpr) (state : Aliases) {struct e} : Aliases :=
  match e with
  | BoundExpr.Exists select =>
      add_option allocate_nested_aliases (bs_predicate select)
        (allocate (bs_resource select) state)
  | BoundExpr.Equal l r | BoundExpr.NotEqual l r | BoundExpr.Less l r | BoundExpr.LessEqual l r
  | BoundExpr.Greater l r | BoundExpr.GreaterEqual l r | BoundExpr.And l r | BoundExpr.Or l r
  | BoundExpr.Like l r | BoundExpr.Glob l r | BoundExpr.Least l r | BoundExpr.Concat l r
  | BoundExpr.ConditionalOutput l r =>
      allocate_nested_aliases r (allocate_nested_aliases l state)
  | BoundExpr.Not inner | BoundExpr.IsNull inner | BoundExpr.CastText inner =>
      allocate_nested_aliases inner state
  | BoundExpr.ScalarFunction _ arguments _ => add_all allocate_nested_aliases arguments state
  | BoundExpr.In e values _ =>
      add_all allocate_nested_aliases values (allocate_nested_aliases e state)
  | BoundExpr.Case branches otherwise _ =>
      add_option allocate_nested_aliases otherwise
        (add_all (fun branch state =>
           allocate_nested_aliases branch.2 (allocate_nested_aliases branch.1 state))
           branches state)
  | BoundExpr.Column _ | BoundExpr.ClientParameter _ _ | BoundExpr.ServerParameter _ _
  | BoundExpr.Literal _ | BoundExpr.CountAll _ | BoundExpr.RowNumber _ _ _ => state
  end.

(** The joins are numbered from one. *)
(* [sqlite/lib.rs:904-907]! aliases_for_statement *)
Fixpoint join_aliases (joins : list BoundJoin) (state : Aliases) : Aliases :=
  match joins with
  | [] => state
  | join :: joins =>
      join_aliases joins (<[bj_resource join := table_alias state.2]> state.1, state.2 + 1)
  end.

(* [sqlite/lib.rs:902-911]! aliases_for_statement *)
Definition select_aliases (select : BoundSelect) : Aliases :=
  add_option allocate_nested_aliases (bs_predicate select)
    (join_aliases (bs_joins select) ({[ bs_resource select := TABLE_ALIAS ]}, 1)).

(* [sqlite/lib.rs:880-912] aliases_for_statement *)
Definition aliases_for_statement (statement : BoundStatement) : gmap Z string :=
  match statement with
  | BoundStatement.ConstantSelect _ => ∅
  | BoundStatement.JsonCollectionSelect select => {[ bjc_resource select := TABLE_ALIAS ]}
  | BoundStatement.Insert insert => {[ bi_resource insert := EmptyString ]}
  | BoundStatement.Update update => {[ bu_resource update := EmptyString ]}
  | BoundStatement.Delete delete => {[ bd_resource delete := EmptyString ]}
  | BoundStatement.Select select => (select_aliases select).1
  end.

(** ** Emission *)

(* [sqlite/lib.rs:48-57] EmittedSql *)
Record EmittedSql := {
  em_sql : string;
  em_server_parameters : gmap string LogicalValue;
  em_column_metadata_bytes : Z;
  em_pattern_variables : list string
}.

(* [sqlite/lib.rs:77-85]! TypedSqliteEmitter::emit *)
Definition emit_state (plan : ProtectedPlan) : EmitState :=
  {| es_server_parameters := pp_server_values plan; es_next_literal := 0;
     es_parameter_indices := ∅; es_next_parameter := 0; es_columns := [] |}.

(** The syntax tree, before it is measured and printed. *)
(* [sqlite/lib.rs:76-102]! TypedSqliteEmitter::emit *)
Definition emitted_tree (plan : ProtectedPlan) (catalog : Catalog)
    : result EmitError.emit_error (Stmt * EmitState) :=
  emit_statement catalog (aliases_for_statement (pp_statement plan)) (pp_statement plan)
    (pp_operation_check plan) (emit_state plan).

Definition too_complex {A} (cause : ComplexityCause.complexity_cause)
    : result EmitError.emit_error A :=
  throw (EmitError.TooComplex cause).

(* [sqlite/lib.rs:122-128]! TypedSqliteEmitter::emit *)
Definition metadata_bytes (columns : list EmittedColumn) : Z :=
  fold_right (fun column total =>
    2 * alias_bytes column + 2 * declared_type_bytes column + 32 + total) 0 columns.

(* [sqlite/lib.rs:70-135] TypedSqliteEmitter::emit *)
Definition emit `{Dialect} (plan : ProtectedPlan) (catalog : Catalog)
    : result EmitError.emit_error EmittedSql :=
  '(statement, state) ← emitted_tree plan catalog;
  m ← map_err (measure statement) (EmitError.InvariantViolation "uncountable emitted node");
  if (MAX_RESULT_COLUMNS <? ms_columns m)%Z then too_complex ComplexityCause.Columns
  else if (MAX_HOST_PARAMETERS <? es_next_parameter state)%Z
  then too_complex ComplexityCause.Parameters
  else if height_exceeded m then too_complex ComplexityCause.Height
  else if recursion_exceeded m then too_complex ComplexityCause.Recursion
  else
    mret {| em_sql := print_stmt statement;
            em_server_parameters := es_server_parameters state;
            em_column_metadata_bytes := metadata_bytes (es_columns state);
            em_pattern_variables := ms_pattern_variables m |}.
