(* ===== verification/Sealing.v ===== *)
(** * Sealing

    The last part of the crate [policysql-sqlite] (lib.rs): the emitted SQL is parsed again, checked
    against what the compilation expects of it, and sealed as an execution plan. *)

From S2P Require Import Prelude Result F64 Utf8 Core Catalog Ir Plan SqlAst Complexity.
From S2P Require Import Descriptors Emit.

(* [sqlite/lib.rs:42-42] LITERAL_PARAMETER_PREFIX *)
Definition LITERAL_PARAMETER_PREFIX : string := "__policysql_literal_".

(* [sqlite/lib.rs:1253-1255] violation *)
Definition violation {A} (message : string) : result VerificationError.verification_error A :=
  throw (VerificationError.InvariantViolation message).

(** A value as a string token of SQL. *)
(* [sqlite/lib.rs:1248-1251] sqlite_string_token *)
Definition sqlite_string_token (value : string) : string :=
  String single_quote (doubled single_quote value ++ String single_quote EmptyString).

(* [sqlite/lib.rs:1089-1089]! SqliteInvariantVerifier::verify_string_literals *)
Definition still_quoted (value : string) : bool :=
  match value with
  | String first rest =>
      Ascii.eqb first single_quote && bool_decide (is_Some (strip_suffix single_quote rest))
  | EmptyString => false
  end.

Section sealing.
Context `{Dialect}.

(* [sqlite/lib.rs:1223-1234] parse_single_statement *)
Definition parse_single_statement (sql : string) : result unit Stmt :=
  match parse_commands sql with
  | Some [Cmd.Stmt statement] => mret statement
  | _ => throw ()
  end.

(* [sqlite/lib.rs:1236-1246] explain_query_plan_sql *)
Definition explain_query_plan_sql (protected_sql : string) : result EmitError.emit_error string :=
  statement ← map_err (parse_single_statement protected_sql)
                (EmitError.InvariantViolation "protected SQL does not parse for EXPLAIN");
  mret (print_cmd (Cmd.ExplainQueryPlan statement)).

(** ** What the compilation expects *)

(* [sqlite/lib.rs:988-1001] SqliteInvariantVerifier *)
Record SqliteInvariantVerifier := {
  siv_profile_id : string;
  siv_statement : Stmt;
  siv_client_parameters : gset string;
  siv_server_parameters : gset string;
  siv_result : list ResultColumnDescriptor;
  siv_snapshot : string;
  siv_operation : OperationKind.operation_kind;
  siv_affected_rows : option Z;
  siv_operation_check : bool;
  siv_result_rows : option Z;
  siv_string_literals : StringLiteralWitnesses
}.

(** The profile both the candidate and the verifier name. *)
(* [sqlite/lib.rs:1019-1020]! SqliteInvariantVerifier::new *)
Definition profile_id : result EmitError.emit_error string :=
  map_err (backend_profile_id_new PROFILE_ID) (EmitError.InvariantViolation "invalid profile ID").

(* [sqlite/lib.rs:1004-1032] SqliteInvariantVerifier::new *)
Definition verifier_new (expected_sql : string) (clients servers : gset string)
    (result : list ResultColumnDescriptor) (snapshot : string)
    : Result.result EmitError.emit_error SqliteInvariantVerifier :=
  statement ← map_err (parse_single_statement expected_sql) EmitError.ReparseFailed;
  profile ← profile_id;
  mret {| siv_profile_id := profile; siv_statement := statement;
          siv_client_parameters := clients; siv_server_parameters := servers;
          siv_result := result; siv_snapshot := snapshot;
          siv_operation := OperationKind.Select; siv_affected_rows := None;
          siv_operation_check := false; siv_result_rows := None;
          siv_string_literals := {| slw_client := []; slw_policy := ∅ |} |}.

(** The builders set one expectation each. *)
Definition expecting (operation : OperationKind.operation_kind) (affected : option Z)
    (check : bool) (rows : option Z) (literals : StringLiteralWitnesses)
    (v : SqliteInvariantVerifier) : SqliteInvariantVerifier :=
  {| siv_profile_id := siv_profile_id v; siv_statement := siv_statement v;
     siv_client_parameters := siv_client_parameters v;
     siv_server_parameters := siv_server_parameters v; siv_result := siv_result v;
     siv_snapshot := siv_snapshot v; siv_operation := operation;
     siv_affected_rows := affected; siv_operation_check := check; siv_result_rows := rows;
     siv_string_literals := literals |}.

Section builders.
Context (v : SqliteInvariantVerifier).

(* [sqlite/lib.rs:1034-1039] SqliteInvariantVerifier::with_string_literals *)
Definition verify_string_literals_of (witnesses : StringLiteralWitnesses)
    : SqliteInvariantVerifier :=
  expecting (siv_operation v) (siv_affected_rows v) (siv_operation_check v) (siv_result_rows v)
    witnesses v.

(* [sqlite/lib.rs:1097-1100] SqliteInvariantVerifier::with_operation *)
Definition verify_operation (operation : OperationKind.operation_kind)
    : SqliteInvariantVerifier :=
  expecting operation (siv_affected_rows v) (siv_operation_check v) (siv_result_rows v)
    (siv_string_literals v) v.

(* [sqlite/lib.rs:1102-1105] SqliteInvariantVerifier::with_expected_affected_rows *)
Definition verify_affected_rows (expected : Z) : SqliteInvariantVerifier :=
  expecting (siv_operation v) (Some expected) (siv_operation_check v) (siv_result_rows v)
    (siv_string_literals v) v.

(* [sqlite/lib.rs:1107-1110] SqliteInvariantVerifier::with_operation_check *)
Definition verify_operation_check : SqliteInvariantVerifier :=
  expecting (siv_operation v) (siv_affected_rows v) true (siv_result_rows v)
    (siv_string_literals v) v.

(* [sqlite/lib.rs:1112-1115] SqliteInvariantVerifier::with_expected_result_rows *)
Definition verify_result_rows (expected : Z) : SqliteInvariantVerifier :=
  expecting (siv_operation v) (siv_affected_rows v) (siv_operation_check v) (Some expected)
    (siv_string_literals v) v.
End builders.

(** ** The check of a candidate *)

(** The strings among the values the emitter bound for literals. *)
(* [sqlite/lib.rs:1072-1079]! SqliteInvariantVerifier::verify_string_literals *)
Definition literal_strings (server_parameters : gmap string LogicalValue) : gset string :=
  list_to_set (omap (fun '(name, value) =>
    if starts_with LITERAL_PARAMETER_PREFIX name
    then match value with LogicalValue.String value => Some value | _ => None end
    else None) (map_to_list server_parameters)).

(* [sqlite/lib.rs:1041-1095] SqliteInvariantVerifier::verify_string_literals *)
Definition verify_string_literals (witnesses : StringLiteralWitnesses)
    (server_parameters : gmap string LogicalValue)
    : result VerificationError.verification_error unit :=
  if existsb (fun literal =>
       negb (String.eqb (sqlite_string_token (csl_value literal)) (csl_token literal)))
       (slw_client witnesses)
  then violation "client string literal does not round-trip"
  else
    let literal_strings := literal_strings server_parameters in
    let client_values : gset string := list_to_set (map csl_value (slw_client witnesses)) in
    if negb (bool_decide (client_values ⊆ literal_strings))
    then violation "client string literal value is not bound"
    else
      for_each (fun value =>
        if still_quoted value && negb (bool_decide (value ∈ slw_policy witnesses))
           && negb (bool_decide (value ∈ client_values))
        then violation "server literal still carries SQL string quoting" else mret ())
        (elements literal_strings).

(* [sqlite/lib.rs:1125-1130]! SqliteInvariantVerifier::verify *)
Definition is_operation (operation : OperationKind.operation_kind) (statement : Stmt) : bool :=
  match operation, statement with
  | OperationKind.Select, Stmt.Select _ | OperationKind.Insert, Stmt.Insert _ _ _ _ _ _
  | OperationKind.Update, Stmt.Update _ | OperationKind.Delete, Stmt.Delete _ _ _ _ _ _ _ => true
  | _, _ => false
  end.

(* [sqlite/lib.rs:1119-1183] SqliteInvariantVerifier::verify *)
Definition invariants_hold (v : SqliteInvariantVerifier) (candidate : CandidateExecutionPlan)
    : result VerificationError.verification_error unit :=
  let invariant condition message :=
    require condition (VerificationError.InvariantViolation message) in
  statement ← map_err (parse_single_statement (plan_protected_sql candidate))
    (VerificationError.InvariantViolation "emitted SQL does not parse as exactly one statement");
  _ ← invariant (is_operation (siv_operation v) statement)
        "emitted SQL operation or statement count mismatch";
  _ ← invariant (stmt_eqb statement (siv_statement v))
        "emitted SQL syntax tree differs from the protected plan";
  _ ← invariant (bool_decide (plan_operation candidate = siv_operation v)) "operation mismatch";
  _ ← invariant (bool_decide (plan_expected_affected_rows candidate = siv_affected_rows v))
        "affected-row invariant mismatch";
  _ ← invariant (bool_decide (plan_expected_result_rows candidate = siv_result_rows v))
        "result-row invariant mismatch";
  _ ← invariant (negb (siv_operation_check v
        && negb (bool_decide (plan_operation_check_column candidate = Some CHECK_COLUMN))))
        "operation-check column mismatch";
  _ ← invariant (negb (negb (siv_operation_check v)
        && bool_decide (is_Some (plan_operation_check_column candidate))))
        "unexpected operation-check column";
  _ ← invariant (String.eqb (plan_snapshot candidate) (siv_snapshot v)) "snapshot mismatch";
  _ ← invariant (bool_decide (dom (plan_client_parameters candidate) = siv_client_parameters v))
        "client parameter set mismatch";
  _ ← invariant (bool_decide (dom (plan_server_parameters candidate) = siv_server_parameters v))
        "server parameter set mismatch";
  _ ← invariant (bool_decide (plan_result candidate = siv_result v))
        "result descriptor mismatch";
  verify_string_literals (siv_string_literals v) (plan_server_parameters candidate).

(** The verifier as the trait sees it. *)
(* [sqlite/lib.rs:1119-1183] SqliteInvariantVerifier::verify *)
Definition as_verifier (v : SqliteInvariantVerifier) : PlanVerifier :=
  {| verifier_verify := invariants_hold v; verifier_profile_id := siv_profile_id v |}.
End sealing.

(** ** Sealing a protected plan *)

(* [sqlite/lib.rs:1211-1215]! check_pattern_lengths *)
Definition pattern_length (value : option LogicalValue) : Z :=
  match value with
  | Some (LogicalValue.String text) => len text
  | Some (LogicalValue.Bytes bytes) => Z.of_nat (length bytes)
  | _ => 0
  end.

(* [sqlite/lib.rs:1190-1221] check_pattern_lengths *)
Definition check_pattern_lengths (emitted : EmittedSql)
    (client_parameters : gmap string LogicalValue) : result CompileError.compile_error unit :=
  for_each (fun variable =>
    let name := default variable (strip_prefix ":" variable) in
    let value := match client_parameters !! name with
                 | Some value => Some value
                 | None => em_server_parameters emitted !! name
                 end in
    if (MAX_LIKE_PATTERN_BYTES <? pattern_length value)%Z
    then throw (CompileError.Emit (EmitError.TooComplex ComplexityCause.LikePattern))
    else mret ()) (em_pattern_variables emitted).

(** [?] on an error of the emitter, by [From]. *)
(* [sqlite/lib.rs:2179-2183]! CompileError::from *)
Definition emission_error {A} (m : result EmitError.emit_error A)
    : result CompileError.compile_error A :=
  match m with inl a => inl a | inr e => throw (CompileError.Emit e) end.

Section compiling.
Context `{Regex} `{Dialect}.
Context (plan : ProtectedPlan) (catalog : Catalog).
Context (client_parameters : gmap string LogicalValue).
Context (limits : ExecutionLimits) (snapshot : string).

(** What the four operations compute alike before they differ: the emitted SQL, once the values
    of the client are accepted for it, and the descriptors of its result. *)
(* [sqlite/lib.rs:1269-1280]! compile_verified_select *)
Definition prepare
    : result CompileError.compile_error (EmittedSql * list ResultColumnDescriptor) :=
  emitted ← emission_error (emit plan catalog);
  let analysis := analyze_client_parameters (pp_statement plan) catalog in
  _ ← validate_client_parameters analysis catalog client_parameters
        (el_max_bytes_per_value limits);
  _ ← check_pattern_lengths emitted client_parameters;
  expected_result ← emission_error
    (result_descriptors catalog (pp_statement plan) client_parameters);
  mret (emitted, expected_result).

(* [sqlite/lib.rs:1281-1288]! compile_verified_select *)
Definition plan_verifier (emitted : EmittedSql) (expected_result : list ResultColumnDescriptor)
    : result CompileError.compile_error SqliteInvariantVerifier :=
  v ← emission_error
    (verifier_new (em_sql emitted)
       (names (analyze_client_parameters (pp_statement plan) catalog))
       (dom (em_server_parameters emitted)) expected_result snapshot);
  mret (verify_string_literals_of v (pp_string_literals plan)).

(* [sqlite/lib.rs:1294-1306]! compile_verified_select *)
Definition bound_candidate (emitted : EmittedSql) (operation : OperationKind.operation_kind)
    (expected_result : list ResultColumnDescriptor) (profile : string)
    : CandidateExecutionPlan :=
  with_bindings
    (with_column_metadata_bytes
       (candidate_new (em_sql emitted) operation limits snapshot profile)
       (em_column_metadata_bytes emitted))
    client_parameters (em_server_parameters emitted) expected_result.

(** The expectations of the plan, when it has them. *)
(* [sqlite/lib.rs:1289-1291]! compile_verified_select *)
Definition verify_plan_rows (v : SqliteInvariantVerifier) : SqliteInvariantVerifier :=
  match pp_expected_result_rows plan with Some n => verify_result_rows v n | None => v end.
(* [sqlite/lib.rs:1307-1309]! compile_verified_select *)
Definition expect_plan_rows (c : CandidateExecutionPlan) : CandidateExecutionPlan :=
  match pp_expected_result_rows plan with Some n => with_expected_result_rows c n | None => c end.
(* [sqlite/lib.rs:1418-1420]! compile_verified_update *)
Definition verify_plan_affected (v : SqliteInvariantVerifier) : SqliteInvariantVerifier :=
  match pp_expected_affected_rows plan with Some n => verify_affected_rows v n | None => v end.
(* [sqlite/lib.rs:1442-1444]! compile_verified_update *)
Definition expect_plan_affected (c : CandidateExecutionPlan) : CandidateExecutionPlan :=
  match pp_expected_affected_rows plan with
  | Some n => with_expected_affected_rows c n
  | None => c
  end.

(* [sqlite/lib.rs:1426-1427]! compile_verified_insert *)
Definition check_column : result CompileError.compile_error string :=
  map_err (result_name_new CHECK_COLUMN)
    (CompileError.Emit (EmitError.InvariantViolation "invalid check column")).

(* [sqlite/lib.rs:1310-1310]! compile_verified_select *)
Definition seal (candidate : CandidateExecutionPlan) (v : SqliteInvariantVerifier)
    : result CompileError.compile_error VerifiedExecutionPlan :=
  match verify candidate (as_verifier v) with
  | inl p => inl p
  | inr e => throw (CompileError.Verification e)
  end.

(* [sqlite/lib.rs:1257-1311] compile_verified_select *)
Definition compile_verified_select : result CompileError.compile_error VerifiedExecutionPlan :=
  '(emitted, expected_result) ← prepare;
  v ← plan_verifier emitted expected_result;
  profile ← emission_error profile_id;
  seal
    (expect_plan_rows (bound_candidate emitted OperationKind.Select expected_result profile))
    (verify_plan_rows v).

(* [sqlite/lib.rs:1325-1327]! compile_verified_insert *)
Definition is_checked (statement : bool) : bool :=
  statement && bool_decide (is_Some (pp_operation_check plan)).

(* [sqlite/lib.rs:1313-1379] compile_verified_insert *)
Definition compile_verified_insert : result CompileError.compile_error VerifiedExecutionPlan :=
  let is_insert := match pp_statement plan with BoundStatement.Insert _ => true | _ => false end in
  _ ← require (is_checked is_insert) (CompileError.Emit EmitError.UnsupportedStatement);
  expected_affected_rows ← ok_or (pp_expected_affected_rows plan)
    (CompileError.Emit
       (EmitError.InvariantViolation "INSERT affected-row invariant is missing"));
  '(emitted, expected_result) ← prepare;
  v ← plan_verifier emitted expected_result;
  let v := verify_operation_check
             (verify_affected_rows (verify_operation v OperationKind.Insert)
                expected_affected_rows) in
  profile ← emission_error profile_id;
  check_column ← check_column;
  seal
    (expect_plan_rows
       (with_mutation_invariants
          (bound_candidate emitted OperationKind.Insert expected_result profile)
          expected_affected_rows check_column))
    (verify_plan_rows v).

(* [sqlite/lib.rs:1381-1449] compile_verified_update *)
Definition compile_verified_update : result CompileError.compile_error VerifiedExecutionPlan :=
  let is_update := match pp_statement plan with BoundStatement.Update _ => true | _ => false end in
  _ ← require (is_checked is_update) (CompileError.Emit EmitError.UnsupportedStatement);
  '(emitted, expected_result) ← prepare;
  v ← plan_verifier emitted expected_result;
  let v := verify_operation_check (verify_operation v OperationKind.Update) in
  profile ← emission_error profile_id;
  check_column ← check_column;
  seal
    (expect_plan_rows
       (expect_plan_affected
          (with_operation_check
             (bound_candidate emitted OperationKind.Update expected_result profile)
             check_column)))
    (verify_plan_rows (verify_plan_affected v)).

(* [sqlite/lib.rs:1451-1515] compile_verified_delete *)
Definition compile_verified_delete : result CompileError.compile_error VerifiedExecutionPlan :=
  let is_delete := match pp_statement plan with BoundStatement.Delete _ => true | _ => false end in
  let unchecked := negb (bool_decide (is_Some (pp_operation_check plan))) in
  _ ← require (is_delete && unchecked) (CompileError.Emit EmitError.UnsupportedStatement);
  '(emitted, expected_result) ← prepare;
  v ← plan_verifier emitted expected_result;
  let v := verify_operation v OperationKind.Delete in
  profile ← emission_error profile_id;
  seal
    (expect_plan_rows
       (expect_plan_affected
          (bound_candidate emitted OperationKind.Delete expected_result profile)))
    (verify_plan_rows (verify_plan_affected v)).
End compiling.
