(* ===== verification/Gateway.v ===== *)
(** * The gateway

    The crate [policysql-gateway] (lib.rs): the statements of an envelope bound, protected and
    sealed one after the other, and executed when all of them are. *)

From S2P Require Import Prelude Result F64 Utf8 Core Access Catalog Ir Policy Protect.
From S2P Require Import CompilePolicy Plan SqlAst Binding Binder Complexity Descriptors Emit.
From S2P Require Import Sealing.

(* [gateway/lib.rs:51-57] StatementRequest *)
Record StatementRequest := {
  rq_sql : string;
  rq_parameters : gmap string LogicalValue;
  rq_expected_affected_rows : option Z;
  rq_expected_row_count : option Z
}.

(* [gateway/lib.rs:59-67] CompiledStatement *)
Record CompiledStatement := {
  cs_plan : VerifiedExecutionPlan;
  cs_explain : Explain;
  cs_client_parameters : gmap string ClientParameterContract
}.

(* [gateway/lib.rs:74-82] Gateway *)
Record Gateway := {
  gw_catalog : Catalog;
  gw_policies : PolicyBundle;
  gw_snapshot : string;
  gw_limits : ExecutionLimits;
  gw_max_statements : Z;
  gw_binding_limits : BindingLimits
}.

(* [gateway/lib.rs:90-106] Gateway::new *)
Definition gateway_new (catalog : Catalog) (policies : PolicyBundle) (snapshot : string)
    (limits : ExecutionLimits) (max_statements : Z) : Gateway :=
  {| gw_catalog := catalog; gw_policies := policies; gw_snapshot := snapshot;
     gw_limits := limits; gw_max_statements := max_statements;
     gw_binding_limits := default_limits |}.

(* [gateway/lib.rs:108-113] Gateway::with_binding_limits *)
Definition with_binding_limits (g : Gateway) (binding_limits : BindingLimits) : Gateway :=
  {| gw_catalog := gw_catalog g; gw_policies := gw_policies g; gw_snapshot := gw_snapshot g;
     gw_limits := gw_limits g; gw_max_statements := gw_max_statements g;
     gw_binding_limits := binding_limits |}.

(* [gateway/lib.rs:84-87] MAX_COLUMN_METADATA_BYTES *)
Definition MAX_COLUMN_METADATA_BYTES : Z := 1048576.

Module RejectionKind.
(* [gateway/lib.rs:296-313] RejectionKind *)
Inductive rejection_kind :=
| InvalidRequest | InvalidSql | MultipleStatements | UnsupportedSql | MissingPolicy
| ForbiddenOperation | ForbiddenColumn | ForbiddenColumnContext | DuplicateResultColumn
| InvalidParameter | AmbiguousParameterType | ReservedParameter | PresetColumn | LimitExceeded
| ExpectationFailed.
End RejectionKind.

Module GatewayError.
(* [gateway/lib.rs:315-336] GatewayError *)
Inductive gateway_error :=
| AccessDenied
| SnapshotMismatch
| EnvelopeLimit
| Rejected (kind : RejectionKind.rejection_kind) (index : nat)
| TooComplex (cause : ComplexityCause.complexity_cause) (index : nat)
| EmittedSqlInvalid (index : nat)
| ExecutionFailed
| TransactionRequired.
End GatewayError.
Abbreviation GatewayError := GatewayError.gateway_error.

(** ** What is told of a failure *)

(* [gateway/lib.rs:353-384] classify_bind_error *)
Definition classify_bind_error (e : BindError) : RejectionKind.rejection_kind :=
  match e with
  | BindError.Empty | BindError.InvalidSql => RejectionKind.InvalidSql
  | BindError.MultipleStatements => RejectionKind.MultipleStatements
  | BindError.UnknownColumn | BindError.AmbiguousColumn | BindError.ImplicitRowId =>
      RejectionKind.ForbiddenColumn
  | BindError.DuplicateResultName | BindError.InvalidResultName =>
      RejectionKind.DuplicateResultColumn
  | BindError.ReservedParameterNamespace => RejectionKind.ReservedParameter
  | BindError.UnprovableParameterType => RejectionKind.AmbiguousParameterType
  | BindError.InvalidParameterName | BindError.PositionalParameter
  | BindError.UnsupportedParameterPrefix | BindError.IncompatibleTypes
  | BindError.NullComparison | BindError.InvalidLiteral => RejectionKind.InvalidParameter
  | BindError.ProjectionLimit | BindError.JoinLimit | BindError.ParameterLimit
  | BindError.ExpressionDepth | BindError.InvalidLimit => RejectionKind.LimitExceeded
  | BindError.UnknownResource => RejectionKind.ForbiddenOperation
  | BindError.Unsupported _ | BindError.MissingFrom | BindError.DuplicateAlias
  | BindError.DuplicateWriteColumn | BindError.InsertArity => RejectionKind.UnsupportedSql
  end.

(* [gateway/lib.rs:386-409] policy_rejection *)
Definition policy_rejection (e : PolicyError.policy_error) : RejectionKind.rejection_kind :=
  match e with
  | PolicyError.MissingPolicy => RejectionKind.MissingPolicy
  | PolicyError.ForbiddenColumn | PolicyError.UnknownColumn => RejectionKind.ForbiddenColumn
  | PolicyError.ForbiddenColumnContext => RejectionKind.ForbiddenColumnContext
  | PolicyError.PresetColumnOverlap => RejectionKind.PresetColumn
  | PolicyError.TooManyPolicies => RejectionKind.LimitExceeded
  | _ => RejectionKind.ForbiddenOperation
  end.

(* [gateway/lib.rs:411-429] compile_failure *)
Definition compile_failure (e : CompileError.compile_error) (index : nat) : GatewayError :=
  match e with
  | CompileError.ClientParameterMismatch | CompileError.ClientParameterTypeMismatch =>
      GatewayError.Rejected RejectionKind.InvalidParameter index
  | CompileError.Emit (EmitError.TooComplex cause) => GatewayError.TooComplex cause index
  | CompileError.Emit EmitError.ReparseFailed => GatewayError.EmittedSqlInvalid index
  | CompileError.Emit _ | CompileError.Verification _ =>
      GatewayError.Rejected RejectionKind.UnsupportedSql index
  end.

(** [Result::map_err] with a function of the error. *)
Definition map_error {E E' A} (f : E -> E') (m : result E A) : result E' A :=
  match m with inl a => inl a | inr e => throw (f e) end.

(** ** One statement *)

Section gateway.
Context `{Regex} `{Dialect} (g : Gateway).

(* [gateway/lib.rs:153-168]! Gateway::compile_envelope *)
Definition protect_statement (statement : BoundStatement) (session : TrustedSession)
    : policy_result CompileOutput :=
  match statement with
  | BoundStatement.Select _ | BoundStatement.ConstantSelect _
  | BoundStatement.JsonCollectionSelect _ => compile_select (gw_policies g) statement session
  | BoundStatement.Insert _ => compile_insert (gw_policies g) statement session
  | BoundStatement.Update _ => compile_update (gw_policies g) statement session
  | BoundStatement.Delete _ => compile_delete (gw_policies g) statement session
  end.

Definition is_select (statement : BoundStatement) : bool :=
  match statement with
  | BoundStatement.Select _ | BoundStatement.ConstantSelect _
  | BoundStatement.JsonCollectionSelect _ => true
  | _ => false
  end.

(** The rows the caller expects to be affected: none can be expected of a select, and those of
    the plan cannot be changed. *)
(* [gateway/lib.rs:173-200]! Gateway::compile_envelope *)
Definition expect_affected (plan : ProtectedPlan) (requested : option Z)
    : result RejectionKind.rejection_kind (option Z) :=
  match requested with
  | None => mret (pp_expected_affected_rows plan)
  | Some requested =>
      if is_select (pp_statement plan) then throw RejectionKind.InvalidRequest
      else
        match pp_expected_affected_rows plan with
        | Some compiled =>
            if negb (requested =? compiled)%Z then throw RejectionKind.ExpectationFailed
            else mret (Some requested)
        | None => mret (Some requested)
        end
  end.

(** The plan with the expectations of the request and the literals of its text. *)
(* [gateway/lib.rs:201-204]! Gateway::compile_envelope *)
Definition requested_plan (plan : ProtectedPlan) (affected : option Z) (row_count : option Z)
    (literals : list ClientStringLiteral) : ProtectedPlan :=
  {| pp_statement := pp_statement plan; pp_applied_policies := pp_applied_policies plan;
     pp_server_values := pp_server_values plan; pp_policy_limit := pp_policy_limit plan;
     pp_operation_check := pp_operation_check plan; pp_expected_affected_rows := affected;
     pp_expected_result_rows :=
       match row_count with Some n => Some n | None => pp_expected_result_rows plan end;
     pp_string_literals :=
       {| slw_client := literals; slw_policy := slw_policy (pp_string_literals plan) |} |}.

(* [gateway/lib.rs:205-236]! Gateway::compile_envelope *)
Definition seal_statement (plan : ProtectedPlan) (parameters : gmap string LogicalValue)
    : result CompileError.compile_error VerifiedExecutionPlan :=
  let compile :=
    match pp_statement plan with
    | BoundStatement.Select _ | BoundStatement.ConstantSelect _
    | BoundStatement.JsonCollectionSelect _ => compile_verified_select
    | BoundStatement.Insert _ => compile_verified_insert
    | BoundStatement.Update _ => compile_verified_update
    | BoundStatement.Delete _ => compile_verified_delete
    end in
  compile plan (gw_catalog g) parameters (gw_limits g) (gw_snapshot g).

(** One round of the loop, with the bytes of column metadata so far. *)
(* [gateway/lib.rs:145-258]! Gateway::compile_envelope *)
Definition compile_request (session : TrustedSession) (index : nat) (request : StatementRequest)
    (metadata_bytes : Z) : result GatewayError (CompiledStatement * Z) :=
  let rejected {A} (kind : RejectionKind.rejection_kind) : result GatewayError A :=
    throw (GatewayError.Rejected kind index) in
  document ← map_error (fun e => GatewayError.Rejected (classify_bind_error e) index)
    (bind_document (gw_binding_limits g) (gw_catalog g) (rq_sql request));
  output ← map_error (fun e => GatewayError.Rejected (policy_rejection e) index)
    (protect_statement (doc_statement document) session);
  affected ← map_error (fun kind => GatewayError.Rejected kind index)
    (expect_affected (co_plan output) (rq_expected_affected_rows request));
  let plan := requested_plan (co_plan output) affected (rq_expected_row_count request)
                (doc_string_literals document) in
  sealed_plan ← map_error (fun e => compile_failure e index)
    (seal_statement plan (rq_parameters request));
  let metadata_bytes :=
    sat_add64 metadata_bytes (plan_column_metadata_bytes (sealed sealed_plan)) in
  if (MAX_COLUMN_METADATA_BYTES <? metadata_bytes)%Z
  then throw (GatewayError.TooComplex ComplexityCause.ColumnMetadata index)
  else
    client_parameters ← map_err
      (contracts (analyze_client_parameters (pp_statement plan) (gw_catalog g)))
      (GatewayError.Rejected RejectionKind.InvalidParameter index);
    mret ({| cs_plan := sealed_plan; cs_explain := co_explain output;
             cs_client_parameters := client_parameters |}, metadata_bytes).

(** ** Envelopes *)

(* [gateway/lib.rs:143-260]! Gateway::compile_envelope *)
Fixpoint compile_requests (session : TrustedSession) (index : nat)
    (requests : list StatementRequest) (metadata_bytes : Z)
    : result GatewayError (list CompiledStatement) :=
  match requests with
  | [] => mret []
  | request :: requests =>
      '(statement, metadata_bytes) ← compile_request session index request metadata_bytes;
      statements ← compile_requests session (S index) requests metadata_bytes;
      mret (statement :: statements)
  end.

(* [gateway/lib.rs:120-261] Gateway::compile_envelope *)
Definition compile_envelope (auth : AuthContext) (permission : EndpointPermission)
    (precondition : option string) (requests : list StatementRequest)
    : result GatewayError (list CompiledStatement) :=
  if negb (bool_decide (permission ∈ auth_permissions auth))
  then throw GatewayError.AccessDenied
  else if opt_existsb (fun value => negb (String.eqb value (gw_snapshot g))) precondition
  then throw GatewayError.SnapshotMismatch
  else if match requests with [] => true | _ => false end
          || (gw_max_statements g <? Z.of_nat (length requests))%Z
  then throw GatewayError.EnvelopeLimit
  else compile_requests (auth_session auth) 0 requests 0.

(** ** Execution *)

(** The executor of the database: [None] is its failure. *)
Section executor.
Context {World Output : Type} (execute : CandidateExecutionPlan -> World -> option Output * World).

(* [gateway/lib.rs:284-292]! Gateway::execute_atomic *)
Fixpoint execute_all (statements : list CompiledStatement) (w : World)
    : result GatewayError (list Output) * World :=
  match statements with
  | [] => (mret [], w)
  | statement :: statements =>
      match execute (sealed (cs_plan statement)) w with
      | (None, w) => (throw GatewayError.ExecutionFailed, w)
      | (Some output, w) =>
          let '(outputs, w) := execute_all statements w in
          (outputs ← outputs; mret (output :: outputs), w)
      end
  end.

(* [gateway/lib.rs:263-293] Gateway::execute_atomic *)
Definition execute_atomic (auth : AuthContext) (precondition : option string)
    (requests : list StatementRequest) (w : World) : result GatewayError (list Output) * World :=
  match compile_envelope auth EndpointPermission.Execute precondition requests with
  | inr e => (throw e, w)
  | inl compiled =>
      if existsb (fun statement =>
           negb (bool_decide (plan_operation (sealed (cs_plan statement))
                              = OperationKind.Select))) compiled
      then (throw GatewayError.TransactionRequired, w)
      else execute_all compiled w
  end.
End executor.
End gateway.
