(* ===== verification/Semantics.v ===== *)
(** * What a bound statement means

    The reading of a bound select the policy compiler is held to: the rows a database with the
    semantics of SQL returns for it. Nothing here is code of the repository. What depends on the
    engine (comparison and coercion of values, LIKE and GLOB, the scalar functions, the order of
    rows) is the class [Engine]; logic is three-valued; a LIMIT below zero is no limit, which is
    what SQLite documents. *)

From S2P Require Import Prelude F64 Core Ir.

(** The operators on two values that the engine gives meaning to. *)
Module Operator.
Inductive operator :=
| Equal | NotEqual | Less | LessEqual | Greater | GreaterEqual | Like | Glob | Least | Concat.
End Operator.

(** Columns absent from a row are NULL. A key of a row is what ORDER BY compares. *)
Abbreviation Row := (gmap ColumnId LogicalValue).
Abbreviation Key := (list (LogicalValue * SortDirection.sort_direction)).

Class Engine := {
  operate : Operator.operator -> LogicalValue -> LogicalValue -> LogicalValue;
  cast_text : LogicalValue -> LogicalValue;
  call : ScalarFunction.scalar_function -> list LogicalValue -> LogicalValue;
  (** The truth value of a value; NULL has none. *)
  truth : LogicalValue -> option bool;
  (** The order of rows with these keys, as positions. *)
  order_rows : list Key -> list nat;
  (** ROW_NUMBER of the row at a position, from the partition and the key of every row. *)
  row_number : list (list LogicalValue * Key) -> nat -> LogicalValue
}.

(** The documented behaviour the theorems use: the truth of a boolean and of NULL, and the
    smaller of two integers. *)
Class EngineLaws `{Engine} : Prop := {
  truth_boolean b : truth (LogicalValue.Boolean b) = Some b;
  truth_null : truth LogicalValue.Null = None;
  least_integers m n :
    operate Operator.Least (LogicalValue.Int64 m) (LogicalValue.Int64 n)
    = LogicalValue.Int64 (Z.min m n)
}.

(** The rows of every resource. *)
Abbreviation Database := (Z -> list Row).
(** The row each resource contributes to a combination of rows. *)
Abbreviation Env := (gmap Z Row).

Record Params := {
  client_values : gmap string LogicalValue;
  server_params : gmap string LogicalValue
}.

(** A row of the result before projection: its combination of rows, the number of rows of its
    group, and its position among the rows of the result. *)
Record Frame := { fr_env : Env; fr_count : Z; fr_window : list Env; fr_index : nat }.

Definition frame_of (env : Env) : Frame :=
  {| fr_env := env; fr_count := 0; fr_window := []; fr_index := 0 |}.
Definition in_env (f : Frame) (env : Env) : Frame :=
  {| fr_env := env; fr_count := fr_count f; fr_window := fr_window f; fr_index := fr_index f |}.

Definition column_value (env : Env) (c : ColumnId) : LogicalValue :=
  default LogicalValue.Null (row ← env !! column_resource c; row !! c).

(** ** Three-valued logic *)

Definition of_truth (t : option bool) : LogicalValue :=
  match t with Some b => LogicalValue.Boolean b | None => LogicalValue.Null end.

Definition and3 (a b : option bool) : option bool :=
  match a, b with
  | Some false, _ | _, Some false => Some false
  | Some true, Some true => Some true
  | _, _ => None
  end.
Definition or3 (a b : option bool) : option bool :=
  match a, b with
  | Some true, _ | _, Some true => Some true
  | Some false, Some false => Some false
  | _, _ => None
  end.
Definition not3 (a : option bool) : option bool := negb <$> a.

Section meaning.
Context `{Engine}.

Definition is_true (v : LogicalValue) : bool :=
  match truth v with Some b => b | None => false end.

Definition and_value (l r : LogicalValue) : LogicalValue := of_truth (and3 (truth l) (truth r)).
Definition or_value (l r : LogicalValue) : LogicalValue := of_truth (or3 (truth l) (truth r)).
Definition not_value (v : LogicalValue) : LogicalValue := of_truth (not3 (truth v)).
Definition is_null_value (v : LogicalValue) : LogicalValue :=
  LogicalValue.Boolean (bool_decide (v = LogicalValue.Null)).

(** [v IN (vs)]: a disjunction of equalities. *)
Definition in_value (v : LogicalValue) (vs : list LogicalValue) (negated : bool)
    : LogicalValue :=
  let t := fold_right (fun w t => or3 (truth (operate Operator.Equal v w)) t) (Some false) vs in
  of_truth (if negated then not3 t else t).

(** The first branch whose condition holds. *)
Fixpoint case_value (branches : list (LogicalValue * LogicalValue)) (otherwise : LogicalValue)
    : LogicalValue :=
  match branches with
  | [] => otherwise
  | (condition, value) :: branches =>
      if is_true condition then value else case_value branches otherwise
  end.

(** ** Rows *)

(** The number of rows a LIMIT allows: below zero it is no limit, and a value that is no integer
    is refused, which leaves no row. *)
Definition row_bound (v : LogicalValue) : option nat :=
  match v with
  | LogicalValue.Int64 n => if (n <? 0)%Z then None else Some (Z.to_nat n)
  | _ => Some 0%nat
  end.

Definition bounded {A} (bound : option nat) (l : list A) : list A :=
  match bound with Some n => take n l | None => l end.

(** The rows an OFFSET skips. *)
Definition skipped (v : LogicalValue) : nat :=
  match v with LogicalValue.Int64 n => Z.to_nat n | _ => 0%nat end.

Section rows.
Context (db : Database) (eval : Env -> BoundExpr -> LogicalValue).

(** The combinations that extend [env] by a row of the joined resource. *)
Definition join_rows (join : BoundJoin) (env : Env) : list Env :=
  let matches :=
    List.filter (fun env => is_true (eval env (bj_on join)))
      (map (fun row => <[bj_resource join := row]> env) (db (bj_resource join))) in
  match bj_kind join, matches with
  | JoinKind.Left, [] => [<[bj_resource join := ∅]> env]
  | _, _ => matches
  end.

Definition joined_rows : list Env -> list BoundJoin -> list Env :=
  fix go envs joins :=
    match joins with
    | [] => envs
    | join :: joins => go (flat_map (join_rows join) envs) joins
    end.

Definition where_holds (predicate : option BoundExpr) (env : Env) : bool :=
  match predicate with Some predicate => is_true (eval env predicate) | None => true end.

(** FROM, JOIN and WHERE. *)
Definition source_rows (s : BoundSelect) (env : Env) : list Env :=
  List.filter (where_holds (bs_predicate s))
    (joined_rows (map (fun row => <[bs_resource s := row]> env) (db (bs_resource s)))
       (bs_joins s)).
End rows.

(** OFFSET and LIMIT. *)
Definition page {A} (eval : BoundExpr -> LogicalValue) (s : BoundSelect) (l : list A) : list A :=
  bounded (match bs_limit s with Some limit => row_bound (eval limit) | None => None end)
    (List.skipn (match bs_offset s with Some offset => skipped (eval offset) | None => 0%nat end) l).

(** ** Expressions *)

Section evaluation.
Context (db : Database) (params : Params).

Definition parameter (values : gmap string LogicalValue) (name : string) : LogicalValue :=
  default LogicalValue.Null (values !! name).

Fixpoint eval (f : Frame) (e : BoundExpr) {struct e} : LogicalValue :=
  match e with
  | BoundExpr.Column column => column_value (fr_env f) (bc_id column)
  | BoundExpr.ClientParameter name _ => parameter (client_values params) name
  | BoundExpr.ServerParameter name _ => parameter (server_params params) name
  | BoundExpr.Literal value => value
  | BoundExpr.Equal l r => operate Operator.Equal (eval f l) (eval f r)
  | BoundExpr.NotEqual l r => operate Operator.NotEqual (eval f l) (eval f r)
  | BoundExpr.Less l r => operate Operator.Less (eval f l) (eval f r)
  | BoundExpr.LessEqual l r => operate Operator.LessEqual (eval f l) (eval f r)
  | BoundExpr.Greater l r => operate Operator.Greater (eval f l) (eval f r)
  | BoundExpr.GreaterEqual l r => operate Operator.GreaterEqual (eval f l) (eval f r)
  | BoundExpr.Like l r => operate Operator.Like (eval f l) (eval f r)
  | BoundExpr.Glob l r => operate Operator.Glob (eval f l) (eval f r)
  | BoundExpr.Least l r => operate Operator.Least (eval f l) (eval f r)
  | BoundExpr.Concat l r => operate Operator.Concat (eval f l) (eval f r)
  | BoundExpr.And l r => and_value (eval f l) (eval f r)
  | BoundExpr.Or l r => or_value (eval f l) (eval f r)
  | BoundExpr.Not e => not_value (eval f e)
  | BoundExpr.IsNull e => is_null_value (eval f e)
  | BoundExpr.CastText e => cast_text (eval f e)
  | BoundExpr.In e values negated => in_value (eval f e) (map (eval f) values) negated
  | BoundExpr.Case branches otherwise _ =>
      case_value (map (fun branch => (eval f branch.1, eval f branch.2)) branches)
        (match otherwise with Some e => eval f e | None => LogicalValue.Null end)
  | BoundExpr.ConditionalOutput value visible_if =>
      if is_true (eval f visible_if) then eval f value else LogicalValue.Null
  | BoundExpr.Exists select =>
      let rows := source_rows db (fun env => eval (frame_of env)) select (fr_env f) in
      LogicalValue.Boolean
        (match page (eval f) select rows with [] => false | _ :: _ => true end)
  | BoundExpr.CountAll _ => LogicalValue.Int64 (fr_count f)
  | BoundExpr.ScalarFunction function arguments _ => call function (map (eval f) arguments)
  | BoundExpr.RowNumber _ partition_by order_by =>
      row_number
        (map (fun env =>
           (map (fun column => column_value env (bc_id column)) partition_by,
            map (fun order => (eval (in_env f env) (bo_expression order), bo_direction order))
              order_by)) (fr_window f))
        (fr_index f)
  end.

(** ** Selects *)

(** GROUP BY: the rows with one key, represented by the first of them. *)
Fixpoint group_rows {R} (fuel : nat) (key : R -> list LogicalValue) (envs : list R)
    : list (R * Z) :=
  match fuel, envs with
  | S fuel, env :: rest =>
      let same e := bool_decide (key e = key env) in
      (env, Z.of_nat (length (List.filter same envs)))
      :: group_rows fuel key (List.filter (fun e => negb (same e)) rest)
  | _, _ => []
  end.

(** The expression counts rows. What EXISTS counts are the rows of its own select. *)
Fixpoint counts (e : BoundExpr) : bool :=
  match e with
  | BoundExpr.CountAll _ => true
  | BoundExpr.Column _ | BoundExpr.ClientParameter _ _ | BoundExpr.ServerParameter _ _
  | BoundExpr.Literal _ | BoundExpr.Exists _ | BoundExpr.RowNumber _ _ _ => false
  | BoundExpr.Equal l r | BoundExpr.NotEqual l r | BoundExpr.Less l r | BoundExpr.LessEqual l r
  | BoundExpr.Greater l r | BoundExpr.GreaterEqual l r | BoundExpr.And l r | BoundExpr.Or l r
  | BoundExpr.Like l r | BoundExpr.Glob l r | BoundExpr.Least l r | BoundExpr.Concat l r
  | BoundExpr.ConditionalOutput r l => counts l || counts r
  | BoundExpr.Not e | BoundExpr.IsNull e | BoundExpr.CastText e => counts e
  | BoundExpr.In e es _ => counts e || existsb counts es
  | BoundExpr.Case branches otherwise _ =>
      existsb (fun branch => counts branch.1 || counts branch.2) branches
      || match otherwise with Some e => counts e | None => false end
  | BoundExpr.ScalarFunction _ es _ => existsb counts es
  end.
Definition is_count (p : BoundProjection) : bool := counts (bp_expression p).

Definition grouped (s : BoundSelect) (envs : list Env) : list (Env * Z) :=
  match bs_group_by s with
  | [] =>
      if existsb is_count (bs_projections s)
      then [(default ∅ (head envs), Z.of_nat (length envs))]
      else map (fun env => (env, 1)) envs
  | columns =>
      group_rows (length envs)
        (fun env => map (fun column => column_value env (bc_id column)) columns) envs
  end.

Definition group_frame (group : Env * Z) : Frame :=
  {| fr_env := group.1; fr_count := group.2; fr_window := []; fr_index := 0 |}.

Definition having_holds (s : BoundSelect) (group : Env * Z) : bool :=
  match bs_having s with
  | Some having => is_true (eval (group_frame group) having)
  | None => true
  end.

(** The rows before projection, in their order. *)
Definition frames (s : BoundSelect) : list Frame :=
  let groups := List.filter (having_holds s)
    (grouped s (source_rows db (fun env => eval (frame_of env)) s ∅)) in
  imap (fun i group => {| fr_env := group.1; fr_count := group.2;
                          fr_window := map fst groups; fr_index := i |}) groups.

Definition sort_key (s : BoundSelect) (f : Frame) : Key :=
  map (fun order => (eval f (bo_expression order), bo_direction order)) (bs_order_by s).

Definition ordered (s : BoundSelect) : list Frame :=
  omap (fun i => frames s !! i) (order_rows (map (sort_key s) (frames s))).

Definition project (s : BoundSelect) (f : Frame) : list LogicalValue :=
  map (fun p => eval f (bp_expression p)) (bs_projections s).

Definition run_select (s : BoundSelect) : list (list LogicalValue) :=
  page (eval (frame_of ∅)) s (map (project s) (ordered s)).
End evaluation.
End meaning.

(** ** Lists of rows under a map *)

Lemma filter_flat_map {A B} (p : B -> bool) (f : A -> list B) l :
  List.filter p (flat_map f l) = flat_map (fun a => List.filter p (f a)) l.
Proof. induction l as [|a l IH]; simpl; [done|]. by rewrite List.filter_app, IH. Qed.

Lemma filter_map_swap {A B} (p : B -> bool) (f : A -> B) l :
  List.filter p (map f l) = map f (List.filter (fun a => p (f a)) l).
Proof. induction l as [|a l IH]; simpl; [done|]. rewrite IH. by destruct (p (f a)). Qed.

Lemma filter_filter {A} (p q : A -> bool) l :
  List.filter p (List.filter q l) = List.filter (fun a => q a && p a) l.
Proof.
  induction l as [|a l IH]; simpl; [done|]. destruct (q a); simpl; [|done]. by rewrite IH.
Qed.

Lemma omap_lookup_map {A B} (g : A -> B) l positions :
  omap (fun i => map g l !! i) positions = map g (omap (fun i => l !! i) positions).
Proof.
  induction positions as [|i positions IH]; [done|]. cbn. change (map g l) with (g <$> l).
  rewrite list_lookup_fmap. destruct (l !! i); cbn; [f_equal|]; exact IH.
Qed.

Lemma flat_map_ext_all {A B} (f g : A -> list B) l :
  (forall a, f a = g a) -> flat_map f l = flat_map g l.
Proof. intros Hfg. induction l as [|a l IH]; simpl; [done|]. by rewrite Hfg, IH. Qed.

Lemma group_rows_map {R R'} (g : R -> R') key key' : (forall r, key (g r) = key' r) ->
  forall fuel rows,
  group_rows fuel key (map g rows)
  = map (fun group => (g group.1, group.2)) (group_rows fuel key' rows).
Proof.
  intros Hk. induction fuel as [|fuel IH]; intros [|r rows]; simpl; try done.
  rewrite !Hk, bool_decide_true by done. f_equal.
  - simpl. rewrite filter_map_swap, length_map. do 4 f_equal. apply List.filter_ext.
    intros r'. by rewrite Hk.
  - rewrite <- IH, filter_map_swap. f_equal. f_equal. apply List.filter_ext. intros r'. by rewrite Hk.
Qed.
