(* ===== verification/SqlMeaning.v ===== *)
(** * What a syntax tree means

    The reading of an SQL statement the emitter is held to: the rows the tables of a database give
    for it, under values for its parameters. Nothing here is code of the repository. Rows are
    named by the alias of their table and hold values by the names of columns; operators, functions
    and order are those of the class [Engine]. What the emitter does not produce (compound selects,
    subqueries as values, NATURAL joins and the like) has no rows or is NULL. *)

From S2P Require Import Prelude F64 Utf8 Core Catalog Ir SqlAst Semantics.

(** ** Tokens *)

Fixpoint undoubled (c : ascii) (s : string) : string :=
  match s with
  | EmptyString => EmptyString
  | String a rest =>
      match rest with
      | String b rest' =>
          if Ascii.eqb a c && Ascii.eqb b c then String a (undoubled c rest')
          else String a (undoubled c rest)
      | EmptyString => s
      end
  end.

(** The name a token stands for: in double quotes, a doubled quote is one. *)
Definition denoted (name : SqlName) : string :=
  match name with
  | exact text => text
  | from_string token =>
      match token with
      | String q rest =>
          if Ascii.eqb q double_quote
          then undoubled double_quote (substring 0 (String.length rest - 1) rest)
          else token
      | EmptyString => token
      end
  end.

(** A numeral is an integer of 64 bits if it is one, and otherwise a double. *)
Definition numeral (raw : string) : LogicalValue :=
  match parse_i64 raw with
  | Some n => LogicalValue.Int64 n
  | None => match parse_f64 raw with Some x => LogicalValue.Number x | None => LogicalValue.Null end
  end.

(** ** Rows *)

Abbreviation NamedRow := (gmap string LogicalValue).
(** The rows of the tables by their names. *)
Abbreviation Tables := (string -> list NamedRow).
(** The row each alias stands for. *)
Abbreviation SqlEnv := (gmap string NamedRow).

Record SqlFrame := {
  sf_env : SqlEnv;
  sf_count : Z;
  sf_window : list SqlEnv;
  sf_index : nat
}.
Definition sql_frame_of (env : SqlEnv) : SqlFrame :=
  {| sf_env := env; sf_count := 0; sf_window := []; sf_index := 0 |}.
Definition in_sql_env (f : SqlFrame) (env : SqlEnv) : SqlFrame :=
  {| sf_env := env; sf_count := sf_count f; sf_window := sf_window f; sf_index := sf_index f |}.

Definition table_alias_of (name : QualifiedName) (alias : option As) : string :=
  match alias with Some alias => denoted (as_name alias) | None => denoted (qn_name name) end.

Definition is_left (operator : JoinOperator.join_operator) : bool :=
  match operator with
  | JoinOperator.TypedJoin (Some (JoinType.LEFT | JoinType.LEFT_OUTER)) => true
  | _ => false
  end.

Section meaning.
Context `{Engine}.

Section rows.
Context (tables : Tables) (eval : SqlEnv -> SqlExpr -> LogicalValue).

(** The combinations that extend [env] by a row of a table. *)
Definition table_rows (table : SelectTable) (env : SqlEnv) : list SqlEnv :=
  match table with
  | SqlExpr.Table name alias _ =>
      map (fun row => <[table_alias_of name alias := row]> env) (tables (denoted (qn_name name)))
  | _ => []
  end.

Definition without_row (table : SelectTable) (env : SqlEnv) : list SqlEnv :=
  match table with
  | SqlExpr.Table name alias _ => [<[table_alias_of name alias := ∅]> env]
  | _ => []
  end.

Definition sql_join_rows (join : SqlExpr.joined_select_table) (env : SqlEnv) : list SqlEnv :=
  let '(SqlExpr.Build_Joined operator table c) := join in
  let matches :=
    List.filter (fun env => match c with Some (On e) => is_true (eval env e) | _ => true end)
      (table_rows table env) in
  match is_left operator, matches with
  | true, [] => without_row table env
  | _, _ => matches
  end.

Definition sql_joined_rows : list SqlEnv -> list SqlExpr.joined_select_table -> list SqlEnv :=
  fix go envs joins :=
    match joins with
    | [] => envs
    | join :: joins => go (flat_map (sql_join_rows join) envs) joins
    end.

Definition sql_where (predicate : option SqlExpr) (env : SqlEnv) : bool :=
  match predicate with Some predicate => is_true (eval env predicate) | None => true end.

(** FROM and WHERE. *)
Definition sql_source_rows (table : SelectTable) (joins : list SqlExpr.joined_select_table)
    (predicate : option SqlExpr) (env : SqlEnv) : list SqlEnv :=
  List.filter (sql_where predicate) (sql_joined_rows (table_rows table env) joins).
End rows.

Definition sql_page {A} (eval : SqlExpr -> LogicalValue) (limit : option SqlLimit) (l : list A)
    : list A :=
  match limit with
  | Some limit =>
      bounded (row_bound (eval (limit_expr limit)))
        (List.skipn (match limit_offset limit with
                     | Some offset => skipped (eval offset)
                     | None => 0%nat
                     end) l)
  | None => l
  end.

Definition direction (order : option SortOrder.sort_order) : SortDirection.sort_direction :=
  match order with Some SortOrder.Desc => SortDirection.Descending | _ => SortDirection.Ascending end.

Definition sql_sort_keys (eval : SqlExpr -> LogicalValue) (columns : list SortedColumn) : Key :=
  map (fun column => (eval (sc_expr column), direction (sc_order column))) columns.

(** ** Expressions *)

Section evaluation.
Context (tables : Tables) (values : string -> LogicalValue).

Definition binary_value (op : SqlOperator.sql_operator) (l r : LogicalValue) : LogicalValue :=
  match op with
  | SqlOperator.Equals => operate Operator.Equal l r
  | SqlOperator.NotEquals => operate Operator.NotEqual l r
  | SqlOperator.Less => operate Operator.Less l r
  | SqlOperator.LessEquals => operate Operator.LessEqual l r
  | SqlOperator.Greater => operate Operator.Greater l r
  | SqlOperator.GreaterEquals => operate Operator.GreaterEqual l r
  | SqlOperator.Concat => operate Operator.Concat l r
  | SqlOperator.And => and_value l r
  | SqlOperator.Or => or_value l r
  | SqlOperator.Is =>
      match r with LogicalValue.Null => is_null_value l | _ => LogicalValue.Null end
  | SqlOperator.IsNot | SqlOperator.Other => LogicalValue.Null
  end.

(** The functions by their names. *)
Definition function_value (name : string) (args : list LogicalValue) : LogicalValue :=
  match args with
  | [l; r] => if String.eqb name "MIN" then operate Operator.Least l r
              else if String.eqb name "JSON_EXTRACT" then call ScalarFunction.JsonExtract args
              else if String.eqb name "LOWER" then call ScalarFunction.Lower args
              else if String.eqb name "UPPER" then call ScalarFunction.Upper args
              else LogicalValue.Null
  | _ => if String.eqb name "JSON_EXTRACT" then call ScalarFunction.JsonExtract args
         else if String.eqb name "LOWER" then call ScalarFunction.Lower args
         else if String.eqb name "UPPER" then call ScalarFunction.Upper args
         else LogicalValue.Null
  end.

Definition literal_value (l : SqlLiteral.sql_literal) : LogicalValue :=
  match l with
  | SqlLiteral.Numeric raw => numeral raw
  | SqlLiteral.True => LogicalValue.Boolean true
  | SqlLiteral.False => LogicalValue.Boolean false
  | _ => LogicalValue.Null
  end.

Fixpoint sql_eval (f : SqlFrame) (e : SqlExpr) {struct e} : LogicalValue :=
  match e with
  | SqlExpr.Qualified source name =>
      default LogicalValue.Null (row ← sf_env f !! denoted source; row !! denoted name)
  | SqlExpr.VariableExpr variable =>
      match var_name variable ≫= strip_prefix ":" with
      | Some name => values name
      | None => LogicalValue.Null
      end
  | SqlExpr.Literal l => literal_value l
  | SqlExpr.Binary l op r => binary_value op (sql_eval f l) (sql_eval f r)
  | SqlExpr.Unary UnaryOperator.Not inner => not_value (sql_eval f inner)
  | SqlExpr.Unary UnaryOperator.Negative (SqlExpr.Literal (SqlLiteral.Numeric raw)) =>
      numeral ("-" ++ raw)
  | SqlExpr.Parenthesized [inner] => sql_eval f inner
  | SqlExpr.IsNull inner => is_null_value (sql_eval f inner)
  | SqlExpr.InList lhs negated rhs => in_value (sql_eval f lhs) (map (sql_eval f) rhs) negated
  | SqlExpr.Like l negated op r None =>
      let v := operate match op with
                       | LikeOperator.Glob => Operator.Glob
                       | _ => Operator.Like
                       end (sql_eval f l) (sql_eval f r) in
      if negated then not_value v else v
  | SqlExpr.Cast inner (Some t) =>
      if String.eqb (type_name t) "TEXT" then cast_text (sql_eval f inner) else LogicalValue.Null
  | SqlExpr.Case None pairs otherwise =>
      case_value (map (fun pair => (sql_eval f pair.1, sql_eval f pair.2)) pairs)
        (match otherwise with Some e => sql_eval f e | None => LogicalValue.Null end)
  | SqlExpr.FunctionCallStar _ _ => LogicalValue.Int64 (sf_count f)
  | SqlExpr.FunctionCall name _ args _ _ filter_over =>
      match over_clause filter_over with
      | Some (OverWindow window) =>
          row_number
            (map (fun env =>
               (map (sql_eval (in_sql_env f env)) (window_partition_by window),
                sql_sort_keys (sql_eval (in_sql_env f env)) (window_order_by window)))
               (sf_window f))
            (sf_index f)
      | _ => function_value (denoted name) (map (sql_eval f) args)
      end
  | SqlExpr.Exists
      (SqlExpr.Build_Select _
         (SqlExpr.OneSelect _ _ (Some (SqlExpr.Build_From table joins)) predicate _ _)
         _ _ limit) =>
      let rows := sql_source_rows tables (fun env => sql_eval (sql_frame_of env)) table joins
                    predicate (sf_env f) in
      LogicalValue.Boolean
        (match sql_page (sql_eval f) limit rows with [] => false | _ :: _ => true end)
  | _ => LogicalValue.Null
  end.

(** ** Selects *)

(** The expression counts rows, as a query does that has such an expression. *)
Fixpoint counts_star (e : SqlExpr) : bool :=
  match e with
  | SqlExpr.FunctionCallStar _ _ => true
  | SqlExpr.Binary l _ r | SqlExpr.Like l _ _ r _ => counts_star l || counts_star r
  | SqlExpr.Unary _ inner | SqlExpr.IsNull inner | SqlExpr.NotNull inner
  | SqlExpr.Cast inner _ => counts_star inner
  | SqlExpr.Parenthesized es | SqlExpr.FunctionCall _ _ es _ _ _ => existsb counts_star es
  | SqlExpr.InList lhs _ rhs => counts_star lhs || existsb counts_star rhs
  | SqlExpr.Case _ pairs otherwise =>
      existsb (fun pair => counts_star pair.1 || counts_star pair.2) pairs
      || match otherwise with Some e => counts_star e | None => false end
  | _ => false
  end.
Definition counts_rows (column : ResultColumn) : bool :=
  match column with ResultExpr e _ => counts_star e | _ => false end.

Definition sql_grouped (columns : list ResultColumn) (keys : list SqlExpr) (envs : list SqlEnv)
    : list (SqlEnv * Z) :=
  match keys with
  | [] =>
      if existsb counts_rows columns
      then [(default ∅ (head envs), Z.of_nat (length envs))]
      else map (fun env => (env, 1)) envs
  | _ =>
      group_rows (length envs) (fun env => map (sql_eval (sql_frame_of env)) keys) envs
  end.

Definition sql_group_frame (group : SqlEnv * Z) : SqlFrame :=
  {| sf_env := group.1; sf_count := group.2; sf_window := []; sf_index := 0 |}.

Definition sql_having (having : option SqlExpr) (group : SqlEnv * Z) : bool :=
  match having with
  | Some having => is_true (sql_eval (sql_group_frame group) having)
  | None => true
  end.

Definition sql_frames (columns : list ResultColumn) (group_by : option (GroupByOf SqlExpr))
    (envs : list SqlEnv) : list SqlFrame :=
  let groups :=
    List.filter (sql_having (group_by ≫= gb_having))
      (sql_grouped columns (match group_by with Some g => gb_exprs g | None => [] end) envs) in
  imap (fun i group => {| sf_env := group.1; sf_count := group.2;
                          sf_window := map fst groups; sf_index := i |}) groups.

Definition sql_project (columns : list ResultColumn) (f : SqlFrame) : list LogicalValue :=
  map (fun column =>
    match column with ResultExpr e _ => sql_eval f e | _ => LogicalValue.Null end) columns.

Definition run_sql (select : SqlSelect) : list (list LogicalValue) :=
  match select with
  | SqlExpr.Build_Select _
      (SqlExpr.OneSelect _ columns (Some (SqlExpr.Build_From table joins)) predicate group_by _)
      _ order_by limit =>
      let frames := sql_frames columns group_by
        (sql_source_rows tables (fun env => sql_eval (sql_frame_of env)) table joins predicate ∅) in
      let positions := order_rows (map (fun f => sql_sort_keys (sql_eval f) order_by) frames) in
      sql_page (sql_eval (sql_frame_of ∅)) limit
        (map (sql_project columns) (omap (fun i => frames !! i) positions))
  | _ => []
  end.
End evaluation.
End meaning.

(** ** What a query of a caller means

    The reading of the SQL subset (docs/sql-subset.md) that the binder is held to: the rows a
    database of resources gives for the syntax tree of a SELECT, under values for its parameters.
    Nothing here is code of the repository. A source gives rows of named values; a name stands for
    the column of that name, a qualified name for the column of the innermost source of that name,
    without regard to ASCII case. *)

(** ** Rows *)

(** The row a source stands for: its name, and its values by the names of its columns. *)
Record Entry := { en_name : string; en_columns : list (string * LogicalValue) }.
(** The sources in scope; the inner ones come later. *)
Abbreviation QueryEnv := (list Entry).

Definition find_column (name : string) (columns : list (string * LogicalValue))
    : option LogicalValue :=
  snd <$> List.find (fun column => String.eqb (fst column) name) columns.

Fixpoint first_some {A B} (f : A -> option B) (l : list A) : option B :=
  match l with
  | [] => None
  | a :: l => match f a with Some b => Some b | None => first_some f l end
  end.

(** A bare name is the column of some source; a qualified one of the innermost source so named. *)
Definition bare_column (env : QueryEnv) (name : string) : LogicalValue :=
  default LogicalValue.Null (first_some (fun entry => find_column name (en_columns entry)) (rev env)).
Definition qualified_column (env : QueryEnv) (source name : string) : LogicalValue :=
  default LogicalValue.Null
    (entry ← List.find (fun entry => String.eqb (en_name entry) source) (rev env);
     find_column name (en_columns entry)).

Definition named_row (r : ResourceDescriptor) (row : Row) : list (string * LogicalValue) :=
  map (fun column => (canonical (cd_name column), default LogicalValue.Null (row !! cd_id column)))
    (columns r).

Record QueryFrame := {
  qf_env : QueryEnv;
  qf_count : Z;
  qf_window : list QueryEnv;
  qf_index : nat
}.
Definition query_frame_of (env : QueryEnv) : QueryFrame :=
  {| qf_env := env; qf_count := 0; qf_window := []; qf_index := 0 |}.
Definition in_query_env (f : QueryFrame) (env : QueryEnv) : QueryFrame :=
  {| qf_env := env; qf_count := qf_count f; qf_window := qf_window f; qf_index := qf_index f |}.

(** [''] in a string token is one quote. *)
Definition string_value (token : string) : string :=
  match token with
  | String _ rest => undoubled single_quote (substring 0 (String.length rest - 1) rest)
  | EmptyString => EmptyString
  end.

(** The rows of a source, and its row where an outer join or a count has none: every column is
    NULL. *)
Record Source := { so_rows : list Entry; so_absent : Entry }.
(** The names of the columns a source brings into scope. *)
Definition source_names (s : Source) : list string := map fst (en_columns (so_absent s)).

Section meaning.
Context `{Engine} `{Dialect} (catalog : Catalog) (db : Database).

Definition alias_name (alias : option As) : option string :=
  match alias with
  | Some alias => if as_explicit alias then Some (canonical (as_str (as_name alias))) else None
  | None => None
  end.

(** The name of a source: its alias, or the name of the table. *)
Definition source_name (name : QualifiedName) (alias : option As) : string :=
  default (canonical (as_str (qn_name name))) (alias_name alias).

Definition table_source (table : SelectTable) : Source :=
  match table with
  | SqlExpr.Table name alias _ =>
      let entry columns := {| en_name := source_name name alias; en_columns := columns |} in
      match resource catalog (as_str (qn_name name)) with
      | Some r =>
          {| so_rows := map (fun row => entry (named_row r row)) (db (rd_id r));
             so_absent := entry (named_row r ∅) |}
      | None => {| so_rows := []; so_absent := entry [] |}
      end
  | _ => {| so_rows := []; so_absent := {| en_name := ""; en_columns := [] |} |}
  end.

Section rows.
Context (eval : QueryEnv -> SqlExpr -> LogicalValue).

Definition query_join_rows (join : SqlExpr.joined_select_table) (env : QueryEnv) : list QueryEnv :=
  let '(SqlExpr.Build_Joined operator table c) := join in
  let matches :=
    List.filter (fun env => match c with Some (On e) => is_true (eval env e) | _ => true end)
      (map (fun entry => env ++ [entry]) (so_rows (table_source table))) in
  match is_left operator, matches with
  | true, [] => [env ++ [so_absent (table_source table)]]
  | _, _ => matches
  end.

Definition query_joined_rows : list QueryEnv -> list SqlExpr.joined_select_table -> list QueryEnv :=
  fix go envs joins :=
    match joins with
    | [] => envs
    | join :: joins => go (flat_map (query_join_rows join) envs) joins
    end.

Definition query_where (predicate : option SqlExpr) (env : QueryEnv) : bool :=
  match predicate with Some predicate => is_true (eval env predicate) | None => true end.

(** FROM, JOIN and WHERE, with the entries of the first source. *)
Definition query_source_rows (entries : list Entry) (joins : list SqlExpr.joined_select_table)
    (predicate : option SqlExpr) (env : QueryEnv) : list QueryEnv :=
  List.filter (query_where predicate)
    (query_joined_rows (map (fun entry => env ++ [entry]) entries) joins).
End rows.

(** ** Expressions *)

Section evaluation.
Context (values : string -> LogicalValue).

Definition query_binary (op : SqlOperator.sql_operator) (l r : LogicalValue) : LogicalValue :=
  match op with
  | SqlOperator.Is => is_null_value l
  | SqlOperator.IsNot => not_value (is_null_value l)
  | _ => binary_value op l r
  end.

(** The functions of the subset by their names. *)
Definition query_function (name : string) (args : list LogicalValue) : LogicalValue :=
  if String.eqb name "lower" then call ScalarFunction.Lower args
  else if String.eqb name "upper" then call ScalarFunction.Upper args
  else if String.eqb name "json_extract" then call ScalarFunction.JsonExtract args
  else LogicalValue.Null.

Definition query_literal (l : SqlLiteral.sql_literal) : LogicalValue :=
  match l with
  | SqlLiteral.String token => LogicalValue.String (string_value token)
  | _ => literal_value l
  end.

(** IS and IS NOT are only read beside NULL. *)
Fixpoint query_eval (f : QueryFrame) (e : SqlExpr) {struct e} : LogicalValue :=
  match e with
  | SqlExpr.Id name | SqlExpr.Name name => bare_column (qf_env f) (canonical (as_str name))
  | SqlExpr.Qualified source name =>
      qualified_column (qf_env f) (canonical (as_str source)) (canonical (as_str name))
  | SqlExpr.VariableExpr variable =>
      match var_name variable ≫= strip_prefix ":" with
      | Some name => values name
      | None => LogicalValue.Null
      end
  | SqlExpr.Literal l => query_literal l
  | SqlExpr.Binary l op r => query_binary op (query_eval f l) (query_eval f r)
  | SqlExpr.Unary UnaryOperator.Not inner => not_value (query_eval f inner)
  | SqlExpr.Parenthesized [inner] => query_eval f inner
  | SqlExpr.IsNull inner => is_null_value (query_eval f inner)
  | SqlExpr.NotNull inner => not_value (is_null_value (query_eval f inner))
  | SqlExpr.InList lhs negated rhs => in_value (query_eval f lhs) (map (query_eval f) rhs) negated
  | SqlExpr.Like l negated op r None =>
      let v := operate match op with
                       | LikeOperator.Glob => Operator.Glob
                       | _ => Operator.Like
                       end (query_eval f l) (query_eval f r) in
      if negated then not_value v else v
  | SqlExpr.Cast inner _ => cast_text (query_eval f inner)
  | SqlExpr.Case None pairs otherwise =>
      case_value (map (fun pair => (query_eval f pair.1, query_eval f pair.2)) pairs)
        (match otherwise with Some e => query_eval f e | None => LogicalValue.Null end)
  | SqlExpr.FunctionCallStar _ _ => LogicalValue.Int64 (qf_count f)
  | SqlExpr.FunctionCall name _ args _ _ filter_over =>
      match over_clause filter_over with
      | Some (OverWindow window) =>
          row_number
            (map (fun env =>
               (map (query_eval (in_query_env f env)) (window_partition_by window),
                sql_sort_keys (query_eval (in_query_env f env)) (window_order_by window)))
               (qf_window f))
            (qf_index f)
      | _ => query_function (canonical (as_str name)) (map (query_eval f) args)
      end
  | SqlExpr.Exists
      (SqlExpr.Build_Select _
         (SqlExpr.OneSelect _ _ (Some (SqlExpr.Build_From table joins)) predicate _ _) _ _ _) =>
      LogicalValue.Boolean
        match query_source_rows (fun env => query_eval (query_frame_of env)) (so_rows (table_source table))
                joins predicate (qf_env f) with
        | [] => false
        | _ :: _ => true
        end
  | _ => LogicalValue.Null
  end.

(** ** Selects *)

Definition query_grouped (absent : QueryEnv) (columns : list ResultColumn) (keys : list SqlExpr)
    (envs : list QueryEnv) : list (QueryEnv * Z) :=
  match keys with
  | [] =>
      if existsb counts_rows columns
      then [(default absent (head envs), Z.of_nat (length envs))]
      else map (fun env => (env, 1)) envs
  | _ => group_rows (length envs) (fun env => map (query_eval (query_frame_of env)) keys) envs
  end.

Definition query_group_frame (group : QueryEnv * Z) : QueryFrame :=
  {| qf_env := group.1; qf_count := group.2; qf_window := []; qf_index := 0 |}.

Definition query_having (having : option SqlExpr) (group : QueryEnv * Z) : bool :=
  match having with
  | Some having => is_true (query_eval (query_group_frame group) having)
  | None => true
  end.

Definition query_frames (absent : QueryEnv) (columns : list ResultColumn)
    (group_by : option (GroupByOf SqlExpr)) (envs : list QueryEnv) : list QueryFrame :=
  let groups :=
    List.filter (query_having (group_by ≫= gb_having))
      (query_grouped absent columns (match group_by with Some g => gb_exprs g | None => [] end) envs) in
  imap (fun i group => {| qf_env := group.1; qf_count := group.2;
                          qf_window := map fst groups; qf_index := i |}) groups.

Definition query_project (columns : list ResultColumn) (f : QueryFrame) : list LogicalValue :=
  map (fun column =>
    match column with ResultExpr e _ => query_eval f e | _ => LogicalValue.Null end) columns.

(** The name of a result column: its alias, or the name of the column it is. *)
Definition result_name (column : ResultColumn) : string :=
  match column with
  | ResultExpr e alias =>
      match alias_name alias, e with
      | Some name, _ => name
      | None, (SqlExpr.Id name | SqlExpr.Name name | SqlExpr.Qualified _ name) =>
          canonical (as_str name)
      | None, SqlExpr.FunctionCallStar name _ => canonical (as_str name)
      | None, SqlExpr.FunctionCall name _ _ _ _ _ => canonical (as_str name)
      | None, _ => EmptyString
      end
  | _ => EmptyString
  end.

(** A table expression gives the rows of its query under its name. *)
Definition derived_source (name : string) (columns : list ResultColumn)
    (frames : list QueryFrame) : Source :=
  let names := map result_name columns in
  let entry values := {| en_name := name; en_columns := zip names values |} in
  {| so_rows := map (fun f => entry (query_project columns f)) frames;
     so_absent := entry (map (fun _ => LogicalValue.Null) names) |}.

Definition select_columns (select : SqlSelect) : list ResultColumn :=
  match select with
  | SqlExpr.Build_Select _ (SqlExpr.OneSelect _ columns _ _ _ _) _ _ _ => columns
  | _ => []
  end.

(** A bare name in ORDER BY that is no column in scope is the result column of that name. *)
Definition order_value (names : list string) (columns : list ResultColumn) (f : QueryFrame)
    (e : SqlExpr) : LogicalValue :=
  match e with
  | SqlExpr.Id name | SqlExpr.Name name =>
      if bool_decide (canonical (as_str name) ∈ names) then query_eval f e
      else
        match List.find (fun column =>
                String.eqb (result_name column) (canonical (as_str name))) columns with
        | Some (ResultExpr e _) => query_eval f e
        | _ => LogicalValue.Null
        end
  | _ => query_eval f e
  end.

Definition order_keys (names : list string) (columns : list ResultColumn)
    (order_by : list SortedColumn) (f : QueryFrame) : Key :=
  map (fun order => (order_value names columns f (sc_expr order), direction (sc_order order)))
    order_by.

(** The first source of a query: a table, a table expression, or the one of WITH it names. *)
Definition root_source (rows : SqlSelect -> list QueryFrame)
    (with_clause : option SqlExpr.sql_with) (table : SelectTable) : Source :=
  match with_clause, table with
  | Some (SqlExpr.Build_With _ [SqlExpr.Build_Cte cte _ _ select]), SqlExpr.Table name alias _ =>
      if eq_ignore_ascii_case (as_str cte) (as_str (qn_name name))
      then derived_source (default (canonical (as_str cte)) (alias_name alias))
             (select_columns select) (rows select)
      else table_source table
  | _, SqlExpr.SubSelect select alias =>
      derived_source (default EmptyString (alias_name alias)) (select_columns select) (rows select)
  | _, _ => table_source table
  end.

Definition joined_sources (joins : list SqlExpr.joined_select_table) : list Source :=
  map (fun '(SqlExpr.Build_Joined _ table _) => table_source table) joins.

(** The rows of a query before projection and order. The subset has neither ORDER BY nor LIMIT in
    a table expression. *)
Fixpoint query_rows (select : SqlSelect) : list QueryFrame :=
  match select with
  | SqlExpr.Build_Select with_clause
      (SqlExpr.OneSelect _ columns (Some (SqlExpr.Build_From table joins)) predicate group_by _)
      _ _ _ =>
      let root := root_source query_rows with_clause table in
      query_frames (map so_absent (root :: joined_sources joins)) columns group_by
        (query_source_rows (fun env => query_eval (query_frame_of env)) (so_rows root) joins
           predicate [])
  | _ => []
  end.

(** The rows of a query. *)
Definition run_query (select : SqlSelect) : list (list LogicalValue) :=
  match select with
  | SqlExpr.Build_Select with_clause
      (SqlExpr.OneSelect _ columns (Some (SqlExpr.Build_From table joins)) _ _ _) _ order_by limit =>
      let sources := root_source query_rows with_clause table :: joined_sources joins in
      let frames := query_rows select in
      let positions :=
        order_rows (map (order_keys (flat_map source_names sources) columns order_by) frames) in
      sql_page (query_eval (query_frame_of [])) limit
        (map (query_project columns) (omap (fun i => frames !! i) positions))
  | _ => []
  end.
End evaluation.
End meaning.

(** ** Well-named queries

    The names the documentation of the subset asks for: no source inside an EXISTS has the name of
    one outside, and a query over a table expression names its columns. *)

Section names.
Context `{Dialect}.

Fixpoint unshadowed (names : list string) (e : SqlExpr) : bool :=
  match e with
  | SqlExpr.Binary l _ r | SqlExpr.Like l _ _ r _ => unshadowed names l && unshadowed names r
  | SqlExpr.Unary _ inner | SqlExpr.IsNull inner | SqlExpr.NotNull inner
  | SqlExpr.Cast inner _ => unshadowed names inner
  | SqlExpr.Parenthesized es | SqlExpr.FunctionCall _ _ es _ _ _ =>
      forallb (unshadowed names) es
  | SqlExpr.InList lhs _ rhs => unshadowed names lhs && forallb (unshadowed names) rhs
  | SqlExpr.Case _ pairs otherwise =>
      forallb (fun pair => unshadowed names pair.1 && unshadowed names pair.2) pairs
      && match otherwise with Some e => unshadowed names e | None => true end
  | SqlExpr.Exists
      (SqlExpr.Build_Select _
         (SqlExpr.OneSelect _ _ (Some (SqlExpr.Build_From (SqlExpr.Table name alias _) _))
            predicate _ _) _ _ _) =>
      let source := source_name name alias in
      negb (bool_decide (source ∈ names))
      && match predicate with Some e => unshadowed (names ++ [source]) e | None => true end
  | _ => true
  end.

Definition unshadowed_option (names : list string) (e : option SqlExpr) : bool :=
  match e with Some e => unshadowed names e | None => true end.

(** The joins in the names before them; with the names after them. *)
Fixpoint joins_unshadowed (names : list string) (joins : list SqlExpr.joined_select_table)
    : bool * list string :=
  match joins with
  | [] => (true, names)
  | SqlExpr.Build_Joined _ (SqlExpr.Table name alias _) (Some (On e)) :: joins =>
      let names := names ++ [source_name name alias] in
      let '(ok, after) := joins_unshadowed names joins in (unshadowed names e && ok, after)
  | _ => (false, names)
  end.

Definition body_unshadowed (root : string) (columns : list ResultColumn)
    (joins : list SqlExpr.joined_select_table) (predicate : option SqlExpr)
    (group_by : option (GroupByOf SqlExpr)) : bool :=
  let '(ok, names) := joins_unshadowed [root] joins in
  ok && forallb (fun column =>
          match column with ResultExpr e _ => unshadowed names e | _ => true end) columns
  && unshadowed_option names predicate && unshadowed_option names (group_by ≫= gb_having).

Definition aliased (column : ResultColumn) : bool :=
  match column with
  | ResultExpr _ alias => match alias_name alias with Some _ => true | None => false end
  | _ => false
  end.

(** The name of the first source, and whether the query names what it reads from. *)
Definition root_named (well_named : SqlSelect -> bool) (with_clause : option SqlExpr.sql_with)
    (table : SelectTable) (columns : list ResultColumn) : string * bool :=
  match with_clause, table with
  | Some (SqlExpr.Build_With _ [SqlExpr.Build_Cte cte _ _ select]), SqlExpr.Table _ alias _ =>
      (default (canonical (as_str cte)) (alias_name alias),
       well_named select && forallb aliased columns)
  | _, SqlExpr.SubSelect select alias =>
      (default EmptyString (alias_name alias), well_named select && forallb aliased columns)
  | _, SqlExpr.Table name alias _ => (source_name name alias, true)
  | _, _ => (EmptyString, false)
  end.

Fixpoint well_named (select : SqlSelect) : bool :=
  match select with
  | SqlExpr.Build_Select with_clause
      (SqlExpr.OneSelect _ columns (Some (SqlExpr.Build_From table joins)) predicate group_by _)
      _ _ _ =>
      let '(root, ok) := root_named well_named with_clause table columns in
      ok && body_unshadowed root columns joins predicate group_by
  | _ => false
  end.
End names.
