(* ===== verification/Views.v ===== *)
(** * What a policy promises

    The abstract specification of the policy compiler: a role sees a database through its view,
    the rows the policy's filter holds on, with the columns the policy permits, a conditional
    column only in the rows where its condition holds. Then the shape of the selects the binder
    produces. *)

From S2P Require Import Prelude Result F64 Utf8 Core Ir Policy Protect CompilePolicy Semantics.

Section policy.
Context `{Engine} (session : TrustedSession).

(** ** The meaning of a policy predicate *)

Definition operand_value (columns : ColumnId -> LogicalValue) (operand : PolicyOperand)
    : LogicalValue :=
  match operand with
  | PolicyOperand.Session key =>
      match session_get session key with
      | Some value => LogicalValue.String value
      | None => LogicalValue.Null
      end
  | PolicyOperand.Literal value => value
  | PolicyOperand.Column column => columns (bc_id column)
  end.

Definition operator_of (operator : ComparisonOperator.comparison_operator) : Operator.operator :=
  match operator with
  | ComparisonOperator.Equal => Operator.Equal
  | ComparisonOperator.NotEqual => Operator.NotEqual
  | ComparisonOperator.Less => Operator.Less
  | ComparisonOperator.LessEqual => Operator.LessEqual
  | ComparisonOperator.Greater => Operator.Greater
  | ComparisonOperator.GreaterEqual => Operator.GreaterEqual
  | ComparisonOperator.Like => Operator.Like
  end.

(** A conjunction or disjunction of at least one value, from the left. *)
Definition fold_values (f : LogicalValue -> LogicalValue -> LogicalValue)
    (values : list LogicalValue) : LogicalValue :=
  match values with
  | [] => LogicalValue.Null
  | first :: values => fold_left f values first
  end.

Fixpoint policy_value (columns : ColumnId -> LogicalValue) (p : PolicyPredicate) : LogicalValue :=
  match p with
  | PolicyPredicate.Comparison column operator operand =>
      operate (operator_of operator) (columns (bc_id column)) (operand_value columns operand)
  | PolicyPredicate.In column values negated => in_value (columns (bc_id column)) values negated
  | PolicyPredicate.IsNull column is_null =>
      let v := is_null_value (columns (bc_id column)) in if is_null then v else not_value v
  | PolicyPredicate.And ps => fold_values and_value (map (policy_value columns) ps)
  | PolicyPredicate.Or ps => fold_values or_value (map (policy_value columns) ps)
  | PolicyPredicate.Not p => not_value (policy_value columns p)
  end.

Definition row_columns (row : Row) (c : ColumnId) : LogicalValue :=
  default LogicalValue.Null (row !! c).

Definition policy_holds (p : PolicyPredicate) (row : Row) : bool :=
  is_true (policy_value (row_columns row) p).

(** ** The view *)

(** What a role sees of a column of a row. *)
Definition visible_value (policy : SelectPolicy) (row : Row) (c : ColumnId) (v : LogicalValue)
    : option LogicalValue :=
  if bool_decide (c ∈ sp_regular_columns policy) then Some v
  else
    match sp_conditional_columns policy !! c with
    | Some visible_if => if policy_holds visible_if row then Some v else None
    | None => None
    end.

Definition mask_row (policy : SelectPolicy) (row : Row) : Row :=
  map_imap (visible_value policy row) row.

(** The rows of a resource a role sees; none of a resource it has no policy for. *)
Definition view (selected : Selected) (db : Database) : Database := fun resource =>
  match selected !! resource with
  | Some policy =>
      map (mask_row policy) (List.filter (policy_holds (sp_filter policy)) (db resource))
  | None => []
  end.
End policy.

(** The policy limit as the row bound it is. *)
Definition policy_bound (limit : option Z) : option nat :=
  Z.to_nat ∘ Z.min I64_MAX <$> limit.

(** ** Well-formed policies *)

Definition operand_of_resource (resource : Z) (operand : PolicyOperand) : bool :=
  match operand with
  | PolicyOperand.Column column => (column_resource (bc_id column) =? resource)%Z
  | _ => true
  end.

(** Every column of the predicate is one of the resource's, and a conjunction or disjunction
    has a member. *)
Fixpoint of_resource (resource : Z) (p : PolicyPredicate) : bool :=
  match p with
  | PolicyPredicate.Comparison column _ operand =>
      (column_resource (bc_id column) =? resource)%Z && operand_of_resource resource operand
  | PolicyPredicate.In column _ _ | PolicyPredicate.IsNull column _ =>
      (column_resource (bc_id column) =? resource)%Z
  | PolicyPredicate.And ps | PolicyPredicate.Or ps =>
      negb (bool_decide (length ps = 0)%nat) && forallb (of_resource resource) ps
  | PolicyPredicate.Not p => of_resource resource p
  end.

Record select_policy_valid (resource : Z) (policy : SelectPolicy) : Prop := {
  regular_of_resource c : c ∈ sp_regular_columns policy -> column_resource c = resource;
  conditional_of_resource c p :
    sp_conditional_columns policy !! c = Some p ->
    column_resource c = resource /\ of_resource resource p = true;
  columns_disjoint c p :
    sp_conditional_columns policy !! c = Some p -> c ∉ sp_regular_columns policy;
  filter_of_resource : of_resource resource (sp_filter policy) = true;
  limit_unsigned limit : sp_limit policy = Some limit -> 0 <= limit
}.

(** Every policy of the bundle is about its own resource. *)
Definition bundle_valid (b : PolicyBundle) : Prop :=
  forall r role policy, policy_of (pb_select b) r role = Some policy ->
  select_policy_valid r policy.

(** The policies of a role for some resources. *)
Definition role_policies (b : PolicyBundle) (role : string) (resources : list Z) : Selected :=
  list_to_map (omap (fun r => (fun policy => (r, policy)) <$> policy_of (pb_select b) r role)
    resources).

(** The view the caller's role has of these resources. *)
Definition role_view `{Engine} (b : PolicyBundle) (session : TrustedSession)
    (resources : list Z) (db : Database) : Database :=
  view session (role_policies b (session_role session) resources) db.

(** ** The selects of the binder *)

(** EXISTS is nowhere in the expression. *)
Fixpoint exists_free (e : BoundExpr) : bool :=
  match e with
  | BoundExpr.Exists _ => false
  | BoundExpr.Equal l r | BoundExpr.NotEqual l r | BoundExpr.Less l r | BoundExpr.LessEqual l r
  | BoundExpr.Greater l r | BoundExpr.GreaterEqual l r | BoundExpr.And l r | BoundExpr.Or l r
  | BoundExpr.Like l r | BoundExpr.Glob l r | BoundExpr.Least l r | BoundExpr.Concat l r
  | BoundExpr.ConditionalOutput l r => exists_free l && exists_free r
  | BoundExpr.Not e | BoundExpr.IsNull e | BoundExpr.CastText e => exists_free e
  | BoundExpr.In e es _ => exists_free e && forallb exists_free es
  | BoundExpr.Case branches otherwise _ =>
      forallb (fun branch => exists_free branch.1 && exists_free branch.2) branches
      && opt_forallb exists_free otherwise
  | BoundExpr.ScalarFunction _ es _ => forallb exists_free es
  | BoundExpr.RowNumber _ _ os => forallb (fun o => exists_free (bo_expression o)) os
  | _ => true
  end.

(** Every EXISTS is a plain select of one resource; its projections, which it does not return,
    and the keys of a window hold no EXISTS. *)
Fixpoint exists_plain (e : BoundExpr) : bool :=
  match e with
  | BoundExpr.Exists s =>
      bool_decide (length (bs_joins s) = 0)%nat && bool_decide (length (bs_group_by s) = 0)%nat
      && bool_decide (bs_having s = None) && bool_decide (length (bs_order_by s) = 0)%nat
      && bool_decide (bs_limit s = None) && bool_decide (bs_offset s = None)
      && opt_forallb exists_plain (bs_predicate s)
  | BoundExpr.Equal l r | BoundExpr.NotEqual l r | BoundExpr.Less l r | BoundExpr.LessEqual l r
  | BoundExpr.Greater l r | BoundExpr.GreaterEqual l r | BoundExpr.And l r | BoundExpr.Or l r
  | BoundExpr.Like l r | BoundExpr.Glob l r | BoundExpr.Least l r | BoundExpr.Concat l r
  | BoundExpr.ConditionalOutput l r => exists_plain l && exists_plain r
  | BoundExpr.Not e | BoundExpr.IsNull e | BoundExpr.CastText e => exists_plain e
  | BoundExpr.In e es _ => exists_plain e && forallb exists_plain es
  | BoundExpr.Case branches otherwise _ =>
      forallb (fun branch => exists_plain branch.1 && exists_plain branch.2) branches
      && opt_forallb exists_plain otherwise
  | BoundExpr.ScalarFunction _ es _ => forallb exists_plain es
  | BoundExpr.RowNumber _ _ os => forallb (fun o => exists_free (bo_expression o)) os
  | _ => true
  end.

(** A LIMIT or OFFSET is a literal or a parameter. *)
Definition scalar (e : BoundExpr) : bool :=
  match e with BoundExpr.Literal _ | BoundExpr.ClientParameter _ _ => true | _ => false end.

(** A select with its resources distinct and EXISTS only in WHERE. *)
Definition select_plain (s : BoundSelect) : bool :=
  bool_decide (NoDup (bs_resource s :: map bj_resource (bs_joins s)))
  && opt_forallb exists_plain (bs_predicate s)
  && forallb (fun j => exists_free (bj_on j)) (bs_joins s)
  && forallb (fun p => exists_free (bp_expression p)) (bs_projections s)
  && opt_forallb exists_free (bs_having s)
  && forallb (fun o => exists_free (bo_expression o)) (bs_order_by s)
  && opt_forallb scalar (bs_limit s) && opt_forallb scalar (bs_offset s).

(** The caller's LIMIT is a number of rows. *)
Definition limit_counts (params : Params) (s : BoundSelect) : bool :=
  opt_forallb (fun limit =>
    match limit with
    | BoundExpr.Literal (LogicalValue.Int64 n) => (0 <=? n)%Z
    | BoundExpr.ClientParameter name _ =>
        match parameter (client_values params) name with
        | LogicalValue.Int64 n => (0 <=? n)%Z
        | _ => false
        end
    | _ => false
    end) (bs_limit s).

(** ** Reasoning about the policy compiler

    The inversion of the monads of the policy compiler, the server values a computation
    collects, and the two lemmas its rewriting rests on: an instantiated predicate means what the
    policy says, and a protected expression means on the database what the client's means on the
    view. *)

(** ** Inversion *)

Lemma compile_bind_inl {A B} (k : A -> Compile B) (m : Compile A) s b s' :
  (x ← m; k x) s = inl (b, s') -> exists a s1, m s = inl (a, s1) /\ k a s1 = inl (b, s').
Proof.
  unfold mbind, compile_bind. destruct (m s) as [[a s1]|]; [|done]. by exists a, s1.
Qed.

Lemma compile_fmap_inl {A B} (f : A -> B) (m : Compile A) s b s' :
  (f <$> m) s = inl (b, s') -> exists a, m s = inl (a, s') /\ b = f a.
Proof.
  unfold fmap, compile_fmap. destruct (m s) as [[a s1]|]; [|done]. intros [= <- <-]. by exists a.
Qed.

Lemma checked_inl {A} (r : policy_result A) s a s' :
  checked r s = inl (a, s') -> r = inl a /\ s' = s.
Proof. unfold checked. destruct r; [|done]. by intros [= -> ->]. Qed.

Lemma if_some_inl {A} (f : A -> policy_result unit) o :
  if_some f o = inl () <-> option_holds (fun a => f a = inl ()) o.
Proof. by destruct o. Qed.

(** Opens the computations of the hypotheses. *)
Ltac compile_inv :=
  repeat match goal with
    | H : (_ ← _; _) = inl _ |- _ =>
        let a := fresh "a" in apply result_bind_inl in H as [a [? H]]
    | H : mbind _ _ _ = inl (_, _) |- _ =>
        let a := fresh "a" in let s := fresh "s" in
        apply compile_bind_inl in H as [a [s [? H]]]
    | H : fmap _ _ _ = inl (_, _) |- _ =>
        let a := fresh "a" in apply compile_fmap_inl in H as [a [? ->]]
    | H : checked _ _ = inl (_, _) |- _ => apply checked_inl in H as [H ->]
    | H : ok_or _ _ = inl _ |- _ => apply ok_or_inl in H
    | H : require _ _ = inl _ |- _ => apply require_inl in H
    | H : mret _ _ = inl (_, _) |- _ => injection H as ? ?; subst
    | H : unit |- _ => destruct H
    end.

(** ** Induction on policy predicates *)

Section predicate_induction.
Context (P : PolicyPredicate -> Prop).
Context (Comparison : forall c o x, P (PolicyPredicate.Comparison c o x)).
Context (In : forall c vs n, P (PolicyPredicate.In c vs n)).
Context (IsNull : forall c n, P (PolicyPredicate.IsNull c n)).
Context (And : forall ps, Forall P ps -> P (PolicyPredicate.And ps)).
Context (Or : forall ps, Forall P ps -> P (PolicyPredicate.Or ps)).
Context (Not : forall p, P p -> P (PolicyPredicate.Not p)).

Fixpoint policy_predicate_nested_ind (p : PolicyPredicate) : P p :=
  match p with
  | PolicyPredicate.Comparison c o x => Comparison c o x
  | PolicyPredicate.In c vs n => In c vs n
  | PolicyPredicate.IsNull c n => IsNull c n
  | PolicyPredicate.And ps => And ps (all_of P policy_predicate_nested_ind ps)
  | PolicyPredicate.Or ps => Or ps (all_of P policy_predicate_nested_ind ps)
  | PolicyPredicate.Not p => Not p (policy_predicate_nested_ind p)
  end.
End predicate_induction.

(** ** The server values a computation collects *)

Section server_values.
Context (session : TrustedSession).

(** The value of a server parameter is the session's value of its key. *)
Definition session_values_only (values : ServerValues) : Prop :=
  forall name value, values !! name = Some value -> exists key text,
    name = (SERVER_PARAMETER_PREFIX ++ "session_" ++ key)%string
    /\ session_get session key = Some text /\ value = LogicalValue.String text.

(** The computation only adds values of the session. *)
Definition collects {A} (m : Compile A) : Prop :=
  forall s a s', session_values_only s -> m s = inl (a, s') ->
  s ⊆ s' /\ session_values_only s'.

Lemma collects_ret {A} (a : A) : collects (mret a).
Proof. intros s b s' Hs [= <- <-]. done. Qed.

Lemma collects_bind {A B} (m : Compile A) (k : A -> Compile B) :
  collects m -> (forall a, collects (k a)) -> collects (m ≫= k).
Proof.
  intros Hm Hk s b s' Hs Hb. apply compile_bind_inl in Hb as [a [s1 [Ha Hb]]].
  destruct (Hm _ _ _ Hs Ha) as [Hle Hs1]. destruct (Hk _ _ _ _ Hs1 Hb) as [Hle' Hs'].
  split; [by etrans|done].
Qed.

Lemma collects_fmap {A B} (f : A -> B) (m : Compile A) : collects m -> collects (f <$> m).
Proof.
  intros Hm s b s' Hs Hb. apply compile_fmap_inl in Hb as [a [Ha ->]]. by eapply Hm.
Qed.

Lemma collects_checked {A} (r : policy_result A) : collects (checked r).
Proof. intros s a s' Hs Ha. by apply checked_inl in Ha as [_ ->]. Qed.

Lemma collects_traverse {A B} (f : A -> Compile B) l :
  Forall (fun a => collects (f a)) l -> collects (traverse f l).
Proof.
  induction 1 as [|a l Ha _ IH]; simpl; [apply collects_ret|].
  apply collects_bind; [done|intros b]. apply collects_bind; [done|intros bs].
  apply collects_ret.
Qed.

Lemma collects_traverse_option {A B} (f : A -> Compile B) o :
  option_holds (fun a => collects (f a)) o -> collects (traverse_option f o).
Proof.
  destruct o as [a|]; simpl; intros Ha; [|apply collects_ret].
  apply collects_bind; [done|intros b; apply collects_ret].
Qed.

Lemma append_inj s t u : (s ++ t = s ++ u)%string -> t = u.
Proof.
  induction s as [|c s IH]; rewrite ?append_nil, ?append_cons; [done|]. intros [= Htu]. by apply IH.
Qed.

Lemma from_trusted_suffix_session key name :
  from_trusted_suffix ("session_" ++ key) = inl name ->
  name = (SERVER_PARAMETER_PREFIX ++ "session_" ++ key)%string.
Proof. unfold from_trusted_suffix. case_match; [done|]. by intros [= <-]. Qed.

Lemma collects_operand operand expected :
  collects (instantiate_operand operand expected session).
Proof.
  destruct operand as [key|value|column]; simpl; [|apply collects_ret..].
  case_match; [apply collects_checked|]. intros s e s' Hs He. compile_inv.
  match goal with H : map_err _ _ = inl _ |- _ => rename H into Hname end.
  match goal with H : session_get _ _ = Some _ |- _ => rename H into Hkey end.
  unfold map_err in Hname. case_match; [|done]. injection Hname as ->.
  match goal with H : from_trusted_suffix _ = _ |- _ => apply from_trusted_suffix_session in H as -> end.
  match goal with H : insert_value _ _ _ = _ |- _ => injection H as <- end.
  split.
  - destruct (s !! (SERVER_PARAMETER_PREFIX ++ "session_" ++ key)%string) as [v|] eqn:E.
    + destruct (Hs _ _ E) as [key' [text [Hk [Ht ->]]]].
      apply append_inj in Hk. apply append_inj in Hk as <-. rewrite Hkey in Ht.
      injection Ht as <-. by rewrite (insert_id _ _ _ E).
    + by apply insert_subseteq.
  - intros name value Hv. apply lookup_insert_Some in Hv as [[<- <-]|[_ Hv]]; [by eauto|by apply Hs].
Qed.

Lemma collects_fold_logical {A} (f : A -> Compile BoundExpr) l b :
  Forall (fun a => collects (f a)) l -> collects (fold_logical f l b).
Proof.
  intros Hl. destruct Hl as [|a l Ha Hl]; simpl; [apply collects_checked|].
  apply collects_bind; [done|]. intros e. revert e.
  induction Hl as [|a' l Ha' _ IH]; intros e; [apply collects_ret|].
  apply collects_bind; [done|intros e']. apply IH.
Qed.

Lemma collects_predicate p : collects (instantiate_predicate session p).
Proof.
  induction p using policy_predicate_nested_ind; simpl.
  - apply collects_bind; [apply collects_operand|intros e; apply collects_ret].
  - apply collects_ret.
  - apply collects_ret.
  - by apply collects_fold_logical.
  - by apply collects_fold_logical.
  - by apply collects_fmap.
Qed.

Lemma collects_binary node l r : collects l -> collects r -> collects (binary node l r).
Proof.
  intros Hl Hr. apply collects_bind; [done|intros l'].
  apply collects_bind; [done|intros r'; apply collects_ret].
Qed.

Lemma collects_protect selected e : collects (protect_nested_selects selected session e).
Proof.
  induction e using bound_expr_nested_ind; simpl;
    try (apply collects_ret || by apply collects_binary || by apply collects_fmap).
  - apply collects_bind; [done|intros e']. apply collects_bind; [by apply collects_traverse|].
    intros; apply collects_ret.
  - apply collects_bind; [|intros branches; apply collects_bind;
      [by apply collects_traverse_option|intros; apply collects_ret]].
    apply collects_traverse. eapply Forall_impl; [done|]. intros [c v] [Hc Hv]. simpl.
    apply collects_bind; [done|intros c']. apply collects_bind; [done|intros v'; apply collects_ret].
  - match goal with H : select_forall _ _ |- _ => destruct H as (_ & _ & Hp & _) end.
    apply collects_bind; [by apply collects_traverse_option|intros p].
    apply collects_bind; [apply collects_checked|intros policy].
    apply collects_bind; [apply collects_predicate|intros filter; apply collects_ret].
  - apply collects_bind; [by apply collects_traverse|intros; apply collects_ret].
Qed.

Lemma collects_projections selected ps :
  collects (apply_projection_permissions ps selected session).
Proof.
  apply collects_traverse, Forall_true. intros p. unfold apply_projection_permission.
  destruct (bp_expression p); try (apply collects_ret || apply collects_checked).
  apply collects_bind; [apply collects_checked|intros policy].
  case_match; [apply collects_ret|]. apply collects_bind; [apply collects_checked|intros v].
  apply collects_bind; [apply collects_predicate|intros e; apply collects_ret].
Qed.

Lemma collects_filter_joins selected js : forall p,
  collects (filter_joins selected session p js).
Proof.
  induction js as [|j js IH]; intros p; simpl; [apply collects_ret|].
  apply collects_bind; [apply collects_checked|intros policy].
  apply collects_bind; [apply collects_predicate|intros e].
  destruct (bj_kind j); (apply collects_bind; [apply IH|intros; apply collects_ret]).
Qed.
End server_values.

Create HintDb collects.
#[export] Hint Resolve collects_ret collects_checked collects_operand collects_predicate
  collects_protect collects_projections collects_filter_joins : collects.

(** Proves that a computation collects. *)
Ltac collects :=
  repeat first
    [ solve [auto with collects]
    | apply collects_bind; [|intros ?]
    | apply collects_fmap
    | apply collects_traverse, Forall_true; intros ?
    | apply collects_traverse_option; match goal with |- option_holds _ ?o => destruct o end
    | progress simpl | done
    | match goal with |- collects _ (match ?x with _ => _ end) => destruct x end ].

Lemma run_collects {A} session (m : Compile A) a values :
  collects session m -> run_compile m = inl (a, values) -> session_values_only session values.
Proof. intros Hm Hr. by eapply (Hm ∅); [|exact Hr]. Qed.
