(* ===== verification/SerdeJson.v ===== *)
(** * The serde_json interface

    serde and serde_json are third-party: their parsers and printers are
    operations of the class [Serde], with the documented behaviour the code
    relies on as the laws of [SerdeLaws]. The data they exchange with the
    program is concrete: [Value] ([serde_json::Value], whose objects are
    [BTreeMap]s, hence sorted), [Doc] (what a [Serialize] implementation hands
    the printer, members in declaration order, raw JSON embedded verbatim) and
    [Stream] (what a [Deserializer] drives a [Visitor] with). *)

From S2P Require Import Prelude F64.

(** [serde_json::Number]. *)
Module Number.
Inductive number :=
| PosInt (n : Z)
| NegInt (n : Z)
| Float (f : f64).

Definition is_f64 (n : number) : bool := match n with Float _ => true | _ => false end.
Definition as_u64 (n : number) : option Z := match n with PosInt n => Some n | _ => None end.
Definition as_f64 (n : number) : f64 :=
  match n with PosInt n | NegInt n => F64.of_Z n | Float f => f end.
End Number.
Abbreviation number := Number.number.

(** [serde_json::Value]. *)
Module Value.
Inductive value :=
| Null
| Bool (b : bool)
| Number (n : number)
| String (s : string)
| Array (items : list value)
| Object (members : list (string * value)).

Definition get (key : string) (v : value) : option value :=
  match v with Object ms => assoc key ms | _ => None end.
Definition as_str (v : value) : option string :=
  match v with String s => Some s | _ => None end.
Definition as_u64 (v : value) : option Z :=
  match v with Number n => Number.as_u64 n | _ => None end.
Definition as_object (v : value) : option (list (string * value)) :=
  match v with Object ms => Some ms | _ => None end.
Definition as_array (v : value) : option (list value) :=
  match v with Array l => Some l | _ => None end.
Definition is_object (v : value) : bool := match v with Object _ => true | _ => false end.
Definition is_string (v : value) : bool := match v with String _ => true | _ => false end.
Definition is_true (v : value) : bool := match v with Bool true => true | _ => false end.

(** [input.get(key).and_then(Value::as_str)]. *)
Definition get_str (key : string) (v : value) : option string := get key v ≫= as_str.

(** [BTreeMap::insert]. *)
Fixpoint insert (k : string) (v : value) (l : list (string * value)) : list (string * value) :=
  match l with
  | [] => [(k, v)]
  | (k', v') :: l' =>
      match String.compare k k' with
      | Lt => (k, v) :: l
      | Eq => (k, v) :: l'
      | Gt => (k', v') :: insert k v l'
      end
  end.

(** [json!({ ... })]. *)
Definition object (fields : list (string * value)) : value :=
  Object (foldl (fun m '(k, v) => insert k v m) [] fields).

Definition u64 (n : Z) : value := Number (Number.PosInt n).
Definition of_option {A} (f : A -> value) (o : option A) : value :=
  match o with Some a => f a | None => Null end.
End Value.
Abbreviation value := Value.value.

(** A serialized document. *)
Inductive Doc :=
| DNull
| DBool (b : bool)
| DNum (n : number)
| DStr (s : string)
| DRaw (text : string)
| DSeq (items : list Doc)
| DMap (members : list (string * Doc)).

Definition DU64 (n : Z) : Doc := DNum (Number.PosInt n).
Definition DOpt {A} (f : A -> Doc) (o : option A) : Doc :=
  match o with Some a => f a | None => DNull end.

(** A member with [skip_serializing_if = "Option::is_none"]. *)
Definition opt_member {A} (key : string) (f : A -> Doc) (o : option A) : list (string * Doc) :=
  match o with Some a => [(key, f a)] | None => [] end.

Fixpoint doc_of_value (v : value) : Doc :=
  match v with
  | Value.Null => DNull
  | Value.Bool b => DBool b
  | Value.Number n => DNum n
  | Value.String s => DStr s
  | Value.Array l => DSeq (map doc_of_value l)
  | Value.Object ms => DMap (map (fun '(k, v) => (k, doc_of_value v)) ms)
  end.

(** The events of a deserializer: every scalar, sequence and map in text order.
    An error ends the events; [DeError] is the error's displayed message. *)
Definition DeError := string.

Inductive Stream :=
| SUnit
| SBool (b : bool)
| SU64 (n : Z)
| SI64 (n : Z)
| SF64 (f : f64)
| SStr (s : string)
| SSeq (items : SeqAccess)
| SMap (entries : MapAccess)
| SErr (e : DeError)
with SeqAccess :=
| SeqEnd
| SeqNext (item : Stream) (rest : SeqAccess)
| SeqErr (e : DeError)
with MapAccess :=
| MapEnd
| MapNext (key : string) (item : Stream) (rest : MapAccess)
| MapErr (e : DeError).

Class Serde := {
  (** [serde_json::to_string]. *)
  to_string : Doc -> string;
  (** [RawValue::from_string]. *)
  raw_from_string : string -> option string;
  (** [serde_json::from_str::<Value>]. *)
  from_str_value : string -> option value;
  (** [serde_json::from_str::<BTreeMap<String, Box<RawValue>>>]: the members in key order. *)
  from_str_members : string -> option (list (string * string));
  (** [Deserializer::from_str] and [Deserializer::end]: the events, and whether only
      whitespace follows. *)
  from_str_events : string -> Stream * bool;
  (** [de::Error::custom], displayed. *)
  custom : string -> DeError;
  (** The [Display] of a [Number] that holds a double. *)
  display_f64 : f64 -> string
}.

Class SerdeLaws `{Serde} := {
  (** A printed document is JSON text, which a raw value holds as it is. *)
  raw_of_printed d : raw_from_string (to_string d) = Some (to_string d);
  (** A struct or map prints as an object. *)
  map_brace ms : starts_with "{" (to_string (DMap ms)) = true
}.
