(* ===== verification/Compiler.v ===== *)
(** * The policy compiler as the step machine sees it

    [machine/compiler.rs]: the data exchanged with the compiler, and the trait
    [Compiler] as a class. The Rust methods take [&self] and keep a table of
    execution handles; here the table is the state [CS] the methods thread.
    [CompilerLaws] is what the trait's documentation promises of the handles:
    a compile that succeeds adds one fresh live handle, a release removes its
    handle, and nothing else changes the table. *)

From S2P Require Import Prelude F64 SerdeJson.

(* [transaction/machine/compiler.rs:12-19] Operation *)
Module Operation.
Inductive operation := Select | Insert | Update | Delete.

(* [transaction/machine/compiler.rs:21-31] Operation *)
Definition operation_as_str (o : operation) : string :=
  match o with
  | Select => "select"
  | Insert => "insert"
  | Update => "update"
  | Delete => "delete"
  end.

#[export] Instance operation_eq_dec : EqDecision operation.
Proof. solve_decision. Defined.
End Operation.
Abbreviation operation := Operation.operation.
Export (hints) Operation.

(* [transaction/machine/compiler.rs:33-44] CoreError *)
Record CoreError := {
  err_code : string;
  err_message : string;
  err_path : option string;
  err_log : option value
}.

(* [transaction/machine/compiler.rs:47-55] CoreError::new *)
Definition core_error_new (code message : string) : CoreError :=
  {| err_code := code; err_message := message; err_path := None; err_log := None |}.

(* [transaction/machine/compiler.rs:58-67] StatementLimits *)
Record StatementLimits := {
  max_rows : Z;
  max_result_bytes : Z;
  timeout_ms : Z
}.

(* [transaction/machine/compiler.rs:69-78] StatementSummary *)
Record StatementSummary := {
  sum_operation : operation;
  sum_resource : option string;
  sum_limits : StatementLimits;
  sum_explain_resource : option Z
}.

(* [transaction/machine/compiler.rs:80-87] Compiled *)
Record Compiled := {
  handle : Z;
  statements : list StatementSummary;
  schema_version : string;
  policy_version : string
}.

(* [transaction/machine/compiler.rs:89-97] Compiled *)
Definition read_only (c : Compiled) : bool :=
  forallb (fun s => bool_decide (sum_operation s = Operation.Select)) (statements c).

(* [transaction/machine/compiler.rs:99-108] DriverStatement *)
Record DriverStatement := {
  sql : string;
  client_parameters : list (string * value);
  server_parameters : list (string * value);
  cost_sql : string
}.

(* [transaction/machine/compiler.rs:110-116] RawResult *)
Record RawResult := {
  raw_columns : list string;
  raw_rows : list (list value);
  raw_affected_rows : Z
}.

(* [transaction/machine/compiler.rs:118-129] ResultBudget *)
Record ResultBudget := {
  budget_raw_bytes : Z;
  budget_values : Z;
  budget_result_bytes : Z
}.

(* [transaction/machine/compiler.rs:131-146] Validated *)
Record Validated := {
  val_raw_bytes : Z;
  val_values : Z;
  val_columns : list string;
  val_rows : list (list value);
  val_redactions : list (list bool);
  val_affected_rows : Z;
  val_result_columns : list string;
  val_operation_check : bool
}.

(* [transaction/machine/compiler.rs:200-212] TriggeredCheck *)
Record TriggeredCheck := {
  check_id : string;
  check_role : option string;
  check_timeout_ms : Z
}.

(* [transaction/machine/compiler.rs:148-198] Compiler *)
Class Compiler := {
  CS : Type;
  snapshot_of : CS -> string;
  compile : CS -> string -> string -> CS * (Compiled + CoreError);
  driver_statements : CS -> Z -> list DriverStatement + CoreError;
  raw_result_bound_of : CS -> Z -> Z + CoreError;
  validate : CS -> Z -> Z -> RawResult -> ResultBudget -> Validated + CoreError;
  release_handle : CS -> Z -> CS;
  triggered_checks : CS -> list string -> list TriggeredCheck
}.

Class CompilerLaws `{Compiler} := {
  (** The live handles of the execution-handle table. *)
  live : CS -> gset Z;
  compile_ok cs auth envelope cs' c :
    compile cs auth envelope = (cs', inl c) ->
    (handle c ∉ live cs) /\ live cs' = {[handle c]} ∪ live cs;
  compile_err cs auth envelope cs' e :
    compile cs auth envelope = (cs', inr e) -> live cs' = live cs;
  release_live cs h : live (release_handle cs h) = live cs ∖ {[h]};
  snapshot_compile cs auth envelope :
    snapshot_of (fst (compile cs auth envelope)) = snapshot_of cs;
  snapshot_release cs h : snapshot_of (release_handle cs h) = snapshot_of cs
}.
