(* ===== verification/State.v ===== *)
(** * Durable and volatile state

    [machine/state.rs]: the shapes of the durable record and of the volatile
    part, their bounds, and the consistency rules that make a value readable.
    The durable record is what a successor owner must see; the volatile part
    dies with the owner instance. Both cross the boundary as JSON text, through
    the generated (de)serializers of the class [StateSerde]. *)

From S2P Require Import Prelude F64 SerdeJson Compiler.

(* [transaction/machine/mod.rs:37-38] MAX_SAFE_INTEGER *)
Definition MAX_SAFE_INTEGER : Z := 9007199254740991.
(* [transaction/machine/mod.rs:39-41] MAX_TIME_MS *)
Definition MAX_TIME_MS : Z := 253402300799999 - 86400000.

(* [transaction/machine/state.rs:13-14] TX_STATE_VERSION *)
Definition TX_STATE_VERSION : Z := 1.
(* [transaction/machine/state.rs:15-16] MAX_DURABLE_BYTES *)
Definition MAX_DURABLE_BYTES : Z := 96 * 1024.
(* [transaction/machine/state.rs:17-18] MAX_VOLATILE_BYTES *)
Definition MAX_VOLATILE_BYTES : Z := 256 * 1024.
(* [transaction/machine/state.rs:19-20] MAX_MUTATIONS *)
Definition MAX_MUTATIONS : Z := 256.
(* [transaction/machine/state.rs:21-22] MAX_RESOURCE_NAME_BYTES *)
Definition MAX_RESOURCE_NAME_BYTES : Z := 1024.
(* [transaction/machine/state.rs:23-27] DURABLE_FIXED_BYTES *)
Definition DURABLE_FIXED_BYTES : Z := 2 * 1024.
(* [transaction/machine/state.rs:28-29] MUTATION_FIXED_BYTES *)
Definition MUTATION_FIXED_BYTES : Z := 64.
(* [transaction/machine/state.rs:30-32] REPLY_FIXED_BYTES *)
Definition REPLY_FIXED_BYTES : Z := 512.

(* [transaction/machine/state.rs:34-62] durable_bound_holds *)
Definition durable_bound_holds `{Target} (deployment_bytes max_transaction_statements
    max_transaction_result_bytes longest_resource_name : Z) : bool :=
  if (max_transaction_statements <=? usize_max)%Z && (max_transaction_result_bytes <=? usize_max)%Z
  then
    let add := sat_add usize_max in
    (max_transaction_statements <=? MAX_MUTATIONS)%Z
    && (longest_resource_name <=? MAX_RESOURCE_NAME_BYTES)%Z
    && (add (add (add (add DURABLE_FIXED_BYTES deployment_bytes) REPLY_FIXED_BYTES)
                 max_transaction_result_bytes)
            (sat_mul usize_max max_transaction_statements
                     (MUTATION_FIXED_BYTES + longest_resource_name))
        <=? MAX_DURABLE_BYTES)%Z
  else false.

(* [transaction/machine/state.rs:64-76] Phase *)
Module Phase.
Inductive phase :=
| Active | Validating | Committing | Committed | RolledBack
| Failed | Expired | CommitUnknown | Discarded.

#[export] Instance phase_eq_dec : EqDecision phase.
Proof. solve_decision. Defined.

(* [transaction/machine/state.rs:79-83] Phase::has_deadline *)
Definition has_deadline (p : phase) : bool :=
  match p with Active | Validating | Committing => true | _ => false end.

(* [transaction/machine/state.rs:85-89] Phase::is_terminal *)
Definition is_terminal (p : phase) : bool := negb (has_deadline p).

(* [transaction/machine/state.rs:91-104] Phase::as_str *)
Definition phase_as_str (p : phase) : string :=
  match p with
  | Active => "active"
  | Validating => "validating"
  | Committing => "committing"
  | Committed => "committed"
  | RolledBack => "rolled_back"
  | Failed => "failed"
  | Expired => "expired"
  | CommitUnknown => "commit_unknown"
  | Discarded => "discarded"
  end.
End Phase.
Abbreviation phase := Phase.phase.
Export (hints) Phase.

(* [transaction/machine/state.rs:107-115] Kind *)
Module Kind.
Inductive kind := Interactive | Atomic.
#[export] Instance kind_eq_dec : EqDecision kind.
Proof. solve_decision. Defined.
End Kind.
Export (hints) Kind.

(** [byte.is_ascii_digit() || (b'a'..=b'f').contains(&byte)] on every byte. *)
Definition all_hex (s : string) : bool := str_forallb is_hex_lower s.

(* [transaction/machine/state.rs:339-344] hex64 *)
Definition hex64 (value : string) : bool := (len value =? 64)%Z && all_hex value.

(* [transaction/machine/state.rs:346-353] owner_name *)
Definition owner_name (value : string) : bool :=
  opt_existsb (fun hex => (len hex =? 32)%Z && all_hex hex) (strip_prefix "tx_" value).

(** [value.chars().any(char::is_control)] on UTF-8 bytes: U+0000 to U+001F,
    U+007F, and U+0080 to U+009F (a C2 lead byte and 80 to 9F). *)
Fixpoint has_control (s : string) : bool :=
  match s with
  | EmptyString => false
  | String c s' =>
      (byte_of c <? 32)%Z || (byte_of c =? 127)%Z
      || ((byte_of c =? 194)%Z
          && match s' with String d _ => in_range 128 159 (byte_of d) | EmptyString => false end)
      || has_control s'
  end.

(* [transaction/machine/state.rs:355-358] short_text *)
Definition short_text (value : string) : bool :=
  negb (String.eqb value "") && (len value <=? 1024)%Z && negb (has_control value).

(* [transaction/machine/state.rs:117-125] AtomicIds *)
Record AtomicIds := { ids_transaction_id : string; ids_key_hash : option string }.

(* [transaction/machine/state.rs:128-140] AtomicIds::is_valid *)
Definition atomic_ids_valid (ids : AtomicIds) : bool :=
  opt_existsb (fun hex => ((len hex =? 24)%Z || (len hex =? 32)%Z) && all_hex hex)
    (strip_prefix "atomic_" (ids_transaction_id ids))
  && opt_forallb hex64 (ids_key_hash ids).

(* [transaction/machine/state.rs:143-148] Mode *)
Module Mode.
Inductive mode := Read | Write.
#[export] Instance mode_eq_dec : EqDecision mode.
Proof. solve_decision. Defined.
(* [transaction/machine/state.rs:150-158] Mode *)
Definition mode_as_str (m : mode) : string :=
  match m with Read => "read" | Write => "write" end.
End Mode.
Export (hints) Mode.

(* [transaction/machine/state.rs:160-171] Identity *)
Record Identity := {
  auth_fingerprint : string;
  replay : string;
  start_fingerprint : string;
  mode : Mode.mode
}.

(* [transaction/machine/state.rs:173-182] Binding *)
Record Binding := {
  version : Z;
  scope : string;
  database_id : string;
  generation : string;
  bind_snapshot : string
}.
#[export] Instance binding_eq_dec : EqDecision Binding.
Proof. solve_decision. Defined.

(* [transaction/machine/state.rs:200-205] binding_part *)
Definition binding_part (part : string) : bool :=
  in_range 1 256 (len part)
  && str_forallb (fun c => is_alnum c
       || in_range 95 95 (byte_of c) || in_range 46 46 (byte_of c)
       || in_range 58 58 (byte_of c) || in_range 45 45 (byte_of c)) part.

(* [transaction/machine/state.rs:185-197] Binding::is_valid *)
Definition binding_valid (b : Binding) : bool :=
  (version b =? 1)%Z
  && forallb binding_part [scope b; database_id b; generation b; bind_snapshot b].

(* [transaction/machine/state.rs:207-213] Replay *)
Record Replay := { digest : string; response : string }.

(* [transaction/machine/state.rs:215-221] Usage *)
Record Usage := { rows_read : Z; rows_written : Z; query_duration_ms : f64 }.

(* [transaction/machine/state.rs:224-230] Usage::is_valid *)
Definition usage_valid (u : Usage) : bool :=
  F64.is_finite (query_duration_ms u)
  && F64.leb F64.zero (query_duration_ms u)
  && (rows_read u <=? MAX_SAFE_INTEGER)%Z
  && (rows_written u <=? MAX_SAFE_INTEGER)%Z.

(* [transaction/machine/state.rs:233-239] Counters *)
Record Counters := { cnt_statements : Z; result_bytes : Z; usage : Usage }.

(** [Counters::default()]. *)
Definition counters_default : Counters :=
  {| cnt_statements := 0; result_bytes := 0;
     usage := {| rows_read := 0; rows_written := 0; query_duration_ms := F64.zero |} |}.

(** The derived [==] of [Counters], which compares the duration as a double. *)
Definition counters_eqb (a b : Counters) : bool :=
  (cnt_statements a =? cnt_statements b)%Z
  && (result_bytes a =? result_bytes b)%Z
  && (rows_read (usage a) =? rows_read (usage b))%Z
  && (rows_written (usage a) =? rows_written (usage b))%Z
  && F64.eqb (query_duration_ms (usage a)) (query_duration_ms (usage b)).

(* [transaction/machine/state.rs:241-248] Mutation *)
Record Mutation := { mut_index : Z; mut_operation : operation; mut_resource : string }.

(* [transaction/machine/state.rs:250-255] Versions *)
Record Versions := { schema : string; policy : string }.

(* [transaction/machine/state.rs:267-283] Record *)
Record TxRecord := {
  rec_owner : string;
  rec_kind : Kind.kind;
  rec_phase : phase;
  identity : Identity;
  binding : Binding;
  rec_snapshot : string;
  rec_expires_at_ms : option Z;
  next_sequence : Z;
  last : option Replay;
  counters : Counters;
  mutations : list Mutation;
  versions : option Versions;
  rec_atomic : option AtomicIds
}.

(* [transaction/machine/state.rs:257-265] Durable *)
Module Durable.
Inductive durable :=
| Tombstone (owner : string)
| Live (record : TxRecord).
End Durable.
Abbreviation durable := Durable.durable.

(* [transaction/machine/state.rs:285-314] DurableWire *)
Record DurableWire := {
  w_v : Z;
  w_owner : string;
  w_phase : phase;
  w_kind : option Kind.kind;
  w_identity : option Identity;
  w_binding : option Binding;
  w_snapshot : option string;
  w_expires_at_ms : option Z;
  w_next_sequence : option Z;
  w_last : option Replay;
  w_counters : option Counters;
  w_mutations : option (list Mutation);
  w_versions : option Versions;
  w_atomic : option AtomicIds
}.

(* [transaction/machine/state.rs:316-324] Unreadable *)
Module Unreadable.
Inductive unreadable := TooLarge | Malformed | Version | Owner | Inconsistent.
(* [transaction/machine/state.rs:326-337] Unreadable *)
Definition unreadable_as_str (u : unreadable) : string :=
  match u with
  | TooLarge => "too_large"
  | Malformed => "malformed"
  | Version => "version"
  | Owner => "owner"
  | Inconsistent => "inconsistent"
  end.
End Unreadable.

(* [transaction/machine/state.rs:547-555] Connection *)
Module Connection.
Inductive connection := None | Opening | Open | Closing.
#[export] Instance connection_eq_dec : EqDecision connection.
Proof. solve_decision. Defined.
End Connection.
Export (hints) Connection.

(* [transaction/machine/state.rs:557-570] Awaited *)
Module Awaited.
Inductive awaited :=
| Open | CheckBinding | Execute | Commit | Rollback | SetTimer | Persist
| CallValidator | Forward.
#[export] Instance awaited_eq_dec : EqDecision awaited.
Proof. solve_decision. Defined.
End Awaited.
Export (hints) Awaited.

(* [transaction/machine/state.rs:572-577] Pending *)
Record Pending := { pend_id : Z; pend_effect : Awaited.awaited }.

(* [transaction/machine/state.rs:579-586] WorkLane *)
Module WorkLane.
Inductive work_lane := Client | Background.
#[export] Instance work_lane_eq_dec : EqDecision work_lane.
Proof. solve_decision. Defined.
End WorkLane.
Export (hints) WorkLane.

(* [transaction/machine/state.rs:822-834] CommitChecks *)
Record CommitChecks := {
  cc_sequence : Z;
  cc_digest : string;
  cc_auth : string;
  cc_checks : list TriggeredCheck;
  cc_index : Z
}.

(** ** The durable record *)

(* [transaction/machine/state.rs:361-367] Durable::owner *)
Definition durable_owner (d : durable) : string :=
  match d with
  | Durable.Tombstone owner => owner
  | Durable.Live record => rec_owner record
  end.

(* [transaction/machine/state.rs:369-375] Durable::phase *)
Definition durable_phase (d : durable) : phase :=
  match d with
  | Durable.Tombstone _ => Phase.Discarded
  | Durable.Live record => rec_phase record
  end.

(* [transaction/machine/state.rs:502-514]! Record::is_consistent *)
Definition kind_consistent (r : TxRecord) : bool :=
  match rec_kind r with
  | Kind.Interactive => bool_decide (rec_atomic r = None)
  | Kind.Atomic =>
      bool_decide (rec_phase r ∈ [Phase.Active; Phase.Committed; Phase.Failed; Phase.Expired])
      && opt_existsb atomic_ids_valid (rec_atomic r)
      && (next_sequence r =? 1)%Z
      && counters_eqb (counters r) counters_default
      && bool_decide (mutations r = [])
      && bool_decide (mode (identity r) = Mode.Write)
  end.

(* [transaction/machine/state.rs:515-525]! Record::is_consistent *)
Definition mutations_consistent (r : TxRecord) : bool :=
  (Z.of_nat (length (mutations r)) <=? MAX_MUTATIONS)%Z
  && windows2 (fun a b => mut_index a <? mut_index b)%Z (mutations r)
  && forallb (fun m =>
       (mut_index m <? cnt_statements (counters r))%Z
       && negb (bool_decide (mut_operation m = Operation.Select))
       && negb (String.eqb (mut_resource m) "")
       && (len (mut_resource m) <=? MAX_RESOURCE_NAME_BYTES)%Z) (mutations r).

(* [transaction/machine/state.rs:487-488]! Record::is_consistent *)
Definition deadline_consistent (r : TxRecord) : bool :=
  Bool.eqb (bool_decide (is_Some (rec_expires_at_ms r))) (Phase.has_deadline (rec_phase r))
  && opt_forallb (fun at_ms => at_ms <=? MAX_TIME_MS)%Z (rec_expires_at_ms r).

(* [transaction/machine/state.rs:489-492]! Record::is_consistent *)
Definition sequence_consistent (r : TxRecord) : bool :=
  (1 <=? next_sequence r)%Z
  && (next_sequence r <=? MAX_SAFE_INTEGER)%Z
  && Bool.eqb (bool_decide (is_Some (last r))) (1 <? next_sequence r)%Z
  && (cnt_statements (counters r) <? next_sequence r)%Z.

(* [transaction/machine/state.rs:526-529]! Record::is_consistent *)
Definition versions_consistent (r : TxRecord) : bool :=
  Bool.eqb (bool_decide (is_Some (versions r))) (0 <? cnt_statements (counters r))%Z
  && opt_forallb (fun v => short_text (schema v) && short_text (policy v)) (versions r).

(* [transaction/machine/state.rs:497-499]! Record::is_consistent *)
Definition terminal_reply_consistent (r : TxRecord) : bool :=
  bool_decide (rec_kind r = Kind.Atomic)
  || negb (bool_decide (rec_phase r ∈ [Phase.Committed; Phase.RolledBack]))
  || bool_decide (is_Some (last r)).

(* [transaction/machine/state.rs:479-544] Record::is_consistent *)
Definition record_consistent (r : TxRecord) : bool :=
  let id := identity r in
  hex64 (auth_fingerprint id) && hex64 (replay id) && hex64 (start_fingerprint id)
  && kind_consistent r
  && deadline_consistent r
  && sequence_consistent r
  && opt_forallb (fun l => hex64 (digest l) && starts_with "{" (response l)) (last r)
  && terminal_reply_consistent r
  && mutations_consistent r
  && versions_consistent r
  && usage_valid (usage (counters r))
  && (result_bytes (counters r) <=? MAX_SAFE_INTEGER)%Z
  && binding_valid (binding r)
  && String.eqb (bind_snapshot (binding r)) (rec_snapshot r)
  && short_text (rec_snapshot r)
  && owner_name (rec_owner r).

(* [transaction/machine/state.rs:399-433] Durable::from_wire *)
Definition from_wire (w : DurableWire) : option durable :=
  if negb (owner_name (w_owner w)) then None
  else if bool_decide (w_phase w = Phase.Discarded) then
    match w_kind w, w_identity w, w_binding w, w_snapshot w, w_expires_at_ms w, w_next_sequence w,
          w_last w, w_counters w, w_mutations w, w_versions w, w_atomic w with
    | None, None, None, None, None, None, None, None, None, None, None =>
        Some (Durable.Tombstone (w_owner w))
    | _, _, _, _, _, _, _, _, _, _, _ => None
    end
  else
    k ← w_kind w;
    i ← w_identity w;
    b ← w_binding w;
    s ← w_snapshot w;
    n ← w_next_sequence w;
    c ← w_counters w;
    m ← w_mutations w;
    let record := {|
      rec_owner := w_owner w; rec_kind := k; rec_phase := w_phase w; identity := i; binding := b;
      rec_snapshot := s; rec_expires_at_ms := w_expires_at_ms w; next_sequence := n;
      last := w_last w; counters := c; mutations := m; versions := w_versions w;
      rec_atomic := w_atomic w |} in
    if record_consistent record then Some (Durable.Live record) else None.

(** The wire value [to_json] prints. *)
(* [transaction/machine/state.rs:435-471]! Durable::to_json *)
Definition to_wire (d : durable) : DurableWire :=
  match d with
  | Durable.Tombstone owner =>
      {| w_v := TX_STATE_VERSION; w_owner := owner; w_phase := Phase.Discarded; w_kind := None;
         w_identity := None; w_binding := None; w_snapshot := None; w_expires_at_ms := None;
         w_next_sequence := None; w_last := None; w_counters := None; w_mutations := None;
         w_versions := None; w_atomic := None |}
  | Durable.Live r =>
      {| w_v := TX_STATE_VERSION; w_owner := rec_owner r; w_phase := rec_phase r;
         w_kind := Some (rec_kind r); w_identity := Some (identity r);
         w_binding := Some (binding r); w_snapshot := Some (rec_snapshot r);
         w_expires_at_ms := rec_expires_at_ms r; w_next_sequence := Some (next_sequence r);
         w_last := last r; w_counters := Some (counters r); w_mutations := Some (mutations r);
         w_versions := versions r; w_atomic := rec_atomic r |}
  end.
