(* ===== verification/Volatile.v ===== *)
(** * The volatile part

    [machine/state.rs], second half: the task in progress with the effect it
    awaits, the atomic run, the callback lane and its capability, and the
    consistency of the whole ([Volatile::is_consistent]). The generated readers
    and printers of both states are the class [StateSerde]. *)

From S2P Require Import Prelude F64 SerdeJson Compiler State.

(* [transaction/machine/state.rs:736-744] Placement *)
Module Placement.
Inductive placement := Direct | Owner.
#[export] Instance placement_eq_dec : EqDecision placement.
Proof. solve_decision. Defined.
End Placement.
Export (hints) Placement.

(* [transaction/machine/state.rs:746-752] Idempotency *)
Record Idempotency := { key_hash : string; fingerprint : string }.

(* [transaction/machine/state.rs:754-764] AtomicStatement *)
Record AtomicStatement := {
  ast_operation : operation;
  ast_resource : option string;
  ast_limits : StatementLimits;
  ast_explain_resource : option Z
}.

(* [transaction/machine/state.rs:766-775] AtomicUsage *)
Record AtomicUsage := {
  rows_returned : Z;
  rows_affected : Z;
  au_rows_read : Z;
  au_rows_written : Z;
  au_query_duration_ms : f64
}.

(* [transaction/machine/state.rs:777-820] AtomicRun *)
Record AtomicRun := {
  placement : Placement.placement;
  transaction_id : string;
  run_request_id : string;
  run_auth : string;
  run_role : string;
  run_binding : Binding;
  run_handle : Z;
  run_statements : list AtomicStatement;
  run_versions : Versions;
  idempotency : option Idempotency;
  started_at_ms : Z;
  run_expires_at_ms : option Z;
  debug : bool;
  trace : option string;
  results : option string;
  run_usage : option AtomicUsage;
  run_mutations : list Mutation;
  checks_passed : bool
}.

(* [transaction/machine/state.rs:588-729] Task *)
Module Task.
Inductive task :=
| BeginBinding (identity : Identity) (binding : Binding) (snapshot : string)
| BeginOpen (identity : Identity) (binding : Binding) (snapshot : string) (expires_at_ms : Z)
| BeginPersist
| BeginTimer
| StatementBinding (sequence : Z) (digest : string) (handle : Z) (operation : operation)
    (resource : option string) (versions : Versions) (explain_resource : option Z)
| StatementExecute (sequence : Z) (digest : string) (handle : Z) (operation : operation)
    (resource : option string) (versions : Versions) (started_at_ms : Z)
    (explain_resource : option Z)
| CommitBinding (sequence : Z) (digest : string) (auth : option string) (passed : bool)
| CommitPersist (sequence : Z) (digest : string) (passed : bool)
| CommitSend (sequence : Z) (digest : string) (passed : bool)
| ValidatingPersist (checks : CommitChecks)
| Validator (checks : CommitChecks)
| Verdict (checks : CommitChecks) (allowed : bool)
| RollbackBinding (sequence : Z) (digest : string)
| RollbackSend (sequence : Z) (digest : string)
| CloseRollback (phase : phase) (reply : option string)
| Reply (reply failure : option string) (logs failure_logs : list string)
    (expire_after : bool) (restore : option string)
| ResetAfterPersist
| RequestBinding (operation : string)
| AtomicForward
| AtomicBinding (input : string)
| AtomicOpen
| AtomicPersist
| AtomicTimer
| AtomicLookup
| AtomicExecute
| AtomicCommitBinding
| AtomicInsert
| AtomicCommit
| AtomicReplay (reply : string).
End Task.
Abbreviation task := Task.task.

(* [transaction/machine/state.rs:1052-1083] awaited_by *)
Definition awaited_by (t : task) : Awaited.awaited :=
  match t with
  | Task.BeginBinding _ _ _ | Task.StatementBinding _ _ _ _ _ _ _ | Task.CommitBinding _ _ _ _
  | Task.RollbackBinding _ _ | Task.RequestBinding _ | Task.AtomicBinding _
  | Task.AtomicCommitBinding => Awaited.CheckBinding
  | Task.BeginOpen _ _ _ _ | Task.AtomicOpen => Awaited.Open
  | Task.BeginPersist | Task.CommitPersist _ _ _ | Task.ValidatingPersist _
  | Task.Reply _ _ _ _ _ _ | Task.ResetAfterPersist | Task.AtomicPersist => Awaited.Persist
  | Task.BeginTimer | Task.AtomicTimer => Awaited.SetTimer
  | Task.AtomicForward => Awaited.Forward
  | Task.Validator _ | Task.Verdict _ _ => Awaited.CallValidator
  | Task.StatementExecute _ _ _ _ _ _ _ _ | Task.AtomicLookup | Task.AtomicExecute
  | Task.AtomicInsert => Awaited.Execute
  | Task.CommitSend _ _ _ | Task.AtomicCommit => Awaited.Commit
  | Task.RollbackSend _ _ | Task.CloseRollback _ _ | Task.AtomicReplay _ => Awaited.Rollback
  end.

(* [transaction/machine/state.rs:836-843] Work *)
Record Work := {
  work_lane : WorkLane.work_lane;
  work_request_id : option string;
  work_task : task
}.

(* [transaction/machine/state.rs:845-862] Capability *)
Record Capability := {
  cap_token_hash : string;
  cap_expires_at_ms : Z;
  cap_check : string;
  cap_session : string;
  cap_role : string;
  cap_next_sequence : Z;
  cap_last : option Replay;
  cap_rows : Z;
  cap_result_bytes : Z
}.

(* [transaction/machine/state.rs:864-884] CallbackTask *)
Module CallbackTask.
Inductive callback_task :=
| Binding (sequence : Z) (digest : string) (handle : Z) (versions : Versions)
| Execute (sequence : Z) (digest : string) (handle : Z) (versions : Versions).

(* [transaction/machine/state.rs:887-893] CallbackTask::awaits *)
Definition awaits (t : callback_task) : Awaited.awaited :=
  match t with
  | Binding _ _ _ _ => Awaited.CheckBinding
  | Execute _ _ _ _ => Awaited.Execute
  end.

Definition task_handle (t : callback_task) : Z :=
  match t with Binding _ _ h _ | Execute _ _ h _ => h end.

Definition is_execute (t : callback_task) : bool :=
  match t with Execute _ _ _ _ => true | _ => false end.
End CallbackTask.

(* [transaction/machine/state.rs:896-906] CallbackWork *)
Record CallbackWork := {
  cb_pending : Pending;
  cb_request_id : string;
  cb_token_hash : string;
  cb_task : CallbackTask.callback_task
}.

(* [transaction/machine/state.rs:908-937] Volatile *)
Record Volatile := {
  v : Z;
  vol_owner : option string;
  next_effect_id : Z;
  connection : Connection.connection;
  handles : list Z;
  pending : option Pending;
  work : option Work;
  rollback_requested : bool;
  callback : option CallbackWork;
  capability : option Capability;
  deferred : option Work;
  revoked_validator : option Z;
  atomic : option AtomicRun
}.

(* [transaction/machine/io.rs:29-33] valid_request_id *)
Definition valid_request_id (value : string) : bool :=
  in_range 1 128 (len value) && str_forallb (fun c => in_range 33 126 (byte_of c)) value.

Definition is_validator (t : task) : bool :=
  match t with Task.Validator _ => true | _ => false end.
Definition is_verdict (t : task) : bool :=
  match t with Task.Verdict _ _ => true | _ => false end.

(** [matches!(work.as_ref().map(|work| &work.task), Some(Task::Validator(_)))]. *)
Definition work_is (p : task -> bool) (w : option Work) : bool :=
  opt_existsb (fun w => p (work_task w)) w.

(* [transaction/machine/state.rs:1029-1036] Volatile::callback_executing *)
Definition callback_executing (vol : Volatile) : bool :=
  opt_existsb (fun c => CallbackTask.is_execute (cb_task c)) (callback vol).

(* [transaction/machine/state.rs:962-967]! Volatile::is_consistent *)
Definition paired (vol : Volatile) : bool :=
  match pending vol, work vol with
  | None, None => true
  | Some p, Some w => bool_decide (pend_effect p = awaited_by (work_task w))
  | _, _ => false
  end.

(* [transaction/machine/state.rs:968-975]! Volatile::is_consistent *)
Definition callback_consistent (vol : Volatile) : bool :=
  opt_forallb (fun c =>
    bool_decide (pend_effect (cb_pending c) = CallbackTask.awaits (cb_task c))
    && (pend_id (cb_pending c) <? next_effect_id vol)%Z
    && opt_forallb (fun p => negb (pend_id p =? pend_id (cb_pending c))%Z) (pending vol)
    && valid_request_id (cb_request_id c)) (callback vol).

(* [transaction/machine/state.rs:976-986]! Volatile::is_consistent *)
Definition capability_consistent (vol : Volatile) : bool :=
  opt_forallb (fun c =>
    work_is is_validator (work vol)
    && hex64 (cap_token_hash c)
    && (1 <=? cap_next_sequence c)%Z
    && (cap_next_sequence c <=? MAX_SAFE_INTEGER)%Z
    && Bool.eqb (bool_decide (is_Some (cap_last c))) (1 <? cap_next_sequence c)%Z) (capability vol).

(* [transaction/machine/state.rs:987-998]! Volatile::is_consistent *)
Definition deferred_consistent (vol : Volatile) : bool :=
  opt_forallb (fun d =>
    bool_decide (work vol = None)
    && is_verdict (work_task d)
    && callback_executing vol
    && opt_forallb valid_request_id (work_request_id d)) (deferred vol).

(* [transaction/machine/state.rs:1015-1021]! Volatile::is_consistent *)
Definition atomic_consistent (vol : Volatile) : bool :=
  opt_forallb (fun a =>
    Bool.eqb (bool_decide (placement a = Placement.Owner)) (bool_decide (is_Some (vol_owner vol)))
    && binding_valid (run_binding a)
    && valid_request_id (run_request_id a)
    && bool_decide (run_handle a ∈ handles vol)) (atomic vol).

(* [transaction/machine/state.rs:957-1027] Volatile::is_consistent *)
Definition volatile_consistent (vol : Volatile) : bool :=
  paired vol
  && negb (work_is is_verdict (work vol))
  && callback_consistent vol
  && capability_consistent vol
  && deferred_consistent vol
  && (1 <=? next_effect_id vol)%Z
  && (next_effect_id vol <=? MAX_SAFE_INTEGER)%Z
  && opt_forallb (fun p => pend_id p <? next_effect_id vol)%Z (pending vol)
  && (length (handles vol) <=? 2)%nat
  && opt_forallb owner_name (vol_owner vol)
  && atomic_consistent vol
  && opt_forallb (fun w => opt_forallb valid_request_id (work_request_id w)) (work vol).

(* [transaction/machine/state.rs:1038-1049] Volatile::is_idle *)
Definition is_idle (vol : Volatile) : bool :=
  bool_decide (work vol = None) && bool_decide (pending vol = None)
  && bool_decide (connection vol = Connection.None)
  && bool_decide (handles vol = [])
  && bool_decide (callback vol = None) && bool_decide (capability vol = None)
  && bool_decide (deferred vol = None) && bool_decide (atomic vol = None).

(** ** Field updates *)
Definition set_v_connection c vol :=
  Build_Volatile (v vol) (vol_owner vol) (next_effect_id vol) c (handles vol) (pending vol)
    (work vol) (rollback_requested vol) (callback vol) (capability vol) (deferred vol)
    (revoked_validator vol) (atomic vol).
Definition set_v_handles hs vol :=
  Build_Volatile (v vol) (vol_owner vol) (next_effect_id vol) (connection vol) hs (pending vol)
    (work vol) (rollback_requested vol) (callback vol) (capability vol) (deferred vol)
    (revoked_validator vol) (atomic vol).
Definition set_v_next_id n vol :=
  Build_Volatile (v vol) (vol_owner vol) n (connection vol) (handles vol) (pending vol)
    (work vol) (rollback_requested vol) (callback vol) (capability vol) (deferred vol)
    (revoked_validator vol) (atomic vol).
Definition set_v_pending p vol :=
  Build_Volatile (v vol) (vol_owner vol) (next_effect_id vol) (connection vol) (handles vol) p
    (work vol) (rollback_requested vol) (callback vol) (capability vol) (deferred vol)
    (revoked_validator vol) (atomic vol).
Definition set_v_work w vol :=
  Build_Volatile (v vol) (vol_owner vol) (next_effect_id vol) (connection vol) (handles vol)
    (pending vol) w (rollback_requested vol) (callback vol) (capability vol) (deferred vol)
    (revoked_validator vol) (atomic vol).
Definition set_v_rollback b vol :=
  Build_Volatile (v vol) (vol_owner vol) (next_effect_id vol) (connection vol) (handles vol)
    (pending vol) (work vol) b (callback vol) (capability vol) (deferred vol)
    (revoked_validator vol) (atomic vol).
Definition set_v_callback c vol :=
  Build_Volatile (v vol) (vol_owner vol) (next_effect_id vol) (connection vol) (handles vol)
    (pending vol) (work vol) (rollback_requested vol) c (capability vol) (deferred vol)
    (revoked_validator vol) (atomic vol).
Definition set_v_capability c vol :=
  Build_Volatile (v vol) (vol_owner vol) (next_effect_id vol) (connection vol) (handles vol)
    (pending vol) (work vol) (rollback_requested vol) (callback vol) c (deferred vol)
    (revoked_validator vol) (atomic vol).
Definition set_v_deferred d vol :=
  Build_Volatile (v vol) (vol_owner vol) (next_effect_id vol) (connection vol) (handles vol)
    (pending vol) (work vol) (rollback_requested vol) (callback vol) (capability vol) d
    (revoked_validator vol) (atomic vol).
Definition set_v_revoked r vol :=
  Build_Volatile (v vol) (vol_owner vol) (next_effect_id vol) (connection vol) (handles vol)
    (pending vol) (work vol) (rollback_requested vol) (callback vol) (capability vol) (deferred vol)
    r (atomic vol).
Definition set_v_atomic a vol :=
  Build_Volatile (v vol) (vol_owner vol) (next_effect_id vol) (connection vol) (handles vol)
    (pending vol) (work vol) (rollback_requested vol) (callback vol) (capability vol) (deferred vol)
    (revoked_validator vol) a.

(** ** The generated (de)serializers of the two states *)
Class StateSerde := {
  (** [serde_json::from_str::<DurableWire>] and [to_string(&wire)]. *)
  read_durable : string -> option DurableWire;
  print_durable : DurableWire -> string;
  (** [serde_json::from_str::<Volatile>] and [to_string(self)]. *)
  read_volatile : string -> option Volatile;
  print_volatile : Volatile -> string;
  (** [serde_json::from_value::<Binding>]. *)
  binding_of_value : value -> option Binding
}.

Section reading.
Context `{Serde} `{StateSerde}.

(* [transaction/machine/state.rs:377-397] Durable::parse *)
Definition durable_parse (text owner : string) : durable + Unreadable.unreadable :=
  if (len text >? MAX_DURABLE_BYTES)%Z then inr Unreadable.TooLarge
  else
    match from_str_value text with
    | None => inr Unreadable.Malformed
    | Some probe =>
        if negb (bool_decide ((Value.get "v" probe ≫= Value.as_u64) = Some TX_STATE_VERSION))
        then inr Unreadable.Version
        else
          match read_durable text with
          | None => inr Unreadable.Malformed
          | Some wire =>
              if negb (String.eqb (w_owner wire) owner) then inr Unreadable.Owner
              else match from_wire wire with
                   | Some d => inl d
                   | None => inr Unreadable.Inconsistent
                   end
          end
    end.

(* [transaction/machine/state.rs:435-475] Durable::to_json *)
Definition durable_to_json (d : durable) : string := print_durable (to_wire d).

(* [transaction/machine/state.rs:940-950] Volatile::parse *)
Definition volatile_parse (text : string) (owner : option string) (bound : Z) : option Volatile :=
  if (len text >? bound)%Z then None
  else
    vol ← read_volatile text;
    if (v vol =? TX_STATE_VERSION)%Z && bool_decide (vol_owner vol = owner)
       && volatile_consistent vol
    then Some vol else None.

(* [transaction/machine/state.rs:952-955] Volatile::to_json *)
Definition volatile_to_json (vol : Volatile) : string := print_volatile vol.
End reading.
