(* ===== verification/Io.v ===== *)
(** * Events, host facts, effects, and replies

    [machine/io.rs]: what crosses the boundary of a step. Effects carry their
    replies and log records as exact JSON text ([RawValue] in the source), which
    is built with the printer of [Serde]. *)

From S2P Require Import Prelude F64 SerdeJson Compiler State Volatile.

(* [transaction/machine/io.rs:9-27] HostFacts *)
Record HostFacts := {
  now_ms : Z;
  entropy : string;
  request_id : string;
  owner : option string;
  configured_checks : list string
}.

(* [transaction/machine/io.rs:36-49] HostFacts::is_valid *)
Definition host_valid (h : HostFacts) : bool :=
  (now_ms h <=? MAX_TIME_MS)%Z
  && hex64 (entropy h)
  && valid_request_id (request_id h)
  && opt_forallb owner_name (owner h)
  && (length (configured_checks h) <=? 64)%nat
  && forallb (fun id => negb (String.eqb id "") && (len id <=? 128)%Z) (configured_checks h).

(** One hexadecimal digit of [from_str_radix(_, 16)]. *)
Definition hex_digit (c : ascii) : option Z :=
  let b := byte_of c in
  if in_range 48 57 b then Some (b - 48)
  else if in_range 97 102 b then Some (b - 87)
  else if in_range 65 70 b then Some (b - 55)
  else None.

Fixpoint from_hex (acc : Z) (s : string) : option Z :=
  match s with
  | EmptyString => Some acc
  | String c s' => d ← hex_digit c; from_hex (acc * 16 + d) s'
  end.

(* [transaction/machine/io.rs:51-58] HostFacts::entropy_u64 *)
Definition entropy_u64 (h : HostFacts) (offset : nat) : Z :=
  default 0 (hex ← str_get (entropy h) (offset * 2) (offset * 2 + 12); from_hex 0 hex).

(* [transaction/machine/io.rs:60-65] HostFacts::entropy_id *)
Definition entropy_id (h : HostFacts) : option string := str_get (entropy h) 32 64.

(* [transaction/machine/io.rs:67-76] HostFacts::entropy_bytes *)
Definition entropy_bytes (h : HostFacts) : option (list Z) :=
  mapM (fun index => hex ← str_get (entropy h) (index * 2) (index * 2 + 2); from_hex 0 hex) (seq 0 32).

(* [transaction/machine/io.rs:79-99] Class *)
Module Class.
Inductive class := Timeout | Unavailable | Rejected | NotCommitted | Unknown | Limit | Complex.
#[export] Instance class_eq_dec : EqDecision class.
Proof. solve_decision. Defined.
End Class.
Export (hints) Class.

(* [transaction/machine/io.rs:101-110] COMPLEXITY_CAUSES *)
Definition COMPLEXITY_CAUSES : list string :=
  ["columns"; "parameters"; "like_pattern"; "database_expression_depth"; "function_arguments";
   "compound_terms"; "join_tables"].

(* [transaction/machine/io.rs:112-119] DriverUsage *)
Record DriverUsage := {
  du_rows_read : Z;
  du_rows_written : Z;
  du_query_duration_ms : f64
}.

(* [transaction/machine/io.rs:121-132] DriverResult *)
Record DriverResult := {
  dr_columns : list string;
  dr_rows : list (list value);
  dr_rows_affected : Z;
  dr_usage : DriverUsage
}.

(* [transaction/machine/io.rs:134-234] Event *)
Module Event.
Inductive event :=
| Request (operation : value)
| Forwarded (input : value)
| TimerFired
| Opened (id : Z)
| OpenFailed (id : Z) (class : Class.class)
| BindingChecked (id : Z) (allowed : bool)
| BindingCheckFailed (id : Z) (class : Class.class)
| Executed (id : Z) (results : list DriverResult)
| ExecuteFailed (id : Z) (class : Class.class) (statement : option Z)
    (database_code : option string) (cause : option string)
| Committed (id : Z)
| CommitFailed (id : Z) (class : Class.class)
| RolledBack (id : Z)
| RollbackFailed (id : Z) (class : Class.class)
| Persisted (id : Z)
| PersistFailed (id : Z)
| TimerSet (id : Z)
| TimerFailed (id : Z)
| ValidatorReplied (id : Z) (ok : bool) (decision : value)
| ValidatorFailed (id : Z) (class : Class.class)
| OwnerReplied (id : Z) (reply : value)
| ForwardFailed (id : Z) (class : Class.class)
| Abandon.

(* [transaction/machine/io.rs:237-263] Event::outcome_id *)
Definition outcome_id (e : event) : option Z :=
  match e with
  | Opened id | OpenFailed id _ | BindingChecked id _ | BindingCheckFailed id _
  | Executed id _ | ExecuteFailed id _ _ _ _ | Committed id | CommitFailed id _
  | RolledBack id | RollbackFailed id _ | Persisted id | PersistFailed id
  | TimerSet id | TimerFailed id | ValidatorReplied id _ _ | ValidatorFailed id _
  | OwnerReplied id _ | ForwardFailed id _ => Some id
  | Request _ | Forwarded _ | TimerFired | Abandon => None
  end.

(* [transaction/machine/io.rs:265-287] Event::answers *)
Definition answers (e : event) : option Awaited.awaited :=
  match e with
  | Opened _ | OpenFailed _ _ => Some Awaited.Open
  | BindingChecked _ _ | BindingCheckFailed _ _ => Some Awaited.CheckBinding
  | Executed _ _ | ExecuteFailed _ _ _ _ _ => Some Awaited.Execute
  | Committed _ | CommitFailed _ _ => Some Awaited.Commit
  | RolledBack _ | RollbackFailed _ _ => Some Awaited.Rollback
  | Persisted _ | PersistFailed _ => Some Awaited.Persist
  | TimerSet _ | TimerFailed _ => Some Awaited.SetTimer
  | ValidatorReplied _ _ _ | ValidatorFailed _ _ => Some Awaited.CallValidator
  | OwnerReplied _ _ | ForwardFailed _ _ => Some Awaited.Forward
  | Request _ | Forwarded _ | TimerFired | Abandon => None
  end.
End Event.
Abbreviation event := Event.event.

(* [transaction/machine/io.rs:290-295] DriverCall *)
Record DriverCall := { call_sql : string; call_args : list (string * value) }.

(* [transaction/machine/io.rs:309-316] ObservedStatement *)
Record ObservedStatement := {
  obs_operation : string;
  obs_resource : option string;
  obs_explain_resource : option Z
}.

(* [transaction/machine/io.rs:297-307] ObserveContext *)
Record ObserveContext := {
  obs_request_id : string;
  obs_binding : Binding;
  obs_statements : list ObservedStatement
}.

(* [transaction/machine/io.rs:440-447] CapabilityGrant *)
Record CapabilityGrant := { grant_token : string; grant_expires_at_ms : Z }.

(* [transaction/machine/io.rs:318-403] Effect *)
Module Effect.
Inductive effect :=
| Forward (id : Z) (owner lane input : string)
| Open (id : Z) (binding : Binding) (mode : Mode.mode) (timeout_ms deadline_ms : Z)
| CheckBinding (id : Z) (binding : Binding) (deadline_ms : option Z)
| Execute (id : Z) (statements : list DriverCall) (trace : option string)
    (max_response_bytes : Z)
| Commit (id : Z)
| Rollback (id : Z)
| SetTimer (id at_ms : Z)
| Persist (id : Z)
| CallValidator (id : Z) (check payload : string) (capability : CapabilityGrant)
    (timeout_ms : Z)
| Respond (lane reply : string)
| Observe (statements : list DriverCall) (context : ObserveContext) (max_response_bytes : Z)
| Log (record : string)
| Reset.

(* [transaction/machine/io.rs:406-421] Effect::id *)
Definition effect_id (e : effect) : option Z :=
  match e with
  | Forward id _ _ _ | Open id _ _ _ _ | CheckBinding id _ _ | Execute id _ _ _ | Commit id
  | Rollback id | SetTimer id _ | Persist id | CallValidator id _ _ _ _ => Some id
  | Respond _ _ | Observe _ _ _ | Log _ | Reset => None
  end.

(* [transaction/machine/io.rs:423-437] Effect::is_awaited *)
Definition is_awaited (e : effect) : bool :=
  match e with
  | Forward _ _ _ _ | Open _ _ _ _ _ | CheckBinding _ _ _ | Execute _ _ _ _ | Commit _
  | Rollback _ | SetTimer _ _ | Persist _ | CallValidator _ _ _ _ _ => true
  | _ => false
  end.

(** The kind of outcome an awaited effect waits for. *)
Definition awaits (e : effect) : option Awaited.awaited :=
  match e with
  | Forward _ _ _ _ => Some Awaited.Forward
  | Open _ _ _ _ _ => Some Awaited.Open
  | CheckBinding _ _ _ => Some Awaited.CheckBinding
  | Execute _ _ _ _ => Some Awaited.Execute
  | Commit _ => Some Awaited.Commit
  | Rollback _ => Some Awaited.Rollback
  | SetTimer _ _ => Some Awaited.SetTimer
  | Persist _ => Some Awaited.Persist
  | CallValidator _ _ _ _ _ => Some Awaited.CallValidator
  | _ => None
  end.
End Effect.
Abbreviation effect := Effect.effect.

(* [transaction/machine/io.rs:449-473] Code *)
Module Code.
Inductive code :=
| Invalid | Conflict | Unavailable | Internal | OutcomeUnknown | TransactionLimit
| ModeViolation | CheckRejected | Stale | BindingRejected | DatabaseTimeout
| DatabaseUnavailable | SchemaMismatch | LimitExceeded | IdempotencyConflict | KeyInvalid
| Timeout | SqlTooComplex | JsonTooDeep.

#[export] Instance code_eq_dec : EqDecision code.
Proof. solve_decision. Defined.

(* [transaction/machine/io.rs:476-547] Code::parts *)
Definition parts (c : code) : string * string :=
  match c with
  | Invalid => ("POLICYSQL_INVALID_REQUEST", "The request is invalid.")
  | Conflict => ("POLICYSQL_TRANSACTION_CONFLICT",
                 "The transaction command conflicts with its current state.")
  | Unavailable => ("POLICYSQL_TRANSACTION_UNAVAILABLE", "The transaction is no longer active.")
  | Internal => ("POLICYSQL_INTERNAL", "The request could not be completed.")
  | OutcomeUnknown => ("POLICYSQL_COMMIT_OUTCOME_UNKNOWN", "The commit outcome is unknown.")
  | TransactionLimit => ("POLICYSQL_TRANSACTION_LIMIT_EXCEEDED",
                         "The transaction limit was exceeded.")
  | ModeViolation => ("POLICYSQL_TRANSACTION_MODE_VIOLATION",
                      "A read transaction cannot execute a mutation.")
  | CheckRejected => ("POLICYSQL_COMMIT_CHECK_REJECTED",
                      "A commit check rejected the transaction.")
  | Stale => ("POLICYSQL_STALE_OPERATION",
              "The operation was compiled for a different active snapshot.")
  | BindingRejected => ("POLICYSQL_DATABASE_BINDING_REJECTED",
                        "The database binding is not permitted.")
  | DatabaseTimeout => ("POLICYSQL_DATABASE_TIMEOUT", "The database operation timed out.")
  | DatabaseUnavailable => ("POLICYSQL_DATABASE_UNAVAILABLE",
                            "The database is temporarily unavailable.")
  | SchemaMismatch => ("POLICYSQL_SCHEMA_MISMATCH",
                       "The database result does not match the compiled logical contract.")
  | LimitExceeded => ("POLICYSQL_LIMIT_EXCEEDED",
                      "The request or result exceeded a configured limit.")
  | IdempotencyConflict => ("POLICYSQL_IDEMPOTENCY_CONFLICT",
                            "The idempotency key is already bound to a different request.")
  | KeyInvalid => ("POLICYSQL_IDEMPOTENCY_KEY_INVALID",
      "Idempotency-Key must be 16-128 characters from letters, digits, and . _ : - + / = when provided.")
  | Timeout => ("POLICYSQL_TIMEOUT", "The database operation timed out.")
  | SqlTooComplex => ("POLICYSQL_SQL_TOO_COMPLEX",
                      "The statement is too complex to run under the active policy.")
  | JsonTooDeep => ("POLICYSQL_JSON_TOO_DEEP", "The request JSON nests too deeply.")
  end.

(* [transaction/machine/io.rs:549-561] Code::for_class *)
Definition for_class (c : Class.class) : code :=
  match c with
  | Class.Timeout => DatabaseTimeout
  | Class.Unavailable => DatabaseUnavailable
  | Class.Rejected => BindingRejected
  | Class.NotCommitted | Class.Unknown => Internal
  | Class.Limit => LimitExceeded
  | Class.Complex => SqlTooComplex
  end.
End Code.
Abbreviation code := Code.code.
Export (hints) Code.

Section replies.
Context `{Serde}.

(* [transaction/machine/io.rs:587-590] null_raw *)
Definition null_raw : string := default EmptyString (raw_from_string "null").

(* [transaction/machine/io.rs:583-585] raw *)
Definition raw (text : string) : string := default null_raw (raw_from_string text).

(* [transaction/machine/io.rs:592-594] to_raw *)
Definition to_raw (d : Doc) : string := raw (to_string d).

(* [transaction/machine/io.rs:564-568] ErrorReply, ErrorBody *)
Definition error_doc (code message : string) (path : option string) : Doc :=
  DMap [("ok", DBool false);
        ("error", DMap [("code", DStr code); ("message", DStr message);
                        ("path", DOpt DStr path)])].

(* [transaction/machine/io.rs:596-608] error_reply *)
Definition error_reply (c : code) : string :=
  let '(code, message) := Code.parts c in to_raw (error_doc code message None).

(* [transaction/machine/io.rs:610-624] error_reply_at *)
Definition error_reply_at (c : code) (index : Z) : string :=
  let '(code, message) := Code.parts c in
  to_raw (error_doc code message (Some ("/statements/" ++ dec index)%string)).

(* [transaction/machine/io.rs:626-637] core_error_reply *)
Definition core_error_reply (e : CoreError) : string :=
  to_raw (error_doc (err_code e) (err_message e) (err_path e)).

  (* [transaction/machine/io.rs:639-643] value_reply *)
Definition value_reply (value : string) : string :=
  to_raw (DMap [("ok", DBool true); ("value", DRaw value)]).
End replies.
