(* ===== verification/Cost.v ===== *)
(** * Cost evaluation

    The evaluation of the plans an [Observe] effect brings back (cost.rs): the bounds of each
    statement come from the cost catalog of the deployment, the planner's rows only count steps. *)

From S2P Require Import Prelude Result F64 SerdeJson Compiler State Volatile Io.

(* [transaction/cost.rs:38-46] Statement *)
Record CostStatement := {
  cs_operation : string;
  cs_resource : option string;
  cs_explain_resource : option Z
}.

(* [transaction/cost.rs:48-53] PlanResult *)
Record PlanResult := { pr_columns : list string; pr_rows : list (list value) }.

(* [transaction/cost.rs:30-36] Input *)
Record CostInput := {
  ci_catalog : option (list (string * value));
  ci_statements : list CostStatement;
  ci_results : list PlanResult
}.

(** [temporary_b_tree] is always [None]. *)
(* [transaction/cost.rs:55-71] Estimate *)
Record Estimate := {
  lower_rows_read : Z;
  expected_rows_read : Z;
  upper_rows_read : Z;
  lower_rows_written : Z;
  expected_rows_written : Z;
  upper_rows_written : Z;
  confidence : string;
  access : string;
  temporary_b_tree : option unit;
  plan_steps : Z;
  planner : string
}.

Module CostError.
(* [transaction/cost.rs:89-94] CostError *)
Inductive cost_error := Unknown | Budget | Unavailable.

(* [transaction/cost.rs:97-112] CostError::parts *)
Definition parts (e : cost_error) : string * string :=
  match e with
  | Unknown => ("POLICYSQL_COST_UNKNOWN", "The query cost could not be bounded safely.")
  | Budget => ("POLICYSQL_USAGE_BUDGET_EXCEEDED",
               "The query exceeds the configured usage budget.")
  | Unavailable => ("POLICYSQL_COST_ADMISSION_UNAVAILABLE",
                    "Cost admission is temporarily unavailable.")
  end.
End CostError.

(** ** The evaluation *)

(** A positive integer of the catalog. *)
(* [transaction/cost.rs:140-143] positive *)
Definition positive (v : option value) : option Z :=
  n ← v ≫= Value.as_u64; if (1 <=? n)%Z then Some n else None.

(** What is said of a statement before its plan is read. *)
(* [transaction/cost.rs:158-173]! evaluate *)
Definition initial_estimate (statement : CostStatement) : Estimate :=
  let insert := if String.eqb (cs_operation statement) "insert" then 1 else 0 in
  {| lower_rows_read := 0; expected_rows_read := 0; upper_rows_read := 0;
     lower_rows_written := insert; expected_rows_written := insert; upper_rows_written := insert;
     confidence := "conservative"; access := if (insert =? 1)%Z then "none" else "unknown";
     temporary_b_tree := None; plan_steps := 0; planner := "sqlite-explain-query-plan" |}.

(** The positions of the statements that are not inserts, from position [index]. *)
(* [transaction/cost.rs:175-181]! evaluate *)
Fixpoint planned (index : nat) (statements : list CostStatement) : list nat :=
  match statements with
  | [] => []
  | statement :: statements' =>
      if String.eqb (cs_operation statement) "insert" then planned (S index) statements'
      else index :: planned (S index) statements'
  end.

(** [columns.iter().position(...)]. *)
Fixpoint position (p : string -> bool) (columns : list string) : option nat :=
  match columns with
  | [] => None
  | c :: columns' => if p c then Some O else S <$> position p columns'
  end.

(** The steps of a plan: every row has a text in the column [detail]. *)
(* [transaction/cost.rs:189-200]! evaluate *)
Definition count_steps (plan : PlanResult) : result CostError.cost_error Z :=
  let detail := position (String.eqb "detail") (pr_columns plan) in
  for_fold (fun steps row =>
    if negb (opt_existsb Value.is_string (at_column ← detail; row !! at_column))
    then throw CostError.Unknown
    else mret (steps + 1)) 0 (pr_rows plan).

(** The estimate of a statement whose plan came back. *)
(* [transaction/cost.rs:188-228]! evaluate *)
Definition planned_estimate (max_read max_written : Z) (resources : list (string * value))
    (statement : CostStatement) (plan : PlanResult) (estimate : Estimate)
    : result CostError.cost_error Estimate :=
  steps ← count_steps plan;
  match cs_explain_resource statement with
  | None => mret estimate
  | Some resource =>
      upper_read ← ok_or (bounds ← assoc (dec resource) resources;
                          positive (Value.get "upperRows" bounds)) CostError.Unknown;
      if (max_read <? upper_read)%Z then throw CostError.Budget
      else
        let upper_written :=
          if String.eqb (cs_operation statement) "select" then 0 else upper_read in
        if (max_written <? upper_written)%Z then throw CostError.Budget
        else
          mret {| lower_rows_read := lower_rows_read estimate; expected_rows_read := upper_read;
                  upper_rows_read := upper_read;
                  lower_rows_written := lower_rows_written estimate;
                  expected_rows_written := upper_written; upper_rows_written := upper_written;
                  confidence := confidence estimate; access := "unknown";
                  temporary_b_tree := None; plan_steps := steps; planner := planner estimate |}
  end.

(** One result and the position of its statement: [planned] names positions of the list only. *)
(* [transaction/cost.rs:187-229]! evaluate *)
Definition apply_plan (max_read max_written : Z) (resources : list (string * value))
    (statements : list CostStatement) (output : list Estimate) (entry : PlanResult * nat)
    : result CostError.cost_error (list Estimate) :=
  let '(plan, index) := entry in
  match statements !! index, output !! index with
  | Some statement, Some estimate =>
      e ← planned_estimate max_read max_written resources statement plan estimate;
      mret (<[index := e]> output)
  | _, _ => mret output
  end.

(* [transaction/cost.rs:145-231] evaluate *)
Definition evaluate (input : CostInput) : result CostError.cost_error (list Estimate) :=
  catalog ← ok_or (ci_catalog input) CostError.Unknown;
  max_read ← ok_or (positive (assoc "maxEstimatedRowsRead" catalog)) CostError.Unavailable;
  max_written ←
    ok_or (positive (assoc "maxEstimatedRowsWritten" catalog)) CostError.Unavailable;
  resources ← ok_or (assoc "resources" catalog ≫= Value.as_object) CostError.Unavailable;
  let output := map initial_estimate (ci_statements input) in
  let planned := planned 0 (ci_statements input) in
  if (length planned <? length (ci_results input))%nat then throw CostError.Unavailable
  else
    for_fold (apply_plan max_read max_written resources (ci_statements input)) output
      (zip (ci_results input) planned).

(** ** The texts *)

(* [transaction/cost.rs:55-71] Estimate *)
Definition estimate_doc (e : Estimate) : Doc :=
  DMap [("lowerRowsRead", DU64 (lower_rows_read e));
        ("expectedRowsRead", DU64 (expected_rows_read e));
        ("upperRowsRead", DU64 (upper_rows_read e));
        ("lowerRowsWritten", DU64 (lower_rows_written e));
        ("expectedRowsWritten", DU64 (expected_rows_written e));
        ("upperRowsWritten", DU64 (upper_rows_written e));
        ("confidence", DStr (confidence e)); ("access", DStr (access e));
        ("temporaryBTree", DOpt (fun _ => DNull) (temporary_b_tree e));
        ("planSteps", DU64 (plan_steps e)); ("planner", DStr (planner e))]%string.

(** [serde_json::from_str::<Input>]. *)
Class CostSerde := { read_cost_input : string -> option CostInput }.

Section texts.
Context `{Serde} `{CostSerde}.

(* [transaction/cost.rs:132-138] error_json *)
Definition error_json (e : CostError.cost_error) : string :=
  let '(code, message) := CostError.parts e in
  to_string (DMap [("error", DMap [("code", DStr code); ("message", DStr message)])]%string).

(* [transaction/cost.rs:115-130] cost_estimate_json *)
Definition cost_estimate_json (input : string) (max_input_bytes : Z) : string :=
  let outcome :=
    if (max_input_bytes <? len input)%Z then throw CostError.Unavailable
    else input ← ok_or (read_cost_input input) CostError.Unavailable; evaluate input in
  match outcome with
  | inl estimates => to_string (DMap [("estimates"%string, DSeq (map estimate_doc estimates))])
  | inr e => error_json e
  end.
End texts.

(** ** The cost estimates

    The loop of [evaluate] over the results is a recursion on the statements; every estimate it
    returns is ordered and within the budgets of the catalog. *)

(** ** The loop as a recursion on the statements *)

Fixpoint estimates (max_read max_written : Z) (resources : list (string * value))
    (statements : list CostStatement) (plans : list PlanResult)
    : result CostError.cost_error (list Estimate) :=
  match statements with
  | [] => mret []
  | s :: statements' =>
      if String.eqb (cs_operation s) "insert" then
        rest ← estimates max_read max_written resources statements' plans;
        mret (initial_estimate s :: rest)
      else
        match plans with
        | [] => mret (map initial_estimate statements)
        | plan :: plans' =>
            e ← planned_estimate max_read max_written resources s plan (initial_estimate s);
            rest ← estimates max_read max_written resources statements' plans';
            mret (e :: rest)
        end
  end.

Lemma estimates_no_plans max_read max_written resources statements :
  estimates max_read max_written resources statements [] = inl (map initial_estimate statements).
Proof.
  induction statements as [|s statements IH]; [done|]. simpl. rewrite IH. by destruct (String.eqb _ _).
Qed.

Lemma apply_plans max_read max_written resources statements plans :
  forall before done_,
  length done_ = length before ->
  for_fold (apply_plan max_read max_written resources (before ++ statements))
    (done_ ++ map initial_estimate statements) (zip plans (planned (length before) statements))
  = (rest ← estimates max_read max_written resources statements plans; mret (done_ ++ rest)).
Proof.
  revert plans. induction statements as [|s statements IH]; intros plans before done_ Hl; simpl.
  - by destruct plans.
  - assert (Hnext : forall e ps,
      for_fold (apply_plan max_read max_written resources (before ++ s :: statements))
        (done_ ++ e :: map initial_estimate statements)
        (zip ps (planned (S (length before)) statements))
      = (rest ← estimates max_read max_written resources statements ps;
         mret (done_ ++ e :: rest))).
    { intros e ps. rewrite (cons_middle s), (cons_middle e), !app_assoc.
      replace (S (length before)) with (length (before ++ [s])) by (rewrite length_app; simpl; lia).
      rewrite IH by (rewrite !length_app; simpl; lia).
      unfold mbind, result_bind. destruct (estimates _ _ _ _ _); [|done].
      unfold mret, result_ret. by rewrite <- app_assoc. }
    destruct (String.eqb _ _).
    + rewrite Hnext. unfold mbind, result_bind. by destruct (estimates _ _ _ _ _).
    + destruct plans as [|plan plans]; [done|]. simpl.
      rewrite !list_lookup_middle by done.
      unfold mbind at 1 2, result_bind at 1 2.
      destruct (planned_estimate _ _ _ _ _ _) as [e|]; [|done]. simpl.
      rewrite <- Hl, insert_app_r_alt, Nat.sub_diag by lia. simpl. rewrite Hl, Hnext.
      unfold mbind, result_bind. by destruct (estimates _ _ _ _ _).
Qed.

Lemma planned_length statements : forall index,
  length (planned index statements)
  = length (List.filter (fun s => negb (String.eqb (cs_operation s) "insert")) statements).
Proof.
  induction statements as [|s statements IH]; intros index; simpl; [done|].
  destruct (String.eqb _ _); simpl; by rewrite IH.
Qed.

(** ** Within the budgets *)

(** An estimate whose bounds are in order and within the budgets. *)
Definition bounded_estimate (max_read max_written : Z) (e : Estimate) : Prop :=
  0 <= lower_rows_read e <= expected_rows_read e
  /\ expected_rows_read e <= upper_rows_read e <= max_read
  /\ 0 <= lower_rows_written e <= expected_rows_written e
  /\ expected_rows_written e <= upper_rows_written e <= max_written.

(** What the catalog and the plan say of a statement whose plan came back. *)
Definition read_from_plan (resources : list (string * value)) (s : CostStatement)
    (plan : PlanResult) (e : Estimate) : Prop :=
  Forall (fun row => exists at_column text,
    position (String.eqb "detail") (pr_columns plan) = Some at_column
    /\ row !! at_column = Some (Value.String text)) (pr_rows plan)
  /\ match cs_explain_resource s with
     | None => e = initial_estimate s
     | Some r =>
         exists bounds, assoc (dec r) resources = Some bounds
           /\ Value.get "upperRows" bounds ≫= Value.as_u64 = Some (upper_rows_read e)
           /\ upper_rows_written e
              = (if String.eqb (cs_operation s) "select" then 0 else upper_rows_read e)
           /\ plan_steps e = Z.of_nat (length (pr_rows plan))
     end.

Lemma positive_Some v n : positive v = Some n -> v ≫= Value.as_u64 = Some n /\ 1 <= n.
Proof.
  unfold positive. destruct (v ≫= Value.as_u64) as [m|]; [|done]. simpl.
  case_match; [|done]. intros [= ->]. split; [done|]. by apply Z.leb_le.
Qed.

Lemma count_steps_inl plan n :
  count_steps plan = inl n ->
  n = Z.of_nat (length (pr_rows plan))
  /\ Forall (fun row => exists at_column text,
       position (String.eqb "detail") (pr_columns plan) = Some at_column
       /\ row !! at_column = Some (Value.String text)) (pr_rows plan).
Proof.
  unfold count_steps. set (detail := position _ _). clearbody detail.
  assert (Hgo : forall rows k,
    for_fold (fun steps row =>
      if negb (opt_existsb Value.is_string (at_column ← detail; row !! at_column))
      then throw CostError.Unknown else mret (steps + 1)) k rows = inl n ->
    n = k + Z.of_nat (length rows)
    /\ Forall (fun row => exists at_column text, detail = Some at_column
         /\ (row : list value) !! at_column = Some (Value.String text)) rows).
  { induction rows as [|row rows IH]; intros k Hf; simpl in Hf.
    - injection Hf as <-. split; [simpl; lia|constructor].
    - apply result_bind_inl in Hf as [k' [Hk Hf]].
      case_match eqn:E; [done|]. injection Hk as <-. apply IH in Hf as [-> Hf].
      split; [simpl; lia|]. constructor; [|done].
      destruct detail as [c|]; [|done]. simpl in E.
      destruct (row !! c) as [[]|] eqn:Ev; try done. by eexists _, _. }
  intros Hc. apply Hgo in Hc as [-> Hc]. by split.
Qed.

Section budgets.
Context (max_read max_written : Z) (Hread : 1 <= max_read) (Hwritten : 1 <= max_written).
Context (resources : list (string * value)).

Lemma initial_bounded s : bounded_estimate max_read max_written (initial_estimate s).
Proof. unfold initial_estimate, bounded_estimate. simpl. case_match; lia. Qed.

Lemma planned_bounded s plan e :
  String.eqb (cs_operation s) "insert" = false ->
  planned_estimate max_read max_written resources s plan (initial_estimate s) = inl e ->
  bounded_estimate max_read max_written e /\ read_from_plan resources s plan e.
Proof.
  intros Hs He. unfold planned_estimate in He. apply result_bind_inl in He as [n [Hn He]].
  apply count_steps_inl in Hn as [-> Hrows]. unfold read_from_plan.
  destruct (cs_explain_resource s) as [r|].
  - apply result_bind_inl in He as [upper [Hu He]]. apply ok_or_inl in Hu.
    apply bind_Some in Hu as [bounds [Hb Hu]]. apply positive_Some in Hu as [Hu Hpos].
    case_match eqn:E1; [done|]. case_match eqn:E2; [done|]. injection He as <-.
    apply Z.ltb_ge in E1, E2. split.
    + unfold bounded_estimate, initial_estimate. simpl in *. rewrite Hs.
      case_match; simpl; lia.
    + split; [done|]. exists bounds. by split_and!.
  - injection He as <-. split; [apply initial_bounded|by split].
Qed.

(** The plans in the order of the statements that have one. *)
Fixpoint estimated (statements : list CostStatement) (plans : list PlanResult)
    (output : list Estimate) : Prop :=
  match statements, output with
  | [], [] => plans = []
  | s :: statements', e :: output' =>
      bounded_estimate max_read max_written e
      /\ if String.eqb (cs_operation s) "insert"
         then e = initial_estimate s /\ estimated statements' plans output'
         else match plans with
              | [] => e = initial_estimate s /\ estimated statements' [] output'
              | plan :: plans' =>
                  read_from_plan resources s plan e /\ estimated statements' plans' output'
              end
  | _, _ => False
  end.

Lemma estimated_initial statements : estimated statements [] (map initial_estimate statements).
Proof.
  induction statements as [|s statements IH]; simpl; [done|].
  split; [apply initial_bounded|]. by case_match.
Qed.

Lemma estimates_estimated statements : forall plans output,
  (length plans <= length (planned 0 statements))%nat ->
  estimates max_read max_written resources statements plans = inl output ->
  estimated statements plans output.
Proof.
  intros plans output Hl. rewrite planned_length in Hl. revert plans output Hl.
  induction statements as [|s statements IH]; intros plans output Hl He; simpl in He, Hl.
  - injection He as <-. by destruct plans; simpl in *; [|lia].
  - destruct (String.eqb _ _) eqn:Es; simpl in Hl.
    + apply result_bind_inl in He as [rest [Hr He]]. injection He as <-. simpl. rewrite Es.
      split; [apply initial_bounded|]. split; [done|]. by apply IH.
    + destruct plans as [|plan plans].
      * injection He as <-. apply (estimated_initial (s :: statements)).
      * apply result_bind_inl in He as [e [He1 He]]. apply result_bind_inl in He as [rest [Hr He]].
        injection He as <-. simpl. rewrite Es.
        apply planned_bounded in He1 as [Hb Hp]; [|done]. split; [done|].
        split; [done|]. apply IH; [simpl in Hl; lia|done].
Qed.
End budgets.

(** The cost estimates. An evaluation that succeeds estimates every statement, in order, within
    the budgets of the catalog: an insert writes one row; a statement whose plan came back reads
    and writes at most what the catalog bounds for its resource, and its plan has a text on every
    row; a statement without a plan keeps the estimate it began with; and no plan is left over. *)
Theorem cost_within_budget input output :
  evaluate input = inl output ->
  exists catalog max_read max_written resources,
    ci_catalog input = Some catalog
    /\ assoc "maxEstimatedRowsRead" catalog ≫= Value.as_u64 = Some max_read
    /\ assoc "maxEstimatedRowsWritten" catalog ≫= Value.as_u64 = Some max_written
    /\ assoc "resources" catalog = Some (Value.Object resources)
    /\ estimated max_read max_written resources (ci_statements input) (ci_results input) output.
Proof.
  intros He. unfold evaluate in He.
  apply result_bind_inl in He as [catalog [Hc He]]. apply ok_or_inl in Hc.
  apply result_bind_inl in He as [mr [Hr He]]. apply ok_or_inl, positive_Some in Hr as [Hr Hr1].
  apply result_bind_inl in He as [mw [Hw He]]. apply ok_or_inl, positive_Some in Hw as [Hw Hw1].
  apply result_bind_inl in He as [resources [Hres He]]. apply ok_or_inl in Hres.
  case_match eqn:E; [done|]. apply Nat.ltb_ge in E.
  pose proof (apply_plans mr mw resources (ci_statements input) (ci_results input) [] [] eq_refl)
    as Hloop. simpl in Hloop. rewrite Hloop in He.
  apply result_bind_inl in He as [rest [He Ho]]. injection Ho as <-.
  exists catalog, mr, mw, resources. split_and!; try done.
  - apply bind_Some in Hres as [[] [-> Hres]]; try done. by injection Hres as <-.
  - by apply estimates_estimated.
Qed.

(** An insert, an update with a plan, and a select whose plan has not come. *)
Definition cost_example : CostInput :=
  {| ci_catalog := Some
       [("maxEstimatedRowsRead", Value.u64 100); ("maxEstimatedRowsWritten", Value.u64 100);
        ("resources", Value.Object [("1", Value.object [("upperRows", Value.u64 20)])])]%string;
     ci_statements :=
       [{| cs_operation := "insert"; cs_resource := None; cs_explain_resource := Some 1 |};
        {| cs_operation := "update"; cs_resource := None; cs_explain_resource := Some 1 |};
        {| cs_operation := "select"; cs_resource := None; cs_explain_resource := Some 1 |}];
     ci_results :=
       [{| pr_columns := ["id"; "detail"]%string;
           pr_rows := [[Value.u64 2; Value.String "SCAN"]] |}] |}.

Lemma cost_within_budget_witness :
  exists a b c, evaluate cost_example = inl [a; b; c]
    /\ upper_rows_written a = 1 /\ upper_rows_written b = 20 /\ plan_steps b = 1
    /\ upper_rows_read c = 0
    /\ bounded_estimate 100 100 b.
Proof.
  destruct (evaluate cost_example) as [output|] eqn:E; [|discriminate].
  destruct (cost_within_budget cost_example output E)
    as (catalog & mr & mw & resources & Hc & Hr & Hw & Hres & Hest).
  injection Hc as <-. injection Hr as <-. injection Hw as <-.
  vm_compute in E. injection E as <-. eexists _, _, _. split; [reflexivity|].
  split_and!; try reflexivity. apply Hest.
Defined.
