(* ===== verification/Bounds.v ===== *)
(** * Derived internal bounds

    [bounds.rs] and the [Limits] of [machine/mod.rs]: the memory guards on the
    internal hops, each the saturating sum of the maxima of its components. *)

From S2P Require Import Prelude F64 SerdeJson Compiler State.

(* [transaction/bounds.rs:10-11] SESSION_INPUT_BYTES *)
Definition SESSION_INPUT_BYTES : Z := 65536.
(* [transaction/bounds.rs:12-17] AUTH_BYTES *)
Definition AUTH_BYTES : Z := 2 * SESSION_INPUT_BYTES + 1024.
(* [transaction/bounds.rs:18-19] BINDING_BYTES *)
Definition BINDING_BYTES : Z := 2048.
(* [transaction/bounds.rs:20-21] KEY_BYTES *)
Definition KEY_BYTES : Z := 128.
(* [transaction/bounds.rs:22-23] INPUT_FRAMING_BYTES *)
Definition INPUT_FRAMING_BYTES : Z := 1024.
(* [transaction/bounds.rs:24-25] EVENT_FRAMING_BYTES *)
Definition EVENT_FRAMING_BYTES : Z := 4096.
(* [transaction/bounds.rs:46-48] HRANA_CELL_BYTES *)
Definition HRANA_CELL_BYTES : Z := 64.
(* [transaction/bounds.rs:49-51] HRANA_STATEMENT_BYTES *)
Definition HRANA_STATEMENT_BYTES : Z := 512.
(* [transaction/bounds.rs:52-54] HRANA_ENVELOPE_BYTES *)
Definition HRANA_ENVELOPE_BYTES : Z := 1024.
(* [transaction/bounds.rs:55-58] COLUMN_METADATA_BYTES *)
Definition COLUMN_METADATA_BYTES : Z := 1048576.
(* [transaction/bounds.rs:59-60] HARD_MAX_RESPONSE_BYTES *)
Definition HARD_MAX_RESPONSE_BYTES : Z := 589824.
(* [transaction/bounds.rs:61-65] LOOKUP_BYTES *)
Definition LOOKUP_BYTES : Z := 2 * HARD_MAX_RESPONSE_BYTES + 4096.
(* [transaction/bounds.rs:66-68] RESPONSE_RESERVE_BYTES *)
Definition RESPONSE_RESERVE_BYTES : Z := 1024.
(* [transaction/bounds.rs:69-71] NO_RESULT_BYTES *)
Definition NO_RESULT_BYTES : Z := 65536.

Definition zsum (l : list Z) : Z := foldr Z.add 0 l.

(** [raw_result_bound] computes in [u64]: the emitted columns are summed with
    [Iterator::sum], which wraps, and everything else saturates. *)
(* [transaction/bounds.rs:73-100] raw_result_bound *)
Definition raw_result_bound (max_result_bytes max_json_values : Z)
    (statements : list (Z * Z)) (column_metadata_bytes : Z) : Z :=
  (let columns := wrap64 (zsum (map snd statements)) in
   let cells := Z.min (foldl sat_add64 0 (map (fun '(rows, columns) => rows *| columns) statements))
                      (max_json_values -| columns) in
   let statement_count := Z.of_nat (length statements) in
   max_result_bytes *| 2 +| (cells *| HRANA_CELL_BYTES)
   +| (statement_count *| HRANA_STATEMENT_BYTES)
   +| column_metadata_bytes +| HRANA_ENVELOPE_BYTES)%u64.

Section usize.
Context `{Target}.

Local Notation "a ⊕ b" := (sat_add usize_max a b) (at level 50, left associativity).
Local Notation "a ⊗ b" := (sat_mul usize_max a b) (at level 40, left associativity).

(* [transaction/bounds.rs:27-33] compile_input_bytes *)
Definition compile_input_bytes (max_request_bytes : Z) : Z :=
  AUTH_BYTES ⊕ max_request_bytes ⊕ INPUT_FRAMING_BYTES.

(* [transaction/bounds.rs:35-44] hash_input_bytes *)
Definition hash_input_bytes (max_request_bytes : Z) : Z :=
  AUTH_BYTES ⊕ BINDING_BYTES ⊕ KEY_BYTES ⊕ max_request_bytes ⊗ 2 ⊕ INPUT_FRAMING_BYTES.

(* [transaction/bounds.rs:102-116] raw_result_bound_max *)
Definition raw_result_bound_max (max_result_bytes max_json_values max_statements : Z) : Z :=
  max_result_bytes ⊗ 2 ⊕ max_json_values ⊗ HRANA_CELL_BYTES
  ⊕ max_statements ⊗ HRANA_STATEMENT_BYTES ⊕ COLUMN_METADATA_BYTES ⊕ HRANA_ENVELOPE_BYTES.

(* [transaction/bounds.rs:118-127] largest_read_bytes *)
Definition largest_read_bytes (raw_bound_max : Z) : Z :=
  if (raw_bound_max >? LOOKUP_BYTES)%Z then raw_bound_max else LOOKUP_BYTES.

(* [transaction/bounds.rs:129-139] event_bytes *)
Definition event_bytes (max_request_bytes result_bytes : Z) : Z :=
  max_request_bytes ⊗ 2 ⊕ AUTH_BYTES ⊕ BINDING_BYTES ⊕ result_bytes ⊕ EVENT_FRAMING_BYTES.

(* [transaction/bounds.rs:141-155] volatile_bytes *)
Definition volatile_bytes (max_request_bytes max_response_bytes : Z) : Z :=
  let response := max_response_bytes ⊗ 2 in
  let held := if (response >? LOOKUP_BYTES)%Z then response else LOOKUP_BYTES in
  MAX_VOLATILE_BYTES ⊕ max_request_bytes ⊗ 2 ⊕ held.
End usize.

(* [transaction/machine/mod.rs:42-61] Limits *)
Record Limits := {
  transaction_ms : Z;
  max_transaction_statements : Z;
  max_transaction_result_bytes : Z;
  begin_timeout_ms : Z;
  max_callback_rows : Z;
  max_statements : Z;
  lim_max_request_bytes : Z;
  lim_max_result_bytes : Z;
  max_json_values : Z;
  max_response_bytes : Z
}.

Section limits.
Context `{Target}.

(* [transaction/machine/mod.rs:94-98] Limits::max_request_bytes *)
Definition max_request_bytes (l : Limits) : Z := to_usize (lim_max_request_bytes l).

(* [transaction/machine/mod.rs:64-72] Limits::max_volatile_bytes *)
Definition max_volatile_bytes (l : Limits) : Z :=
  volatile_bytes (max_request_bytes l) (to_usize (max_response_bytes l)).

(* [transaction/machine/mod.rs:82-92] Limits::largest_read_bytes *)
Definition limits_largest_read_bytes (l : Limits) : Z :=
  largest_read_bytes (raw_result_bound_max (to_usize (lim_max_result_bytes l))
    (to_usize (max_json_values l)) (to_usize (Z.max (max_statements l) 1))).

(* [transaction/machine/mod.rs:74-80] Limits::max_event_bytes *)
Definition max_event_bytes (l : Limits) : Z :=
  event_bytes (max_request_bytes l) (limits_largest_read_bytes l).

(* [transaction/machine/mod.rs:100-104] Limits::max_hash_input_bytes *)
Definition max_hash_input_bytes (l : Limits) : Z := hash_input_bytes (max_request_bytes l).
End limits.

(** ** The bounds bound

    The saturating sums of [bounds.rs] never hide an overflow: the record bound
    holds exactly when the exact sum fits, and what the limits allow a result to
    be is at most what the event bound admits, on both widths of [usize]. *)

(** ** The durable record *)
Section bounds.
Context `{Target}.

(** The exact size the bound is about. *)
Definition durable_size (deployment statements result name : Z) : Z :=
  DURABLE_FIXED_BYTES + deployment + REPLY_FIXED_BYTES + result
  + statements * (MUTATION_FIXED_BYTES + name).

(** C33: the record bound. For non-negative limits, a configuration is accepted exactly when it
    allows at most 256 statements, resource names of at most 1024 bytes, and a record whose exact
    size, computed without saturation, is at most 96 KiB. *)
Theorem durable_bound_exact deployment statements result name :
  0 <= deployment -> 0 <= statements -> 0 <= result -> 0 <= name ->
  durable_bound_holds deployment statements result name = true <->
  statements <= 256 /\ name <= 1024 /\ durable_size deployment statements result name <= 96 * 1024.
Proof.
  intros Hd Hs Hr Hn. pose proof usize_max_bounds as [Hlo Hhi].
  unfold durable_bound_holds, durable_size, MAX_MUTATIONS, MAX_RESOURCE_NAME_BYTES, MAX_DURABLE_BYTES,
    DURABLE_FIXED_BYTES, REPLY_FIXED_BYTES, MUTATION_FIXED_BYTES in *.
  unfold U32_MAX, U64_MAX in *. set (p := statements * (64 + name)).
  assert (Hp : 0 <= p) by (subst p; nia).
  unfold sat_add, sat_mul. fold p. clearbody p.
  destruct (_ && _) eqn:E.
  - rewrite !andb_true_iff, !Z.leb_le. bools. lia.
  - split; [done|]. intros (? & ? & ?). exfalso.
    apply andb_false_iff in E as [E|E]; bools; lia.
Qed.

(** ** Results *)

Lemma foldl_sat_add_nonneg l acc :
  0 <= acc -> Forall (fun n => 0 <= n) l -> 0 <= foldl sat_add64 acc l.
Proof.
  intros Ha Hl. revert acc Ha. induction Hl as [|n l Hn _ IH]; intros acc Ha; simpl; [done|].
  apply IH. unfold sat_add64, sat_add, U64_MAX. lia.
Qed.

(** A statement's row limit and column count. *)
Definition counts (statement : Z * Z) : Prop := 0 <= fst statement /\ 0 <= snd statement.

Definition cells (max_json_values : Z) (statements : list (Z * Z)) : Z :=
  Z.min (foldl sat_add64 0 (map (fun '(rows, columns) => (rows *| columns)%u64) statements))
        (max_json_values -| wrap64 (zsum (map snd statements)))%u64.

Lemma cells_bound v statements :
  0 <= v -> Forall counts statements -> 0 <= cells v statements <= v.
Proof.
  intros Hv Hs. unfold cells, sat_sub.
  assert (0 <= wrap64 (zsum (map snd statements))) by (apply Z.mod_pos_bound; lia).
  assert (0 <= foldl sat_add64 0 (map (fun '(rows, columns) => (rows *| columns)%u64) statements)).
  { apply foldl_sat_add_nonneg; [lia|]. apply Forall_map. eapply Forall_impl; [exact Hs|].
    intros [r c] [Hr Hc]. cbn in *. unfold sat_mul64, sat_mul, U64_MAX. nia. }
  lia.
Qed.

(** Cutting to [usize] commutes with the saturating operations, up to the cut. *)
Lemma to_usize_add a b x y :
  to_usize a <= x -> to_usize b <= y -> 0 <= a -> 0 <= b ->
  to_usize (sat_add64 a b) <= sat_add usize_max x y.
Proof.
  pose proof usize_max_bounds as [Hlo Hhi].
  unfold to_usize, sat_add64, sat_add, U32_MAX in *. lia.
Qed.

Lemma to_usize_mul a k x :
  to_usize a <= x -> 0 <= a -> 1 <= k -> to_usize (sat_mul64 a k) <= sat_mul usize_max x k.
Proof.
  pose proof usize_max_bounds as [Hlo Hhi]. unfold to_usize, sat_mul64, sat_mul, U32_MAX in *.
  intros Hx Ha Hk. destruct (Z.le_gt_cases a usize_max); [assert (a * k <= x * k) by nia; lia|].
  assert (usize_max <= x * k) by nia. lia.
Qed.

Lemma to_usize_le a b : a <= b -> to_usize a <= to_usize b.
Proof. unfold to_usize. lia. Qed.
Lemma to_usize_self a : to_usize a <= a.
Proof. unfold to_usize. lia. Qed.

Lemma sat_nonneg a b : 0 <= a -> 0 <= b -> 0 <= sat_add64 a b /\ 0 <= sat_mul64 a b.
Proof.
  intros. split; [apply sat_add_nonneg|apply sat_mul_nonneg]; unfold U64_MAX; lia.
Qed.

(** The result bound. The bound a plan puts on its raw result, cut to [usize], is at most the
    largest bound the limits allow any plan, and a driver event that carries such a result in its
    framing is at most [max_event_bytes]: no plan within the limits produces an event the machine
    refuses to read. *)
Theorem raw_result_fits_event l statements metadata :
  0 <= lim_max_result_bytes l <= U64_MAX -> 0 <= max_json_values l <= U64_MAX ->
  0 <= max_statements l <= U64_MAX -> 0 <= lim_max_request_bytes l ->
  Forall counts statements -> Z.of_nat (length statements) <= Z.max (max_statements l) 1 ->
  0 <= metadata <= COLUMN_METADATA_BYTES ->
  let bound := raw_result_bound (lim_max_result_bytes l) (max_json_values l) statements metadata in
  to_usize bound <= limits_largest_read_bytes l
  /\ to_usize (to_usize bound + EVENT_FRAMING_BYTES) <= max_event_bytes l.
Proof.
  intros Hr Hv Hm Hq Hs Hlen Hmeta bound. pose proof usize_max_bounds as [Hlo Hhi].
  pose proof (cells_bound _ _ (proj1 Hv) Hs) as Hc.
  assert (Hb : to_usize bound <= limits_largest_read_bytes l).
  { unfold bound, raw_result_bound. fold (cells (max_json_values l) statements).
    set (c := cells _ _) in *. clearbody c.
    transitivity (raw_result_bound_max (to_usize (lim_max_result_bytes l))
      (to_usize (max_json_values l)) (to_usize (Z.max (max_statements l) 1))).
    - unfold raw_result_bound_max.
      repeat first [ apply to_usize_add | apply to_usize_mul | apply sat_nonneg ];
        try apply to_usize_le; try (etransitivity; [apply to_usize_self|]);
        unfold HRANA_CELL_BYTES, HRANA_STATEMENT_BYTES, HRANA_ENVELOPE_BYTES, COLUMN_METADATA_BYTES in *;
        lia.
    - unfold limits_largest_read_bytes, largest_read_bytes. rewrite Z.gtb_ltb.
      match goal with |- context [(?a <? ?b)%Z] => destruct (Z.ltb_spec a b) end; lia. }
  split; [done|].
  unfold max_event_bytes, event_bytes, max_request_bytes. set (r := limits_largest_read_bytes l) in *.
  set (b := to_usize bound) in *. clearbody r b.
  unfold to_usize, sat_add, sat_mul, AUTH_BYTES, SESSION_INPUT_BYTES, BINDING_BYTES,
    EVENT_FRAMING_BYTES, U32_MAX in *. lia.
Qed.
End bounds.

(** The example limits, on the shipped module. *)
Definition bound_limits : Limits := {|
  transaction_ms := 30000; max_transaction_statements := 50;
  max_transaction_result_bytes := 65536; begin_timeout_ms := 5000; max_callback_rows := 100;
  max_statements := 20; lim_max_request_bytes := 65536; lim_max_result_bytes := 65536;
  max_json_values := 1000; max_response_bytes := 262144
|}.

Lemma durable_bound_exact_witness :
  durable_bound_holds 4096 50 32768 128 = true <->
  50 <= 256 /\ 128 <= 1024 /\ durable_size 4096 50 32768 128 <= 96 * 1024.
Proof. apply (durable_bound_exact 4096 50 32768 128); lia. Defined.

Lemma raw_result_fits_event_witness :
  let bound := raw_result_bound 65536 1000 [(10, 3); (100, 2)] 4096 in
  to_usize bound <= limits_largest_read_bytes bound_limits
  /\ to_usize (to_usize bound + EVENT_FRAMING_BYTES) <= max_event_bytes bound_limits.
Proof.
  apply (raw_result_fits_event bound_limits [(10, 3); (100, 2)] 4096);
    unfold U64_MAX, COLUMN_METADATA_BYTES; simpl; try lia.
  repeat constructor; simpl; lia.
Defined.

(** ** The values a result carries

    The count of the JSON values and member names of a JSON cell (crate [policysql-wasm],
    result_budget.rs). The visitor keeps its count in a cell, which an error leaves as it is; here
    a visit takes the count and returns it with whether the visit succeeded. *)

Section counter.
Variable limit : Z.

(* [wasm/result_budget.rs:37-45] Counter::bump *)
Definition bump (count : Z) : Z * bool :=
  let next := sat_add64 count 1 in (next, negb (limit <? next)%Z).

(** A member name is visited as a text. *)
(* [wasm/result_budget.rs:47-103]! Counter *)
Fixpoint visit (s : Stream) (count : Z) {struct s} : Z * bool :=
  match s with
  | SUnit | SBool _ | SU64 _ | SI64 _ | SF64 _ | SStr _ => bump count
  | SSeq items =>
      let '(count, ok) := bump count in if ok then visit_seq items count else (count, false)
  | SMap entries =>
      let '(count, ok) := bump count in if ok then visit_map entries count else (count, false)
  | SErr _ => (count, false)
  end
with visit_seq (s : SeqAccess) (count : Z) {struct s} : Z * bool :=
  match s with
  | SeqEnd => (count, true)
  | SeqNext item rest =>
      let '(count, ok) := visit item count in if ok then visit_seq rest count else (count, false)
  | SeqErr _ => (count, false)
  end
with visit_map (s : MapAccess) (count : Z) {struct s} : Z * bool :=
  match s with
  | MapEnd => (count, true)
  | MapNext _ item rest =>
      let '(count, ok) := bump count in
      if ok then
        let '(count, ok) := visit item count in if ok then visit_map rest count else (count, false)
      else (count, false)
  | MapErr _ => (count, false)
  end.
End counter.

(** [None] when the count is over the limit; text that is not JSON counts nothing. What follows
    the value is not read. *)
(* [wasm/result_budget.rs:13-28] count_json_values *)
Definition count_json_values `{Serde} (text : string) (limit : Z) : option Z :=
  let '(events, _) := from_str_events text in
  let '(count, ok) := visit limit events 0 in
  if ok then Some count else if (limit <? count)%Z then None else Some 0.

(** ** The count is exact

    The visitor that stops at the limit agrees with the count of the whole text. *)

#[local] Arguments bump : simpl never.

(** The values and names before the first error, and whether there is none. *)
Fixpoint stream_values (s : Stream) : Z * bool :=
  match s with
  | SUnit | SBool _ | SU64 _ | SI64 _ | SF64 _ | SStr _ => (1, true)
  | SSeq items => let '(n, ok) := seq_values items in (1 + n, ok)
  | SMap entries => let '(n, ok) := map_values entries in (1 + n, ok)
  | SErr _ => (0, false)
  end
with seq_values (s : SeqAccess) : Z * bool :=
  match s with
  | SeqEnd => (0, true)
  | SeqNext item rest =>
      let '(n, ok) := stream_values item in
      if ok then let '(m, ok) := seq_values rest in (n + m, ok) else (n, false)
  | SeqErr _ => (0, false)
  end
with map_values (s : MapAccess) : Z * bool :=
  match s with
  | MapEnd => (0, true)
  | MapNext _ item rest =>
      let '(n, ok) := stream_values item in
      if ok then let '(m, ok) := map_values rest in (1 + n + m, ok) else (1 + n, false)
  | MapErr _ => (0, false)
  end.

Scheme stream_mut := Induction for Stream Sort Prop
  with seq_access_mut := Induction for SeqAccess Sort Prop
  with map_access_mut := Induction for MapAccess Sort Prop.
Combined Scheme stream_mutind from stream_mut, seq_access_mut, map_access_mut.

Section exact.
Context (limit : Z) (Hlimit : 0 <= limit < U64_MAX).

(** A visit from [count] of something that counts [n]: it ends as that does if the count stays
    within the limit, and stops over the limit otherwise. *)
Definition visited (visit : Z -> Z * bool) (measure : Z * bool) : Prop :=
  0 <= measure.1 /\
  forall count, 0 <= count <= limit ->
    if (count + measure.1 <=? limit)%Z then visit count = (count + measure.1, measure.2)
    else (visit count).2 = false /\ limit < (visit count).1.

Lemma bump_visited : visited (bump limit) (1, true).
Proof.
  split; [simpl; lia|]. intros count Hc. unfold bump, sat_add64, sat_add. simpl.
  rewrite Z.min_l by lia. destruct (Z.leb_spec (count + 1) limit), (Z.ltb_spec limit (count + 1));
    simpl; try lia; done.
Qed.

(** One visit after another. *)
Lemma visited_then f g n m ok :
  visited f (n, true) -> visited g (m, ok) ->
  visited (fun count => let '(count, ok) := f count in if ok then g count else (count, false))
    (n + m, ok).
Proof.
  intros [Hn Hf] [Hm Hg]. simpl in *. split; [simpl; lia|]. simpl. intros count Hc.
  specialize (Hf count Hc). destruct (Z.leb_spec (count + n) limit) as [Hle|Hgt].
  - rewrite Hf. specialize (Hg (count + n) ltac:(lia)). by rewrite Z.add_assoc.
  - destruct Hf as [Hok Hover]. destruct (f count) as [c ok']. simpl in *. subst.
    destruct (Z.leb_spec (count + (n + m)) limit); [lia|done].
Qed.

Lemma visited_stop f g n :
  visited f (n, false) ->
  visited (fun count => let '(count, ok) := f count in if ok then g count else (count, false))
    (n, false).
Proof.
  intros [Hn Hf]. split; [done|]. intros count Hc. specialize (Hf count Hc). simpl in *.
  destruct (Z.leb_spec (count + n) limit); [by rewrite Hf|].
  destruct (f count) as [c ok]. simpl in *. by destruct Hf as [-> ?].
Qed.

Lemma visited_end ok : visited (fun count => (count, ok)) (0, ok).
Proof.
  split; [done|]. intros count Hc. simpl. destruct (Z.leb_spec (count + 0) limit); [|lia].
  by rewrite Z.add_0_r.
Qed.

Lemma visited_stream :
  (forall s, visited (visit limit s) (stream_values s))
  /\ (forall s, visited (visit_seq limit s) (seq_values s))
  /\ (forall s, visited (visit_map limit s) (map_values s)).
Proof.
  apply stream_mutind; intros; simpl; try apply bump_visited; try apply visited_end.
  - destruct (seq_values items) as [n ok].
    by apply (visited_then (bump limit) (visit_seq limit items) 1); [apply bump_visited|].
  - destruct (map_values entries) as [n ok].
    by apply (visited_then (bump limit) (visit_map limit entries) 1); [apply bump_visited|].
  - destruct (stream_values item) as [n []].
    + destruct (seq_values rest) as [m ok].
      by apply (visited_then (visit limit item) (visit_seq limit rest)).
    + by apply (visited_stop (visit limit item) (visit_seq limit rest)).
  - set (tail := fun count => let '(count, ok) := visit limit item count in
                              if ok then visit_map limit rest count else (count, false)).
    destruct (stream_values item) as [n []].
    + destruct (map_values rest) as [m ok]. rewrite <- Z.add_assoc.
      apply (visited_then (bump limit) tail 1); [apply bump_visited|].
      by apply (visited_then (visit limit item) (visit_map limit rest)).
    + apply (visited_then (bump limit) tail 1); [apply bump_visited|].
      by apply (visited_stop (visit limit item) (visit_map limit rest)).
Qed.
End exact.

(** Result budgets. Up to the limit a JSON cell counts as its values and member names, and
    nothing when it is not JSON; a cell with more than the limit before its first error is
    refused. *)
Theorem count_json_values_exact `{Serde} text limit :
  0 <= limit < U64_MAX ->
  let '(n, ok) := stream_values (fst (from_str_events text)) in
  count_json_values text limit
  = if (limit <? n)%Z then None else if ok then Some n else Some 0.
Proof.
  intros Hl. unfold count_json_values. destruct (from_str_events text) as [s end_ok]. simpl.
  destruct (proj1 (visited_stream limit Hl) s) as [Hn Hv]. specialize (Hv 0 ltac:(lia)).
  destruct (stream_values s) as [n ok]. simpl in *. rewrite Z.leb_antisym, Z.add_0_l in Hv.
  destruct (limit <? n)%Z eqn:E; cbn [negb] in Hv.
  - destruct (visit limit s 0) as [count ok']. simpl in Hv. destruct Hv as [-> Hc].
    by rewrite (proj2 (Z.ltb_lt limit count)).
  - rewrite Hv. destruct ok; [done|]. by rewrite E.
Qed.

(** The array of two numbers. *)
Definition budget_serde : Serde := {|
  to_string _ := EmptyString; raw_from_string s := Some s; from_str_value _ := None;
  from_str_members _ := None;
  from_str_events _ := (SSeq (SeqNext (SU64 1) (SeqNext (SU64 2) SeqEnd)), true);
  custom e := e; display_f64 _ := EmptyString |}.

Lemma count_json_values_exact_witness :
  count_json_values (H := budget_serde) "[1,2]" 3 = Some 3
  /\ count_json_values (H := budget_serde) "[1,2]" 2 = None.
Proof.
  split.
  - exact (count_json_values_exact (H := budget_serde) "[1,2]" 3
             ltac:(vm_compute; split; [discriminate|reflexivity])).
  - exact (count_json_values_exact (H := budget_serde) "[1,2]" 2
             ltac:(vm_compute; split; [discriminate|reflexivity])).
Defined.
