(* ===== verification/Limits.v ===== *)
(** * The limits of a deployment

    The one place a deployment configures the limits (crate [policysql-wasm], limits.rs): the
    fields with their defaults and ranges, and the limits the step machine gets (step.rs). *)

From S2P Require Import Prelude Result F64 Utf8 Core Bytes SerdeJson Compiler State Volatile Io.
From S2P Require Import Bounds.

(* [wasm/limits.rs:29-31] MAX_SAFE_INTEGER *)
Definition MAX_SAFE_INTEGER : Z := 9007199254740991.
(* [wasm/limits.rs:33-36] MAX_TRANSACTION_RESULT_BYTES *)
Definition MAX_TRANSACTION_RESULT_BYTES : Z := 65536.
(* [wasm/limits.rs:46-47] MAX_SQL_BYTES_CEILING *)
Definition MAX_SQL_BYTES_CEILING : Z := 1048576.
(* [wasm/limits.rs:49-51] HARD_MAX_ROWS *)
Definition HARD_MAX_ROWS : Z := 100000.
(* [wasm/limits.rs:52-52] HARD_MAX_RESULT_BYTES *)
Definition HARD_MAX_RESULT_BYTES : Z := 524288.
(* [wasm/limits.rs:53-53] HARD_MAX_STATEMENTS *)
Definition HARD_MAX_STATEMENTS : Z := 64.
(* [wasm/limits.rs:54-55] HARD_MAX_RESPONSE_BYTES *)
Definition LIMIT_MAX_RESPONSE_BYTES : Z := 589824.
(* [wasm/limits.rs:56-58] MIN_RESPONSE_HEADROOM_BYTES *)
Definition MIN_RESPONSE_HEADROOM_BYTES : Z := 3072.
(* [wasm/limits.rs:228-229] RESPONSE_HEADROOM_BYTES *)
Definition RESPONSE_HEADROOM_BYTES : Z := 65536.
(* [wasm/limits.rs:230-230] RESPONSE_FIELD *)
Definition RESPONSE_FIELD : string := "max_response_bytes".

(** One configurable field: its name, its default ([None] when it is required) and its range. *)
(* [wasm/limits.rs:38-44] Field *)
Record Field := {
  field_name : string;
  field_default : option Z;
  field_min : Z;
  field_max : Z
}.

(* [wasm/limits.rs:60-186] FIELDS *)
Definition FIELDS : list Field :=
  [{| field_name := "max_rows"; field_default := None;
      field_min := 1; field_max := HARD_MAX_ROWS |};
   {| field_name := "max_result_bytes"; field_default := None;
      field_min := 1; field_max := HARD_MAX_RESULT_BYTES |};
   {| field_name := "timeout_ms"; field_default := None;
      field_min := 1; field_max := MAX_SAFE_INTEGER |};
   {| field_name := "max_statements"; field_default := None;
      field_min := 1; field_max := HARD_MAX_STATEMENTS |};
   {| field_name := "transaction_ms"; field_default := Some 4000;
      field_min := 1; field_max := 60000 |};
   {| field_name := "max_transaction_statements"; field_default := Some 8;
      field_min := 1; field_max := 256 |};
   {| field_name := "max_transaction_result_bytes"; field_default := Some 64000;
      field_min := 1; field_max := MAX_TRANSACTION_RESULT_BYTES |};
   {| field_name := "max_callback_rows"; field_default := Some 100;
      field_min := 1; field_max := 10000 |};
   {| field_name := "begin_timeout_ms"; field_default := Some 1000;
      field_min := 1; field_max := 60000 |};
   {| field_name := "cost_timeout_ms"; field_default := Some 1000;
      field_min := 1; field_max := 10000 |};
   {| field_name := "max_request_bytes"; field_default := Some 1048576;
      field_min := 65536; field_max := 2097152 |};
   {| field_name := "max_json_values"; field_default := Some 65536;
      field_min := 1024; field_max := 131072 |};
   {| field_name := "max_sql_bytes"; field_default := Some 65536;
      field_min := 1024; field_max := MAX_SQL_BYTES_CEILING |};
   {| field_name := "max_bytes_per_value"; field_default := Some DEFAULT_MAX_BYTES_PER_VALUE;
      field_min := 1; field_max := HARD_MAX_BYTES_PER_VALUE |};
   {| field_name := "max_parameters"; field_default := Some 1024;
      field_min := 1; field_max := 16384 |};
   {| field_name := "max_expression_depth"; field_default := Some 32;
      field_min := 1; field_max := 64 |};
   {| field_name := "max_projections"; field_default := Some 128;
      field_min := 1; field_max := 2000 |};
   {| field_name := "max_joins"; field_default := Some 8;
      field_min := 1; field_max := 63 |}]%string.

(* [wasm/limits.rs:188-219] RuntimeLimits *)
Record RuntimeLimits := {
  rl_max_rows : Z;
  rl_max_result_bytes : Z;
  rl_timeout_ms : Z;
  rl_max_statements : Z;
  rl_transaction_ms : Z;
  rl_max_transaction_statements : Z;
  rl_max_transaction_result_bytes : Z;
  rl_max_callback_rows : Z;
  rl_begin_timeout_ms : Z;
  rl_cost_timeout_ms : Z;
  rl_max_request_bytes : Z;
  rl_max_json_values : Z;
  rl_max_sql_bytes : Z;
  rl_max_parameters : Z;
  rl_max_expression_depth : Z;
  rl_max_projections : Z;
  rl_max_joins : Z;
  rl_max_bytes_per_value : Z;
  rl_max_response_bytes : Z;
  rl_max_commit_checks : Z;
  rl_max_hook_duration_ms : Z
}.

(* [wasm/limits.rs:221-226] FixedLimits *)
Record FixedLimits := { fixed_max_commit_checks : Z; fixed_max_hook_duration_ms : Z }.

(** A key as one short line of plain characters. *)
(* [wasm/limits.rs:335-348] printable *)
Definition printable (key : string) : string :=
  fold_right (fun c text =>
    String (if (c <? 128)%Z && (is_alnum (char_of c) || (c =? 95)%Z) then char_of c else "?") text)
    EmptyString (take 64 (chars_of key)).

(* [wasm/limits.rs:236-238]! parse *)
Definition unknown_field (key : string) : bool :=
  negb (String.eqb key RESPONSE_FIELD)
  && negb (existsb (fun field => String.eqb (field_name field) key) FIELDS).

(** The value of one field. *)
(* [wasm/limits.rs:245-263]! parse *)
Definition field_value (object : list (string * value)) (field : Field) : result string Z :=
  match assoc (field_name field) object, field_default field with
  | None, Some default => mret default
  | None, None =>
      throw ("runtime limits are invalid: `" ++ field_name field ++ "` is required")%string
  | Some v, _ =>
      match Value.as_u64 v with
      | Some n =>
          if in_range (field_min field) (field_max field) n then mret n
          else throw ("runtime limits are invalid: `" ++ field_name field
                      ++ "` must be an integer from " ++ dec (field_min field) ++ " to "
                      ++ dec (field_max field))%string
      | None => throw ("runtime limits are invalid: `" ++ field_name field
                       ++ "` must be an integer from " ++ dec (field_min field) ++ " to "
                       ++ dec (field_max field))%string
      end
  end.

(** The response limit, whose range depends on the result limit. *)
(* [wasm/limits.rs:292-305]! parse *)
Definition response_value (object : list (string * value)) (max_result_bytes : Z)
    : result string Z :=
  let response_min := max_result_bytes + MIN_RESPONSE_HEADROOM_BYTES in
  let refused :=
    ("runtime limits are invalid: `" ++ RESPONSE_FIELD ++ "` must be an integer from "
     ++ "`max_result_bytes` + " ++ dec MIN_RESPONSE_HEADROOM_BYTES ++ " (" ++ dec response_min
     ++ ") to " ++ dec LIMIT_MAX_RESPONSE_BYTES)%string in
  match assoc RESPONSE_FIELD object with
  | None => mret (Z.min (max_result_bytes + RESPONSE_HEADROOM_BYTES) LIMIT_MAX_RESPONSE_BYTES)
  | Some v =>
      match Value.as_u64 v with
      | Some n => if in_range response_min LIMIT_MAX_RESPONSE_BYTES n then mret n else throw refused
      | None => throw refused
      end
  end.

Section parse.
Context `{Serde}.

(** The values are destructured in the order of [FIELDS]. *)
(* [wasm/limits.rs:232-329] parse *)
Definition parse (limits_json : string) (fixed : FixedLimits) : result string RuntimeLimits :=
  object ← ok_or (from_str_value limits_json ≫= Value.as_object)
             "runtime limits are invalid: expected a JSON object"%string;
  match List.find unknown_field (map fst object) with
  | Some unknown =>
      throw ("runtime limits are invalid: unknown field `" ++ printable unknown ++ "`")%string
  | None =>
      values ← collect (field_value object) FIELDS;
      let value i := nth i values 0 in
      let max_result_bytes := value 1%nat in
      if (value 10%nat <? value 12%nat)%Z
      then throw "runtime limits are invalid: `max_sql_bytes` must not exceed `max_request_bytes`"%string
      else
        max_response_bytes ← response_value object max_result_bytes;
        mret
          {| rl_max_rows := value 0%nat;
           rl_max_result_bytes := value 1%nat;
           rl_timeout_ms := value 2%nat;
           rl_max_statements := value 3%nat;
           rl_transaction_ms := value 4%nat;
           rl_max_transaction_statements := value 5%nat;
           rl_max_transaction_result_bytes := value 6%nat;
           rl_max_callback_rows := value 7%nat;
           rl_begin_timeout_ms := value 8%nat;
           rl_cost_timeout_ms := value 9%nat;
           rl_max_request_bytes := value 10%nat;
           rl_max_json_values := value 11%nat;
           rl_max_sql_bytes := value 12%nat;
           rl_max_parameters := value 14%nat;
           rl_max_expression_depth := value 15%nat;
           rl_max_projections := value 16%nat;
           rl_max_joins := value 17%nat;
           rl_max_bytes_per_value := value 13%nat;
           rl_max_response_bytes := max_response_bytes;
           rl_max_commit_checks := Z.min (fixed_max_commit_checks fixed) U64_MAX;
           rl_max_hook_duration_ms := fixed_max_hook_duration_ms fixed |}
  end.
End parse.

(** The limits as the step machine enforces them. *)
(* [wasm/step.rs:74-88] PolicySqlRuntime::machine_limits *)
Definition machine_limits (l : RuntimeLimits) : Limits := {|
  transaction_ms := rl_transaction_ms l;
  max_transaction_statements := rl_max_transaction_statements l;
  max_transaction_result_bytes := rl_max_transaction_result_bytes l;
  begin_timeout_ms := rl_begin_timeout_ms l;
  max_callback_rows := rl_max_callback_rows l;
  max_statements := rl_max_statements l;
  lim_max_request_bytes := rl_max_request_bytes l;
  lim_max_result_bytes := rl_max_result_bytes l;
  max_json_values := rl_max_json_values l;
  max_response_bytes := rl_max_response_bytes l
|}.

(** ** What a configuration bounds

    Every limit of a configuration that is accepted lies in its range, and on a 32-bit module none
    of the bounds derived from it saturates. *)

(** The configurable limits in the order of [FIELDS]. *)
Definition configured (l : RuntimeLimits) : list Z :=
  [rl_max_rows l; rl_max_result_bytes l; rl_timeout_ms l; rl_max_statements l;
   rl_transaction_ms l; rl_max_transaction_statements l; rl_max_transaction_result_bytes l;
   rl_max_callback_rows l; rl_begin_timeout_ms l; rl_cost_timeout_ms l; rl_max_request_bytes l;
   rl_max_json_values l; rl_max_sql_bytes l; rl_max_bytes_per_value l; rl_max_parameters l;
   rl_max_expression_depth l; rl_max_projections l; rl_max_joins l].

Definition in_field (f : Field) (n : Z) : Prop := field_min f <= n <= field_max f.

Lemma defaults_in_range :
  Forall (fun f => match field_default f with Some n => in_field f n | None => True end) FIELDS.
Proof.
  unfold FIELDS, in_field, DEFAULT_MAX_BYTES_PER_VALUE, HARD_MAX_BYTES_PER_VALUE, MAX_SAFE_INTEGER,
    MAX_SQL_BYTES_CEILING, HARD_MAX_ROWS, HARD_MAX_RESULT_BYTES, HARD_MAX_STATEMENTS,
    MAX_TRANSACTION_RESULT_BYTES.
  repeat constructor; simpl; lia.
Qed.

Lemma in_range_spec a b n : in_range a b n = true <-> a <= n <= b.
Proof. unfold in_range. rewrite andb_true_iff, !Z.leb_le. done. Qed.

Lemma field_value_in_range object f n : f ∈ FIELDS -> field_value object f = inl n -> in_field f n.
Proof.
  intros Hf Hv. pose proof defaults_in_range as Hd. rewrite Forall_forall in Hd. specialize (Hd f Hf).
  unfold field_value in Hv. destruct (assoc _ object) as [v|].
  - destruct (Value.as_u64 v); [|done]. destruct (in_range _ _ _) eqn:E; [|done]. injection Hv as <-.
    by apply in_range_spec in E.
  - destruct (field_default f); [|done]. by injection Hv as <-.
Qed.

Section limits.
Context `{Serde}.

Lemma parse_inl text fixed l :
  parse text fixed = inl l ->
  Forall2 in_field FIELDS (configured l)
  /\ rl_max_sql_bytes l <= rl_max_request_bytes l
  /\ rl_max_result_bytes l + MIN_RESPONSE_HEADROOM_BYTES <= rl_max_response_bytes l
     <= LIMIT_MAX_RESPONSE_BYTES.
Proof.
  intros Hp. unfold parse in Hp. apply result_bind_inl in Hp as [object [_ Hp]].
  case_match; [done|]. apply result_bind_inl in Hp as [values [Hv Hp]].
  apply collect_inl in Hv.
  assert (Hr : Forall2 in_field FIELDS values).
  { rewrite Forall2_lookup in *. intros i. specialize (Hv i).
    destruct (FIELDS !! i) as [f|] eqn:Ef; inversion Hv as [? n Hn|]; subst; constructor.
    eapply field_value_in_range; [by eapply list_elem_of_lookup_2|done]. }
  case_match eqn:Es; [done|]. apply Z.ltb_ge in Es.
  apply result_bind_inl in Hp as [response [Hresp Hp]]. injection Hp as <-.
  assert (Hlen : length values = 18%nat) by (by rewrite <- (Forall2_length _ _ _ Hr)).
  do 18 (destruct values as [|? values]; [discriminate|]). destruct values; [|discriminate].
  split; [exact Hr|]. split; [exact Es|]. simpl in *. unfold response_value in Hresp.
  assert (Hmax : z0 <= HARD_MAX_RESULT_BYTES).
  { rewrite Forall2_lookup in Hr. specialize (Hr 1%nat). inversion Hr as [? ? Hin|]. apply Hin. }
  destruct (assoc _ object) as [v|].
  - destruct (Value.as_u64 v); [|done]. destruct (in_range _ _ _) eqn:E; [|done]. injection Hresp as <-.
    by apply in_range_spec in E.
  - injection Hresp as <-. unfold RESPONSE_HEADROOM_BYTES, MIN_RESPONSE_HEADROOM_BYTES,
      LIMIT_MAX_RESPONSE_BYTES, HARD_MAX_RESULT_BYTES in *. lia.
Qed.
End limits.

(** The exact sums the derived bounds saturate. *)
Definition exact_result_bytes (l : RuntimeLimits) : Z :=
  Z.max (rl_max_result_bytes l * 2 + rl_max_json_values l * HRANA_CELL_BYTES
         + rl_max_statements l * HRANA_STATEMENT_BYTES + COLUMN_METADATA_BYTES
         + HRANA_ENVELOPE_BYTES) LOOKUP_BYTES.
Definition exact_event_bytes (l : RuntimeLimits) : Z :=
  rl_max_request_bytes l * 2 + AUTH_BYTES + BINDING_BYTES + exact_result_bytes l
  + EVENT_FRAMING_BYTES.
Definition exact_volatile_bytes (l : RuntimeLimits) : Z :=
  MAX_VOLATILE_BYTES + rl_max_request_bytes l * 2
  + Z.max (rl_max_response_bytes l * 2) LOOKUP_BYTES.

(** A sum below the cap is what it is. *)
Ltac exact_bound :=
  unfold max_request_bytes, to_usize, sat_add, sat_mul, HRANA_CELL_BYTES, HRANA_STATEMENT_BYTES,
    COLUMN_METADATA_BYTES, HRANA_ENVELOPE_BYTES, LOOKUP_BYTES, HARD_MAX_RESPONSE_BYTES, AUTH_BYTES,
    SESSION_INPUT_BYTES, BINDING_BYTES, EVENT_FRAMING_BYTES, MAX_VOLATILE_BYTES, U32_MAX,
    HARD_MAX_RESULT_BYTES, HARD_MAX_STATEMENTS, LIMIT_MAX_RESPONSE_BYTES,
    MIN_RESPONSE_HEADROOM_BYTES in *; simpl in *;
  repeat match goal with
    | |- context [Z.min ?a usize_max] =>
        lazymatch a with
        | context [usize_max] => fail
        | context [if _ then _ else _] => fail
        | _ => rewrite (Z.min_l a usize_max) by lia
        end
    | |- context [(?a <? ?b)%Z] =>
        lazymatch a with context [usize_max] => fail | _ => idtac end;
        lazymatch b with context [usize_max] => fail | _ => destruct (Z.ltb_spec a b) end
    end; lia.

(** C27: the limits. Every limit of an accepted configuration lies in the range of its field, SQL fits
    the request, and a response has room for a result and its envelope; and the machine of the
    configuration, also on a 32-bit module, derives the exact sums: none saturates, an event is at
    most 14,852,096 bytes and a volatile state at most 5,640,192. *)
Theorem configured_limits_exact `{Serde} `{Target} text fixed l :
  parse text fixed = inl l ->
  let m := machine_limits l in
  Forall2 in_field FIELDS (configured l)
  /\ rl_max_sql_bytes l <= rl_max_request_bytes l
  /\ rl_max_result_bytes l + MIN_RESPONSE_HEADROOM_BYTES <= rl_max_response_bytes l
     <= LIMIT_MAX_RESPONSE_BYTES
  /\ limits_largest_read_bytes m = exact_result_bytes l
  /\ max_event_bytes m = exact_event_bytes l /\ max_event_bytes m <= 14852096
  /\ max_volatile_bytes m = exact_volatile_bytes l /\ max_volatile_bytes m <= 5640192.
Proof.
  intros Hp m. destruct (parse_inl _ _ _ Hp) as (Hr & Hsql & Hresp). split; [done|].
  split; [done|]. split; [done|]. pose proof usize_max_bounds as [Hlo _].
  unfold FIELDS, configured in Hr.
  repeat match goal with H : Forall2 _ (_ :: _) _ |- _ =>
    apply Forall2_cons_1 in H as [? ?] end.
  unfold in_field in *; simpl in *.
  assert (Hread : limits_largest_read_bytes m = exact_result_bytes l).
  { unfold m, limits_largest_read_bytes, largest_read_bytes, raw_result_bound_max,
      exact_result_bytes. rewrite Z.gtb_ltb. exact_bound. }
  unfold max_event_bytes, max_volatile_bytes, event_bytes, volatile_bytes. rewrite Hread, Z.gtb_ltb.
  unfold exact_event_bytes, exact_volatile_bytes, exact_result_bytes, m, machine_limits.
  split_and!; [done|..]; exact_bound.
Qed.

(** A configuration with the required fields only. *)
Definition limits_serde : Serde := {|
  to_string _ := ""; raw_from_string s := Some s;
  from_str_value _ := Some (Value.Object
    [("max_result_bytes", Value.u64 64000); ("max_rows", Value.u64 100);
     ("max_statements", Value.u64 8); ("timeout_ms", Value.u64 1000)]);
  from_str_members _ := None; from_str_events _ := (SErr "", true);
  custom e := e; display_f64 _ := "" |}%string.

Definition example_fixed : FixedLimits :=
  {| fixed_max_commit_checks := 4; fixed_max_hook_duration_ms := 1500 |}.

Lemma configured_limits_exact_witness :
  exists l, parse (H := limits_serde) "{}" example_fixed = inl l
    /\ rl_max_response_bytes l = 129536
    /\ max_event_bytes (machine_limits l) = exact_event_bytes l.
Proof.
  destruct (parse (H := limits_serde) "{}" example_fixed) as [l|] eqn:E;
    [|vm_compute in E; discriminate].
  destruct (configured_limits_exact (H := limits_serde) "{}" example_fixed l E)
    as (_ & _ & _ & _ & He & _).
  exists l. split; [done|]. split; [vm_compute in E; by injection E as <-|exact He].
Defined.
