(* ===== verification/Canonical.v ===== *)
(** * Canonical JSON

    [canonical.rs]: the parse of strict JSON into [json] (duplicate keys and
    deep nesting refused by the visitor, the rest by the deserializer), and the
    canonical printer: sorted members, integers of magnitude below 2^53 as plain
    digits, strings escaped as [JSON.stringify] escapes them. *)

From Stdlib Require Import Sorting.Permutation Sorting.Sorted.
From S2P Require Import Prelude F64 SerdeJson Compiler State Volatile Io.

(* [transaction/canonical.rs:32-38] MAX_DEPTH *)
Definition MAX_DEPTH : nat := 64.

(* [transaction/canonical.rs:43-54] Json *)
Module Json.
Inductive json :=
| Null
| Bool (b : bool)
| Number (n : number)
| String (s : string)
| Array (items : list json)
| Object (members : list (string * json)).

(* [transaction/canonical.rs:68-78] Json::get *)
Definition get (key : string) (j : json) : option json :=
  match j with Object ms => assoc key ms | _ => None end.

(* [transaction/canonical.rs:80-87] Json::as_text *)
Definition as_text (j : json) : option string :=
  match j with String s => Some s | _ => None end.
End Json.
Abbreviation json := Json.json.

(** ** Reading *)

(** Members by the UTF-8 bytes of their keys; equal keys keep their order. *)
Definition key_leb {A} (a b : string * A) : bool :=
  match String.compare (fst a) (fst b) with Gt => false | _ => true end.

Fixpoint insert_member {A} (m : string * A) (l : list (string * A)) : list (string * A) :=
  match l with
  | [] => [m]
  | m' :: l' => if key_leb m m' then m :: l else m' :: insert_member m l'
  end.

(* [transaction/canonical.rs:260-260]! ValueVisitor::visit_map *)
Definition sort_members {A} (l : list (string * A)) : list (string * A) :=
  foldr insert_member [] l.

(* [transaction/canonical.rs:261-263]! ValueVisitor::visit_map *)
Definition distinct_neighbours {A} (l : list (string * A)) : bool :=
  windows2 (fun a b => negb (String.eqb (fst a) (fst b))) l.

(** The integer a visitor receives as [i64]: [Number::from]. *)
Definition number_of_i64 (n : Z) : number :=
  if (n <? 0)%Z then Number.NegInt n else Number.PosInt n.

(* [transaction/canonical.rs:170-266]! ValueSeed, ValueVisitor *)
Fixpoint visit_value (max_depth depth : nat) (s : Stream) {struct s} : option json :=
  match s with
  | SUnit => Some Json.Null
  | SBool b => Some (Json.Bool b)
  | SU64 n => Some (Json.Number (Number.PosInt n))
  | SI64 n => Some (Json.Number (number_of_i64 n))
  | SF64 f => if F64.is_finite f then Some (Json.Number (Number.Float f)) else None
  | SStr t => Some (Json.String t)
  | SSeq items =>
      if (max_depth <=? depth)%nat then None
      else items ← visit_seq max_depth (S depth) items; Some (Json.Array items)
  | SMap entries =>
      if (max_depth <=? depth)%nat then None
      else
        members ← visit_map max_depth (S depth) entries;
        let members := sort_members members in
        if distinct_neighbours members then Some (Json.Object members) else None
  | SErr _ => None
  end
with visit_seq (max_depth depth : nat) (s : SeqAccess) {struct s} : option (list json) :=
  match s with
  | SeqEnd => Some []
  | SeqNext item rest =>
      j ← visit_value max_depth depth item;
      js ← visit_seq max_depth depth rest;
      Some (j :: js)
  | SeqErr _ => None
  end
with visit_map (max_depth depth : nat) (s : MapAccess) {struct s} : option (list (string * json)) :=
  match s with
  | MapEnd => Some []
  | MapNext key item rest =>
      j ← visit_value max_depth depth item;
      js ← visit_map max_depth depth rest;
      Some ((key, j) :: js)
  | MapErr _ => None
  end.

(** ** Printing *)

(* [transaction/canonical.rs:40-41] MAX_SAFE_INTEGER *)
Definition MAX_SAFE_INTEGER_F64 : f64 := F64.of_Z 9007199254740991.

(** [write!(out, "{integer}")]. *)
Definition display_Z (n : Z) : string :=
  if (n <? 0)%Z then String "-"%char (dec (- n)) else dec n.

Definition hex_char (n : Z) : ascii :=
  char_of (if (n <? 10)%Z then 48 + n else 87 + n).

(** What [write_string] writes for one byte. *)
(* [transaction/canonical.rs:326-336]! write_string *)
Definition escape_byte (c : ascii) : string :=
  let b := byte_of c in
  if (b =? 34)%Z then String "\"%char dquote
  else if (b =? 92)%Z then "\\"
  else if (b =? 8)%Z then "\b"
  else if (b =? 9)%Z then "\t"
  else if (b =? 10)%Z then "\n"
  else if (b =? 12)%Z then "\f"
  else if (b =? 13)%Z then "\r"
  else if (b <? 32)%Z then
    ("\u00" ++ String (hex_char (Z.shiftr b 4)) (String (hex_char (Z.land b 15)) EmptyString))%string
  else String c EmptyString.

(* [transaction/canonical.rs:323-348]! write_string *)
Fixpoint escape (s : string) : string :=
  match s with
  | EmptyString => EmptyString
  | String c s' => (escape_byte c ++ escape s')%string
  end.

(* [transaction/canonical.rs:319-350] write_string *)
Definition write_string (text : string) : string := (dquote ++ escape text ++ dquote)%string.

(** Items joined with commas. *)
Fixpoint commas (l : list string) : string :=
  match l with
  | [] => EmptyString
  | [s] => s
  | s :: l' => (s ++ "," ++ commas l')%string
  end.

Section canonical.
Context `{Serde}.

(* [transaction/canonical.rs:100-118] parse_with_max_depth *)
Definition parse_with_max_depth (text : string) (max_depth : nat) : option json :=
  let '(events, end_ok) := from_str_events text in
  value ← visit_value max_depth 0 events;
  if end_ok then Some value else None.

(* [transaction/canonical.rs:90-98] parse *)
Definition parse (text : string) : option json := parse_with_max_depth text MAX_DEPTH.

(* [transaction/canonical.rs:303-317] write_number *)
Definition write_number (n : number) : string :=
  match n with
  | Number.Float value =>
      if F64.is_integer value && F64.leb (F64.abs value) MAX_SAFE_INTEGER_F64
      then display_Z (F64.to_i64 value)
      else display_f64 value
  | Number.PosInt n | Number.NegInt n => display_Z n
  end.

(** The members are printed and then sorted by key, which is the order the source
    sorts them in before it prints them. *)
(* [transaction/canonical.rs:268-301] write_value *)
Fixpoint write_value (value : json) : string :=
  match value with
  | Json.Null => "null"
  | Json.Bool true => "true"
  | Json.Bool false => "false"
  | Json.Number n => write_number n
  | Json.String text => write_string text
  | Json.Array items => ("[" ++ commas (map write_value items) ++ "]")%string
  | Json.Object members =>
      let printed := sort_members (map (fun '(key, item) => (key, write_value item)) members) in
      ("{" ++ commas (map (fun '(key, item) => write_string key ++ ":" ++ item)%string printed)
       ++ "}")%string
  end.

(* [transaction/canonical.rs:129-135] to_canonical *)
Definition to_canonical (value : json) : string := write_value value.

(* [transaction/canonical.rs:120-127] canonical_json *)
Definition canonical_json (text : string) : option string := to_canonical <$> parse text.

(* [transaction/canonical.rs:163-168] js_string_len *)
Definition js_string_len (text : string) : Z := len (write_string text).

(* [transaction/canonical.rs:137-161] js_value_len *)
Fixpoint js_value_len (v : value) : Z :=
  match v with
  | Value.Null | Value.Bool true => 4
  | Value.Bool false => 5
  | Value.Number n => len (write_number n)
  | Value.String text => js_string_len text
  | Value.Array items =>
      2 + Z.of_nat (length items - 1) + foldr Z.add 0 (map js_value_len items)
  | Value.Object members =>
      2 + Z.of_nat (length members - 1)
      + foldr Z.add 0 (map (fun '(key, item) => js_string_len key + 1 + js_value_len item) members)
  end.
End canonical.

(** ** The strict check of an untrusted body

    [strict.rs]: one pass over the deserializer's events that counts every value
    and member name, refuses duplicate member names and deep nesting, and
    classifies the first error. *)

(* [transaction/strict.rs:20-33] StrictError *)
Module StrictError.
Inductive strict_error := Syntax | DuplicateKey | TooDeep | TooManyValues | LoneSurrogate.
#[export] Instance strict_error_eq_dec : EqDecision strict_error.
Proof. solve_decision. Defined.
End StrictError.
Abbreviation strict_error := StrictError.strict_error.
Export (hints) StrictError.

(* [transaction/strict.rs:35-35] DUPLICATE_KEY *)
Definition DUPLICATE_KEY : string := "policysql: strict json: duplicate key".
(* [transaction/strict.rs:36-36] TOO_DEEP *)
Definition TOO_DEEP : string := "policysql: strict json: nesting too deep".
(* [transaction/strict.rs:37-37] TOO_MANY_VALUES *)
Definition TOO_MANY_VALUES : string := "policysql: strict json: too many values".

(** [str::contains]. *)
Fixpoint contains (hay needle : string) : bool :=
  starts_with needle hay
  || match hay with EmptyString => false | String _ hay' => contains hay' needle end.

(* [transaction/strict.rs:79-96] classify *)
Definition classify (message : DeError) : strict_error :=
  if contains message DUPLICATE_KEY then StrictError.DuplicateKey
  else if contains message TOO_DEEP then StrictError.TooDeep
  else if contains message TOO_MANY_VALUES then StrictError.TooManyValues
  else if contains message "lone leading surrogate"
          || contains message "unexpected end of hex escape"
  then StrictError.LoneSurrogate
  else StrictError.Syntax.

Section strict.
Context `{Target} `{Serde}.
(** The counter's limits: [max_values] and [max_depth]. *)
Variable max_values : option Z.
Variable max_depth : nat.

(* [transaction/strict.rs:105-111] Counter::count *)
Definition count (values : Z) : Z + DeError :=
  let values := sat_add usize_max values 1 in
  if opt_existsb (fun max => values >? max)%Z max_values
  then inr (custom TOO_MANY_VALUES) else inl values.

(** A visit takes the count so far and returns the count after it. *)
(* [transaction/strict.rs:114-209]! CheckSeed, Check *)
Fixpoint check_value (depth : nat) (values : Z) (s : Stream) {struct s} : Z + DeError :=
  match s with
  | SUnit | SBool _ | SU64 _ | SI64 _ | SF64 _ | SStr _ => count values
  | SSeq items =>
      if (max_depth <=? depth)%nat then inr (custom TOO_DEEP)
      else match count values with
           | inl values => check_seq (S depth) values items
           | inr e => inr e
           end
  | SMap entries =>
      if (max_depth <=? depth)%nat then inr (custom TOO_DEEP)
      else match count values with
           | inl values => check_map (S depth) [] values entries
           | inr e => inr e
           end
  | SErr e => inr e
  end
with check_seq (depth : nat) (values : Z) (s : SeqAccess) {struct s} : Z + DeError :=
  match s with
  | SeqEnd => inl values
  | SeqNext item rest =>
      match check_value depth values item with
      | inl values => check_seq depth values rest
      | inr e => inr e
      end
  | SeqErr e => inr e
  end
with check_map (depth : nat) (keys : list string) (values : Z) (s : MapAccess) {struct s}
    : Z + DeError :=
  match s with
  | MapEnd => inl values
  | MapNext key item rest =>
      match count values with
      | inl values =>
          if str_in key keys then inr (custom DUPLICATE_KEY)
          else match check_value depth values item with
               | inl values => check_map depth (key :: keys) values rest
               | inr e => inr e
               end
      | inr e => inr e
      end
  | MapErr e => inr e
  end.

(* [transaction/strict.rs:51-77] check_with_max_depth *)
Definition check_with_max_depth (text : string) : unit + strict_error :=
  let '(events, end_ok) := from_str_events text in
  match check_value 0 0 events with
  | inr message => inr (classify message)
  | inl _ => if end_ok then inl tt else inr StrictError.Syntax
  end.
End strict.

(* [transaction/strict.rs:39-49] check *)
Definition check `{Target} `{Serde} (text : string) (max_values : option Z) : unit + strict_error :=
  check_with_max_depth max_values MAX_DEPTH text.
