(* ===== verification/Identity.v ===== *)
(** * Request identities, fingerprints, and digests

    [identity.rs]: which parts of a request reach a hash, and how. SHA-256 is
    the [sha2] crate's: an operation of the class [Sha2]. *)

From S2P Require Import Prelude F64 SerdeJson Compiler State Volatile Io Bounds Canonical.

Class Sha2 := { sha256_digest : string -> list Z }.

Class Sha2Laws `{Sha2} := {
  digest_length s : length (sha256_digest s) = 32%nat;
  digest_bytes s : Forall (fun b => 0 <= b < 256) (sha256_digest s)
}.

(* [transaction/identity.rs:37-44] IdentityError *)
Module IdentityError.
Inductive identity_error := KeyInvalid | Internal.
End IdentityError.
Abbreviation identity_error := IdentityError.identity_error.

(** [{byte:02x}]. *)
Definition hex_byte (b : Z) : string :=
  String (hex_char (Z.shiftr b 4)) (String (hex_char (Z.land b 15)) EmptyString).

Fixpoint hex_string (bytes : list Z) : string :=
  match bytes with
  | [] => EmptyString
  | b :: bytes' => (hex_byte b ++ hex_string bytes')%string
  end.

(* [transaction/identity.rs:57-71] valid_idempotency_key *)
Definition valid_idempotency_key (key : string) : bool :=
  in_range 16 128 (len key)
  && str_forallb (fun c =>
       let b := byte_of c in
       is_alnum c || (b =? 46)%Z || (b =? 95)%Z || (b =? 58)%Z || (b =? 45)%Z
       || (b =? 43)%Z || (b =? 47)%Z || (b =? 61)%Z) key.

(* [transaction/identity.rs:314-321] valid_transaction_id *)
Definition valid_transaction_id (value : string) : bool :=
  opt_existsb (fun hex => (len hex =? 32)%Z && all_hex hex) (strip_prefix "tx_" value).

(** The [Result<_, IdentityError>] of this file. *)
Abbreviation result A := (A + identity_error)%type.

Definition or_internal {A} (o : option A) : result A :=
  match o with Some a => inl a | None => inr IdentityError.Internal end.

Definition rbind {A B} (m : result A) (k : A -> result B) : result B :=
  match m with inl a => k a | inr e => inr e end.
Notation "'let?' x ':=' m 'in' k" := (rbind m (fun x => k))
  (at level 10, x name, k at level 200).

(** [if cond { Ok(()) } else { Err(Internal) }]. *)
Definition ensure (cond : bool) : result unit :=
  if cond then inl tt else inr IdentityError.Internal.

(* [transaction/identity.rs:291-293] text *)
Definition text (value : option json) : result string :=
  or_internal (j ← value; Json.as_text j).

(* [transaction/identity.rs:295-297] is_string *)
Definition is_string (value : option json) : bool :=
  match value with Some (Json.String _) => true | _ => false end.

(* [transaction/identity.rs:299-312] exact_keys *)
Definition exact_keys (value : json) (required optional : list string) : result unit :=
  match value with
  | Json.Object members =>
      ensure (forallb (fun '(name, _) => str_in name (required ++ optional)) members
              && forallb (fun key => bool_decide (is_Some (Json.get key value))) required)
  | _ => inr IdentityError.Internal
  end.

(* [transaction/identity.rs:323-329] Auth *)
Record Auth := { principal : json; subject : json; role : json; session : json }.

(* [transaction/identity.rs:339-345]! Auth::read *)
Definition string_list (value : option json) : bool :=
  match value with
  | None => true
  | Some (Json.Array items) => forallb (fun item => is_string (Some item)) items
  | Some _ => false
  end.

(* [transaction/identity.rs:332-365] Auth::read *)
Definition auth_read (value : option json) : result Auth :=
  let? value := or_internal value in
  let? _ := exact_keys value ["principal"; "subject"; "role"; "session"] ["roles"; "access"] in
  let? _ := ensure (forallb (fun list => string_list (Json.get list value)) ["roles"; "access"]) in
  let? _ := ensure (forallb (fun field => is_string (Json.get field value))
                      ["principal"; "subject"; "role"]) in
  let? session := or_internal (Json.get "session" value) in
  match session with
  | Json.Object entries =>
      let? _ := ensure (forallb (fun '(_, item) => is_string (Some item)) entries) in
      let? p := or_internal (Json.get "principal" value) in
      let? s := or_internal (Json.get "subject" value) in
      let? r := or_internal (Json.get "role" value) in
      inl {| principal := p; subject := s; role := r; session := session |}
  | _ => inr IdentityError.Internal
  end.

(* [transaction/identity.rs:368-388] binding *)
Definition binding_read (value : option json) : result json :=
  let? value := or_internal value in
  let? _ := exact_keys value ["version"; "scope"; "databaseId"; "generation"; "snapshot"] [] in
  let? _ := ensure (match Json.get "version" value with
                    | Some (Json.Number n) => F64.eqb (Number.as_f64 n) (F64.of_Z 1)
                    | _ => false
                    end) in
  let? _ := ensure (forallb (fun part => is_string (Json.get part value))
                      ["scope"; "databaseId"; "generation"; "snapshot"]) in
  inl value.

(* [transaction/identity.rs:266-278] without_snapshot *)
Definition without_snapshot (binding : json) : result json :=
  match binding with
  | Json.Object parts =>
      inl (Json.Object (List.filter (fun '(name, _) => negb (String.eqb name "snapshot")) parts))
  | _ => inr IdentityError.Internal
  end.

(** Text in double quotes, for the [format!] strings of this file. *)
Definition quoted (s : string) : string := (dquote ++ s ++ dquote)%string.

Section identity.
Context `{Serde} `{Sha2}.

(* [transaction/identity.rs:46-55] sha256_hex *)
Definition sha256_hex (bytes : string) : string := hex_string (sha256_digest bytes).

(* [transaction/identity.rs:390-393] body *)
Definition body (value : option json) : result json :=
  let? t := text value in or_internal (parse t).

(** The members of the auth fingerprint. *)
(* [transaction/identity.rs:169-175]! auth_fingerprint *)
Definition auth_value (auth : Auth) (binding : json) : json :=
  Json.Object [("principal", principal auth); ("subject", subject auth); ("role", role auth);
               ("session", session auth); ("databaseBinding", binding)].

(* [transaction/identity.rs:165-177] auth_fingerprint *)
Definition identity_auth_fingerprint (auth binding_value : json) : result string :=
  let? auth := auth_read (Some auth) in
  let? binding := binding_read (Some binding_value) in
  inl (sha256_hex (to_canonical (auth_value auth binding))).

(* [transaction/identity.rs:179-194] replay_identity *)
Definition replay_identity (auth binding_value : json) : result string :=
  let? auth := auth_read (Some auth) in
  let? binding := binding_read (Some binding_value) in
  let? database := without_snapshot binding in
  inl (sha256_hex (to_canonical (Json.Object
    [("replay", Json.String "v1"); ("principal", principal auth); ("subject", subject auth);
     ("role", role auth); ("session", session auth); ("database", database)]))).

(* [transaction/identity.rs:196-204] command_digest *)
Definition command_digest (kind : string) (command : json) : string :=
  sha256_hex (to_canonical (Json.Object [("kind", Json.String kind); ("command", command)])).

(* [transaction/identity.rs:206-210] callback_digest *)
Definition callback_digest (command : json) : string := sha256_hex (to_canonical command).

(* [transaction/identity.rs:280-285] digest *)
Definition identity_digest (value : json) : string :=
  ("{" ++ quoted "digest" ++ ":" ++ quoted (sha256_hex (to_canonical value)) ++ "}")%string.

(** The canonical identity text a request's key and fingerprint are bound to. *)
(* [transaction/identity.rs:233-247]! request *)
Definition request_identity_text (auth : Auth) (endpoint : string) (scope database_id : json)
    : string :=
  to_canonical (Json.Object
    [("principal", principal auth); ("subject", subject auth); ("role", role auth);
     ("session", session auth); ("endpoint", Json.String endpoint);
     ("database", Json.Object [("scope", scope); ("databaseId", database_id)])]).

(* [transaction/identity.rs:211-264]! request *)
Definition request (input : json) : result string :=
  let? _ := exact_keys input ["op"; "endpoint"; "auth"; "binding"; "body"] ["key"] in
  let? endpoint := text (Json.get "endpoint" input) in
  let? _ := ensure (str_in endpoint ["execute"; "interactive-start"]) in
  let? auth := auth_read (Json.get "auth" input) in
  let? binding := binding_read (Json.get "binding" input) in
  let? body := body (Json.get "body" input) in
  match Json.get "key" input with
  | None => inl ("{" ++ quoted "idempotency" ++ ":null}")%string
  | Some key =>
      match Json.as_text key with
      | None => inr IdentityError.KeyInvalid
      | Some key =>
          if negb (valid_idempotency_key key) then inr IdentityError.KeyInvalid
          else
            let? scope := or_internal (Json.get "scope" binding) in
            let? database_id := or_internal (Json.get "databaseId" binding) in
            let identity := request_identity_text auth endpoint scope database_id in
            let key_hash := sha256_hex (identity ++ ":" ++ key)%string in
            let? rest := without_snapshot binding in
            let fingerprint :=
              sha256_hex (identity ++ ":" ++ to_canonical body ++ ":" ++ to_canonical rest)%string in
            inl ("{" ++ quoted "idempotency" ++ ":{" ++ quoted "keyHash" ++ ":" ++ quoted key_hash
                 ++ "," ++ quoted "fingerprint" ++ ":" ++ quoted fingerprint ++ "}}")%string
      end
  end.

(* [transaction/identity.rs:31-35] COMMAND_ENVELOPE_DEPTH *)
Definition COMMAND_ENVELOPE_DEPTH : nat := 1.

(** The operations on a parsed input. *)
(* [transaction/identity.rs:111-163]! compute *)
Definition compute_op (op : string) (input : json) : result string :=
  if String.eqb op "request" then request input
  else if String.eqb op "auth" then
    let? _ := exact_keys input ["op"; "auth"; "binding"] [] in
    let? auth := auth_read (Json.get "auth" input) in
    let? binding := binding_read (Json.get "binding" input) in
    inl ("{" ++ quoted "fingerprint" ++ ":"
         ++ quoted (sha256_hex (to_canonical (auth_value auth binding))) ++ "}")%string
  else if String.eqb op "start" then
    let? _ := exact_keys input ["op"; "transactionId"; "body"] [] in
    let? transaction_id := text (Json.get "transactionId" input) in
    let? _ := ensure (valid_transaction_id transaction_id) in
    let? body := body (Json.get "body" input) in
    inl (identity_digest (Json.Object
      [("transactionId", Json.String transaction_id); ("request", body)]))
  else if String.eqb op "command" then
    let? _ := exact_keys input ["op"; "kind"; "command"] [] in
    let? kind := text (Json.get "kind" input) in
    let? _ := ensure (str_in kind ["statement"; "commit"; "rollback"]) in
    let? command := or_internal (Json.get "command" input) in
    inl (identity_digest (Json.Object [("kind", Json.String kind); ("command", command)]))
  else if String.eqb op "callback" then
    let? _ := exact_keys input ["op"; "command"] [] in
    let? command := or_internal (Json.get "command" input) in
    inl (identity_digest command)
  else inr IdentityError.Internal.

(* [transaction/identity.rs:97-163] compute *)
Definition compute (input : string) (max_input_bytes : Z) : result string :=
  if (len input >? max_input_bytes)%Z then inr IdentityError.Internal
  else
    let? input := or_internal (parse_with_max_depth input (MAX_DEPTH + COMMAND_ENVELOPE_DEPTH)) in
    let? op := text (Json.get "op" input) in
    compute_op op input.
End identity.

(** ** The public timestamps

    [machine/time.rs]: [iso_from_ms] formats milliseconds since the Unix epoch
    as [Date.prototype.toISOString] does. Its calendar arithmetic is Hinnant's
    [civil_from_days]; Canon.v proves both correct. *)

(* [transaction/machine/time.rs:16-28] civil_from_days *)
Definition civil_from_days (days : Z) : Z * Z * Z :=
  let z := days + 719468 in
  let era := z / 146097 in
  let doe := z - era * 146097 in
  let yoe := (doe - doe / 1460 + doe / 36524 - doe / 146096) / 365 in
  let doy := doe - (365 * yoe + yoe / 4 - yoe / 100) in
  let mp := (5 * doy + 2) / 153 in
  let day := doy - (153 * mp + 2) / 5 + 1 in
  let month := if (mp <? 10)%Z then mp + 3 else mp - 9 in
  let year := yoe + era * 400 + (if (month <=? 2)%Z then 1 else 0) in
  (year, month, day).

(** [{:0w}]: the decimal digits padded with zeros to the width. *)
Definition padded (width : nat) (n : Z) : string :=
  let d := dec n in
  (String.string_of_list_ascii (replicate (width - String.length d) "0"%char) ++ d)%string.

(* [transaction/machine/time.rs:4-14] iso_from_ms *)
Definition iso_from_ms (ms : Z) : string :=
  let millis := ms mod 1000 in
  let seconds := ms / 1000 in
  let second := seconds mod 60 in
  let minute := (seconds / 60) mod 60 in
  let hour := (seconds / 3600) mod 24 in
  let days := seconds / 86400 in
  let '(year, month, day) := civil_from_days days in
  (padded 4 year ++ "-" ++ padded 2 month ++ "-" ++ padded 2 day ++ "T" ++ padded 2 hour ++ ":"
   ++ padded 2 minute ++ ":" ++ padded 2 second ++ "." ++ padded 3 millis ++ "Z")%string.

Example iso_epoch : iso_from_ms 0 = "1970-01-01T00:00:00.000Z".
Proof. reflexivity. Qed.
Example iso_leap : iso_from_ms 951782400000 = "2000-02-29T00:00:00.000Z".
Proof. reflexivity. Qed.
Example iso_last : iso_from_ms 253402300799999 = "9999-12-31T23:59:59.999Z".
Proof. reflexivity. Qed.
