(* ===== verification/Machine.v ===== *)
(** * The step machine: state, monad, and plumbing

    [machine/step.rs], the [Step] structure and its plumbing section. A handler
    is a computation of the monad [M]: it threads the step's state [St] (the
    durable and volatile state, the effects so far, and the compiler's handle
    table) and ends with a value or a [Fault]; a fault keeps the state reached,
    from which only the compiler's table and the handles compiled in this step
    survive ([run_dispatch]). *)

From S2P Require Import Prelude F64 SerdeJson Compiler State Volatile Io Bounds Canonical.
From S2P Require Import Identity.

(* [transaction/machine/step.rs:32-34] Fault *)
Definition Fault := string.

(* [transaction/machine/step.rs:135-150] Step *)
Record St `{Compiler} := {
  compiler : CS;
  durable_of : option durable;
  volatile_of : option Volatile;
  effects : list effect;
  reset : bool;
  request_of : option string;
  allocated : list Z;
  abandoned : bool
}.

(** What a step reads and never changes: the limits and the host facts. *)
Class Env := { limits : Limits; host : HostFacts }.

(** The owner's name, empty in the engine (placement [direct]). *)
Definition this_owner `{Env} : string := default EmptyString (owner host).

Section monad.
Context `{Compiler}.

Definition M (A : Type) : Type := St -> (A + Fault) * St.

#[global] Instance M_ret : MRet M := fun A a s => (inl a, s).
#[global] Instance M_bind : MBind M := fun A B k m s =>
  match m s with
  | (inl a, s') => k a s'
  | (inr f, s') => (inr f, s')
  end.

Definition get : M St := fun s => (inl s, s).
Definition gets {A} (f : St -> A) : M A := fun s => (inl (f s), s).
Definition modify (f : St -> St) : M unit := fun s => (inl tt, f s).
Definition fault {A} (reason : Fault) : M A := fun s => (inr reason, s).

(** [ok_or(Fault(reason))?]. *)
Definition or_fault {A} (reason : Fault) (o : option A) : M A :=
  match o with Some a => mret a | None => fault reason end.

(** Runs a computation and returns its [Result] as a value. *)
Definition attempt {A} (m : M A) : M (A + Fault) := fun s =>
  let '(r, s') := m s in (inl r, s').

(** Returns a [Result] held as a value. *)
Definition lift {A} (r : A + Fault) : M A := fun s => (r, s).

(** *** Field updates *)
Definition set_compiler c s :=
  Build_St _ c (durable_of s) (volatile_of s) (effects s) (reset s) (request_of s)
    (allocated s) (abandoned s).
Definition set_durable d s :=
  Build_St _ (compiler s) d (volatile_of s) (effects s) (reset s) (request_of s)
    (allocated s) (abandoned s).
Definition set_volatile v s :=
  Build_St _ (compiler s) (durable_of s) v (effects s) (reset s) (request_of s)
    (allocated s) (abandoned s).
Definition set_effects e s :=
  Build_St _ (compiler s) (durable_of s) (volatile_of s) e (reset s) (request_of s)
    (allocated s) (abandoned s).
Definition set_reset b s :=
  Build_St _ (compiler s) (durable_of s) (volatile_of s) (effects s) b (request_of s)
    (allocated s) (abandoned s).
Definition set_request r s :=
  Build_St _ (compiler s) (durable_of s) (volatile_of s) (effects s) (reset s) r
    (allocated s) (abandoned s).
Definition set_allocated l s :=
  Build_St _ (compiler s) (durable_of s) (volatile_of s) (effects s) (reset s) (request_of s)
    l (abandoned s).
Definition set_abandoned b s :=
  Build_St _ (compiler s) (durable_of s) (volatile_of s) (effects s) (reset s) (request_of s)
    (allocated s) b.

(** [self.effects.push(effect)]. *)
Definition push (e : effect) : M unit := modify (fun s => set_effects (effects s ++ [e]) s).

(** [if let Some(volatile) = &mut self.volatile { ... }]. *)
Definition with_volatile (f : Volatile -> Volatile) : M unit :=
  modify (fun s => set_volatile (f <$> volatile_of s) s).
End monad.

(** The state of [if let] chains read from the volatile part. *)
Section plumbing.
Context `{Target} `{Serde} `{StateSerde} `{Sha2} `{Compiler} `{Env}.

#[local] Abbreviation now := (now_ms host).
#[local] Abbreviation owner := this_owner.

(* [transaction/machine/step.rs:198-201] Step::on_owner *)
Definition on_owner : bool := negb (String.eqb owner "").

(* [transaction/machine/step.rs:278-283] Step::record *)
Definition record_of (s : St) : option TxRecord :=
  match durable_of s with Some (Durable.Live r) => Some r | _ => None end.

(* [transaction/machine/step.rs:312-316] Step::seed_id *)
Definition seed_id : Z := Z.max (Z.land (entropy_u64 host 0) (Z.ones 48)) 1.

(** The volatile part [volatile_mut] creates. *)
(* [transaction/machine/step.rs:293-309]! Step::volatile_mut *)
Definition fresh_volatile : Volatile :=
  {| v := TX_STATE_VERSION;
     vol_owner := if String.eqb owner "" then None else Some owner;
     next_effect_id := seed_id; connection := Connection.None; handles := []; pending := None;
     work := None; rollback_requested := false; callback := None; capability := None;
     deferred := None; revoked_validator := None; atomic := None |}.

(* [transaction/machine/step.rs:292-310] Step::volatile_mut *)
Definition volatile_mut (f : Volatile -> Volatile) : M unit :=
  modify (fun s => set_volatile (Some (f (default fresh_volatile (volatile_of s)))) s).

(* [transaction/machine/step.rs:318-322] Step::connection *)
Definition connection_of (s : St) : Connection.connection :=
  match volatile_of s with Some vol => connection vol | None => Connection.None end.

(* [transaction/machine/step.rs:324-326] Step::set_connection *)
Definition set_connection (c : Connection.connection) : M unit :=
  volatile_mut (set_v_connection c).

(* [transaction/machine/step.rs:328-332] Step::work *)
Definition work_of (s : St) : option Work := vol ← volatile_of s; work vol.

Definition task_of (s : St) : option task := work_task <$> work_of s.

(* [transaction/machine/step.rs:334-338] Step::rollback_requested *)
Definition rollback_requested_of (s : St) : bool :=
  opt_existsb rollback_requested (volatile_of s).

Definition callback_executing_of (s : St) : bool :=
  opt_existsb callback_executing (volatile_of s).

(* [transaction/machine/step.rs:340-365] Step::wait *)
Definition wait (lane : WorkLane.work_lane) (request_id : option string) (t : task)
    (eff : Z -> effect) : M unit :=
  volatile_mut (fun vol => vol);;
  id ← gets (fun s => default 0 (next_effect_id <$> volatile_of s));
  if (MAX_SAFE_INTEGER <=? id)%Z then fault "effect_ids"
  else
    with_volatile (fun vol =>
      set_v_work (Some {| work_lane := lane; work_request_id := request_id; work_task := t |})
        (set_v_pending (Some {| pend_id := id; pend_effect := awaited_by t |})
           (set_v_next_id (id + 1) vol)));;
    push (eff id).

(* [transaction/machine/step.rs:367-372] Step::respond *)
Definition respond (reply : string) : M unit := push (Effect.Respond "client" reply).

(* [transaction/machine/step.rs:374-380] Step::respond_callback *)
Definition respond_callback (reply : string) : M unit := push (Effect.Respond "callback" reply).

(* [transaction/machine/step.rs:382-386] Step::log *)
Definition log (record : value) : M unit := push (Effect.Log (to_raw (doc_of_value record))).

Definition jstr (s : string) : value := Value.String s.
Definition jopt (o : option string) : value := Value.of_option Value.String o.

(* [transaction/machine/step.rs:2419-2425] FailureDetail *)
Record FailureDetail := {
  fd_statement : option Z;
  fd_database_code : option string;
  fd_cause : option string;
  fd_versions : option Versions
}.

(* [transaction/machine/step.rs:399-403]! Step::execute_failed_reply *)
Definition safe_database_code (database_code : string) : bool :=
  (len database_code <=? 64)%Z
  && negb (String.eqb database_code "")
  && str_forallb (fun c => is_upper c || is_digit c || (byte_of c =? 95)%Z) database_code.

(* [transaction/machine/step.rs:388-434] Step::execute_failed_reply *)
Definition execute_failed_reply (c : code) (class : Class.class) (detail : FailureDetail)
    : M string :=
  request ← gets request_of;
  (if bool_decide (class ∈ [Class.Unavailable; Class.Unknown]) then
     match fd_database_code detail with
     | Some database_code =>
         log (Value.object
           [("event", jstr "database_error_unclassified"); ("requestId", jopt request);
            ("code", jstr (if safe_database_code database_code then database_code
                           else "UNKNOWN"))])
     | None => mret tt
     end
   else mret tt);;
  if bool_decide (c = Code.SqlTooComplex) then
    let index :=
      match fd_statement detail with
      | Some index => if (index <? max_statements limits)%Z then index else 0
      | None => 0
      end in
    let cause :=
      match fd_cause detail with
      | Some cause => if str_in cause COMPLEXITY_CAUSES then cause else "database"
      | None => "database"
      end in
    log (Value.object
      [("event", jstr "sql_too_complex"); ("requestId", jopt request);
       ("statementIndex", Value.u64 index);
       ("schemaVersion", jopt (schema <$> fd_versions detail));
       ("policyVersion", jopt (policy <$> fd_versions detail));
       ("cause", jstr cause)]);;
    mret (error_reply_at c index)
  else mret (error_reply c).

(* [transaction/machine/step.rs:436-447] Step::statement_budget *)
Definition statement_budget (h : Z) : M ResultBudget :=
  cs ← gets compiler;
  match raw_result_bound_of cs h with
  | inl raw_bytes =>
      mret {| budget_raw_bytes := raw_bytes; budget_values := max_json_values limits;
              budget_result_bytes := U64_MAX |}
  | inr _ => fault "plan"
  end.

(* [transaction/machine/step.rs:449-457] Step::log_core_error *)
Definition log_core_error (e : CoreError) : M unit :=
  match err_log e with
  | Some (Value.Object fields) =>
      request ← gets request_of;
      log (Value.Object (Value.insert "requestId" (jopt request) fields))
  | _ => mret tt
  end.

(* [transaction/machine/step.rs:459-469] Step::snapshot_skew *)
Definition snapshot_skew (input : string) : M unit :=
  request ← gets request_of;
  log (Value.object [("event", jstr "owner_snapshot_skew"); ("input", jstr input);
                     ("requestId", jopt request)]);;
  respond (error_reply Code.Internal).

(** [self.compiler.release(handle)]. *)
Definition release_in_compiler (h : Z) : M unit :=
  modify (fun s => set_compiler (release_handle (compiler s) h) s).

(* [transaction/machine/step.rs:471-477] Step::release_all *)
Definition release_all : M unit :=
  modify (fun s =>
    match volatile_of s with
    | Some vol =>
        set_volatile (Some (set_v_handles [] vol))
          (set_compiler (foldl release_handle (compiler s) (handles vol)) s)
    | None => s
    end).

(* [transaction/machine/step.rs:479-484] Step::release *)
Definition release (h : Z) : M unit :=
  release_in_compiler h;;
  with_volatile (fun vol => set_v_handles (List.filter (fun l => negb (l =? h)%Z) (handles vol)) vol).

(** [self.compiler.compile(auth, envelope)]. *)
Definition compile_in_compiler (auth envelope : string) : M (Compiled + CoreError) := fun s =>
  let '(cs, r) := compile (compiler s) auth envelope in (inl r, set_compiler cs s).

(* [transaction/machine/step.rs:486-488] Step::request_id *)
Definition host_request_id : string := request_id host.

(** [request_id.unwrap_or_else(|| self.request_id())]. *)
Definition request_or_host (r : option string) : string := default host_request_id r.

(* [transaction/machine/step.rs:711-726] Step::set_phase *)
Definition set_phase (p : phase) : M unit :=
  modify (fun s =>
    if bool_decide (p = Phase.Discarded) then set_durable (Some (Durable.Tombstone owner)) s
    else
      match durable_of s with
      | Some (Durable.Live r) =>
          set_durable (Some (Durable.Live
            {| rec_owner := rec_owner r; rec_kind := rec_kind r; rec_phase := p;
               identity := identity r; binding := binding r; rec_snapshot := rec_snapshot r;
               rec_expires_at_ms := if Phase.has_deadline p then rec_expires_at_ms r else None;
               next_sequence := next_sequence r; last := last r; counters := counters r;
               mutations := mutations r; versions := versions r;
               rec_atomic := rec_atomic r |})) s
      | _ => s
      end).

(* [transaction/machine/step.rs:794-799] Step::clear_work *)
Definition clear_work : M unit := with_volatile (fun vol => set_v_pending None (set_v_work None vol)).

(** A [Task::Reply] with no logs, no deferred expiry and nothing to restore. *)
(* [transaction/machine/step.rs:782-789]! Step::persist_phase *)
Definition plain_reply (reply failure : option string) : task :=
  Task.Reply reply failure [] [] false None.

(* [transaction/machine/step.rs:763-792] Step::persist_phase *)
Definition persist_phase (lane : WorkLane.work_lane) (request_id : option string) (p : phase)
    (reply : option string) : M unit :=
  d ← gets durable_of;
  match d with
  | None =>
      (match reply with Some reply => respond reply | None => mret tt end);;
      clear_work
  | Some _ =>
      set_phase p;;
      wait lane request_id (plain_reply reply ((fun _ => error_reply Code.Internal) <$> reply))
        Effect.Persist
  end.

(* [transaction/machine/step/checks.rs:414-425] Step::revoke *)
Definition revoke : M unit :=
  with_volatile (fun vol =>
    let vol := set_v_capability None vol in
    if work_is is_validator (work vol)
    then set_v_revoked (pend_id <$> pending vol) vol else vol).

(* [transaction/machine/step.rs:728-761] Step::close *)
Definition close (lane : WorkLane.work_lane) (p : phase) (reply : option string) : M unit :=
  busy ← gets callback_executing_of;
  if (busy : bool) then fault "connection_busy"
  else
    revoke;;
    release_all;;
    with_volatile (set_v_atomic None);;
    request ← gets request_of;
    let request_id :=
      match lane with
      | WorkLane.Client => Some (request_or_host request)
      | WorkLane.Background => None
      end in
    c ← gets connection_of;
    if bool_decide (c = Connection.Open) then
      set_connection Connection.Closing;;
      wait lane request_id (Task.CloseRollback p reply) Effect.Rollback
    else
      set_connection Connection.None;;
      persist_phase lane request_id p reply.

(* [transaction/machine/step.rs:1806-1827] Step::persist_reply *)
Definition persist_reply (request_id : option string) (reply failure : string) : M unit :=
  wait WorkLane.Client request_id (plain_reply (Some reply) (Some failure)) Effect.Persist.

(* [transaction/machine/step.rs:1338-1345] Step::log_unavailable *)
Definition log_unavailable (reason : string) : M unit :=
  log (Value.object [("event", jstr "transaction_owner_unavailable");
                     ("transactionId", jstr owner); ("reason", jstr reason)]).

(* [transaction/machine/step.rs:1333-1336] Step::expire_client *)
Definition expire_client (lane : WorkLane.work_lane) : M unit :=
  log_unavailable "expired";;
  close lane Phase.Expired (Some (error_reply Code.Unavailable)).

(** The expiry test of every handler: a record with no expiry counts as expired. *)
(* [transaction/machine/step.rs:1318-1318]! Step::recheck *)
Definition past_deadline (r : TxRecord) : bool :=
  match rec_expires_at_ms r with Some at_ms => (at_ms <=? now)%Z | None => true end.

(* [transaction/machine/step.rs:1314-1331] Step::recheck *)
Definition recheck (lane : WorkLane.work_lane) : M (option (unit + Fault)) :=
  s ← get;
  r ← or_fault "recheck_record" (record_of s);
  if past_deadline r || rollback_requested_of s then
    r ← attempt (expire_client lane); mret (Some r)
  else if negb (String.eqb (rec_snapshot r) (snapshot_of (compiler s))) then
    r ← attempt (close lane Phase.Failed (Some (error_reply Code.Unavailable))); mret (Some r)
  else mret None.

(* [transaction/machine/step.rs:1357-1371] Step::complete *)
Definition complete (p : phase) (dig response : string) : M unit :=
  s ← get;
  r ← or_fault "no_record" (record_of s);
  next ← or_fault "sequence"
    (n ← checked_add64 (next_sequence r) 1; if (n <=? MAX_SAFE_INTEGER)%Z then Some n else None);
  modify (set_durable (Some (Durable.Live
    {| rec_owner := rec_owner r; rec_kind := rec_kind r; rec_phase := rec_phase r;
       identity := identity r; binding := binding r; rec_snapshot := rec_snapshot r;
       rec_expires_at_ms := rec_expires_at_ms r; next_sequence := next;
       last := Some {| digest := dig; State.response := raw response |};
       counters := counters r; mutations := mutations r; versions := versions r;
       rec_atomic := rec_atomic r |})));;
  set_phase p.

(* [transaction/machine/step.rs:1615-1630] Step::busy *)
Definition busy (s : St) : option code :=
  if opt_existsb (fun vol => bool_decide (is_Some (deferred vol))) (volatile_of s)
  then Some Code.Internal
  else (fun w => match work_lane w with
                 | WorkLane.Client => Code.Internal
                 | WorkLane.Background => Code.Unavailable
                 end) <$> work_of s.
End plumbing.

(** ** Pure helpers of the step machine

    [machine/step.rs], the helpers section: reading inputs exactly, sequence
    numbers, driver calls, usage arithmetic, and the public reply documents. *)

(* [transaction/machine/step.rs:2230-2240] exact_object *)
Definition exact_object (v : value) (required optional : list string)
    : option (list (string * value)) :=
  object ← Value.as_object v;
  if forallb (fun '(key, _) => str_in key required || str_in key optional) object
     && forallb (fun key => bool_decide (is_Some (assoc key object))) required
  then Some object else None.

(** [fields.get(key).and_then(Value::as_str)]. *)
Definition field_str (key : string) (fields : list (string * value)) : option string :=
  v ← assoc key fields; Value.as_str v.

(* [transaction/machine/step.rs:2242-2245] parse_binding *)
Definition parse_binding `{StateSerde} (v : value) : option Binding :=
  binding ← binding_of_value v;
  if binding_valid binding then Some binding else None.

(* [transaction/machine/step.rs:2278-2283]! driver_call *)
Fixpoint merge_args (args server : list (string * value)) : option (list (string * value)) :=
  match server with
  | [] => Some args
  | (name, v) :: server' =>
      match assoc name args with
      | Some _ => None
      | None => merge_args (Value.insert name v args) server'
      end
  end.

(* [transaction/machine/step.rs:2275-2288] driver_call *)
Definition driver_call `{Compiler} (sql : string) (statement : DriverStatement) : M DriverCall :=
  match merge_args (client_parameters statement) (server_parameters statement) with
  | Some args => mret {| call_sql := sql; call_args := args |}
  | None => fault "parameter_namespace"
  end.

(** [for statement in &statements { calls.push(driver_call(&statement.sql, statement)?) }]. *)
Fixpoint driver_calls `{Compiler} (l : list DriverStatement) : M (list DriverCall) :=
  match l with
  | [] => mret []
  | statement :: l' =>
      call ← driver_call (sql statement) statement;
      calls ← driver_calls l';
      mret (call :: calls)
  end.

(* [transaction/machine/step.rs:2292-2304]! codec_failure *)
Fixpoint codec_failure_cells (cells : list value) (c : option code) : option code :=
  match cells with
  | [] => c
  | cell :: cells' =>
      match Value.as_object cell with
      | None => codec_failure_cells cells' c
      | Some object =>
          match field_str "type" object with
          | Some kind =>
              if String.eqb kind "blob" then codec_failure_cells cells' c
              else if String.eqb kind "invalid" && opt_existsb Value.is_true (assoc "limit" object)
              then Some Code.LimitExceeded
              else codec_failure_cells cells' (Some Code.SchemaMismatch)
          | None => codec_failure_cells cells' (Some Code.SchemaMismatch)
          end
      end
  end.

(* [transaction/machine/step.rs:2290-2305] codec_failure *)
Definition codec_failure (result : DriverResult) : option code :=
  codec_failure_cells (concat (dr_rows result)) None.

(* [transaction/machine/step.rs:2307-2309] round_ms *)
Definition round_ms (x : f64) : f64 :=
  F64.div (F64.round (F64.mul x (F64.of_Z 1000))) (F64.of_Z 1000).

(** [json!] of a double: [Null] when it is not finite. *)
Definition value_of_f64 (x : f64) : value :=
  if F64.is_finite x then Value.Number (Number.Float x) else Value.Null.

(* [transaction/machine/step.rs:2311-2317] usage_json *)
Definition usage_json (u : Usage) : value :=
  Value.object [("rowsRead", Value.u64 (rows_read u)); ("rowsWritten", Value.u64 (rows_written u));
                ("queryDurationMs", value_of_f64 (query_duration_ms u))].

Section helpers.
Context `{Target} `{Serde} `{StateSerde} `{Sha2}.

(* [transaction/machine/step.rs:2247-2250] to_json *)
Definition to_json (v : value) : option json := parse (to_string (doc_of_value v)).

(* [transaction/machine/step.rs:2252-2267] sequence_value *)
Definition sequence_value (text : string) : option Z :=
  match parse text with
  | Some (Json.Number n) =>
      value ← match Number.as_u64 n with
              | Some u => Some u
              | None =>
                  let x := Number.as_f64 n in
                  if F64.is_integer x && F64.leb (F64.of_Z 1) x
                     && F64.leb x (F64.of_Z 9007199254740991)
                  then Some (F64.to_u64 x) else None
              end;
      if in_range 1 MAX_SAFE_INTEGER value then Some value else None
  | _ => None
  end.

(* [transaction/machine/step.rs:2209-2228] readable_handles *)
Definition readable_handles (text : string) (owner : option string) (bound : Z) : list Z :=
  if (len text >? bound)%Z then []
  else
    match from_str_value text with
    | None => []
    | Some v =>
        if negb (bool_decide (Value.get_str "owner" v = owner)) then []
        else
          match (h ← Value.get "handles" v; Value.as_array h) with
          | Some hs => take 64 (omap Value.as_u64 hs)
          | None => []
          end
    end.

(* [transaction/machine/step.rs:152-163] Command *)
Record Command := {
  cmd_kind : string;
  cmd_auth : json;
  cmd_binding : option Binding;
  cmd_binding_json : json;
  cmd_snapshot : string;
  cmd_text : string;
  cmd_members : list (string * string);
  cmd_sequence : option Z
}.

(* [transaction/machine/step.rs:1829-1890] Step::parse_command *)
Definition parse_command (kind : string) (input : value) : option Command :=
  fields ← exact_object input
    ["kind"; "transactionId"; "auth"; "command"; "databaseBinding"; "snapshot"] [];
  text ← field_str "command" fields;
  snapshot ← field_str "snapshot" fields;
  _ ← field_str "transactionId" fields;
  auth_value ← assoc "auth" fields;
  auth ← if Value.is_object auth_value then to_json auth_value else None;
  binding_value ← assoc "databaseBinding" fields;
  members ← from_str_members text;
  let is_statement := String.eqb kind "statement" in
  let allowed := if is_statement then ["sequence"; "sql"; "params"; "expect"] else ["sequence"] in
  let required := if is_statement then ["sequence"; "sql"; "params"] else ["sequence"] in
  if negb (forallb (fun '(key, _) => str_in key allowed) members
           && forallb (fun key => bool_decide (is_Some (assoc key members))) required)
  then None
  else if is_statement
          && negb (opt_existsb (starts_with dquote) (assoc "sql" members)
                   && opt_existsb (starts_with "{") (assoc "params" members))
  then None
  else Some {|
    cmd_kind := kind; cmd_auth := auth; cmd_binding := parse_binding binding_value;
    cmd_binding_json := default Json.Null (to_json binding_value); cmd_snapshot := snapshot;
    cmd_text := text; cmd_members := members;
    cmd_sequence := (raw ← assoc "sequence" members; sequence_value raw) |}.

(* [transaction/machine/step.rs:2269-2273] digest_of *)
Definition digest_of (command : Command) : option string :=
  parsed ← parse (cmd_text command); Some (command_digest (cmd_kind command) parsed).

(** The one-statement envelope of a command's raw members. *)
(* [transaction/machine/step.rs:165-176]! EnvelopeStatement, Envelope *)
Definition envelope_doc (sql params : string) (expect : option string) : Doc :=
  DMap [("statements", DSeq [DMap ([("sql", DRaw sql); ("params", DRaw params)]
                                   ++ opt_member "expect" DRaw expect)])].

(* [transaction/machine/step.rs:2362-2375] public_state *)
Definition public_state (r : TxRecord) (request_id : string) : string :=
  let active := bool_decide (rec_phase r = Phase.Active) in
  to_raw (DMap
    ([("transactionId", DStr (rec_owner r)); ("status", DStr (Phase.phase_as_str (rec_phase r)))]
     ++ opt_member "nextSequence" DU64 (if active then Some (next_sequence r) else None)
     ++ opt_member "expiresAt" DStr
          (if active then iso_from_ms <$> rec_expires_at_ms r else None)
     ++ [("meta", DMap [("requestId", DStr request_id)])])).

(* [transaction/machine/step.rs:2377-2396] terminal_response *)
Definition terminal_response (transaction_id status request_id : string) (checks_passed : bool)
    : string :=
  to_raw (DMap
    [("transactionId", DStr transaction_id); ("status", DStr status);
     ("meta", DMap [("requestId", DStr request_id);
                    ("commitChecks", DStr (if checks_passed then "passed" else "not_triggered"))])]).

(* [transaction/machine/step.rs:2398-2411] statement_response *)
Definition statement_response (transaction_id : string) (sequence : Z) (result request_id : string)
    : string :=
  to_raw (DMap
    [("transactionId", DStr transaction_id); ("status", DStr "active");
     ("nextSequence", DU64 (sequence + 1)); ("result", DRaw result);
     ("meta", DMap [("requestId", DStr request_id)])]).

(** One result row as an object in column order ([Row]). *)
(* [transaction/machine/step.rs:2427-2439]! Row *)
Definition row_doc (columns : list string) (values : list value) : Doc :=
  DMap (zip_with (fun column v => (column, doc_of_value v)) columns values).

(* [transaction/machine/step.rs:2490-2502]! redactions_of *)
Fixpoint redactions_row (columns : list string) (row : nat) (index : nat) (flags : list bool)
    : option (list Doc) :=
  match flags with
  | [] => Some []
  | true :: flags' =>
      column ← columns !! index;
      rest ← redactions_row columns row (S index) flags';
      Some (DMap [("row", DU64 (Z.of_nat row)); ("column", DStr column);
                  ("code", DStr "POLICY_REDACTED")] :: rest)
  | false :: flags' => redactions_row columns row (S index) flags'
  end.

(* [transaction/machine/step.rs:2488-2504]! redactions_of *)
Fixpoint redactions_rows (columns : list string) (row : nat) (rows : list (list bool))
    : option (list Doc) :=
  match rows with
  | [] => Some []
  | flags :: rows' =>
      here ← redactions_row columns row 0 flags;
      rest ← redactions_rows columns (S row) rows';
      Some (here ++ rest)
  end.

(* [transaction/machine/step.rs:2486-2505] redactions_of *)
Definition redactions_of (validated : Validated) : option (list Doc) :=
  redactions_rows (val_columns validated) 0 (val_redactions validated).

(* [transaction/machine/step.rs:2457-2462]! ResultShape *)
Definition result_shape (validated : Validated) (redactions : list Doc) : Doc :=
  DMap [("columns", DSeq (map DRaw (val_result_columns validated)));
        ("redactions", DSeq redactions)].

(* [transaction/machine/step.rs:2526-2566]! shape_statement *)
Definition shape_statement (sequence : option Z) (op : operation) (validated : Validated)
    : string + Fault :=
  match redactions_of validated with
  | None => inr "redaction_column"
  | Some redactions =>
  let mutation := negb (bool_decide (op = Operation.Select)) in
  match raw_from_string (to_string (DMap
    (opt_member "sequence" DU64 sequence
     ++ [("columns", DSeq (map DStr (val_columns validated)));
         ("rows", DSeq (map (row_doc (val_columns validated)) (val_rows validated)));
         ("rowCount", DU64 (Z.of_nat (length (val_rows validated))))]
     ++ opt_member "affectedRows" DU64
          (if mutation then Some (val_affected_rows validated) else None)
     ++ [("meta", DMap
           ([("operation", DStr (Operation.operation_as_str op))]
            ++ opt_member "mutation" (fun d => d)
                 (if mutation then Some (DMap
                    [("affectedRows", DU64 (val_affected_rows validated));
                     ("returning", DBool (negb (bool_decide (val_result_columns validated = []))));
                     ("operationCheck", DStr (if val_operation_check validated then "passed"
                                              else "not_configured"))]) else None)
            ++ [("result", result_shape validated redactions)]))])))
  with
  | Some text => inl text
  | None => inr "result_shape"
  end
  end.
End helpers.
