(* ===== verification/Checks.v ===== *)
(** * Commit checks and validator callbacks

    [machine/step/checks.rs]: a commit whose mutations trigger checks calls each
    validator in turn with a fresh capability, serves the validator's queries on
    the callback lane, and continues to the second binding check only after the
    last allow. *)

From S2P Require Import Prelude F64 SerdeJson Compiler State Volatile Io Bounds Canonical.
From S2P Require Import Identity Machine.

(* [transaction/machine/step/checks.rs:33-58] allowed_decision *)
Definition allowed_decision (decision : value) : bool :=
  match Value.as_object decision with
  | None => false
  | Some object =>
      forallb (fun '(key, _) => str_in key ["version"; "allowed"; "error"]) object
      && bool_decide (field_str "version" object = Some "1"%string)
      && match assoc "error" object with
         | Some error =>
             match Value.as_object error with
             | Some e => (length e =? 1)%nat && opt_existsb Value.is_string (assoc "code" e)
             | None => false
             end
         | None => true
         end
      && opt_existsb Value.is_true (assoc "allowed" object)
  end.

(** The 64 characters of base64url. *)
(* [transaction/machine/step/checks.rs:62-62]! base64url *)
Definition ALPHABET : string :=
  "ABCDEFGHIJKLMNOPQRSTUVWXYZabcdefghijklmnopqrstuvwxyz0123456789-_".

Definition alphabet_char (sextet : Z) : ascii :=
  default zero (String.get (Z.to_nat sextet) ALPHABET).

(** The 24-bit group of a chunk: byte [index] is shifted left by [16 - 8 * index]. *)
(* [transaction/machine/step/checks.rs:65-67]! base64url *)
Fixpoint triple_of (shift : Z) (chunk : list Z) : Z :=
  match chunk with
  | [] => 0
  | b :: chunk' => Z.lor (Z.shiftl b shift) (triple_of (shift - 8) chunk')
  end.

(** The [chunk.len() + 1] sextets of a group, from the most significant. *)
(* [transaction/machine/step/checks.rs:69-69]! base64url *)
Definition sextet (triple : Z) (index : nat) : Z :=
  Z.land (Z.shiftr triple (18 - 6 * Z.of_nat index)) 63.

(* [transaction/machine/step/checks.rs:65-71]! base64url *)
Definition chunk_chars (chunk : list Z) : string :=
  String.string_of_list_ascii
    (map (fun index => alphabet_char (sextet (triple_of 16 chunk) index))
       (seq 0 (S (length chunk)))).

(* [transaction/machine/step/checks.rs:60-74] base64url *)
Fixpoint base64url (bytes : list Z) : string :=
  match bytes with
  | a :: b :: c :: bytes' => (chunk_chars [a; b; c] ++ base64url bytes')%string
  | [] => EmptyString
  | chunk => chunk_chars chunk
  end.

Example base64url_foob : base64url [102; 111; 111; 98] = "Zm9vYg".
Proof. reflexivity. Qed.
Example base64url_fbff : base64url [251; 255] = "-_8".
Proof. reflexivity. Qed.

(* [transaction/machine/step/checks.rs:76-82] token_syntax *)
Definition token_syntax (token : string) : bool :=
  (len token =? 43)%Z
  && str_forallb (fun c => is_alnum c || (byte_of c =? 45)%Z || (byte_of c =? 95)%Z) token.

(** The accumulated difference of the bytes of two texts, up to the shorter one. *)
(* [transaction/machine/step/checks.rs:87-90]! same_hash *)
Fixpoint hash_difference (difference : Z) (left right : string) : Z :=
  match left, right with
  | String a left', String b right' =>
      hash_difference (Z.lor difference (Z.lxor (byte_of a) (byte_of b))) left' right'
  | _, _ => difference
  end.

(* [transaction/machine/step/checks.rs:84-92] same_hash *)
Definition same_hash (left right : string) : bool :=
  (len left =? len right)%Z && (hash_difference 0 left right =? 0)%Z.

Definition json_text_eqb (text : string) (j : json) : bool :=
  match j with Json.String t => String.eqb t text | _ => false end.

(* [transaction/machine/step/checks.rs:94-121] callback_session *)
Definition callback_session (auth : json) (role : string) : option json :=
  match auth with
  | Json.Object members =>
      roles ← match Json.get "roles" auth with
              | Some (Json.Array roles) => Some roles
              | None => Some []
              | Some _ => None
              end;
      let role_value := Json.String role in
      let roles := if existsb (json_text_eqb role) roles then roles else roles ++ [role_value] in
      Some (Json.Object
        (List.filter (fun '(key, _) => negb (str_in key ["role"; "roles"; "access"])) members
         ++ [("role", role_value); ("roles", Json.Array roles);
             ("access", Json.Array [Json.String "execute"])]))
  | _ => None
  end.

(* [transaction/machine/step/checks.rs:146-167]! CallbackMeta, CallbackResponse *)
Definition callback_response_doc (sequence : Z) (validated : Validated) (redactions : list Doc)
    (request_id : string) (vs : Versions) (role : string) : Doc :=
  DMap
    [("sequence", DU64 sequence);
     ("columns", DSeq (map DStr (val_columns validated)));
     ("rows", DSeq (map (row_doc (val_columns validated)) (val_rows validated)));
     ("rowCount", DU64 (Z.of_nat (length (val_rows validated))));
     ("meta", DMap
        [("operation", DStr (Operation.operation_as_str Operation.Select));
         ("result", result_shape validated redactions); ("requestId", DStr request_id);
         ("policyVersion", DStr (policy vs)); ("schemaVersion", DStr (schema vs));
         ("role", DStr role)])].

(** Checks by ascending id; equal neighbours are dropped. *)
Fixpoint insert_check (c : TriggeredCheck) (l : list TriggeredCheck) : list TriggeredCheck :=
  match l with
  | [] => [c]
  | c' :: l' => match String.compare (check_id c) (check_id c') with
                | Gt => c' :: insert_check c l'
                | _ => c :: l
                end
  end.

(* [transaction/machine/step/checks.rs:230-230]! Step::sorted_checks *)
Definition sort_checks (l : list TriggeredCheck) : list TriggeredCheck := foldr insert_check [] l.

(** [dedup_by] on the id: the first of equal neighbours stays. *)
(* [transaction/machine/step/checks.rs:231-231]! Step::sorted_checks *)
Fixpoint dedup_checks (l : list TriggeredCheck) : list TriggeredCheck :=
  match l with
  | [] => []
  | c :: l' =>
      match dedup_checks l' with
      | c' :: l'' => if String.eqb (check_id c) (check_id c') then c :: l'' else c :: c' :: l''
      | [] => [c]
      end
  end.

(** [trim_start_matches("tx_")]: every repetition of the prefix. *)
(* [transaction/machine/step/checks.rs:368-368]! Step::issue *)
Fixpoint trim_tx (fuel : nat) (s : string) : string :=
  match fuel with
  | O => s
  | S fuel' => match strip_prefix "tx_" s with Some s' => trim_tx fuel' s' | None => s end
  end.

Section checks.
Context `{Target} `{Serde} `{StateSerde} `{Sha2} `{Compiler} `{Env}.

#[local] Abbreviation now := (now_ms host).
#[local] Abbreviation owner := this_owner.

(* [transaction/machine/step/checks.rs:169-200] callback_response *)
Definition callback_response (sequence : Z) (validated : Validated) (request_id : string)
    (vs : Versions) (role : string) : string + Fault :=
  match redactions_of validated with
  | None => inr "redaction_column"
  | Some redactions =>
      match raw_from_string
              (to_string (callback_response_doc sequence validated redactions request_id vs role))
      with
      | Some text => inl text
      | None => inr "callback_shape"
      end
  end.

(* [transaction/machine/step/checks.rs:222-233] Step::sorted_checks *)
Definition sorted_checks (s : St) (resources : list string) : list TriggeredCheck :=
  if bool_decide (resources = []) then []
  else dedup_checks (sort_checks (triggered_checks (compiler s) resources)).

(* [transaction/machine/step/checks.rs:212-220] Step::triggered *)
Definition triggered (s : St) (r : TxRecord) : list TriggeredCheck :=
  sorted_checks s (map mut_resource (mutations r)).

(* [transaction/machine/step/checks.rs:235-275] Step::start_checks *)
Definition start_checks (lane : WorkLane.work_lane) (request_id : option string) (sequence : Z)
    (dig auth : string) : M unit :=
  let request := request_or_host request_id in
  s ← get;
  r ← or_fault "checks_record" (record_of s);
  let checks := triggered s r in
  if bool_decide (checks = []) || bool_decide (versions r = None) then fault "checks_trigger"
  else
    match List.find (fun c => negb (str_in (check_id c) (configured_checks host))) checks with
    | Some missing =>
        log (Value.object [("event", jstr "commit_check_unconfigured");
                           ("requestId", jstr request); ("check", jstr (check_id missing))]);;
        close lane Phase.Failed (Some (error_reply Code.CheckRejected))
    | None =>
        set_phase Phase.Validating;;
        wait lane (Some request)
          (Task.ValidatingPersist {| cc_sequence := sequence; cc_digest := dig; cc_auth := auth;
                                     cc_checks := checks; cc_index := 0 |}) Effect.Persist
    end.

(** The versions and the changed statements the hook body lists. *)
(* [transaction/machine/step/checks.rs:315-346]! Step::issue *)
Definition hook_statements (r : TxRecord) (run : option AtomicRun)
    : (Versions * list (Z * operation * string)) + Fault :=
  match rec_kind r, run with
  | Kind.Atomic, Some a =>
      inl (run_versions a,
           map (fun m => (mut_index m, mut_operation m, mut_resource m)) (run_mutations a))
  | Kind.Interactive, _ =>
      match versions r with
      | Some vs =>
          inl (vs, imap (fun index m => (Z.of_nat index, mut_operation m, mut_resource m))
                     (mutations r))
      | None => inr "checks_versions"
      end
  | Kind.Atomic, None => inr "checks_atomic"
  end.

(** The hook body without [query], in its wire order. *)
(* [transaction/machine/step/checks.rs:123-144]! HookStatement, HookPayload *)
Definition hook_payload (validation_id : string) (check : TriggeredCheck) (request : string)
    (vs : Versions) (role session_raw : string) (sts : list (Z * operation * string)) : Doc :=
  DMap
    [("version", DStr "1"); ("validationId", DStr validation_id);
     ("check", DStr (check_id check)); ("requestId", DStr request);
     ("policyVersion", DStr (policy vs)); ("schemaVersion", DStr (schema vs));
     ("role", DStr role); ("session", DRaw session_raw);
     ("statements", DSeq (map (fun '(index, op, resource) =>
        DMap [("index", DU64 index); ("type", DStr (Operation.operation_as_str op));
              ("resource", DStr resource)]) sts))].

(* [transaction/machine/step/checks.rs:294-412] Step::issue *)
Definition issue (lane : WorkLane.work_lane) (request_id : option string) (checks : CommitChecks)
    : M unit :=
  let request := request_or_host request_id in
  check ← or_fault "check_index" (cc_checks checks !! Z.to_nat (cc_index checks));
  s ← get;
  r ← or_fault "checks_record" (record_of s);
  deadline ← or_fault "checks_deadline" (rec_expires_at_ms r);
  hook ← lift (hook_statements r (vol ← volatile_of s; atomic vol));
  let '(vs, sts) := hook in
  let expires_at_ms := Z.min (sat_add64 now (check_timeout_ms check)) deadline in
  if (expires_at_ms <=? now)%Z || negb (bool_decide (connection_of s = Connection.Open))
  then close lane Phase.Failed (Some (error_reply Code.CheckRejected))
  else
    auth ← or_fault "checks_auth" (parse (cc_auth checks));
    role ← match check_role check with
           | Some role => mret role
           | None => or_fault "checks_role" (j ← Json.get "role" auth; Json.as_text j)
           end;
    session ← or_fault "checks_session" (callback_session auth role);
    session_text ← or_fault "checks_session" (to_canonical <$> Json.get "session" auth);
    let session_raw := raw session_text in
    bytes ← or_fault "entropy" (entropy_bytes host);
    let token := base64url bytes in
    let validation_id := ("cval_" ++ trim_tx (String.length owner) owner)%string in
    let payload := to_raw (hook_payload validation_id check request vs role session_raw sts) in
    volatile_mut (set_v_capability (Some
      {| cap_token_hash := sha256_hex token; cap_expires_at_ms := expires_at_ms;
         cap_check := check_id check; cap_session := to_canonical session; cap_role := role;
         cap_next_sequence := 1; cap_last := None; cap_rows := 0; cap_result_bytes := 0 |}));;
    wait lane (Some request) (Task.Validator checks) (fun id =>
      Effect.CallValidator id (check_id check) payload
        {| grant_token := token; grant_expires_at_ms := expires_at_ms |} (expires_at_ms - now)).

(* [transaction/machine/step/checks.rs:277-292] Step::validating_persisted *)
Definition validating_persisted (lane : WorkLane.work_lane) (request_id : option string)
    (checks : CommitChecks) : M unit :=
  s ← get;
  let expired := opt_forallb (fun at_ms => at_ms <=? now)%Z
                   (r ← record_of s; rec_expires_at_ms r) in
  if expired || rollback_requested_of s
  then close lane Phase.Expired (Some (error_reply Code.CheckRejected))
  else issue lane request_id checks.

(* [transaction/machine/step/atomic.rs:1476-1488] Step::atomic_commit_binding *)
Definition atomic_commit_binding (lane : WorkLane.work_lane) (request : string) : M unit :=
  s ← get;
  r ← or_fault "atomic_record" (record_of s);
  wait lane (Some request) Task.AtomicCommitBinding
    (fun id => Effect.CheckBinding id (binding r) (rec_expires_at_ms r)).

(* [transaction/machine/step/checks.rs:479-479]! Step::verdict *)
Definition pass_checks (a : AtomicRun) : AtomicRun :=
  {| placement := placement a; transaction_id := transaction_id a;
     run_request_id := run_request_id a; run_auth := run_auth a; run_role := run_role a;
     run_binding := run_binding a; run_handle := run_handle a;
     run_statements := run_statements a; run_versions := run_versions a;
     idempotency := idempotency a; started_at_ms := started_at_ms a;
     run_expires_at_ms := run_expires_at_ms a; debug := debug a; trace := trace a;
     results := results a; run_usage := run_usage a; run_mutations := run_mutations a;
     checks_passed := true |}.

(* [transaction/machine/step/checks.rs:454-501] Step::verdict *)
Definition verdict (lane : WorkLane.work_lane) (request_id : option string)
    (checks : CommitChecks) (allowed : bool) : M unit :=
  modify (set_request request_id);;
  if negb allowed then close lane Phase.Failed (Some (error_reply Code.CheckRejected))
  else if (cc_index checks + 1 <? Z.of_nat (length (cc_checks checks)))%Z then
    issue lane request_id
      {| cc_sequence := cc_sequence checks; cc_digest := cc_digest checks;
         cc_auth := cc_auth checks; cc_checks := cc_checks checks;
         cc_index := cc_index checks + 1 |}
  else
    s ← get;
    match (vol ← volatile_of s; atomic vol) with
    | Some a =>
        with_volatile (set_v_atomic (Some (pass_checks a)));;
        atomic_commit_binding lane (request_or_host request_id)
    | None =>
        r ← or_fault "checks_record" (record_of s);
        wait lane request_id
          (Task.CommitBinding (cc_sequence checks) (cc_digest checks) None true)
          (fun id => Effect.CheckBinding id (binding r) (rec_expires_at_ms r))
    end.

(* [transaction/machine/step/checks.rs:427-452] Step::verdict_arrived *)
Definition verdict_arrived (lane : WorkLane.work_lane) (request_id : option string)
    (checks : CommitChecks) (allowed : bool) : M unit :=
  with_volatile (set_v_capability None);;
  executing ← gets callback_executing_of;
  if (executing : bool) then
    volatile_mut (set_v_deferred (Some
      {| work_lane := lane; work_request_id := request_id;
         work_task := Task.Verdict checks allowed |}))
  else verdict lane request_id checks allowed.

(* [transaction/machine/step/checks.rs:503-527] Step::expire_validating *)
Definition expire_validating : M unit :=
  volatile_mut (set_v_capability None);;
  s ← get;
  waiting ←
    match work_of s with
    | Some w =>
        with_volatile (fun vol =>
          set_v_pending None (set_v_revoked (pend_id <$> pending vol) (set_v_work None vol)));;
        mret w
    | None =>
        match (vol ← volatile_of s; deferred vol) with
        | Some w => with_volatile (set_v_deferred None);; mret w
        | None => fault "expire_validating"
        end
    end;
  modify (set_request (work_request_id waiting));;
  respond (error_reply Code.CheckRejected);;
  set_phase Phase.Expired;;
  executing ← gets callback_executing_of;
  if (executing : bool) then volatile_mut (set_v_rollback true)
  else close WorkLane.Background Phase.Expired None.

(* [transaction/machine/step/checks.rs:529-544] Step::capability_live *)
Definition capability_live (s : St) (token_hash : option string) : option Capability :=
  vol ← volatile_of s;
  cap ← capability vol;
  let validating :=
    opt_existsb (fun r =>
      bool_decide (rec_phase r = Phase.Validating)
      || (bool_decide (rec_kind r = Kind.Atomic) && bool_decide (rec_phase r = Phase.Active)))
      (record_of s)
    && bool_decide (connection vol = Connection.Open)
    && work_is is_validator (work vol) in
  if validating && opt_forallb (fun hash => String.eqb hash (cap_token_hash cap)) token_hash
  then Some cap else None.

(* [transaction/machine/step/checks.rs:963-978] parse_callback *)
Definition parse_callback (text : string) : option (list (string * string) * Z) :=
  members ← from_str_members text;
  let exact := (length members =? 3)%nat
               && opt_existsb (starts_with dquote) (assoc "sql" members)
               && opt_existsb (starts_with "{") (assoc "params" members) in
  sequence ← (raw ← assoc "sequence" members; sequence_value raw);
  if exact then Some (members, sequence) else None.

(* [transaction/machine/step/checks.rs:980-984] callback_digest *)
Definition callback_text_digest (text : string) : option string :=
  parsed ← parse text; Some (callback_digest parsed).

(* [transaction/machine/step/checks.rs:672-697] Step::wait_callback *)
Definition wait_callback (request_id token_hash : string) (t : CallbackTask.callback_task)
    (eff : Z -> effect) : M unit :=
  volatile_mut (fun vol => vol);;
  id ← gets (fun s => default 0 (next_effect_id <$> volatile_of s));
  if (MAX_SAFE_INTEGER <=? id)%Z then fault "effect_ids"
  else
    with_volatile (fun vol =>
      set_v_callback (Some
        {| cb_pending := {| pend_id := id; pend_effect := CallbackTask.awaits t |};
           cb_request_id := request_id; cb_token_hash := token_hash; cb_task := t |})
        (set_v_next_id (id + 1) vol));;
    push (eff id).

(* [transaction/machine/step/checks.rs:699-725] Step::fail_validation *)
Definition fail_validation (reply : string) : M unit :=
  respond_callback reply;;
  volatile_mut (fun vol => vol);;
  cb ← gets (fun s => vol ← volatile_of s; callback vol);
  with_volatile (set_v_callback None);;
  (match cb with
   | Some cb => release (CallbackTask.task_handle (cb_task cb))
   | None => mret tt
   end);;
  volatile_mut (fun vol =>
    set_v_pending None (set_v_revoked (pend_id <$> pending vol) (set_v_capability None vol)));;
  w ← gets work_of;
  waiting ← or_fault "callback_without_commit" w;
  with_volatile (set_v_work None);;
  if negb (is_validator (work_task waiting)) then fault "callback_without_commit"
  else
    modify (set_request (work_request_id waiting));;
    close WorkLane.Client Phase.Failed (Some (error_reply Code.CheckRejected)).

(* [transaction/machine/step.rs:2163-2184] Step::compile_members *)
Definition compile_members (auth : string) (members : list (string * string))
    : M (Compiled + CoreError) :=
  match assoc "sql" members, assoc "params" members with
  | Some sql, Some params =>
      compile_in_compiler auth (to_string (envelope_doc sql params (assoc "expect" members)))
  | _, _ =>
      mret (inr (core_error_new "POLICYSQL_INTERNAL" "The request could not be completed."))
  end.

(* [transaction/machine/step.rs:2193-2204] Step::may_repeat_members *)
Definition may_repeat_members (auth : string) (members : list (string * string)) : M bool :=
  r ← compile_members auth members;
  match r with
  | inl compiled => release_in_compiler (handle compiled);; mret true
  | inr e => mret (str_in (err_code e) ["POLICYSQL_DATABASE_UNAVAILABLE"; "POLICYSQL_INTERNAL"])
  end.

(** [self.allocated.push(handle); self.volatile_mut().handles.push(handle)]. *)
(* [transaction/machine/step/checks.rs:641-642]! Step::callback_query *)
Definition keep_handle (h : Z) : M unit :=
  modify (fun s => set_allocated (allocated s ++ [h]) s);;
  volatile_mut (fun vol => set_v_handles (handles vol ++ [h]) vol).
End checks.

(** ** The callback lane

    [machine/step/checks.rs], second half: a validator's query against the open
    transaction, its outcome, and what happens when the connection is free again. *)

Section callbacks.
Context `{Target} `{Serde} `{StateSerde} `{Sha2} `{Compiler} `{Env}.

#[local] Abbreviation now := (now_ms host).
#[local] Abbreviation owner := this_owner.

(** The compile, the plan checks and the binding check of a query whose
    capability and sequence are accepted. *)
(* [transaction/machine/step/checks.rs:633-670]! Step::callback_query *)
Definition callback_compile (request text : string) (cap : Capability)
    (members : list (string * string)) (sequence : Z) (b : Binding) (deadline : option Z)
    : M unit :=
  r ← compile_members (cap_session cap) members;
  match r with
  | inr e => log_core_error e;; fail_validation (core_error_reply e)
  | inl compiled =>
      let h := handle compiled in
      keep_handle h;;
      if negb (read_only compiled) || negb (length (statements compiled) =? 1)%nat then
        release h;; fail_validation (error_reply Code.Conflict)
      else
        match callback_text_digest text with
        | None => release h;; fail_validation (error_reply Code.Internal)
        | Some dig =>
            wait_callback request (cap_token_hash cap)
              (CallbackTask.Binding sequence dig h
                 {| schema := schema_version compiled; policy := policy_version compiled |})
              (fun id => Effect.CheckBinding id b deadline)
        end
  end.

(** The query of a caller that presented the live capability. *)
(* [transaction/machine/step/checks.rs:604-632]! Step::callback_query *)
Definition callback_authorized (request text : string) (cap : Capability) : M unit :=
  match parse_callback text with
  | None => fail_validation (error_reply Code.Unavailable)
  | Some (members, sequence) =>
      s ← get;
      r ← or_fault "callback_record" (record_of s);
      if past_deadline r || negb (String.eqb (rec_snapshot r) (snapshot_of (compiler s)))
      then fail_validation (error_reply Code.Unavailable)
      else
        let deadline := (fun at_ms => Z.min at_ms (cap_expires_at_ms cap))
                          <$> rec_expires_at_ms r in
        replayed ←
          match cap_last cap with
          | Some l =>
              if (sequence + 1 =? cap_next_sequence cap)%Z then
                repeat ← may_repeat_members (cap_session cap) members;
                if (repeat : bool) then
                  match callback_text_digest text with
                  | None => fail_validation (error_reply Code.Internal);; mret true
                  | Some dig =>
                      if same_hash dig (digest l)
                      then respond_callback (value_reply (response l));; mret true
                      else mret false
                  end
                else mret false
              else mret false
          | None => mret false
          end;
        if (replayed : bool) then mret tt
        else if negb (sequence =? cap_next_sequence cap)%Z
                || (max_transaction_statements limits <? sequence)%Z
        then fail_validation (error_reply Code.Conflict)
        else callback_compile request text cap members sequence (binding r) deadline
  end.

(* [transaction/machine/step/checks.rs:546-670] Step::callback_query *)
Definition callback_query (input : value) : M unit :=
  let request := host_request_id in
  match exact_object input ["kind"; "validationId"; "capability"; "command"] [] with
  | None => respond_callback (error_reply Code.Invalid)
  | Some fields =>
      match field_str "validationId" fields, field_str "capability" fields,
            field_str "command" fields with
      | Some validation, Some token, Some text =>
          let routed :=
            opt_existsb (fun hex => bool_decide (strip_prefix "tx_" owner = Some hex))
              (strip_prefix "cval_" validation) in
          if negb routed then respond_callback (error_reply Code.Unavailable)
          else
            s ← get;
            if opt_existsb (fun vol => bool_decide (is_Some (callback vol))) (volatile_of s)
            then respond_callback (error_reply Code.Internal)
            else
              match capability_live s None with
              | None => respond_callback (error_reply Code.Unavailable)
              | Some cap =>
                  let presented :=
                    token_syntax token && same_hash (sha256_hex token) (cap_token_hash cap) in
                  if negb presented || (cap_expires_at_ms cap <=? now)%Z
                  then fail_validation (error_reply Code.Unavailable)
                  else callback_authorized request text cap
              end
      | _, _, _ => respond_callback (error_reply Code.Invalid)
      end
  end.

(* [transaction/machine/step/checks.rs:932-960] Step::after_callback *)
Definition after_callback : M unit :=
  d ← gets (fun s => vol ← volatile_of s; deferred vol);
  with_volatile (set_v_deferred None);;
  match d with
  | Some w =>
      match work_task w with
      | Task.Verdict checks allowed =>
          verdict (work_lane w) (work_request_id w) checks allowed
      | _ => fault "deferred_task"
      end
  | None =>
      s ← get;
      let idle := bool_decide (work_of s = None)
                  && bool_decide (connection_of s = Connection.Open) in
      let ended := opt_existsb (fun d => Phase.is_terminal (durable_phase d)) (durable_of s) in
      if rollback_requested_of s && idle && ended then
        let p := match durable_of s with Some d => durable_phase d | None => Phase.Failed end in
        close WorkLane.Background p None
      else mret tt
  end.

(* [transaction/machine/step/checks.rs:922-930] Step::callback_failed *)
Definition callback_failed (live : bool) (reply : string) : M unit :=
  if live then fail_validation reply
  else respond_callback (error_reply Code.Unavailable);; after_callback.

(** The live capability after an answered query. *)
(* [transaction/machine/step/checks.rs:905-917]! Step::callback_executed *)
Definition update_capability (sequence : Z) (dig response : string) (rows result_bytes : Z)
    (cap : Capability) : Capability :=
  {| cap_token_hash := cap_token_hash cap; cap_expires_at_ms := cap_expires_at_ms cap;
     cap_check := cap_check cap; cap_session := cap_session cap; cap_role := cap_role cap;
     cap_next_sequence := sequence + 1;
     cap_last := Some {| digest := dig; State.response := raw response |};
     cap_rows := rows; cap_result_bytes := result_bytes |}.

(* [transaction/machine/step/checks.rs:853-920] Step::callback_executed *)
Definition callback_executed (live : option Capability) (request : string) (sequence : Z)
    (dig : string) (h : Z) (vs : Versions) (rs : list DriverResult) : M unit :=
  match live with
  | None => release h;; respond_callback (error_reply Code.Unavailable);; after_callback
  | Some cap =>
      match rs with
      | [result] =>
          match codec_failure result with
          | Some c => release h;; fail_validation (error_reply c)
          | None =>
              let raw_result := {| raw_columns := dr_columns result; raw_rows := dr_rows result;
                                   raw_affected_rows := dr_rows_affected result |} in
              budget ← statement_budget h;
              cs ← gets compiler;
              let validated := validate cs h 0 raw_result budget in
              release h;;
              match validated with
              | inr e => log_core_error e;; fail_validation (core_error_reply e)
              | inl validated =>
                  response ← lift (callback_response sequence validated request vs (cap_role cap));
                  let rows := sat_add64 (cap_rows cap)
                                (Z.of_nat (length (val_rows validated))) in
                  let bytes := sat_add64 (cap_result_bytes cap) (len response) in
                  if (max_callback_rows limits <? rows)%Z
                     || (max_transaction_result_bytes limits <? bytes)%Z
                  then fail_validation (error_reply Code.TransactionLimit)
                  else
                    with_volatile (fun vol =>
                      set_v_capability
                        (update_capability sequence dig response rows bytes <$> capability vol)
                        vol);;
                    respond_callback (value_reply response)
              end
          end
      | _ => release h;; fail_validation (error_reply Code.Internal)
      end
  end.

(** The binding of a callback query was allowed: execute it. *)
(* [transaction/machine/step/checks.rs:746-790]! Step::callback_outcome *)
Definition callback_bound (live : option Capability) (request token_hash : string) (sequence : Z)
    (dig : string) (h : Z) (vs : Versions) : M unit :=
  match live with
  | None => release h;; respond_callback (error_reply Code.Unavailable);; after_callback
  | Some cap =>
      s ← get;
      r ← or_fault "callback_record" (record_of s);
      if past_deadline r || (cap_expires_at_ms cap <=? now)%Z
         || negb (String.eqb (rec_snapshot r) (snapshot_of (compiler s)))
      then release h;; fail_validation (error_reply Code.Unavailable)
      else
        match driver_statements (compiler s) h with
        | inr _ => fault "plan"
        | inl sts =>
            calls ← driver_calls sts;
            match raw_result_bound_of (compiler s) h with
            | inr _ => fault "plan"
            | inl cap_bytes =>
                wait_callback request token_hash (CallbackTask.Execute sequence dig h vs)
                  (fun id => Effect.Execute id calls None cap_bytes)
            end
        end
  end.

(* [transaction/machine/step/checks.rs:727-851] Step::callback_outcome *)
Definition callback_outcome (e : event) : M unit :=
  c ← gets (fun s => vol ← volatile_of s; callback vol);
  cb ← or_fault "no_callback" c;
  with_volatile (set_v_callback None);;
  live ← gets (fun s => capability_live s (Some (cb_token_hash cb)));
  let request := cb_request_id cb in
  let is_live := bool_decide (is_Some live) in
  match cb_task cb, e with
  | CallbackTask.Binding sequence dig h vs, Event.BindingChecked _ true =>
      callback_bound live request (cb_token_hash cb) sequence dig h vs
  | CallbackTask.Binding _ _ h _, Event.BindingChecked _ false =>
      release h;; callback_failed is_live (error_reply Code.BindingRejected)
  | CallbackTask.Binding _ _ h _, Event.BindingCheckFailed _ class =>
      release h;; callback_failed is_live (error_reply (Code.for_class class))
  | CallbackTask.Execute _ _ h vs, Event.ExecuteFailed _ class statement database_code cause =>
      release h;;
      reply ← execute_failed_reply (Code.for_class class) class
                {| fd_statement := statement; fd_database_code := database_code;
                   fd_cause := cause; fd_versions := Some vs |};
      callback_failed is_live reply
  | CallbackTask.Binding _ _ h _, Event.ExecuteFailed _ _ _ _ _
  | CallbackTask.Execute _ _ h _, Event.BindingCheckFailed _ _ =>
      release h;; callback_failed is_live (error_reply Code.Internal)
  | CallbackTask.Execute sequence dig h vs, Event.Executed _ results =>
      callback_executed live request sequence dig h vs results
  | _, _ => fault "unexpected_callback_outcome"
  end.
End callbacks.
