(* ===== verification/Commands.v ===== *)
(** * Client commands

    [machine/step.rs], the client input: [begin], and the commands [statement],
    [commit] and [rollback], from the untrusted input to the first awaited
    effect. *)

From S2P Require Import Prelude F64 SerdeJson Compiler State Volatile Io Canonical Bounds.
From S2P Require Import Identity Machine Checks.

Section commands.
Context `{Target} `{Serde} `{StateSerde} `{Sha2} `{Compiler} `{Env}.

#[local] Abbreviation now := (now_ms host).
#[local] Abbreviation owner := this_owner.

Definition reply_code (c : code) : M unit := respond (error_reply c).

(** [close] of client work with one of the machine's codes. *)
Definition close_client (p : phase) (c : code) : M unit :=
  close WorkLane.Client p (Some (error_reply c)).

Definition check_binding_effect (b : Binding) (deadline : option Z) (id : Z) : effect :=
  Effect.CheckBinding id b deadline.

(* [transaction/machine/step.rs:1649-1653]! Step::begin *)
Definition mode_of (m : option string) : option Mode.mode :=
  match m with
  | Some m => if String.eqb m "read" then Some Mode.Read
              else if String.eqb m "write" then Some Mode.Write else None
  | None => None
  end.

(** A begin whose members have the right shape. *)
(* [transaction/machine/step.rs:1669-1727]! Step::begin *)
Definition begin_shaped (fields : list (string * value)) (m : Mode.mode) (start snapshot : string)
    : M unit :=
  s ← get;
  if negb (String.eqb snapshot (snapshot_of (compiler s))) then
    log (Value.object [("event", jstr "owner_snapshot_skew"); ("input", jstr "begin");
                       ("requestId", jopt (request_of s))]);;
    reply_code Code.Conflict
  else
    let binding_value := default Value.Null (assoc "databaseBinding" fields) in
    match parse_binding binding_value with
    | None => reply_code Code.BindingRejected
    | Some b =>
        if negb (String.eqb (bind_snapshot b) snapshot) then reply_code Code.Stale
        else
          match (a ← assoc "auth" fields; to_json a), to_json binding_value with
          | Some auth, Some binding_json =>
              match identity_auth_fingerprint auth binding_json,
                    replay_identity auth binding_json with
              | inl auth_fp, inl replay_fp =>
                  match busy s with
                  | Some c => reply_code c
                  | None =>
                      wait WorkLane.Client (Some host_request_id)
                        (Task.BeginBinding
                           {| auth_fingerprint := auth_fp; replay := replay_fp;
                              start_fingerprint := start; mode := m |} b snapshot)
                        (check_binding_effect b None)
                  end
              | _, _ => reply_code Code.Internal
              end
          | _, _ => reply_code Code.Internal
          end
    end.

(* [transaction/machine/step.rs:1632-1727] Step::begin *)
Definition begin (input : value) : M unit :=
  match exact_object input ["kind"; "transactionId"; "startFingerprint"; "mode"; "auth";
                            "databaseBinding"; "snapshot"] ["expected"] with
  | None => reply_code Code.Invalid
  | Some fields =>
      match mode_of (field_str "mode" fields),
            (f ← field_str "startFingerprint" fields; if hex64 f then Some f else None),
            field_str "snapshot" fields,
            bool_decide (field_str "transactionId" fields = Some owner),
            opt_existsb Value.is_object (assoc "auth" fields) with
      | Some m, Some start, Some snapshot, true, true => begin_shaped fields m start snapshot
      | _, _, _, _, _ => reply_code Code.Invalid
      end
  end.

(* [transaction/machine/step.rs:1729-1804] Step::begin_checked *)
Definition begin_checked (request_id : option string) (id : Identity) (b : Binding)
    (snapshot : string) : M unit :=
  let request := request_or_host request_id in
  s ← get;
  match durable_of s with
  | Some (Durable.Tombstone _) => reply_code Code.Unavailable
  | Some (Durable.Live r) =>
      if negb (bool_decide (rec_kind r = Kind.Interactive))
         || negb (String.eqb (start_fingerprint (identity r)) (start_fingerprint id))
         || negb (String.eqb (auth_fingerprint (identity r)) (auth_fingerprint id))
         || negb (String.eqb (rec_snapshot r) snapshot)
         || negb (bool_decide (binding r = b))
      then reply_code Code.Conflict
      else
        match rec_phase r with
        | Phase.Committing | Phase.CommitUnknown | Phase.Discarded => reply_code Code.Unavailable
        | p =>
            if bool_decide (p = Phase.Active)
               && negb (bool_decide (connection_of s = Connection.Open)) then
              set_phase Phase.Failed;;
              persist_reply (Some request) (error_reply Code.Unavailable)
                (error_reply Code.Internal)
            else respond (value_reply (public_state r request))
        end
  | None =>
      expires_at_ms ← or_fault "deadline"
        (at_ms ← checked_add64 now (transaction_ms limits);
         if (at_ms <=? MAX_TIME_MS)%Z then Some at_ms else None);
      set_connection Connection.Opening;;
      wait WorkLane.Client (Some request) (Task.BeginOpen id b snapshot expires_at_ms)
        (fun eid => Effect.Open eid b (mode id) (begin_timeout_ms limits) expires_at_ms)
  end.

(* [transaction/machine/step.rs:2086-2155] Step::statement *)
Definition statement (command : Command) (r : TxRecord) (sequence : Z) (deadline : option Z)
    (check : Binding) : M unit :=
  if (max_transaction_statements limits <=? cnt_statements (counters r))%Z then
    close_client Phase.Failed Code.TransactionLimit
  else
    compiled ← compile_members (to_canonical (cmd_auth command)) (cmd_members command);
    match compiled with
    | inr e =>
        log_core_error e;;
        close WorkLane.Client Phase.Failed (Some (core_error_reply e))
    | inl compiled =>
        let h := handle compiled in
        keep_handle h;;
        if bool_decide (mode (identity r) = Mode.Read) && negb (read_only compiled) then
          close_client Phase.Failed Code.ModeViolation
        else
          match statements compiled with
          | [summary] =>
              match digest_of command with
              | None => release h;; reply_code Code.Internal
              | Some dig =>
                  wait WorkLane.Client (Some host_request_id)
                    (Task.StatementBinding sequence dig h (sum_operation summary)
                       (sum_resource summary)
                       {| schema := schema_version compiled; policy := policy_version compiled |}
                       (sum_explain_resource summary))
                    (check_binding_effect check deadline)
              end
          | _ => close_client Phase.Failed Code.Internal
          end
    end.

(** A command in sequence on an active record: its first awaited effect. *)
(* [transaction/machine/step.rs:2044-2083]! Step::command *)
Definition command_run (kind : string) (command : Command) (r : TxRecord) (sequence : Z) : M unit :=
  let deadline := rec_expires_at_ms r in
  let check := binding r in
  if String.eqb kind "statement" then statement command r sequence deadline check
  else if String.eqb kind "commit" then
    dig ← or_fault "commit_digest" (digest_of command);
    s ← get;
    let auth := if bool_decide (triggered s r = []) then None
                else Some (to_canonical (cmd_auth command)) in
    wait WorkLane.Client (Some host_request_id) (Task.CommitBinding sequence dig auth false)
      (check_binding_effect check deadline)
  else
    dig ← or_fault "rollback_digest" (digest_of command);
    wait WorkLane.Client (Some host_request_id) (Task.RollbackBinding sequence dig)
      (check_binding_effect check deadline).

(** The checks of a command that is no replay: the phase, the lane, the snapshot, the
    deadline, the connection, and the sequence. *)
(* [transaction/machine/step.rs:1970-2043]! Step::command *)
Definition command_fresh (kind : string) (command : Command) (r : TxRecord)
    (same_snapshot : bool) : M unit :=
  s ← get;
  if bool_decide (rec_phase r ∈ [Phase.Committing; Phase.CommitUnknown]) then
    if opt_existsb (fun w => bool_decide (work_lane w = WorkLane.Client)) (work_of s)
    then reply_code Code.Internal
    else
      let answer :=
        if String.eqb kind "commit" && bool_decide (cmd_sequence command = Some (next_sequence r))
        then Code.OutcomeUnknown else Code.Unavailable in
      if bool_decide (rec_phase r = Phase.Committing) then
        release_all;;
        modify (set_volatile None);;
        set_phase Phase.CommitUnknown;;
        persist_reply (Some host_request_id) (error_reply answer) (error_reply answer)
      else reply_code answer
  else
    match busy s with
    | Some c => reply_code c
    | None =>
        if negb same_snapshot then reply_code Code.Unavailable
        else
          let active := bool_decide (rec_phase r = Phase.Active) in
          if negb (String.eqb (rec_snapshot r) (snapshot_of (compiler s))) then
            if negb active then reply_code Code.Unavailable
            else close_client Phase.Failed Code.Unavailable
          else
            let expired := past_deadline r in
            if active && (expired || negb (bool_decide (connection_of s = Connection.Open))) then
              let '(reason, p) := if expired then ("expired", Phase.Expired)
                                  else ("owner_lost", Phase.Failed) in
              log_unavailable reason;;
              close_client p Code.Unavailable
            else
              match cmd_sequence command with
              | None => reply_code Code.Invalid
              | Some sequence =>
                  if negb active then reply_code Code.Unavailable
                  else if negb (sequence =? next_sequence r)%Z then
                    close_client Phase.Failed Code.Conflict
                  else command_run kind command r sequence
              end
    end.

(** Whether the command repeats the last completed one: [Some digest] when its digest
    decides, [None] when it cannot be [last]. *)
(* [transaction/machine/step.rs:1954-1968]! Step::command *)
Definition replay_candidate (kind : string) (command : Command) (r : TxRecord)
    : M (option Replay) :=
  match cmd_sequence command, last r with
  | Some sequence, Some l =>
      if (sequence + 1 =? next_sequence r)%Z then
        repeat ← (if String.eqb kind "statement"
                  then may_repeat_members (to_canonical (cmd_auth command)) (cmd_members command)
                  else mret true);
        mret (if (repeat : bool) then Some l else None)
      else mret None
  | _, _ => mret None
  end.

(** The command of the record's own caller. *)
(* [transaction/machine/step.rs:1938-1968]! Step::command *)
Definition command_owned (kind : string) (command : Command) (r : TxRecord) : M unit :=
  match cmd_binding command with
  | None => reply_code Code.Unavailable
  | Some b =>
      match replay_identity (cmd_auth command) (cmd_binding_json command) with
      | inr _ => reply_code Code.Unavailable
      | inl replay_fp =>
          if negb (String.eqb replay_fp (replay (identity r))) then reply_code Code.Unavailable
          else
            let same_snapshot :=
              match identity_auth_fingerprint (cmd_auth command) (cmd_binding_json command) with
              | inl fp => String.eqb fp (auth_fingerprint (identity r))
              | inr _ => false
              end
              && bool_decide (b = binding r)
              && String.eqb (cmd_snapshot command) (rec_snapshot r) in
            candidate ← replay_candidate kind command r;
            match candidate with
            | Some l =>
                match digest_of command with
                | None => reply_code Code.Internal
                | Some dig =>
                    if String.eqb dig (digest l) then respond (value_reply (response l))
                    else command_fresh kind command r same_snapshot
                end
            | None => command_fresh kind command r same_snapshot
            end
      end
  end.

(* [transaction/machine/step.rs:1892-2084] Step::command *)
Definition command (kind : string) (input : value) : M unit :=
  match (text ← Value.get_str "command" input;
         match check text None with
         | inr StrictError.DuplicateKey => Some Code.Invalid
         | inr StrictError.TooDeep => Some Code.JsonTooDeep
         | _ => None
         end) with
  | Some c => reply_code c
  | None =>
      match parse_command kind input with
      | None => reply_code Code.Invalid
      | Some command =>
          modify (set_request (Some host_request_id));;
          let owned := bool_decide (Value.get_str "transactionId" input = Some owner) in
          s ← get;
          match durable_of s with
          | Some (Durable.Live r) =>
              if owned && bool_decide (rec_kind r = Kind.Interactive)
              then command_owned kind command r
              else reply_code Code.Unavailable
          | Some (Durable.Tombstone _) =>
              if owned && String.eqb kind "commit" then reply_code Code.OutcomeUnknown
              else reply_code Code.Unavailable
          | None => reply_code Code.Unavailable
          end
      end
  end.
End commands.
