(* ===== verification/Interactive.v ===== *)
(** * Outcomes of interactive work

    [machine/step.rs]: [consume] (what each task does with each outcome),
    and [executed] (a statement's rows). *)

From S2P Require Import Prelude F64 SerdeJson Compiler State Volatile Io Bounds Canonical.
From S2P Require Import Identity Machine Checks Commands.

Section interactive.
Context `{Target} `{Serde} `{StateSerde} `{Sha2} `{Compiler} `{Env}.

#[local] Abbreviation now := (now_ms host).
#[local] Abbreviation owner := this_owner.

(* [transaction/machine/step.rs:1347-1355] Step::terminal_log *)
Definition terminal_log (status request : string) (u : Usage) : value :=
  Value.object [("event", jstr "transaction_terminal"); ("transactionId", jstr owner);
                ("status", jstr status); ("requestId", jstr request); ("usage", usage_json u)].

Definition raw_log (record : value) : string := to_raw (doc_of_value record).

(** The record [begin] creates. *)
(* [transaction/machine/step.rs:905-919]! Step::consume *)
Definition new_record (id : Identity) (b : Binding) (snapshot : string) (expires_at_ms : Z)
    : TxRecord :=
  {| rec_owner := owner; rec_kind := Kind.Interactive; rec_phase := Phase.Active; identity := id;
     binding := b; rec_snapshot := snapshot; rec_expires_at_ms := Some expires_at_ms;
     next_sequence := 1; last := None; counters := counters_default; mutations := [];
     versions := None; rec_atomic := None |}.

(* [transaction/machine/step.rs:1464-1478]! Step::executed *)
Definition add_usage (u : Usage) (d : DriverUsage) : Usage :=
  {| rows_read := sat_add64 (rows_read u) (du_rows_read d);
     rows_written := sat_add64 (rows_written u) (du_rows_written d);
     query_duration_ms := round_ms (F64.add (query_duration_ms u) (du_query_duration_ms d)) |}.

(** The record of a completed statement. *)
(* [transaction/machine/step.rs:1482-1505]! Step::executed *)
Definition statement_record (r : TxRecord) (sequence : Z) (dig response : string)
    (bytes : Z) (u : Usage) (op : operation) (resource : option string) (affected : Z)
    (vs : Versions) : TxRecord :=
  let index := cnt_statements (counters r) in
  {| rec_owner := rec_owner r; rec_kind := rec_kind r; rec_phase := rec_phase r;
     identity := identity r; binding := binding r; rec_snapshot := rec_snapshot r;
     rec_expires_at_ms := rec_expires_at_ms r; next_sequence := sequence + 1;
     last := Some {| digest := dig; State.response := raw response |};
     counters := {| cnt_statements := wrap32 (index + 1); result_bytes := bytes; usage := u |};
     mutations :=
       match resource with
       | Some resource =>
           if negb (bool_decide (op = Operation.Select)) && (0 <? affected)%Z
           then mutations r ++ [{| mut_index := index; mut_operation := op;
                                   mut_resource := resource |}]
           else mutations r
       | None => mutations r
       end;
     versions := Some vs; rec_atomic := rec_atomic r |}.

(** The cost observation of an executed statement other than an insert. *)
(* [transaction/machine/step.rs:1426-1449]! Step::executed *)
Definition observe_statement (request_id : option string) (op : operation)
    (resource : option string) (explain_resource : option Z) (observed : list DriverStatement)
    (cap : Z) : M unit :=
  if bool_decide (op = Operation.Insert) then mret tt
  else
    match observed with
    | [] => mret tt
    | st :: _ =>
        call ← driver_call (cost_sql st) st;
        s ← get;
        r ← or_fault "statement_record" (record_of s);
        push (Effect.Observe [call]
          {| obs_request_id := request_or_host request_id; obs_binding := binding r;
             obs_statements := [{| obs_operation := Operation.operation_as_str op;
                                   obs_resource := resource;
                                   obs_explain_resource := explain_resource |}] |} cap)
    end.

(** Records a validated statement and answers it once it is stored. *)
(* [transaction/machine/step.rs:1450-1536]! Step::executed *)
Definition statement_done (lane : WorkLane.work_lane) (request_id : option string)
    (sequence : Z) (dig : string) (op : operation) (resource : option string) (vs : Versions)
    (result : DriverResult) (validated : Validated) : M unit :=
  let request := request_or_host request_id in
  shaped ← lift (shape_statement (Some sequence) op validated);
  s ← get;
  r ← or_fault "statement_record" (record_of s);
  let bytes := sat_add64 (result_bytes (counters r)) (len shaped) in
  if (max_transaction_result_bytes limits <? bytes)%Z then
    close lane Phase.Failed (Some (error_reply Code.TransactionLimit))
  else
    let u := add_usage (usage (counters r)) (dr_usage result) in
    if negb (usage_valid u) || negb (F64.is_finite (du_query_duration_ms (dr_usage result))) then
      close lane Phase.Failed (Some (error_reply Code.Internal))
    else
      let response := statement_response owner sequence shaped request in
      let next := Durable.Live (statement_record r sequence dig response bytes u op resource
                                  (val_affected_rows validated) vs) in
      if (MAX_DURABLE_BYTES <? len (durable_to_json next))%Z then
        close lane Phase.Failed (Some (error_reply Code.TransactionLimit))
      else
        let previous := durable_to_json <$> durable_of s in
        modify (set_durable (Some next));;
        log (Value.object [("event", jstr "transaction_usage"); ("transactionId", jstr owner);
                           ("requestId", jstr request); ("usage", usage_json u)]);;
        wait lane (Some request)
          (Task.Reply (Some (value_reply response)) (Some (error_reply Code.Internal)) [] []
             true previous) Effect.Persist.

(** [executed] for the fields of a [StatementExecute]. *)
(* [transaction/machine/step.rs:1373-1536] Step::executed *)
Definition executed (lane : WorkLane.work_lane) (request_id : option string) (sequence : Z)
    (dig : string) (h : Z) (op : operation) (resource : option string) (vs : Versions)
    (explain_resource : option Z) (rs : list DriverResult) : M unit :=
  set_connection Connection.Open;;
  rollback ← gets rollback_requested_of;
  if (rollback : bool) then release h;; expire_client lane
  else
    match rs with
    | [result] =>
        match codec_failure result with
        | Some c => release h;; close lane Phase.Failed (Some (error_reply c))
        | None =>
            let raw_result :=
              {| raw_columns := dr_columns result; raw_rows := dr_rows result;
                 raw_affected_rows :=
                   if negb (bool_decide (op = Operation.Select))
                      && negb (bool_decide (dr_columns result = []))
                   then Z.of_nat (length (dr_rows result)) else dr_rows_affected result |} in
            budget ← statement_budget h;
            cs ← gets compiler;
            match validate cs h 0 raw_result budget with
            | inr e =>
                release h;;
                log_core_error e;;
                close lane Phase.Failed (Some (core_error_reply e))
            | inl validated =>
                let observed := match driver_statements cs h with inl l => l | inr _ => [] end in
                let observe_cap := match raw_result_bound_of cs h with inl n => n | inr _ => 0 end in
                release h;;
                observe_statement request_id op resource explain_resource observed observe_cap;;
                statement_done lane request_id sequence dig op resource vs result validated
            end
        end
    | _ => release h;; close lane Phase.Failed (Some (error_reply Code.Internal))
    end.

(** A binding check was allowed: the repeated checks, then [k]. *)
(* [transaction/machine/step.rs:1314-1331]! Step::recheck *)
Definition rechecked (lane : WorkLane.work_lane) (k : M unit) : M unit :=
  expired ← recheck lane;
  match expired with
  | Some r => lift r
  | None => k
  end.

(** [StatementBinding] allowed: execute the plan. *)
(* [transaction/machine/step.rs:961-1009]! Step::consume *)
Definition statement_bound (lane : WorkLane.work_lane) (request_id : option string)
    (sequence : Z) (dig : string) (h : Z) (op : operation) (resource : option string)
    (vs : Versions) (explain_resource : option Z) : M unit :=
  rechecked lane
    (cs ← gets compiler;
     match driver_statements cs h with
     | inr _ => fault "plan"
     | inl sts =>
         calls ← driver_calls sts;
         match raw_result_bound_of cs h with
         | inr _ => fault "plan"
         | inl cap =>
             wait lane request_id
               (Task.StatementExecute sequence dig h op resource vs now explain_resource)
               (fun id => Effect.Execute id calls None cap)
         end
     end).

(** COMMIT was applied: record it, and answer once the record is stored (or cannot be). *)
(* [transaction/machine/step.rs:1138-1166]! Step::consume *)
Definition commit_applied (lane : WorkLane.work_lane) (request_id : option string) (dig : string)
    (passed : bool) : M unit :=
  set_connection Connection.None;;
  let request := request_or_host request_id in
  let response := terminal_response owner "committed" request passed in
  s ← get;
  r ← or_fault "commit_record" (record_of s);
  let u := usage (counters r) in
  complete Phase.Committed dig response;;
  let terminal := raw_log (terminal_log "committed" request u) in
  let unrecorded := raw_log (Value.object
    [("event", jstr "transaction_terminal_unrecorded"); ("transactionId", jstr owner);
     ("requestId", jstr request)]) in
  let reply := value_reply response in
  wait lane (Some request)
    (Task.Reply (Some reply) (Some reply) [terminal] [unrecorded; terminal] false None)
    Effect.Persist.

(** COMMIT failed: a definite rejection only when the adapter proved none was sent. *)
(* [transaction/machine/step.rs:1167-1196]! Step::consume *)
Definition commit_failed (lane : WorkLane.work_lane) (request_id : option string)
    (class : Class.class) : M unit :=
  set_connection Connection.None;;
  let request := request_or_host request_id in
  if bool_decide (class = Class.NotCommitted) then
    close lane Phase.Failed (Some (error_reply Code.Unavailable))
  else
    log (Value.object [("event", jstr "transaction_commit_outcome_unknown");
                       ("transactionId", jstr owner); ("requestId", jstr request)]);;
    set_phase Phase.CommitUnknown;;
    wait lane (Some request)
      (plain_reply (Some (error_reply Code.OutcomeUnknown))
         (Some (error_reply Code.OutcomeUnknown))) Effect.Persist.

(** ROLLBACK answered: the record is [rolled_back] whatever it said. *)
(* [transaction/machine/step.rs:1214-1243]! Step::consume *)
Definition rollback_done (lane : WorkLane.work_lane) (request_id : option string) (dig : string)
    : M unit :=
  set_connection Connection.None;;
  let request := request_or_host request_id in
  let response := terminal_response owner "rolled_back" request false in
  s ← get;
  r ← or_fault "rollback_record" (record_of s);
  let u := usage (counters r) in
  complete Phase.RolledBack dig response;;
  wait lane (Some request)
    (Task.Reply (Some (value_reply response)) (Some (error_reply Code.Internal))
       [raw_log (terminal_log "rolled_back" request u)] [] false None) Effect.Persist.

(* [transaction/machine/step.rs:1262-1264]! Step::consume *)
Fixpoint push_logs (records : list string) : M unit :=
  match records with
  | [] => mret tt
  | record :: records' => push (Effect.Log record);; push_logs records'
  end.

(* [transaction/machine/step.rs:1265-1267]! Step::consume *)
Definition respond_opt (reply : option string) : M unit :=
  match reply with Some reply => respond reply | None => mret tt end.

(** [BeginTimer] set: the begin reply. *)
(* [transaction/machine/step.rs:943-959]! Step::consume *)
Definition begin_ready (lane : WorkLane.work_lane) (request_id : option string) : M unit :=
  rollback ← gets rollback_requested_of;
  if (rollback : bool) then expire_client lane
  else
    let request := request_or_host request_id in
    s ← get;
    r ← or_fault "begin_record" (record_of s);
    log (Value.object [("event", jstr "transaction_started"); ("transactionId", jstr owner);
                       ("mode", jstr (Mode.mode_as_str (mode (identity r))));
                       ("requestId", jstr request)]);;
    respond (value_reply (public_state r request)).

(** [committing] is stored: the one deadline check of [committing], then COMMIT. *)
(* [transaction/machine/step.rs:1105-1133]! Step::consume *)
Definition commit_persisted (lane : WorkLane.work_lane) (request_id : option string)
    (sequence : Z) (dig : string) (passed : bool) : M unit :=
  s ← get;
  expires ← or_fault "committing_record" (r ← record_of s; rec_expires_at_ms r);
  if (expires <=? now)%Z || rollback_requested_of s then
    close lane Phase.Expired (Some (error_reply Code.Unavailable))
  else
    set_connection Connection.Closing;;
    wait lane request_id (Task.CommitSend sequence dig passed) Effect.Commit.

(** The decided record is stored. *)
(* [transaction/machine/step.rs:1253-1276]! Step::consume *)
Definition reply_persisted (reply : option string) (logs : list string) (expire_after : bool)
    : M unit :=
  push_logs logs;;
  respond_opt reply;;
  rollback ← gets rollback_requested_of;
  if expire_after && rollback then
    clear_work;;
    log_unavailable "expired";;
    close WorkLane.Background Phase.Expired None
  else mret tt.

(** The decided record could not be stored. *)
(* [transaction/machine/step.rs:1277-1305]! Step::consume *)
Definition reply_unstored (lane : WorkLane.work_lane) (failure : option string)
    (failure_logs : list string) (expire_after : bool) (restore : option string) : M unit :=
  push_logs failure_logs;;
  if expire_after then
    previous ← or_fault "statement_restore" restore;
    match durable_parse previous owner with
    | inl d =>
        modify (set_durable (Some d));;
        close lane Phase.Failed failure
    | inr _ => fault "statement_restore"
    end
  else
    respond_opt failure;;
    modify (set_reset true).

(* [transaction/machine/step.rs:869-1018]! Step::consume *)
Definition consume (lane : WorkLane.work_lane) (request_id : option string) (t : task) (e : event)
    : M unit :=
  match t, e with
  (* begin *)
  | Task.BeginBinding id b snapshot, Event.BindingChecked _ true =>
      begin_checked request_id id b snapshot
  | Task.BeginBinding _ _ _, Event.BindingChecked _ false => reply_code Code.BindingRejected
  | Task.BeginBinding _ _ _, Event.BindingCheckFailed _ class => reply_code (Code.for_class class)
  | Task.BeginOpen id b snapshot expires_at_ms, Event.Opened _ =>
      set_connection Connection.Open;;
      modify (set_durable (Some (Durable.Live (new_record id b snapshot expires_at_ms))));;
      wait lane request_id Task.BeginPersist Effect.Persist
  | Task.BeginOpen _ _ _ _, Event.OpenFailed _ class =>
      set_connection Connection.None;;
      reply_code (Code.for_class class)
  | Task.BeginPersist, Event.Persisted _ =>
      s ← get;
      at_ms ← or_fault "begin_record" (r ← record_of s; rec_expires_at_ms r);
      wait lane request_id Task.BeginTimer (fun id => Effect.SetTimer id at_ms)
  | Task.BeginPersist, Event.PersistFailed _ | Task.ValidatingPersist _, Event.PersistFailed _
  | Task.BeginTimer, Event.TimerFailed _ =>
      close lane Phase.Failed (Some (error_reply Code.Internal))
  | Task.BeginTimer, Event.TimerSet _ => begin_ready lane request_id
  (* statement *)
  | Task.StatementBinding sequence dig h op resource vs explain_resource,
    Event.BindingChecked _ true =>
      statement_bound lane request_id sequence dig h op resource vs explain_resource
  | Task.StatementBinding _ _ _ _ _ _ _, Event.BindingChecked _ false
  | Task.CommitBinding _ _ _ _, Event.BindingChecked _ false
  | Task.RollbackBinding _ _, Event.BindingChecked _ false =>
      close lane Phase.Failed (Some (error_reply Code.BindingRejected))
  | Task.StatementBinding _ _ _ _ _ _ _, Event.BindingCheckFailed _ class
  | Task.CommitBinding _ _ _ _, Event.BindingCheckFailed _ class
  | Task.RollbackBinding _ _, Event.BindingCheckFailed _ class =>
      close lane Phase.Failed (Some (error_reply (Code.for_class class)))
  | Task.StatementExecute sequence dig h op resource vs _ explain_resource,
    Event.Executed _ results =>
      executed lane request_id sequence dig h op resource vs explain_resource results
  | Task.StatementExecute _ _ h _ _ vs _ _,
    Event.ExecuteFailed _ class statement database_code cause =>
      set_connection Connection.Open;;
      release h;;
      rollback ← gets rollback_requested_of;
      if (rollback : bool) then expire_client lane
      else
        reply ← execute_failed_reply (Code.for_class class) class
                  {| fd_statement := statement; fd_database_code := database_code;
                     fd_cause := cause; fd_versions := Some vs |};
        close lane Phase.Failed (Some reply)
  (* commit *)
  | Task.CommitBinding sequence dig auth passed, Event.BindingChecked _ true =>
      rechecked lane
        (match auth with
         | Some auth => start_checks lane request_id sequence dig auth
         | None =>
             set_phase Phase.Committing;;
             wait lane request_id (Task.CommitPersist sequence dig passed) Effect.Persist
         end)
  | Task.ValidatingPersist checks, Event.Persisted _ => validating_persisted lane request_id checks
  | Task.Validator checks, Event.ValidatorReplied _ ok decision =>
      verdict_arrived lane request_id checks (ok && allowed_decision decision)
  | Task.Validator checks, Event.ValidatorFailed _ _ =>
      verdict_arrived lane request_id checks false
  | Task.CommitPersist sequence dig passed, Event.Persisted _ =>
      commit_persisted lane request_id sequence dig passed
  | Task.CommitPersist _ _ _, Event.PersistFailed _ =>
      close lane Phase.Failed (Some (error_reply Code.Internal))
  | Task.CommitSend _ dig passed, Event.Committed _ => commit_applied lane request_id dig passed
  | Task.CommitSend _ _ _, Event.CommitFailed _ class => commit_failed lane request_id class
  (* rollback *)
  | Task.RollbackBinding sequence dig, Event.BindingChecked _ true =>
      rechecked lane
        (set_connection Connection.Closing;;
         wait lane request_id (Task.RollbackSend sequence dig) Effect.Rollback)
  | Task.RollbackSend _ dig, Event.RolledBack _
  | Task.RollbackSend _ dig, Event.RollbackFailed _ _ => rollback_done lane request_id dig
  (* closing and replies *)
  | Task.CloseRollback p reply, Event.RolledBack _
  | Task.CloseRollback p reply, Event.RollbackFailed _ _ =>
      set_connection Connection.None;;
      persist_phase lane request_id p reply
  | Task.Reply reply _ logs _ expire_after _, Event.Persisted _ =>
      reply_persisted reply logs expire_after
  | Task.Reply _ failure _ failure_logs expire_after restore, Event.PersistFailed _ =>
      reply_unstored lane failure failure_logs expire_after restore
  | Task.ResetAfterPersist, Event.Persisted _ | Task.ResetAfterPersist, Event.PersistFailed _ =>
      modify (set_reset true)
  | _, _ => fault "unexpected_outcome"
  end.
End interactive.

(** ** Failing closed, discarding, abandoning, and the timer

    [machine/step.rs]: what a step does when something unforeseen happened
    ([fail_closed]), when the stored record is unreadable ([discard]), when the
    engine drops the volatile state ([abandon]), and when the timer fires. *)

Section closing.
Context `{Target} `{Serde} `{StateSerde} `{Sha2} `{Compiler} `{Env}.

#[local] Abbreviation now := (now_ms host).
#[local] Abbreviation owner := this_owner.

Definition phase_of (s : St) : option phase := durable_phase <$> durable_of s.

(* [transaction/machine/step.rs:511-533] Step::abandon *)
Definition abandon : M unit :=
  modify (set_abandoned true);;
  c ← gets connection_of;
  release_all;;
  id ← gets (fun s => match volatile_of s with Some vol => next_effect_id vol | None => seed_id end);
  modify (set_volatile None);;
  p ← gets phase_of;
  let next :=
    match p with
    | Some Phase.Active | Some Phase.Validating =>
        if bool_decide (c = Connection.None) then None else Some Phase.Failed
    | Some Phase.Committing => Some Phase.CommitUnknown
    | _ => None
    end in
  match next with
  | Some p => set_phase p;; push (Effect.Persist id)
  | None => mret tt
  end.

(** [wait(..).is_err()] sets [reset]. *)
(* [transaction/machine/step.rs:602-609]! Step::fail_closed *)
Definition or_reset (m : M unit) : M unit :=
  r ← attempt m;
  match r with inl _ => mret tt | inr _ => modify (set_reset true) end.

(* [transaction/machine/step.rs:553-556]! Step::fail_closed *)
Definition is_commit_task (t : task) : bool :=
  match t with
  | Task.CommitPersist _ _ _ | Task.CommitSend _ _ _ | Task.Reply _ _ _ _ _ _ => true
  | _ => false
  end.

Definition is_client (w : Work) : bool := bool_decide (work_lane w = WorkLane.Client).

Definition has_deferred (s : St) : bool :=
  opt_existsb (fun vol => bool_decide (is_Some (deferred vol))) (volatile_of s).
Definition has_callback (s : St) : bool :=
  opt_existsb (fun vol => bool_decide (is_Some (callback vol))) (volatile_of s).

(** What a client event is answered when the step fails closed. *)
(* [transaction/machine/step.rs:575-590]! Step::fail_closed *)
Definition fail_closed_reply (unsure_commit : bool) (e : event) : M unit :=
  match e with
  | Event.Request _ => respond (error_reply Code.Internal)
  | Event.Forwarded input =>
      let kind := Value.get_str "kind" input in
      if bool_decide (kind = Some "callbackQuery"%string)
      then respond_callback (error_reply Code.Internal)
      else
        let commit := bool_decide (kind = Some "commit"%string) in
        respond (error_reply (if unsure_commit && commit then Code.OutcomeUnknown
                              else Code.Internal))
  | _ => mret tt
  end.

(** The phase [fail_closed] moves to. *)
(* [transaction/machine/step.rs:593-597]! Step::fail_closed *)
Definition fail_closed_phase (had_volatile : bool) (p : option phase) : option phase :=
  match p with
  | Some Phase.Active | Some Phase.Validating => if had_volatile then Some Phase.Failed else None
  | Some Phase.Committing => Some Phase.CommitUnknown
  | _ => None
  end.

(* [transaction/machine/step.rs:535-613] Step::fail_closed *)
Definition fail_closed (reason : string) (e : event) (volatile_unknown : bool) : M unit :=
  modify (set_effects []);;
  s ← get;
  let had_volatile := volatile_unknown || bool_decide (is_Some (volatile_of s)) in
  let p := phase_of s in
  let unsure_commit := bool_decide (p ∈ [Some Phase.Committing; Some Phase.CommitUnknown]) in
  log (Value.object [("event", jstr "tx_fail_closed"); ("transactionId", jstr owner);
                     ("reason", jstr reason)]);;
  (match work_of s with
   | Some w =>
       if is_client w then
         respond (error_reply (if unsure_commit && is_commit_task (work_task w)
                               then Code.OutcomeUnknown else Code.Internal))
       else mret tt
   | None => mret tt
   end);;
  (if has_deferred s then respond (error_reply Code.Internal) else mret tt);;
  (if has_callback s then respond_callback (error_reply Code.Internal) else mret tt);;
  fail_closed_reply unsure_commit e;;
  release_all;;
  modify (set_volatile None);;
  match fail_closed_phase had_volatile p with
  | Some p =>
      set_phase p;;
      or_reset (wait WorkLane.Background None Task.ResetAfterPersist Effect.Persist)
  | None => modify (set_reset true)
  end.

(** A commit that may have been sent, from what the volatile part says. *)
(* [transaction/machine/step.rs:627-635]! Step::discard *)
Definition discard_commit_task (t : task) : bool :=
  match t with
  | Task.CommitBinding _ _ _ _ | Task.CommitPersist _ _ _ | Task.CommitSend _ _ _
  | Task.ValidatingPersist _ | Task.Validator _ | Task.Reply _ _ _ _ _ _ => true
  | _ => false
  end.

(* [transaction/machine/step.rs:651-658]! Step::discard *)
Definition discard_reply (e : event) : M unit :=
  match e with
  | Event.Forwarded input =>
      match Value.get_str "kind" input with
      | Some kind =>
          if String.eqb kind "commit" then respond (error_reply Code.OutcomeUnknown)
          else if String.eqb kind "atomic" then respond (error_reply Code.Internal)
          else if String.eqb kind "callbackQuery" then
            respond_callback (error_reply Code.Unavailable)
          else respond (error_reply Code.Unavailable)
      | None => respond (error_reply Code.Unavailable)
      end
  | _ => mret tt
  end.

(* [transaction/machine/step.rs:615-709] Step::discard *)
Definition discard (reason : Unreadable.unreadable) (e : event) : M unit :=
  log (Value.object [("event", jstr "tx_state_discarded"); ("transactionId", jstr owner);
                     ("reason", jstr (Unreadable.unreadable_as_str reason))]);;
  s ← get;
  (match work_of s with
   | Some w =>
       if is_client w then
         respond (error_reply (if discard_commit_task (work_task w) then Code.OutcomeUnknown
                               else Code.Internal))
       else mret tt
   | None => mret tt
   end);;
  (if has_deferred s then respond (error_reply Code.OutcomeUnknown) else mret tt);;
  (if has_callback s then respond_callback (error_reply Code.Unavailable) else mret tt);;
  discard_reply e;;
  let idle_open :=
    opt_existsb (fun vol => bool_decide (connection vol = Connection.Open)
      && bool_decide (pending vol = None) && bool_decide (callback vol = None)) (volatile_of s) in
  release_all;;
  modify (set_durable (Some (Durable.Tombstone owner)));;
  or_reset
    (if idle_open then
       with_volatile (fun vol => set_v_connection Connection.Closing (set_v_work None vol));;
       wait WorkLane.Background None (Task.CloseRollback Phase.Discarded None) Effect.Rollback
     else
       c ← gets connection_of;
       modify (set_volatile None);;
       if bool_decide (c = Connection.None) then
         wait WorkLane.Background None (plain_reply None None) Effect.Persist
       else wait WorkLane.Background None Task.ResetAfterPersist Effect.Persist).

(** The client tasks an expiry waits for. *)
(* [transaction/machine/step.rs:1568-1583]! Step::timer *)
Definition timer_defers (t : task) : bool :=
  match t with
  | Task.BeginBinding _ _ _ | Task.BeginOpen _ _ _ _ | Task.BeginPersist | Task.BeginTimer
  | Task.StatementBinding _ _ _ _ _ _ _ | Task.StatementExecute _ _ _ _ _ _ _ _
  | Task.CommitBinding _ _ _ _ | Task.ValidatingPersist _ | Task.RollbackBinding _ _
  | Task.Reply _ _ _ _ true _ => true
  | _ => false
  end.

(** [timer] for an interactive record in [active] or [validating] whose deadline passed. *)
(* [transaction/machine/step.rs:1556-1590]! Step::timer *)
Definition timer_due (p : phase) : M unit :=
  s ← get;
  let waits_on_validator := work_is is_validator (work_of s) || has_deferred s in
  if bool_decide (p = Phase.Validating) && waits_on_validator then expire_validating
  else
    match work_of s with
    | Some w =>
        if is_client w && timer_defers (work_task w)
        then volatile_mut (set_v_rollback true) else mret tt
    | None => close WorkLane.Background Phase.Expired None
    end.
End closing.
