(* ===== verification/Atomic.v ===== *)
(** * Atomic execution: requests and replies

    [machine/step/atomic.rs], first half: reading an [execute] request and the
    owner's atomic input, the failure codes, and the pure parts of an execution
    (the trace, the terminal record, the reply documents, the cumulative
    tally). *)

From S2P Require Import Prelude F64 Utf8 SerdeJson Compiler State Volatile Io Canonical Bounds.
From S2P Require Import Identity Machine Checks.

(* [transaction/machine/step/atomic.rs:63-66]! LOOKUP_SQL *)
Definition LOOKUP_SQL : string :=
  "SELECT fingerprint, response_json FROM policysql_idempotency WHERE key_hash = :key_hash".
(* [transaction/machine/step/atomic.rs:67-67]! INSERT_SQL *)
Definition INSERT_SQL : string :=
  "INSERT INTO policysql_idempotency (key_hash, fingerprint, response_json) VALUES (:key_hash, :fingerprint, :response_json)".

(* [transaction/machine/step/atomic.rs:192-211] Stored *)
Record Stored := {
  st_version : value;
  st_transaction_id : string;
  st_results : string;
  st_usage : string;
  st_original_request_id : string;
  st_status : option value;
  st_commit_checks : option value
}.

(** The generated readers of this file. *)
Class AtomicSerde := {
  (** [serde_json::from_str::<Stored>]; the raw members are JSON text. *)
  read_stored : string -> option Stored;
  (** [serde_json::from_str::<String>]. *)
  read_string : string -> option string;
  (** [serde_json::from_str::<BodyStatements>]: the raw members of each statement. *)
  read_body_statements : string -> option (list (list (string * string)));
  (** [serde_json::from_value::<Idempotency>]. *)
  idempotency_of_value : value -> option Idempotency;
  (** [serde_json::from_str::<Output>] of [request_idempotency]. *)
  read_idempotency_output : string -> option (option Idempotency)
}.

(** [char::is_alphabetic] and [char::is_uppercase], on code points. *)
Class Unicode := { is_alphabetic : Z -> bool; is_uppercase : Z -> bool }.

(* [transaction/machine/step/atomic.rs:293-312] collation_key *)
Definition collation_key `{Unicode} (name : string) : list (Z * Z) * list bool * string :=
  let points := chars (String.length name) name in
  (map (fun c => (if in_range 48 57 c then 1 else if is_alphabetic c then 2 else 0,
                  to_ascii_lowercase c)) points,
   map is_uppercase points, name).

Definition lex (c d : comparison) : comparison := match c with Eq => d | _ => c end.

Fixpoint list_compare {A} (cmp : A -> A -> comparison) (l k : list A) : comparison :=
  match l, k with
  | [], [] => Eq
  | [], _ :: _ => Lt
  | _ :: _, [] => Gt
  | a :: l', b :: k' => lex (cmp a b) (list_compare cmp l' k')
  end.

Definition bool_compare (a b : bool) : comparison :=
  match a, b with false, true => Lt | true, false => Gt | _, _ => Eq end.

(** The derived order of the key's tuples. *)
(* [transaction/machine/step/atomic.rs:293-312]! collation_key *)
Definition collation_compare `{Unicode} (a b : string) : comparison :=
  let '(p, t, n) := collation_key a in
  let '(p', t', n') := collation_key b in
  lex (list_compare (fun x y => lex (Z.compare (fst x) (fst y)) (Z.compare (snd x) (snd y))) p p')
    (lex (list_compare bool_compare t t') (String.compare n n')).

(** [sort_by_cached_key]: a stable sort. *)
Fixpoint insert_parameter `{Unicode} (p : string * string) (l : list (string * string))
    : list (string * string) :=
  match l with
  | [] => [p]
  | q :: l' => match collation_compare (fst p) (fst q) with
               | Gt => q :: insert_parameter p l'
               | _ => p :: l
               end
  end.

Definition sort_parameters `{Unicode} (l : list (string * string)) : list (string * string) :=
  foldr insert_parameter [] l.

(* [transaction/machine/step/atomic.rs:333-345] commit_failure *)
Definition commit_failure (c : Class.class) : code :=
  match c with
  | Class.Timeout => Code.DatabaseTimeout
  | Class.Unavailable => Code.DatabaseUnavailable
  | Class.NotCommitted => Code.Unavailable
  | Class.Rejected | Class.Unknown | Class.Limit | Class.Complex => Code.Internal
  end.

(* [transaction/machine/step/atomic.rs:347-368] execute_failure *)
Definition execute_failure (t : task) (c : Class.class) (later_write : bool) : code :=
  match t, c with
  | Task.AtomicLookup, (Class.Limit | Class.Complex)
  | Task.AtomicInsert, (Class.Limit | Class.Complex) => Code.Internal
  | Task.AtomicExecute, Class.Limit => if later_write then Code.Internal else Code.for_class c
  | _, _ => Code.for_class c
  end.

(* [transaction/machine/step/atomic.rs:370-377] has_later_write *)
Definition has_later_write (sts : list AtomicStatement) : bool :=
  existsb (fun st => negb (bool_decide (ast_operation st = Operation.Select))) (drop 1 sts).

(* [transaction/machine/step/atomic.rs:379-385] strictest *)
Definition strictest (sts : list AtomicStatement) (limit : StatementLimits -> Z) : Z :=
  match map (fun st => limit (ast_limits st)) sts with
  | [] => 0
  | n :: l => foldl Z.min n l
  end.

(** [format!("atomic_{}", &key_hash[..24])]: a key hash has 64 characters. *)
(* [transaction/machine/step/atomic.rs:543-543]! Step::request_checked *)
Definition keyed_transaction_id (i : Idempotency) : string :=
  ("atomic_" ++ substring 0 24 (key_hash i))%string.

Section requests.
Context `{Target} `{Serde} `{StateSerde} `{Sha2} `{AtomicSerde}.

(* [transaction/machine/step/atomic.rs:69-80] ExecuteRequest *)
Record ExecuteRequest := {
  req_auth : json;
  req_binding : Binding;
  req_binding_value : value;
  req_snapshot : string;
  req_body : string;
  req_key : option value;
  req_trace : bool
}.

(** [auth] of an input: an object, read strictly. *)
Definition object_json (v : option value) : option json :=
  v ← v; if Value.is_object v then to_json v else None.

(* [transaction/machine/step/atomic.rs:83-121] ExecuteRequest::read *)
Definition execute_request_read (operation : value) : ExecuteRequest + code :=
  match exact_object operation ["kind"; "auth"; "databaseBinding"; "snapshot"; "bodyText"]
          ["idempotencyKey"; "trace"] with
  | None => inr Code.Invalid
  | Some fields =>
      match bool_decide (field_str "kind" fields = Some "execute"%string),
            field_str "bodyText" fields, field_str "snapshot" fields with
      | true, Some body, Some snapshot =>
          match match assoc "trace" fields with
                | None => Some false
                | Some (Value.Bool trace) => Some trace
                | Some _ => None
                end with
          | None => inr Code.Invalid
          | Some trace =>
              match object_json (assoc "auth" fields) with
              | None => inr Code.Internal
              | Some auth =>
                  match assoc "databaseBinding" fields with
                  | None => inr Code.Invalid
                  | Some binding_value =>
                      match parse_binding binding_value with
                      | None => inr Code.BindingRejected
                      | Some b =>
                          if negb (String.eqb (bind_snapshot b) snapshot) then inr Code.Stale
                          else inl {| req_auth := auth; req_binding := b;
                                      req_binding_value := binding_value;
                                      req_snapshot := snapshot; req_body := body;
                                      req_key := assoc "idempotencyKey" fields;
                                      req_trace := trace |}
                      end
                  end
              end
          end
      | _, _, _ => inr Code.Invalid
      end
  end.

(* [transaction/machine/step/atomic.rs:124-131] AtomicInput *)
Record AtomicInput := {
  in_auth : json;
  in_binding : Binding;
  in_snapshot : string;
  in_body : string;
  in_idempotency : option Idempotency
}.

(** The idempotency of an owner's input: valid hashes, on the owner the key names. *)
(* [transaction/machine/step/atomic.rs:161-177]! AtomicInput::read *)
Definition input_idempotency (hex : string) (v : option value) : option Idempotency + code :=
  match v with
  | None | Some Value.Null => inl None
  | Some v =>
      match idempotency_of_value v with
      | None => inr Code.Invalid
      | Some parsed =>
          if negb (hex64 (key_hash parsed)) || negb (hex64 (fingerprint parsed))
             || negb (bool_decide (str_get (key_hash parsed) 0 32 = Some hex))
          then inr Code.Invalid
          else inl (Some parsed)
      end
  end.

(* [transaction/machine/step/atomic.rs:134-189] AtomicInput::read *)
Definition atomic_input_read (input : value) (owner : string) : AtomicInput + code :=
  match exact_object input ["kind"; "validationId"; "auth"; "request"; "databaseBinding";
                            "snapshot"] ["idempotency"] with
  | None => inr Code.Invalid
  | Some fields =>
      match strip_prefix "tx_" owner with
      | None => inr Code.Internal
      | Some hex =>
          let routed := bool_decide
            ((id ← field_str "validationId" fields; strip_prefix "cval_" id) = Some hex) in
          match routed, field_str "request" fields, field_str "snapshot" fields with
          | true, Some body, Some snapshot =>
              match input_idempotency hex (assoc "idempotency" fields) with
              | inr c => inr c
              | inl idem =>
                  match object_json (assoc "auth" fields) with
                  | None => inr Code.Invalid
                  | Some auth =>
                      match assoc "databaseBinding" fields with
                      | None => inr Code.Invalid
                      | Some binding_value =>
                          match parse_binding binding_value with
                          | None => inr Code.BindingRejected
                          | Some b => inl {| in_auth := auth; in_binding := b;
                                             in_snapshot := snapshot; in_body := body;
                                             in_idempotency := idem |}
                          end
                      end
                  end
              end
          | _, _, _ => inr Code.Invalid
          end
      end
  end.

(* [transaction/machine/step/atomic.rs:562-595] Step::request_idempotency *)
Definition request_idempotency (request : ExecuteRequest) (max_input_bytes : Z)
    : option Idempotency + string :=
  match to_json (req_binding_value request) with
  | None => inr (error_reply Code.Internal)
  | Some b =>
      let members :=
        [("op", Json.String "request"); ("endpoint", Json.String "execute");
         ("auth", req_auth request); ("binding", b); ("body", Json.String (req_body request))]
        ++ match req_key request with
           | Some key => [("key", default Json.Null (to_json key))]
           | None => []
           end in
      match compute (to_canonical (Json.Object members)) max_input_bytes with
      | inl output =>
          match read_idempotency_output output with
          | Some idem => inl idem
          | None => inr (error_reply Code.Internal)
          end
      | inr IdentityError.KeyInvalid => inr (error_reply Code.KeyInvalid)
      | inr IdentityError.Internal => inr (error_reply Code.Internal)
      end
  end.

(** The character test of an owner reply's error code, after its prefix. *)
(* [transaction/machine/step/atomic.rs:608-620]! Step::owner_replied *)
Definition code_syntax (code : string) : bool :=
  opt_existsb (fun rest => negb (String.eqb rest "")
    && str_forallb (fun c => is_upper c || is_digit c || (byte_of c =? 95)%Z) rest)
    (strip_prefix "POLICYSQL_" code).

(** The owner's reply in the reply shape, or nothing. *)
(* [transaction/machine/step/atomic.rs:599-630]! Step::owner_replied *)
Definition owner_reply_shape (reply : value) : option string :=
  match Value.get "ok" reply with
  | Some (Value.Bool true) =>
      fields ← exact_object reply ["ok"; "value"] [];
      v ← assoc "value" fields;
      if Value.is_object v then Some (value_reply (to_raw (doc_of_value v))) else None
  | Some (Value.Bool false) =>
      fields ← exact_object reply ["ok"; "error"] [];
      error ← assoc "error" fields;
      error ← exact_object error ["code"; "message"; "path"] [];
      if opt_existsb code_syntax (field_str "code" error)
         && opt_existsb Value.is_string (assoc "message" error)
         && opt_existsb (fun path => match path with Value.Null | Value.String _ => true | _ => false end)
              (assoc "path" error)
      then Some (to_raw (doc_of_value reply)) else None
  | _ => None
  end.
End requests.

(** ** Documents *)
Section documents.
Context `{Target} `{Serde} `{Compiler} `{AtomicSerde} `{Unicode}.

(* [transaction/machine/step/atomic.rs:314-331] rows_bytes *)
Definition rows_bytes (validated : Validated) : Z :=
  let cell column v := js_string_len column + 1 + js_value_len v in
  let row values :=
    let cells := zip_with cell (val_columns validated) values in
    2 + Z.of_nat (length cells - 1) + foldr Z.add 0 cells in
  2 + Z.of_nat (length (val_rows validated) - 1) + foldr Z.add 0 (map row (val_rows validated)).

(* [transaction/machine/step/atomic.rs:275-284] Trace *)
Definition trace_doc (request_id disposition : string) (sts : list Doc) : Doc :=
  DMap [("source", DStr "turso-egress"); ("requestId", DStr request_id);
        ("disposition", DStr disposition); ("attempt", DU64 1); ("statements", DSeq sts)].

(** The parameters of a traced statement, sorted by name. *)
(* [transaction/machine/step/atomic.rs:255-261] TraceParameter *)
Definition trace_parameters (driver : DriverStatement) : list Doc :=
  map (fun '(name, source) => DMap [("name", DStr name); ("source", DStr source);
                                    ("value", DStr "[redacted]")])
    (sort_parameters
       (map (fun '(name, _) => (name, "client"%string)) (client_parameters driver)
        ++ map (fun '(name, _) => (name, "server"%string)) (server_parameters driver))).

(* [transaction/machine/step/atomic.rs:263-273] TraceStatement *)
Definition trace_statement (inputs : list string) (index : nat) (driver : DriverStatement)
    (statement : AtomicStatement) : Doc :=
  DMap ([("index", DU64 (Z.of_nat index));
         ("operation", DStr (Operation.operation_as_str (ast_operation statement)))]
        ++ opt_member "resource" DStr (ast_resource statement)
        ++ [("inputSql", DStr (default EmptyString (inputs !! index)));
            ("executedSql", DStr (sql driver));
            ("parameters", DSeq (trace_parameters driver))]).

(** The [sql] texts of the body, or none when it cannot be read. *)
(* [transaction/machine/step/atomic.rs:286-291] BodyStatements *)
Definition body_inputs (body : string) : list string :=
  match read_body_statements body with
  | None => []
  | Some sts =>
      map (fun members => default EmptyString (raw ← assoc "sql" members; read_string raw)) sts
  end.

(* [transaction/machine/step/atomic.rs:824-883] Step::trace *)
Definition trace_of (h : Z) (sts : list AtomicStatement) (body request_id : string) : M string :=
  cs ← gets compiler;
  match driver_statements cs h with
  | inr _ => fault "plan"
  | inl drivers =>
      mret (to_raw (trace_doc request_id "executed"
        (imap (fun index '(driver, st) => trace_statement (body_inputs body) index driver st)
           (zip drivers sts))))
  end.

(* [transaction/machine/step/atomic.rs:243-253] AtomicReply *)
Definition atomic_reply_doc (transaction_id results request_id : string) (vs : Versions)
    (role commit_checks : string) (execution_trace : option string) : Doc :=
  DMap ([("transactionId", DStr transaction_id); ("status", DStr "committed");
         ("results", DRaw results);
         ("meta", DMap [("requestId", DStr request_id); ("policyVersion", DStr (policy vs));
                        ("schemaVersion", DStr (schema vs)); ("role", DStr role);
                        ("commitChecks", DStr commit_checks)])]
        ++ opt_member "debug" (fun trace => DMap [("executionTrace", DRaw trace)])
             execution_trace).

(* [transaction/machine/step/atomic.rs:1641-1645]! atomic_response *)
Definition checks_text (passed : bool) : string := if passed then "passed" else "not_triggered".

(* [transaction/machine/step/atomic.rs:1630-1655] atomic_response *)
Definition atomic_response (a : AtomicRun) (results : string) : string :=
  to_raw (atomic_reply_doc (transaction_id a) results (run_request_id a) (run_versions a)
            (run_role a) (checks_text (checks_passed a)) (if debug a then trace a else None)).

Definition atomic_usage_doc (u : AtomicUsage) : Doc :=
  DMap [("rowsReturned", DU64 (rows_returned u)); ("rowsAffected", DU64 (rows_affected u));
        ("rowsRead", DU64 (au_rows_read u)); ("rowsWritten", DU64 (au_rows_written u));
        ("queryDurationMs", DNum (Number.Float (au_query_duration_ms u)))].

(* [transaction/machine/step/atomic.rs:213-225] Terminal *)
Definition terminal_doc (a : AtomicRun) (results : string) (u : AtomicUsage) : Doc :=
  DMap [("version", DU64 1); ("transactionId", DStr (transaction_id a));
        ("status", DStr "committed"); ("results", DRaw results); ("usage", atomic_usage_doc u);
        ("originalRequestId", DStr (run_request_id a)); ("replayed", DBool false);
        ("commitChecks", DStr (checks_text (checks_passed a)))].

(** The checks text of a stored record: absent is the one of the first rows. *)
(* [transaction/machine/step/atomic.rs:1263-1268]! Step::replay *)
Definition stored_checks (o : option value) : option string :=
  match o with
  | None => Some "not_triggered"%string
  | Some (Value.String checks) =>
      if String.eqb checks "passed" then Some "passed"%string
      else if String.eqb checks "not_triggered" then Some "not_triggered"%string else None
  | Some _ => None
  end.

(* [transaction/machine/step/atomic.rs:1257-1304] Step::replay *)
Definition stored_reply (a : AtomicRun) (stored request : string) : option string :=
  st ← read_stored stored;
  transaction_id ← read_string (st_transaction_id st);
  original ← read_string (st_original_request_id st);
  commit_checks ← stored_checks (st_commit_checks st);
  if bool_decide (Value.as_u64 (st_version st) = Some 1)
     && starts_with "[" (st_results st)
     && starts_with "{" (st_usage st)
     && starts_with "atomic_" transaction_id
     && opt_forallb (fun status => bool_decide (Value.as_str status = Some "committed"%string))
          (st_status st)
  then
    let trace := if debug a then Some (to_raw (trace_doc request "idempotency_replay" []))
                 else None in
    Some (value_reply (to_raw (atomic_reply_doc transaction_id (st_results st) original
                                 (run_versions a) (run_role a) commit_checks trace)))
  else None.

(** What the executed statements add up to. *)
Record Tally := {
  ta_shaped : list string;
  ta_mutations : list Mutation;
  ta_usage : AtomicUsage;
  ta_duration : f64
}.

Definition tally_start : Tally :=
  {| ta_shaped := []; ta_mutations := [];
     ta_usage := {| rows_returned := 0; rows_affected := 0; au_rows_read := 0;
                    au_rows_written := 0; au_query_duration_ms := F64.zero |};
     ta_duration := F64.zero |}.

(** One statement's part of the tally. *)
(* [transaction/machine/step/atomic.rs:1387-1408]! Step::atomic_executed *)
Definition tally_one (index : Z) (result : Validated) (st : AtomicStatement) (r : DriverResult)
    (t : Tally) : Tally + Fault :=
  match shape_statement None (ast_operation st) result with
  | inr f => inr f
  | inl text =>
      let u := ta_usage t in
      let write := negb (bool_decide (ast_operation st = Operation.Select)) in
      let mutated :=
        if write && (0 <? val_affected_rows result)%Z then ast_resource st else None in
      if bool_decide (is_Some mutated) && (U32_MAX <? index)%Z then inr "index"%string
      else inl
          {| ta_shaped := ta_shaped t ++ [text];
             ta_mutations :=
               match mutated with
               | Some resource =>
                   ta_mutations t ++ [{| mut_index := index; mut_operation := ast_operation st;
                                         mut_resource := resource |}]
               | None => ta_mutations t
               end;
             ta_usage :=
               {| rows_returned :=
                    wrap64 (rows_returned u + Z.of_nat (length (val_rows result)));
                  rows_affected :=
                    if write then sat_add64 (rows_affected u) (val_affected_rows result)
                    else rows_affected u;
                  au_rows_read := sat_add64 (au_rows_read u) (du_rows_read (dr_usage r));
                  au_rows_written := sat_add64 (au_rows_written u) (du_rows_written (dr_usage r));
                  au_query_duration_ms := au_query_duration_ms u |};
             ta_duration := F64.add (ta_duration t) (du_query_duration_ms (dr_usage r)) |}
  end.

(* [transaction/machine/step/atomic.rs:1377-1410]! Step::atomic_executed *)
Fixpoint tally (index : Z) (l : list (Validated * AtomicStatement * DriverResult)) (t : Tally)
    : Tally + Fault :=
  match l with
  | [] => inl t
  | (result, st, r) :: l' =>
      match tally_one index result st r t with
      | inl t => tally (index + 1) l' t
      | inr f => inr f
      end
  end.
End documents.
