(* ===== verification/Execution.v ===== *)
(** * Atomic execution: the transitions

    [machine/step/atomic.rs], second half: the [request] kind, the owner's
    [atomic] input, and the outcomes of an execution up to its one [Commit]. *)

From S2P Require Import Prelude F64 SerdeJson Compiler State Volatile Io Bounds Canonical.
From S2P Require Import Identity Machine Checks Commands Interactive Atomic.

Section execution.
Context `{Target} `{Serde} `{StateSerde} `{Sha2} `{Compiler} `{Env} `{AtomicSerde} `{Unicode}.

#[local] Abbreviation now := (now_ms host).
#[local] Abbreviation owner := this_owner.

Definition atomic_of (s : St) : option AtomicRun := vol ← volatile_of s; atomic vol.

(* [transaction/machine/step/atomic.rs:388-393] Step::atomic_run *)
Definition atomic_run : M AtomicRun := s ← get; or_fault "no_atomic" (atomic_of s).

(* [transaction/machine/step/atomic.rs:402-406] Step::atomic_on_owner *)
Definition atomic_on_owner (s : St) : bool :=
  opt_existsb (fun a => bool_decide (placement a = Placement.Owner)) (atomic_of s).

(** [close] of a failed execution with one of the machine's codes. *)
Definition close_failed (lane : WorkLane.work_lane) (c : code) : M unit :=
  close lane Phase.Failed (Some (error_reply c)).

(* [transaction/machine/step/atomic.rs:408-417] Step::abort *)
Definition abort (reply : string) : M unit :=
  release_all;;
  with_volatile (fun vol => set_v_connection Connection.None (set_v_atomic None vol));;
  clear_work;;
  respond reply.

(** ** The request kind *)

(* [transaction/machine/step/atomic.rs:421-451] Step::request_event *)
Definition request_event (operation : value) : M unit :=
  s ← get;
  if on_owner || bool_decide (is_Some (volatile_of s)) then reply_code Code.Internal
  else
    match execute_request_read operation with
    | inr c => reply_code c
    | inl request =>
        if negb (String.eqb (req_snapshot request) (snapshot_of (compiler s)))
        then reply_code Code.Stale
        else
          wait WorkLane.Client (Some host_request_id)
            (Task.RequestBinding (to_raw (doc_of_value operation)))
            (check_binding_effect (req_binding request) None)
    end.

(** What starts an execution on either placement. *)
(* [transaction/machine/step/atomic.rs:1657-1669] AtomicStart *)
Record AtomicStart := {
  as_placement : Placement.placement;
  as_compiled : Compiled;
  as_auth : string;
  as_binding : Binding;
  as_idempotency : option Idempotency;
  as_transaction_id : string;
  as_request_id : string;
  as_trace : option string;
  as_debug : bool
}.

Definition atomic_statement (s : StatementSummary) : AtomicStatement :=
  {| ast_operation := sum_operation s; ast_resource := sum_resource s;
     ast_limits := sum_limits s; ast_explain_resource := sum_explain_resource s |}.

(** The run [start_atomic] creates. *)
(* [transaction/machine/step/atomic.rs:787-809]! Step::start_atomic *)
Definition new_run (start : AtomicStart) (role : string) (trace : option string)
    (deadline_ms : Z) : AtomicRun :=
  let compiled := as_compiled start in
  {| placement := as_placement start; transaction_id := as_transaction_id start;
     run_request_id := as_request_id start; run_auth := as_auth start; run_role := role;
     run_binding := as_binding start; run_handle := handle compiled;
     run_statements := map atomic_statement (statements compiled);
     run_versions := {| schema := schema_version compiled; policy := policy_version compiled |};
     idempotency := as_idempotency start; started_at_ms := now;
     run_expires_at_ms :=
       if bool_decide (as_placement start = Placement.Owner) then Some deadline_ms else None;
     debug := as_debug start; trace := trace; results := None; run_usage := None;
     run_mutations := []; checks_passed := false |}.

(* [transaction/machine/step/atomic.rs:741-822] Step::start_atomic *)
Definition start_atomic (start : AtomicStart) : M unit :=
  let compiled := as_compiled start in
  let sts := map atomic_statement (statements compiled) in
  if bool_decide (sts = []) then fault "atomic_statements"
  else
    let timeout := strictest sts timeout_ms in
    deadline_ms ← or_fault "deadline"
      (at_ms ← checked_add64 now (match as_placement start with
                                  | Placement.Direct => timeout
                                  | Placement.Owner => transaction_ms limits
                                  end);
       if (at_ms <=? MAX_TIME_MS)%Z then Some at_ms else None);
    role ← or_fault "role"
      (auth ← parse (as_auth start); role ← Json.get "role" auth; Json.as_text role);
    trace ← match as_trace start with
            | Some body =>
                text ← trace_of (handle compiled) sts body (as_request_id start);
                mret (Some text)
            | None => mret None
            end;
    volatile_mut (fun vol =>
      set_v_connection Connection.Opening
        (set_v_atomic (Some (new_run start role trace deadline_ms)) vol));;
    wait WorkLane.Client (Some (as_request_id start)) Task.AtomicOpen (fun id =>
      Effect.Open id (as_binding start) (if read_only compiled then Mode.Read else Mode.Write)
        timeout deadline_ms).

(** A compile error: definite without a key, the unknown outcome with one. *)
(* [transaction/machine/step/atomic.rs:467-483]! Step::request_checked *)
Definition compile_refused (e : CoreError) (keyed : bool) : M unit :=
  log_core_error e;;
  abort (if keyed then error_reply Code.Internal else core_error_reply e).

(** The input forwarded to the owner. *)
(* [transaction/machine/step/atomic.rs:515-528]! Step::request_checked *)
Definition forward_input (request : ExecuteRequest) (hex : string) (auth : value)
    (idem : option Idempotency) : value :=
  let fields :=
    [("kind", jstr "atomic"); ("validationId", jstr ("cval_" ++ hex)); ("auth", auth);
     ("request", jstr (req_body request)); ("databaseBinding", req_binding_value request);
     ("snapshot", jstr (req_snapshot request))] in
  Value.object (fields ++ match idem with
    | Some i => [("idempotency", Value.object [("keyHash", jstr (key_hash i));
                                              ("fingerprint", jstr (fingerprint i))])]
    | None => []
    end).

(* [transaction/machine/step/atomic.rs:507-541]! Step::request_checked *)
Definition forward_to_owner (request : ExecuteRequest) (request_id auth_text : string) (h : Z)
    (idem : option Idempotency) : M unit :=
  release h;;
  hex ← or_fault "validation_id"
    (match idem with Some i => str_get (key_hash i) 0 32 | None => entropy_id host end);
  auth ← or_fault "auth" (from_str_value auth_text);
  let input := to_raw (doc_of_value (forward_input request hex auth idem)) in
  wait WorkLane.Client (Some request_id) Task.AtomicForward (fun id =>
    Effect.Forward id ("tx_" ++ hex)%string "client" input).

(** The resources of the statements other than a select. *)
(* [transaction/machine/step/atomic.rs:500-505]! Step::request_checked *)
Definition mutated_resources (compiled : Compiled) : list string :=
  omap sum_resource
    (List.filter (fun st => negb (bool_decide (sum_operation st = Operation.Select)))
       (statements compiled)).

(* [transaction/machine/step/atomic.rs:546-547]! Step::request_checked *)
Definition has_debug (auth : json) : bool :=
  match Json.get "access" auth with
  | Some (Json.Array access) => existsb (json_text_eqb "debug") access
  | _ => false
  end.

(** Forward, or run here. *)
(* [transaction/machine/step/atomic.rs:500-560]! Step::request_checked *)
Definition request_placed (request : ExecuteRequest) (request_id auth_text : string)
    (compiled : Compiled) (idem : option Idempotency) : M unit :=
  cs ← gets compiler;
  if negb (read_only compiled)
     && negb (bool_decide (triggered_checks cs (mutated_resources compiled) = []))
  then forward_to_owner request request_id auth_text (handle compiled) idem
  else
    start_atomic
      {| as_placement := Placement.Direct; as_compiled := compiled; as_auth := auth_text;
         as_binding := req_binding request; as_idempotency := idem;
         as_transaction_id :=
           match idem with
           | Some i => keyed_transaction_id i
           | None => ("atomic_" ++ request_id)%string
           end;
         as_request_id := request_id;
         as_trace := if req_trace request then Some (req_body request) else None;
         as_debug := req_trace request && has_debug (req_auth request) |}.

(* [transaction/machine/step/atomic.rs:453-560] Step::request_checked *)
Definition request_checked (request_id : option string) (operation : string) : M unit :=
  let request_id := request_or_host request_id in
  operation ← or_fault "request_operation" (from_str_value operation);
  request ← or_fault "request_operation"
    (match execute_request_read operation with inl r => Some r | inr _ => None end);
  let auth_text := to_canonical (req_auth request) in
  compiled ← compile_in_compiler auth_text (req_body request);
  match compiled with
  | inr e => compile_refused e (bool_decide (is_Some (req_key request)))
  | inl compiled =>
      keep_handle (handle compiled);;
      if read_only compiled then request_placed request request_id auth_text compiled None
      else
        match request_idempotency request (max_hash_input_bytes limits) with
        | inr reply => abort reply
        | inl idem => request_placed request request_id auth_text compiled idem
        end
  end.

(* [transaction/machine/step/atomic.rs:597-637] Step::owner_replied *)
Definition owner_replied (reply : value) : M unit :=
  clear_work;;
  match owner_reply_shape reply with
  | Some reply => respond reply
  | None =>
      request ← gets request_of;
      log (Value.object [("event", jstr "owner_reply_rejected"); ("requestId", jopt request)]);;
      reply_code Code.Internal
  end.

(** ** The owner's atomic input *)

(* [transaction/machine/step/atomic.rs:641-684] Step::atomic_input *)
Definition atomic_input (input : value) : M unit :=
  s ← get;
  if opt_existsb (fun snapshot => negb (String.eqb snapshot (snapshot_of (compiler s))))
       (Value.get_str "snapshot" input)
  then snapshot_skew "atomic"
  else
    match atomic_input_read input owner with
    | inr c => reply_code c
    | inl parsed =>
        if negb (String.eqb (bind_snapshot (in_binding parsed)) (in_snapshot parsed))
        then reply_code Code.Stale
        else
          let interactive :=
            opt_existsb (fun r => bool_decide (rec_kind r = Kind.Interactive)) (record_of s) in
          if bool_decide (is_Some (busy s)) || interactive
             || negb (bool_decide (connection_of s = Connection.None))
          then reply_code Code.Internal
          else
            wait WorkLane.Client (Some host_request_id)
              (Task.AtomicBinding (to_raw (doc_of_value input)))
              (check_binding_effect (in_binding parsed) None)
    end.

(* [transaction/machine/step/atomic.rs:686-737] Step::atomic_input_checked *)
Definition atomic_input_checked (request_id : option string) (input : string) : M unit :=
  let request_id := request_or_host request_id in
  input ← or_fault "atomic_input" (from_str_value input);
  parsed ← or_fault "atomic_input"
    (match atomic_input_read input owner with inl p => Some p | inr _ => None end);
  let auth_text := to_canonical (in_auth parsed) in
  compiled ← compile_in_compiler auth_text (in_body parsed);
  match compiled with
  | inr e => compile_refused e (bool_decide (is_Some (in_idempotency parsed)))
  | inl compiled =>
      keep_handle (handle compiled);;
      if read_only compiled then abort (error_reply Code.Invalid)
      else
        start_atomic
          {| as_placement := Placement.Owner; as_compiled := compiled; as_auth := auth_text;
             as_binding := in_binding parsed; as_idempotency := in_idempotency parsed;
             as_transaction_id :=
               match in_idempotency parsed with
               | Some i => keyed_transaction_id i
               | None => ("atomic_" ++ trim_tx (String.length owner) owner)%string
               end;
             as_request_id := request_id; as_trace := None; as_debug := false |}
  end.
End execution.

(** ** Atomic execution: the outcomes

    [machine/step/atomic.rs]: what an execution does with each outcome of its
    database effects, from [Opened] to the one [Commit], and its timer. *)

Section outcomes.
Context `{Target} `{Serde} `{StateSerde} `{Sha2} `{Compiler} `{Env} `{AtomicSerde} `{Unicode}.

#[local] Abbreviation now := (now_ms host).
#[local] Abbreviation owner := this_owner.

(* [transaction/machine/step/atomic.rs:885-894] Step::atomic_expired *)
Definition atomic_expired (s : St) : bool :=
  atomic_on_owner s
  && (rollback_requested_of s
      || opt_forallb (fun at_ms => at_ms <=? now)%Z (r ← record_of s; rec_expires_at_ms r)).

(* [transaction/machine/step/atomic.rs:932-935] Step::expire_atomic *)
Definition expire_atomic (lane : WorkLane.work_lane) : M unit :=
  close lane Phase.Expired (Some (error_reply Code.Unavailable)).

(** [if self.atomic_expired() { return self.expire_atomic(lane); }]. *)
(* [transaction/machine/step/atomic.rs:1159-1161]! Step::atomic_query *)
Definition unless_expired (lane : WorkLane.work_lane) (k : M unit) : M unit :=
  expired ← gets atomic_expired;
  if (expired : bool) then expire_atomic lane else k.

(** The tasks a timer marks for expiry. *)
(* [transaction/machine/step/atomic.rs:916-921]! Step::atomic_timer *)
Definition atomic_timer_defers (t : task) : bool :=
  match t with
  | Task.AtomicPersist | Task.AtomicTimer | Task.AtomicLookup | Task.AtomicExecute
  | Task.AtomicCommitBinding | Task.AtomicInsert => true
  | _ => false
  end.

(* [transaction/machine/step/atomic.rs:896-930] Step::atomic_timer *)
Definition atomic_timer (due : bool) : M unit :=
  if negb due then mret tt
  else
    s ← get;
    if work_is is_validator (work_of s) || has_deferred s then expire_validating
    else
      match task_of s with
      | None => close WorkLane.Background Phase.Expired None
      | Some t => if atomic_timer_defers t then volatile_mut (set_v_rollback true) else mret tt
      end.

(** [serde_json::to_value(&binding)]. *)
Definition value_of_binding (b : Binding) : value :=
  Value.object [("version", Value.u64 (version b)); ("scope", jstr (scope b));
                ("databaseId", jstr (database_id b)); ("generation", jstr (generation b));
                ("snapshot", jstr (bind_snapshot b))].

Definition or_identity {A} (r : result A) : M A :=
  or_fault "identity" (match r with inl a => Some a | inr _ => None end).

(* [transaction/machine/step/atomic.rs:1115-1155] Step::atomic_record *)
Definition atomic_record : M TxRecord :=
  a ← atomic_run;
  auth ← or_fault "auth" (parse (run_auth a));
  binding_json ← or_fault "binding" (to_json (value_of_binding (run_binding a)));
  auth_fp ← or_identity (identity_auth_fingerprint auth binding_json);
  replay_fp ← or_identity (replay_identity auth binding_json);
  mret
    {| rec_owner := owner; rec_kind := Kind.Atomic; rec_phase := Phase.Active;
       identity :=
         {| auth_fingerprint := auth_fp; replay := replay_fp;
            start_fingerprint :=
              match idempotency a with
              | Some i => fingerprint i
              | None => sha256_hex (transaction_id a)
              end;
            mode := Mode.Write |};
       binding := run_binding a; rec_snapshot := bind_snapshot (run_binding a);
       rec_expires_at_ms := run_expires_at_ms a; next_sequence := 1; last := None;
       counters := counters_default; mutations := []; versions := None;
       rec_atomic := Some {| ids_transaction_id := transaction_id a;
                             ids_key_hash := key_hash <$> idempotency a |} |}.

(* [transaction/machine/step/atomic.rs:1185-1208] Step::atomic_execute *)
Definition atomic_execute (lane : WorkLane.work_lane) (request : string) : M unit :=
  a ← atomic_run;
  cs ← gets compiler;
  match driver_statements cs (run_handle a) with
  | inr _ => fault "plan"
  | inl sts =>
      calls ← driver_calls sts;
      match raw_result_bound_of cs (run_handle a) with
      | inr _ => fault "plan"
      | inl cap =>
          wait lane (Some request) Task.AtomicExecute
            (fun id => Effect.Execute id calls (trace a) cap)
      end
  end.

(* [transaction/machine/step/atomic.rs:1157-1183] Step::atomic_query *)
Definition atomic_query (lane : WorkLane.work_lane) (request : string) : M unit :=
  unless_expired lane
    (a ← atomic_run;
     match idempotency a with
     | Some i =>
         wait lane (Some request) Task.AtomicLookup (fun id =>
           Effect.Execute id
             [{| call_sql := LOOKUP_SQL; call_args := [("key_hash", jstr (key_hash i))] |}]
             None LOOKUP_BYTES)
     | None => atomic_execute lane request
     end).

(* [transaction/machine/step/atomic.rs:1210-1255] Step::lookup_returned *)
Definition lookup_returned (lane : WorkLane.work_lane) (request : string)
    (rs : list DriverResult) : M unit :=
  set_connection Connection.Open;;
  unless_expired lane
    match rs with
    | [result] =>
        match dr_rows result with
        | [] => atomic_execute lane request
        | [row] =>
            a ← atomic_run;
            if negb (bool_decide
                 ((cell ← head row; Value.as_str cell) = (fingerprint <$> idempotency a)))
            then close_failed lane Code.IdempotencyConflict
            else
              match (cell ← row !! 1%nat; stored ← Value.as_str cell;
                     stored_reply a stored request) with
              | None => close_failed lane Code.Internal
              | Some reply =>
                  set_connection Connection.Closing;;
                  wait lane (Some request) (Task.AtomicReplay reply) Effect.Rollback
              end
        | _ => close_failed lane Code.Internal
        end
    | _ => close_failed lane Code.Internal
    end.

(* [transaction/machine/step/atomic.rs:1490-1510] Step::terminal_text *)
Definition terminal_text : M string :=
  a ← atomic_run;
  results ← or_fault "atomic_results" (results a);
  u ← or_fault "atomic_usage" (run_usage a);
  mret (to_string (terminal_doc a results u)).

(* [transaction/machine/step/atomic.rs:1543-1552] Step::atomic_commit *)
Definition atomic_commit (lane : WorkLane.work_lane) (request : string) : M unit :=
  unless_expired lane
    (set_connection Connection.Closing;;
     wait lane (Some request) Task.AtomicCommit Effect.Commit).

(* [transaction/machine/step/atomic.rs:1512-1541] Step::insert_or_commit *)
Definition insert_or_commit (lane : WorkLane.work_lane) (request : string) : M unit :=
  unless_expired lane
    (a ← atomic_run;
     match idempotency a with
     | None => atomic_commit lane request
     | Some i =>
         text ← terminal_text;
         wait lane (Some request) Task.AtomicInsert (fun id =>
           Effect.Execute id
             [{| call_sql := INSERT_SQL;
                 call_args := [("fingerprint", jstr (fingerprint i));
                               ("key_hash", jstr (key_hash i));
                               ("response_json", jstr text)] |}]
             None NO_RESULT_BYTES)
     end).

(* [transaction/machine/step/atomic.rs:1463-1474] Step::triggered_atomic *)
Definition triggered_atomic (s : St) : list TriggeredCheck :=
  match atomic_of s with
  | None => []
  | Some a => sorted_checks s (map mut_resource (run_mutations a))
  end.

(** The raw result of a statement: a mutation with columns reports its rows. *)
(* [transaction/machine/step/atomic.rs:1338-1348]! Step::atomic_executed *)
Definition raw_result_of (op : operation) (result : DriverResult) : RawResult :=
  {| raw_columns := dr_columns result; raw_rows := dr_rows result;
     raw_affected_rows :=
       if negb (bool_decide (op = Operation.Select)) && negb (bool_decide (dr_columns result = []))
       then Z.of_nat (length (dr_rows result)) else dr_rows_affected result |}.

(** What a validated statement leaves of the envelope's budgets. *)
(* [transaction/machine/step/atomic.rs:1350-1357]! Step::atomic_executed *)
Definition budget_left (left : ResultBudget) (result : Validated) : ResultBudget :=
  {| budget_raw_bytes := sat_sub (budget_raw_bytes left) (val_raw_bytes result);
     budget_values := sat_sub (budget_values left) (val_values result);
     budget_result_bytes := sat_sub (budget_result_bytes left) (rows_bytes result) |}.

(** Validates the results in order, each within what the earlier ones left;
    [None] when a failure already closed the execution. *)
(* [transaction/machine/step/atomic.rs:1334-1363]! Step::atomic_executed *)
Fixpoint validate_all (lane : WorkLane.work_lane) (h index : Z)
    (l : list (DriverResult * AtomicStatement)) (left : ResultBudget)
    : M (option (list Validated)) :=
  match l with
  | [] => mret (Some [])
  | (result, st) :: l' =>
      match codec_failure result with
      | Some c => close_failed lane c;; mret None
      | None =>
          cs ← gets compiler;
          match validate cs h index (raw_result_of (ast_operation st) result) left with
          | inr e =>
              log_core_error e;;
              close lane Phase.Failed (Some (core_error_reply e));;
              mret None
          | inl result =>
              rest ← validate_all lane h (index + 1) l' (budget_left left result);
              mret (cons result <$> rest)
          end
      end
  end.

(* [transaction/machine/step/atomic.rs:1413-1416]! Step::atomic_executed *)
Definition record_progress (shaped : string) (u : AtomicUsage) (ms : list Mutation)
    (a : AtomicRun) : AtomicRun :=
  {| placement := placement a; transaction_id := transaction_id a;
     run_request_id := run_request_id a; run_auth := run_auth a; run_role := run_role a;
     run_binding := run_binding a; run_handle := run_handle a;
     run_statements := run_statements a; run_versions := run_versions a;
     idempotency := idempotency a; started_at_ms := started_at_ms a;
     run_expires_at_ms := run_expires_at_ms a; debug := debug a; trace := trace a;
     results := Some shaped; run_usage := Some u; run_mutations := ms;
     checks_passed := checks_passed a |}.

(** The envelope is within its limits: run the commit checks, or go on. *)
(* [transaction/machine/step/atomic.rs:1429-1462]! Step::atomic_executed *)
Definition atomic_progress (lane : WorkLane.work_lane) (request : string) : M unit :=
  a ← atomic_run;
  if bool_decide (placement a = Placement.Direct) then insert_or_commit lane request
  else
    checks ← gets triggered_atomic;
    if bool_decide (checks = []) then atomic_commit_binding lane request
    else
      match List.find (fun c => negb (str_in (check_id c) (configured_checks host))) checks with
      | Some missing =>
          log (Value.object [("event", jstr "commit_check_unconfigured");
                             ("requestId", jstr request); ("check", jstr (check_id missing))]);;
          close_failed lane Code.CheckRejected
      | None =>
          issue lane (Some request)
            {| cc_sequence := 0; cc_digest := ""; cc_auth := run_auth a; cc_checks := checks;
               cc_index := 0 |}
      end.

(** Records the tally, measures the whole response, and goes on. *)
(* [transaction/machine/step/atomic.rs:1377-1428]! Step::atomic_executed *)
Definition atomic_measured (lane : WorkLane.work_lane) (request : string) (t : Tally) : M unit :=
  if negb (F64.is_finite (ta_duration t)) || negb (F64.leb F64.zero (ta_duration t))
  then close_failed lane Code.Internal
  else
    let shaped := raw ("[" ++ String.concat "," (ta_shaped t) ++ "]")%string in
    let u := ta_usage t in
    let u := {| rows_returned := rows_returned u; rows_affected := rows_affected u;
                au_rows_read := au_rows_read u; au_rows_written := au_rows_written u;
                au_query_duration_ms := round_ms (ta_duration t) |} in
    a ← atomic_run;
    let a := record_progress shaped u (ta_mutations t) a in
    with_volatile (set_v_atomic (Some a));;
    let measured := sat_add64 (len (atomic_response a shaped)) RESPONSE_RESERVE_BYTES in
    if (max_response_bytes limits <? measured)%Z then close_failed lane Code.LimitExceeded
    else atomic_progress lane request.

(** The cumulative limits of a validated envelope. *)
(* [transaction/machine/step/atomic.rs:1364-1376]! Step::atomic_executed *)
Definition atomic_over_limit (a : AtomicRun) (validated : list Validated) : option code :=
  let sts := run_statements a in
  let rows := foldr Z.add 0 (map (fun v => Z.of_nat (length (val_rows v))) validated) in
  let bytes := foldr Z.add 0 (map rows_bytes validated) in
  if (strictest sts max_rows <? rows)%Z || (strictest sts max_result_bytes <? bytes)%Z
  then Some Code.LimitExceeded
  else if (strictest sts timeout_ms <? sat_sub now (started_at_ms a))%Z then Some Code.Timeout
  else None.

(* [transaction/machine/step/atomic.rs:1306-1463]! Step::atomic_executed *)
Definition atomic_executed (lane : WorkLane.work_lane) (request : string)
    (rs : list DriverResult) : M unit :=
  set_connection Connection.Open;;
  unless_expired lane
    (a ← atomic_run;
     let sts := run_statements a in
     if negb (length rs =? length sts)%nat then close_failed lane Code.Internal
     else
       cs ← gets compiler;
       match raw_result_bound_of cs (run_handle a) with
       | inr _ => fault "plan"
       | inl raw_bytes =>
           validated ← validate_all lane (run_handle a) 0 (zip rs sts)
             {| budget_raw_bytes := raw_bytes; budget_values := max_json_values limits;
                budget_result_bytes := strictest sts max_result_bytes |};
           match validated with
           | None => mret tt
           | Some validated =>
               match atomic_over_limit a validated with
               | Some c => close_failed lane c
               | None =>
                   t ← lift (tally 0 (zip (zip validated sts) rs) tally_start);
                   atomic_measured lane request t
               end
           end
       end).

(* [transaction/machine/step/atomic.rs:1557-1562]! Step::observe_effect *)
Fixpoint observe_calls (l : list (AtomicStatement * DriverStatement)) : M (list DriverCall) :=
  match l with
  | [] => mret []
  | (st, driver) :: l' =>
      if bool_decide (ast_operation st = Operation.Insert) then observe_calls l'
      else
        call ← driver_call (cost_sql driver) driver;
        calls ← observe_calls l';
        mret (call :: calls)
  end.

(* [transaction/machine/step/atomic.rs:1554-1580] Step::observe_effect *)
Definition observe_effect (a : AtomicRun) : M effect :=
  cs ← gets compiler;
  let drivers := match driver_statements cs (run_handle a) with inl l => l | inr _ => [] end in
  let cap := match raw_result_bound_of cs (run_handle a) with inl n => n | inr _ => 0 end in
  calls ← observe_calls (zip (run_statements a) drivers);
  mret (Effect.Observe calls
    {| obs_request_id := run_request_id a; obs_binding := run_binding a;
       obs_statements := map (fun st =>
         {| obs_operation := Operation.operation_as_str (ast_operation st);
            obs_resource := ast_resource st;
            obs_explain_resource := ast_explain_resource st |}) (run_statements a) |} cap).

(* [transaction/machine/step/atomic.rs:1582-1586] Step::observe_atomic *)
Definition observe_atomic : M unit := a ← atomic_run; e ← observe_effect a; push e.

(* [transaction/machine/step/atomic.rs:1588-1627] Step::atomic_committed *)
Definition atomic_committed (lane : WorkLane.work_lane) (request : string) : M unit :=
  set_connection Connection.None;;
  a ← atomic_run;
  with_volatile (set_v_atomic None);;
  results ← or_fault "atomic_results" (results a);
  let reply := value_reply (atomic_response a results) in
  e ← observe_effect a;
  push e;;
  release (run_handle a);;
  if bool_decide (placement a = Placement.Direct) then respond reply;; clear_work
  else
    let unrecorded := raw_log (Value.object
      [("event", jstr "transaction_terminal_unrecorded");
       ("transactionId", jstr (transaction_id a)); ("requestId", jstr request)]) in
    set_phase Phase.Committed;;
    wait lane (Some request)
      (Task.Reply (Some reply) (Some reply) [] [unrecorded] false None) Effect.Persist.
End outcomes.
