(* ===== verification/Run.v ===== *)
(** * One step of the machine

    [machine/step.rs] and [machine/step/atomic.rs]: the dispatch of an event,
    the checks of the output, and [run], the whole step from the texts of the
    two states, the event and the host facts to the next texts and the batch of
    effects. *)

From S2P Require Import Prelude F64 SerdeJson Compiler State Volatile Io Canonical Bounds.
From S2P Require Import Identity Machine Checks Commands Interactive.
From S2P Require Import Interactive Atomic Execution.

(* [transaction/machine/mod.rs:107-117] Output *)
Record Output := {
  out_durable : option string;
  out_volatile : option string;
  out_effects : list effect
}.

(** The generated readers of the events and of the host facts. *)
Class EventSerde := {
  read_host : string -> option HostFacts;
  read_event : string -> option event
}.

Section run.
Context `{Target} `{Serde} `{StateSerde} `{Sha2} `{Compiler} `{AtomicSerde} `{Unicode}.

Section step.
Context `{Env}.

#[local] Abbreviation now := (now_ms host).
#[local] Abbreviation owner := this_owner.

(** [AtomicReplay] answered: the replayed reply, on either placement. *)
(* [transaction/machine/step/atomic.rs:1077-1110]! Step::atomic_outcome *)
Definition replay_done (lane : WorkLane.work_lane) (request reply : string) : M unit :=
  on_own ← gets atomic_on_owner;
  (if (on_own : bool) then mret tt else observe_atomic);;
  set_connection Connection.None;;
  release_all;;
  with_volatile (set_v_atomic None);;
  if negb on_own then respond reply;; clear_work
  else
    set_phase Phase.Committed;;
    wait lane (Some request) (plain_reply (Some reply) (Some (error_reply Code.Internal)))
      Effect.Persist.

(** A database effect of the execution failed. *)
(* [transaction/machine/step/atomic.rs:1012-1040]! Step::atomic_outcome *)
Definition atomic_failed (lane : WorkLane.work_lane) (t : task) (class : Class.class)
    (statement : option Z) (database_code cause : option string) : M unit :=
  set_connection Connection.Open;;
  unless_expired lane
    (a ← gets atomic_of;
     let later_write := opt_existsb (fun a => has_later_write (run_statements a)) a in
     reply ← execute_failed_reply (execute_failure t class later_write) class
               {| fd_statement := statement; fd_database_code := database_code;
                  fd_cause := cause; fd_versions := run_versions <$> a |};
     close lane Phase.Failed (Some reply)).

(* [transaction/machine/step/atomic.rs:937-1113] Step::atomic_outcome *)
Definition atomic_outcome (lane : WorkLane.work_lane) (request_id : option string) (t : task)
    (e : event) : M unit :=
  let request := request_or_host request_id in
  match t, e with
  | Task.RequestBinding operation, Event.BindingChecked _ true =>
      request_checked request_id operation
  | Task.AtomicBinding input, Event.BindingChecked _ true =>
      atomic_input_checked request_id input
  | (Task.RequestBinding _ | Task.AtomicBinding _), Event.BindingChecked _ false =>
      abort (error_reply Code.BindingRejected)
  | (Task.RequestBinding _ | Task.AtomicBinding _), Event.BindingCheckFailed _ class =>
      abort (error_reply (Code.for_class class))
  | Task.AtomicForward, Event.OwnerReplied _ reply => owner_replied reply
  | Task.AtomicForward, Event.ForwardFailed _ _ => abort (error_reply Code.Internal)
  | Task.AtomicOpen, Event.Opened _ =>
      set_connection Connection.Open;;
      on_own ← gets atomic_on_owner;
      if negb on_own then atomic_query lane request
      else
        r ← atomic_record;
        modify (set_durable (Some (Durable.Live r)));;
        wait lane (Some request) Task.AtomicPersist Effect.Persist
  | Task.AtomicOpen, Event.OpenFailed _ class => abort (error_reply (Code.for_class class))
  | Task.AtomicPersist, Event.Persisted _ =>
      s ← get;
      at_ms ← or_fault "atomic_record" (r ← record_of s; rec_expires_at_ms r);
      wait lane (Some request) Task.AtomicTimer (fun id => Effect.SetTimer id at_ms)
  | Task.AtomicPersist, Event.PersistFailed _ | Task.AtomicTimer, Event.TimerFailed _ =>
      close_failed lane Code.Internal
  | Task.AtomicTimer, Event.TimerSet _ => atomic_query lane request
  | Task.AtomicLookup, Event.Executed _ rs => lookup_returned lane request rs
  | Task.AtomicExecute, Event.Executed _ rs => atomic_executed lane request rs
  | (Task.AtomicLookup | Task.AtomicExecute | Task.AtomicInsert),
    Event.ExecuteFailed _ class statement database_code cause =>
      atomic_failed lane t class statement database_code cause
  | Task.AtomicCommitBinding, Event.BindingChecked _ true =>
      s ← get;
      if negb (opt_existsb (fun r => String.eqb (rec_snapshot r) (snapshot_of (compiler s)))
                 (record_of s))
      then close_failed lane Code.Unavailable
      else insert_or_commit lane request
  | Task.AtomicCommitBinding, Event.BindingChecked _ false =>
      close_failed lane Code.BindingRejected
  | Task.AtomicCommitBinding, Event.BindingCheckFailed _ class =>
      close_failed lane (Code.for_class class)
  | Task.AtomicInsert, Event.Executed _ _ =>
      set_connection Connection.Open;; atomic_commit lane request
  | Task.AtomicCommit, Event.Committed _ => atomic_committed lane request
  | Task.AtomicCommit, Event.CommitFailed _ class =>
      set_connection Connection.Open;; close_failed lane (commit_failure class)
  | Task.AtomicReplay reply, (Event.RolledBack _ | Event.RollbackFailed _ _) =>
      replay_done lane request reply
  | _, _ => fault "unexpected_atomic_outcome"
  end.

(* [transaction/machine/step.rs:2507-2524] is_atomic_task *)
Definition is_atomic_task (t : task) : bool :=
  match t with
  | Task.RequestBinding _ | Task.AtomicForward | Task.AtomicBinding _ | Task.AtomicOpen
  | Task.AtomicPersist | Task.AtomicTimer | Task.AtomicLookup | Task.AtomicExecute
  | Task.AtomicCommitBinding | Task.AtomicInsert | Task.AtomicCommit | Task.AtomicReplay _ => true
  | _ => false
  end.

(* [transaction/machine/step.rs:1540-1590] Step::timer *)
Definition timer : M unit :=
  s ← get;
  match record_of s with
  | None => mret tt
  | Some r =>
      let due := opt_existsb (fun at_ms => at_ms <=? now)%Z (rec_expires_at_ms r) in
      if bool_decide (rec_kind r = Kind.Atomic)
      then atomic_timer (due && bool_decide (rec_phase r = Phase.Active))
      else if negb due || negb (bool_decide (rec_phase r ∈ [Phase.Active; Phase.Validating]))
      then mret tt
      else timer_due (rec_phase r)
  end.

(* [transaction/machine/step.rs:1594-1613] Step::forwarded *)
Definition forwarded (input : value) : M unit :=
  match Value.get_str "kind" input with
  | Some kind =>
      if String.eqb kind "begin" then begin input
      else if str_in kind ["statement"; "commit"; "rollback"] then command kind input
      else if String.eqb kind "callbackQuery" then callback_query input
      else if String.eqb kind "atomic" then atomic_input input
      else reply_code Code.Invalid
  | None => reply_code Code.Invalid
  end.

(* [transaction/machine/step.rs:838-867] Step::stale *)
Definition stale (e : event) : M unit :=
  s ← get;
  let idle := opt_forallb (fun vol => bool_decide (pending vol = None)) (volatile_of s) in
  let terminal := match durable_of s with
                  | Some d => Phase.is_terminal (durable_phase d)
                  | None => idle
                  end in
  let validator := match e with
                   | Event.ValidatorReplied _ _ _ | Event.ValidatorFailed _ _ => true
                   | _ => false
                   end in
  let revoked :=
    validator && bool_decide ((vol ← volatile_of s; revoked_validator vol) = Event.outcome_id e) in
  if terminal || revoked then
    log (Value.object [("event", jstr "tx_outcome_ignored"); ("transactionId", jstr owner);
                       ("id", Value.of_option Value.u64 (Event.outcome_id e))])
  else fault "outcome_not_pending".

(* [transaction/machine/step.rs:806-807]! Step::outcome *)
Definition pending_is (id : Z) (expected : Awaited.awaited) (p : option Pending) : bool :=
  opt_existsb (fun p => (pend_id p =? id)%Z && bool_decide (pend_effect p = expected)) p.

(* [transaction/machine/step.rs:803-836] Step::outcome *)
Definition outcome (e : event) : M unit :=
  id ← or_fault "not_outcome" (Event.outcome_id e);
  expected ← or_fault "not_outcome" (Event.answers e);
  s ← get;
  if negb (pending_is id expected (vol ← volatile_of s; pending vol)) then
    if pending_is id expected (cb ← (vol ← volatile_of s; callback vol); Some (cb_pending cb))
    then callback_outcome e
    else stale e
  else
    with_volatile (set_v_pending None);;
    w ← or_fault "no_work" (work_of s);
    with_volatile (set_v_work None);;
    modify (set_request (work_request_id w));;
    r ← attempt
      ((if is_atomic_task (work_task w) then atomic_outcome else consume)
         (work_lane w) (work_request_id w) (work_task w) e);
    with_volatile (fun vol =>
      if bool_decide (pending vol = None) then set_v_work None vol else vol);;
    lift r.

(* [transaction/machine/step.rs:492-509] Step::dispatch *)
Definition dispatch (e : event) : M unit :=
  match e with
  | Event.Abandon => abandon
  | Event.Request operation => request_event operation
  | Event.Forwarded input => if on_owner then forwarded input else reply_code Code.Internal
  | Event.TimerFired => if on_owner then timer else mret tt
  | _ => outcome e
  end.

(** The batch rule: at most one awaited effect, and it is the last. *)
(* [transaction/machine/step.rs:242-250]! Step::check_output *)
Definition batch_rule (l : list effect) : bool :=
  let awaited := length (List.filter Effect.is_awaited l) in
  let last_awaited := opt_existsb Effect.is_awaited (list.last l) in
  negb ((1 <? awaited)%nat || ((awaited =? 1)%nat && negb last_awaited)).

Definition pending_id (s : St) : option Z := vol ← volatile_of s; pend_id <$> pending vol.
Definition callback_id (s : St) : option Z :=
  vol ← volatile_of s; (fun cb => pend_id (cb_pending cb)) <$> callback vol.

(** The awaited effect is the one a lane waits for, except [Abandon]'s. *)
(* [transaction/machine/step.rs:251-269]! Step::check_output *)
Definition pending_rule (s : St) : bool :=
  match List.find Effect.is_awaited (effects s) with
  | Some e =>
      (abandoned s && bool_decide (volatile_of s = None))
      || bool_decide (pending_id s = Effect.effect_id e)
      || bool_decide (callback_id s = Effect.effect_id e)
  | None => true
  end.

(* [transaction/machine/step.rs:223-276] Step::check_output *)
Definition check_output (s : St) : option Fault :=
  if reset s then None
  else if opt_existsb (fun d => MAX_DURABLE_BYTES <? len (durable_to_json d))%Z (durable_of s)
  then Some "durable_bound"%string
  else if opt_existsb (fun vol => (max_volatile_bytes limits <? len (volatile_to_json vol))%Z
                                  || negb (volatile_consistent vol)) (volatile_of s)
  then Some "volatile_bound"%string
  else if negb (batch_rule (effects s)) then Some "batch_rule"%string
  else if negb (pending_rule s) then Some "pending_mismatch"%string
  else if opt_existsb (fun r => negb (record_consistent r)) (record_of s)
  then Some "durable_inconsistent"%string
  else None.

(* [transaction/machine/step.rs:185-185]! Step::run_dispatch *)
Definition checked_dispatch (e : event) : M unit :=
  dispatch e;;
  s ← get;
  match check_output s with Some f => fault f | None => mret tt end.

(** The state a step starts from. *)
(* [transaction/machine/step.rs:78-90]! run *)
Definition start (cs : CS) (d : option durable) (vol : option Volatile) : St :=
  {| compiler := cs; durable_of := d; volatile_of := vol; effects := []; reset := false;
     request_of := None; allocated := []; abandoned := false |}.

(** A fault restores the state the step started from, except the compiler, from whose
    table the handles compiled in this step are released. *)
(* [transaction/machine/step.rs:181-196] Step::run_dispatch *)
Definition run_dispatch (e : event) (s : St) : St :=
  match checked_dispatch e s with
  | (inl _, s') => s'
  | (inr reason, s') =>
      let restored :=
        {| compiler := foldl release_handle (compiler s') (allocated s');
           durable_of := durable_of s; volatile_of := volatile_of s; effects := [];
           reset := false; request_of := request_of s'; allocated := [];
           abandoned := abandoned s' |} in
      snd (fail_closed reason e false restored)
  end.

(** The state [finish_output] prints. *)
(* [transaction/machine/step.rs:203-221] Step::finish_output *)
Definition finish_output (s : St) : CS * Output :=
  if reset s then
    let s := snd (release_all s) in
    (compiler s, {| out_durable := None; out_volatile := None;
                    out_effects := effects s ++ [Effect.Reset] |})
  else
    let vol := match volatile_of s with
               | Some vol => if is_idle vol then None else Some vol
               | None => None
               end in
    (compiler s, {| out_durable := durable_to_json <$> durable_of s;
                    out_volatile := volatile_to_json <$> vol;
                    out_effects := effects s |}).

(** A stored record as read. *)
(* [transaction/machine/step.rs:37-42]! Stored *)
Inductive stored := Absent | Unreadable (reason : Unreadable.unreadable) | Readable (d : durable).

Definition stored_durable (st : stored) : option durable :=
  match st with Readable d => Some d | _ => None end.

(** The volatile text as read: absent, invalid, or a value. *)
Inductive volatile_read := NoVolatile | InvalidVolatile (text : string) | ReadVolatile (vol : Volatile).

(* [transaction/machine/step.rs:91-91]! run *)
Definition is_atomic_input (e : event) : bool :=
  match e with
  | Event.Forwarded input => bool_decide (Value.get_str "kind" input = Some "atomic"%string)
  | _ => false
  end.

(** The step on states already read. *)
(* [transaction/machine/step.rs:78-131]! run *)
Definition run_read (cs : CS) (st : stored) (vol : volatile_read) (e : event) : St :=
  match st, vol with
  | Unreadable reason, NoVolatile =>
      if is_atomic_input e then
        run_dispatch e (snd (log (Value.object
          [("event", jstr "tx_state_discarded"); ("transactionId", jstr owner);
           ("reason", jstr (Unreadable.unreadable_as_str reason))]) (start cs None None)))
      else snd (discard reason e (start cs None None))
  | Unreadable reason, InvalidVolatile _ => snd (discard reason e (start cs None None))
  | Unreadable reason, ReadVolatile vol => snd (discard reason e (start cs None (Some vol)))
  | st, InvalidVolatile text =>
      let cs := foldl release_handle cs
                  (readable_handles text (Io.owner host) (max_volatile_bytes limits)) in
      snd (fail_closed "volatile_invalid" e true (start cs (stored_durable st) None))
  | st, NoVolatile => run_dispatch e (start cs (stored_durable st) None)
  | st, ReadVolatile vol => run_dispatch e (start cs (stored_durable st) (Some vol))
  end.
End step.

Context `{EventSerde}.

(* [transaction/machine/step.rs:68-74]! run *)
Definition read_stored_durable (durable : option string) (owner : string) : stored :=
  match durable with
  | None => Absent
  | Some text => match durable_parse text owner with
                 | inl d => Readable d
                 | inr reason => Unreadable reason
                 end
  end.

(* [transaction/machine/step.rs:75-77]! run *)
Definition read_stored_volatile (l : Limits) (volatile owner : option string) : volatile_read :=
  match volatile with
  | None => NoVolatile
  | Some text => match volatile_parse text owner (max_volatile_bytes l) with
                 | Some vol => ReadVolatile vol
                 | None => InvalidVolatile text
                 end
  end.

(* [transaction/machine/step.rs:45-133] run *)
Definition run (cs : CS) (l : Limits) (durable volatile : option string) (event host : string)
    : option (CS * Output) :=
  h ← read_host host;
  if negb (host_valid h) then None
  else if bool_decide (Io.owner h = None) && bool_decide (is_Some durable) then None
  else if (max_event_bytes l <? len event)%Z then None
  else
    e ← read_event event;
    let env := {| limits := l; Machine.host := h |} in
    let st := read_stored_durable durable (default EmptyString (Io.owner h)) in
    let vol := read_stored_volatile l volatile (Io.owner h) in
    Some (finish_output (run_read cs st vol e)).
End run.
