(* ===== verification/Values.v ===== *)
(** * Values between JSON and the program

    The conversions of the crate [policysql-wasm] (lib.rs) between JSON and logical values: the
    parameters of a client, the cells of a database result, their public and their driver form,
    the constraints and schemas as JSON, and the placeholders of explain. *)

From S2P Require Import Prelude Result F64 Utf8 Core Bytes Plan Complexity Gateway SerdeJson.

(** The readers of serde_json that [Serde] has not: a [Number] from its text. *)
Class SerdeNumber := { number_from_str : string -> option number }.

Module RuntimeError.
(* [wasm/lib.rs:1735-1757] RuntimeError *)
Inductive runtime_error :=
| Session
| Access
| Snapshot
| Envelope
| EnvelopeAt (index : nat)
| RequestTooLarge
| SqlTooLargeAt (index : nat)
| Rejected (kind : RejectionKind.rejection_kind)
| RejectedAt (kind : RejectionKind.rejection_kind) (index : nat)
| TooComplexAt (cause : ComplexityCause.complexity_cause) (index : nat)
| EmittedSqlInvalidAt (index : nat)
| Internal
| Busy
| RemoteResult
| RemoteResultAt (index : nat).
End RuntimeError.
Abbreviation RuntimeError := RuntimeError.runtime_error.

(** [Result<A, RuntimeError>]. *)
Abbreviation runtime_result := (result RuntimeError).
Definition rejected {A} (kind : RejectionKind.rejection_kind) : runtime_result A :=
  throw (RuntimeError.Rejected kind).

(* [wasm/lib.rs:1760-1767] RuntimeError::at_statement *)
Definition at_statement (e : RuntimeError) (index : nat) : RuntimeError :=
  match e with
  | RuntimeError.Envelope => RuntimeError.EnvelopeAt index
  | RuntimeError.Rejected kind => RuntimeError.RejectedAt kind index
  | RuntimeError.RemoteResult => RuntimeError.RemoteResultAt index
  | other => other
  end.

(** ** Names *)

(* [wasm/lib.rs:2775-2782] operation *)
Definition operation_name (value : OperationKind.operation_kind) : string :=
  match value with
  | OperationKind.Select => "select"
  | OperationKind.Insert => "insert"
  | OperationKind.Update => "update"
  | OperationKind.Delete => "delete"
  end.

(* [wasm/lib.rs:2784-2797] logical_type_name *)
Definition logical_type_name (value : LogicalType) : string :=
  match value with
  | LogicalType.String => "string"
  | LogicalType.Integer => "integer"
  | LogicalType.Boolean => "boolean"
  | LogicalType.Int64 => "int64"
  | LogicalType.Number => "number"
  | LogicalType.Bytes => "bytes"
  | LogicalType.Date => "date"
  | LogicalType.DateTime => "datetime"
  | LogicalType.Instant => "instant"
  | LogicalType.Json => "json"
  end.

(* [wasm/lib.rs:2799-2810] logical_types_json *)
Definition logical_types_json (values : list LogicalType) : value :=
  match values with
  | [value] => Value.String (logical_type_name value)
  | _ => Value.Array (map (fun value => Value.String (logical_type_name value)) values)
  end.

(* [wasm/lib.rs:2812-2820] representation_name *)
Definition representation_name (value : ValueRepresentation.value_representation) : string :=
  match value with
  | ValueRepresentation.String => "string"
  | ValueRepresentation.Boolean => "boolean"
  | ValueRepresentation.Number => "number"
  | ValueRepresentation.Base64 => "base64"
  | ValueRepresentation.Json => "json"
  end.

(* [wasm/lib.rs:2822-2829] catalog_representation_name *)
Definition catalog_representation_name (value : ValueRepresentation.value_representation)
    : string :=
  match value with
  | ValueRepresentation.String | ValueRepresentation.Base64 => "string"
  | ValueRepresentation.Boolean => "boolean"
  | ValueRepresentation.Number => "number"
  | ValueRepresentation.Json => "object"
  end.

(** ** Constraints and schemas as JSON *)

(** [Number::as_i64], and [Number::from] of an [i64]. *)
Definition as_i64 (n : number) : option Z :=
  match n with
  | Number.PosInt n => if (n <=? 2 ^ 63 - 1)%Z then Some n else None
  | Number.NegInt n => Some n
  | Number.Float _ => None
  end.
Definition number_of_i64 (n : Z) : number :=
  if (0 <=? n)%Z then Number.PosInt n else Number.NegInt n.

Definition member {A} (key : string) (f : A -> value) (o : option A) : list (string * value) :=
  match o with Some a => [(key, f a)] | None => [] end.

Section constraints.
Context `{SerdeNumber}.

(* [wasm/lib.rs:1484-1490]! constraints_json *)
Definition scalar_json (scalar : ConstraintScalar.constraint_scalar) : value :=
  match scalar with
  | ConstraintScalar.String text => Value.String text
  | ConstraintScalar.Boolean b => Value.Bool b
  | ConstraintScalar.Number spelling =>
      match number_from_str spelling with Some n => Value.Number n | None => Value.Null end
  end.

(* [wasm/lib.rs:1474-1516] constraints_json *)
Definition constraints_json (constraints : option ValueConstraints) : option value :=
  constraints ← constraints;
  Some (Value.object
    (match allowed constraints with
     | [] => []
     | allowed => [("enum"%string, Value.Array (map scalar_json allowed))]
     end
     ++ member "minimum" Value.Number (minimum constraints ≫= number_from_str)
     ++ member "maximum" Value.Number (maximum constraints ≫= number_from_str)
     ++ member "minLength" Value.u64 (min_length constraints)
     ++ member "maxLength" Value.u64 (max_length constraints)
     ++ member "pattern" Value.String (Core.pattern constraints))).
End constraints.

(* [wasm/lib.rs:1525-1533]! json_schema_json *)
Definition schema_type_name (value : JsonSchemaType.json_schema_type) : string :=
  match value with
  | JsonSchemaType.Null => "null"
  | JsonSchemaType.Boolean => "boolean"
  | JsonSchemaType.Integer => "integer"
  | JsonSchemaType.Number => "number"
  | JsonSchemaType.String => "string"
  | JsonSchemaType.Array => "array"
  | JsonSchemaType.Object => "object"
  end.

(* [wasm/lib.rs:1518-1582] json_schema_json *)
Fixpoint json_schema_json (schema : JsonValueSchema) : value :=
  Value.object
    (match map (fun t => Value.String (schema_type_name t)) (js_types schema) with
     | [] => []
     | [name] => [("type"%string, name)]
     | names => [("type"%string, Value.Array names)]
     end
     ++ match js_properties schema with
        | [] => []
        | properties =>
            [("properties"%string,
              Value.object (map (fun '(name, property) => (name, json_schema_json property)) properties))]
        end
     ++ member "items" json_schema_json (js_items schema)
     ++ match js_required schema with
        | [] => []
        | required => [("required"%string, Value.Array (map Value.String required))]
        end
     ++ [("additionalProperties"%string, Value.Bool (js_additional_properties schema))]
     ++ match js_any_of schema with
        | [] => []
        | any_of => [("anyOf"%string, Value.Array (map json_schema_json any_of))]
        end).

(** ** Parameters *)

Section values.
Context `{Base64}.

(** [serde_json::json!({"type": "blob", "base64": text})]. *)
Definition blob_object (text : string) : value :=
  Value.object [("type"%string, Value.String "blob"); ("base64"%string, Value.String text)].

(* [wasm/lib.rs:2747-2761] encode_parameter_value *)
Definition encode_parameter_value (v : LogicalValue) : value :=
  match v with
  | LogicalValue.Null => Value.Null
  | LogicalValue.String text | LogicalValue.Json text => Value.String text
  | LogicalValue.Boolean b => Value.Bool b
  | LogicalValue.Int64 n => Value.Number (number_of_i64 n)
  | LogicalValue.Number x => if F64.is_finite x then Value.Number (Number.Float x) else Value.Null
  | LogicalValue.Bytes bytes => blob_object (encode bytes)
  end.

(** A [BTreeMap] of parameters has its names in order. *)
(* [wasm/lib.rs:2719-2729] encode_parameters *)
Definition encode_parameters (parameters : gmap string LogicalValue) : list (string * value) :=
  foldl (fun encoded '(name, v) => Value.insert name (encode_parameter_value v) encoded) []
    (map_to_list parameters).

Context `{Serde}.

(* [wasm/lib.rs:2763-2773] encode_result_value *)
Definition encode_result_value (v : LogicalValue) : runtime_result value :=
  match v with
  | LogicalValue.Bytes bytes => mret (Value.String (encode bytes))
  | LogicalValue.Json text => ok_or (from_str_value text) RuntimeError.RemoteResult
  | _ => mret (encode_parameter_value v)
  end.

(* [wasm/lib.rs:2523-2525] invalid_parameter *)
Definition invalid_parameter : RuntimeError :=
  RuntimeError.Rejected RejectionKind.InvalidParameter.

(* [wasm/lib.rs:2481-2490]! logical_value *)
Definition decode_rejection (e : DecodeError.decode_error) : RuntimeError :=
  match e with
  | DecodeError.TooLarge => RuntimeError.Rejected RejectionKind.LimitExceeded
  | DecodeError.InvalidEncoding => invalid_parameter
  end.

(** [as_f64] of a number reads every number; a double read from text is finite. *)
(* [wasm/lib.rs:2471-2521] logical_value *)
Definition logical_value (max_bytes : Z) (v : value) (expected : option LogicalType)
    : runtime_result LogicalValue :=
  if bool_decide (expected = Some LogicalType.Bytes) then
    match v with
    | Value.Null => mret LogicalValue.Null
    | Value.String text =>
        match decode text max_bytes with
        | inl bytes => mret (LogicalValue.Bytes bytes)
        | inr e => throw (decode_rejection e)
        end
    | _ => throw invalid_parameter
    end
  else
    match v with
    | Value.Null => mret LogicalValue.Null
    | Value.Bool b => mret (LogicalValue.Boolean b)
    | Value.Number n =>
        match as_i64 n with
        | Some n => mret (LogicalValue.Int64 n)
        | None =>
            if F64.is_finite (Number.as_f64 n) then mret (LogicalValue.Number (Number.as_f64 n))
            else throw invalid_parameter
        end
    | Value.String text => mret (LogicalValue.String text)
    | Value.Array _ | Value.Object _ =>
        if bool_decide (expected = Some LogicalType.Json)
        then mret (LogicalValue.Json (to_string (doc_of_value v)))
        else throw invalid_parameter
    end.

(** An array or object by its exact text. *)
(* [wasm/lib.rs:2449-2469] logical_parameter_value *)
Definition logical_parameter_value (max_bytes : Z) (text : string) (expected : option LogicalType)
    : runtime_result LogicalValue :=
  if starts_with "{" text || starts_with "[" text then
    if bool_decide (expected = Some LogicalType.Json) then mret (LogicalValue.Json text)
    else throw invalid_parameter
  else
    v ← ok_or (from_str_value text) invalid_parameter;
    logical_value max_bytes v expected.

(* [wasm/lib.rs:2419-2436] placeholder_value *)
Definition placeholder_value (contract : ClientParameterContract) : LogicalValue :=
  if cpc_nullable contract then LogicalValue.Null
  else
    match cpc_logical_type contract with
    | LogicalType.String | LogicalType.Date | LogicalType.DateTime | LogicalType.Instant =>
        LogicalValue.String ""
    | LogicalType.Boolean => LogicalValue.Boolean false
    | LogicalType.Integer | LogicalType.Int64 => LogicalValue.Int64 0
    | LogicalType.Number => LogicalValue.Number F64.zero
    | LogicalType.Bytes => LogicalValue.Bytes []
    | LogicalType.Json => LogicalValue.Json "null"
    end.

(** ** Results *)

(** [serde_json::from_value] of the two members and no other. *)
(* [wasm/lib.rs:320-328] RawBlob *)
Definition raw_blob (members : list (string * value)) : option (string * string) :=
  storage_type ← assoc "type" members ≫= Value.as_str;
  base64 ← assoc "base64" members ≫= Value.as_str;
  if (length members =? 2)%nat then Some (storage_type, base64) else None.

(* [wasm/lib.rs:2591-2610] logical_result_value_scalar *)
Definition logical_result_value_scalar (max_bytes : Z) (v : value) (expected : list LogicalType)
    : runtime_result LogicalValue :=
  match v with
  | Value.Null => mret LogicalValue.Null
  | _ =>
      (fix first expected :=
         match expected with
         | [] => throw RuntimeError.RemoteResult
         | logical_type :: expected =>
             if bool_decide (logical_type = LogicalType.Bytes) then first expected
             else
               match logical_value max_bytes v (Some logical_type) with
               | inl read => mret read
               | inr _ => first expected
               end
         end) expected
  end.

(* [wasm/lib.rs:2571-2589] logical_result_value_without_boolean *)
Definition logical_result_value_without_boolean (max_bytes : Z) (v : value)
    (expected : list LogicalType) : runtime_result LogicalValue :=
  let several := (1 <? length expected)%nat in
  let other := if several then logical_result_value_scalar max_bytes v expected
               else throw RuntimeError.RemoteResult in
  if bool_decide (LogicalType.Json ∈ expected) then
    match v with
    | Value.String text =>
        match from_str_value text with
        | Some _ => mret (LogicalValue.Json text)
        | None => other
        end
    | Value.Null => mret LogicalValue.Null
    | _ => other
    end
  else logical_result_value_scalar max_bytes v expected.

(* [wasm/lib.rs:2547-2549]! logical_result_value *)
Definition stored_boolean (v : value) : option bool :=
  match v with
  | Value.Bool b => Some b
  | Value.Number n =>
      if bool_decide (as_i64 n = Some 0) then Some false
      else if bool_decide (as_i64 n = Some 1) then Some true else None
  | _ => None
  end.

(* [wasm/lib.rs:2536-2546]! logical_result_value *)
Definition blob_value (max_bytes : Z) (members : list (string * value))
    : runtime_result LogicalValue :=
  '(storage_type, base64) ← ok_or (raw_blob members) RuntimeError.RemoteResult;
  if negb (String.eqb storage_type "blob") then throw RuntimeError.RemoteResult
  else
    match decode base64 max_bytes with
    | inl bytes => mret (LogicalValue.Bytes bytes)
    | inr DecodeError.TooLarge => rejected RejectionKind.LimitExceeded
    | inr DecodeError.InvalidEncoding => throw RuntimeError.RemoteResult
    end.

(* [wasm/lib.rs:2527-2569] logical_result_value *)
Definition logical_result_value (max_bytes : Z) (v : value) (expected : list LogicalType)
    : runtime_result LogicalValue :=
  match v with
  | Value.Object members =>
      if bool_decide (LogicalType.Bytes ∈ expected) then blob_value max_bytes members
      else throw RuntimeError.RemoteResult
  | _ =>
      if bool_decide (LogicalType.Boolean ∈ expected) then
        match stored_boolean v, v with
        | Some b, _ => mret (LogicalValue.Boolean b)
        | None, Value.Null => mret LogicalValue.Null
        | None, _ =>
            if (1 <? length expected)%nat
            then logical_result_value_without_boolean max_bytes v expected
            else throw RuntimeError.RemoteResult
        end
      else logical_result_value_without_boolean max_bytes v expected
  end.
End values.
