(* ===== verification/Manifest.v ===== *)
(** * The catalog of a deployment

    The crate [policysql-wasm] (lib.rs) activates a catalog from its manifest and, when the
    deployment captured it, from the schema of the database: every column gets the type, the
    representation, the storage, the constraints and the JSON schema its declaration allows, and a
    disagreement with the database is refused. serde_yaml and serde_json read the texts: the class
    [ManifestSerde]. Every refusal is one and the same error. *)

From S2P Require Import Prelude Result F64 Utf8 Btree Core Catalog Policy Gateway SerdeJson.
From S2P Require Import Values.

(** ** The manifest as its text says it *)

(* [wasm/lib.rs:126-130] CatalogSource *)
Record CatalogSource := { src_table : string }.
(* [wasm/lib.rs:132-145] CatalogColumn *)
Record CatalogColumn := {
  cc_logical_type : option string;
  cc_representation : option string;
  cc_storage : option string;
  cc_nullable : option bool;
  cc_format : option string;
  cc_constraints : option YamlValue;
  cc_json_schema : option YamlValue
}.
(* [wasm/lib.rs:119-124] CatalogResource *)
Record CatalogResource := {
  cr_source : CatalogSource;
  cr_columns : list (string * CatalogColumn)
}.
(* [wasm/lib.rs:112-117] CatalogManifest *)
Record CatalogManifest := {
  cm_version : Z;
  cm_resources : list (string * CatalogResource)
}.

(** ** The schema of the database *)

(* [wasm/lib.rs:159-164] PhysicalColumn *)
Record PhysicalColumn := { ph_declared_type : string; ph_nullable : bool }.
(* [wasm/lib.rs:153-157] PhysicalTable *)
Record PhysicalTable := { ph_columns : gmap string PhysicalColumn }.
(* [wasm/lib.rs:147-151] PhysicalSchema *)
Record PhysicalSchema := { ph_tables : gmap string PhysicalTable }.

(** The derived readers. The maps of a manifest are [BTreeMap]s: their entries are in the order of
    their names. *)
Class ManifestSerde := {
  manifest_from_str : string -> option CatalogManifest;
  physical_from_str : string -> option PhysicalSchema
}.

Definition refused {A} : runtime_result A := rejected RejectionKind.InvalidRequest.
(** [ok_or] of the one refusal. *)
Definition or_refused {A} (o : option A) : runtime_result A :=
  ok_or o (RuntimeError.Rejected RejectionKind.InvalidRequest).
Definition accept (condition : bool) : runtime_result unit :=
  require condition (RuntimeError.Rejected RejectionKind.InvalidRequest).
(** [Option::map(f).transpose()?]. *)
Definition transpose {E A B} (f : A -> result E B) (o : option A) : result E (option B) :=
  match o with Some a => b ← f a; mret (Some b) | None => mret None end.

(** ** Types *)

(* [wasm/lib.rs:2316-2326]! logical_type *)
Definition LOGICAL_TYPES : list (string * (LogicalType * ValueRepresentation.value_representation)) :=
  [("string", (LogicalType.String, ValueRepresentation.String));
   ("integer", (LogicalType.Integer, ValueRepresentation.Number));
   ("boolean", (LogicalType.Boolean, ValueRepresentation.Boolean));
   ("int64", (LogicalType.Int64, ValueRepresentation.String));
   ("number", (LogicalType.Number, ValueRepresentation.Number));
   ("bytes", (LogicalType.Bytes, ValueRepresentation.Base64));
   ("date", (LogicalType.Date, ValueRepresentation.String));
   ("datetime", (LogicalType.DateTime, ValueRepresentation.String));
   ("instant", (LogicalType.Instant, ValueRepresentation.String));
   ("json", (LogicalType.Json, ValueRepresentation.Json))]%string.

(* [wasm/lib.rs:2315-2329] logical_type *)
Definition logical_type (v : option string)
    : runtime_result (LogicalType * ValueRepresentation.value_representation) :=
  or_refused (name ← v; assoc name LOGICAL_TYPES).

(* [wasm/lib.rs:2335-2342]! representation *)
Definition REPRESENTATIONS : list (string * ValueRepresentation.value_representation) :=
  [("string", ValueRepresentation.String); ("number", ValueRepresentation.Number);
   ("boolean", ValueRepresentation.Boolean); ("object", ValueRepresentation.Json);
   ("array", ValueRepresentation.Json)]%string.

(* [wasm/lib.rs:2331-2344] representation *)
Definition representation (v : option string)
    (default : ValueRepresentation.value_representation)
    : runtime_result ValueRepresentation.value_representation :=
  match v with None => mret default | Some name => or_refused (assoc name REPRESENTATIONS) end.

(* [wasm/lib.rs:2229-2237] storage_class *)
Definition storage_class (v : string) : runtime_result StorageClass.storage_class :=
  or_refused (assoc v [("integer", StorageClass.Integer); ("real", StorageClass.Real);
                       ("text", StorageClass.Text); ("blob", StorageClass.Blob)]%string).

(** [str::to_ascii_uppercase] and [str::contains]. *)
Definition to_ascii_uppercase (c : Z) : Z := if in_range 97 122 c then c - 32 else c.
Fixpoint uppercase (s : string) : string :=
  match s with
  | EmptyString => EmptyString
  | String c s' => String (char_of (to_ascii_uppercase (byte_of c))) (uppercase s')
  end.
Fixpoint contains (s pattern : string) : bool :=
  starts_with pattern s || match s with String _ s' => contains s' pattern | EmptyString => false end.

(** The affinity of a declared type. The source trims the text first, which removes no letter. *)
(* [wasm/lib.rs:2239-2252] declared_storage *)
Definition declared_storage (declared : string) : runtime_result StorageClass.storage_class :=
  let name := uppercase declared in
  if contains name "INT" then mret StorageClass.Integer
  else if contains name "CHAR" || contains name "CLOB" || contains name "TEXT"
  then mret StorageClass.Text
  else if contains name "BLOB" then mret StorageClass.Blob
  else if contains name "REAL" || contains name "FLOA" || contains name "DOUB"
  then mret StorageClass.Real
  else refused.

(* [wasm/lib.rs:2254-2261] derived_logical_type *)
Definition derived_logical_type (storage : StorageClass.storage_class)
    : LogicalType * ValueRepresentation.value_representation :=
  match storage with
  | StorageClass.Integer => (LogicalType.Int64, ValueRepresentation.String)
  | StorageClass.Real => (LogicalType.Number, ValueRepresentation.Number)
  | StorageClass.Text => (LogicalType.String, ValueRepresentation.String)
  | StorageClass.Blob => (LogicalType.Bytes, ValueRepresentation.Base64)
  end.

(* [wasm/lib.rs:2267-2284]! validate_storage *)
Definition storage_holds (logical_type : LogicalType) (storage : StorageClass.storage_class)
    : bool :=
  match logical_type, storage with
  | (LogicalType.String | LogicalType.Date | LogicalType.DateTime | LogicalType.Instant
     | LogicalType.Json), StorageClass.Text
  | (LogicalType.Integer | LogicalType.Int64 | LogicalType.Boolean), StorageClass.Integer
  | LogicalType.Number, (StorageClass.Real | StorageClass.Integer)
  | LogicalType.Bytes, StorageClass.Blob => true
  | _, _ => false
  end.

(* [wasm/lib.rs:2263-2289] validate_storage *)
Definition validate_storage (logical_type : LogicalType)
    (storage : option StorageClass.storage_class) : runtime_result unit :=
  accept (opt_forallb (storage_holds logical_type) storage).

(** The formats a type allows. *)
(* [wasm/lib.rs:2294-2306]! validate_format *)
Definition type_formats (logical_type : LogicalType) : list (option string) :=
  match logical_type with
  | LogicalType.String => [None; Some "uuid"; Some "email"]
  | LogicalType.Integer | LogicalType.Number | LogicalType.Boolean | LogicalType.Json => [None]
  | LogicalType.Int64 => [None; Some "int64"]
  | LogicalType.Bytes => [None; Some "base64"]
  | LogicalType.Date => [Some "iso-date"]
  | LogicalType.DateTime => [Some "sqlite-datetime"]
  | LogicalType.Instant => [Some "rfc3339"]
  end%string.
Definition format_allowed (logical_type : LogicalType) (format : option string) : bool :=
  bool_decide (format ∈ type_formats logical_type).

(* [wasm/lib.rs:2291-2313] validate_format *)
Definition validate_format (logical_type : LogicalType) (format : option string)
    : runtime_result unit := accept (format_allowed logical_type format).

(** ** Constraints *)

(** [Value::as_u64] of serde_yaml. *)
Definition yaml_as_u64 (v : YamlValue) : option Z :=
  match untag v with YamlValue.Number (YamlNumber.PosInt n) => Some n | _ => None end.

(* [wasm/lib.rs:2190-2196] canonical_number *)
Definition canonical_number (v : YamlValue) : runtime_result string :=
  x ← or_refused (as_f64 v);
  if F64.is_finite x then mret (Display.text x) else refused.

(* [wasm/lib.rs:2205-2213] constraint_scalar *)
Definition constraint_scalar (v : YamlValue) : runtime_result ConstraintScalar.constraint_scalar :=
  match as_str v, as_bool v with
  | Some text, _ => mret (ConstraintScalar.String text)
  | None, Some b => mret (ConstraintScalar.Boolean b)
  | None, None => ConstraintScalar.Number <$> canonical_number v
  end.

(* [wasm/lib.rs:2215-2227] constraint_matches_type *)
Definition constraint_matches_type (scalar : ConstraintScalar.constraint_scalar)
    (logical_type : LogicalType) : bool :=
  match scalar, logical_type with
  | ConstraintScalar.String _, (LogicalType.String | LogicalType.Date | LogicalType.DateTime
                                | LogicalType.Instant)
  | ConstraintScalar.Boolean _, LogicalType.Boolean
  | ConstraintScalar.Number _, (LogicalType.Integer | LogicalType.Int64 | LogicalType.Number) =>
      true
  | _, _ => false
  end.

(* [wasm/lib.rs:2165-2168]! parse_constraints *)
Definition is_numeric (logical_type : LogicalType) : bool :=
  match logical_type with
  | LogicalType.Integer | LogicalType.Int64 | LogicalType.Number => true
  | _ => false
  end.
(* [wasm/lib.rs:2169-2172]! parse_constraints *)
Definition is_text (logical_type : LogicalType) : bool :=
  match logical_type with
  | LogicalType.String | LogicalType.Date | LogicalType.DateTime | LogicalType.Instant => true
  | _ => false
  end.

(** [zip] and [is_some_and] of two bounds. *)
Definition both {A B} (p : A -> B -> bool) (a : option A) (b : option B) : bool :=
  match a, b with Some a, Some b => p a b | _, _ => false end.
Definition is_some {A} (o : option A) : bool := match o with Some _ => true | None => false end.

(* [wasm/lib.rs:2147-2157]! parse_constraints *)
Definition bounds_reversed (minimum maximum : string) : bool :=
  match parse_f64 minimum, parse_f64 maximum with
  | Some minimum, Some maximum => F64.ltb maximum minimum
  | _, _ => true
  end.

Section constraints.
Context `{Regex} `{Target}.

(* [wasm/lib.rs:2198-2203] nonnegative_usize *)
Definition nonnegative_usize (v : YamlValue) : runtime_result Z :=
  n ← or_refused (yaml_as_u64 v);
  if (n <=? usize_max)%Z then mret n else refused.

(** The rules a constraint set satisfies. *)
(* [wasm/lib.rs:2146-2187]! parse_constraints *)
Definition constraints_hold (logical_type : LogicalType) (c : ValueConstraints) : bool :=
  negb (both bounds_reversed (minimum c) (maximum c))
  && negb (both (fun minimum maximum => (maximum <? minimum)%Z) (min_length c) (max_length c))
  && negb (negb (is_numeric logical_type) && (is_some (minimum c) || is_some (maximum c)))
  && negb (negb (is_text logical_type)
           && (is_some (min_length c) || is_some (max_length c) || is_some (pattern c)))
  && forallb (fun scalar => constraint_matches_type scalar logical_type) (allowed c)
  && opt_forallb (fun pattern =>
       negb ((256 <? len pattern)%Z || bool_decide (regex_match pattern = None)))
       (pattern c).

(* [wasm/lib.rs:2117-2188] parse_constraints *)
Definition parse_constraints (v : YamlValue) (logical_type : LogicalType)
    : runtime_result ValueConstraints :=
  object ← or_refused (as_mapping v);
  allowed ← transpose (collect constraint_scalar) (mapping_value object "enum" ≫= as_sequence);
  minimum ← transpose canonical_number (mapping_value object "minimum");
  maximum ← transpose canonical_number (mapping_value object "maximum");
  min_length ← transpose nonnegative_usize (mapping_value object "minLength");
  max_length ← transpose nonnegative_usize (mapping_value object "maxLength");
  let c := {| allowed := default [] allowed; minimum := minimum; maximum := maximum;
              min_length := min_length; max_length := max_length;
              pattern := mapping_value object "pattern" ≫= as_str |} in
  accept (constraints_hold logical_type c);;
  mret c.
End constraints.

(** ** JSON schemas *)

(* [wasm/lib.rs:2014-2016]! valid_json_schema_type *)
Definition TYPES : list string :=
  ["null"; "boolean"; "integer"; "number"; "string"; "array"; "object"].

(** Every element is a text [p] accepts, and no two are the same. *)
Fixpoint distinct_texts (p : string -> bool) (seen : list string) (vs : list YamlValue) : bool :=
  match vs with
  | [] => true
  | v :: vs =>
      match as_str v with
      | Some text => p text && negb (str_in text seen) && distinct_texts p (text :: seen) vs
      | None => false
      end
  end.

(* [wasm/lib.rs:2013-2032] valid_json_schema_type *)
Definition valid_json_schema_type (v : YamlValue) : bool :=
  match as_str v, as_sequence v with
  | Some text, _ => str_in text TYPES
  | None, Some vs =>
      negb (length vs <? 2)%nat && distinct_texts (fun text => str_in text TYPES) [] vs
  | None, None => false
  end.

(** Equality of the keys of a mapping, of which only texts, perhaps tagged, are compared: a tag is
    compared without its exclamation mark. *)
Definition no_bang (tag : string) : string := default tag (strip_prefix "!" tag).
Fixpoint key_eqb (a b : YamlValue) : bool :=
  match a, b with
  | YamlValue.String a, YamlValue.String b => String.eqb a b
  | YamlValue.Tagged t a, YamlValue.Tagged u b => String.eqb (no_bang t) (no_bang u) && key_eqb a b
  | _, _ => false
  end.

(* [wasm/lib.rs:1927-1935]! valid_json_value_schema *)
Definition KEYS : list string :=
  ["$schema"; "type"; "properties"; "items"; "required"; "additionalProperties"; "anyOf"].
(* [wasm/lib.rs:1936-1938]! valid_json_value_schema *)
Definition MAX_SCHEMA_DEPTH : nat := 32.

Definition has_key (object : list (YamlValue * YamlValue)) (key : string) : bool :=
  is_some (mapping_value object key).

(** The part of the check that looks no deeper. *)
(* [wasm/lib.rs:1939-1967]! valid_json_value_schema *)
Definition schema_members_hold (object : list (YamlValue * YamlValue)) : bool :=
  negb (match object with [] => true | _ => false end)
  && forallb (fun '(key, _) => opt_existsb (fun key => str_in key KEYS) (as_str key)) object
  && opt_forallb (fun schema =>
       bool_decide (as_str schema = Some "https://json-schema.org/draft/2020-12/schema"%string))
       (mapping_value object "$schema")
  && opt_forallb (fun v => bool_decide (as_bool v = Some false))
       (mapping_value object "additionalProperties")
  && opt_forallb valid_json_schema_type (mapping_value object "type").

(** The required names are members of the properties, each once. *)
(* [wasm/lib.rs:1989-2000]! valid_json_value_schema *)
Definition required_holds (properties : option (list (YamlValue * YamlValue))) (v : YamlValue)
    : bool :=
  match as_sequence v with
  | None => false
  | Some names =>
      distinct_texts (fun text => negb (String.eqb text "")) [] names
      && forallb (fun name =>
           opt_existsb (existsb (fun '(key, _) => key_eqb name key)) properties) names
  end.

(** [levels] is one more than how much deeper a schema may be: the source counts the depth up and
    refuses it over the maximum. *)
(* [wasm/lib.rs:1926-2011] valid_json_value_schema *)
Fixpoint valid_json_value_schema (levels : nat) (v : YamlValue) : bool :=
  match levels, as_mapping v with
  | S levels, Some object =>
      let valid := valid_json_value_schema levels in
      let properties := mapping_value object "properties" ≫= as_mapping in
      schema_members_hold object
      && (negb (has_key object "properties")
          || opt_existsb (forallb (fun '(name, schema) =>
               opt_existsb (fun name => negb (String.eqb name "")) (as_str name) && valid schema))
               properties)
      && opt_forallb valid (mapping_value object "items")
      && opt_forallb (required_holds properties) (mapping_value object "required")
      && opt_forallb (fun branches =>
           opt_existsb (fun branches =>
             negb (length branches <? 2)%nat && forallb valid branches) (as_sequence branches))
           (mapping_value object "anyOf")
      && (has_key object "type" || has_key object "anyOf")
  | _, _ => false
  end.

(* [wasm/lib.rs:2103-2113]! json_schema_types *)
Definition json_schema_type (v : YamlValue) : runtime_result JsonSchemaType.json_schema_type :=
  or_refused (name ← as_str v;
    assoc name [("null", JsonSchemaType.Null); ("boolean", JsonSchemaType.Boolean);
                ("integer", JsonSchemaType.Integer); ("number", JsonSchemaType.Number);
                ("string", JsonSchemaType.String); ("array", JsonSchemaType.Array);
                ("object", JsonSchemaType.Object)]%string).

(* [wasm/lib.rs:2098-2115] json_schema_types *)
Definition json_schema_types (v : YamlValue)
    : runtime_result (list JsonSchemaType.json_schema_type) :=
  collect json_schema_type (default [v] (as_sequence v)).

(** A value without its tags, and the value of the first entry with a name: with a continuation,
    as the reader of schemas recurses through them. *)
Fixpoint untagged {A} (f : YamlValue -> A) (v : YamlValue) : A :=
  match v with YamlValue.Tagged _ v => untagged f v | _ => f v end.

Fixpoint at_key {A} (key : string) (f : YamlValue -> A) (object : list (YamlValue * YamlValue))
    : option A :=
  match object with
  | [] => None
  | (YamlValue.String k, v) :: object => if String.eqb k key then Some (f v) else at_key key f object
  | _ :: object => at_key key f object
  end.

Definition sequence_option {E A} (o : option (result E A)) : result E (option A) :=
  match o with Some r => a ← r; mret (Some a) | None => mret None end.

(* [wasm/lib.rs:2034-2096] parse_json_value_schema *)
Fixpoint parse_json_value_schema (v : YamlValue) : runtime_result JsonValueSchema :=
  untagged (fun v =>
    match v with
    | YamlValue.Mapping object =>
        types ← transpose json_schema_types (mapping_value object "type");
        properties ← sequence_option (at_key "properties" (untagged (fun v =>
          match v with
          | YamlValue.Mapping properties =>
              entries ← collect (fun '(name, schema) =>
                name ← or_refused (as_str name);
                schema ← parse_json_value_schema schema;
                mret (name, schema)) properties;
              mret (foldl (fun m '(name, schema) => fst (bt_insert String.compare name schema m))
                      [] entries)
          | _ => mret []
          end)) object);
        items ← sequence_option (at_key "items" parse_json_value_schema object);
        any_of ← sequence_option (at_key "anyOf" (untagged (fun v =>
          match v with
          | YamlValue.Sequence branches => collect parse_json_value_schema branches
          | _ => mret []
          end)) object);
        mret {| js_types := default [] types; js_properties := default [] properties;
                js_items := items;
                js_required :=
                  default [] (omap (M := list) as_str <$> (mapping_value object "required" ≫= as_sequence));
                js_additional_properties := false; js_any_of := default [] any_of |}
    | _ => refused
    end) v.

(** ** Columns, resources, catalogs *)

Section activation.
Context `{Regex} `{Target}.

Section column.
(** What the database says of the column. *)
Context (physical : option PhysicalColumn).

(** The declared type, or the type of the column in the database. *)
(* [wasm/lib.rs:1816-1826]! activate_catalog_with_schema *)
Definition column_type (column : CatalogColumn) (derived : option StorageClass.storage_class)
    : runtime_result (LogicalType * ValueRepresentation.value_representation) :=
  '(logical_type, default_representation) ←
    match cc_logical_type column with
    | Some _ => logical_type (cc_logical_type column)
    | None => or_refused (derived_logical_type <$> derived)
    end;
  representation ← representation (cc_representation column) default_representation;
  accept (negb (bool_decide (logical_type = LogicalType.Bytes))
          || bool_decide (representation = ValueRepresentation.Base64)
          || bool_decide (representation = ValueRepresentation.String));;
  mret (logical_type, representation).

(* [wasm/lib.rs:1841-1851]! activate_catalog_with_schema *)
Definition column_schema (column : CatalogColumn) (logical_type : LogicalType)
    (representation : ValueRepresentation.value_representation)
    : runtime_result (option JsonValueSchema) :=
  match cc_json_schema column with
  | None => mret None
  | Some schema =>
      accept (bool_decide (logical_type = LogicalType.Json)
              && bool_decide (representation = ValueRepresentation.Json)
              && valid_json_value_schema (S MAX_SCHEMA_DEPTH) schema);;
      Some <$> parse_json_value_schema schema
  end.

(** Two declarations of the same agree. *)
(* [wasm/lib.rs:1858-1866]! activate_catalog_with_schema *)
Definition agree {A} `{EqDecision A} (a b : option A) : bool :=
  negb (both (fun a b => bool_decide (a <> b)) a b).

(* [wasm/lib.rs:1802-1895]! activate_catalog_with_schema *)
Definition activate_column (column_name : string) (column : CatalogColumn)
    : runtime_result (string * Z * ValueDescriptor) :=
  derived ← transpose (fun c => declared_storage (ph_declared_type c)) physical;
  '(logical_type, representation) ← column_type column derived;
  validate_format logical_type (cc_format column);;
  constraints ← transpose (fun v => parse_constraints v logical_type) (cc_constraints column);
  json_schema ← column_schema column logical_type representation;
  declared ← transpose storage_class (cc_storage column);
  let storage := match declared with Some _ => declared | None => derived end in
  accept (agree declared derived);;
  validate_storage logical_type storage;;
  let nullable := default false (match cc_nullable column with
                                 | Some nullable => Some nullable
                                 | None => ph_nullable <$> physical
                                 end) in
  accept (agree (cc_nullable column) (ph_nullable <$> physical));;
  name ← map_err (column_name_new column_name) (RuntimeError.Rejected RejectionKind.InvalidRequest);
  mret (name, from_option (fun c => len (ph_declared_type c)) 0 physical,
        {| vd_logical_type := logical_type; vd_representation := representation;
           vd_nullable := nullable;
           vd_format := match cc_format column with
                        | Some format => Some format
                        | None => if bool_decide (logical_type = LogicalType.Bytes)
                                  then Some "base64"%string else None
                        end;
           vd_storage := storage; vd_constraints := constraints; vd_json_schema := json_schema |}).
End column.

(** What the database says of a table or of a column, which it must have. *)
(* [wasm/lib.rs:1791-1810]! activate_catalog_with_schema *)
Definition physical_entry {A B} (entries : A -> gmap string B) (name : string) (o : option A)
    : runtime_result (option B) := transpose (fun a => or_refused (entries a !! name)) o.

(* [wasm/lib.rs:1787-1920]! activate_catalog_with_schema *)
Definition activate_manifest_resource (physical : option PhysicalSchema) (id : Z) (name : string)
    (resource : CatalogResource) : runtime_result ResourceDescriptor :=
  accept (negb (match cr_columns resource with [] => true | _ => false end));;
  let table_name := src_table (cr_source resource) in
  table ← physical_entry ph_tables table_name physical;
  columns ← collect (fun '(column_name, column) =>
    physical ← physical_entry ph_columns column_name table;
    activate_column physical column_name column) (cr_columns resource);
  id ← map_err (numeric_id id) (RuntimeError.Rejected RejectionKind.InvalidRequest);
  name ← map_err (resource_name_new name) (RuntimeError.Rejected RejectionKind.InvalidRequest);
  source ← map_err (resource_name_new table_name)
             (RuntimeError.Rejected RejectionKind.InvalidRequest);
  descriptor ← map_err
    (new_with_source id name source (map (fun '(name, _, value) => (name, value)) columns))
    (RuntimeError.Rejected RejectionKind.InvalidRequest);
  mret (foldl (fun descriptor '(name, bytes, _) => with_declared_type_bytes name bytes descriptor)
          descriptor columns).

(** The resources in the order of their names, numbered from one. *)
(* [wasm/lib.rs:1783-1786]! activate_catalog_with_schema *)
Fixpoint activate_resources (physical : option PhysicalSchema) (id : Z)
    (resources : list (string * CatalogResource)) : runtime_result (list ResourceDescriptor) :=
  match resources with
  | [] => mret []
  | (name, resource) :: resources =>
      descriptor ← activate_manifest_resource physical id name resource;
      descriptors ← activate_resources physical (id + 1) resources;
      mret (descriptor :: descriptors)
  end.

(* [wasm/lib.rs:1775-1924] activate_catalog_with_schema *)
Definition activate_catalog_with_schema `{ManifestSerde} (yaml snapshot : string)
    (physical : option PhysicalSchema) : runtime_result Catalog :=
  manifest ← or_refused (manifest_from_str yaml);
  accept ((cm_version manifest =? 1)%Z
          && negb (match cm_resources manifest with [] => true | _ => false end));;
  resources ← activate_resources physical 1 (cm_resources manifest);
  map_err (catalog_new snapshot resources) (RuntimeError.Rejected RejectionKind.InvalidRequest).
End activation.
