(* ===== verification/Runtime.v ===== *)
(** * The runtime of a deployment

    The crate [policysql-wasm] (lib.rs): a runtime is built from the configuration of a
    deployment; it compiles requests, keeps the sealed plans of those that will be executed under
    handles, validates the results of the database against them, and tells a caller what of the
    catalog its role may use. serde reads the documents of a request: the class [RuntimeSerde].
    [wasm_bindgen] passes texts and numbers as they are. *)

From S2P Require Import Prelude Result F64 Utf8 SerdeJson Compiler Bounds Limits Canonical.
From S2P Require Import Core Bytes Access Catalog Ir Policy Activate Protect Plan Turso SqlAst.
From S2P Require Import Binding Binder Complexity Emit Sealing Gateway State Values Manifest.

(* [wasm/lib.rs:22-82] ABI_VERSION *)
Definition ABI_VERSION : Z := 18.
(* [wasm/lib.rs:83-88] COMPILE_ENVELOPE_DEPTH *)
Definition COMPILE_ENVELOPE_DEPTH : nat := 2.
(* [wasm/lib.rs:89-89] PROFILE_ID *)
Definition PROFILE_ID : string := "sqlite-turso-v1".
(* [wasm/lib.rs:90-90] MAX_CONFIGURATION_BYTES *)
Definition MAX_CONFIGURATION_BYTES : Z := 1048576.
(* [wasm/lib.rs:91-91] MAX_ACTIVE_EXECUTIONS *)
Definition MAX_ACTIVE_EXECUTIONS : nat := 64.

(** ** Requests *)

(* [wasm/lib.rs:173-178] ExpectedSnapshot *)
Record ExpectedSnapshot := { xs_schema_version : string; xs_policy_version : string }.
(* [wasm/lib.rs:190-195] RequestExpectation *)
Record RequestExpectation := { rx_affected_rows : option Z; rx_row_count : option Z }.
(** The parameters are the exact texts of their values, by name. *)
(* [wasm/lib.rs:180-188] RequestStatement *)
Record RequestStatement := {
  rs_sql : string;
  rs_params : list (string * string);
  rs_expect : option RequestExpectation
}.
(* [wasm/lib.rs:166-171] AtomicRequest *)
Record AtomicRequest := {
  ar_expected : option ExpectedSnapshot;
  ar_statements : list RequestStatement
}.
(** [null] is present. *)
(* [wasm/lib.rs:302-312] BeginBody *)
Record BeginBody := { bb_mode : string; bb_expected : option value }.

(** [serde_json::from_str], for the derived readers. *)
Class RuntimeSerde := {
  request_from_str : string -> option AtomicRequest;
  authorized_from_str : string -> option AuthorizedSession;
  session_from_str : string -> option SessionInput;
  begin_body_from_str : string -> option BeginBody;
  raw_result_from_str : string -> option RawResult
}.

(** ** Errors *)

(* [wasm/lib.rs:2831-2844] runtime_gateway_error *)
Definition runtime_gateway_error (e : GatewayError) : RuntimeError :=
  match e with
  | GatewayError.AccessDenied => RuntimeError.Access
  | GatewayError.SnapshotMismatch => RuntimeError.Snapshot
  | GatewayError.EnvelopeLimit => RuntimeError.Envelope
  | GatewayError.Rejected kind index => RuntimeError.RejectedAt kind index
  | GatewayError.TooComplex cause index => RuntimeError.TooComplexAt cause index
  | GatewayError.EmittedSqlInvalid index => RuntimeError.EmittedSqlInvalidAt index
  | GatewayError.TransactionRequired => RuntimeError.Rejected RejectionKind.ForbiddenOperation
  | GatewayError.ExecutionFailed => RuntimeError.Internal
  end.

(* [wasm/lib.rs:2361-2366] RuntimeError::from *)
Definition session_error (e : SessionError.session_error) : RuntimeError :=
  match e with
  | SessionError.Malformed _ => RuntimeError.Session
  | SessionError.Forbidden => RuntimeError.Access
  end.

(* [wasm/lib.rs:513-519] ErrorBody *)
Record ErrorBody := { eb_code : string; eb_message : string; eb_path : option string }.

(* [wasm/lib.rs:2910-2916] error *)
Definition error (code message : string) (index : option nat) : ErrorBody :=
  {| eb_code := code; eb_message := message;
     eb_path := (fun index => "/statements/" ++ dec (Z.of_nat index))%string <$> index |}.

(* [wasm/lib.rs:2918-2979] rejection_body *)
Definition rejection_body (kind : RejectionKind.rejection_kind) (index : option nat) : ErrorBody :=
  let '(code, message) :=
    match kind with
    | RejectionKind.InvalidRequest => ("POLICYSQL_INVALID_REQUEST", "The request is invalid.")
    | RejectionKind.InvalidSql =>
        ("POLICYSQL_INVALID_SQL", "The SQL statement cannot be parsed.")
    | RejectionKind.MultipleStatements =>
        ("POLICYSQL_MULTIPLE_STATEMENTS", "Exactly one SQL statement is required.")
    | RejectionKind.UnsupportedSql =>
        ("POLICYSQL_UNSUPPORTED_SQL", "The SQL statement uses an unsupported form.")
    | RejectionKind.MissingPolicy =>
        ("POLICYSQL_MISSING_POLICY", "No policy permits this operation.")
    | RejectionKind.ForbiddenOperation =>
        ("POLICYSQL_FORBIDDEN_OPERATION", "The operation is not available.")
    | RejectionKind.ForbiddenColumn =>
        ("POLICYSQL_FORBIDDEN_COLUMN",
         "The statement references a column that is not available for this operation.")
    | RejectionKind.ForbiddenColumnContext =>
        ("POLICYSQL_FORBIDDEN_COLUMN_CONTEXT",
         "The statement uses a column in a context that is not available.")
    | RejectionKind.DuplicateResultColumn =>
        ("POLICYSQL_DUPLICATE_RESULT_COLUMN", "Result column names must be unique.")
    | RejectionKind.InvalidParameter =>
        ("POLICYSQL_INVALID_PARAMETER", "A statement parameter is missing or invalid.")
    | RejectionKind.AmbiguousParameterType =>
        ("POLICYSQL_AMBIGUOUS_PARAMETER_TYPE", "A parameter type cannot be proven.")
    | RejectionKind.ReservedParameter =>
        ("POLICYSQL_RESERVED_PARAMETER", "A parameter uses the server-owned namespace.")
    | RejectionKind.PresetColumn =>
        ("POLICYSQL_PRESET_COLUMN",
         "A server-owned preset column cannot be supplied by the client.")
    | RejectionKind.LimitExceeded =>
        ("POLICYSQL_LIMIT_EXCEEDED", "The request or result exceeded a configured limit.")
    | RejectionKind.ExpectationFailed =>
        ("POLICYSQL_EXPECTATION_FAILED",
         "The operation did not satisfy its declared expectation.")
    end%string in
  error code message index.

(* [wasm/lib.rs:2846-2908] error_body *)
Definition error_body (e : RuntimeError) : ErrorBody :=
  match e with
  | RuntimeError.Access =>
      error "POLICYSQL_FORBIDDEN_ACCESS" "The authenticated session cannot use this endpoint." None
  | RuntimeError.Snapshot =>
      error "POLICYSQL_STALE_OPERATION"
        "The operation was compiled for a different active snapshot." None
  | RuntimeError.Envelope =>
      error "POLICYSQL_INVALID_REQUEST" "Request envelope is invalid." None
  | RuntimeError.EnvelopeAt index =>
      error "POLICYSQL_INVALID_REQUEST" "Request envelope is invalid." (Some index)
  | RuntimeError.RequestTooLarge =>
      error "POLICYSQL_REQUEST_TOO_LARGE" "Request body exceeds the size limit." None
  | RuntimeError.SqlTooLargeAt index =>
      {| eb_code := "POLICYSQL_REQUEST_TOO_LARGE";
         eb_message := "A statement's SQL exceeds the size limit.";
         eb_path := Some ("/statements/" ++ dec (Z.of_nat index) ++ "/sql") |}
  | RuntimeError.Rejected kind => rejection_body kind None
  | RuntimeError.RejectedAt kind index => rejection_body kind (Some index)
  | RuntimeError.TooComplexAt _ index =>
      error "POLICYSQL_SQL_TOO_COMPLEX"
        "The statement is too complex to run under the active policy." (Some index)
  | RuntimeError.Session | RuntimeError.Internal | RuntimeError.EmittedSqlInvalidAt _ =>
      error "POLICYSQL_INTERNAL" "The request could not be completed." None
  | RuntimeError.Busy =>
      error "POLICYSQL_DATABASE_UNAVAILABLE"
        "The database adapter is temporarily unavailable." None
  | RuntimeError.RemoteResult =>
      error "POLICYSQL_SCHEMA_MISMATCH"
        "The database result does not match the compiled logical contract." None
  | RuntimeError.RemoteResultAt index =>
      error "POLICYSQL_SCHEMA_MISMATCH"
        "The database result does not match the compiled logical contract." (Some index)
  end%string.

(** ** The deployment surface *)

(* [wasm/lib.rs:1679-1689] supported_select *)
Definition supported_select_with (basic : BoundExpr -> bool) (select : BoundSelect) : bool :=
  forallb (fun join => basic (bj_on join)) (bs_joins select)
  && forallb (fun projection => basic (bp_expression projection)) (bs_projections select)
  && opt_forallb basic (bs_predicate select) && opt_forallb basic (bs_having select)
  && opt_forallb basic (bs_limit select) && opt_forallb basic (bs_offset select).

(* [wasm/lib.rs:1691-1733] basic_expression *)
Fixpoint basic_expression (expression : BoundExpr) : bool :=
  match expression with
  | BoundExpr.Column _ | BoundExpr.ClientParameter _ _ | BoundExpr.ServerParameter _ _
  | BoundExpr.Literal _ | BoundExpr.CountAll _ => true
  | BoundExpr.Equal l r | BoundExpr.NotEqual l r | BoundExpr.Less l r | BoundExpr.LessEqual l r
  | BoundExpr.Greater l r | BoundExpr.GreaterEqual l r | BoundExpr.And l r | BoundExpr.Or l r
  | BoundExpr.Like l r | BoundExpr.Glob l r | BoundExpr.Least l r | BoundExpr.Concat l r =>
      basic_expression l && basic_expression r
  | BoundExpr.Not v | BoundExpr.IsNull v | BoundExpr.CastText v => basic_expression v
  | BoundExpr.In e values _ => basic_expression e && forallb basic_expression values
  | BoundExpr.ConditionalOutput v visible_if => basic_expression v && basic_expression visible_if
  | BoundExpr.Exists select => supported_select_with basic_expression select
  | BoundExpr.ScalarFunction _ arguments _ => forallb basic_expression arguments
  | BoundExpr.Case branches else_expression _ =>
      forallb (fun '(condition, v) => basic_expression condition && basic_expression v) branches
      && opt_forallb basic_expression else_expression
  | BoundExpr.RowNumber _ _ order_by => negb (match order_by with [] => true | _ => false end)
  end.
Abbreviation supported_select := (supported_select_with basic_expression).

(* [wasm/lib.rs:1632-1669]! validate_deployment_surface *)
Definition supported_statement (statement : BoundStatement) : bool :=
  let assignments := forallb (fun assignment => basic_expression (ba_value assignment)) in
  let projections := forallb (fun projection => basic_expression (bp_expression projection)) in
  match statement with
  | BoundStatement.Select select => supported_select select
  | BoundStatement.ConstantSelect select =>
      negb (match bcs_projections select with [] => true | _ => false end)
  | BoundStatement.JsonCollectionSelect select =>
      basic_expression (bjc_path select) && opt_forallb basic_expression (bjc_predicate select)
  | BoundStatement.Insert insert =>
      forallb assignments (bi_rows insert) && projections (bi_returning insert)
  | BoundStatement.Update update =>
      assignments (bu_assignments update) && opt_forallb basic_expression (bu_predicate update)
      && projections (bu_returning update)
  | BoundStatement.Delete delete =>
      opt_forallb basic_expression (bd_predicate delete) && projections (bd_returning delete)
  end.

(** A [for] loop over the elements and their positions, from [index] on. *)
Fixpoint for_each_at {E A} (f : nat -> A -> result E unit) (index : nat) (l : list A)
    : result E unit :=
  match l with
  | [] => mret ()
  | a :: l => f index a;; for_each_at f (S index) l
  end.
(** [iter().enumerate().map(f).collect()]. *)
Fixpoint collect_at {E A B} (f : nat -> A -> result E B) (index : nat) (l : list A)
    : result E (list B) :=
  match l with
  | [] => mret []
  | a :: l => b ← f index a; bs ← collect_at f (S index) l; mret (b :: bs)
  end.

Section surface.
Context `{Dialect} (catalog : Catalog) (binding_limits : BindingLimits).

(* [wasm/lib.rs:1622-1677] validate_deployment_surface *)
Definition validate_deployment_surface (requests : list RequestStatement) : runtime_result unit :=
  for_each_at (fun index request =>
    statement ← map_error (fun e => RuntimeError.RejectedAt (classify_bind_error e) index)
                  (bind binding_limits catalog (rs_sql request));
    require (supported_statement statement)
      (RuntimeError.RejectedAt RejectionKind.UnsupportedSql index)) 0 requests.

(** ** A statement of a request *)

(* [wasm/lib.rs:2438-2447] statement_parameter_types *)
Definition statement_parameter_types (statement : BoundStatement)
    : runtime_result (gmap string ClientParameterContract) :=
  map_err (contracts (analyze_client_parameters statement catalog))
    (RuntimeError.Rejected RejectionKind.AmbiguousParameterType).

Context `{Base64} `{Serde} (max_bytes_per_value : Z).

(** The values in the order of their names. *)
(* [wasm/lib.rs:2388-2404]! statement_request *)
Definition read_parameter (types : gmap string ClientParameterContract) (param : string * string)
    : runtime_result (string * LogicalValue) :=
  let '(name, text) := param in
  name ← map_err (client_parameter_name_new name) invalid_parameter;
  v ← logical_parameter_value max_bytes_per_value text (cpc_logical_type <$> types !! name);
  mret (name, v).

(* [wasm/lib.rs:2369-2417] statement_request *)
Definition statement_request (raw : RequestStatement) (endpoint : EndpointPermission)
    : runtime_result StatementRequest :=
  if String.eqb (rs_sql raw) "" then throw RuntimeError.Envelope
  else
    let expectation := default {| rx_affected_rows := None; rx_row_count := None |}
                         (rs_expect raw) in
    statement ← map_error (fun e => RuntimeError.Rejected (classify_bind_error e))
                  (bind binding_limits catalog (rs_sql raw));
    types ← statement_parameter_types statement;
    parameters ← collect (read_parameter types) (rs_params raw);
    let parameters : gmap string LogicalValue := list_to_map (rev parameters) in
    mret {| rq_sql := rs_sql raw;
            rq_parameters :=
              if bool_decide (endpoint = EndpointPermission.Explain)
              then parameters ∪ (placeholder_value <$> types) else parameters;
            rq_expected_affected_rows := rx_affected_rows expectation;
            rq_expected_row_count := rx_row_count expectation |}.
End surface.

(** ** The runtime *)

(** What an activated deployment is. *)
(* [wasm/lib.rs:521-533] PolicySqlRuntime *)
Record PolicySqlRuntime := {
  rt_gateway : Gateway;
  rt_catalog : Catalog;
  rt_policies : PolicyBundle;
  rt_schema_version : string;
  rt_policy_version : string;
  rt_snapshot : string;
  rt_limits : RuntimeLimits
}.

(** Its cells: the sealed envelopes by their handles, and the next handle. *)
(* [wasm/lib.rs:531-532]! PolicySqlRuntime *)
Record Plans := {
  rt_plans : gmap Z (list CompiledStatement);
  rt_next_handle : Z
}.
(* [wasm/lib.rs:613-614]! build_runtime *)
Definition no_plans : Plans := {| rt_plans := ∅; rt_next_handle := 1 |}.

Section build.
Context `{Target}.

(* [wasm/lib.rs:941-945] value_limit *)
Definition value_limit (limits : RuntimeLimits) : Z := to_usize (rl_max_bytes_per_value limits).

(* [wasm/lib.rs:1011-1018] binding_limits *)
Definition binding_limits (limits : RuntimeLimits) : BindingLimits :=
  {| max_expression_depth := to_usize (rl_max_expression_depth limits);
     max_parameters := to_usize (rl_max_parameters limits);
     max_projections := to_usize (rl_max_projections limits);
     max_joins := to_usize (rl_max_joins limits) |}.

Context `{Serde} `{ManifestSerde} `{Yaml} `{Regex} `{Base64}.

(* [wasm/lib.rs:546-547]! build_runtime *)
Definition snapshot_text (schema_version policy_version : string) : string :=
  PROFILE_ID ++ ":" ++ schema_version ++ ":" ++ policy_version ++ ":abi-" ++ dec ABI_VERSION.

(* [wasm/lib.rs:579-583]! build_runtime *)
Definition longest_resource_name (catalog : Catalog) : Z :=
  foldr (fun resource n => Z.max (len (rd_name resource)) n) 0 (resources catalog).

(** The errors are the messages of the exceptions. *)
(* [wasm/lib.rs:535-615] build_runtime *)
Definition build_runtime (catalog_yaml policy_yaml schema_version policy_version : string)
    (limits_json : string) (physical : option PhysicalSchema) : result string PolicySqlRuntime :=
  if (MAX_CONFIGURATION_BYTES <? sat_add usize_max (len catalog_yaml) (len policy_yaml))%Z
  then throw "configuration exceeds deployment limit"%string
  else
    snapshot ← map_err (snapshot_id_new (snapshot_text schema_version policy_version))
                 "deployment snapshot is invalid"%string;
    catalog ← map_err (activate_catalog_with_schema catalog_yaml snapshot physical)
                "Catalog activation failed"%string;
    limits ← Limits.parse limits_json
               {| fixed_max_commit_checks := Z.of_nat MAX_COMMIT_CHECKS;
                  fixed_max_hook_duration_ms := MAX_COMMIT_CHECK_TIMEOUT_MS |};
    policies ← map_error (fun e =>
                 match e with
                 | PolicyError.BytesPresetTooLarge =>
                     "runtime limits are invalid: `max_bytes_per_value` is smaller than a bytes preset in the policy"
                 | _ => "policy activation failed"
                 end%string)
                 (activate_with_value_limit policy_yaml catalog snapshot (value_limit limits));
    if (usize_max <? rl_max_statements limits)%Z
    then throw "runtime limits are invalid: `max_statements` is too large"%string
    else if negb (durable_bound_holds
              (len snapshot * 2 + len schema_version + len policy_version)
              (rl_max_transaction_statements limits) (rl_max_transaction_result_bytes limits)
              (longest_resource_name catalog))
    then throw "runtime limits are invalid: `max_transaction_statements` and `max_transaction_result_bytes` could make a transaction record exceed its bound"%string
    else
      mret {| rt_gateway :=
                with_binding_limits
                  (gateway_new catalog policies snapshot
                     {| el_max_rows := rl_max_rows limits;
                        el_max_result_bytes := rl_max_result_bytes limits;
                        el_timeout_ms := rl_timeout_ms limits;
                        el_max_bytes_per_value := value_limit limits |}
                     (rl_max_statements limits))
                  (binding_limits limits);
              rt_catalog := catalog; rt_policies := policies;
              rt_schema_version := schema_version; rt_policy_version := policy_version;
              rt_snapshot := snapshot; rt_limits := limits |}.

(* [wasm/lib.rs:619-640] PolicySqlRuntime::new *)
Definition new (catalog_yaml policy_yaml schema_version policy_version limits_json : string)
    : result string PolicySqlRuntime :=
  build_runtime catalog_yaml policy_yaml schema_version policy_version limits_json None.

(* [wasm/lib.rs:642-668] PolicySqlRuntime::new_with_physical_schema *)
Definition new_with_physical_schema (catalog_yaml policy_yaml schema_version policy_version : string)
    (limits_json physical_schema_json : string) : result string PolicySqlRuntime :=
  physical ← ok_or (physical_from_str physical_schema_json) "physical schema is invalid"%string;
  build_runtime catalog_yaml policy_yaml schema_version policy_version limits_json (Some physical).
End build.

(** ** The body of a request *)

Section body.
Context `{Target} `{Serde} `{RuntimeSerde}.

(* [wasm/lib.rs:966-1000] check_body *)
Definition check_body (body_text : string) (l : Limits) : result ErrorBody unit :=
  let refuse code message : result ErrorBody unit := throw (error code message None) in
  if (max_request_bytes l <? len body_text)%Z
  then refuse "POLICYSQL_REQUEST_TOO_LARGE" "Request body exceeds the size limit."
  else
    match check body_text (Some (to_usize (max_json_values l))) with
    | inl _ => mret ()
    | inr StrictError.TooManyValues =>
        refuse "POLICYSQL_REQUEST_TOO_LARGE" "Request body has too many JSON values."
    | inr StrictError.TooDeep =>
        refuse "POLICYSQL_JSON_TOO_DEEP" "Request body nests too deeply."
    | inr StrictError.LoneSurrogate =>
        refuse "POLICYSQL_INVALID_REQUEST" "Request body is not valid UTF-8."
    | inr (StrictError.Syntax | StrictError.DuplicateKey) =>
        refuse "POLICYSQL_INVALID_REQUEST" "Request body is not valid JSON."
    end%string.

(* [wasm/lib.rs:1002-1009] invalid_request_body *)
Definition invalid_request_body : ErrorBody :=
  error "POLICYSQL_INVALID_REQUEST" "The request is invalid." None.

(* [wasm/lib.rs:785-795]! PolicySqlRuntime::begin_body_json *)
Definition begin_expected (expected : option value) : result ErrorBody (option value) :=
  match expected with
  | None => mret None
  | Some (Value.Object members) =>
      if (length members =? 2)%nat && bool_decide (is_Some (assoc "schemaVersion" members))
         && bool_decide (is_Some (assoc "policyVersion" members))
      then mret expected else throw invalid_request_body
  | Some _ => throw invalid_request_body
  end.

(** The mode and the expected versions of a begin body. *)
(* [wasm/lib.rs:771-801]! PolicySqlRuntime::begin_body_json *)
Definition begin_body (body_text : string) (l : Limits)
    : result ErrorBody (string * option value) :=
  check_body body_text l;;
  body ← ok_or (begin_body_from_str body_text) invalid_request_body;
  mode ← (if str_in (bb_mode body) ["read"; "write"]%string then mret (bb_mode body)
          else throw invalid_request_body : result ErrorBody string);
  expected ← begin_expected (bb_expected body);
  mret (mode, expected).

(* [wasm/lib.rs:947-964] check_compile_input *)
Definition check_compile_input (request_json : string) : runtime_result unit :=
  map_err (check_with_max_depth None (MAX_DEPTH + COMPILE_ENVELOPE_DEPTH) request_json)
    RuntimeError.Envelope.
End body.

(** ** What is told of a compiled statement *)

(** The elements of a [BTreeSet] in their order. *)
Definition in_order {A} (cmp : A -> A -> Datatypes.comparison) (l : list A) : list A :=
  map fst (foldl (fun m x => fst (Btree.bt_insert cmp x () m)) [] l).

(* [wasm/lib.rs:364-377] ResultColumnDto *)
Record ResultColumnDto := {
  rd_name : string;
  rd_logical_type : value;
  rd_representation : string;
  rd_nullable : bool;
  rd_format : option string;
  rd_constraints : option value;
  rd_json_schema : option value;
  rd_redacted_on_null : bool
}.
(* [wasm/lib.rs:398-402] ExplainResourceDto *)
Record ExplainResourceDto := { xr_name : string; xr_columns : list string }.
(* [wasm/lib.rs:387-396] ExplainDto *)
Record ExplainDto := {
  xd_resource : option Z;
  xd_resources : list Z;
  xd_resource_names : list string;
  xd_public_resources : list ExplainResourceDto;
  xd_applied_policies : list Z;
  xd_policy_limit : option Z
}.
(** The limits are those of the step machine ([LimitsDto] has the same three fields). *)
(* [wasm/lib.rs:345-362] CompiledStatementDto *)
Record CompiledStatementDto := {
  sd_operation : string;
  sd_resource : option string;
  sd_operation_check : bool;
  sd_protected_sql : string;
  sd_cost_explain_sql : string;
  sd_client_parameters : list (string * value);
  sd_client_parameter_types : gmap string string;
  sd_client_parameter_nullable : gmap string bool;
  sd_server_parameters : list (string * value);
  sd_result : list ResultColumnDto;
  sd_limits : StatementLimits;
  sd_expected_affected_rows : option Z;
  sd_expected_result_rows : option Z;
  sd_explain : ExplainDto
}.

Section statement.
Context `{Dialect} `{Base64} `{SerdeNumber} (catalog : Catalog).

(* [wasm/lib.rs:2648-2659]! compiled_statement *)
Definition result_column (column : ResultColumnDescriptor) : ResultColumnDto :=
  {| rd_name := rc_name column;
     rd_logical_type := logical_types_json (rc_possible_types column);
     rd_representation := representation_name (vd_representation (rc_value column));
     rd_nullable := vd_nullable (rc_value column);
     rd_format := vd_format (rc_value column);
     rd_constraints := constraints_json (vd_constraints (rc_value column));
     rd_json_schema := json_schema_json <$> vd_json_schema (rc_value column);
     rd_redacted_on_null := rc_redacted_on_null column |}.

(* [wasm/lib.rs:2687-2704]! compiled_statement *)
Definition explain_resource (explain : Explain) (id : Z) : option ExplainResourceDto :=
  resource ← resource_by_id catalog id;
  Some {| xr_name := Catalog.rd_name resource;
          xr_columns := map cd_name (omap (column_by_id resource)
            (in_order column_compare (elements (default ∅ (ex_referenced_columns explain !! id))))) |}.

(* [wasm/lib.rs:2668-2715]! compiled_statement *)
Definition explain_dto (explain : Explain) : ExplainDto :=
  {| xd_resource := ex_resource explain; xd_resources := ex_resources explain;
     xd_resource_names :=
       map Catalog.rd_name (omap (resource_by_id catalog) (ex_resources explain));
     xd_public_resources := omap (explain_resource explain) (ex_resources explain);
     xd_applied_policies := ex_applied_policies explain;
     xd_policy_limit := ex_policy_limit explain |}.

(* [wasm/lib.rs:2612-2717] compiled_statement *)
Definition compiled_statement (statement : CompiledStatement) : runtime_result CompiledStatementDto :=
  let plan := sealed (cs_plan statement) in
  let limits := plan_limits plan in
  cost_explain_sql ← map_err (explain_query_plan_sql (plan_protected_sql plan))
                       RuntimeError.Internal;
  mret {| sd_operation := operation_name (plan_operation plan);
          sd_resource := Catalog.rd_name <$> (ex_resource (cs_explain statement)
                                                ≫= resource_by_id catalog);
          sd_operation_check := bool_decide (is_Some (plan_operation_check_column plan));
          sd_protected_sql := plan_protected_sql plan; sd_cost_explain_sql := cost_explain_sql;
          sd_client_parameters := encode_parameters (plan_client_parameters plan);
          sd_client_parameter_types :=
            (fun contract => logical_type_name (cpc_logical_type contract))
              <$> cs_client_parameters statement;
          sd_client_parameter_nullable := cpc_nullable <$> cs_client_parameters statement;
          sd_server_parameters := encode_parameters (plan_server_parameters plan);
          sd_result := map result_column (plan_result plan);
          sd_limits := {| max_rows := el_max_rows limits;
                          max_result_bytes := el_max_result_bytes limits;
                          timeout_ms := el_timeout_ms limits |};
          sd_expected_affected_rows := plan_expected_affected_rows plan;
          sd_expected_result_rows := plan_expected_result_rows plan;
          sd_explain := explain_dto (cs_explain statement) |}.
End statement.

(** ** The catalog of a role *)

(* [wasm/lib.rs:439-453] CatalogColumnDto *)
Record CatalogColumnDto := {
  gc_name : string;
  gc_logical_type : string;
  gc_representation : string;
  gc_nullable : bool;
  gc_format : option string;
  gc_constraints : option value;
  gc_nullable_on_denied : bool;
  gc_usage : list string
}.
(* [wasm/lib.rs:484-495] CatalogDescriptorDto *)
Record CatalogDescriptorDto := {
  gd_name : string;
  gd_logical_type : string;
  gd_representation : string;
  gd_nullable : bool;
  gd_format : option string;
  gd_constraints : option value
}.
(* [wasm/lib.rs:477-482] CatalogInsertColumnDto *)
Record CatalogInsertColumnDto := { gi_descriptor : CatalogDescriptorDto; gi_required : bool }.
(** [CatalogReturningDto] has one field, the columns. *)
(* [wasm/lib.rs:455-459] CatalogInsertDto *)
Record CatalogInsertDto := {
  gn_columns : list CatalogInsertColumnDto;
  gn_returning : list CatalogColumnDto
}.
(* [wasm/lib.rs:461-465] CatalogUpdateDto *)
Record CatalogUpdateDto := {
  gu_columns : list CatalogDescriptorDto;
  gu_returning : list CatalogColumnDto
}.
(* [wasm/lib.rs:430-437] CatalogSelectDto *)
Record CatalogSelectDto := {
  gs_columns : list CatalogColumnDto;
  gs_allow_aggregations : bool;
  gs_allow_windows : bool;
  gs_max_rows : Z
}.
(** The delete operation shows the columns it returns. *)
(* [wasm/lib.rs:419-428] CatalogOperationsDto *)
Record CatalogOperationsDto := {
  go_select : CatalogSelectDto;
  go_insert : option CatalogInsertDto;
  go_update : option CatalogUpdateDto;
  go_delete : option (list CatalogColumnDto)
}.
(* [wasm/lib.rs:413-417] CatalogResourceDto *)
Record CatalogResourceDto := { gr_name : string; gr_operations : CatalogOperationsDto }.
(* [wasm/lib.rs:404-411] CatalogResponse *)
Record CatalogResponse := {
  gp_schema_version : string;
  gp_policy_version : string;
  gp_role : string;
  gp_resources : list CatalogResourceDto
}.

(* [wasm/lib.rs:1604-1620] select_column_usage *)
Definition select_column_usage (conditional allow_aggregations allow_windows : bool) : list string :=
  if conditional then ["projection"]%string
  else
    ["projection"; "predicate"; "join"; "order"]%string
    ++ (if allow_aggregations then ["group"; "aggregate"]%string else [])
    ++ (if allow_windows then ["window"]%string else []).

Section catalog.
Context `{SerdeNumber}.

(* [wasm/lib.rs:1272-1287]! PolicySqlRuntime::catalog *)
Definition catalog_column_dto (column : ColumnDescriptor) (nullable_on_denied : bool)
    (usage : list string) : CatalogColumnDto :=
  let v := cd_value column in
  {| gc_name := cd_name column; gc_logical_type := logical_type_name (vd_logical_type v);
     gc_representation := catalog_representation_name (vd_representation v);
     gc_nullable := vd_nullable v; gc_format := vd_format v;
     gc_constraints := constraints_json (vd_constraints v);
     gc_nullable_on_denied := nullable_on_denied; gc_usage := usage |}.

(* [wasm/lib.rs:1463-1472] catalog_descriptor *)
Definition catalog_descriptor (column : ColumnDescriptor) : CatalogDescriptorDto :=
  let v := cd_value column in
  {| gd_name := cd_name column; gd_logical_type := logical_type_name (vd_logical_type v);
     gd_representation := catalog_representation_name (vd_representation v);
     gd_nullable := vd_nullable v; gd_format := vd_format v;
     gd_constraints := constraints_json (vd_constraints v) |}.

(* [wasm/lib.rs:1584-1602] returning_columns *)
Definition returning_columns (resource : ResourceDescriptor) (returned : gset ColumnId)
    : list CatalogColumnDto :=
  map (fun column => catalog_column_dto column false ["projection"%string])
    (List.filter (fun column => bool_decide (cd_id column ∈ returned)) (columns resource)).

(** The columns a mutation may write, in the order of their identities. *)
(* [wasm/lib.rs:1301-1305]! PolicySqlRuntime::catalog *)
Definition writable_columns (resource : ResourceDescriptor) (written : gset ColumnId)
    : list ColumnDescriptor :=
  omap (column_by_id resource) (in_order column_compare (elements written)).

Context (policies : PolicyBundle) (max_rows : Z) (role : string).

(* [wasm/lib.rs:1267-1288]! PolicySqlRuntime::catalog *)
Definition select_column_dto (access : SelectAccess) (column : ColumnDescriptor)
    : option CatalogColumnDto :=
  let regular := bool_decide (cd_id column ∈ sa_regular_columns access) in
  let conditional := bool_decide (cd_id column ∈ sa_conditional_columns access) in
  if regular || conditional
  then Some (catalog_column_dto column conditional
               (select_column_usage conditional (sa_allow_aggregations access)
                  (sa_allow_windows access)))
  else None.

(* [wasm/lib.rs:1266-1336]! PolicySqlRuntime::catalog *)
Definition catalog_resource_dto (resource : ResourceDescriptor) : option CatalogResourceDto :=
  access ← select_access policies (Catalog.rd_id resource) role;
  Some
    {| gr_name := Catalog.rd_name resource;
       gr_operations :=
         {| go_select :=
              {| gs_columns := omap (select_column_dto access) (columns resource);
                 gs_allow_aggregations := sa_allow_aggregations access;
                 gs_allow_windows := sa_allow_windows access;
                 gs_max_rows := default max_rows (sa_max_rows access) |};
            go_insert :=
              (fun mutation =>
                 {| gn_columns :=
                      map (fun column =>
                        {| gi_descriptor := catalog_descriptor column;
                           gi_required := negb (vd_nullable (cd_value column)) |})
                        (writable_columns resource (ma_columns mutation));
                    gn_returning := returning_columns resource (ma_returning mutation) |})
              <$> insert_access policies (Catalog.rd_id resource) role;
            go_update :=
              (fun mutation =>
                 {| gu_columns :=
                      map catalog_descriptor (writable_columns resource (ma_columns mutation));
                    gu_returning := returning_columns resource (ma_returning mutation) |})
              <$> update_access policies (Catalog.rd_id resource) role;
            go_delete := (fun mutation => returning_columns resource (ma_returning mutation))
              <$> delete_access policies (Catalog.rd_id resource) role |} |}.
End catalog.

(** ** Compiling *)

(* [wasm/lib.rs:212-219] CommitCheckDto *)
Record CommitCheckDto := {
  kd_id : string;
  kd_triggered_by : list string;
  kd_role : option string;
  kd_timeout_ms : Z
}.
(* [wasm/lib.rs:197-210] CompileResponse *)
Record CompileResponse := {
  cr_abi_version : Z;
  cr_profile : string;
  cr_schema_version : string;
  cr_policy_version : string;
  cr_snapshot : string;
  cr_transaction_mode : string;
  cr_execution_handle : option Z;
  cr_statements : list CompiledStatementDto;
  cr_commit_checks : list CommitCheckDto
}.

(** [iter().position(p)]. *)
Fixpoint first_position {A} (p : A -> bool) (index : nat) (l : list A) : option nat :=
  match l with
  | [] => None
  | a :: l => if p a then Some index else first_position p (S index) l
  end.

Section runtime.
Context `{Target} `{Serde} `{SerdeNumber} `{RuntimeSerde} `{Base64} `{Regex} `{Dialect}.
Context (r : PolicySqlRuntime).

(* [wasm/lib.rs:2346-2348] endpoint_permission *)
Definition endpoint_permission (v : string) : runtime_result EndpointPermission :=
  ok_or (parse_access v) RuntimeError.Access.

(* [wasm/lib.rs:2350-2358] activate_auth *)
Definition activate_auth (authorized_json : string) (requested : EndpointPermission)
    : runtime_result AuthContext :=
  canonical ← ok_or (authorized_from_str authorized_json) RuntimeError.Session;
  map_error session_error (activate_authorized canonical requested).

(** What is refused before a statement is read. *)
(* [wasm/lib.rs:1353-1391]! PolicySqlRuntime::compile *)
Definition read_request (auth_json request_json permission : string)
    : runtime_result (EndpointPermission * AuthContext * AtomicRequest) :=
  let max_request_bytes := max_request_bytes (machine_limits (rt_limits r)) in
  if (AUTH_BYTES <? len auth_json)%Z then throw RuntimeError.Internal
  else if (compile_input_bytes max_request_bytes
           <? sat_add usize_max (len auth_json) (len request_json))%Z
  then throw RuntimeError.RequestTooLarge
  else
    endpoint ← endpoint_permission permission;
    auth ← activate_auth auth_json endpoint;
    check_compile_input request_json;;
    request ← ok_or (request_from_str request_json) RuntimeError.Envelope;
    if opt_existsb (fun expected =>
         negb (String.eqb (xs_schema_version expected) (rt_schema_version r))
         || negb (String.eqb (xs_policy_version expected) (rt_policy_version r)))
         (ar_expected request)
    then throw RuntimeError.Snapshot
    else if (rl_max_statements (rt_limits r) <? Z.of_nat (length (ar_statements request)))%Z
    then rejected RejectionKind.LimitExceeded
    else
      match first_position (fun statement =>
              to_usize (rl_max_sql_bytes (rt_limits r)) <? len (rs_sql statement))%Z
              0 (ar_statements request) with
      | Some index => throw (RuntimeError.SqlTooLargeAt index)
      | None => mret (endpoint, auth, request)
      end.

(* [wasm/lib.rs:1392-1411]! PolicySqlRuntime::compile *)
Definition statement_requests (endpoint : EndpointPermission) (request : AtomicRequest)
    : runtime_result (list StatementRequest) :=
  let limits := binding_limits (rt_limits r) in
  validate_deployment_surface (rt_catalog r) limits (ar_statements request);;
  collect_at (fun index statement =>
    map_error (fun e => at_statement e index)
      (statement_request (rt_catalog r) limits (value_limit (rt_limits r)) statement endpoint))
    0 (ar_statements request).

(* [wasm/lib.rs:1433-1443]! PolicySqlRuntime::compile *)
Definition commit_check_dto (check : ActivatedCommitCheck) : CommitCheckDto :=
  {| kd_id := acc_id check;
     kd_triggered_by :=
       map Catalog.rd_name (omap (resource_by_id (rt_catalog r))
         (in_order Z.compare (elements (acc_triggered_by check))));
     kd_role := acc_role check; kd_timeout_ms := acc_timeout_ms check |}.

(* [wasm/lib.rs:1347-1460] PolicySqlRuntime::compile *)
Definition compile_request_json (auth_json request_json permission : string)
    : runtime_result (CompileResponse * option (list CompiledStatement)) :=
  '(endpoint, auth, request) ← read_request auth_json request_json permission;
  requests ← statement_requests endpoint request;
  compiled ← map_error runtime_gateway_error
    (compile_envelope (rt_gateway r) auth endpoint (Some (rt_snapshot r)) requests);
  let read_only := forallb (fun statement =>
    bool_decide (plan_operation (sealed (cs_plan statement)) = OperationKind.Select)) compiled in
  statements ← collect (compiled_statement (rt_catalog r)) compiled;
  mret ({| cr_abi_version := ABI_VERSION; cr_profile := PROFILE_ID;
           cr_schema_version := rt_schema_version r; cr_policy_version := rt_policy_version r;
           cr_snapshot := rt_snapshot r;
           cr_transaction_mode := if read_only then "read" else "write";
           cr_execution_handle := None; cr_statements := statements;
           cr_commit_checks := map commit_check_dto (pb_commit_checks (rt_policies r)) |},
        if bool_decide (endpoint = EndpointPermission.Execute) then Some compiled else None).

(** ** Handles *)

(* [wasm/lib.rs:1026-1039] PolicySqlRuntime::store_plan *)
Definition store_plan (p : Plans) (compiled : list CompiledStatement)
    : runtime_result (Z * Plans) :=
  if (MAX_ACTIVE_EXECUTIONS <=? size (rt_plans p))%nat then throw RuntimeError.Busy
  else
    next ← ok_or (checked_add64 (rt_next_handle p) 1) RuntimeError.Busy;
    mret (rt_next_handle p,
          {| rt_plans := <[rt_next_handle p := compiled]> (rt_plans p); rt_next_handle := next |}).

(* [wasm/lib.rs:745-748] PolicySqlRuntime::release_execution *)
Definition release_execution (p : Plans) (handle : Z) : bool * Plans :=
  (bool_decide (is_Some (rt_plans p !! handle)),
   {| rt_plans := delete handle (rt_plans p); rt_next_handle := rt_next_handle p |}).

(* [wasm/lib.rs:706-732] PolicySqlRuntime::compile_json *)
Definition compile_and_store (p : Plans) (auth_json request_json permission : string)
    : runtime_result CompileResponse * Plans :=
  match compile_request_json auth_json request_json permission with
  | inr e => (throw e, p)
  | inl (response, None) => (mret response, p)
  | inl (response, Some compiled) =>
      match store_plan p compiled with
      | inr e => (throw e, p)
      | inl (handle, p) =>
          (mret {| cr_abi_version := cr_abi_version response; cr_profile := cr_profile response;
                   cr_schema_version := cr_schema_version response;
                   cr_policy_version := cr_policy_version response;
                   cr_snapshot := cr_snapshot response;
                   cr_transaction_mode := cr_transaction_mode response;
                   cr_execution_handle := Some handle; cr_statements := cr_statements response;
                   cr_commit_checks := cr_commit_checks response |}, p)
      end
  end.

(** ** Results *)

(** The columns the database returns for a plan: those of the result, their visibilities and the
    check. *)
(* [wasm/lib.rs:1050-1057]! PolicySqlRuntime::raw_result_bound *)
Definition emitted_columns (plan : CandidateExecutionPlan) : Z :=
  Z.of_nat (length (plan_result plan)
    + length (List.filter (fun column => bool_decide (is_Some (rc_visibility_column column)))
                (plan_result plan))
    + match plan_operation_check_column plan with Some _ => 1 | None => 0 end).

(* [wasm/lib.rs:1041-1069] PolicySqlRuntime::raw_result_bound *)
Definition raw_result_bound (p : Plans) (handle : Z) : runtime_result Z :=
  envelope ← ok_or (rt_plans p !! handle) RuntimeError.Internal;
  let plans := map (fun statement => sealed (cs_plan statement)) envelope in
  mret (Bounds.raw_result_bound (rl_max_result_bytes (rt_limits r))
          (rl_max_json_values (rt_limits r))
          (map (fun plan => (el_max_rows (plan_limits plan), emitted_columns plan)) plans)
          (foldl sat_add64 0 (map plan_column_metadata_bytes plans))).

(* [wasm/lib.rs:1071-1081] PolicySqlRuntime::statement_result_budget *)
Definition statement_result_budget (p : Plans) (handle : Z) : runtime_result ResultBudget :=
  raw_bytes ← raw_result_bound p handle;
  mret {| budget_raw_bytes := raw_bytes; budget_values := rl_max_json_values (rt_limits r);
          budget_result_bytes := U64_MAX |}.

(* [wasm/lib.rs:330-343] ValidatedExecuteResult *)
Record ValidatedExecuteResult := {
  ve_raw_bytes : Z;
  ve_values : Z;
  ve_columns : list string;
  ve_rows : list (list value);
  ve_redactions : list (list bool);
  ve_affected_rows : Z
}.

(* [wasm/lib.rs:1165-1181]! PolicySqlRuntime::validate_result_parts *)
Definition expected_types (plan : CandidateExecutionPlan) : list (list LogicalType) :=
  flat_map (fun column =>
    rc_possible_types column
    :: match rc_visibility_column column with Some _ => [[LogicalType.Boolean]] | None => [] end)
    (plan_result plan)
  ++ match plan_operation_check_column plan with Some _ => [[LogicalType.Boolean]] | None => [] end.

(** The cells of a row with the types of their columns, and the values counted so far. *)
(* [wasm/lib.rs:1198-1216]! PolicySqlRuntime::validate_result_parts *)
Fixpoint read_cells (values_limit values : Z) (cells : list value) (types : list (list LogicalType))
    : runtime_result (Z * list LogicalValue) :=
  match cells, types with
  | [], _ => mret (values, [])
  | _ :: _, [] => throw RuntimeError.RemoteResult
  | cell :: cells, expected :: types =>
      values ←
        (if bool_decide (LogicalType.Json ∈ expected) then
           match cell with
           | Value.String text =>
               inside ← ok_or (count_json_values text (values_limit - values))
                          (RuntimeError.Rejected RejectionKind.LimitExceeded);
               mret (values + inside)
           | _ => mret values
           end
         else mret values : runtime_result Z);
      read ← logical_result_value (value_limit (rt_limits r)) cell expected;
      '(values, rest) ← read_cells values_limit values cells types;
      mret (values, read :: rest)
  end.

(* [wasm/lib.rs:1191-1219]! PolicySqlRuntime::validate_result_parts *)
Fixpoint read_rows (values_limit values : Z) (types : list (list LogicalType))
    (rows : list (list value)) : runtime_result (Z * list (list LogicalValue)) :=
  match rows with
  | [] => mret (values, [])
  | row :: rows =>
      let values := sat_add64 values (Z.of_nat (length row)) in
      if (values_limit <? values)%Z then rejected RejectionKind.LimitExceeded
      else
        '(values, read) ← read_cells values_limit values row types;
        '(values, rest) ← read_rows values_limit values types rows;
        mret (values, read :: rest)
  end.

(** The crate [policysql-turso] slices texts: a panic stops the module. *)
(* [wasm/lib.rs:1226-1238]! PolicySqlRuntime::validate_result_parts *)
Definition adapter_error (e : Stop) : option RuntimeError :=
  match e with
  | Panicked => None
  | Failed AdapterError.ExpectationFailed =>
      Some (RuntimeError.Rejected RejectionKind.ExpectationFailed)
  | Failed AdapterError.LimitExceeded => Some (RuntimeError.Rejected RejectionKind.LimitExceeded)
  | Failed _ => Some RuntimeError.RemoteResult
  end.

(** [None] is a panic of the module. *)
(* [wasm/lib.rs:1149-1252] PolicySqlRuntime::validate_result_parts *)
Definition validate_result_parts (p : Plans) (handle : Z) (index : nat) (raw : RawResult)
    (raw_bytes : Z) (budget : ResultBudget) : option (runtime_result ValidatedExecuteResult) :=
  match rt_plans p !! handle ≫= (.!! index) with
  | None => Some (throw RuntimeError.RemoteResult)
  | Some statement =>
      let plan := cs_plan statement in
      let values := Z.of_nat (length (raw_columns raw)) in
      if (budget_values budget <? values)%Z
      then Some (rejected RejectionKind.LimitExceeded)
      else
        match read_rows (budget_values budget) values (expected_types (sealed plan))
                (raw_rows raw) with
        | inr e => Some (throw e)
        | inl (values, rows) =>
            match validate_sealed_result_within plan
                    {| er_columns := raw_columns raw; er_rows := rows; er_redactions := [];
                       er_affected_rows := raw_affected_rows raw |}
                    (budget_result_bytes budget) with
            | inr stop => throw <$> adapter_error stop
            | inl result =>
                Some (rows ← collect (collect encode_result_value) (er_rows result);
                      mret {| ve_raw_bytes := raw_bytes; ve_values := values;
                              ve_columns := er_columns result; ve_rows := rows;
                              ve_redactions := er_redactions result;
                              ve_affected_rows := er_affected_rows result |})
            end
        end
  end.

(** The length the result has as JSON. *)
(* [wasm/lib.rs:229-266] raw_result_bytes *)
Definition raw_result_bytes (raw : RawResult) : Z :=
  len (to_string (DMap
    [("columns", DSeq (map DStr (raw_columns raw)));
     ("rows", DSeq (map (fun row => DSeq (map doc_of_value row)) (raw_rows raw)));
     ("affectedRows", DU64 (raw_affected_rows raw))]%string)).

(* [wasm/lib.rs:1123-1147] PolicySqlRuntime::validate_raw_result_within *)
Definition validate_raw_result_within (p : Plans) (handle : Z) (index : nat) (raw : RawResult)
    (budget : ResultBudget) : option (runtime_result ValidatedExecuteResult) :=
  let raw_bytes := raw_result_bytes raw in
  if (budget_raw_bytes budget <? raw_bytes)%Z then Some (rejected RejectionKind.LimitExceeded)
  else validate_result_parts p handle index raw raw_bytes budget.

(* [wasm/lib.rs:1095-1121] PolicySqlRuntime::validate_result_within *)
Definition validate_result_within (p : Plans) (handle : Z) (index : nat) (raw_result_json : string)
    (budget : ResultBudget) : option (runtime_result ValidatedExecuteResult) :=
  let raw_bytes := len raw_result_json in
  if (budget_raw_bytes budget <? raw_bytes)%Z then Some (rejected RejectionKind.LimitExceeded)
  else
    match raw_result_from_str raw_result_json with
    | None => Some (throw RuntimeError.RemoteResult)
    | Some raw => validate_result_parts p handle index raw raw_bytes budget
    end.

(* [wasm/lib.rs:1083-1093] PolicySqlRuntime::validate_result *)
Definition validate_result (p : Plans) (handle : Z) (index : nat) (raw_result_json : string)
    : option (runtime_result ValidatedExecuteResult) :=
  match statement_result_budget p handle with
  | inr _ => Some (throw RuntimeError.RemoteResult)
  | inl budget => validate_result_within p handle index raw_result_json budget
  end.

(** ** The compiler of the step machine *)

(* [wasm/step.rs:18-45] core_error *)
Definition core_error (e : RuntimeError) : CoreError :=
  let log :=
    match e with
    | RuntimeError.TooComplexAt cause index =>
        Some ("sql_too_complex", index, ComplexityCause.name cause)
    | RuntimeError.EmittedSqlInvalidAt index =>
        Some ("emitted_sql_reparse_failed", index, "reparse")
    | _ => None
    end%string in
  let body := error_body e in
  {| err_code := eb_code body; err_message := eb_message body; err_path := eb_path body;
     err_log := (fun '(event, index, cause) => Value.object
       [("event", Value.String event); ("statementIndex", Value.u64 (Z.of_nat index));
        ("schemaVersion", Value.String (rt_schema_version r));
        ("policyVersion", Value.String (rt_policy_version r));
        ("abiVersion", Value.u64 ABI_VERSION); ("cause", Value.String cause)]%string) <$> log |}.

(* [wasm/step.rs:47-54] operation *)
Definition operation_of (name : string) : operation :=
  default Operation.Select (assoc name
    [("insert", Operation.Insert); ("update", Operation.Update); ("delete", Operation.Delete)]%string).

(** A result column as the public result shows it. *)
(* [wasm/step.rs:56-71] PublicColumn *)
Definition public_column_doc (column : ResultColumnDto) : Doc :=
  let representation :=
    default (rd_representation column)
      (assoc (rd_representation column) [("base64", "string"); ("json", "object")]%string) in
  DMap (([("name", DStr (rd_name column)); ("type", doc_of_value (rd_logical_type column));
         ("representation", DStr representation);
         ("nullable", DBool (rd_nullable column || rd_redacted_on_null column))]%string : list (string * Doc))
        ++ opt_member "format" DStr (rd_format column)
        ++ opt_member "constraints" doc_of_value (rd_constraints column)
        ++ opt_member "jsonSchema" doc_of_value (rd_json_schema column)).

(* [wasm/step.rs:90-101] PolicySqlRuntime::statement_dto *)
Definition statement_dto (p : Plans) (handle : Z) (index : nat)
    : runtime_result CompiledStatementDto :=
  statement ← ok_or (rt_plans p !! handle ≫= (.!! index)) RuntimeError.Internal;
  compiled_statement (rt_catalog r) statement.

(* [wasm/step.rs:121-134]! RuntimeCompiler::compile *)
Definition statement_summary (dto : CompiledStatementDto) : StatementSummary :=
  {| sum_operation := operation_of (sd_operation dto); sum_resource := sd_resource dto;
     sum_limits := sd_limits dto; sum_explain_resource := xd_resource (sd_explain dto) |}.

(* [wasm/step.rs:109-138] RuntimeCompiler::compile *)
Definition compiler_compile (p : Plans) (auth_json envelope_json : string)
    : Plans * (Compiled + CoreError) :=
  match compile_request_json auth_json envelope_json "execute" with
  | inr e => (p, inr (core_error e))
  | inl (response, None) => (p, inr (core_error RuntimeError.Internal))
  | inl (response, Some compiled) =>
      match store_plan p compiled with
      | inr e => (p, inr (core_error e))
      | inl (handle, p) =>
          (p, inl {| Compiler.handle := handle;
                     Compiler.statements := map statement_summary (cr_statements response);
                     Compiler.schema_version := cr_schema_version response;
                     Compiler.policy_version := cr_policy_version response |})
      end
  end.

(* [wasm/step.rs:140-162] RuntimeCompiler::statements *)
Definition compiler_statements (p : Plans) (handle : Z) : list DriverStatement + CoreError :=
  map_error core_error
    (envelope ← ok_or (rt_plans p !! handle) RuntimeError.Internal;
     collect (fun index =>
       dto ← statement_dto p handle index;
       mret {| Compiler.sql := sd_protected_sql dto;
               Compiler.client_parameters := sd_client_parameters dto;
               Compiler.server_parameters := sd_server_parameters dto;
               Compiler.cost_sql := sd_cost_explain_sql dto |})
       (seq 0 (length envelope))).

(* [wasm/step.rs:164-168] RuntimeCompiler::raw_result_bound *)
Definition compiler_raw_result_bound (p : Plans) (handle : Z) : Z + CoreError :=
  map_error core_error (raw_result_bound p handle).

(** A panic stops the module and nothing of the step is used: here it is told as an internal
    error. *)
(* [wasm/step.rs:170-217] RuntimeCompiler::validate *)
Definition compiler_validate (p : Plans) (handle : Z) (index : nat) (raw : RawResult)
    (budget : ResultBudget) : Validated + CoreError :=
  let at_index e := core_error (at_statement e index) in
  dto ← map_error at_index (statement_dto p handle index);
  validated ← map_error at_index
    (default (throw RuntimeError.Internal) (validate_raw_result_within p handle index raw budget));
  mret {| val_raw_bytes := ve_raw_bytes validated; val_values := ve_values validated;
          val_columns := ve_columns validated; val_rows := ve_rows validated;
          val_redactions := ve_redactions validated;
          val_affected_rows := ve_affected_rows validated;
          val_result_columns :=
            map (fun column => to_string (public_column_doc column)) (sd_result dto);
          val_operation_check := sd_operation_check dto |}.

(** A stable sort by the identifiers, which are distinct. *)
(* [wasm/step.rs:223-245] RuntimeCompiler::triggered_checks *)
Definition compiler_triggered_checks (resources : list string) : list TriggeredCheck :=
  let triggered (check : ActivatedCommitCheck) :=
    existsb (fun id =>
      opt_existsb (fun resource => str_in (Catalog.rd_name resource) resources)
        (resource_by_id (rt_catalog r) id)) (elements (acc_triggered_by check)) in
  map snd (foldl (fun sorted check => fst (Btree.bt_insert String.compare (check_id check) check sorted))
    [] (map (fun check => {| check_id := acc_id check; check_role := acc_role check;
                             check_timeout_ms := acc_timeout_ms check |})
         (List.filter triggered (pb_commit_checks (rt_policies r))))).

(* [wasm/lib.rs:1254-1345] PolicySqlRuntime::catalog *)
Definition catalog_of (auth_json : string) : runtime_result CatalogResponse :=
  if (AUTH_BYTES <? len auth_json)%Z then throw RuntimeError.Internal
  else
    auth ← activate_auth auth_json EndpointPermission.Catalog;
    let role := session_role (auth_session auth) in
    mret {| gp_schema_version := rt_schema_version r; gp_policy_version := rt_policy_version r;
            gp_role := role;
            gp_resources :=
              omap (catalog_resource_dto (rt_policies r) (el_max_rows (gw_limits (rt_gateway r)))
                      role)
                (resources (rt_catalog r)) |}.
End runtime.
