(* ===== verification/Service.v ===== *)
(** * What the module exports

    The exported methods of [PolicySqlRuntime] (policysql-wasm, lib.rs and step.rs): the JSON texts
    they return, by the derived [Serialize] of their types, and the runtime as the compiler of the
    step machine. The state of that compiler is the plans with the invariant of their handles:
    every handle in use was given out. The laws the step machine states of its compiler hold. *)

From S2P Require Import Prelude Identity Result F64 Utf8 SerdeJson Compiler State Bounds Limits.
From S2P Require Import Core Access Bytes Catalog Policy Activate Turso Binding Gateway.
From S2P Require Import SqlAst Sealing Volatile Io Atomic Run Values Manifest Runtime.

(** ** Documents *)

(** The value of a member that is [null] when absent. *)
Definition DText (o : option string) : Doc := DOpt DStr o.
(** A map of texts, in the order of its names. *)
Definition map_doc {A} (f : A -> Doc) (m : gmap string A) : Doc :=
  DMap (foldl (fun members '(name, a) =>
          fst (Btree.bt_insert String.compare name (f a) members)) [] (map_to_list m)).

(* [wasm/lib.rs:513-519]! ErrorBody *)
Definition error_doc (e : ErrorBody) : Doc :=
  DMap [("code", DStr (eb_code e)); ("message", DStr (eb_message e));
        ("path", DText (eb_path e))]%string.
(* [wasm/lib.rs:497-500] ErrorEnvelope *)
Definition error_envelope (e : ErrorBody) : Doc := DMap [("error"%string, error_doc e)].
(* [wasm/session.rs:38-49]! SessionFault *)
Definition fault_name (fault : SessionFault.session_fault) : string :=
  match fault with
  | SessionFault.Shape => "shape"
  | SessionFault.Principal => "principal"
  | SessionFault.Subject => "subject"
  | SessionFault.Roles => "roles"
  | SessionFault.DefaultRole => "default_role"
  | SessionFault.Access => "access"
  | SessionFault.Session => "session"
  end.

(* [wasm/session.rs:25-36]! AuthorizedSession *)
Definition authorized_doc (auth : AuthorizedSession) : Doc :=
  DMap [("principal", DStr (as_principal auth)); ("subject", DStr (as_subject auth));
        ("role", DStr (as_role auth)); ("roles", DSeq (map DStr (as_roles auth)));
        ("access", DSeq (map DStr (as_access auth)));
        ("session", DMap (map (fun '(name, claim) => (name, DStr claim)) (as_session auth)))]%string.

(* [wasm/limits.rs:188-219]! RuntimeLimits *)
Definition limits_doc (l : RuntimeLimits) : Doc :=
  DMap [("maxRows", DU64 (rl_max_rows l)); ("maxResultBytes", DU64 (rl_max_result_bytes l));
        ("timeoutMs", DU64 (rl_timeout_ms l)); ("maxStatements", DU64 (rl_max_statements l));
        ("transactionMs", DU64 (rl_transaction_ms l));
        ("maxTransactionStatements", DU64 (rl_max_transaction_statements l));
        ("maxTransactionResultBytes", DU64 (rl_max_transaction_result_bytes l));
        ("maxCallbackRows", DU64 (rl_max_callback_rows l));
        ("beginTimeoutMs", DU64 (rl_begin_timeout_ms l));
        ("costTimeoutMs", DU64 (rl_cost_timeout_ms l));
        ("maxRequestBytes", DU64 (rl_max_request_bytes l));
        ("maxJsonValues", DU64 (rl_max_json_values l));
        ("maxSqlBytes", DU64 (rl_max_sql_bytes l));
        ("maxParameters", DU64 (rl_max_parameters l));
        ("maxExpressionDepth", DU64 (rl_max_expression_depth l));
        ("maxProjections", DU64 (rl_max_projections l)); ("maxJoins", DU64 (rl_max_joins l));
        ("maxBytesPerValue", DU64 (rl_max_bytes_per_value l));
        ("maxResponseBytes", DU64 (rl_max_response_bytes l));
        ("maxCommitChecks", DU64 (rl_max_commit_checks l));
        ("maxHookDurationMs", DU64 (rl_max_hook_duration_ms l))]%string.

(** ** The compiled request *)

(* [wasm/lib.rs:364-377]! ResultColumnDto *)
Definition result_column_doc (column : ResultColumnDto) : Doc :=
  DMap ([("name", DStr (rd_name column)); ("logicalType", doc_of_value (rd_logical_type column));
         ("representation", DStr (rd_representation column));
         ("nullable", DBool (rd_nullable column)); ("format", DText (rd_format column))]%string
        ++ opt_member "constraints" doc_of_value (rd_constraints column)
        ++ opt_member "jsonSchema" doc_of_value (rd_json_schema column)
        ++ [("redactedOnNull"%string, DBool (rd_redacted_on_null column))]).

(* [wasm/lib.rs:387-402]! ExplainDto *)
Definition explain_doc (explain : ExplainDto) : Doc :=
  DMap [("resource", DOpt DU64 (xd_resource explain));
        ("resources", DSeq (map DU64 (xd_resources explain)));
        ("resourceNames", DSeq (map DStr (xd_resource_names explain)));
        ("publicResources", DSeq (map (fun resource =>
           DMap [("name", DStr (xr_name resource));
                 ("columns", DSeq (map DStr (xr_columns resource)))])
           (xd_public_resources explain)));
        ("appliedPolicies", DSeq (map DU64 (xd_applied_policies explain)));
        ("policyLimit", DOpt DU64 (xd_policy_limit explain))]%string.

(* [wasm/lib.rs:379-385]! LimitsDto *)
Definition statement_limits_doc (l : StatementLimits) : Doc :=
  DMap [("maxRows", DU64 (max_rows l)); ("maxResultBytes", DU64 (max_result_bytes l));
        ("timeoutMs", DU64 (timeout_ms l))]%string.

(* [wasm/lib.rs:345-362]! CompiledStatementDto *)
Definition statement_doc (statement : CompiledStatementDto) : Doc :=
  let parameters l := DMap (map (fun '(name, v) => (name, doc_of_value v)) l) in
  DMap [("operation", DStr (sd_operation statement)); ("resource", DText (sd_resource statement));
        ("operationCheck", DBool (sd_operation_check statement));
        ("protectedSql", DStr (sd_protected_sql statement));
        ("costExplainSql", DStr (sd_cost_explain_sql statement));
        ("clientParameters", parameters (sd_client_parameters statement));
        ("clientParameterTypes", map_doc DStr (sd_client_parameter_types statement));
        ("clientParameterNullable", map_doc DBool (sd_client_parameter_nullable statement));
        ("serverParameters", parameters (sd_server_parameters statement));
        ("result", DSeq (map result_column_doc (sd_result statement)));
        ("limits", statement_limits_doc (sd_limits statement));
        ("expectedAffectedRows", DOpt DU64 (sd_expected_affected_rows statement));
        ("expectedResultRows", DOpt DU64 (sd_expected_result_rows statement));
        ("explain", explain_doc (sd_explain statement))]%string.

(* [wasm/lib.rs:212-219]! CommitCheckDto *)
Definition commit_check_doc (check : CommitCheckDto) : Doc :=
  DMap [("id", DStr (kd_id check)); ("triggeredBy", DSeq (map DStr (kd_triggered_by check)));
        ("role", DText (kd_role check)); ("timeoutMs", DU64 (kd_timeout_ms check))]%string.

(* [wasm/lib.rs:197-210]! CompileResponse *)
Definition compile_response_doc (response : CompileResponse) : Doc :=
  DMap ([("abiVersion", DU64 (cr_abi_version response)); ("profile", DStr (cr_profile response));
         ("schemaVersion", DStr (cr_schema_version response));
         ("policyVersion", DStr (cr_policy_version response));
         ("snapshot", DStr (cr_snapshot response));
         ("transactionMode", DStr (cr_transaction_mode response))]%string
        ++ opt_member "executionHandle" DU64 (cr_execution_handle response)
        ++ [("statements", DSeq (map statement_doc (cr_statements response)));
            ("commitChecks", DSeq (map commit_check_doc (cr_commit_checks response)))]%string).

(* [wasm/lib.rs:330-343]! ValidatedExecuteResult *)
Definition execute_result_doc (result : ValidatedExecuteResult) : Doc :=
  DMap [("columns", DSeq (map DStr (ve_columns result)));
        ("rows", DSeq (map (fun row => DSeq (map doc_of_value row)) (ve_rows result)));
        ("redactions", DSeq (map (fun row => DSeq (map DBool row)) (ve_redactions result)));
        ("affectedRows", DU64 (ve_affected_rows result))]%string.

(** ** The catalog of a role *)

(* [wasm/lib.rs:439-453]! CatalogColumnDto *)
Definition catalog_column_doc (column : CatalogColumnDto) : Doc :=
  DMap ([("name", DStr (gc_name column)); ("type", DStr (gc_logical_type column));
         ("representation", DStr (gc_representation column));
         ("nullable", DBool (gc_nullable column))]%string
        ++ opt_member "format" DStr (gc_format column)
        ++ opt_member "constraints" doc_of_value (gc_constraints column)
        ++ [("nullableOnDenied", DBool (gc_nullable_on_denied column));
            ("usage", DSeq (map DStr (gc_usage column)))]%string).

(** The members of a descriptor, which [serde(flatten)] puts into those of an insertable column. *)
(* [wasm/lib.rs:484-495]! CatalogDescriptorDto *)
Definition descriptor_members (d : CatalogDescriptorDto) : list (string * Doc) :=
  [("name", DStr (gd_name d)); ("type", DStr (gd_logical_type d));
   ("representation", DStr (gd_representation d)); ("nullable", DBool (gd_nullable d))]%string
  ++ opt_member "format" DStr (gd_format d)
  ++ opt_member "constraints" doc_of_value (gd_constraints d).

(* [wasm/lib.rs:472-475]! CatalogReturningDto *)
Definition returning_doc (columns : list CatalogColumnDto) : Doc :=
  DMap [("columns"%string, DSeq (map catalog_column_doc columns))].

(* [wasm/lib.rs:455-482]! CatalogInsertDto *)
Definition insert_doc (insert : CatalogInsertDto) : Doc :=
  DMap [("columns", DSeq (map (fun column =>
           DMap (descriptor_members (gi_descriptor column)
                 ++ [("required", DBool (gi_required column))])) (gn_columns insert)));
        ("returning", returning_doc (gn_returning insert))]%string.
(* [wasm/lib.rs:461-465]! CatalogUpdateDto *)
Definition update_doc (update : CatalogUpdateDto) : Doc :=
  DMap [("columns", DSeq (map (fun d => DMap (descriptor_members d)) (gu_columns update)));
        ("returning", returning_doc (gu_returning update))]%string.
(* [wasm/lib.rs:466-470]! CatalogDeleteDto *)
Definition delete_doc (returning : list CatalogColumnDto) : Doc :=
  DMap [("returning"%string, returning_doc returning)].
(* [wasm/lib.rs:430-437]! CatalogSelectDto *)
Definition select_doc (s : CatalogSelectDto) : Doc :=
  DMap [("columns", DSeq (map catalog_column_doc (gs_columns s)));
        ("allowAggregations", DBool (gs_allow_aggregations s));
        ("allowWindows", DBool (gs_allow_windows s)); ("maxRows", DU64 (gs_max_rows s))]%string.

(* [wasm/lib.rs:413-428]! CatalogResourceDto *)
Definition catalog_resource_doc (resource : CatalogResourceDto) : Doc :=
  let operations := gr_operations resource in
  DMap [("name", DStr (gr_name resource));
        ("operations", DMap ([("select", select_doc (go_select operations))]
           ++ opt_member "insert" insert_doc (go_insert operations)
           ++ opt_member "update" update_doc (go_update operations)
           ++ opt_member "delete" delete_doc (go_delete operations))%list)]%string.

(* [wasm/lib.rs:404-411]! CatalogResponse *)
Definition catalog_doc (response : CatalogResponse) : Doc :=
  DMap [("schemaVersion", DStr (gp_schema_version response));
        ("policyVersion", DStr (gp_policy_version response)); ("role", DStr (gp_role response));
        ("resources", DSeq (map catalog_resource_doc (gp_resources response)))]%string.

(** ** The exported methods *)

Section service.
Context `{Target} `{Serde} `{SerdeNumber} `{RuntimeSerde} `{Base64} `{Regex} `{Dialect}.
Context (r : PolicySqlRuntime).

(** A body error is its code and its message. *)
(* [wasm/lib.rs:287-289] body_error *)
Definition body_error (e : ErrorBody) : string :=
  to_string (DMap [("error", DMap [("code", DStr (eb_code e));
                                   ("message", DStr (eb_message e))])])%string.

(** What an error is answered with. *)
(* [wasm/lib.rs:497-500]! ErrorEnvelope *)
Definition error_text (e : RuntimeError) : string := to_string (error_envelope (error_body e)).

(* [wasm/lib.rs:676-686] PolicySqlRuntime::limits_json *)
Definition limits_json : string := to_string (limits_doc (rt_limits r)).

(* [wasm/lib.rs:700-704] PolicySqlRuntime::commit_checks_enabled *)
Definition commit_checks_enabled : bool :=
  negb (bool_decide (pb_commit_checks (rt_policies r) = [])).

(* [wasm/lib.rs:706-732] PolicySqlRuntime::compile_json *)
Definition compile_json (p : Plans) (auth_json request_json permission : string)
    : string * Plans :=
  let '(outcome, p) := compile_and_store r p auth_json request_json permission in
  (match outcome with
   | inl response => to_string (compile_response_doc response)
   | inr e => error_text e
   end, p).

(** [None] is a panic of the module. *)
(* [wasm/lib.rs:734-743] PolicySqlRuntime::validate_result_json *)
Definition validate_result_json (p : Plans) (handle : Z) (index : nat) (raw_result_json : string)
    : option string :=
  (fun outcome =>
     match outcome with
     | inl response => to_string (execute_result_doc response)
     | inr e => error_text (at_statement e index)
     end) <$> validate_result r p handle index raw_result_json.

(* [wasm/lib.rs:750-765] PolicySqlRuntime::check_body_json *)
Definition check_body_json (body_text : string) : string :=
  match check_body body_text (machine_limits (rt_limits r)) with
  | inl _ => to_string (DMap [("ok"%string, DBool true)])
  | inr e => body_error e
  end.

(* [wasm/lib.rs:767-801] PolicySqlRuntime::begin_body_json *)
Definition begin_body_json (body_text : string) : string :=
  match begin_body body_text (machine_limits (rt_limits r)) with
  | inl (mode, expected) =>
      to_string (DMap ([("ok", DBool true); ("mode", DStr mode)]%string
                       ++ opt_member "expected" doc_of_value expected))
  | inr e => body_error e
  end.

(* [wasm/lib.rs:830-840]! PolicySqlRuntime::authorize_session_json *)
Definition read_session (session_json : string) : result SessionError.session_error SessionInput :=
  if (SESSION_INPUT_BYTES <? len session_json)%Z
  then throw (SessionError.Malformed SessionFault.Shape)
  else ok_or (session_from_str session_json) (SessionError.Malformed SessionFault.Shape).

(* [wasm/lib.rs:814-848]! PolicySqlRuntime::authorize_session_json *)
Definition authorize_session_json (session_json : string) (requested_role : option string)
    (required_access : string) : string :=
  match parse_access required_access with
  | None => error_text RuntimeError.Internal
  | Some required =>
      match input ← read_session session_json; authorize_session input requested_role required with
      | inl (auth, _) => to_string (DMap [("auth"%string, authorized_doc auth)])
      | inr (SessionError.Malformed fault) =>
          to_string (DMap [("error", error_doc (error_body RuntimeError.Session));
                           ("fault", DStr (fault_name fault))]%string)
      | inr SessionError.Forbidden => error_text RuntimeError.Access
      end
  end.

(* [wasm/lib.rs:929-938] PolicySqlRuntime::catalog_json *)
Definition catalog_json (auth_json : string) : string :=
  match catalog_of r auth_json with
  | inl response => to_string (catalog_doc response)
  | inr e => error_text e
  end.

(** ** The runtime as the compiler of the step machine *)

(** Every handle in use was given out. *)
Definition handles_given (p : Plans) : Prop :=
  forall h, is_Some (rt_plans p !! h) -> (h < rt_next_handle p)%Z.

Lemma no_plans_given : handles_given no_plans.
Proof. intros h [plan Hh]. simpl in Hh. by rewrite lookup_empty in Hh. Qed.

Lemma store_plan_inl p compiled h p' :
  store_plan p compiled = inl (h, p') ->
  (size (rt_plans p) < MAX_ACTIVE_EXECUTIONS)%nat
  /\ h = rt_next_handle p
  /\ p' = {| rt_plans := <[h := compiled]> (rt_plans p); rt_next_handle := (h + 1)%Z |}.
Proof.
  unfold store_plan. destruct (MAX_ACTIVE_EXECUTIONS <=? _)%nat eqn:Hsize; [done|].
  apply Nat.leb_gt in Hsize. intros Hp. apply result_bind_inl in Hp as (next & Hnext & [= <- <-]).
  apply ok_or_inl in Hnext. unfold checked_add64 in Hnext. destruct (_ <=? _)%Z; [|done].
  by injection Hnext as <-.
Qed.

Lemma store_plan_given p compiled h p' :
  handles_given p -> store_plan p compiled = inl (h, p') -> handles_given p'.
Proof.
  intros Hp (_ & -> & ->)%store_plan_inl h' Hh. simpl in *.
  destruct (decide (h' = rt_next_handle p)) as [->|Hne]; [lia|].
  rewrite lookup_insert_ne in Hh by done. specialize (Hp _ Hh). lia.
Qed.

Lemma compiler_compile_cases p auth envelope :
  (exists e, compiler_compile r p auth envelope = (p, inr e))
  \/ exists compiled h p' c, store_plan p compiled = inl (h, p')
       /\ compiler_compile r p auth envelope = (p', inl c) /\ Compiler.handle c = h.
Proof.
  unfold compiler_compile. destruct (compile_request_json _ _ _ _) as [[response [compiled|]]|e];
    [|by left; eexists..]. destruct (store_plan p compiled) as [[h p']|e] eqn:Hs; [|by left; eexists].
  right. by eexists _, _, _, _.
Qed.

Lemma compiler_compile_given p auth envelope :
  handles_given p -> handles_given (fst (compiler_compile r p auth envelope)).
Proof.
  intros Hp. destruct (compiler_compile_cases p auth envelope)
    as [[e ->]|(compiled & h & p' & c & Hs & -> & _)]; [done|]. by eapply store_plan_given.
Qed.

Lemma release_given p h : handles_given p -> handles_given (snd (release_execution p h)).
Proof.
  intros Hp h' [plan Hh]. simpl in *. apply lookup_delete_Some in Hh as [_ Hh]. eauto.
Qed.

(** The plans of a runtime that is used through the step machine. *)
Definition GivenPlans : Type := {p : Plans | handles_given p}.

(* [wasm/step.rs:103-246]! RuntimeCompiler *)
Definition runtime_compiler : Compiler := {|
  CS := GivenPlans;
  snapshot_of _ := rt_snapshot r;
  compile cs auth envelope :=
    (exist _ (fst (compiler_compile r (proj1_sig cs) auth envelope))
       (compiler_compile_given (proj1_sig cs) auth envelope (proj2_sig cs)),
     snd (compiler_compile r (proj1_sig cs) auth envelope));
  driver_statements cs := compiler_statements r (proj1_sig cs);
  raw_result_bound_of cs := compiler_raw_result_bound r (proj1_sig cs);
  validate cs h index := compiler_validate r (proj1_sig cs) h (Z.to_nat index);
  release_handle cs h :=
    exist _ (snd (release_execution (proj1_sig cs) h)) (release_given (proj1_sig cs) h (proj2_sig cs));
  triggered_checks _ := compiler_triggered_checks r
|}.

Lemma runtime_compiler_compile cs auth envelope cs' out :
  compile (Compiler := runtime_compiler) cs auth envelope = (cs', out) ->
  compiler_compile r (proj1_sig cs) auth envelope = (proj1_sig cs', out).
Proof. intros [= <- <-]. simpl. by destruct (compiler_compile _ _ _ _). Qed.

(** The live handles are those of the table. *)
#[local] Existing Instance runtime_compiler.
Definition runtime_compiler_laws : CompilerLaws (H := runtime_compiler).
Proof.
  refine (@Build_CompilerLaws runtime_compiler
            (fun cs : GivenPlans => dom (rt_plans (proj1_sig cs))) _ _ _ _ _).
  - intros cs auth envelope cs' c Hc%runtime_compiler_compile.
    destruct (compiler_compile_cases (proj1_sig cs) auth envelope)
      as [[e He]|(compiled & h & p & c' & Hs & Hc' & Hh)]; [congruence|].
    rewrite Hc in Hc'. injection Hc' as -> ->. apply store_plan_inl in Hs as (_ & Hnext & ->). rewrite Hh, Hnext.
    split; simpl.
    + rewrite elem_of_dom. intros Hin%(proj2_sig cs). lia.
    + by rewrite dom_insert_L.
  - intros cs auth envelope cs' e Hc%runtime_compiler_compile.
    destruct (compiler_compile_cases (proj1_sig cs) auth envelope)
      as [[e' He]|(compiled & h & p & c' & Hs & Hc' & Hh)]; [|congruence].
    rewrite Hc in He. by injection He as ->.
  - intros cs h. apply dom_delete_L.
  - done.
  - done.
Defined.

Context `{StateSerde} `{Sha2} `{AtomicSerde} `{Unicode} `{EventSerde}.

(** One step of the machine over the runtime, with the effects as data: [None] is the text of an
    internal error without a state. *)
(* [wasm/lib.rs:898-915]! PolicySqlRuntime::step_json *)
Definition runtime_step (cs : GivenPlans) (durable volatile : option string) (event host : string)
    : option (GivenPlans * Output) :=
  run (H3 := runtime_compiler) cs (machine_limits (rt_limits r)) durable volatile event host.
End service.
