(* ===== verification/Frames.v ===== *)
(** * Frame reasoning about handlers

    A handler changes the step's state in known ways only. [frames R m] says
    that [m] relates the state it starts from to the state it ends in, whatever
    its result; it is closed under sequencing when [R] is a preorder. The
    relation proved of every handler here is [evolves ok]: effects are only
    added at the end, each added effect satisfies [ok], and neither [reset] nor
    [abandoned] changes. *)

From S2P Require Import Prelude F64 SerdeJson Compiler State Volatile Io Canonical Bounds.
From S2P Require Import Identity Machine Checks Commands Interactive.
From S2P Require Import Interactive Atomic Execution Run.

Create HintDb frames.

Section logic.
Context `{Compiler}.
Variable R : St -> St -> Prop.
Context `{!PreOrder R}.

(** [m] ends in a state related to the one it starts from. *)
Definition frames {A} (m : M A) : Prop := forall s, R s (snd (m s)).

Lemma frames_ret {A} (a : A) : frames (mret a).
Proof. intros s. simpl. reflexivity. Qed.

Lemma frames_bind {A B} (m : M A) (k : A -> M B) :
  frames m -> (forall a, frames (k a)) -> frames (m ≫= k).
Proof.
  intros Hm Hk s. unfold mbind, M_bind. specialize (Hm s).
  destruct (m s) as [[a|f] s'] eqn:E; simpl in *; [|done].
  etransitivity; [exact Hm | apply Hk].
Qed.

(** The same when every value [m] returns has a property the rest relies on. *)
Lemma frames_bind_post {A B} (P : A -> Prop) (m : M A) (k : A -> M B) :
  frames m -> (forall s a s', m s = (inl a, s') -> P a) ->
  (forall a, P a -> frames (k a)) -> frames (m ≫= k).
Proof.
  intros Hm Hp Hk s. unfold mbind, M_bind. specialize (Hm s).
  destruct (m s) as [[a|f] s'] eqn:E; simpl in *; [|done].
  etransitivity; [exact Hm | eapply Hk, Hp, E].
Qed.

Lemma frames_get : frames get.
Proof. intros s. simpl. reflexivity. Qed.
Lemma frames_gets {A} (f : St -> A) : frames (gets f).
Proof. intros s. simpl. reflexivity. Qed.
Lemma frames_fault {A} f : frames (fault f : M A).
Proof. intros s. simpl. reflexivity. Qed.
Lemma frames_lift {A} (r : A + Fault) : frames (lift r).
Proof. intros s. simpl. reflexivity. Qed.
Lemma frames_or_fault {A} f (o : option A) : frames (or_fault f o).
Proof. destruct o; [apply frames_ret | apply frames_fault]. Qed.
Lemma frames_attempt {A} (m : M A) : frames m -> frames (attempt m).
Proof. intros Hm s. specialize (Hm s). unfold attempt. by destruct (m s). Qed.
Lemma frames_modify f : (forall s, R s (f s)) -> frames (modify f).
Proof. intros Hf s. apply Hf. Qed.
End logic.

#[export] Hint Resolve frames_ret frames_get frames_gets frames_fault frames_lift
  frames_or_fault : frames.
#[export] Hint Extern 0 (PreOrder _) => exact _ : frames.

(** Walks a handler: sequencing, case analysis, then the lemmas of [frames]. *)
Ltac frame_split :=
  lazymatch goal with
  | |- frames _ (mbind _ _) => apply frames_bind; [try exact _ | | intros ?]
  | |- frames _ (attempt _) => apply frames_attempt
  | |- frames _ (let '_ := ?x in _) => destruct x
  | |- frames _ (match ?x with _ => _ end) => destruct x
  | |- frames _ (let _ := _ in _) => cbv zeta
  end.
Ltac frame_go := repeat (intros; first [ solve [auto 3 with frames] | frame_split ]).

(** ** The primitives of a frame relation *)

(** An immediate effect. *)
Definition quiet (e : effect) : bool := negb (Effect.is_awaited e).

Definition is_commit (e : effect) : bool := match e with Effect.Commit _ => true | _ => false end.

(** An update of the volatile part that starts no wait: the identity fields stay, and a lane
    keeps what it waits for or forgets it. *)
Definition benign (f : Volatile -> Volatile) : Prop :=
  forall vol, v (f vol) = v vol /\ vol_owner (f vol) = vol_owner vol
    /\ next_effect_id (f vol) = next_effect_id vol
    /\ (pending (f vol) = pending vol \/ pending (f vol) = None)
    /\ (callback (f vol) = callback vol \/ callback (f vol) = None).

(** The effect carries the id it is given and waits for the outcome the lane expects. *)
Definition expects (expected : Awaited.awaited) (eff : Z -> effect) : Prop :=
  forall id, Effect.effect_id (eff id) = Some id /\ Effect.awaits (eff id) = Some expected.

#[export] Hint Extern 2 (benign _) =>
  (intros ?; repeat split; simpl; repeat case_match; simpl; auto) : frames.
#[export] Hint Extern 2 (expects _ _) => (intros ?; split; reflexivity) : frames.

Section base.
Context `{Target} `{Serde} `{StateSerde} `{Sha2} `{Compiler} `{Env}.

(** A live record is never in the phase of a tombstone. *)
Definition not_discarded (d : durable) : Prop :=
  match d with Durable.Live r => rec_phase r <> Phase.Discarded | Durable.Tombstone _ => True end.

(** A stored record belongs to this owner, or has the owner of the record it replaces. *)
Definition owned_update (s : St) (d : durable) : Prop :=
  (durable_owner d = this_owner /\ not_discarded d)
  \/ exists d', durable_of s = Some d' /\ durable_owner d = durable_owner d'
       /\ (not_discarded d' -> not_discarded d).

(** A relation every handler preserves once these primitives do. [ok] restricts the awaited
    effects. *)
Class Base (R : St -> St -> Prop) (ok : effect -> bool) : Prop := {
  base_preorder :: PreOrder R;
  base_push e : quiet e = true -> frames R (push e);
  base_wait lane r t eff :
    expects (awaited_by t) eff -> (forall id, ok (eff id) = true) -> frames R (wait lane r t eff);
  base_wait_callback r h t eff :
    expects (CallbackTask.awaits t) eff -> (forall id, ok (eff id) = true) ->
    frames R (wait_callback r h t eff);
  base_volatile f : benign f -> frames R (with_volatile f);
  base_volatile_mut f : benign f -> frames R (volatile_mut f);
  base_drop : frames R (modify (set_volatile None));
  base_request r : frames R (modify (set_request r));
  base_allocated h : frames R (modify (fun s => set_allocated (allocated s ++ [h]) s));
  base_compile auth envelope : frames R (compile_in_compiler auth envelope);
  base_release h : frames R (release_in_compiler h);
  base_release_all : frames R release_all;
  base_store s d : owned_update s d -> R s (set_durable (Some d) s)
  }.
End base.

#[export] Hint Extern 1 (not_discarded (Durable.Tombstone _)) => exact I : frames.

(** Which effects [ok] accepts: the immediate ones, and every one but [Commit]. *)
Class AcceptsQuiet (ok : effect -> bool) := accepts_quiet e : quiet e = true -> ok e = true.
Class AcceptsTame (ok : effect -> bool) := accepts_tame e : is_commit e = false -> ok e = true.

#[export] Instance tame_quiet ok : AcceptsTame ok -> AcceptsQuiet ok.
Proof. intros Ht e He. apply Ht. by destruct e. Qed.

Section evolves.
Context `{Target} `{Serde} `{StateSerde} `{Sha2} `{Compiler} `{Env}.
Variable ok : effect -> bool.

Definition evolves (s s' : St) : Prop :=
  (exists l, effects s' = effects s ++ l /\ forallb ok l = true)
  /\ reset s' = reset s /\ abandoned s' = abandoned s.

#[export] Instance evolves_preorder : PreOrder evolves.
Proof.
  split.
  - intros s. split; [|done]. exists []. by rewrite app_nil_r.
  - intros s1 s2 s3 [(l & El & Hl) [Hr Ha]] [(k & Ek & Hk) [Hr' Ha']].
    split; [|by rewrite Hr', Hr, Ha', Ha].
    exists (l ++ k). rewrite Ek, El, <- app_assoc, forallb_app, Hl, Hk. done.
Qed.

(** Same effects, [reset] and [abandoned]. *)
Lemma evolves_same s s' :
  effects s' = effects s -> reset s' = reset s -> abandoned s' = abandoned s -> evolves s s'.
Proof. intros He Hr Ha. split; [|done]. exists []. by rewrite app_nil_r. Qed.

Lemma frames_modify_same f :
  (forall s, effects (f s) = effects s /\ reset (f s) = reset s /\ abandoned (f s) = abandoned s) ->
  frames evolves (modify f).
Proof. intros Hf. apply frames_modify. intros s. destruct (Hf s) as (? & ? & ?). by apply evolves_same. Qed.

Lemma evolves_push e : ok e = true -> frames evolves (push e).
Proof.
  intros Hok. apply frames_modify. intros s. split; [|done]. exists [e].
  by simpl; rewrite Hok.
Qed.

Lemma evolves_wait lane r t eff :
  (forall id, ok (eff id) = true) -> frames evolves (wait lane r t eff).
Proof.
  intros Hok. unfold wait, volatile_mut, with_volatile.
  repeat (intros; first [ by apply frames_modify_same | by apply evolves_push
    | by apply frames_gets, _ | by apply frames_fault, _ | frame_split ]).
Qed.

Lemma evolves_wait_callback r h t eff :
  (forall id, ok (eff id) = true) -> frames evolves (wait_callback r h t eff).
Proof.
  intros Hok. unfold wait_callback, volatile_mut, with_volatile.
  repeat (intros; first [ by apply frames_modify_same | by apply evolves_push
    | by apply frames_gets, _ | by apply frames_fault, _ | frame_split ]).
Qed.

#[export] Instance evolves_base : AcceptsQuiet ok -> Base evolves ok.
Proof.
  intros Hq. split; intros; unfold with_volatile, volatile_mut, release_all, release_in_compiler;
    try (apply frames_modify_same; intros; by repeat case_match).
  - exact _.
  - by apply evolves_push, Hq.
  - by apply evolves_wait.
  - by apply evolves_wait_callback.
  - intros s. unfold compile_in_compiler. destruct (compile _ _ _) as [cs r]. by apply evolves_same.
  - by apply evolves_same.
Qed.
End evolves.
