(* ===== verification/HandlerFrames.v ===== *)
(** * Every handler preserves a frame relation

    The frame lemma of each operation, for any relation with the primitives of
    [Base]; the operations that may commit need [ok] to accept [Commit]. *)

From S2P Require Import Prelude F64 SerdeJson Compiler State Volatile Io Bounds Canonical.
From S2P Require Import Identity Machine Checks Commands Interactive Atomic Execution Run Frames.

(** A computation that starts with a read or a write of the state. *)
Section start.
Context `{Compiler}.
Lemma at_get {B} (k : St -> M B) s : (get ≫= k) s = k s s.
Proof. done. Qed.
Lemma at_gets {A B} (f : St -> A) (k : A -> M B) s : (gets f ≫= k) s = k (f s) s.
Proof. done. Qed.
Lemma at_modify {B} f (k : unit -> M B) s : (modify f ≫= k) s = k tt (f s).
Proof. done. Qed.
Lemma at_lift {A B} (r : A + Fault) (k : A -> M B) s :
  (lift r ≫= k) s = match r with inl a => k a s | inr f => (inr f, s) end.
Proof. by destruct r. Qed.
Lemma at_or_fault {A B} f (o : option A) (k : A -> M B) s :
  (or_fault f o ≫= k) s = match o with Some a => k a s | None => (inr f, s) end.
Proof. by destruct o. Qed.
End start.

(** Relates the start to the state the rest of the handler runs in. *)
Ltac frame_through :=
  lazymatch goal with |- ?R _ (snd (_ ?s)) => transitivity s end.

(** The frame of the rest of a handler, at the state reached. *)
Ltac frame_here :=
  lazymatch goal with
  | |- ?R ?s (snd (?m ?s)) =>
      let Hf := fresh in assert (Hf : frames R m); [ frame_go | apply Hf ]
  end.

Lemma at_atomic_run `{Compiler} {B} (k : AtomicRun -> M B) s :
  (atomic_run ≫= k) s = match atomic_of s with Some a => k a s | None => fault "no_atomic" s end.
Proof. unfold atomic_run, mbind, M_bind. simpl. by destruct (atomic_of s). Qed.

Section handlers.
Context `{Target} `{Serde} `{StateSerde} `{Sha2} `{Compiler} `{AtomicSerde} `{Unicode} `{Env}.
Variable R : St -> St -> Prop.
Variable ok : effect -> bool.
Context `{HB : !Base R ok} `{HA : !AcceptsTame ok}.

#[local] Abbreviation keeps := (frames R).

#[local] Hint Extern 1 (ok _ = true) => (apply accepts_tame; reflexivity) : frames.
#[local] Hint Extern 1 (quiet _ = true) => reflexivity : frames.

Lemma keeps_push e : quiet e = true -> keeps (push e).
Proof. apply base_push. Qed.
Lemma keeps_volatile f : benign f -> keeps (with_volatile f).
Proof. apply base_volatile. Qed.
Lemma keeps_volatile_mut f : benign f -> keeps (volatile_mut f).
Proof. apply base_volatile_mut. Qed.
Lemma keeps_wait lane r t eff :
  expects (awaited_by t) eff -> (forall id, ok (eff id) = true) -> keeps (wait lane r t eff).
Proof. apply base_wait. Qed.
Lemma keeps_wait_callback r h t eff :
  expects (CallbackTask.awaits t) eff -> (forall id, ok (eff id) = true) ->
  keeps (wait_callback r h t eff).
Proof. apply base_wait_callback. Qed.
Lemma keeps_drop : keeps (modify (set_volatile None)).
Proof. apply base_drop. Qed.
Lemma keeps_request r : keeps (modify (set_request r)).
Proof. apply base_request. Qed.
Lemma keeps_allocated h : keeps (modify (fun s => set_allocated (allocated s ++ [h]) s)).
Proof. apply base_allocated. Qed.
Lemma keeps_compile a m : keeps (compile_in_compiler a m).
Proof. apply base_compile. Qed.
Lemma keeps_release_in_compiler h : keeps (release_in_compiler h).
Proof. apply base_release. Qed.
Lemma keeps_release_all : keeps release_all.
Proof. apply base_release_all. Qed.
#[local] Hint Resolve keeps_push keeps_volatile keeps_volatile_mut keeps_wait keeps_wait_callback
  keeps_drop keeps_request keeps_allocated keeps_compile keeps_release_in_compiler
  keeps_release_all : frames.

(** A store of a record of this owner, or of the record's own owner. *)
Lemma keeps_store_owned d :
  durable_owner d = this_owner -> not_discarded d -> keeps (modify (set_durable (Some d))).
Proof. intros Hd Hn s. apply base_store. by left. Qed.
Lemma keeps_store_same r r' s :
  record_of s = Some r -> rec_owner r' = rec_owner r ->
  (rec_phase r <> Phase.Discarded -> rec_phase r' <> Phase.Discarded) ->
  R s (set_durable (Some (Durable.Live r')) s).
Proof.
  unfold record_of. intros Hr Ho Hp. apply base_store. right.
  destruct (durable_of s) as [[|r0]|]; try done. injection Hr as ->. by eexists.
Qed.

Lemma keeps_set_phase p : keeps (set_phase p).
Proof.
  intros s. unfold set_phase, modify. simpl. case_bool_decide; [by apply base_store; left|].
  destruct (durable_of s) as [[o|r]|] eqn:Ed; [done| |done].
  apply (keeps_store_same r); [|done..]. unfold record_of. by rewrite Ed.
Qed.
Lemma keeps_complete p d r : keeps (complete p d r).
Proof.
  intros s. unfold complete. rewrite at_get, at_or_fault.
  destruct (record_of s) as [rec|] eqn:Er; [|done]. rewrite at_or_fault.
  case_match; [|done]. rewrite at_modify. etransitivity; [|apply keeps_set_phase].
  by apply (keeps_store_same rec).
Qed.
#[local] Hint Resolve keeps_set_phase keeps_complete : frames.

Lemma keeps_set_connection c : keeps (set_connection c).
Proof. unfold set_connection. frame_go. Qed.
#[local] Hint Resolve keeps_set_connection : frames.

Lemma keeps_respond r : keeps (respond r).
Proof. unfold respond. frame_go. Qed.
Lemma keeps_respond_callback r : keeps (respond_callback r).
Proof. unfold respond_callback. frame_go. Qed.
Lemma keeps_log r : keeps (log r).
Proof. unfold log. frame_go. Qed.
#[local] Hint Resolve keeps_respond keeps_respond_callback keeps_log : frames.

Lemma keeps_execute_failed_reply c cl d : keeps (execute_failed_reply c cl d).
Proof. unfold execute_failed_reply. frame_go. Qed.
Lemma keeps_statement_budget h : keeps (statement_budget h).
Proof. unfold statement_budget. frame_go. Qed.
Lemma keeps_log_core_error e : keeps (log_core_error e).
Proof. unfold log_core_error. frame_go. Qed.
Lemma keeps_snapshot_skew i : keeps (snapshot_skew i).
Proof. unfold snapshot_skew. frame_go. Qed.
Lemma keeps_release h : keeps (release h).
Proof. unfold release. frame_go. Qed.
Lemma keeps_clear_work : keeps clear_work.
Proof. unfold clear_work. frame_go. Qed.
Lemma keeps_keep_handle h : keeps (keep_handle h).
Proof. unfold keep_handle. frame_go. Qed.
#[local] Hint Resolve keeps_execute_failed_reply keeps_statement_budget keeps_log_core_error
  keeps_snapshot_skew keeps_release_all keeps_release keeps_set_phase keeps_clear_work
  keeps_keep_handle : frames.

Lemma keeps_persist_phase lane r p reply : keeps (persist_phase lane r p reply).
Proof. unfold persist_phase. frame_go. Qed.
Lemma keeps_revoke : keeps revoke.
Proof. unfold revoke. frame_go. Qed.
#[local] Hint Resolve keeps_persist_phase keeps_revoke : frames.

Lemma keeps_close lane p reply : keeps (close lane p reply).
Proof. unfold close. frame_go. Qed.
#[local] Hint Resolve keeps_close : frames.

Lemma keeps_persist_reply r a b : keeps (persist_reply r a b).
Proof. unfold persist_reply. frame_go. Qed.
Lemma keeps_log_unavailable r : keeps (log_unavailable r).
Proof. unfold log_unavailable. frame_go. Qed.
Lemma keeps_expire_client lane : keeps (expire_client lane).
Proof. unfold expire_client, log_unavailable. frame_go. Qed.
#[local] Hint Resolve keeps_persist_reply keeps_log_unavailable keeps_expire_client : frames.

Lemma keeps_recheck lane : keeps (recheck lane).
Proof. unfold recheck. frame_go. Qed.
Lemma keeps_rechecked lane k : keeps k -> keeps (rechecked lane k).
Proof. intros Hk. unfold rechecked. apply frames_bind; [exact _|apply keeps_recheck|].
  frame_go. Qed.
#[local] Hint Resolve keeps_recheck keeps_rechecked keeps_complete : frames.

(** ** Driver calls and checks *)
Lemma keeps_driver_call q st : keeps (driver_call q st).
Proof. unfold driver_call. frame_go. Qed.
#[local] Hint Resolve keeps_driver_call : frames.
Lemma keeps_driver_calls l : keeps (driver_calls l).
Proof. induction l; simpl; frame_go. Qed.
#[local] Hint Resolve keeps_driver_calls : frames.

Lemma keeps_start_checks lane r n d a : keeps (start_checks lane r n d a).
Proof. unfold start_checks. frame_go. Qed.
Lemma keeps_issue lane r c : keeps (issue lane r c).
Proof. unfold issue. frame_go. Qed.
#[local] Hint Resolve keeps_start_checks keeps_issue : frames.
Lemma keeps_validating_persisted lane r c : keeps (validating_persisted lane r c).
Proof. unfold validating_persisted. frame_go. Qed.
Lemma keeps_atomic_commit_binding lane r : keeps (atomic_commit_binding lane r).
Proof. unfold atomic_commit_binding. frame_go. Qed.
#[local] Hint Resolve keeps_validating_persisted keeps_atomic_commit_binding : frames.
Lemma keeps_verdict lane r c b : keeps (verdict lane r c b).
Proof. unfold verdict. frame_go. Qed.
#[local] Hint Resolve keeps_verdict : frames.
Lemma keeps_verdict_arrived lane r c b : keeps (verdict_arrived lane r c b).
Proof. unfold verdict_arrived. frame_go. Qed.
Lemma keeps_expire_validating : keeps expire_validating.
Proof. unfold expire_validating. frame_go. Qed.
#[local] Hint Resolve keeps_verdict_arrived keeps_expire_validating keeps_wait_callback : frames.
Lemma keeps_fail_validation r : keeps (fail_validation r).
Proof. unfold fail_validation. frame_go. Qed.
Lemma keeps_compile_members a m : keeps (compile_members a m).
Proof. unfold compile_members. frame_go. Qed.
#[local] Hint Resolve keeps_fail_validation keeps_compile_members : frames.
Lemma keeps_may_repeat_members a m : keeps (may_repeat_members a m).
Proof. unfold may_repeat_members. frame_go. Qed.
#[local] Hint Resolve keeps_may_repeat_members : frames.

(** ** The callback lane *)
Lemma keeps_callback_compile r t c m n b d : keeps (callback_compile r t c m n b d).
Proof. unfold callback_compile. frame_go. Qed.
#[local] Hint Resolve keeps_callback_compile : frames.
Lemma keeps_callback_authorized r t c : keeps (callback_authorized r t c).
Proof. unfold callback_authorized. frame_go. Qed.
#[local] Hint Resolve keeps_callback_authorized : frames.
Lemma keeps_callback_query i : keeps (callback_query i).
Proof. unfold callback_query. frame_go. Qed.
Lemma keeps_after_callback : keeps after_callback.
Proof. unfold after_callback. frame_go. Qed.
#[local] Hint Resolve keeps_callback_query keeps_after_callback : frames.
Lemma keeps_callback_failed b r : keeps (callback_failed b r).
Proof. unfold callback_failed. frame_go. Qed.
Lemma keeps_callback_executed l r n d h vs rs : keeps (callback_executed l r n d h vs rs).
Proof. unfold callback_executed. frame_go. Qed.
Lemma keeps_callback_bound l r th n d h vs : keeps (callback_bound l r th n d h vs).
Proof. unfold callback_bound. frame_go. Qed.
#[local] Hint Resolve keeps_callback_failed keeps_callback_executed keeps_callback_bound : frames.
Lemma keeps_callback_outcome e : keeps (callback_outcome e).
Proof. unfold callback_outcome. frame_go. Qed.
#[local] Hint Resolve keeps_callback_outcome : frames.

(** ** Client commands *)
Lemma keeps_reply_code c : keeps (reply_code c).
Proof. unfold reply_code. frame_go. Qed.
Lemma keeps_close_client p c : keeps (close_client p c).
Proof. unfold close_client. frame_go. Qed.
#[local] Hint Resolve keeps_reply_code keeps_close_client : frames.
#[local] Hint Extern 1 (ok (check_binding_effect _ _ _) = true) => (apply accepts_tame; reflexivity) : frames.
Lemma keeps_begin_shaped f m s n : keeps (begin_shaped f m s n).
Proof. unfold begin_shaped. frame_go. Qed.
#[local] Hint Resolve keeps_begin_shaped : frames.
Lemma keeps_begin i : keeps (begin i).
Proof. unfold begin. frame_go. Qed.
Lemma keeps_begin_checked r i b n : keeps (begin_checked r i b n).
Proof. unfold begin_checked. frame_go. Qed.
Lemma keeps_statement c r n d b : keeps (statement c r n d b).
Proof. unfold statement. frame_go. Qed.
#[local] Hint Resolve keeps_begin keeps_begin_checked keeps_statement : frames.
Lemma keeps_command_run k c r n : keeps (command_run k c r n).
Proof. unfold command_run. frame_go. Qed.
#[local] Hint Resolve keeps_command_run : frames.
Lemma keeps_command_fresh k c r b : keeps (command_fresh k c r b).
Proof. unfold command_fresh. frame_go. Qed.
Lemma keeps_replay_candidate k c r : keeps (replay_candidate k c r).
Proof. unfold replay_candidate. frame_go. Qed.
#[local] Hint Resolve keeps_command_fresh keeps_replay_candidate : frames.
Lemma keeps_command_owned k c r : keeps (command_owned k c r).
Proof. unfold command_owned. frame_go. Qed.
#[local] Hint Resolve keeps_command_owned : frames.
Lemma keeps_command k i : keeps (command k i).
Proof. unfold command. frame_go. Qed.
#[local] Hint Resolve keeps_command : frames.

(** ** Interactive outcomes *)
Lemma keeps_observe_statement r op res x o c : keeps (observe_statement r op res x o c).
Proof. unfold observe_statement. frame_go. Qed.
Lemma keeps_statement_done lane r n d op res vs result v :
  keeps (statement_done lane r n d op res vs result v).
Proof.
  intros s. unfold statement_done. rewrite at_lift.
  destruct (shape_statement _ _ _) as [shaped|]; [|done].
  rewrite at_get, at_or_fault. destruct (record_of s) as [rec|] eqn:Er; [|done].
  cbv zeta. destruct (max_transaction_result_bytes limits <? _)%Z; [frame_here|].
  destruct (negb (usage_valid _) || _); [frame_here|].
  destruct (MAX_DURABLE_BYTES <? _)%Z; [frame_here|].
  rewrite at_modify. frame_through; [by apply (keeps_store_same rec)|]. frame_here.
Qed.
#[local] Hint Resolve keeps_observe_statement keeps_statement_done : frames.
Lemma keeps_executed lane r n d h op res vs x rs : keeps (executed lane r n d h op res vs x rs).
Proof. unfold executed. frame_go. Qed.
Lemma keeps_statement_bound lane r n d h op res vs x :
  keeps (statement_bound lane r n d h op res vs x).
Proof. unfold statement_bound. apply keeps_rechecked. frame_go. Qed.
Lemma keeps_commit_applied lane r d p : keeps (commit_applied lane r d p).
Proof. unfold commit_applied. frame_go. Qed.
Lemma keeps_commit_failed lane r c : keeps (commit_failed lane r c).
Proof. unfold commit_failed. frame_go. Qed.
Lemma keeps_rollback_done lane r d : keeps (rollback_done lane r d).
Proof. unfold rollback_done. frame_go. Qed.
Lemma keeps_push_logs l : keeps (push_logs l).
Proof. induction l; simpl; frame_go. Qed.
Lemma keeps_respond_opt r : keeps (respond_opt r).
Proof. unfold respond_opt. frame_go. Qed.
Lemma keeps_begin_ready lane r : keeps (begin_ready lane r).
Proof. unfold begin_ready. frame_go. Qed.
#[local] Hint Resolve keeps_executed keeps_statement_bound keeps_commit_applied
  keeps_commit_failed keeps_rollback_done keeps_push_logs keeps_respond_opt
  keeps_begin_ready : frames.
Lemma keeps_commit_persisted lane r n d p :
  (forall id, ok (Effect.Commit id) = true) -> keeps (commit_persisted lane r n d p).
Proof. intros Hc. unfold commit_persisted. frame_go. Qed.
Lemma keeps_reply_persisted r l x : keeps (reply_persisted r l x).
Proof. unfold reply_persisted. frame_go. Qed.
#[local] Hint Resolve keeps_commit_persisted keeps_reply_persisted : frames.

(** ** Atomic execution *)
Lemma keeps_abort r : keeps (abort r).
Proof. unfold abort. frame_go. Qed.
Lemma keeps_atomic_run : keeps atomic_run.
Proof. unfold atomic_run. frame_go. Qed.
Lemma keeps_close_failed lane c : keeps (close_failed lane c).
Proof. unfold close_failed. frame_go. Qed.
Lemma keeps_request_event v : keeps (request_event v).
Proof. unfold request_event. frame_go. Qed.
Lemma keeps_trace_of h sts b r : keeps (trace_of h sts b r).
Proof. unfold trace_of. frame_go. Qed.
#[local] Hint Resolve keeps_abort keeps_atomic_run keeps_close_failed keeps_request_event
  keeps_trace_of : frames.
Lemma keeps_start_atomic a : keeps (start_atomic a).
Proof. unfold start_atomic. frame_go. Qed.
Lemma keeps_compile_refused e b : keeps (compile_refused e b).
Proof. unfold compile_refused. frame_go. Qed.
Lemma keeps_forward_to_owner a b c d e : keeps (forward_to_owner a b c d e).
Proof. unfold forward_to_owner. frame_go. Qed.
#[local] Hint Resolve keeps_start_atomic keeps_compile_refused keeps_forward_to_owner : frames.
Lemma keeps_request_placed a b c d e : keeps (request_placed a b c d e).
Proof. unfold request_placed. frame_go. Qed.
#[local] Hint Resolve keeps_request_placed : frames.
Lemma keeps_request_checked r o : keeps (request_checked r o).
Proof. unfold request_checked. frame_go. Qed.
Lemma keeps_owner_replied r : keeps (owner_replied r).
Proof. unfold owner_replied. frame_go. Qed.
Lemma keeps_atomic_input i : keeps (atomic_input i).
Proof. unfold atomic_input. frame_go. Qed.
Lemma keeps_atomic_input_checked r i : keeps (atomic_input_checked r i).
Proof. unfold atomic_input_checked. frame_go. Qed.
Lemma keeps_expire_atomic lane : keeps (expire_atomic lane).
Proof. unfold expire_atomic. frame_go. Qed.
#[local] Hint Resolve keeps_request_checked keeps_owner_replied keeps_atomic_input
  keeps_atomic_input_checked keeps_expire_atomic : frames.
Lemma keeps_unless_expired lane k : keeps k -> keeps (unless_expired lane k).
Proof. intros Hk. unfold unless_expired. frame_go. Qed.
#[local] Hint Resolve keeps_unless_expired : frames.
Lemma keeps_atomic_timer b : keeps (atomic_timer b).
Proof. unfold atomic_timer. frame_go. Qed.
Lemma keeps_atomic_record : keeps atomic_record.
Proof. unfold atomic_record, or_identity. frame_go. Qed.
Lemma keeps_atomic_execute lane r : keeps (atomic_execute lane r).
Proof. unfold atomic_execute. frame_go. Qed.
#[local] Hint Resolve keeps_atomic_timer keeps_atomic_record keeps_atomic_execute : frames.
Lemma keeps_atomic_query lane r : keeps (atomic_query lane r).
Proof. unfold atomic_query. apply keeps_unless_expired. frame_go. Qed.
Lemma keeps_lookup_returned lane r rs : keeps (lookup_returned lane r rs).
Proof. unfold lookup_returned. frame_split; [frame_go|]. apply keeps_unless_expired. frame_go. Qed.
Lemma keeps_terminal_text : keeps terminal_text.
Proof. unfold terminal_text. frame_go. Qed.
#[local] Hint Resolve keeps_atomic_query keeps_lookup_returned keeps_terminal_text : frames.
Lemma keeps_validate_all lane h i l b : keeps (validate_all lane h i l b).
Proof. revert i b. induction l as [|[result st] l IH]; simpl; frame_go. Qed.
Lemma keeps_observe_calls l : keeps (observe_calls l).
Proof. induction l as [|[st d] l IH]; simpl; frame_go. Qed.
#[local] Hint Resolve keeps_validate_all keeps_observe_calls : frames.
Lemma keeps_observe_effect a : keeps (observe_effect a).
Proof. unfold observe_effect. frame_go. Qed.
#[local] Hint Resolve keeps_observe_effect : frames.

(** The operations that may commit. *)
Section commits.
Hypothesis ok_commit : forall id, ok (Effect.Commit id) = true.

Lemma keeps_atomic_commit lane r : keeps (atomic_commit lane r).
Proof. unfold atomic_commit. apply keeps_unless_expired. frame_go. Qed.
#[local] Hint Resolve keeps_atomic_commit : frames.
Lemma keeps_insert_or_commit lane r : keeps (insert_or_commit lane r).
Proof. unfold insert_or_commit. apply keeps_unless_expired. frame_go. Qed.
#[local] Hint Resolve keeps_insert_or_commit : frames.
Lemma keeps_atomic_progress lane r : keeps (atomic_progress lane r).
Proof. unfold atomic_progress. frame_go. Qed.
#[local] Hint Resolve keeps_atomic_progress : frames.
Lemma keeps_atomic_measured lane r t : keeps (atomic_measured lane r t).
Proof. unfold atomic_measured. frame_go. Qed.
#[local] Hint Resolve keeps_atomic_measured : frames.
Lemma keeps_atomic_executed lane r rs : keeps (atomic_executed lane r rs).
Proof. unfold atomic_executed. frame_split; [frame_go|]. apply keeps_unless_expired. frame_go. Qed.
End commits.
#[local] Hint Resolve keeps_atomic_commit keeps_insert_or_commit keeps_atomic_executed : frames.

(** ** The rest of the atomic outcomes *)
Definition is_observe (e : effect) : Prop :=
  match e with Effect.Observe _ _ _ => True | _ => False end.

Lemma observe_effect_observes a s e s' : observe_effect a s = (inl e, s') -> is_observe e.
Proof.
  unfold observe_effect, mbind, M_bind, gets. simpl.
  destruct (observe_calls _ _) as [[calls|f] s1]; simpl; intros E; by inversion E.
Qed.

Lemma keeps_observed {B} a (k : effect -> M B) :
  (forall e, is_observe e -> keeps (k e)) -> keeps (observe_effect a ≫= k).
Proof.
  intros Hk. apply frames_bind_post with (P := is_observe);
    [exact _ | frame_go | apply observe_effect_observes | exact Hk].
Qed.
Lemma keeps_push_observe e : is_observe e -> keeps (push e).
Proof. intros He. apply keeps_push. by destruct e. Qed.
#[local] Hint Resolve keeps_push_observe : frames.

Lemma keeps_observe_atomic : keeps observe_atomic.
Proof. unfold observe_atomic. frame_split; [frame_go|]. apply keeps_observed. frame_go. Qed.
#[local] Hint Resolve keeps_observe_atomic : frames.
Lemma keeps_committed lane r : keeps (atomic_committed lane r).
Proof.
  unfold atomic_committed. do 4 (frame_split; [frame_go|]). apply keeps_observed. frame_go.
Qed.
Lemma keeps_replay_done lane r reply : keeps (replay_done lane r reply).
Proof. unfold replay_done. frame_go. Qed.
Lemma keeps_atomic_failed lane t c x y z : keeps (atomic_failed lane t c x y z).
Proof. unfold atomic_failed. frame_split; [frame_go|]. apply keeps_unless_expired. frame_go. Qed.
#[local] Hint Resolve keeps_committed keeps_replay_done keeps_atomic_failed : frames.

Lemma keeps_new_record id b n x :
  keeps (modify (set_durable (Some (Durable.Live (new_record id b n x))))).
Proof. by apply keeps_store_owned. Qed.

Lemma atomic_record_owner s r s' :
  atomic_record s = (inl r, s') -> rec_owner r = this_owner /\ rec_phase r = Phase.Active.
Proof.
  unfold atomic_record, or_identity. rewrite at_atomic_run.
  destruct (atomic_of s) as [a|]; [|done].
  rewrite !at_or_fault. destruct (parse _); [|done]. rewrite at_or_fault.
  destruct (to_json _); [|done]. rewrite at_or_fault.
  destruct (identity_auth_fingerprint _ _); [|done]. rewrite at_or_fault.
  destruct (replay_identity _ _); [|done]. intros E. by inversion E.
Qed.

(** The stored record of an execution. *)
Lemma keeps_store_atomic lane request :
  keeps (r ← atomic_record; modify (set_durable (Some (Durable.Live r)));;
         wait lane (Some request) Task.AtomicPersist Effect.Persist).
Proof.
  apply frames_bind_post with (P := fun r => rec_owner r = this_owner /\ rec_phase r = Phase.Active);
    [exact _ | frame_go | apply atomic_record_owner |].
  intros r [Ho Hp]. frame_split; [|frame_go].
  apply keeps_store_owned; [done|]. simpl. by rewrite Hp.
Qed.
#[local] Hint Resolve keeps_new_record keeps_store_atomic : frames.

Lemma from_wire_owner w d : from_wire w = Some d -> durable_owner d = w_owner w /\ not_discarded d.
Proof.
  unfold from_wire. destruct (negb _); [done|]. case_bool_decide.
  - repeat (case_match; try done). by intros [= <-].
  - intros Hw. repeat (apply bind_Some in Hw as (? & _ & Hw)).
    destruct (record_consistent _); [|done]. by injection Hw as <-.
Qed.

Lemma durable_parse_owner text o d :
  durable_parse text o = inl d -> durable_owner d = o /\ not_discarded d.
Proof.
  unfold durable_parse. destruct (_ >? _)%Z; [done|]. destruct (from_str_value text); [|done].
  destruct (negb _); [done|]. destruct (read_durable text) as [w|]; [|done].
  destruct (String.eqb_spec (w_owner w) o) as [<-|]; simpl; [|done].
  destruct (from_wire w) eqn:E; [|done]. intros [= <-]. by apply from_wire_owner.
Qed.

Lemma keeps_restore lane failure fl restore : keeps (reply_unstored lane failure fl true restore).
Proof.
  unfold reply_unstored. frame_split; [frame_go|]. frame_split; [frame_go|].
  destruct (durable_parse _ _) eqn:E; [|frame_go]. frame_split; [|frame_go].
  apply durable_parse_owner in E as [? ?]. by apply keeps_store_owned.
Qed.

(** ** What each task does with each outcome *)
Definition commits_interactive (t : task) (e : event) : bool :=
  match t, e with Task.CommitPersist _ _ _, Event.Persisted _ => true | _, _ => false end.

(** The atomic outcomes that may emit [Commit]. *)
Definition commits_atomic (t : task) (e : event) : bool :=
  match t, e with
| Task.AtomicExecute, Event.Executed _ _ | Task.AtomicInsert, Event.Executed _ _
| Task.AtomicCommitBinding, Event.BindingChecked _ true => true
| _, _ => false
  end.

Ltac frame_all :=
  repeat (intros; first [ solve [auto 3 with frames] | frame_split
    | apply keeps_rechecked | apply keeps_unless_expired ]).

Lemma consume_cases lane r t e :
  (commits_interactive t e = true -> forall id, ok (Effect.Commit id) = true) ->
  keeps (consume lane r t e)
  \/ consume lane r t e = modify (set_reset true)
  \/ exists failure fl x restore, consume lane r t e = reply_unstored lane failure fl x restore.
Proof.
  intros Hc. destruct t, e; simpl in Hc; try specialize (Hc eq_refl); unfold consume;
    first [ by (right; right; eexists _, _, _, _)
          | by (right; left)
          | left; solve [frame_all] ].
Qed.

Lemma keeps_atomic_outcome lane r t e :
  (commits_atomic t e = true -> forall id, ok (Effect.Commit id) = true) ->
  keeps (atomic_outcome lane r t e).
Proof.
  intros Hc. destruct t, e; simpl in Hc; try specialize (Hc eq_refl); unfold atomic_outcome;
    frame_all.
Qed.

(** ** Events *)
Lemma keeps_timer_due p : keeps (timer_due p).
Proof. unfold timer_due. frame_go. Qed.
#[local] Hint Resolve keeps_timer_due : frames.
Lemma keeps_timer : keeps timer.
Proof. unfold timer. frame_go. Qed.
Lemma keeps_forwarded i : keeps (forwarded i).
Proof. unfold forwarded. frame_go. Qed.
Lemma keeps_stale e : keeps (stale e).
Proof. unfold stale. frame_go. Qed.
#[local] Hint Resolve keeps_request_event keeps_timer keeps_forwarded : frames.

(** Every event but an outcome and the abandonment. *)
Lemma keeps_entry e :
  Event.outcome_id e = None -> e <> Event.Abandon -> keeps (dispatch e).
Proof.
  destruct e; try discriminate; intros _ Hne; cbn [dispatch]; [frame_go ..|].
  by destruct Hne.
Qed.
End handlers.

#[export] Instance is_abandon e : Decision (e = Event.Abandon).
Proof.
  refine (match e with Event.Abandon => left eq_refl | _ => right _ end); discriminate.
Defined.

Lemma dispatch_outcome_event `{Target} `{Serde} `{StateSerde} `{Sha2} `{Compiler} `{AtomicSerde}
    `{Unicode} `{Env} e id :
  Event.outcome_id e = Some id -> dispatch e = outcome e.
Proof. by destruct e. Qed.

#[export] Hint Extern 0 (Base _ _) => exact _ : frames.
#[export] Hint Extern 0 (AcceptsTame _) => exact _ : frames.
#[export] Hint Resolve keeps_push keeps_volatile keeps_volatile_mut keeps_wait keeps_wait_callback
  keeps_drop keeps_request keeps_allocated keeps_compile keeps_release_in_compiler
  keeps_release_all keeps_store_owned keeps_set_phase keeps_complete keeps_set_connection
  keeps_respond keeps_respond_callback keeps_log keeps_execute_failed_reply keeps_statement_budget
  keeps_log_core_error keeps_snapshot_skew keeps_release keeps_clear_work keeps_keep_handle
  keeps_persist_phase keeps_revoke keeps_close keeps_persist_reply keeps_log_unavailable
  keeps_expire_client keeps_recheck keeps_rechecked keeps_driver_call keeps_driver_calls
  keeps_start_checks keeps_issue keeps_validating_persisted keeps_atomic_commit_binding
  keeps_verdict keeps_verdict_arrived keeps_expire_validating keeps_fail_validation
  keeps_compile_members keeps_may_repeat_members keeps_callback_compile keeps_callback_authorized
  keeps_callback_query keeps_after_callback keeps_callback_failed keeps_callback_executed
  keeps_callback_bound keeps_callback_outcome keeps_reply_code keeps_close_client
  keeps_begin_shaped keeps_begin keeps_begin_checked keeps_statement keeps_command_run
  keeps_command_fresh keeps_replay_candidate keeps_command_owned keeps_command
  keeps_observe_statement keeps_statement_done keeps_executed keeps_statement_bound
  keeps_commit_applied keeps_commit_failed keeps_rollback_done keeps_push_logs keeps_respond_opt
  keeps_begin_ready keeps_commit_persisted keeps_reply_persisted keeps_abort keeps_atomic_run
  keeps_close_failed keeps_request_event keeps_trace_of keeps_start_atomic keeps_compile_refused
  keeps_forward_to_owner keeps_request_placed keeps_request_checked keeps_owner_replied
  keeps_atomic_input keeps_atomic_input_checked keeps_expire_atomic keeps_unless_expired
  keeps_atomic_timer keeps_atomic_record keeps_atomic_execute keeps_atomic_query
  keeps_lookup_returned keeps_terminal_text keeps_validate_all keeps_observe_calls
  keeps_observe_effect keeps_atomic_commit keeps_insert_or_commit keeps_atomic_progress
  keeps_atomic_measured keeps_atomic_executed keeps_observed keeps_push_observe
  keeps_observe_atomic keeps_committed keeps_replay_done keeps_atomic_failed keeps_new_record
  keeps_store_atomic keeps_restore keeps_atomic_outcome keeps_timer_due keeps_timer
  keeps_forwarded keeps_stale : frames.

(** ** What a dispatch leaves

    The frame lemmas of the dispatch of an event: either [evolves ok], or the
    step ends with [reset] set, and then every effect it added is immediate. *)

Section compose.
Context `{Compiler}.

Lemma frames_compose {A B} (R1 R2 R3 : St -> St -> Prop) (m : M A) (k : A -> M B) :
  (forall s1 s2, R1 s1 s2 -> R3 s1 s2) ->
  (forall s1 s2 s3, R1 s1 s2 -> R2 s2 s3 -> R3 s1 s3) ->
  frames R1 m -> (forall a, frames R2 (k a)) -> frames R3 (m ≫= k).
Proof.
  intros Hin Htr Hm Hk s. unfold mbind, M_bind. specialize (Hm s).
  destruct (m s) as [[a|f] s'] eqn:E; simpl in *; [|by apply Hin].
  eapply Htr; [exact Hm | apply Hk].
Qed.

Lemma frames_impl {A} (R R' : St -> St -> Prop) (m : M A) :
  (forall s s', R s s' -> R' s s') -> frames R m -> frames R' m.
Proof. intros HR Hm s. apply HR, Hm. Qed.

(** Nothing the output checks look at changed. *)
Definition same (s s' : St) : Prop :=
  effects s' = effects s /\ reset s' = reset s /\ abandoned s' = abandoned s.

#[export] Instance same_preorder : PreOrder same.
Proof. split; [done|]. intros s1 s2 s3 (? & ? & ?) (? & ? & ?). repeat split; congruence. Qed.

Lemma same_modify f : (forall s, same s (f s)) -> frames same (modify f).
Proof. intros Hf s. apply Hf. Qed.
Lemma same_with_volatile f : frames same (with_volatile f).
Proof. by apply same_modify. Qed.

Variable ok : effect -> bool.

(** The step goes on, or it ends in a reset with immediate effects only. *)
Definition settles (s s' : St) : Prop :=
  evolves ok s s'
  \/ (evolves quiet (set_reset true s) s').

Lemma settles_evolves {A} (m : M A) : frames (evolves ok) m -> frames settles m.
Proof. apply frames_impl. by left. Qed.

Lemma evolves_set_reset o s s' : evolves o s s' -> evolves o (set_reset true s) (set_reset true s').
Proof. intros [(l & ? & ?) [? ?]]. split; [by exists l | done]. Qed.

Lemma settles_same_l s1 s2 s3 : same s1 s2 -> settles s2 s3 -> settles s1 s3.
Proof.
  intros (He & Hr & Ha) [Hev|Hev]; [left|right].
  - etransitivity; [|exact Hev]. by apply evolves_same.
  - etransitivity; [|exact Hev]. by apply evolves_same; simpl.
Qed.

Lemma settles_same_r s1 s2 s3 : settles s1 s2 -> same s2 s3 -> settles s1 s3.
Proof.
  intros Hs (He & Hr & Ha). destruct Hs as [Hev|Hev]; [left|right];
    (etransitivity; [exact Hev|]); by apply evolves_same.
Qed.

Lemma same_settles s s' : same s s' -> settles s s'.
Proof. intros (? & ? & ?). left. by apply evolves_same. Qed.
End compose.

Ltac frame_more :=
  repeat (intros; first [ solve [eauto 4 with frames] | frame_split
    | apply keeps_rechecked; [exact _..|] | apply keeps_unless_expired; [exact _..|] ]).

Section dispatch.
Context `{Target} `{Serde} `{StateSerde} `{Sha2} `{Compiler} `{AtomicSerde} `{Unicode} `{Env}.

Lemma quiet_not_commit e : is_commit e = false \/ quiet e = false.
Proof. destruct e; auto. Qed.

(** Immediate effects only. *)
Lemma quiet_respond r : frames (evolves quiet) (respond r).
Proof. by apply evolves_push. Qed.
Lemma quiet_log r : frames (evolves quiet) (log r).
Proof. by apply evolves_push. Qed.
Lemma quiet_respond_callback r : frames (evolves quiet) (respond_callback r).
Proof. by apply evolves_push. Qed.
Lemma quiet_respond_opt r : frames (evolves quiet) (respond_opt r).
Proof. destruct r; [apply quiet_respond | apply frames_ret, _]. Qed.
Lemma quiet_push_logs l : frames (evolves quiet) (push_logs l).
Proof.
  induction l; simpl; [apply frames_ret, _|].
  apply frames_bind; [exact _|by apply evolves_push|done].
Qed.

Variable ok : effect -> bool.
Context `{HA : !AcceptsTame ok}.

Lemma settles_reset : frames (settles ok) (modify (set_reset true)).
Proof. intros s. right. by apply evolves_same. Qed.

Lemma settles_reply_unstored lane failure fl x restore :
  frames (settles ok) (reply_unstored lane failure fl x restore).
Proof.
  destruct x.
  - apply settles_evolves. exact (keeps_restore (evolves ok) ok lane failure fl restore).
  - unfold reply_unstored. apply frames_compose with (R1 := evolves quiet) (R2 := fun s s' => evolves quiet (set_reset true s) s').
    + intros s1 s2 [(l & ? & Hl) ?]. left. split; [|done]. exists l. split; [done|].
      apply forallb_forall. intros e He. apply accepts_tame.
      destruct (quiet_not_commit e) as [?|Hq]; [done|].
      rewrite forallb_forall in Hl. specialize (Hl e He). congruence.
    + intros s1 s2 s3 H12 H23. right. etransitivity; [by apply evolves_set_reset|exact H23].
    + apply quiet_push_logs.
    + intros []. intros s. unfold mbind, M_bind.
      pose proof (quiet_respond_opt failure s) as Hq.
      destruct (respond_opt failure s) as [[[]|f] s'] eqn:E; simpl in *.
      * by apply evolves_set_reset.
      * exfalso. by destruct failure.
Qed.

Lemma settles_consume lane r t e :
  (commits_interactive t e = true -> forall id, ok (Effect.Commit id) = true) ->
  frames (settles ok) (consume lane r t e).
Proof.
  intros Hc.
  destruct (consume_cases (evolves ok) ok lane r t e Hc) as [Hk|[->|(f & fl & x & rs & ->)]].
  - by apply settles_evolves.
  - apply settles_reset.
  - apply settles_reply_unstored.
Qed.

(** ** The outcome of the awaited effect *)

(** The work that waits for this outcome. *)
Definition waiting (s : St) (e : event) (w : Work) : Prop :=
  exists vol p, volatile_of s = Some vol /\ pending vol = Some p /\ work vol = Some w
    /\ Event.outcome_id e = Some (pend_id p) /\ Event.answers e = Some (pend_effect p).

(** The state in which the waiting work resumes. *)
Definition resumed (s : St) (w : Work) : St :=
  set_request (work_request_id w)
    (set_volatile ((fun vol => set_v_work None (set_v_pending None vol)) <$> volatile_of s) s).

Definition work_outcome (e : event) (w : Work) : M unit :=
  (if is_atomic_task (work_task w) then atomic_outcome else consume)
    (work_lane w) (work_request_id w) (work_task w) e.

(** [outcome] when no work waits for [e]. *)
Definition unmatched (e : event) (s : St) : M unit :=
  match Event.outcome_id e, Event.answers e with
  | Some id, Some expected =>
      if pending_is id expected (cb ← (vol ← volatile_of s; callback vol); Some (cb_pending cb))
      then callback_outcome e else stale e
  | _, _ => fault "not_outcome"
  end.

Definition settle_work (e : event) (w : Work) : M unit :=
  r ← attempt (work_outcome e w);
  with_volatile (fun vol =>
    if bool_decide (pending vol = None) then set_v_work None vol else vol);;
  lift r.

Lemma pending_is_Some id expected p :
  pending_is id expected p = true ->
  exists q, p = Some q /\ pend_id q = id /\ pend_effect q = expected.
Proof.
  destruct p as [q|]; simpl; [|done]. intros Hb. bools. by exists q.
Qed.

(** The three ways [outcome] goes. *)
Lemma outcome_cases e s :
  (exists w, waiting s e w /\ outcome e s = settle_work e w (resumed s w))
  \/ outcome e s = unmatched e s s
  \/ (exists f, outcome e s = (inr f, set_volatile (set_v_pending None <$> volatile_of s) s)).
Proof.
  unfold outcome, unmatched, mbind, M_bind, or_fault.
  destruct (Event.outcome_id e) as [id|] eqn:Eid; [|right; left; reflexivity]. simpl.
  destruct (Event.answers e) as [expected|] eqn:Ea; [|right; left; reflexivity]. simpl.
  destruct (pending_is _ _ _) eqn:Ep; [|right; left; by destruct (pending_is _ _ _)].
  apply pending_is_Some in Ep as (q & Eq & Eid' & Ea').
  destruct (volatile_of s) as [vol|] eqn:Ev; [|done]. simpl in Eq. simpl.
  unfold work_of; simpl. rewrite Ev; simpl.
  destruct (work vol) as [w|] eqn:Ew.
  - left. exists w. split; [exists vol, q; by rewrite Ev, Eid, Ea, Eid', Ea'|].
    unfold resumed; rewrite Ev; reflexivity.
  - right; right. by eexists.
Qed.

Lemma settles_settle_work e w s :
  settles ok s (snd (work_outcome e w s)) -> settles ok s (snd (settle_work e w s)).
Proof.
  intros Hw. unfold settle_work, mbind, M_bind, attempt.
  destruct (work_outcome e w s) as [r s'] eqn:E. simpl in *.
  eapply settles_same_r; [exact Hw|]. by repeat split.
Qed.


Lemma keeps_unmatched e s : frames (evolves ok) (unmatched e s).
Proof. unfold unmatched. frame_more. Qed.

Lemma settles_outcome e s :
  (forall w, waiting s e w -> settles ok (resumed s w) (snd (work_outcome e w (resumed s w)))) ->
  settles ok s (snd (outcome e s)).
Proof.
  intros Hw. destruct (outcome_cases e s) as [(w & Hwait & ->)|[->|(f & ->)]].
  - eapply settles_same_l; [|by apply settles_settle_work, Hw]. by repeat split.
  - left. apply (keeps_unmatched e s).
  - by apply same_settles.
Qed.
End dispatch.
