(* ===== verification/Batches.v ===== *)
(** * The batch of a step

    Whatever a step reads and whatever its handlers do, the effects it leaves
    obey the batch rule, and the awaited one is the effect a lane of the
    volatile part waits for, unless the step abandons, which only an [Abandon]
    event makes it do. *)

From S2P Require Import Prelude F64 SerdeJson Compiler State Volatile Io Bounds Identity Canonical.
From S2P Require Import Identity Machine Checks Commands Interactive.
From S2P Require Import Atomic Execution Run Frames HandlerFrames.

(** Pre- and postconditions on the states of a handler, whatever its result. *)
Section ends.
Context `{Compiler}.

Definition ends {A} (P : St -> Prop) (m : M A) (Q : St -> Prop) : Prop :=
  forall s, P s -> Q (snd (m s)).

Lemma ends_bind {A B} (P R Q : St -> Prop) (m : M A) (k : A -> M B) :
  (forall s, R s -> Q s) -> ends P m R -> (forall a, ends R (k a) Q) -> ends P (m ≫= k) Q.
Proof.
  intros HRQ Hm Hk s Hs. unfold mbind, M_bind. specialize (Hm s Hs).
  destruct (m s) as [[a|f] s'] eqn:E; simpl in *; [by apply Hk | by apply HRQ].
Qed.

Lemma ends_same {A} (P Q : St -> Prop) (m : M A) :
  (forall s, P s -> Q s) -> (forall s, snd (m s) = s) -> ends P m Q.
Proof. intros HPQ Hm s Hs. rewrite Hm. auto. Qed.
End ends.

Section batches.
Context `{Target} `{Serde} `{StateSerde} `{Sha2} `{Compiler} `{AtomicSerde} `{Unicode} `{Env}.

(** Only immediate effects so far. *)
Definition immediate (s : St) : Prop := reset s = false /\ forallb quiet (effects s) = true.

(** The step ends in a reset after immediate effects, or with a batch that obeys the rule. *)
Definition settled (s : St) : Prop :=
  (reset s = true /\ forallb quiet (effects s) = true)
  \/ (reset s = false /\ batch_rule (effects s) = true /\ pending_rule s = true).

Lemma filter_quiet l : forallb quiet l = true -> List.filter Effect.is_awaited l = [].
Proof.
  induction l as [|e l IH]; simpl; [done|]. intros [He Hl]%andb_true_iff.
  apply negb_true_iff in He. rewrite He. auto.
Qed.

Lemma find_quiet l : forallb quiet l = true -> List.find Effect.is_awaited l = None.
Proof.
  induction l as [|e l IH]; simpl; [done|]. intros [He Hl]%andb_true_iff.
  apply negb_true_iff in He. rewrite He. auto.
Qed.

Lemma batch_rule_quiet l : forallb quiet l = true -> batch_rule l = true.
Proof. intros Hq. unfold batch_rule. by rewrite (filter_quiet _ Hq). Qed.

Lemma batch_rule_last l e :
  forallb quiet l = true -> Effect.is_awaited e = true -> batch_rule (l ++ [e]) = true.
Proof.
  intros Hq He. unfold batch_rule. rewrite List.filter_app, (filter_quiet _ Hq). simpl.
  rewrite He, list.last_snoc. simpl. by rewrite He.
Qed.

Lemma find_last l e :
  forallb quiet l = true -> Effect.is_awaited e = true ->
  List.find Effect.is_awaited (l ++ [e]) = Some e.
Proof.
  intros Hq He. induction l as [|a l IH]; simpl in *; [by rewrite He|].
  apply andb_true_iff in Hq as [Ha Hl]. apply negb_true_iff in Ha. rewrite Ha. auto.
Qed.

Lemma settled_immediate s : immediate s -> settled s.
Proof.
  intros [Hr Hq]. right. split; [done|]. split; [by apply batch_rule_quiet|].
  unfold pending_rule. by rewrite (find_quiet _ Hq).
Qed.

Lemma ends_quiet {A} (m : M A) : frames (evolves quiet) m -> ends immediate m immediate.
Proof.
  intros Hm s [Hr Hq]. destruct (Hm s) as [(l & El & Hl) [Er _]].
  split; [congruence|]. by rewrite El, forallb_app, Hq.
Qed.

(** What [wait] does. *)
Lemma wait_spec lane r t eff s :
  let vol := default fresh_volatile (volatile_of s) in
  let id := next_effect_id vol in
  wait lane r t eff s =
    if (MAX_SAFE_INTEGER <=? id)%Z then (inr "effect_ids"%string, set_volatile (Some vol) s)
    else (inl tt, set_effects (effects s ++ [eff id]) (set_volatile (Some
            (set_v_work (Some {| work_lane := lane; work_request_id := r; work_task := t |})
              (set_v_pending (Some {| pend_id := id; pend_effect := awaited_by t |})
                 (set_v_next_id (id + 1) vol)))) s)).
Proof.
  simpl. unfold wait, mbind, M_bind, volatile_mut, modify, gets. simpl.
  by destruct (MAX_SAFE_INTEGER <=? _)%Z.
Qed.

Lemma or_reset_wait lane r t eff :
  (forall id, Effect.is_awaited (eff id) = true /\ Effect.effect_id (eff id) = Some id) ->
  ends immediate (or_reset (wait lane r t eff)) settled.
Proof.
  intros Heff s [Hr Hq]. unfold or_reset, mbind, M_bind, attempt. rewrite wait_spec.
  destruct (MAX_SAFE_INTEGER <=? _)%Z; simpl; [by left|].
  set (id := next_effect_id _). destruct (Heff id) as [Ha Hid].
  right. split; [done|]. split; [by apply batch_rule_last|].
  unfold pending_rule. simpl. rewrite find_last by done.
  unfold pending_id; simpl. rewrite Hid, (bool_decide_eq_true_2 _ eq_refl).
  by destruct (_ && _).
Qed.

(** ** Failing closed and discarding *)
Lemma settled_reset : ends immediate (modify (set_reset true)) settled.
Proof. intros s [Hr Hq]. by left. Qed.

Lemma quiet_modify f :
  (forall s, effects (f s) = effects s /\ reset (f s) = reset s /\ abandoned (f s) = abandoned s) ->
  frames (evolves quiet) (modify f).
Proof. apply frames_modify_same. Qed.

Lemma quiet_release_all : frames (evolves quiet) release_all.
Proof. apply quiet_modify. intros s. by case_match. Qed.
Lemma quiet_set_phase p : frames (evolves quiet) (set_phase p).
Proof. apply quiet_modify. intros s. by repeat case_match. Qed.
Lemma quiet_fail_closed_reply b e : frames (evolves quiet) (fail_closed_reply b e).
Proof.
  unfold fail_closed_reply. repeat case_match;
    solve [apply quiet_respond | apply quiet_respond_callback | by apply frames_ret, _].
Qed.
Lemma quiet_discard_reply e : frames (evolves quiet) (discard_reply e).
Proof.
  unfold discard_reply. repeat case_match;
    solve [apply quiet_respond | apply quiet_respond_callback | by apply frames_ret, _].
Qed.

Create HintDb quiet.
#[local] Hint Resolve quiet_log quiet_respond quiet_respond_callback quiet_release_all
  quiet_set_phase quiet_fail_closed_reply quiet_discard_reply : quiet.
#[local] Hint Extern 2 (frames _ (modify _)) => (apply quiet_modify; done) : quiet.
#[local] Hint Extern 2 (frames _ (with_volatile _)) => (apply quiet_modify; done) : quiet.
#[local] Hint Extern 1 (frames _ (mret _)) => (apply frames_ret; exact _) : quiet.
#[local] Hint Extern 1 (frames _ get) => (apply frames_get; exact _) : quiet.
#[local] Hint Extern 1 (frames _ (gets _)) => (apply frames_gets; exact _) : quiet.

(** Steps over the immediate part of a handler. *)
Ltac immediate_step :=
  apply ends_bind with (R := immediate); [exact settled_immediate | |intros ?];
  [ apply ends_quiet; repeat case_match; auto 2 with quiet | ].

Lemma fail_closed_settled reason e b :
  ends (fun s => reset s = false) (fail_closed reason e b) settled.
Proof.
  unfold fail_closed.
  apply ends_bind with (R := immediate); [exact settled_immediate|by intros s Hs|intros _].
  do 8 immediate_step.
  destruct (fail_closed_phase _ _); [|exact settled_reset].
  immediate_step. by apply or_reset_wait.
Qed.

Lemma ends_or_reset P (m : M unit) :
  (forall s, P s -> match m s with (inl _, s') => settled s'
                                 | (inr _, s') => settled (set_reset true s') end) ->
  ends P (or_reset m) settled.
Proof.
  intros Hm s Hs. unfold or_reset, mbind, M_bind, attempt. specialize (Hm s Hs).
  by destruct (m s) as [[[]|f] s'].
Qed.

(** A wait that starts with immediate effects leaves a settled state, and a
    failed one still has only immediate effects. *)
Lemma wait_settled lane r t eff s :
  (forall id, Effect.is_awaited (eff id) = true /\ Effect.effect_id (eff id) = Some id) ->
  immediate s ->
  match wait lane r t eff s with
  | (inl _, s') => settled s'
  | (inr _, s') => settled (set_reset true s')
  end.
Proof.
  intros Heff Hs. pose proof (or_reset_wait lane r t eff Heff s Hs) as Ho.
  unfold or_reset, mbind, M_bind, attempt in Ho.
  destruct (wait lane r t eff s) as [[[]|f] s']; exact Ho.
Qed.

Lemma bind_settled {A} (m : M A) (k : A -> M unit) s :
  frames (evolves quiet) m -> immediate s ->
  (forall a s', immediate s' -> match k a s' with (inl _, s'') => settled s''
                                         | (inr _, s'') => settled (set_reset true s'') end) ->
  match (m ≫= k) s with (inl _, s') => settled s' | (inr _, s') => settled (set_reset true s') end.
Proof.
  intros Hm Hs Hk. pose proof (ends_quiet m Hm s Hs) as Hi. unfold mbind, M_bind.
  destruct (m s) as [[a|f] s']; simpl in *; [by apply Hk|].
  left. split; [done|]. apply Hi.
Qed.

Lemma discard_settled reason e : ends immediate (discard reason e) settled.
Proof.
  unfold discard. do 8 immediate_step.
  apply ends_or_reset. intros s' Hs'. destruct (opt_existsb _ _).
  - apply bind_settled; [auto 2 with quiet|done|]. intros. by apply wait_settled.
  - do 2 (apply bind_settled; [auto 2 with quiet|done|]; clear s' Hs'; intros ? s' Hs').
    destruct (bool_decide (_ = Connection.None)); by apply wait_settled.
Qed.

(** ** Only [Abandon] abandons *)

Definition same_flag (s s' : St) : Prop := abandoned s' = abandoned s.

#[export] Instance same_flag_preorder : PreOrder same_flag.
Proof. split; [done|]. intros s1 s2 s3 H12 H23. unfold same_flag in *. congruence. Qed.

Lemma flag_evolves {A} (m : M A) : frames (evolves quiet) m -> frames same_flag m.
Proof. apply frames_impl. by intros s s' (_ & _ & ?). Qed.

Lemma flag_wait lane r t eff : frames same_flag (wait lane r t eff).
Proof. intros s. rewrite wait_spec. by destruct (_ <=? _)%Z. Qed.

Lemma flag_or_reset m : frames same_flag m -> frames same_flag (or_reset m).
Proof.
  intros Hm. apply frames_bind; [exact _|by apply frames_attempt|].
  intros [?|?]; [by apply frames_ret, _|by intros s].
Qed.

(** Steps over the immediate part of a handler. *)
Ltac flag_step :=
  apply frames_bind;
  [exact _|first [solve [apply flag_evolves; repeat case_match; auto 2 with quiet] | by intros ?]|intros ?].

Lemma flag_fail_closed reason e b : frames same_flag (fail_closed reason e b).
Proof.
  unfold fail_closed. do 9 flag_step. destruct (fail_closed_phase _ _); [|by intros s].
  flag_step. apply flag_or_reset, flag_wait.
Qed.

Lemma flag_discard reason e : frames same_flag (discard reason e).
Proof.
  unfold discard. do 8 flag_step. apply flag_or_reset. case_match.
  - flag_step. apply flag_wait.
  - do 2 flag_step. case_match; apply flag_wait.
Qed.

(** ** The whole step *)
Definition any (_ : effect) : bool := true.

#[export] Instance any_tame : AcceptsTame any.
Proof. done. Qed.

Lemma settles_work_outcome e w : frames (settles any) (work_outcome e w).
Proof.
  unfold work_outcome. destruct (is_atomic_task _).
  - apply settles_evolves. by apply (keeps_atomic_outcome (evolves any) any).
  - by apply settles_consume.
Qed.

Lemma abandon_reset s : reset (snd (abandon s)) = reset s.
Proof.
  unfold abandon, mbind, M_bind, set_phase, push, modify, gets. simpl.
  repeat (case_match; simpl); done.
Qed.

Lemma dispatch_settles e s : e = Event.Abandon \/ settles any s (snd (dispatch e s)).
Proof.
  destruct (Event.outcome_id e) eqn:Eid.
  - right. rewrite (dispatch_outcome_event e _ Eid).
    apply settles_outcome; [exact _|intros; apply settles_work_outcome].
  - destruct (decide (e = Event.Abandon)) as [|Hne]; [by left|right].
    exact (settles_evolves any _ (keeps_entry (evolves any) any e Eid Hne) s).
Qed.

Lemma run_dispatch_abandoned e s :
  abandoned (run_dispatch e s) = true -> abandoned s = true \/ e = Event.Abandon.
Proof.
  destruct (dispatch_settles e s) as [?|Hs]; [by right|]. intros Ha. left. rewrite <- Ha.
  assert (Hd : abandoned (snd (dispatch e s)) = abandoned s) by (by destruct Hs as [(_ & _ & ?)|(_ & _ & ?)]).
  unfold run_dispatch, checked_dispatch, mbind, M_bind.
  destruct (dispatch e s) as [[[]|f] s']; simpl in *.
  - destruct (check_output s'); simpl; [|done]. by rewrite (flag_fail_closed _ _ _ _).
  - by rewrite (flag_fail_closed _ _ _ _).
Qed.

(** A dispatch that resets leaves immediate effects. *)
Lemma dispatch_reset e s :
  immediate s -> reset (snd (dispatch e s)) = true ->
  forallb quiet (effects (snd (dispatch e s))) = true.
Proof.
  intros [Hr Hq] Hreset. destruct (dispatch_settles e s) as [->|[[_ [Hr' _]]|[(l & El & Hl) _]]].
  - simpl in Hreset. rewrite abandon_reset in Hreset. congruence.
  - congruence.
  - by rewrite El, forallb_app, Hl; simpl; rewrite Hq.
Qed.

(** What the output check establishes of a state that does not reset. *)
Record output_valid (s : St) : Prop := {
  valid_durable_bound d : durable_of s = Some d -> len (durable_to_json d) <= MAX_DURABLE_BYTES;
  valid_volatile vol :
    volatile_of s = Some vol ->
    len (volatile_to_json vol) <= max_volatile_bytes limits /\ volatile_consistent vol = true;
  valid_batch : batch_rule (effects s) = true;
  valid_pending : pending_rule s = true;
  valid_record r : record_of s = Some r -> record_consistent r = true
}.

Lemma check_output_None s :
  check_output s = None -> reset s = true \/ (reset s = false /\ output_valid s).
Proof.
  unfold check_output. destruct (reset s); [by left|]. intros Hc. right. split; [done|].
  destruct (opt_existsb _ (durable_of s)) eqn:Ed; [done|].
  destruct (opt_existsb _ (volatile_of s)) eqn:Ev; [done|].
  destruct (batch_rule _) eqn:Eb; [|done]. destruct (pending_rule s) eqn:Ep; [|done].
  destruct (opt_existsb _ (record_of s)) eqn:Er; [done|].
  split; try done.
  - intros d Hd. rewrite Hd in Ed. simpl in Ed. bools. done.
  - intros vol Hv. rewrite Hv in Ev. simpl in Ev. apply orb_false_iff in Ev as [? Hn].
    bools. apply negb_false_iff in Hn. done.
  - intros r Hr. rewrite Hr in Er. simpl in Er. by apply negb_false_iff in Er.
Qed.

Lemma run_dispatch_settled e s : immediate s -> settled (run_dispatch e s).
Proof.
  intros Hs. unfold run_dispatch, checked_dispatch, mbind, M_bind.
  pose proof (dispatch_reset e s Hs) as Hd.
  destruct (dispatch e s) as [[[]|f] s']; simpl in *; [|by apply fail_closed_settled].
  destruct (check_output s') as [f|] eqn:Ec; simpl; [by apply fail_closed_settled|].
  apply check_output_None in Ec as [Hr|[Hr Hv]]; [left; auto|]. right. by destruct Hv.
Qed.

Lemma start_immediate cs d vol : immediate (start cs d vol).
Proof. done. Qed.

Lemma run_read_settled cs st vol e : settled (run_read cs st vol e).
Proof.
  destruct st as [|reason|d]; simpl.
  - destruct vol as [|text|vol].
    + apply run_dispatch_settled, start_immediate.
    + apply (fail_closed_settled "volatile_invalid" e true); reflexivity.
    + apply run_dispatch_settled, start_immediate.
  - destruct vol as [|text|vol].
    + destruct (is_atomic_input e).
      * apply run_dispatch_settled. by split.
      * apply discard_settled, start_immediate.
    + apply discard_settled, start_immediate.
    + apply discard_settled, start_immediate.
  - destruct vol as [|text|vol].
    + apply run_dispatch_settled, start_immediate.
    + apply (fail_closed_settled "volatile_invalid" e true); reflexivity.
    + apply run_dispatch_settled, start_immediate.
Qed.

Lemma run_read_abandoned cs st vol e :
  abandoned (run_read cs st vol e) = true -> e = Event.Abandon.
Proof.
  assert (Hrun : forall s, abandoned s = false -> abandoned (run_dispatch e s) = true -> e = Event.Abandon)
    by (intros s Hs [?|?]%run_dispatch_abandoned; [congruence|done]).
  destruct st as [|reason|d], vol as [|text|vol]; cbn [run_read];
    try (by apply Hrun); try (by rewrite (flag_fail_closed _ _ _ _));
    try (by rewrite (flag_discard _ _ _)).
  destruct (is_atomic_input e); [by apply Hrun|by rewrite (flag_discard _ _ _)].
Qed.

Lemma batch_rule_reset l : forallb quiet l = true -> batch_rule (l ++ [Effect.Reset]) = true.
Proof. intros Hq. apply batch_rule_quiet. by rewrite forallb_app, Hq. Qed.

(** Under the batch rule the awaited effect is unique. *)
Lemma batch_rule_find l e :
  batch_rule l = true -> e ∈ l -> Effect.is_awaited e = true ->
  List.find Effect.is_awaited l = Some e.
Proof.
  unfold batch_rule. intros Hb He Ha.
  apply negb_true_iff, orb_false_iff in Hb as [Hone _]. apply Nat.ltb_ge in Hone.
  induction l as [|a l IH]; [by apply elem_of_nil in He|]. simpl in *.
  destruct (Effect.is_awaited a) eqn:Ea; simpl in Hone.
  - apply elem_of_cons in He as [<-|He]; [done|]. exfalso.
    assert (Hin : e ∈ List.filter Effect.is_awaited l).
    { apply list_elem_of_In, filter_In. split; [by apply list_elem_of_In|done]. }
    destruct (List.filter _ l); [by apply elem_of_nil in Hin | simpl in Hone; lia].
  - apply elem_of_cons in He as [->|He]; [congruence|]. auto.
Qed.

Lemma idle_ids vol : is_idle vol = true -> pending vol = None /\ callback vol = None.
Proof. unfold is_idle. intros Hi. bools. done. Qed.

(** What the step leaves says which effect it waits for. *)
Definition awaited_lane (out : Output) (e : effect) : Prop :=
  exists vol, out_volatile out = Some (volatile_to_json vol)
    /\ (pend_id <$> pending vol = Effect.effect_id e
        \/ (fun cb => pend_id (cb_pending cb)) <$> callback vol = Effect.effect_id e).

Lemma awaited_id e : Effect.is_awaited e = true -> exists id, Effect.effect_id e = Some id.
Proof. destruct e; simpl; intros; try done; by eexists. Qed.

Lemma finish_effects s :
  out_effects (snd (finish_output s)) = effects s ++ (if reset s then [Effect.Reset] else []).
Proof.
  unfold finish_output, release_all, modify. simpl.
  destruct (reset s); simpl; [by destruct (volatile_of s) | by rewrite app_nil_r].
Qed.

(** The awaited effect of a settled state. *)
Lemma settled_awaited s e :
  settled s -> e ∈ out_effects (snd (finish_output s)) -> Effect.is_awaited e = true ->
  reset s = false /\ e ∈ effects s
  /\ ((abandoned s = true /\ volatile_of s = None)
      \/ exists vol, volatile_of s = Some vol /\ is_idle vol = false
           /\ (pend_id <$> pending vol = Effect.effect_id e
               \/ (fun cb => pend_id (cb_pending cb)) <$> callback vol = Effect.effect_id e)).
Proof.
  rewrite finish_effects. intros Hs He Ha. destruct (awaited_id e Ha) as [id Hid].
  destruct Hs as [[Hr Hq]|(Hr & Hb & Hp)]; rewrite Hr in *; simpl in *.
  { exfalso. apply list_elem_of_In in He.
    assert (Hin : In e (List.filter Effect.is_awaited (effects s ++ [Effect.Reset])))
      by by apply filter_In.
    by rewrite filter_quiet in Hin by by rewrite forallb_app, Hq. }
  rewrite app_nil_r in He. split; [done|]. split; [done|].
  unfold pending_rule in Hp. rewrite (batch_rule_find _ _ Hb He Ha) in Hp.
  assert (Hlane : forall vol, volatile_of s = Some vol ->
    (pend_id <$> pending vol = Effect.effect_id e
     \/ (fun cb => pend_id (cb_pending cb)) <$> callback vol = Effect.effect_id e) ->
    exists vol, volatile_of s = Some vol /\ is_idle vol = false
      /\ (pend_id <$> pending vol = Effect.effect_id e
          \/ (fun cb => pend_id (cb_pending cb)) <$> callback vol = Effect.effect_id e)).
  { intros vol Ev Hl. exists vol. split; [done|]. split; [|done].
    destruct (is_idle vol) eqn:Ei; [|done]. apply idle_ids in Ei as [Ep Ec].
    rewrite Ep, Ec, Hid in Hl. by destruct Hl. }
  apply orb_true_iff in Hp as [Hp|Hp]; [apply orb_true_iff in Hp as [Hp|Hp]|]; bools; [by left|right..].
  - unfold pending_id in Hp. destruct (volatile_of s) as [vol|]; simpl in *; [|congruence]. eauto.
  - unfold callback_id in Hp. destruct (volatile_of s) as [vol|]; simpl in *; [|congruence]. eauto.
Qed.

Lemma finish_volatile s vol :
  reset s = false -> volatile_of s = Some vol -> is_idle vol = false ->
  out_volatile (snd (finish_output s)) = Some (volatile_to_json vol).
Proof. unfold finish_output. by intros -> -> ->. Qed.

End batches.

(** ** Invariants of a whole step

    A relation that the primitives of a handler preserve ([Base]), and the few
    updates outside the handlers ([Whole]), relates the state a step starts from
    to the state it leaves: through the dispatch, the output check, the restored
    state after a fault, failing closed, discarding and abandoning. *)

Section whole.
Context `{Target} `{Serde} `{StateSerde} `{Sha2} `{Compiler} `{AtomicSerde} `{Unicode} `{Env}.

(** The state a fault restores from the start [s]. *)
Definition restored (s : St) (cs : CS) (r : option string) (b : bool) : St :=
  {| compiler := cs; durable_of := durable_of s; volatile_of := volatile_of s; effects := [];
     reset := false; request_of := r; allocated := []; abandoned := b |}.

(** A relation every part of a step preserves. *)
Class Whole (R : St -> St -> Prop) : Prop := {
  whole_base :: Base R any;
  whole_clear s : forallb quiet (effects s) = true -> R s (set_effects [] s);
  whole_reset : frames R (modify (set_reset true));
  whole_abandoned : frames R (modify (set_abandoned true));
  whole_persist s id :
    volatile_of s = None -> R s (set_effects (effects s ++ [Effect.Persist id]) s);
  whole_restored s cs r b : forallb quiet (effects s) = true -> R s (restored s cs r b)
  }.

Variable R : St -> St -> Prop.
Context `{HW : !Whole R}.

#[local] Hint Resolve whole_reset whole_abandoned : frames.
#[local] Hint Extern 1 (any _ = true) => reflexivity : frames.

#[local] Ltac whole_go := repeat (intros; first [ solve [eauto 3 with frames] | frame_split ]).

Lemma whole_reply_unstored lane failure fl x restore :
  frames R (reply_unstored lane failure fl x restore).
Proof.
  destruct x; [apply (keeps_restore R any)|]. unfold reply_unstored. whole_go.
Qed.

Lemma whole_consume lane r t e : frames R (consume lane r t e).
Proof.
  destruct (consume_cases R any lane r t e) as [Hk|[->|(f & fl & x & rs & ->)]]; [done|exact Hk| |].
  - apply whole_reset.
  - apply whole_reply_unstored.
Qed.

Lemma whole_work_outcome e w : frames R (work_outcome e w).
Proof.
  unfold work_outcome. destruct (is_atomic_task _); [|apply whole_consume].
  by apply (keeps_atomic_outcome R any).
Qed.

Lemma whole_settle_work e w : frames R (settle_work e w).
Proof.
  unfold settle_work. apply frames_bind; [exact _|apply frames_attempt, whole_work_outcome|].
  intros r. apply frames_bind; [exact _| |by intros _; apply frames_lift, _].
  apply (keeps_volatile R any). auto with frames.
Qed.

Lemma whole_resumed s w : R s (resumed s w).
Proof.
  transitivity (set_volatile ((fun vol => set_v_work None (set_v_pending None vol)) <$> volatile_of s) s).
  - apply (keeps_volatile R any (fun vol => set_v_work None (set_v_pending None vol))).
    auto with frames.
  - apply (keeps_request R any).
Qed.

Lemma whole_unmatched e s : frames R (unmatched e s).
Proof. unfold unmatched. whole_go. Qed.

Lemma whole_outcome e : frames R (outcome e).
Proof.
  intros s. destruct (outcome_cases e s) as [(w & _ & ->)|[->|(f & ->)]].
  - etransitivity; [apply whole_resumed | apply whole_settle_work].
  - apply whole_unmatched.
  - apply (keeps_volatile R any (set_v_pending None)). auto with frames.
Qed.

Lemma set_phase_volatile p s : volatile_of (snd (set_phase p s)) = volatile_of s.
Proof. unfold set_phase, modify. simpl. by repeat case_match. Qed.

(** [abandon] after it dropped the volatile part. *)
Lemma whole_persist_phase p id s :
  volatile_of s = None -> R s (snd ((set_phase p;; push (Effect.Persist id)) s)).
Proof.
  intros Hv. etransitivity; [apply (keeps_set_phase R any p s)|].
  apply (whole_persist (snd (set_phase p s)) id). by rewrite set_phase_volatile.
Qed.

Lemma whole_abandon : frames R abandon.
Proof.
  unfold abandon. do 4 (apply frames_bind; [exact _|solve [eauto with frames]|intros ?]).
  intros s. rewrite at_modify, at_gets. transitivity (set_volatile None s); [apply (keeps_drop R any s)|].
  cbv zeta. match goal with |- context [match ?x with Some _ => _ | None => _ end] => destruct x end;
    [by apply whole_persist_phase | done].
Qed.

Lemma whole_or_reset m : frames R m -> frames R (or_reset m).
Proof. intros Hm. unfold or_reset. apply frames_bind; [exact _|by apply frames_attempt|]. whole_go. Qed.
#[local] Hint Resolve whole_or_reset : frames.

Lemma whole_fail_closed reason e b s :
  forallb quiet (effects s) = true -> R s (snd (fail_closed reason e b s)).
Proof.
  intros Hq. etransitivity; [apply (whole_clear s Hq)|]. unfold fail_closed, fail_closed_reply.
  rewrite at_modify. match goal with |- R _ (snd (?m _)) => assert (Hm : frames R m); [whole_go|] end.
  apply Hm.
Qed.

Lemma whole_discard reason e : frames R (discard reason e).
Proof.
  unfold discard, discard_reply. whole_go.
  apply whole_or_reset. whole_go.
Qed.

Lemma whole_dispatch e : frames R (dispatch e).
Proof.
  destruct (Event.outcome_id e) eqn:Eid.
  - rewrite (dispatch_outcome_event e _ Eid). apply whole_outcome.
  - destruct (decide (e = Event.Abandon)) as [->|Hne]; [apply whole_abandon|].
    by apply (keeps_entry R any).
Qed.

Lemma whole_run_dispatch e s : forallb quiet (effects s) = true -> R s (run_dispatch e s).
Proof.
  intros Hq. unfold run_dispatch, checked_dispatch, mbind, M_bind.
  pose proof (whole_dispatch e s) as Hd. destruct (dispatch e s) as [[[]|f] s']; cbn in *.
  - destruct (check_output s') as [f|]; [|done]. cbn.
    etransitivity; [by apply whole_restored | by apply whole_fail_closed].
  - etransitivity; [by apply whole_restored | by apply whole_fail_closed].
Qed.

(** The state [run] starts its step from. *)
Definition begin_step (cs : CS) (st : stored) (vol : volatile_read) : St :=
  start (match st, vol with
         | Unreadable _, _ | _, (NoVolatile | ReadVolatile _) => cs
         | _, InvalidVolatile text =>
             foldl release_handle cs (readable_handles text (Io.owner host) (max_volatile_bytes limits))
         end)
    (stored_durable st) (match vol with ReadVolatile vol => Some vol | _ => None end).

(** The whole step. *)
Lemma whole_run_read cs st vol e : R (begin_step cs st vol) (run_read cs st vol e).
Proof.
  destruct st as [|reason|d], vol as [|text|vol]; unfold begin_step; cbn [run_read stored_durable];
    first [ by apply whole_run_dispatch | by apply whole_fail_closed | apply whole_discard | idtac ].
  destruct (is_atomic_input e); [|apply whole_discard].
  etransitivity; [|by apply whole_run_dispatch]. eapply (keeps_log R any).
Qed.
End whole.
