(* ===== verification/Failing.v ===== *)
(** * Failing closed and discarding

    What a step leaves when it fails closed or discards an unreadable record,
    exactly: the replies it gives, the record it stores, the effect it waits for.
    No such step reports a success. *)

From S2P Require Import Prelude F64 SerdeJson Compiler State Volatile Io Canonical Bounds.
From S2P Require Import Identity Machine Checks Commands Interactive.
From S2P Require Import Interactive Atomic Execution Run Frames HandlerFrames.
From S2P Require Import Batches.

Section failing.
Context `{Target} `{Serde} `{StateSerde} `{Sha2} `{Compiler} `{AtomicSerde} `{Unicode} `{Env}.

(** ** Computations that always return *)

(** [m] returns, in a state related to the one it starts from. *)
Definition passes {A} (R : St -> St -> Prop) (m : M A) : Prop :=
  forall s, exists a, fst (m s) = inl a /\ R s (snd (m s)).

(** Only immediate effects of [P] are added, the states and flags stay. *)
Record answers (P : effect -> Prop) (s s' : St) : Prop := {
  ans_durable : durable_of s' = durable_of s;
  ans_volatile : volatile_of s' = volatile_of s;
  ans_reset : reset s' = reset s;
  ans_effects : exists l, effects s' = effects s ++ l /\ Forall P l
  }.

#[export] Instance answers_preorder P : PreOrder (answers P).
Proof.
  split.
  - intros s. split; [done..|]. exists []. by rewrite app_nil_r.
  - intros s1 s2 s3 [D1 V1 R1 (l & E1 & F1)] [D2 V2 R2 (k & E2 & F2)].
    split; [congruence..|]. exists (l ++ k). rewrite E2, E1, <- app_assoc.
    split; [done|by apply Forall_app].
Qed.

Section passing.
Variable P : effect -> Prop.

Lemma passes_push e : P e -> passes (answers P) (push e).
Proof.
  intros He s. exists tt. split; [done|]. split; [done..|]. exists [e]. by split; [|constructor].
Qed.
Lemma passes_ret {A} (a : A) : passes (answers P) (mret a).
Proof. intros s. by exists a. Qed.

End passing.

(** Steps over a computation that returns. *)
Lemma passes_bind {A B} R (m : M A) (k : A -> M B) (Q : (B + Fault) * St -> Prop) s :
  passes R m -> (forall a s1, R s s1 -> Q (k a s1)) -> Q ((m ≫= k) s).
Proof.
  intros Hm Hk. destruct (Hm s) as (a & Ea & Hs). unfold mbind, M_bind.
  destruct (m s) as [r s1]. simpl in *. subst r. by apply Hk.
Qed.

(** A reply that claims nothing: a log record, or an error of the given codes. *)
Definition refusal (codes : list code) (e : effect) : Prop :=
  match e with
| Effect.Log _ => True
| Effect.Respond _ reply => exists c, c ∈ codes /\ reply = error_reply c
| _ => False
  end.

Lemma refusal_weaken cs cs' e : (forall c, c ∈ cs -> c ∈ cs') -> refusal cs e -> refusal cs' e.
Proof. intros Hc. destruct e; simpl; try done. intros (c & ? & ?). eauto. Qed.

(** The id a fresh volatile part starts from leaves room for every wait of a step. *)
Lemma seed_id_bounds : 1 <= seed_id < 2 ^ 48.
Proof.
  unfold seed_id. rewrite Z.land_ones by done.
  pose proof (Z.mod_pos_bound (entropy_u64 host 0) (2 ^ 48) ltac:(lia)). lia.
Qed.

Lemma wait_fresh lane r t eff s :
  volatile_of s = None ->
  wait lane r t eff s =
    (inl tt, set_effects (effects s ++ [eff seed_id]) (set_volatile (Some
            (set_v_work (Some {| work_lane := lane; work_request_id := r; work_task := t |})
              (set_v_pending (Some {| pend_id := seed_id; pend_effect := awaited_by t |})
                 (set_v_next_id (seed_id + 1) fresh_volatile)))) s)).
Proof.
  intros Hv. rewrite wait_spec, Hv. cbn [default next_effect_id fresh_volatile].
  destruct (Z.leb_spec MAX_SAFE_INTEGER seed_id) as [Hge|_]; [|done].
  pose proof seed_id_bounds. unfold MAX_SAFE_INTEGER in Hge. lia.
Qed.

Lemma or_reset_fresh lane r t eff s :
  volatile_of s = None -> or_reset (wait lane r t eff) s = wait lane r t eff s.
Proof. intros Hv. unfold or_reset, attempt, mbind, M_bind. by rewrite wait_fresh. Qed.

(** ** Failing closed *)

(** An interactive commit may have been sent when the record is in these phases. *)
Definition unsure (s : St) : bool :=
  bool_decide (phase_of s ∈ [Some Phase.Committing; Some Phase.CommitUnknown]).

(** A fresh volatile part that waits for a record to be stored. *)
Definition persisting (t : task) : Volatile :=
  set_v_work (Some {| work_lane := WorkLane.Background; work_request_id := None; work_task := t |})
    (set_v_pending (Some {| pend_id := seed_id; pend_effect := Awaited.Persist |})
       (set_v_next_id (seed_id + 1) fresh_volatile)).

(** The tasks of a commit under way: the phase to be stored before COMMIT, COMMIT itself, and the
    record to be stored before a reply. *)
Inductive commit_waits : task -> Prop :=
| waits_for_phase a b c : commit_waits (Task.CommitPersist a b c)
| waits_for_commit a b c : commit_waits (Task.CommitSend a b c)
| waits_for_reply a b c d x y : commit_waits (Task.Reply a b c d x y).

(** COMMIT may have been sent: the stored record says so. *)
Definition in_doubt (s : St) : Prop :=
  exists r, durable_of s = Some (Durable.Live r)
    /\ (rec_phase r = Phase.Committing \/ rec_phase r = Phase.CommitUnknown).

(** Who waits for an answer when a step on [e] fails closed, on which channel, and what it is told. *)
Inductive told_on_failure (s : St) (e : event) : string -> code -> Prop :=
| told_commit w :
    work_of s = Some w -> work_lane w = WorkLane.Client ->
    in_doubt s -> commit_waits (work_task w) -> told_on_failure s e "client" Code.OutcomeUnknown
| told_client w :
    work_of s = Some w -> work_lane w = WorkLane.Client ->
    ~ (in_doubt s /\ commit_waits (work_task w)) -> told_on_failure s e "client" Code.Internal
| told_deferred vol d :
    volatile_of s = Some vol -> deferred vol = Some d -> told_on_failure s e "client" Code.Internal
| told_callback vol c :
    volatile_of s = Some vol -> callback vol = Some c -> told_on_failure s e "callback" Code.Internal
| told_request operation :
    e = Event.Request operation -> told_on_failure s e "client" Code.Internal
| told_callback_query input :
    e = Event.Forwarded input -> Value.get_str "kind" input = Some "callbackQuery"%string ->
    told_on_failure s e "callback" Code.Internal
| told_forwarded_commit input :
    e = Event.Forwarded input -> Value.get_str "kind" input = Some "commit"%string ->
    in_doubt s -> told_on_failure s e "client" Code.OutcomeUnknown
| told_forwarded input :
    e = Event.Forwarded input -> Value.get_str "kind" input <> Some "callbackQuery"%string ->
    ~ (in_doubt s /\ Value.get_str "kind" input = Some "commit"%string) ->
    told_on_failure s e "client" Code.Internal.

(** The record [r] that can no longer proceed: its phase, without a deadline. *)
Definition ended (r : TxRecord) (p : phase) : TxRecord :=
  {| rec_owner := rec_owner r; rec_kind := rec_kind r; rec_phase := p;
     identity := identity r; binding := binding r; rec_snapshot := rec_snapshot r;
     rec_expires_at_ms := None; next_sequence := next_sequence r; last := last r;
     counters := counters r; mutations := mutations r; versions := versions r;
     rec_atomic := rec_atomic r |}.

(** The record failing closed stores in the place of [d]: [lost] is that the transaction had a
    volatile part, which is gone. *)
Inductive closes_to (lost : Prop) : option durable -> option durable -> Prop :=
| active_failed r :
    lost -> rec_phase r = Phase.Active ->
    closes_to lost (Some (Durable.Live r)) (Some (Durable.Live (ended r Phase.Failed)))
| validating_failed r :
    lost -> rec_phase r = Phase.Validating ->
    closes_to lost (Some (Durable.Live r)) (Some (Durable.Live (ended r Phase.Failed)))
| committing_unknown r :
    rec_phase r = Phase.Committing ->
    closes_to lost (Some (Durable.Live r)) (Some (Durable.Live (ended r Phase.CommitUnknown))).

Lemma set_phase_reads q s s1 :
  durable_of s1 = durable_of s ->
  durable_of (snd (set_phase q s1)) = durable_of (snd (set_phase q s))
  /\ effects (snd (set_phase q s1)) = effects s1 /\ volatile_of (snd (set_phase q s1)) = volatile_of s1
  /\ reset (snd (set_phase q s1)) = reset s1.
Proof.
  intros Hd. unfold set_phase, modify. simpl. rewrite Hd.
  destruct (bool_decide _); [done|]. destruct (durable_of s) as [[]|] eqn:E; repeat split; simpl; congruence.
Qed.

Lemma set_phase_ended q r s :
  durable_of s = Some (Durable.Live r) -> q = Phase.Failed \/ q = Phase.CommitUnknown ->
  durable_of (snd (set_phase q s)) = Some (Durable.Live (ended r q)).
Proof. intros Hd [->| ->]; unfold set_phase, modify; simpl; by rewrite Hd. Qed.

Lemma release_all_reads s :
  durable_of (snd (release_all s)) = durable_of s /\ effects (snd (release_all s)) = effects s
  /\ reset (snd (release_all s)) = reset s.
Proof. unfold release_all, modify. simpl. by case_match. Qed.

Lemma at_release_all {B} (k : unit -> M B) s : (release_all ≫= k) s = k tt (snd (release_all s)).
Proof. done. Qed.
Lemma at_set_phase {B} q (k : unit -> M B) s : (set_phase q ≫= k) s = k tt (snd (set_phase q s)).
Proof. done. Qed.

#[local] Opaque set_phase.

(** The end of [fail_closed], once every waiting caller is answered. *)
Lemma fail_closed_end had s s1 l :
  effects s1 = l -> durable_of s1 = durable_of s -> reset s1 = reset s ->
  let m := match fail_closed_phase had (phase_of s) with
           | Some p =>
               set_phase p;;
               or_reset (wait WorkLane.Background None Task.ResetAfterPersist Effect.Persist)
           | None => modify (set_reset true)
           end in
  let r := (release_all;; modify (set_volatile None);; m) s1 in
  fst r = inl tt
  /\ match fail_closed_phase had (phase_of s) with
     | Some q =>
         effects (snd r) = l ++ [Effect.Persist seed_id] /\ reset (snd r) = reset s
         /\ volatile_of (snd r) = Some (persisting Task.ResetAfterPersist)
         /\ durable_of (snd r) = durable_of (snd (set_phase q s))
     | None => effects (snd r) = l /\ reset (snd r) = true /\ volatile_of (snd r) = None
               /\ durable_of (snd r) = durable_of s
     end.
Proof.
  intros El Ed Er m. pose proof (release_all_reads s1) as (Hd & He & Hr).
  cbv zeta. rewrite at_release_all, at_modify. subst m.
  destruct (snd (release_all s1)) as [cs d vol l3 r3 rq al ab] eqn:E3. simpl in Hd, He, Hr.
  set (s3 := set_volatile None _).
  destruct (fail_closed_phase had (phase_of s)) as [q|]; [|simpl; repeat split; congruence].
  pose proof (set_phase_reads q s s3 ltac:(unfold s3; simpl; congruence)) as (Hd4 & He4 & Hv4 & Hr4).
  rewrite at_set_phase, or_reset_fresh, wait_fresh by done. simpl in *.
  repeat split; congruence.
Qed.

(** [m] adds the effects [l] and does nothing else. *)
Definition adds (l : list effect) (m : M unit) : Prop :=
  forall s, m s = (inl tt, set_effects (effects s ++ l) s).

Lemma adds_push e : adds [e] (push e).
Proof. done. Qed.
Lemma adds_ret : adds [] (mret tt).
Proof. intros [cs d vol l r rq al ab]. unfold set_effects. simpl. by rewrite app_nil_r. Qed.
Lemma at_adds {B} l m (k : unit -> M B) s :
  adds l m -> (m ≫= k) s = k tt (set_effects (effects s ++ l) s).
Proof. intros Hm. unfold mbind, M_bind. by rewrite Hm. Qed.

(** The replies of a failing step, in their order. *)
Definition waiting_replies (s : St) : list (string * code) :=
  match work_of s with
  | Some w =>
      if is_client w
      then [("client", if unsure s && is_commit_task (work_task w) then Code.OutcomeUnknown
                       else Code.Internal)]%string
      else []
  | None => []
  end.

Definition event_replies (s : St) (e : event) : list (string * code) :=
  match e with
  | Event.Request _ => [("client", Code.Internal)]%string
  | Event.Forwarded input =>
      if bool_decide (Value.get_str "kind" input = Some "callbackQuery"%string)
      then [("callback", Code.Internal)]%string
      else [("client", if unsure s && bool_decide (Value.get_str "kind" input = Some "commit"%string)
                       then Code.OutcomeUnknown else Code.Internal)]%string
  | _ => []
  end.

Definition failure_replies (s : St) (e : event) : list (string * code) :=
  waiting_replies s ++ (if has_deferred s then [("client", Code.Internal)]%string else [])
  ++ (if has_callback s then [("callback", Code.Internal)]%string else []) ++ event_replies s e.

Definition reply_effects (l : list (string * code)) : list effect :=
  map (fun '(channel, c) => Effect.Respond channel (error_reply c)) l.

Lemma adds_waiting s :
  adds (reply_effects (waiting_replies s))
    match work_of s with
    | Some w =>
        if is_client w then
          respond (error_reply (if unsure s && is_commit_task (work_task w) then Code.OutcomeUnknown
                                else Code.Internal))
        else mret tt
    | None => mret tt
    end.
Proof.
  unfold waiting_replies. destruct (work_of s) as [w|]; [|apply adds_ret].
  destruct (is_client w); [apply adds_push|apply adds_ret].
Qed.

Lemma adds_event s e : adds (reply_effects (event_replies s e)) (fail_closed_reply (unsure s) e).
Proof.
  destruct e; try apply adds_ret; [apply adds_push|]. cbn [event_replies fail_closed_reply].
  case_bool_decide; apply adds_push.
Qed.

Lemma adds_log v : exists record, adds [Effect.Log record] (log v).
Proof. by eexists. Qed.

Lemma adds_client (b : bool) c :
  adds (reply_effects (if b then [("client"%string, c)] else []))
    (if b then respond (error_reply c) else mret tt).
Proof. destruct b; [apply adds_push|apply adds_ret]. Qed.

Lemma adds_callback (b : bool) c :
  adds (reply_effects (if b then [("callback"%string, c)] else []))
    (if b then respond_callback (error_reply c) else mret tt).
Proof. destruct b; [apply adds_push|apply adds_ret]. Qed.

Lemma unsure_in_doubt s : unsure s = true <-> in_doubt s.
Proof.
  unfold unsure, in_doubt, phase_of. rewrite bool_decide_eq_true. split.
  - rewrite !elem_of_cons. destruct (durable_of s) as [[o|r]|]; simpl; intros Hp.
    + by destruct Hp as [?|[?|?%not_elem_of_nil]].
    + exists r. split; [done|]. by destruct Hp as [[= ?]|[[= ?]|?%not_elem_of_nil]]; [left|right|].
    + by destruct Hp as [?|[?|?%not_elem_of_nil]].
  - intros (r & -> & [Hp|Hp]); simpl; rewrite Hp; set_solver.
Qed.

Lemma commit_task_waits t : is_commit_task t = true <-> commit_waits t.
Proof.
  split; [|by intros []]. destruct t; intros Ht; try discriminate Ht; constructor.
Qed.

Lemma elem_of_if {A} (b : bool) (x y : A) : x ∈ (if b then [y] else []) <-> b = true /\ x = y.
Proof.
  destruct b; [rewrite list_elem_of_singleton|rewrite elem_of_nil]; split;
    [done|by intros [_ ?]|done|by intros [? _]].
Qed.

Lemma is_client_lane w : is_client w = true <-> work_lane w = WorkLane.Client.
Proof. apply bool_decide_eq_true. Qed.

Lemma has_deferred_spec s :
  has_deferred s = true <-> exists vol d, volatile_of s = Some vol /\ deferred vol = Some d.
Proof.
  unfold has_deferred. destruct (volatile_of s) as [vol|]; simpl; [|split; [done|by intros (? & ? & ? & ?)]].
  rewrite bool_decide_eq_true. split; [intros [d Hd]; by exists vol, d|].
  intros (? & d & [= <-] & Hd). by exists d.
Qed.

Lemma has_callback_spec s :
  has_callback s = true <-> exists vol c, volatile_of s = Some vol /\ callback vol = Some c.
Proof.
  unfold has_callback. destruct (volatile_of s) as [vol|]; simpl; [|split; [done|by intros (? & ? & ? & ?)]].
  rewrite bool_decide_eq_true. split; [intros [d Hd]; by exists vol, d|].
  intros (? & d & [= <-] & Hd). by exists d.
Qed.

(** The code of a command that waits for a commit, or not. *)
Lemma doubtful_code s (b : bool) (P : Prop) c :
  (b = true <-> P) ->
  c = (if unsure s && b then Code.OutcomeUnknown else Code.Internal)
  <-> (in_doubt s /\ P /\ c = Code.OutcomeUnknown) \/ (~ (in_doubt s /\ P) /\ c = Code.Internal).
Proof.
  intros HP. rewrite <- unsure_in_doubt, <- HP. destruct (unsure s), b; simpl; intuition congruence.
Qed.

Lemma waiting_told s channel c :
  (channel, c) ∈ waiting_replies s <->
  exists w, work_of s = Some w /\ work_lane w = WorkLane.Client /\ channel = "client"%string
    /\ ((in_doubt s /\ commit_waits (work_task w) /\ c = Code.OutcomeUnknown)
        \/ (~ (in_doubt s /\ commit_waits (work_task w)) /\ c = Code.Internal)).
Proof.
  unfold waiting_replies. destruct (work_of s) as [w|].
  - rewrite elem_of_if, is_client_lane, pair_equal_spec.
    rewrite (doubtful_code s _ _ c (commit_task_waits (work_task w))).
    split; [intros (? & ? & ?); by exists w|by intros (? & [= <-] & ? & ? & ?)].
  - rewrite elem_of_nil. split; [done|by intros (? & ? & ?)].
Qed.

Lemma event_told s e channel c :
  (channel, c) ∈ event_replies s e <->
  (exists operation, e = Event.Request operation /\ channel = "client"%string /\ c = Code.Internal)
  \/ (exists input, e = Event.Forwarded input
      /\ ((Value.get_str "kind" input = Some "callbackQuery"%string
           /\ channel = "callback"%string /\ c = Code.Internal)
          \/ (Value.get_str "kind" input <> Some "callbackQuery"%string /\ channel = "client"%string
              /\ ((in_doubt s /\ Value.get_str "kind" input = Some "commit"%string
                   /\ c = Code.OutcomeUnknown)
                  \/ (~ (in_doubt s /\ Value.get_str "kind" input = Some "commit"%string)
                      /\ c = Code.Internal))))).
Proof.
  destruct e; cbn [event_replies];
    try (rewrite elem_of_nil; split; [done|by intros [(? & [=] & _)|(? & [=] & _)]]).
  - rewrite list_elem_of_singleton, pair_equal_spec. split.
    + intros [-> ->]. left. by eexists.
    + by intros [(? & _ & -> & ->)|(? & [=] & _)].
  - case_bool_decide as Hk; rewrite list_elem_of_singleton, pair_equal_spec.
    + split; [intros [-> ->]; right; eexists; split; [done|by left]|].
      intros [(? & [=] & _)|(? & [= <-] & [(_ & -> & ->)|[Hn _]])]; done.
    + rewrite (doubtful_code s _ _ c (bool_decide_eq_true _)). split.
      * intros [-> Hc]. right. eexists. split; [done|by right].
      * by intros [(? & [=] & _)|(? & [= <-] & [[? _]|(_ & -> & Hc)])].
Qed.

Lemma replies_told s e channel c :
  (channel, c) ∈ failure_replies s e <-> told_on_failure s e channel c.
Proof.
  unfold failure_replies. rewrite !elem_of_app, !elem_of_if, waiting_told, event_told.
  rewrite has_deferred_spec, has_callback_spec, !pair_equal_spec. split.
  - intros [(w & Hw & Hl & -> & [(Hd & Ht & ->)|(Hn & ->)])
            |[((vol & d & Hv & Hd) & -> & ->)|[((vol & d & Hv & Hd) & -> & ->)|Hev]]].
    + by eapply told_commit.
    + by eapply told_client.
    + by eapply told_deferred.
    + by eapply told_callback.
    + destruct Hev as [(op & -> & -> & ->)
                      |(input & -> & [(Hk & -> & ->)|(Hk & -> & [(Hd & Hc & ->)|(Hn & ->)])])].
      * by eapply told_request.
      * by eapply told_callback_query.
      * by eapply told_forwarded_commit.
      * by eapply told_forwarded.
  - intros Ht. destruct Ht as [w Hw Hl Hd Ht|w Hw Hl Hn|vol d Hv Hd|vol d Hv Hd|op He|inp He Hk
                              |inp He Hk Hd|inp He Hk Hn].
    + left. exists w. auto 7.
    + left. exists w. auto 7.
    + right; left. split; [by exists vol, d|done].
    + right; right; left. split; [by exists vol, d|done].
    + right; right; right; left. by exists op.
    + right; right; right; right. exists inp. auto 7.
    + right; right; right; right. exists inp. rewrite Hk. split; [done|right]. auto 7.
    + right; right; right; right. exists inp. auto 7.
Qed.

(** The record, the volatile part and the last effect once the callers are answered. *)
Lemma closes_to_phase had (lost : Prop) s d :
  (had = true <-> lost) ->
  closes_to lost (durable_of s) d
  <-> exists q r, fail_closed_phase had (phase_of s) = Some q /\ durable_of s = Some (Durable.Live r)
       /\ d = Some (Durable.Live (ended r q)).
Proof.
  intros Hl. split.
  - unfold phase_of. remember (durable_of s) as d0. intros Hc.
    destruct Hc as [r Hc%Hl Hr|r Hc%Hl Hr|r Hr]; simpl; rewrite Hr, ?Hc; by eexists _, r.
  - unfold phase_of. intros (q & r & Hq & Hd & ->). rewrite Hd in *. simpl in Hq.
    destruct (rec_phase r) eqn:Er, had; simplify_eq; constructor; by rewrite ?Er, <- ?Hl.
Qed.

(** A reply or a log record. *)
Definition said (e : effect) : bool :=
  match e with Effect.Log _ | Effect.Respond _ _ => true | _ => false end.

Lemma reply_effects_said l : forallb said (reply_effects l) = true.
Proof. by induction l as [|[]]. Qed.

Lemma elem_of_reply_effects l channel reply :
  Effect.Respond channel reply ∈ reply_effects l
  <-> exists c, (channel, c) ∈ l /\ reply = error_reply c.
Proof.
  unfold reply_effects. rewrite list_elem_of_fmap. split.
  - intros ([ch c] & [= -> ->] & Hin). by exists c.
  - intros (c & Hin & ->). by exists (channel, c).
Qed.

Lemma elem_of_told s e channel reply :
  Effect.Respond channel reply ∈ reply_effects (failure_replies s e)
  <-> exists c, told_on_failure s e channel c /\ reply = error_reply c.
Proof.
  rewrite elem_of_reply_effects. split; intros (c & Hc & ->); exists c; split; try done;
    by apply replies_told.
Qed.

(** What failing closed leaves. *)
Record fails_closed (lost : Prop) (s s' : St) (e : event) : Prop := {
  fls_told channel reply :
    Effect.Respond channel reply ∈ effects s'
    <-> exists c, told_on_failure s e channel c /\ reply = error_reply c;
  fls_closed d :
    closes_to lost (durable_of s) d ->
    durable_of s' = d /\ reset s' = reset s /\ volatile_of s' = Some (persisting Task.ResetAfterPersist)
    /\ exists l, effects s' = l ++ [Effect.Persist seed_id] /\ forallb said l = true;
  fls_untouched :
    (forall d, ~ closes_to lost (durable_of s) d) ->
    durable_of s' = durable_of s /\ reset s' = true /\ volatile_of s' = None
    /\ forallb said (effects s') = true
  }.

Lemma fail_closed_at reason e volatile_unknown s :
  exists record, fail_closed reason e volatile_unknown s =
    (release_all;; modify (set_volatile None);;
     match fail_closed_phase (volatile_unknown || bool_decide (is_Some (volatile_of s))) (phase_of s) with
     | Some p =>
         set_phase p;; or_reset (wait WorkLane.Background None Task.ResetAfterPersist Effect.Persist)
     | None => modify (set_reset true)
     end) (set_effects (Effect.Log record :: reply_effects (failure_replies s e)) s).
Proof.
  unfold fail_closed. rewrite at_modify, at_get. cbv zeta. set (s0 := set_effects [] s).
  fold (unsure s0).
  edestruct adds_log as [record Hlog]. exists record.
  rewrite (at_adds _ _ _ _ Hlog), (at_adds _ _ _ _ (adds_waiting s0)).
  rewrite (at_adds _ _ _ _ (adds_client (has_deferred s0) Code.Internal)).
  rewrite (at_adds _ _ _ _ (adds_callback (has_callback s0) Code.Internal)).
  rewrite (at_adds _ _ _ _ (adds_event s0 e)).
  f_equal. unfold failure_replies, reply_effects. rewrite !map_app. unfold set_effects. simpl.
  by rewrite <- !app_assoc.
Qed.

(** The record, the volatile part and the effect a failing step leaves. *)
Lemma fail_closed_final reason e volatile_unknown s :
  let s' := snd (fail_closed reason e volatile_unknown s) in
  match fail_closed_phase (volatile_unknown || bool_decide (is_Some (volatile_of s))) (phase_of s) with
  | Some q => volatile_of s' = Some (persisting Task.ResetAfterPersist)
              /\ durable_of s' = durable_of (snd (set_phase q s))
  | None => reset s' = true
  end.
Proof.
  destruct (fail_closed_at reason e volatile_unknown s) as [record ->].
  set (s1 := set_effects _ s). set (had := volatile_unknown || _).
  destruct (fail_closed_end had s s1 (effects s1) eq_refl eq_refl eq_refl) as [_ Hend]. cbv zeta in *.
  destruct (fail_closed_phase _ _); [by destruct Hend as (_ & _ & ?)|by destruct Hend as (_ & ? & _)].
Qed.

(** C14: failing closed, whatever the step did before. Its effects are dropped, and everyone who
    waits for an answer is given one, an internal error, or that the outcome of the commit is
    unknown where the record is in [committing] or [commit_unknown] and the client waits for its
    commit or sends one; nobody else is told anything. A record in [active] or [validating] whose
    volatile part is lost becomes [failed], one in [committing] becomes [commit_unknown], without
    a deadline and otherwise as it was, and the step waits for it to be stored, to reset then;
    in every other case the stored record stays and the owner resets at once. *)
Theorem fail_closed_spec reason e volatile_unknown s :
  let r := fail_closed reason e volatile_unknown s in
  fst r = inl tt
  /\ fails_closed (volatile_unknown = true \/ is_Some (volatile_of s)) s (snd r) e.
Proof.
  destruct (fail_closed_at reason e volatile_unknown s) as [record ->].
  set (had := volatile_unknown || _). set (l := _ :: _). set (s1 := set_effects l s).
  assert (Hhad : had = true <-> volatile_unknown = true \/ is_Some (volatile_of s))
    by (unfold had; by rewrite orb_true_iff, bool_decide_eq_true).
  assert (Hsaid : forallb said l = true) by apply reply_effects_said.
  destruct (fail_closed_end had s s1 l eq_refl eq_refl eq_refl) as [Hret Hend].
  split; [exact Hret|]. split.
  - intros channel reply. rewrite <- (elem_of_told s e). destruct (fail_closed_phase _ _).
    + destruct Hend as (-> & _). unfold l. rewrite elem_of_app, elem_of_cons, list_elem_of_singleton.
      split; [by intros [[|?]|]|auto].
    + destruct Hend as (-> & _). unfold l. rewrite elem_of_cons. split; [by intros [|?]|auto].
  - intros d (q & r & Hq & Hr & ->)%(closes_to_phase had _ _ _ Hhad). rewrite Hq in Hend |- *.
    destruct Hend as (He & Hres & Hv & Hd). rewrite Hd.
    split; [apply set_phase_ended; [done|]; by destruct (phase_of s) as [[]|], had; simplify_eq/=; auto|].
    split; [done|]. split; [done|]. by exists l.
  - intros Hn. destruct (fail_closed_phase had (phase_of s)) as [q|] eqn:Eq.
    + exfalso. assert (Hr : exists r, durable_of s = Some (Durable.Live r)).
      { unfold phase_of in Eq. destruct (durable_of s) as [[o|r]|]; [done|by exists r|done]. }
      destruct Hr as [r Hr]. eapply Hn. apply (closes_to_phase had _ _ _ Hhad). by eexists q, r.
    + destruct Hend as (-> & ? & ? & ?). done.
Qed.
(** ** Discarding an unreadable record *)
Definition discard_codes : list code := [Code.Internal; Code.OutcomeUnknown; Code.Unavailable].

(** An open connection that serves nothing. *)
Definition idle_open (s : St) : bool :=
  opt_existsb (fun vol => bool_decide (connection vol = Connection.Open)
    && bool_decide (pending vol = None) && bool_decide (callback vol = None)) (volatile_of s).

Definition discard_refusal (w : Work) : effect :=
  Effect.Respond "client" (error_reply (if discard_commit_task (work_task w) then Code.OutcomeUnknown
                                        else Code.Internal)).

Lemma discard_code c chan :
  c ∈ discard_codes -> refusal discard_codes (Effect.Respond chan (error_reply c)).
Proof. intros Hc. by exists c. Qed.

Lemma discard_replies e : passes (answers (refusal discard_codes)) (discard_reply e).
Proof.
  unfold discard_reply. destruct e; try apply passes_ret.
  repeat case_match; apply passes_push, discard_code; set_solver.
Qed.

Lemma discard_client_passes s :
  passes (fun s1 s2 => answers (refusal discard_codes) s1 s2
            /\ forall w, work_of s = Some w -> is_client w = true -> discard_refusal w ∈ effects s2)
    match work_of s with
    | Some w =>
        if is_client w then
          respond (error_reply (if discard_commit_task (work_task w) then Code.OutcomeUnknown
                                else Code.Internal))
        else mret tt
    | None => mret tt
    end.
Proof.
  destruct (work_of s) as [w|]; [destruct (is_client w) eqn:Ec|]; intros s1; exists tt;
    (split; [done|]); (split; [|intros w' [= <-] Hc]); try done; try congruence.
  - set (c := if discard_commit_task _ then _ else _).
    assert (Hc : c ∈ discard_codes) by (unfold c; case_match; set_solver).
    by destruct (passes_push _ _ (discard_code c "client" Hc) s1) as (? & _ & ?).
  - simpl. apply elem_of_app. right. left.
Qed.

(** The volatile part that waits for the rollback of the idle connection. *)
Definition rolling_back (vol : Volatile) : Volatile :=
  set_v_work (Some {| work_lane := WorkLane.Background; work_request_id := None;
                      work_task := Task.CloseRollback Phase.Discarded None |})
    (set_v_pending (Some {| pend_id := next_effect_id vol; pend_effect := Awaited.Rollback |})
       (set_v_next_id (next_effect_id vol + 1)
          (set_v_connection Connection.Closing (set_v_work None (set_v_handles [] vol))))).

(** The task that waits for the tombstone. *)
Definition discard_task (s : St) : task :=
  if bool_decide (connection_of s = Connection.None) then plain_reply None None
  else Task.ResetAfterPersist.

(** What a discard leaves. *)
Record discarded (s s' : St) (l : list effect) : Prop := {
  dsc_refusals : Forall (refusal discard_codes) l;
  dsc_client w : work_of s = Some w -> is_client w = true -> discard_refusal w ∈ effects s ++ l;
  dsc_durable : durable_of s' = Some (Durable.Tombstone this_owner);
  dsc_final :
    if idle_open s then
      exists vol, volatile_of s = Some vol
        /\ if (MAX_SAFE_INTEGER <=? next_effect_id vol)%Z
           then reset s' = true /\ effects s' = effects s ++ l
           else reset s' = reset s
                /\ effects s' = effects s ++ l ++ [Effect.Rollback (next_effect_id vol)]
                /\ volatile_of s' = Some (rolling_back vol)
    else reset s' = reset s /\ effects s' = effects s ++ l ++ [Effect.Persist seed_id]
         /\ volatile_of s' = Some (persisting (discard_task s))
  }.

(** The end of [discard]. *)
Lemma discard_end s s1 l :
  effects s1 = effects s ++ l -> volatile_of s1 = volatile_of s -> reset s1 = reset s ->
  let io := idle_open s in
  let r := (release_all;; modify (set_durable (Some (Durable.Tombstone this_owner)));;
            or_reset
              (if io then
                 with_volatile (fun vol => set_v_connection Connection.Closing (set_v_work None vol));;
                 wait WorkLane.Background None (Task.CloseRollback Phase.Discarded None) Effect.Rollback
               else
                 c ← gets connection_of;
                 modify (set_volatile None);;
                 if bool_decide (c = Connection.None) then
                   wait WorkLane.Background None (plain_reply None None) Effect.Persist
                 else wait WorkLane.Background None Task.ResetAfterPersist Effect.Persist)) s1 in
  fst r = inl tt /\ durable_of (snd r) = Some (Durable.Tombstone this_owner)
  /\ if io then
       exists vol, volatile_of s = Some vol
         /\ if (MAX_SAFE_INTEGER <=? next_effect_id vol)%Z
            then reset (snd r) = true /\ effects (snd r) = effects s ++ l
            else reset (snd r) = reset s
                 /\ effects (snd r) = effects s ++ l ++ [Effect.Rollback (next_effect_id vol)]
                 /\ volatile_of (snd r) = Some (rolling_back vol)
     else reset (snd r) = reset s /\ effects (snd r) = effects s ++ l ++ [Effect.Persist seed_id]
          /\ volatile_of (snd r) = Some (persisting (discard_task s)).
Proof.
  intros El Hv Hr. cbv zeta. rewrite at_release_all, at_modify. unfold release_all; cbn [modify snd].
  destruct (idle_open s) eqn:Eio.
  - unfold idle_open in Eio. destruct (volatile_of s) as [vol|]; [|done]. rewrite Hv. cbn [snd].
    unfold or_reset, attempt. unfold mbind, M_bind. unfold with_volatile, modify.
    rewrite wait_spec. simpl. destruct (MAX_SAFE_INTEGER <=? next_effect_id vol)%Z eqn:Em; simpl;
      (split; [done|]; split; [done|]; exists vol; rewrite ?Em, ?app_assoc, <- ?El; by repeat split).
  - unfold discard_task, connection_of. rewrite Hv. destruct (volatile_of s) as [vol|];
      unfold or_reset, attempt, mbind, M_bind; cbn -[wait bool_decide persisting];
      rewrite ?Hv; case_bool_decide; try done;
      rewrite wait_fresh, app_assoc, <- El by done; by repeat split.
Qed.

(** Discarding. A record that cannot be read becomes a tombstone of this owner whatever it
    held, no reply claims an outcome, a waiting client whose commit may have been sent is told that
    the outcome is unknown, and the step waits for the rollback of an open idle connection, or
    otherwise for the tombstone to be stored. *)
Theorem discard_spec reason e s :
  let r := discard reason e s in
  fst r = inl tt /\ exists l, discarded s (snd r) l.
Proof.
  set (P := refusal discard_codes).
  set (Q := fun r : (unit + Fault) * St => fst r = inl tt /\ exists l, discarded s (snd r) l).
  change (Q (discard reason e s)). unfold discard.
  apply (passes_bind (answers P) _ _ Q); [by apply passes_push|intros _ s1 A1].
  rewrite at_get. assert (Hw1 : work_of s1 = work_of s) by (unfold work_of; by rewrite (ans_volatile _ _ _ A1)).
  apply (passes_bind _ _ _ Q _ (discard_client_passes s1)). intros _ s2 [A2 Hw].
  apply (passes_bind (answers P) _ _ Q);
    [case_match; [apply passes_push, discard_code; set_solver|apply passes_ret]|intros _ s3 A3].
  apply (passes_bind (answers P) _ _ Q);
    [case_match; [apply passes_push, discard_code; set_solver|apply passes_ret]|intros _ s4 A4].
  apply (passes_bind (answers P) _ _ Q); [apply discard_replies|intros _ s5 A5].
  assert (Hans : answers P s s5) by (by do 4 (etransitivity; [eassumption|])).
  destruct Hans as [_ Hv Hr (l & El & Hl)].
  fold (idle_open s1). assert (Hio : idle_open s1 = idle_open s)
    by (unfold idle_open; by rewrite (ans_volatile _ _ _ A1)). rewrite Hio.
  destruct (discard_end s s5 l El Hv Hr) as (Hret & Hd & Hfin).
  split; [exact Hret|]. exists l. split; [done| |exact Hd|exact Hfin].
  intros w Hwork Hc. rewrite <- El. rewrite <- Hw1 in Hwork.
  assert (Hgrow : answers P s2 s5) by (by do 2 (etransitivity; [eassumption|])).
  destruct Hgrow as [_ _ _ (k & -> & _)]. apply elem_of_app. left. by apply Hw.
Qed.
End failing.
