(* ===== verification/World.v ===== *)
(** * A concrete world

    Instances of every interface the development leaves open, small enough to
    evaluate: a compact JSON printer and a parser of JSON without fractions,
    exponents and Unicode escapes, readers and printers of the states that hold
    one chosen value each, a digest that is not a hash, and a compiler whose
    table is a list of handles. The examples and the witnesses run the model on
    it; no theorem depends on it. *)

From S2P Require Import Prelude F64 SerdeJson Compiler State Volatile Io Canonical Bounds.
From S2P Require Import Identity Machine Checks Commands Interactive.
From S2P Require Import Interactive Atomic Execution Run.

(** ** JSON text *)

(** JSON as written: members in text order. *)
Inductive tree :=
| TNull
| TBool (b : bool)
| TInt (n : Z)
| TStr (s : string)
| TArr (l : list tree)
| TObj (l : list (string * tree)).

Definition skip_char (c : ascii) (s : string) : option string :=
  match s with String d s' => if ascii_dec c d then Some s' else None | EmptyString => None end.

Definition is_space (c : ascii) : bool := (byte_of c =? 32)%Z || (byte_of c =? 10)%Z.

Fixpoint skip_spaces (s : string) : string :=
  match s with
  | String c s' => if is_space c then skip_spaces s' else s
  | EmptyString => EmptyString
  end.

(** The text up to the closing quote. *)
Fixpoint read_chars (s : string) : option (string * string) :=
  match s with
  | EmptyString => None
  | String c s' =>
      if (byte_of c =? 34)%Z then Some (EmptyString, s')
      else if (byte_of c =? 92)%Z then
        match s' with
        | String d s'' =>
            let e := if (byte_of d =? 110)%Z then char_of 10 else d in
            '(t, rest) ← read_chars s''; Some (String e t, rest)
        | EmptyString => None
        end
      else '(t, rest) ← read_chars s'; Some (String c t, rest)
  end.

Fixpoint read_digits (acc : Z) (s : string) : Z * string :=
  match s with
  | String c s' => if is_digit c then read_digits (acc * 10 + (byte_of c - 48)) s' else (acc, s)
  | EmptyString => (acc, s)
  end.

Fixpoint read_tree (fuel : nat) (s : string) {struct fuel} : option (tree * string) :=
  match fuel with
  | O => None
  | S fuel =>
      let items := fix items (n : nat) (s : string) : option (list tree * string) :=
        match n with
        | O => None
        | S n =>
            '(t, s) ← read_tree fuel s;
            match skip_char "," (skip_spaces s) with
            | Some s => '(ts, s) ← items n s; Some (t :: ts, s)
            | None => s ← skip_char "]" (skip_spaces s); Some ([t], s)
            end
        end in
      let members := fix members (n : nat) (s : string) : option (list (string * tree) * string) :=
        match n with
        | O => None
        | S n =>
            s ← skip_char (char_of 34) (skip_spaces s);
            '(k, s) ← read_chars s;
            s ← skip_char ":" (skip_spaces s);
            '(t, s) ← read_tree fuel s;
            match skip_char "," (skip_spaces s) with
            | Some s => '(ts, s) ← members n s; Some ((k, t) :: ts, s)
            | None => s ← skip_char "}" (skip_spaces s); Some ([(k, t)], s)
            end
        end in
      match skip_spaces s with
      | String c s' =>
          let b := byte_of c in
          if (b =? 34)%Z then '(t, s) ← read_chars s'; Some (TStr t, s)
          else if (b =? 91)%Z then
            match skip_char "]" (skip_spaces s') with
            | Some s => Some (TArr [], s)
            | None => '(l, s) ← items fuel s'; Some (TArr l, s)
            end
          else if (b =? 123)%Z then
            match skip_char "}" (skip_spaces s') with
            | Some s => Some (TObj [], s)
            | None => '(l, s) ← members fuel s'; Some (TObj l, s)
            end
          else if is_digit c then let '(n, s) := read_digits 0 (String c s') in Some (TInt n, s)
          else if (b =? 45)%Z then let '(n, s) := read_digits 0 s' in Some (TInt (- n), s)
          else match strip_prefix "null" (String c s') with
               | Some s => Some (TNull, s)
               | None =>
                   match strip_prefix "true" (String c s') with
                   | Some s => Some (TBool true, s)
                   | None => s ← strip_prefix "false" (String c s'); Some (TBool false, s)
                   end
               end
      | EmptyString => None
      end
  end.

(** 100 levels and 100 items per level. *)
Definition read_text (s : string) : option (tree * bool) :=
  '(t, rest) ← read_tree 100 s;
  Some (t, String.eqb (skip_spaces rest) "").

Definition read_exact (s : string) : option tree :=
  '(t, at_end) ← read_text s; if (at_end : bool) then Some t else None.

Fixpoint print_tree (t : tree) : string :=
  match t with
  | TNull => "null"
  | TBool b => if b then "true" else "false"
  | TInt n => display_Z n
  | TStr s => write_string s
  | TArr l => ("[" ++ commas (map print_tree l) ++ "]")%string
  | TObj l =>
      ("{" ++ commas (map (fun '(k, t) => write_string k ++ ":" ++ print_tree t)%string l) ++ "}")%string
  end.

Fixpoint value_of_tree (t : tree) : value :=
  match t with
  | TNull => Value.Null
  | TBool b => Value.Bool b
  | TInt n => Value.Number (number_of_i64 n)
  | TStr s => Value.String s
  | TArr l => Value.Array (map value_of_tree l)
  | TObj l => Value.object (map (fun '(k, t) => (k, value_of_tree t)) l)
  end.

Fixpoint stream_of_tree (t : tree) : Stream :=
  match t with
  | TNull => SUnit
  | TBool b => SBool b
  | TInt n => if (n <? 0)%Z then SI64 n else SU64 n
  | TStr s => SStr s
  | TArr l => SSeq (foldr (fun t rest => SeqNext (stream_of_tree t) rest) SeqEnd l)
  | TObj l => SMap (foldr (fun '(k, t) rest => MapNext k (stream_of_tree t) rest) MapEnd l)
  end.

Definition print_number (n : number) : string :=
  match n with
  | Number.PosInt n | Number.NegInt n => display_Z n
  | Number.Float f => display_Z (F64.to_i64 f)
  end.

Fixpoint print_doc (d : Doc) : string :=
  match d with
  | DNull => "null"
  | DBool b => if b then "true" else "false"
  | DNum n => print_number n
  | DStr s => write_string s
  | DRaw text => text
  | DSeq l => ("[" ++ commas (map print_doc l) ++ "]")%string
  | DMap l =>
      ("{" ++ commas (map (fun '(k, d) => write_string k ++ ":" ++ print_doc d)%string l) ++ "}")%string
  end.

Definition tree_members (t : tree) : option (list (string * string)) :=
  match t with TObj l => Some (sort_members (map (fun '(k, t) => (k, print_tree t)) l)) | _ => None end.

#[export] Instance world_serde : Serde := {|
  to_string := print_doc;
  raw_from_string := Some;
  from_str_value s := value_of_tree <$> read_exact s;
  from_str_members s := read_exact s ≫= tree_members;
  from_str_events s := match read_text s with
                       | Some (t, at_end) => (stream_of_tree t, at_end)
                       | None => (SErr "syntax", false)
                       end;
  custom s := s;
  display_f64 f := display_Z (F64.to_i64 f)
|}.

#[export] Instance world_serde_laws : SerdeLaws.
Proof. by split. Qed.

(** ** The readers of the states *)

Definition world_binding (v : value) : option Binding :=
  fields ← Value.as_object v;
  ver ← assoc "version" fields ≫= Value.as_u64;
  sc ← field_str "scope" fields;
  db ← field_str "databaseId" fields;
  gen ← field_str "generation" fields;
  snap ← field_str "snapshot" fields;
  Some {| version := ver; scope := sc; database_id := db; generation := gen; bind_snapshot := snap |}.

(** A reader that returns the given values whatever the text. *)
Definition world_states (wire : option DurableWire) (vol : option Volatile) : StateSerde := {|
  read_durable _ := wire;
  print_durable w := print_doc (DMap [("v", DU64 (w_v w)); ("owner", DStr (w_owner w));
                                      ("phase", DStr (Phase.phase_as_str (w_phase w)))]);
  read_volatile _ := vol;
  print_volatile _ := "{}";
  binding_of_value := world_binding
|}.

#[export] Instance world_state_serde : StateSerde := world_states None None.

Definition world_hash (s : string) : Z :=
  (fix go (h : Z) (s : string) : Z :=
     match s with
     | EmptyString => h
     | String c s' => go ((h * 131 + byte_of c + 7) mod 2305843009213693951) s'
     end) 17 s.

Definition world_digest (s : string) : list Z :=
  let h := world_hash s in map (fun i => (h / (Z.of_nat i + 1)) mod 256) (seq 0 32).

#[export] Instance world_sha2 : Sha2 := {| sha256_digest := world_digest |}.

#[export] Instance world_sha2_laws : Sha2Laws.
Proof.
  split; [done|]. intros s. apply Forall_forall. intros b Hb.
  apply list_elem_of_fmap in Hb as (i & -> & _). apply Z.mod_pos_bound. lia.
Qed.

(** A compiler of one-statement envelopes: text with [INSERT] inserts into [orders], any
    other reads; a change of [orders] triggers the check [audit]. *)
Definition world_compile (cs : list Z) (auth envelope : string) : list Z * (Compiled + CoreError) :=
  let h := 1 + foldr Z.max 0 cs in
  let st op := {| sum_operation := op; sum_resource := Some "orders"%string;
                  sum_limits := {| max_rows := 100; max_result_bytes := 10000; timeout_ms := 5000 |};
                  sum_explain_resource := None |} in
  let compiled op := {| handle := h; statements := [st op]; schema_version := "s1";
                        policy_version := "p1" |} in
  if Canonical.contains envelope "DROP"
  then (cs, inr (core_error_new "POLICYSQL_SQL_REJECTED" "The statement is rejected."))
  else (h :: cs, inl (compiled (if Canonical.contains envelope "INSERT" then Operation.Insert
                                else Operation.Select))).

Definition world_validate (raw : RawResult) (budget : ResultBudget) : Validated + CoreError :=
  if (budget_values budget <? Z.of_nat (length (raw_rows raw)))%Z
  then inr (core_error_new "POLICYSQL_LIMIT_EXCEEDED" "The result exceeded a limit.")
  else inl {| val_raw_bytes := 0; val_values := Z.of_nat (length (raw_rows raw));
              val_columns := raw_columns raw; val_rows := raw_rows raw;
              val_redactions := map (map (fun _ => false)) (raw_rows raw);
              val_affected_rows := raw_affected_rows raw; val_result_columns := raw_columns raw;
              val_operation_check := true |}.

#[export] Instance world_compiler : Compiler := {|
  CS := list Z;
  snapshot_of _ := "snap1";
  compile := world_compile;
  driver_statements _ _ := inl [{| sql := "SELECT 1"; client_parameters := [("id", Value.u64 7)];
                                   server_parameters := []; cost_sql := "EXPLAIN SELECT 1" |}];
  raw_result_bound_of _ _ := inl 65536;
  validate _ _ _ raw budget := world_validate raw budget;
  release_handle cs h := List.filter (fun l => negb (l =? h)%Z) cs;
  triggered_checks _ resources :=
    if str_in "orders" resources
    then [{| check_id := "audit"; check_role := None; check_timeout_ms := 1000 |}] else []
|}.

Lemma world_fresh (cs : list Z) h : h ∈ cs -> h <= foldr Z.max 0 cs.
Proof.
  induction cs as [|a cs IH]; simpl; [by intros ?%elem_of_nil|].
  intros [->|Hin]%elem_of_cons; [lia|]. specialize (IH Hin). lia.
Qed.

#[export] Instance world_compiler_laws : CompilerLaws.
Proof.
  refine (@Build_CompilerLaws world_compiler (fun cs : list Z => list_to_set cs) _ _ _ _ _).
  - intros cs auth envelope cs' c. simpl. unfold world_compile.
    destruct (Canonical.contains _ "DROP"); [by intros [= ]|]. intros [= <- <-]. simpl. split; [|done].
    rewrite elem_of_list_to_set. intros Hin%world_fresh. lia.
  - intros cs auth envelope cs' e. simpl. unfold world_compile.
    destruct (Canonical.contains _ "DROP"); by intros [= <- <-].
  - intros cs h. simpl. apply set_eq. intros l.
    rewrite elem_of_difference, !elem_of_list_to_set, elem_of_singleton, !list_elem_of_In, filter_In.
    split; [intros [? Hn]; bools; done|]. intros [? ?]. split; [done|].
    apply negb_true_iff. by apply Z.eqb_neq.
  - intros cs auth envelope. done.
  - done.
Qed.

#[export] Instance world_unicode : Unicode := {|
  is_alphabetic c := in_range 65 90 c || in_range 97 122 c;
  is_uppercase c := in_range 65 90 c
|}.

Definition world_idempotency (v : value) : option Idempotency :=
  k ← Value.get_str "keyHash" v; f ← Value.get_str "fingerprint" v;
  Some {| key_hash := k; fingerprint := f |}.

Definition world_stored (s : string) : option Stored :=
  t ← read_exact s;
  members ← tree_members t;
  let v := value_of_tree t in
  ver ← Value.get "version" v;
  transaction_id ← assoc "transactionId" members;
  results ← assoc "results" members;
  usage ← assoc "usage" members;
  original ← assoc "originalRequestId" members;
  Some {| st_version := ver; st_transaction_id := transaction_id; st_results := results;
          st_usage := usage; st_original_request_id := original;
          st_status := Value.get "status" v; st_commit_checks := Value.get "commitChecks" v |}.

Definition world_body (s : string) : option (list (list (string * string))) :=
  t ← read_exact s;
  match t with
  | TObj l => match assoc "statements" l with
              | Some (TArr sts) => mapM tree_members sts
              | None => Some []
              | _ => None
              end
  | _ => None
  end.

#[export] Instance world_atomic : AtomicSerde := {|
  read_stored := world_stored;
  read_string s := (t ← read_exact s; match t with TStr s => Some s | _ => None end);
  read_body_statements := world_body;
  idempotency_of_value := world_idempotency;
  read_idempotency_output s :=
    (t ← read_exact s;
     match Value.get "idempotency" (value_of_tree t) with
     | Some Value.Null | None => Some None
     | Some v => i ← world_idempotency v; Some (Some i)
     end)
|}.

(** ** Limits, host facts, and inputs *)
Definition world_limits : Limits := {|
  transaction_ms := 30000; max_transaction_statements := 50;
  max_transaction_result_bytes := 65536; begin_timeout_ms := 5000; max_callback_rows := 100;
  max_statements := 20; lim_max_request_bytes := 65536; lim_max_result_bytes := 65536;
  max_json_values := 1000; max_response_bytes := 262144
|}.

Definition hex32 : string := "0123456789abcdef0123456789abcdef".
Definition hex_64 : string := (hex32 ++ hex32)%string.
Definition world_owner : string := ("tx_" ++ hex32)%string.

Definition world_host (now : Z) : HostFacts := {|
  now_ms := now; entropy := hex_64; request_id := "req-1"; owner := Some world_owner;
  configured_checks := ["audit"%string]
|}.

Definition world_env (now : Z) : Env := {| limits := world_limits; Machine.host := world_host now |}.

(** The engine, which owns no transaction. *)
Definition engine_env (now : Z) : Env := {|
  limits := world_limits;
  Machine.host := {| now_ms := now; entropy := hex_64; request_id := "req-1"; owner := None;
                     configured_checks := ["audit"%string] |}
|}.

Definition world_binding_value : value :=
  Value.object [("version", Value.u64 1); ("scope", jstr "tenant"); ("databaseId", jstr "db1");
                ("generation", jstr "g1"); ("snapshot", jstr "snap1")].
Definition world_auth : value :=
  Value.object [("principal", jstr "user"); ("subject", jstr "u1"); ("role", jstr "member");
                ("session", Value.object [("tenant_id", jstr "t1")])].

Definition begin_input : value :=
  Value.object [("kind", jstr "begin"); ("transactionId", jstr world_owner);
                ("startFingerprint", jstr hex_64); ("mode", jstr "write"); ("auth", world_auth);
                ("databaseBinding", world_binding_value); ("snapshot", jstr "snap1")].

Definition command_input (kind text : string) : value :=
  Value.object [("kind", jstr kind); ("transactionId", jstr world_owner); ("auth", world_auth);
                ("command", jstr text); ("databaseBinding", world_binding_value);
                ("snapshot", jstr "snap1")].

(** A JSON text written with single quotes. *)
Fixpoint requote (s : string) : string :=
  match s with
  | EmptyString => EmptyString
  | String c s' => String (if (byte_of c =? 39)%Z then char_of 34 else c) (requote s')
  end.

(** What a step leaves, as the next step reads it. *)
Definition step_from (now : Z) (s : St) (e : event) : St :=
  run_dispatch (H := wasm32) (H6 := world_env now) e
    (start (compiler s) (durable_of s)
       (vol ← volatile_of s; if is_idle vol then None else Some vol)).

Definition initial : St := start [] None None.

(** The id of the awaited effect. *)
Definition awaited_of (s : St) : Z :=
  default 0 (vol ← volatile_of s; pend_id <$> pending vol).

(** Events that answer the awaited effect, each with its time. *)
Definition run_events (l : list (Z * (Z -> event))) (s : St) : St :=
  foldl (fun s '(now, e) => step_from now s (e (awaited_of s))) s l.

Definition driver_result (columns : list string) (rows : list (list value)) (affected : Z)
    : DriverResult :=
  {| dr_columns := columns; dr_rows := rows; dr_rows_affected := affected;
     dr_usage := {| du_rows_read := 1; du_rows_written := affected;
                    du_query_duration_ms := F64.of_Z 2 |} |}.

Definition forwarded_event (input : value) (_ : Z) : event := Event.Forwarded input.

(** A write transaction: begin, one insert, and a commit whose check allows it. *)
Definition began : St :=
  run_events
    [(1000, forwarded_event begin_input); (1001, fun id => Event.BindingChecked id true);
     (1002, Event.Opened); (1003, Event.Persisted); (1004, Event.TimerSet)] initial.

Definition inserted : St :=
  run_events
    [(2000, forwarded_event (command_input "statement"
              (requote "{'sequence':1,'sql':'INSERT','params':{}}")));
     (2001, fun id => Event.BindingChecked id true);
     (2002, fun id => Event.Executed id [driver_result [] [] 1]); (2003, Event.Persisted)] began.

Definition decision : value := Value.object [("version", jstr "1"); ("allowed", Value.Bool true)].

Definition validating : St :=
  run_events
    [(3000, forwarded_event (command_input "commit" (requote "{'sequence':2}")));
     (3001, fun id => Event.BindingChecked id true); (3002, Event.Persisted)] inserted.

Definition committing : St :=
  run_events
    [(3100, fun id => Event.ValidatorReplied id true decision);
     (3101, fun id => Event.BindingChecked id true)] validating.

Definition commit_sent : St := run_events [(3102, Event.Persisted)] committing.

Definition committed : St :=
  run_events [(3200, Event.Committed); (3201, Event.Persisted)] commit_sent.

(** What the next step reads of the states of [s]. *)
Definition stored_of (s : St) : stored :=
  match durable_of s with Some d => Readable d | None => Absent end.
Definition volatile_read_of (s : St) : volatile_read :=
  match volatile_of s with Some vol => ReadVolatile vol | None => NoVolatile end.

Definition phase_now (s : St) : option phase := durable_phase <$> durable_of s.

Example began_active : phase_now began = Some Phase.Active.
Proof. vm_compute. reflexivity. Qed.
Example inserted_active : phase_now inserted = Some Phase.Active.
Proof. vm_compute. reflexivity. Qed.
Example validating_phase : phase_now validating = Some Phase.Validating.
Proof. vm_compute. reflexivity. Qed.
Example commit_sent_effects : map Effect.effect_id (effects commit_sent) = [Some (awaited_of commit_sent)].
Proof. vm_compute. reflexivity. Qed.
Example committed_phase : phase_now committed = Some Phase.Committed.
Proof. vm_compute. reflexivity. Qed.
