(* ===== verification/Progress.v ===== *)
(** * Every request is answered

    Each task of a client comes before the tasks its outcomes lead to, whatever the outcome: so the
    work of a client ends, and the step it ends in replies. For each handler, [promises] says that
    when it returns it has replied or waits with an earlier task; a handler that does not return is
    what failing closed answers. *)

From S2P Require Import Prelude F64 SerdeJson Compiler State Volatile Io Canonical Bounds.
From S2P Require Import Identity Machine Checks Commands Interactive.
From S2P Require Import Interactive Atomic Execution Run Frames HandlerFrames Batches Failing World.

(** ** The order of the tasks *)

(** How far a task of a client is from its reply. *)
Definition stage (t : task) : nat :=
  match t with
  | Task.ResetAfterPersist => 0
  | Task.AtomicForward => 1
  | Task.Reply _ _ _ _ expire_after _ => if expire_after then 3 else 1
  | Task.CloseRollback _ _ => 2
  | Task.BeginTimer => 3
  | Task.BeginPersist | Task.StatementExecute _ _ _ _ _ _ _ _ | Task.CommitSend _ _ _
  | Task.RollbackSend _ _ | Task.AtomicCommit | Task.AtomicReplay _ => 4
  | Task.BeginOpen _ _ _ _ | Task.StatementBinding _ _ _ _ _ _ _ | Task.CommitPersist _ _ _
  | Task.RollbackBinding _ _ | Task.AtomicInsert => 5
  | Task.BeginBinding _ _ _ | Task.CommitBinding _ _ None _ | Task.AtomicCommitBinding => 6
  | Task.Validator _ | Task.Verdict _ _ => 7
  | Task.ValidatingPersist _ | Task.AtomicExecute => 8
  | Task.CommitBinding _ _ (Some _) _ | Task.AtomicLookup => 9
  | Task.AtomicTimer => 10
  | Task.AtomicPersist => 11
  | Task.AtomicOpen => 12
  | Task.RequestBinding _ | Task.AtomicBinding _ => 13
  end.

(** The checks a task of the checks has still to run. *)
Definition checks_left (checks : CommitChecks) : nat :=
  Z.to_nat (Z.of_nat (length (cc_checks checks)) - cc_index checks).
Definition remaining (t : task) : nat :=
  match t with
  | Task.Validator checks => S (2 * checks_left checks)
  | Task.Verdict checks _ => 2 * checks_left checks
  | _ => 0
  end.

(** Tasks are ordered by their stages and then by the checks that remain. *)
Definition below (bound more : nat) (t : task) : Prop :=
  (stage t < bound)%nat \/ stage t = bound /\ (remaining t < more)%nat.

Lemma below_ind (P : task -> Prop) :
  (forall t, (forall t', below (stage t) (remaining t) t' -> P t') -> P t) -> forall t, P t.
Proof.
  intros Hstep.
  assert (Hs : forall n t, stage t = n -> P t).
  { intros n. induction n as [n IHn] using lt_wf_ind.
    assert (Hr : forall m t, stage t = n -> remaining t = m -> P t).
    { intros m. induction m as [m IHm] using lt_wf_ind. intros t Hn Hm. apply Hstep.
      intros t' [Hlt|[He Hlt]]; [|by eapply IHm; [rewrite <- Hm; exact Hlt|congruence|]].
      eapply IHn; [|reflexivity]. by rewrite <- Hn. }
    intros t Ht. by eapply Hr. }
  intros t. by eapply Hs.
Qed.

Create HintDb progress.

Section progress.
Context `{Target} `{Serde} `{StateSerde} `{Sha2} `{Compiler} `{AtomicSerde} `{Unicode} `{Env}.

(** The work of a client that will be answered: it has a reply for every end. *)
Definition carries (w : Work) : Prop :=
  work_lane w = WorkLane.Client
  /\ match work_task w with
     | Task.CloseRollback _ reply => is_Some reply
     | Task.Reply reply failure _ _ _ _ => is_Some reply /\ is_Some failure
     | Task.ResetAfterPersist => False
     | _ => True
     end.

(** The work in progress with the effect it waits for: its own, or the query of the callback that
    its verdict waits for. *)
Definition owed (s : St) : option (Pending * Work) :=
  vol ← volatile_of s;
  match pending vol, work vol with
  | Some p, Some w => Some (p, w)
  | _, _ => w ← deferred vol; cb ← callback vol; Some (cb_pending cb, w)
  end.

(** A reply to the client has been added. *)
Definition answered (s s' : St) : Prop :=
  exists l reply, effects s' = effects s ++ l /\ Effect.Respond "client" reply ∈ l.

(** The client is answered, or its work goes on with an earlier task. *)
Definition advances (bound more : nat) (s s' : St) : Prop :=
  answered s s'
  \/ exists p w, owed s' = Some (p, w) /\ carries w /\ below bound more (work_task w) /\ reset s' = reset s.

#[local] Abbreviation going := (frames (evolves any)).

(** What a computation that returns has done. *)
Definition answers_client {A} (m : M A) : Prop :=
  forall s a s', m s = (inl a, s') -> answered s s'.
Definition promises {A} (bound more : nat) (m : M A) : Prop :=
  forall s a s', m s = (inl a, s') -> advances bound more s s'.

Lemma answered_l s1 s2 s3 : evolves any s1 s2 -> answered s2 s3 -> answered s1 s3.
Proof.
  intros [(k & Hk & _) _] (l & reply & Hl & Hin). exists (k ++ l), reply.
  rewrite Hl, Hk, app_assoc. split; [done|]. apply elem_of_app. by right.
Qed.
Lemma answered_r s1 s2 s3 k : answered s1 s2 -> effects s3 = effects s2 ++ k -> answered s1 s3.
Proof.
  intros (l & reply & Hl & Hin) Hk. exists (l ++ k), reply. rewrite Hk, Hl, app_assoc.
  split; [done|]. apply elem_of_app. by left.
Qed.
Lemma advances_l bound more s1 s2 s3 : evolves any s1 s2 -> advances bound more s2 s3 -> advances bound more s1 s3.
Proof.
  intros He [Ha|(p & w & Ho & Hc & Hp & Hr)]; [left; by eapply answered_l|right].
  exists p, w. split; [done|]. split; [done|]. split; [done|]. destruct He as (_ & Hr' & _). congruence.
Qed.

Lemma answers_bind {A B} (m : M A) (k : A -> M B) :
  going m -> (forall a, answers_client (k a)) -> answers_client (m ≫= k).
Proof.
  intros Hm Hk s b s' Hb. unfold mbind, M_bind in Hb. specialize (Hm s).
  destruct (m s) as [[a|f] s1] eqn:E; [|done]. eapply answered_l; [exact Hm|by eapply Hk].
Qed.

(** Effects are only added. *)
Definition grows {A} (m : M A) : Prop := forall s, exists l, effects (snd (m s)) = effects s ++ l.
Lemma going_grows {A} (m : M A) : going m -> grows m.
Proof. intros Hm s. destruct (Hm s) as [(l & Hl & _) _]. by exists l. Qed.
Lemma grows_reset b : grows (modify (set_reset b)).
Proof. intros s. exists []. by rewrite app_nil_r. Qed.

Lemma answers_then {A B} (m : M A) (k : A -> M B) :
  answers_client m -> (forall a, grows (k a)) -> answers_client (m ≫= k).
Proof.
  intros Hm Hk s b s' Hb. unfold mbind, M_bind in Hb.
  destruct (m s) as [[a|f] s1] eqn:E; [|done]. destruct (Hk a s1) as [l Hl].
  rewrite Hb in Hl. eapply answered_r; [by eapply Hm|exact Hl].
Qed.
Lemma answers_respond reply : answers_client (respond reply).
Proof. intros s [] s' [= <-]. exists [Effect.Respond "client" reply], reply. by split; [|left]. Qed.

Section promise.
Variables bound more : nat.

Lemma promises_answers {A} (m : M A) : answers_client m -> promises bound more m.
Proof. intros Hm s a s' Ha. left. by eapply Hm. Qed.
Lemma promises_bind {A B} (m : M A) (k : A -> M B) :
  going m -> (forall a, promises bound more (k a)) -> promises bound more (m ≫= k).
Proof.
  intros Hm Hk s b s' Hb. unfold mbind, M_bind in Hb. specialize (Hm s).
  destruct (m s) as [[a|f] s1] eqn:E; [|done]. eapply advances_l; [exact Hm|by eapply Hk].
Qed.
Lemma promises_fault {A} f : promises bound more (fault f : M A).
Proof. intros s a s' Hf. discriminate Hf. Qed.
Lemma promises_wait request t' eff :
  carries {| work_lane := WorkLane.Client; work_request_id := request; work_task := t' |} ->
  below bound more t' -> promises bound more (wait WorkLane.Client request t' eff).
Proof.
  intros Hc Hp s [] s'. rewrite wait_spec. destruct (MAX_SAFE_INTEGER <=? _); [done|].
  intros [= <-]. right. eexists _, _. split; [reflexivity|]. split; [done|]. by split.
Qed.
Lemma promises_lift {A} (f : Fault) : promises bound more (lift (inr f) : M A).
Proof. intros s a s' Hf. discriminate Hf. Qed.
End promise.

Lemma answers_code c : answers_client (reply_code c).
Proof. apply answers_respond. Qed.
Lemma answers_abort reply : answers_client (abort reply).
Proof. unfold abort. do 3 (apply answers_bind; [frame_more|intros ?]). apply answers_respond. Qed.
#[local] Hint Resolve answers_respond answers_code answers_abort : progress.
#[local] Hint Resolve promises_fault promises_lift : progress.
#[local] Hint Resolve grows_reset going_grows : progress.
Lemma going_modify f :
  (forall s, effects (f s) = effects s /\ reset (f s) = reset s /\ abandoned (f s) = abandoned s) ->
  going (modify f).
Proof. apply frames_modify_same. Qed.
Lemma going_push e : going (push e).
Proof. by apply evolves_push. Qed.
#[local] Hint Resolve going_push : frames.
#[local] Hint Extern 2 (frames _ (modify _)) => (apply going_modify; intros; repeat split) : frames.
#[local] Hint Extern 1 (carries _) => (split; [reflexivity|simpl; eauto]) : progress.
#[local] Hint Extern 1 (_ < _)%nat => (cbn [stage]; lia) : progress.
#[local] Hint Extern 1 (below _ _ _) => (left; cbn [stage plain_reply]; lia) : progress.

(** [frame_more] for computations that need no search. *)
Ltac frame_quick := repeat (intros; first [ frame_split | solve [eauto 2 with frames] ]).

Ltac grow_step := first [apply grows_reset | apply going_grows; solve [frame_quick]].

Ltac promise_step :=
  lazymatch goal with
  | |- promises _ _ (let _ := _ in _) => cbv zeta
  | |- promises _ _ (let '_ := ?x in _) => destruct x
  | |- promises _ _ (match ?x with _ => _ end) => destruct x
  | |- promises _ _ (mbind _ ?m) =>
      lazymatch m with
      | respond _ => apply promises_answers, answers_then; [apply answers_respond|intros; grow_step]
      | _ => apply promises_bind; [solve [frame_quick]|intros ?]
      end
  end.
Ltac promise_go :=
  repeat (intros; first [ promise_step | solve [auto 3 with progress]
    | apply promises_wait; solve [auto 3 with progress]
    | apply promises_answers; solve [auto 2 with progress] ]).

Section handlers.
Variables bound more : nat.

Lemma promises_persist_phase request p reply :
  (1 < bound)%nat -> promises bound more (persist_phase WorkLane.Client request p (Some reply)).
Proof. intros Ht. unfold persist_phase. promise_go. Qed.
#[local] Hint Resolve promises_persist_phase : progress.
Lemma promises_close p reply :
  (2 < bound)%nat -> promises bound more (close WorkLane.Client p (Some reply)).
Proof. intros Ht. unfold close. promise_go. Qed.
#[local] Hint Resolve promises_close : progress.
Lemma promises_expire_client :
  (2 < bound)%nat -> promises bound more (expire_client WorkLane.Client).
Proof. intros Ht. unfold expire_client. promise_go. Qed.
#[local] Hint Resolve promises_expire_client : progress.

Lemma promises_rechecked k :
  (2 < bound)%nat -> promises bound more k -> promises bound more (rechecked WorkLane.Client k).
Proof.
  intros Ht Hk s a s'. unfold rechecked, recheck.
  assert (Ha : forall (m : M unit), promises bound more m ->
    (expired ← (r ← attempt m; mret (Some r)); match expired with Some r => lift r | None => k end) s
      = (inl a, s') -> advances bound more s s').
  { intros m Hm. unfold mbind, M_bind, attempt. simpl. destruct (m s) as [[[]|f] s1] eqn:E; [|done].
    intros [= <- <-]. by eapply Hm. }
  unfold mbind at 1, M_bind at 1. rewrite at_get, at_or_fault.
  destruct (record_of s) as [r|]; [|done].
  destruct (past_deadline r || _); [apply Ha; by apply promises_expire_client|].
  destruct (negb _); [apply Ha; by apply promises_close|]. apply Hk.
Qed.
Lemma promises_unless_expired k :
  (2 < bound)%nat -> promises bound more k -> promises bound more (unless_expired WorkLane.Client k).
Proof. intros Ht Hk. unfold unless_expired, expire_atomic. promise_go. Qed.
Lemma promises_close_failed c :
  (2 < bound)%nat -> promises bound more (close_failed WorkLane.Client c).
Proof. intros Ht. unfold close_failed. promise_go. Qed.
#[local] Hint Resolve promises_close_failed : progress.

(** Transactions. *)
Lemma promises_begin_checked request id b snapshot :
  (5 < bound)%nat -> promises bound more (begin_checked request id b snapshot).
Proof. intros Ht. unfold begin_checked, persist_reply. promise_go. Qed.
Lemma promises_begin_ready request :
  (2 < bound)%nat -> promises bound more (begin_ready WorkLane.Client request).
Proof. intros Ht. unfold begin_ready. promise_go. Qed.
Lemma promises_statement_bound request n d h op r vs x :
  (4 < bound)%nat -> promises bound more (statement_bound WorkLane.Client request n d h op r vs x).
Proof. intros Ht. apply promises_rechecked; [lia|]. promise_go. Qed.
Lemma promises_statement_done request n d op r vs result v :
  (3 < bound)%nat -> promises bound more (statement_done WorkLane.Client request n d op r vs result v).
Proof. intros Ht. unfold statement_done. promise_go. Qed.
#[local] Hint Resolve promises_statement_done : progress.
Lemma promises_executed request n d h op r vs x rs :
  (3 < bound)%nat -> promises bound more (executed WorkLane.Client request n d h op r vs x rs).
Proof. intros Ht. unfold executed. promise_go. Qed.

Lemma promises_commit_persisted request n d passed :
  (4 < bound)%nat -> promises bound more (commit_persisted WorkLane.Client request n d passed).
Proof. intros Ht. unfold commit_persisted. promise_go. Qed.
Lemma promises_commit_applied request d passed :
  (1 < bound)%nat -> promises bound more (commit_applied WorkLane.Client request d passed).
Proof. intros Ht. unfold commit_applied. promise_go. Qed.
Lemma promises_commit_failed request c :
  (2 < bound)%nat -> promises bound more (commit_failed WorkLane.Client request c).
Proof. intros Ht. unfold commit_failed. promise_go. Qed.
Lemma promises_rollback_done request d :
  (1 < bound)%nat -> promises bound more (rollback_done WorkLane.Client request d).
Proof. intros Ht. unfold rollback_done. promise_go. Qed.
Lemma answers_reply_persisted reply logs x : answers_client (reply_persisted (Some reply) logs x).
Proof.
  apply answers_bind; [frame_quick|intros ?]. apply answers_then; [apply answers_respond|].
  intros. grow_step.
Qed.
Lemma promises_reply_unstored failure fl x restore :
  (x = true -> (2 < bound)%nat) ->
  promises bound more (reply_unstored WorkLane.Client (Some failure) fl x restore).
Proof.
  intros Ht. unfold reply_unstored, respond_opt. apply promises_bind; [frame_quick|intros ?].
  destruct x; [specialize (Ht eq_refl)|]; promise_go.
Qed.

(** The commit checks. *)
Lemma promises_start_checks request n d auth :
  (8 < bound)%nat -> promises bound more (start_checks WorkLane.Client request n d auth).
Proof. intros Ht. unfold start_checks. promise_go. Qed.
Lemma promises_issue request checks :
  (2 < bound)%nat -> below bound more (Task.Validator checks) ->
  promises bound more (issue WorkLane.Client request checks).
Proof. intros Ht Hp. unfold issue. promise_go. Qed.
Lemma promises_validating_persisted request checks :
  (7 < bound)%nat -> promises bound more (validating_persisted WorkLane.Client request checks).
Proof.
  intros Ht. unfold validating_persisted. promise_go. apply promises_issue; [lia|left; simpl; lia].
Qed.
Lemma promises_atomic_commit_binding request :
  (6 < bound)%nat -> promises bound more (atomic_commit_binding WorkLane.Client request).
Proof. intros Ht. unfold atomic_commit_binding. promise_go. Qed.
#[local] Hint Resolve promises_atomic_commit_binding : progress.
Lemma promises_verdict request checks allowed :
  bound = 7%nat -> (2 * checks_left checks <= more)%nat ->
  promises bound more (verdict WorkLane.Client request checks allowed).
Proof.
  intros Ht Hr. unfold verdict. promise_step.
  destruct (negb allowed); [promise_go|].
  destruct (Z.ltb_spec (cc_index checks + 1) (Z.of_nat (length (cc_checks checks)))).
  - apply promises_issue; [lia|]. right. split; [done|]. unfold checks_left in Hr. simpl in *.
    unfold checks_left. simpl. lia.
  - promise_go.
Qed.

(** Executions. *)
Lemma promises_atomic_execute request :
  (8 < bound)%nat -> promises bound more (atomic_execute WorkLane.Client request).
Proof. intros Ht. unfold atomic_execute. promise_go. Qed.
#[local] Hint Resolve promises_atomic_execute : progress.
Lemma promises_atomic_query request :
  (9 < bound)%nat -> promises bound more (atomic_query WorkLane.Client request).
Proof. intros Ht. apply promises_unless_expired; [lia|]. promise_go. Qed.
Lemma promises_lookup_returned request rs :
  (8 < bound)%nat -> promises bound more (lookup_returned WorkLane.Client request rs).
Proof.
  intros Ht. unfold lookup_returned. promise_step.
  apply promises_unless_expired; [lia|]. promise_go.
Qed.
Lemma promises_atomic_commit request :
  (4 < bound)%nat -> promises bound more (atomic_commit WorkLane.Client request).
Proof. intros Ht. apply promises_unless_expired; [lia|]. promise_go. Qed.
#[local] Hint Resolve promises_atomic_commit : progress.
Lemma promises_insert_or_commit request :
  (5 < bound)%nat -> promises bound more (insert_or_commit WorkLane.Client request).
Proof. intros Ht. apply promises_unless_expired; [lia|]. promise_go. Qed.
#[local] Hint Resolve promises_insert_or_commit : progress.
Lemma promises_atomic_progress request :
  (7 < bound)%nat -> promises bound more (atomic_progress WorkLane.Client request).
Proof.
  intros Ht. unfold atomic_progress. promise_go. apply promises_issue; [lia|left; simpl; lia].
Qed.
#[local] Hint Resolve promises_atomic_progress : progress.
Lemma promises_atomic_measured request ta :
  (7 < bound)%nat -> promises bound more (atomic_measured WorkLane.Client request ta).
Proof. intros Ht. unfold atomic_measured. promise_go. Qed.
#[local] Hint Resolve promises_atomic_measured : progress.
Lemma promises_atomic_failed t' c x y z :
  (2 < bound)%nat -> promises bound more (atomic_failed WorkLane.Client t' c x y z).
Proof.
  intros Ht. unfold atomic_failed. promise_step.
  apply promises_unless_expired; [lia|]. promise_go.
Qed.
Lemma promises_committed request :
  (1 < bound)%nat -> promises bound more (atomic_committed WorkLane.Client request).
Proof. intros Ht. unfold atomic_committed. promise_go. Qed.
Lemma promises_replay_done request reply :
  (1 < bound)%nat -> promises bound more (replay_done WorkLane.Client request reply).
Proof. intros Ht. unfold replay_done. promise_go. Qed.
Lemma promises_start_atomic start :
  (12 < bound)%nat -> promises bound more (start_atomic start).
Proof. intros Ht. unfold start_atomic. promise_go. Qed.
#[local] Hint Resolve promises_start_atomic : progress.
Lemma promises_compile_refused e keyed : promises bound more (compile_refused e keyed).
Proof. unfold compile_refused. promise_go. Qed.
#[local] Hint Resolve promises_compile_refused : progress.
Lemma promises_request_placed request id auth compiled idem :
  (12 < bound)%nat -> promises bound more (request_placed request id auth compiled idem).
Proof. intros Ht. unfold request_placed, forward_to_owner. promise_go. Qed.
#[local] Hint Resolve promises_request_placed : progress.
Lemma promises_request_checked request operation :
  (12 < bound)%nat -> promises bound more (request_checked request operation).
Proof. intros Ht. unfold request_checked. promise_go. Qed.
Lemma promises_owner_replied reply : promises bound more (owner_replied reply).
Proof. unfold owner_replied. promise_go. Qed.
Lemma promises_atomic_input_checked request input :
  (12 < bound)%nat -> promises bound more (atomic_input_checked request input).
Proof. intros Ht. unfold atomic_input_checked. promise_go. Qed.

(** A result that is refused closes the execution: then there is no list of results. *)
Lemma validate_all_refused h index l left s s' :
  (2 < bound)%nat -> validate_all WorkLane.Client h index l left s = (inl None, s') -> advances bound more s s'.
Proof.
  intros Ht. revert index left s. induction l as [|[result st] l IH]; intros index left s; simpl; [done|].
  destruct (codec_failure result) as [c|].
  - unfold mbind, M_bind. destruct (close_failed _ _ s) as [[u|f] s1] eqn:E; [|done].
    intros [= <-]. by eapply promises_close_failed.
  - rewrite at_gets. destruct (validate _ _ _ _ _) as [v|e].
    + unfold mbind, M_bind. destruct (validate_all _ _ _ _ _ s) as [[[vs|]|f] s1] eqn:E; try done.
      intros [= <-]. by eapply IH.
    + unfold mbind, M_bind. pose proof (keeps_log_core_error (evolves any) any e s) as Hl.
      destruct (log_core_error e s) as [[u|f] s1]; [|done].
      destruct (close _ _ _ s1) as [[u'|f] s2] eqn:E; [|done].
      intros [= <-]. eapply advances_l; [exact Hl|]. by eapply promises_close.
Qed.
Lemma promises_atomic_executed request rs :
  (7 < bound)%nat -> promises bound more (atomic_executed WorkLane.Client request rs).
Proof.
  intros Ht. unfold atomic_executed. promise_step. apply promises_unless_expired; [lia|].
  promise_step. cbv zeta. promise_step; [promise_go|]. promise_step. promise_step; [|promise_go].
  intros s u s'. unfold mbind at 1, M_bind at 1.
  pose proof (keeps_validate_all (evolves any) any WorkLane.Client) as Hv.
  lazymatch goal with |- context [validate_all _ ?h ?i ?l ?b s] => specialize (Hv h i l b s) end.
  destruct (validate_all _ _ _ _ _ s) as [[[vs|]|f] s1] eqn:E; [| |done].
  - intros Hu. eapply advances_l; [exact Hv|]. revert Hu. generalize s1 u s'.
    lazymatch goal with |- forall s a s', ?m s = _ -> _ => change (promises bound more m) end. promise_go.
  - intros [= _ <-]. eapply validate_all_refused; [lia|exact E].
Qed.
End handlers.

#[local] Hint Resolve promises_close promises_expire_client promises_close_failed
  promises_begin_checked promises_begin_ready promises_statement_bound promises_executed
  promises_commit_persisted promises_commit_applied promises_commit_failed promises_rollback_done
  promises_start_checks promises_validating_persisted promises_atomic_query promises_lookup_returned
  promises_insert_or_commit promises_atomic_commit promises_atomic_executed promises_atomic_failed
  promises_committed promises_replay_done promises_request_checked promises_owner_replied
  promises_atomic_input_checked promises_persist_phase : progress.

(** ** What each task does with its outcome *)

(** The task a work has once an outcome of its task is handled. *)
#[local] Abbreviation advances_from w := (advances (stage (work_task w)) (remaining (work_task w))).

#[local] Hint Resolve promises_close promises_expire_client promises_close_failed
  promises_begin_checked promises_begin_ready promises_statement_bound promises_executed
  promises_commit_persisted promises_commit_applied promises_commit_failed promises_rollback_done
  promises_start_checks promises_validating_persisted promises_atomic_query promises_lookup_returned
  promises_insert_or_commit promises_atomic_commit promises_atomic_executed promises_atomic_failed
  promises_committed promises_replay_done promises_request_checked promises_owner_replied
  promises_atomic_input_checked promises_persist_phase : progress.

(** The verdict on a query of a callback that is being executed waits for it. *)
Lemma verdict_arrived_advances request checks allowed s u s' :
  work_of s = None ->
  verdict_arrived WorkLane.Client request checks allowed s = (inl u, s') ->
  advances 7 (S (2 * checks_left checks)) s s'.
Proof.
  intros Hw. unfold verdict_arrived, with_volatile. rewrite at_modify, at_gets. intros Hv.
  set (s1 := set_volatile _ s) in *. apply advances_l with s1; [by apply evolves_same|].
  destruct (callback_executing_of s1) eqn:Hex.
  - injection Hv as <- <-. right. unfold callback_executing_of, work_of, s1 in *. simpl in *.
    destruct (volatile_of s) as [vol|]; simpl in *; [|done].
    unfold callback_executing in Hex. simpl in Hex. destruct (callback vol) as [cb|] eqn:Ec; [|done].
    unfold owed. simpl. rewrite Hw, Ec. eexists _, _. split; [by destruct (pending vol)|].
    split; [done|]. split; [|done]. right. split; [done|]. simpl. lia.
  - revert Hv. apply promises_verdict; lia.
Qed.

Lemma promises_consume request t e :
  carries {| work_lane := WorkLane.Client; work_request_id := request; work_task := t |} ->
  promises (stage t) (remaining t) (consume WorkLane.Client request t e)
  \/ exists checks allowed, t = Task.Validator checks
       /\ consume WorkLane.Client request t e = verdict_arrived WorkLane.Client request checks allowed.
Proof.
  intros [_ Hc]. cbn [work_task] in Hc.
  destruct t; try contradiction; try (left; destruct e; apply promises_fault).
  all: destruct e; try (by left; apply promises_fault); try (right; by eexists _, _); left.
  all: try match goal with |- promises _ _ (consume _ _ _ (Event.BindingChecked _ ?b)) => destruct b end.
  all: try match goal with |- promises (stage (Task.CommitBinding _ _ ?auth _)) _ _ => destruct auth end.
  all: try match type of Hc with is_Some _ => destruct Hc as [? ->] | _ /\ _ => destruct Hc as [[? ->] [? ->]] end.
  all: cbn [consume]; first [ solve [promise_go]
    | apply promises_rechecked; [cbn [stage]; lia|]; solve [promise_go]
    | apply promises_answers, answers_reply_persisted | apply promises_reply_unstored; intros ->; simpl; lia ].
Qed.

Lemma promises_atomic_outcome t request e :
  is_atomic_task t = true ->
  promises (stage t) (remaining t) (atomic_outcome WorkLane.Client request t e).
Proof.
  intros Ht. destruct t; try discriminate Ht; destruct e; try apply promises_fault.
  all: try match goal with |- promises _ _ (atomic_outcome _ _ _ (Event.BindingChecked _ ?b)) => destruct b end.
  all: cbn [atomic_outcome]; cbv zeta; promise_go.
Qed.

Lemma work_outcome_advances w e s u s' :
  carries w -> work_of s = None -> work_outcome e w s = (inl u, s') -> advances_from w s s'.
Proof.
  destruct w as [lane request t]. unfold work_outcome. cbn [work_lane work_request_id work_task].
  intros Hc Hw. assert (Hlane : lane = WorkLane.Client) by apply Hc. subst lane.
  destruct (is_atomic_task t) eqn:Ht; [by apply promises_atomic_outcome|].
  destruct (promises_consume request t e Hc) as [Hp|(checks & allowed & -> & ->)]; [apply Hp|].
  by apply verdict_arrived_advances.
Qed.

(** ** The outcome a work waits for *)

Lemma waiting_outcome e s w : waiting s e w -> outcome e s = settle_work e w (resumed s w).
Proof.
  intros (vol & p & Hv & Hp & Hw & Hid & Ha). unfold outcome, mbind, M_bind, or_fault.
  rewrite Hid, Ha. simpl. rewrite Hv. simpl. rewrite Hp. unfold pending_is at 1. simpl.
  rewrite Z.eqb_refl, bool_decide_true by done. simpl. unfold work_of. simpl. rewrite Hv. simpl.
  rewrite Hw. unfold resumed. rewrite Hv. reflexivity.
Qed.

Lemma advances_same bound more s s1 s2 :
  advances bound more s s1 -> effects s2 = effects s1 -> reset s2 = reset s1 -> owed s2 = owed s1 ->
  advances bound more s s2.
Proof.
  intros [Ha|(p & w & Ho & Hc & Hp & Hr)] He Hr' Ho'.
  - left. apply (answered_r s s1 s2 []); [done|]. by rewrite app_nil_r.
  - right. exists p, w. rewrite Ho', Hr'. done.
Qed.

Lemma settle_work_advances w e s u s' :
  carries w -> work_of s = None -> settle_work e w s = (inl u, s') -> advances_from w s s'.
Proof.
  intros Hc Hw. unfold settle_work, mbind, M_bind, attempt.
  destruct (work_outcome e w s) as [[v|f] s1] eqn:E; [|done]. simpl. intros [= <- <-].
  apply advances_same with s1; [by eapply work_outcome_advances|done..|].
  unfold owed. simpl. destruct (volatile_of s1) as [vol|]; [|done]. simpl.
  case_bool_decide as Hn; [|done]. simpl. by rewrite Hn.
Qed.

(** ** The query of a callback that a verdict waits for *)

Definition deferred_of (s : St) : option Work := vol ← volatile_of s; deferred vol.

(** The deferred work stays. *)
Definition still (s s' : St) : Prop := evolves any s s' /\ deferred_of s' = deferred_of s.

#[export] Instance still_preorder : PreOrder still.
Proof.
  split; [by intros s|]. intros s1 s2 s3 [H12 D12] [H23 D23]. split; [by etransitivity|congruence].
Qed.

Lemma still_push e : frames still (push e).
Proof. intros s. split; [by apply evolves_push|done]. Qed.
Lemma still_release h : frames still (release h).
Proof.
  intros s. split; [apply (keeps_release (evolves any) any)|].
  unfold deferred_of. simpl. by destruct (volatile_of s).
Qed.
#[local] Hint Resolve still_push still_release : frames.
Lemma still_failed_reply c class detail : frames still (execute_failed_reply c class detail).
Proof. unfold execute_failed_reply, log. frame_go. Qed.

Section deferral.
Context (w : Work) (checks : CommitChecks) (allowed : bool).
Hypothesis w_carries : carries w.
Hypothesis w_verdict : work_task w = Task.Verdict checks allowed.

(** What is left of a query whose end the work waits for. *)
Definition resumes (m : M unit) : Prop :=
  forall s u s', deferred_of s = Some w -> m s = (inl u, s') -> advances_from w s s'.

Lemma resumes_bind {A} (m : M A) (k : A -> M unit) :
  frames still m -> (forall a, resumes (k a)) -> resumes (m ≫= k).
Proof.
  intros Hm Hk s u s' Hd. unfold mbind, M_bind. specialize (Hm s).
  destruct (m s) as [[a|f] s1]; [|done]. destruct Hm as [He Hd1]. simpl in He, Hd1. intros Ha.
  eapply advances_l; [exact He|]. eapply Hk; [|exact Ha]. by rewrite Hd1.
Qed.

Lemma resumes_after : resumes after_callback.
Proof.
  intros s u s' Hd. destruct w_carries as [Hl _]. unfold after_callback, with_volatile.
  rewrite at_gets, at_modify. unfold deferred_of in Hd. rewrite Hd, w_verdict, Hl. intros Ha.
  eapply advances_l; [|eapply promises_verdict; [..|exact Ha]; [done|simpl; lia]].
  by apply evolves_same.
Qed.

Lemma resumes_callback_failed reply : resumes (callback_failed false reply).
Proof. apply resumes_bind; [apply still_push|intros _; apply resumes_after]. Qed.

Lemma callback_outcome_advances e s vol cb u s' :
  volatile_of s = Some vol -> deferred vol = Some w -> capability vol = None ->
  callback vol = Some cb -> CallbackTask.is_execute (cb_task cb) = true ->
  callback_outcome e s = (inl u, s') -> advances_from w s s'.
Proof.
  intros Hv Hd Hcap Hcb Hx. unfold callback_outcome, with_volatile.
  rewrite at_gets, at_or_fault, Hv. simpl. rewrite Hcb, at_modify, at_gets.
  set (s1 := set_volatile _ s).
  assert (Hlive : capability_live s1 (Some (cb_token_hash cb)) = None).
  { unfold capability_live, s1. simpl. by rewrite Hv; simpl; rewrite Hcap. }
  rewrite Hlive. cbv zeta. intros Ho. apply advances_l with s1; [by apply evolves_same|].
  assert (Hd1 : deferred_of s1 = Some w) by (unfold deferred_of, s1; simpl; by rewrite Hv).
  destruct (cb_task cb) as [|sequence dig h vs]; [done|].
  destruct e; try discriminate Ho; revert Ho; apply resumes_bind; auto with frames; intros ?.
  - apply resumes_callback_failed.
  - apply resumes_bind; [apply still_push|intros _; apply resumes_after].
  - apply resumes_bind; [apply still_failed_reply|intros ?; apply resumes_callback_failed].
Qed.
End deferral.

(** The event is an outcome of the awaited effect. *)
Definition due (p : Pending) (e : event) : Prop :=
  Event.outcome_id e = Some (pend_id p) /\ Event.answers e = Some (pend_effect p).

(** Every awaited effect has outcomes. *)
Lemma due_exists p : exists e, due p e.
Proof.
  destruct p as [id effect]. exists (match effect with
    | Awaited.Forward => Event.OwnerReplied id Value.Null
    | Awaited.Open => Event.Opened id
    | Awaited.CheckBinding => Event.BindingChecked id true
    | Awaited.Execute => Event.Executed id []
    | Awaited.Commit => Event.Committed id
    | Awaited.Rollback => Event.RolledBack id
    | Awaited.SetTimer => Event.TimerSet id
    | Awaited.Persist => Event.Persisted id
    | Awaited.CallValidator => Event.ValidatorReplied id true Value.Null
    end). by destruct effect.
Qed.

(** What consistency says of a work that is waiting. *)
Lemma owed_cases s vol p w :
  volatile_of s = Some vol -> volatile_consistent vol = true -> owed s = Some (p, w) ->
  (pending vol = Some p /\ work vol = Some w)
  \/ (pending vol = None /\ deferred vol = Some w /\ capability vol = None
      /\ exists cb checks allowed, callback vol = Some cb /\ p = cb_pending cb
           /\ CallbackTask.is_execute (cb_task cb) = true /\ work_task w = Task.Verdict checks allowed).
Proof.
  intros Hv Hc. unfold owed. rewrite Hv. simpl. unfold volatile_consistent in Hc. bools.
  match goal with H : paired vol = true |- _ => unfold paired in H; rename H into Hpair end.
  destruct (pending vol) as [q|], (work vol) as [w'|] eqn:Hw; try discriminate Hpair.
  { intros [= -> ->]. by left. }
  match goal with H : capability_consistent vol = true |- _ =>
    unfold capability_consistent in H; rewrite Hw in H; rename H into Hcap end.
  match goal with H : deferred_consistent vol = true |- _ =>
    unfold deferred_consistent in H; rename H into Hdef end.
  destruct (deferred vol) as [d|]; [|done]. simpl in Hdef. bools. intros Ho. right. split; [done|].
  match goal with H : callback_executing vol = true |- _ =>
    unfold callback_executing in H; rename H into Hx end.
  destruct (callback vol) as [cb|]; [|done]. simpl in Hx, Ho. injection Ho as <- <-.
  split; [done|]. split; [by destruct (capability vol)|].
  match goal with H : is_verdict _ = true |- _ => rename H into Hver end.
  destruct (work_task d) as [| | | | | | | | | | |checks allowed| | | | | | | | | | | | | | | | | ] eqn:Ht;
    try discriminate Hver. by exists cb, checks, allowed.
Qed.

Lemma outcome_advances s vol p w e u s' :
  volatile_of s = Some vol -> volatile_consistent vol = true -> owed s = Some (p, w) -> carries w ->
  due p e -> dispatch e s = (inl u, s') -> advances_from w s s'.
Proof.
  intros Hv Hc Ho Hw [Hid Ha]. rewrite (dispatch_outcome_event e _ Hid).
  destruct (owed_cases s vol p w Hv Hc Ho) as [[Hp Hwk]|(Hp & Hd & Hcap & cb & checks & allowed & Hcb & -> & Hx & Ht)].
  - rewrite (waiting_outcome e s w) by (exists vol, p; done). intros Hs.
    apply advances_l with (resumed s w); [by apply evolves_same|].
    eapply settle_work_advances; [done| |exact Hs]. unfold work_of, resumed. simpl. by rewrite Hv.
  - intros Hs. refine (callback_outcome_advances w checks allowed Hw Ht e s vol cb u s' Hv Hd Hcap Hcb Hx _).
    revert Hs. unfold outcome, mbind, M_bind, or_fault. rewrite Hid, Ha. simpl. rewrite Hv. simpl.
    rewrite Hp. simpl. rewrite Hcb. unfold pending_is. simpl.
    rewrite Z.eqb_refl, bool_decide_true by done. exact id.
Qed.

(** ** Requests *)

(** An event of a client that waits for a reply. *)
Definition asks (e : event) : bool :=
  match e with
  | Event.Request _ => true
  | Event.Forwarded input => negb (bool_decide (Value.get_str "kind" input = Some "callbackQuery"%string))
  | _ => false
  end.

Lemma promises_statement command r n deadline check :
  promises 14 0 (statement command r n deadline check).
Proof. unfold statement, close_client. promise_go. Qed.
#[local] Hint Resolve promises_statement : progress.
Lemma promises_command_run kind command r n : promises 14 0 (command_run kind command r n).
Proof.
  unfold command_run. promise_go. destruct (bool_decide _); promise_go.
Qed.
#[local] Hint Resolve promises_command_run : progress.
Lemma promises_command_fresh kind command r same : promises 14 0 (command_fresh kind command r same).
Proof. unfold command_fresh, persist_reply, close_client. promise_go. Qed.
#[local] Hint Resolve promises_command_fresh : progress.
Lemma promises_command_owned kind command r : promises 14 0 (command_owned kind command r).
Proof. unfold command_owned. promise_go. Qed.
#[local] Hint Resolve promises_command_owned : progress.

Lemma promises_request e : asks e = true -> promises 14 0 (dispatch e).
Proof.
  destruct e; try discriminate; intros Ha; cbn [dispatch].
  - unfold request_event. promise_go.
  - simpl in Ha. destruct on_owner; [|promise_go]. unfold forwarded.
    destruct (Value.get_str "kind" input) as [kind|]; [|promise_go].
    destruct (String.eqb kind "begin"); [unfold begin, begin_shaped; promise_go|].
    destruct (str_in kind _); [unfold command; promise_go|].
    destruct (String.eqb_spec kind "callbackQuery") as [->|_]; [discriminate Ha|].
    destruct (String.eqb kind "atomic"); [|promise_go].
    unfold atomic_input, snapshot_skew. promise_go.
Qed.

(** ** Failing closed answers as well *)

(** Immediate effects only, and a reply to the client if [c]. *)
Definition told (c : bool) (s1 s2 : St) : Prop :=
  answers (fun _ => True) s1 s2 /\ (c = true -> answered s1 s2).

Lemma told_trans c c' s1 s2 s3 : told c s1 s2 -> told c' s2 s3 -> told (c || c') s1 s3.
Proof.
  intros [A1 T1] [A2 T2]. split; [by etransitivity|].
  destruct A2 as [_ _ _ (k & Hk & _)], A1 as [_ _ _ (l & Hl & _)].
  destruct c; simpl; intros Hc; [eapply answered_r; [by apply T1|exact Hk]|].
  destruct (T2 Hc) as (l' & reply & Hl' & Hin). exists (l ++ l'), reply.
  rewrite Hl', Hl, app_assoc. split; [done|]. apply elem_of_app. by right.
Qed.
Lemma passes_told c e : (c = true -> exists reply, e = Effect.Respond "client" reply) -> passes (told c) (push e).
Proof.
  intros He s. exists tt. split; [done|]. split; [split; [done..|]; exists [e]; by split; [|constructor]|].
  intros [reply ->]%He. exists [Effect.Respond "client" reply], reply. by split; [|left].
Qed.
Lemma passes_told_ret c : c = false -> passes (told c) (mret tt : M unit).
Proof. intros -> s. exists tt. split; [done|]. split; [reflexivity|done]. Qed.

Lemma told_reply unsure e : passes (told (asks e)) (fail_closed_reply unsure e).
Proof.
  unfold fail_closed_reply, respond, respond_callback. destruct e; try by apply passes_told_ret.
  - apply passes_told. eauto.
  - cbv zeta. simpl. destruct (bool_decide _); apply passes_told; [done|eauto].
Qed.
Lemma told_work s (c : code) :
  passes (told (opt_existsb is_client (work_of s)))
    match work_of s with
    | Some w => if is_client w then respond (error_reply (if unsure s && is_commit_task (work_task w)
                  then Code.OutcomeUnknown else Code.Internal)) else mret tt
    | None => mret tt
    end.
Proof.
  destruct (work_of s) as [w|]; [simpl|by apply passes_told_ret].
  destruct (is_client w); [apply passes_told; eauto|by apply passes_told_ret].
Qed.

(** Whether someone waits: the client of the event, of the work or of the deferred verdict. *)
Definition someone_waits (s : St) (e : event) : bool :=
  opt_existsb is_client (work_of s) || has_deferred s || asks e.

Lemma fail_closed_answers reason e b s :
  someone_waits s e = true -> answered (set_effects [] s) (snd (fail_closed reason e b s)).
Proof.
  intros Hw. unfold fail_closed. rewrite at_modify, at_get. cbv zeta.
  set (s0 := set_effects [] s). fold (unsure s0).
  set (Q := fun r : (unit + Fault) * St => answered s0 (snd r)).
  lazymatch goal with |- answered _ (snd ?r) => change (Q r) end.
  apply (passes_bind (told false) _ _ Q); [by apply passes_told|intros _ s1 A1].
  apply (passes_bind _ _ _ Q _ (told_work s0 Code.Internal)). intros _ s2 A2.
  apply (passes_bind (told (has_deferred s0)) _ _ Q).
  { destruct (has_deferred s0); [apply passes_told; eauto|by apply passes_told_ret]. }
  intros _ s3 A3.
  apply (passes_bind (told false) _ _ Q); [case_match; [by apply passes_told|by apply passes_told_ret]|].
  intros _ s4 A4. apply (passes_bind (told (asks e)) _ _ Q); [apply told_reply|intros _ s5 A5].
  assert (Hall : told (false || opt_existsb is_client (work_of s0) || has_deferred s0 || false || asks e) s0 s5)
    by (repeat (eapply told_trans; [|eassumption]); exact A1).
  destruct Hall as [[Hd _ Hr _] Ha]. rewrite orb_false_l, orb_false_r in Ha. specialize (Ha Hw).
  unfold Q. destruct (fail_closed_end (b || bool_decide (is_Some (volatile_of s0))) s0 s5 (effects s5)
    eq_refl Hd Hr) as [_ Hend]. cbv zeta in Hend.
  destruct (fail_closed_phase _ _).
  - destruct Hend as (He & _). by eapply answered_r.
  - destruct Hend as (He & _). eapply (answered_r _ _ _ []); [exact Ha|]. by rewrite app_nil_r.
Qed.

(** ** Steps *)

(** A client waits for a work that goes on. *)
Definition in_progress (bound more : nat) (s : St) : Prop :=
  exists p w, owed s = Some (p, w) /\ carries w /\ below bound more (work_task w) /\ reset s = false
    /\ opt_forallb volatile_consistent (volatile_of s) = true.

Lemma run_dispatch_advances bound more cs d vol e :
  someone_waits (start cs d vol) e = true ->
  (forall u s', dispatch e (start cs d vol) = (inl u, s') -> advances bound more (start cs d vol) s') ->
  answered (start cs d vol) (run_dispatch e (start cs d vol))
  \/ in_progress bound more (run_dispatch e (start cs d vol)).
Proof.
  set (s := start cs d vol). intros Hw Hd. unfold run_dispatch, checked_dispatch, mbind, M_bind.
  destruct (dispatch e s) as [[u|f] s1] eqn:E; [|left; by apply fail_closed_answers].
  simpl. destruct (check_output s1) as [f|] eqn:Ec; [left; by apply fail_closed_answers|].
  destruct (Hd _ _ eq_refl) as [Ha|(p & w & Ho & Hc & Hb & Hr)]; [by left|right].
  apply check_output_None in Ec as [Hr'|[Hr' [_ Hv _ _ _]]]; [unfold s in Hr; simpl in Hr; congruence|].
  exists p, w. do 4 (split; [done|]). change (opt_forallb volatile_consistent (volatile_of s1) = true).
  destruct (volatile_of s1) as [v1|]; [by apply Hv|done].
Qed.

Lemma owed_waits s p w e : owed s = Some (p, w) -> carries w -> someone_waits s e = true.
Proof.
  unfold owed, someone_waits, work_of, has_deferred. intros Ho [Hl _].
  destruct (volatile_of s) as [vol|]; [|done]. simpl in *.
  destruct (deferred vol); simpl; [by rewrite !orb_true_r|].
  destruct (pending vol), (work vol); try discriminate Ho. injection Ho as <- ->. unfold is_client.
  simpl. by rewrite Hl.
Qed.
End progress.

(** ** Every request is answered *)

Section liveness.
Context `{Target} `{Serde} `{StateSerde} `{Sha2} `{Compiler} `{AtomicSerde} `{Unicode}.

(** The state the next step starts from. *)
Definition restart (s : St) : St := start (compiler s) (durable_of s) (volatile_of s).

(** The client is answered by the step from [s] to [s'], or its work waits for an effect
    that has outcomes, and whatever the outcome and whenever it comes, the client will be answered
    from there. *)
Inductive will_answer (s s' : St) : Prop :=
| answered_now : answered s s' -> will_answer s s'
| answered_later p w :
    owed s' = Some (p, w) -> work_lane w = WorkLane.Client -> reset s' = false ->
    (exists e, due p e) ->
    (forall (env : Env) e, due p e ->
       will_answer (restart s') (run_dispatch (H6 := env) e (restart s'))) ->
    will_answer s s'.

Lemma progress_answers bound more s s' : in_progress bound more s' -> will_answer s s'.
Proof.
  intros (p & w & Ho & Hc & _ & Hr & Hv). remember (work_task w) as t eqn:Ht. revert s s' p w Ho Hc Hr Hv Ht.
  induction t as [t IH] using below_ind. intros s s' p w Ho Hc Hr Hv ->.
  eapply answered_later; [exact Ho|apply Hc|done|apply due_exists|]. intros env e Hdue.
  destruct (volatile_of s') as [vol|] eqn:Hvol; [|by unfold owed in Ho; rewrite Hvol in Ho].
  assert (Ho' : owed (restart s') = Some (p, w)) by (unfold owed, restart in *; simpl; by rewrite Hvol in *).
  destruct (run_dispatch_advances (stage (work_task w)) (remaining (work_task w)) (compiler s') (durable_of s')
    (volatile_of s') e) as [Ha|(p' & w' & Ho2 & Hc2 & Hb & Hr2 & Hv2)].
  - by eapply owed_waits.
  - intros u s2 Hs2. eapply (outcome_advances (restart s') vol p w e u); [done..|exact Hs2].
  - by apply answered_now.
  - by eapply (IH _ Hb).
Qed.

(** C2: every request is answered. A step on a request or on a forwarded command answers the client,
    or it waits for an effect; and however each awaited effect turns out and whatever the time and
    the entropy are, after finitely many outcomes a step answers the client, be it by failing
    closed. A verdict that comes during a query of its callback waits for the query's outcome. *)
Theorem requests_answered `{env : Env} cs d vol e :
  opt_forallb volatile_consistent vol = true -> asks e = true ->
  will_answer (start cs d vol) (run_dispatch e (start cs d vol)).
Proof.
  intros Hv Ha.
  destruct (run_dispatch_advances 14 0 cs d vol e) as [?|Hp].
  - unfold someone_waits. by rewrite Ha, orb_true_r.
  - intros u s'. by apply promises_request.
  - by apply answered_now.
  - by eapply progress_answers.
Qed.
End liveness.

(** A transaction is opened: the client is answered by the fifth step. *)
Lemma requests_answered_witness :
  will_answer (start [] None None) (step_from 1000 initial (Event.Forwarded begin_input))
  /\ existsb (fun e => match e with Effect.Respond lane _ => String.eqb lane "client" | _ => false end)
       (effects began) = true.
Proof.
  split; [|vm_compute; reflexivity].
  exact (requests_answered (H := wasm32) (env := world_env 1000) [] None None
    (Event.Forwarded begin_input) eq_refl eq_refl).
Defined.
