(* ===== verification/Commits.v ===== *)
(** * When COMMIT is sent

    A step emits [Commit] only as the continuation of the work that waits for
    the event, at one of four points, and each point checks the deadline and the
    rollback request first. *)

From S2P Require Import Prelude F64 SerdeJson Compiler State Volatile Io Canonical Bounds.
From S2P Require Import Identity Machine Checks Commands Interactive.
From S2P Require Import Interactive Atomic Execution Run Frames HandlerFrames.
From S2P Require Import Batches World.

Section commits.
Context `{Target} `{Serde} `{StateSerde} `{Sha2} `{Compiler} `{AtomicSerde} `{Unicode} `{Env}.

(** An effect other than [Commit]. *)
Definition tame (e : effect) : bool := negb (is_commit e).

#[local] Instance tame_tame : AcceptsTame tame.
Proof. intros e He. unfold tame. by rewrite He. Qed.

(** The record has a deadline that has not passed. *)
Definition before_deadline (s : St) : bool :=
  opt_existsb (fun at_ms => (now_ms host <? at_ms)%Z) (r ← record_of s; rec_expires_at_ms r).

Definition unkeyed (s : St) : bool :=
  opt_existsb (fun a => bool_decide (idempotency a = None)) (atomic_of s).
Definition direct (s : St) : bool :=
  opt_existsb (fun a => bool_decide (placement a = Placement.Direct)) (atomic_of s).

Definition current_snapshot (s : St) : bool :=
  opt_existsb (fun r => String.eqb (rec_snapshot r) (snapshot_of (compiler s))) (record_of s).

(** The points at which work resumed by [e] may send COMMIT. *)
Definition may_commit (s : St) (t : task) (e : event) : bool :=
  match t, e with
| Task.CommitPersist _ _ _, Event.Persisted _ => before_deadline s && negb (rollback_requested_of s)
| Task.AtomicExecute, Event.Executed _ _ => negb (atomic_expired s) && unkeyed s && direct s
| Task.AtomicCommitBinding, Event.BindingChecked _ true =>
      negb (atomic_expired s) && unkeyed s && current_snapshot s
| Task.AtomicInsert, Event.Executed _ _ => negb (atomic_expired s)
| _, _ => false
  end.

(** The frame of the rest of a handler, at the state reached. *)
Ltac tame_here :=
  lazymatch goal with
| |- evolves tame ?s (snd (?m ?s)) =>
      let Hf := fresh in assert (Hf : frames (evolves tame) m); [ frame_more | apply Hf ]
  end.

Lemma commit_persisted_quiet lane r n d p s :
  before_deadline s && negb (rollback_requested_of s) = false ->
  evolves tame s (snd (commit_persisted lane r n d p s)).
Proof.
  unfold commit_persisted, before_deadline. intros Hb. rewrite at_get.
  destruct (r0 ← record_of s; rec_expires_at_ms r0) as [at_ms|]; [|by apply evolves_same].
  simpl in Hb. unfold mbind, M_bind; simpl.
  replace ((at_ms <=? now_ms host)%Z || rollback_requested_of s) with true.
  - apply (keeps_close (evolves tame) tame).
  - symmetry. rewrite Z.leb_antisym. by destruct (_ <? _)%Z, (rollback_requested_of s).
Qed.

Lemma at_unless_expired lane k s :
  unless_expired lane k s = if atomic_expired s then expire_atomic lane s else k s.
Proof. unfold unless_expired. rewrite at_gets. by destruct (atomic_expired s). Qed.

Lemma expire_quiet lane s : evolves tame s (snd (expire_atomic lane s)).
Proof. apply (keeps_expire_atomic (evolves tame) tame). Qed.

Lemma atomic_commit_quiet lane r s :
  negb (atomic_expired s) = false -> evolves tame s (snd (atomic_commit lane r s)).
Proof.
  intros Hx. unfold atomic_commit. rewrite at_unless_expired.
  apply negb_false_iff in Hx. rewrite Hx. apply expire_quiet.
Qed.

Lemma insert_or_commit_quiet lane r s :
  negb (atomic_expired s) && unkeyed s = false ->
  evolves tame s (snd (insert_or_commit lane r s)).
Proof.
  unfold insert_or_commit, unkeyed. intros Hx. rewrite at_unless_expired.
  destruct (atomic_expired s); [apply expire_quiet|]. rewrite at_atomic_run.
  destruct (atomic_of s) as [a|]; [|by apply evolves_same]. simpl in Hx.
  apply bool_decide_eq_false in Hx. destruct (idempotency a); [|done].
  tame_here.
Qed.

Lemma atomic_progress_quiet lane r s :
  negb (atomic_expired s) && unkeyed s && direct s = false ->
  evolves tame s (snd (atomic_progress lane r s)).
Proof.
  unfold atomic_progress. intros Hx. rewrite at_atomic_run. unfold direct in Hx.
  destruct (atomic_of s) as [a|] eqn:Ea; [|by apply evolves_same]. simpl in Hx.
  destruct (bool_decide (placement a = Placement.Direct)) eqn:Ed.
  - apply insert_or_commit_quiet. by rewrite andb_true_r in Hx.
  - tame_here.
Qed.

(** What the guards read. *)
Definition guards_agree (s s' : St) : Prop :=
  atomic_expired s' = atomic_expired s /\ unkeyed s' = unkeyed s /\ direct s' = direct s.

(** Validation that succeeds changes nothing. *)
Lemma validate_all_pure lane h i l b s v s' :
  validate_all lane h i l b s = (inl (Some v), s') -> s' = s.
Proof.
  revert i b v s'. induction l as [|[result st] l IH]; intros i b v s'; simpl; [by intros [= _ <-]|].
  destruct (codec_failure result) as [c|].
  { unfold mbind, M_bind. destruct (close_failed lane c s) as [[[]|] ?]; intros E; inversion E. }
  rewrite at_gets. destruct (validate _ _ _ _ _) as [w|e].
  - unfold mbind at 1, M_bind at 1. destruct (validate_all _ _ _ _ _ s) as [[[ws|]|f] s1] eqn:E1;
      intros E; inversion E; subst. by eapply IH.
  - unfold mbind, M_bind. destruct (log_core_error e s) as [[[]|] s1]; [|intros E; inversion E].
    destruct (close _ _ _ s1) as [[[]|] ?]; intros E; inversion E.
Qed.

Lemma agree_set_connection c s : guards_agree s (snd (set_connection c s)).
Proof.
  unfold guards_agree, atomic_expired, unkeyed, direct, atomic_on_owner, atomic_of,
    rollback_requested_of, record_of.
  simpl. by destruct (volatile_of s).
Qed.

Lemma agree_progress a shaped u ms s :
  atomic_of s = Some a ->
  guards_agree s (snd (with_volatile (set_v_atomic (Some (record_progress shaped u ms a))) s)).
Proof.
  unfold guards_agree, atomic_expired, unkeyed, direct, atomic_on_owner, atomic_of,
    rollback_requested_of, record_of. simpl.
  destruct (volatile_of s) as [vol|]; simpl; [|done]. by intros ->.
Qed.

Lemma atomic_measured_quiet lane r t s :
  negb (atomic_expired s) && unkeyed s && direct s = false ->
  evolves tame s (snd (atomic_measured lane r t s)).
Proof.
  intros Hx. unfold atomic_measured. destruct (_ || _); [tame_here|]. cbv zeta.
  rewrite at_atomic_run. destruct (atomic_of s) as [a|] eqn:Ea; [|by apply evolves_same].
  match goal with |- context [record_progress ?x ?u ?m a] =>
    pose proof (agree_progress a x u m s Ea) as (H1' & H2' & H3');
    set (p := record_progress x u m a) in * end.
  unfold mbind, M_bind. simpl in *. set (s1 := set_volatile _ s) in *.
  etransitivity; [by apply (evolves_same tame s s1)|].
  destruct (_ <? _)%Z; [tame_here|]. apply atomic_progress_quiet. by rewrite H1', H2', H3'.
Qed.

Lemma atomic_executed_quiet lane r rs s :
  negb (atomic_expired s) && unkeyed s && direct s = false ->
  evolves tame s (snd (atomic_executed lane r rs s)).
Proof.
  intros Hx. unfold atomic_executed. pose proof (agree_set_connection Connection.Open s) as Hagree.
  unfold mbind at 1, M_bind at 1. simpl in *. set (s1 := set_volatile _ s) in *.
  destruct Hagree as (Hx1 & Hx2 & Hx3).
  etransitivity; [by apply (evolves_same tame s s1)|].
  rewrite at_unless_expired. destruct (atomic_expired s1) eqn:Ex; [apply expire_quiet|].
  rewrite at_atomic_run. destruct (atomic_of s1) as [a|]; [|by apply evolves_same]. cbv zeta.
  destruct (negb (_ =? _)%nat); [tame_here|]. rewrite at_gets.
  destruct (raw_result_bound_of _ _) as [n|]; [|by apply evolves_same].
  set (m := validate_all _ _ _ _ _).
  assert (Hm : evolves tame s1 (snd (m s1))) by (unfold m; tame_here).
  unfold mbind at 1, M_bind at 1. destruct (m s1) as [[[v|]|f] s2] eqn:Em; [|done|done].
  apply validate_all_pure in Em as ->. destruct (atomic_over_limit a v); [tame_here|].
  unfold mbind, M_bind, lift. destruct (tally _ _ _) as [t|]; [|by apply evolves_same].
  apply atomic_measured_quiet. rewrite Ex, Hx2, Hx3. by rewrite <- Hx1 in Hx.
Qed.

(** The resumption changes nothing the guards read. *)
Lemma may_commit_resumed s w t e : may_commit (resumed s w) t e = may_commit s t e.
Proof.
  unfold may_commit, before_deadline, atomic_expired, unkeyed, direct, current_snapshot,
    atomic_on_owner, atomic_of, rollback_requested_of, record_of, resumed.
  simpl. by destruct (volatile_of s).
Qed.

Lemma quiet_commit_binding_checked lane r id s :
  may_commit s Task.AtomicCommitBinding (Event.BindingChecked id true) = false ->
  evolves tame s (snd (atomic_outcome lane r Task.AtomicCommitBinding
                         (Event.BindingChecked id true) s)).
Proof.
  simpl. intros Hx. rewrite at_get. unfold current_snapshot in Hx.
  destruct (opt_existsb _ (record_of s)); simpl; [|tame_here].
  apply insert_or_commit_quiet. by rewrite andb_true_r in Hx.
Qed.

Lemma work_outcome_quiet e w s :
  may_commit s (work_task w) e = false -> settles tame s (snd (work_outcome e w s)).
Proof.
  unfold work_outcome. intros Hx. destruct (is_atomic_task (work_task w)) eqn:Ea.
  - left. destruct (commits_atomic (work_task w) e) eqn:Ec.
    + destruct (work_task w), e; try done.
      * by apply atomic_executed_quiet.
      * destruct allowed; [|done]. by apply quiet_commit_binding_checked.
      * cbn [atomic_outcome]. unfold mbind, M_bind. simpl.
        set (s1 := set_volatile _ s). etransitivity; [by apply (evolves_same tame s s1)|].
        apply atomic_commit_quiet.
        pose proof (agree_set_connection Connection.Open s) as (Hx1 & _).
        simpl in Hx, Hx1. fold s1 in Hx1. by rewrite Hx1.
    + apply (keeps_atomic_outcome (evolves tame) tame). congruence.
  - destruct (commits_interactive (work_task w) e) eqn:Ec.
    + left. destruct (work_task w), e; try done. by apply commit_persisted_quiet.
    + apply settles_consume; [exact _|congruence].
Qed.

(** Effects are only added, and none of them is [Commit]. *)
Definition adds (s s' : St) : Prop :=
  exists l, effects s' = effects s ++ l /\ forallb tame l = true.

#[local] Instance adds_preorder : PreOrder adds.
Proof.
  split.
  - intros s. exists []. by rewrite app_nil_r.
  - intros s1 s2 s3 (l & El & Hl) (k & Ek & Hk). exists (l ++ k).
    by rewrite Ek, El, <- app_assoc, forallb_app, Hl, Hk.
Qed.

Lemma adds_evolves s s' : evolves tame s s' -> adds s s'.
Proof. by intros [? _]. Qed.

Lemma quiet_tame l : forallb quiet l = true -> forallb tame l = true.
Proof.
  rewrite !forallb_forall. intros Hq e He. specialize (Hq e He). by destruct e.
Qed.

Lemma adds_settles s s' : settles tame s s' -> adds s s'.
Proof. intros [[? _]|[(l & El & Hl) _]]; [done|]. exists l. split; [done|by apply quiet_tame]. Qed.

Lemma frames_adds {A} (m : M A) : frames (evolves tame) m -> frames adds m.
Proof. apply frames_impl, adds_evolves. Qed.

Lemma adds_or_reset (m : M unit) : frames (evolves tame) m -> frames adds (or_reset m).
Proof.
  intros Hm. unfold or_reset.
  apply frames_bind; [exact _|by apply frames_adds, frames_attempt|].
  intros [?|?]; [by apply frames_ret, _|]. intros s. exists []. by rewrite app_nil_r.
Qed.

(** One step of a handler whose parts only add effects. *)
Ltac adds_go :=
  repeat (intros; first
    [ by apply frames_adds, evolves_push
    | apply frames_adds; solve [frame_more]
    | apply adds_or_reset; solve [frame_more]
    | apply frames_bind; [exact _| |] | frame_split ]).

Lemma adds_set_reset : frames adds (modify (set_reset true)).
Proof. intros s. exists []. by rewrite app_nil_r. Qed.

Lemma adds_fail_closed_reply b e : frames (evolves tame) (fail_closed_reply b e).
Proof. unfold fail_closed_reply. frame_more. Qed.
Lemma adds_discard_reply e : frames (evolves tame) (discard_reply e).
Proof. unfold discard_reply. frame_more. Qed.
#[local] Hint Resolve adds_fail_closed_reply adds_discard_reply adds_set_reset : frames.

Definition no_commit (s : St) : Prop := forallb tame (effects s) = true.

Lemma ends_adds {A} (m : M A) : frames adds m -> ends no_commit m no_commit.
Proof.
  intros Hm s Hs. destruct (Hm s) as (l & El & Hl). unfold no_commit in *.
  by rewrite El, forallb_app, Hs.
Qed.

Lemma fail_closed_no_commit reason e b : ends (fun _ => True) (fail_closed reason e b) no_commit.
Proof.
  unfold fail_closed. apply ends_bind with (R := no_commit); [done|done|intros _].
  apply ends_adds. adds_go; auto with frames.
Qed.

Lemma discard_no_commit reason e : ends no_commit (discard reason e) no_commit.
Proof. apply ends_adds. unfold discard. adds_go. Qed.

Lemma abandon_adds : frames adds abandon.
Proof.
  unfold abandon. apply frames_bind; [exact _|intros s; exists []; by rewrite app_nil_r|intros _].
  adds_go.
Qed.

(** The work [e] resumes, if any. *)
Definition resumed_work (s : St) (e : event) : option Work :=
  vol ← volatile_of s;
  p ← pending vol;
  w ← work vol;
  if bool_decide (Event.outcome_id e = Some (pend_id p) /\ Event.answers e = Some (pend_effect p))
  then Some w else None.

Lemma resumed_work_waiting s e w : resumed_work s e = Some w <-> waiting s e w.
Proof.
  unfold resumed_work, waiting. split.
  - destruct (volatile_of s) as [vol|]; [|done]. simpl.
    destruct (pending vol) as [p|] eqn:Ep; [|done]. simpl.
    destruct (work vol) as [w'|] eqn:Ew; [|done]. simpl.
    destruct (bool_decide _) eqn:Eb; [|done]. intros [= <-]. bools. destruct Eb. by exists vol, p.
  - intros (vol & p & -> & Hp & Hw & ? & ?). simpl. rewrite Hp. simpl. rewrite Hw. simpl.
    by rewrite bool_decide_eq_true_2.
Qed.

(** A step that may send COMMIT. *)
Definition commit_point (s : St) (e : event) : bool :=
  opt_existsb (fun w => may_commit s (work_task w) e) (resumed_work s e).

Lemma dispatch_no_commit e s :
  no_commit s -> commit_point s e = false -> no_commit (snd (dispatch e s)).
Proof.
  intros Hs Hc.
  assert (Hadds : adds s (snd (dispatch e s))).
  { destruct (Event.outcome_id e) eqn:Eid.
    - rewrite (dispatch_outcome_event e _ Eid).
      apply adds_settles, settles_outcome; [exact _|]. intros w Hw.
      apply work_outcome_quiet. rewrite may_commit_resumed.
      apply resumed_work_waiting in Hw. unfold commit_point in Hc. by rewrite Hw in Hc.
    - destruct (decide (e = Event.Abandon)) as [->|Hne]; [apply abandon_adds|].
      apply adds_evolves, (keeps_entry (evolves tame) tame e Eid Hne s). }
  destruct Hadds as (l & El & Hl). unfold no_commit in *. by rewrite El, forallb_app, Hs.
Qed.

Lemma run_dispatch_no_commit e s :
  no_commit s -> commit_point s e = false -> no_commit (run_dispatch e s).
Proof.
  intros Hs Hc. pose proof (dispatch_no_commit e s Hs Hc) as Hd.
  unfold run_dispatch, checked_dispatch, mbind, M_bind.
  destruct (dispatch e s) as [[[]|f] s'] eqn:Ed; simpl in *; [|by apply fail_closed_no_commit].
  destruct (check_output s') as [f|]; simpl; [by apply fail_closed_no_commit|done].
Qed.

Lemma commit_point_start_None cs d e : commit_point (start cs d None) e = false.
Proof. done. Qed.

Lemma no_commit_start cs d v : no_commit (start cs d v).
Proof. done. Qed.

Lemma run_read_no_commit cs st vol e :
  (forall v, vol = ReadVolatile v -> (forall reason, st <> Unreadable reason) ->
     commit_point (start cs (stored_durable st) (Some v)) e = false) ->
  no_commit (run_read cs st vol e).
Proof.
  intros Hv. destruct st as [|reason|d]; simpl in *.
  - destruct vol as [|text|v].
    + by apply run_dispatch_no_commit.
    + apply (fail_closed_no_commit "volatile_invalid" e true); exact I.
    + apply run_dispatch_no_commit; [apply no_commit_start|]. by apply Hv.
  - destruct vol as [|text|v].
    + destruct (is_atomic_input e).
      * by apply run_dispatch_no_commit.
      * apply discard_no_commit, no_commit_start.
    + apply discard_no_commit, no_commit_start.
    + apply discard_no_commit, no_commit_start.
  - destruct vol as [|text|v].
    + by apply run_dispatch_no_commit.
    + apply (fail_closed_no_commit "volatile_invalid" e true); exact I.
    + apply run_dispatch_no_commit; [apply no_commit_start|]. by apply Hv.
Qed.

Lemma no_commit_existsb s : no_commit s -> existsb is_commit (effects s) = false.
Proof.
  unfold no_commit. intros Hf. apply not_true_is_false. intros Hx.
  apply existsb_exists in Hx as (c & Hin & Hc). rewrite forallb_forall in Hf.
  specialize (Hf c Hin). unfold tame in Hf. by rewrite Hc in Hf.
Qed.

Lemma commits_of_finish s :
  existsb is_commit (out_effects (snd (finish_output s))) = existsb is_commit (effects s).
Proof. rewrite finish_effects, existsb_app. destruct (reset s); simpl; by rewrite orb_false_r. Qed.

(** C7: COMMIT is sent only at a commit point. A step whose batch holds a [Commit] read a readable
    durable record and a readable volatile state, and its event answers the effect that state
    waits for, whose task and guards are one of: an interactive [committing] record was stored, its
    deadline has not passed and no rollback was requested; the idempotency row of a keyed atomic
    execution was inserted; an unkeyed direct execution returned; or an unkeyed owner execution's
    second binding check was allowed under the current snapshot (the last three unless the owner's
    deadline passed or its timer fired). *)
Theorem commit_only_at_commit_points cs st vol e :
  existsb is_commit (out_effects (snd (finish_output (run_read cs st vol e)))) = true ->
  exists v w, vol = ReadVolatile v /\ (forall reason, st <> Unreadable reason)
    /\ waiting (start cs (stored_durable st) (Some v)) e w
    /\ may_commit (start cs (stored_durable st) (Some v)) (work_task w) e = true.
Proof.
  rewrite commits_of_finish. intros Hx.
  assert (Hc : exists v, vol = ReadVolatile v /\ (forall reason, st <> Unreadable reason)
    /\ commit_point (start cs (stored_durable st) (Some v)) e = true).
  { destruct vol as [|text|v].
    1, 2: rewrite no_commit_existsb in Hx; [done|by apply run_read_no_commit].
    destruct (commit_point (start cs (stored_durable st) (Some v)) e) eqn:Ec.
    - exists v. split; [done|]. split; [|done]. intros reason ->.
      rewrite no_commit_existsb in Hx; [done|]. apply run_read_no_commit. intros v' _ Hn.
      by destruct (Hn reason).
    - rewrite no_commit_existsb in Hx; [done|]. apply run_read_no_commit. by intros v' [= <-] _. }
  destruct Hc as (v & Hv & Hst & Hc). unfold commit_point in Hc.
  destruct (resumed_work _ e) as [w|] eqn:Ew; [|done]. exists v, w.
  by rewrite <- resumed_work_waiting.
Qed.
End commits.

(** The step that sends COMMIT in the example transaction. *)
Lemma commit_only_at_commit_points_witness :
  exists v w, volatile_read_of committing = ReadVolatile v
    /\ (forall reason, stored_of committing <> Unreadable reason)
    /\ waiting (start (compiler committing) (stored_durable (stored_of committing)) (Some v))
         (Event.Persisted (awaited_of committing)) w
    /\ may_commit (H6 := world_env 3102)
         (start (compiler committing) (stored_durable (stored_of committing)) (Some v))
         (work_task w) (Event.Persisted (awaited_of committing)) = true.
Proof.
  apply (commit_only_at_commit_points (H6 := world_env 3102) (compiler committing) (stored_of committing)
           (volatile_read_of committing) (Event.Persisted (awaited_of committing))).
  vm_compute. reflexivity.
Defined.
