(* ===== verification/Readable.v ===== *)
(** * What a step leaves can be read

    The two states a step returns have the owner, the version and the
    consistency that the next step requires of them: a valid start leads to a
    valid end whatever happens in the step, and a valid record read back from its
    text is the record. *)

From S2P Require Import Prelude F64 SerdeJson Compiler State Volatile Io Canonical Bounds.
From S2P Require Import Identity Machine Checks Commands Interactive.
From S2P Require Import Interactive Atomic Execution Run Frames HandlerFrames.
From S2P Require Import Batches Failing World.

Section readable.
Context `{Target} `{Serde} `{StateSerde} `{Sha2} `{Compiler} `{AtomicSerde} `{Unicode} `{Env}.

Definition record_valid (r : TxRecord) : Prop :=
  record_consistent r = true /\ rec_phase r <> Phase.Discarded.

Definition durable_valid (d : durable) : Prop :=
  durable_owner d = this_owner
  /\ match d with Durable.Live r => record_valid r | Durable.Tombstone _ => True end.

Definition volatile_valid (vol : Volatile) : Prop :=
  v vol = TX_STATE_VERSION /\ vol_owner vol = Io.owner host /\ volatile_consistent vol = true.

Definition states_valid (s : St) : Prop :=
  (forall d, durable_of s = Some d -> durable_valid d)
  /\ (forall vol, volatile_of s = Some vol -> volatile_valid vol).

(** ** Owner and version *)
Definition owned (s : St) : Prop :=
  (forall d, durable_of s = Some d -> durable_owner d = this_owner /\ not_discarded d)
  /\ (forall vol, volatile_of s = Some vol -> v vol = TX_STATE_VERSION /\ vol_owner vol = Io.owner host).

Definition keeps_owned (s s' : St) : Prop := owned s -> owned s'.

#[export] Instance keeps_owned_preorder : PreOrder keeps_owned.
Proof. split; [by intros s Hs|]. intros s1 s2 s3 H12 H23 Hs. by apply H23, H12. Qed.

Hypothesis host_ok : host_valid host = true.

Lemma host_owner_name : opt_forallb owner_name (Io.owner host) = true.
Proof. revert host_ok. unfold host_valid. intros Hv. bools. done. Qed.

Lemma fresh_owner : vol_owner fresh_volatile = Io.owner host.
Proof.
  pose proof host_owner_name as Ho. unfold fresh_volatile, this_owner. simpl.
  destruct (Io.owner host) as [o|]; [|done]. simpl in *.
  destruct (String.eqb_spec o ""); [by subst|done].
Qed.

(** Updates of the other parts. *)
Lemma owned_other s s' :
  durable_of s' = durable_of s ->
  (forall vol', volatile_of s' = Some vol' -> exists vol,
     default fresh_volatile (volatile_of s) = vol /\ v vol' = v vol /\ vol_owner vol' = vol_owner vol) ->
  keeps_owned s s'.
Proof.
  intros Hd Hv [Ho Hvol]. split; [by rewrite Hd|]. intros vol' Hvol'.
  destruct (Hv vol' Hvol') as (vol & <- & -> & ->).
  destruct (volatile_of s) as [vol|]; [by apply Hvol|]. split; [done|]. apply fresh_owner.
Qed.

Lemma owned_modify f :
  (forall s, durable_of (f s) = durable_of s
     /\ forall vol', volatile_of (f s) = Some vol' -> exists vol,
          default fresh_volatile (volatile_of s) = vol /\ v vol' = v vol /\ vol_owner vol' = vol_owner vol) ->
  frames keeps_owned (modify f).
Proof. intros Hf. apply frames_modify. intros s. destruct (Hf s). by apply owned_other. Qed.

(** An update of the volatile part that keeps its owner and version. *)
Definition same_identity (f : Volatile -> Volatile) : Prop :=
  forall vol, v (f vol) = v vol /\ vol_owner (f vol) = vol_owner vol.

Lemma owned_with_volatile f : same_identity f -> frames keeps_owned (with_volatile f).
Proof.
  intros Hf. apply owned_modify. intros s. split; [done|]. simpl. intros vol'.
  destruct (volatile_of s) as [vol|]; simpl; [|done]. intros [= <-]. exists vol. by destruct (Hf vol).
Qed.

Lemma owned_volatile_mut f : same_identity f -> frames keeps_owned (volatile_mut f).
Proof.
  intros Hf. apply owned_modify. intros s. split; [done|]. simpl. intros vol' [= <-].
  eexists. split; [done|]. apply Hf.
Qed.

Lemma owned_plain f :
  (forall s, durable_of (f s) = durable_of s /\ volatile_of (f s) = volatile_of s) ->
  frames keeps_owned (modify f).
Proof.
  intros Hf. apply owned_modify. intros s. destruct (Hf s) as [Hd Hv]. split; [done|].
  rewrite Hv. intros vol' ->. by exists vol'.
Qed.

Lemma owned_wait lane r t eff : frames keeps_owned (wait lane r t eff).
Proof.
  unfold wait. apply frames_bind; [exact _|by apply owned_volatile_mut|intros _].
  apply frames_bind; [exact _|apply frames_gets, _|intros id].
  destruct (_ <=? _)%Z; [apply frames_fault, _|].
  apply frames_bind; [exact _|by apply owned_with_volatile|intros _]. by apply owned_plain.
Qed.

Lemma owned_wait_callback r h t eff : frames keeps_owned (wait_callback r h t eff).
Proof.
  unfold wait_callback. apply frames_bind; [exact _|by apply owned_volatile_mut|intros _].
  apply frames_bind; [exact _|apply frames_gets, _|intros id].
  destruct (_ <=? _)%Z; [apply frames_fault, _|].
  apply frames_bind; [exact _|by apply owned_with_volatile|intros _]. by apply owned_plain.
Qed.

Lemma benign_identity f : benign f -> same_identity f.
Proof. intros Hf vol. destruct (Hf vol) as (? & ? & _). done. Qed.

#[export] Instance owned_base : Base keeps_owned any.
Proof.
  split.
  - exact _.
  - intros e _. by apply owned_plain.
  - intros. apply owned_wait.
  - intros. apply owned_wait_callback.
  - intros f Hf. by apply owned_with_volatile, benign_identity.
  - intros f Hf. by apply owned_volatile_mut, benign_identity.
  - apply owned_modify. by intros s.
  - intros r. by apply owned_plain.
  - intros h. by apply owned_plain.
  - intros auth envelope s. unfold compile_in_compiler. destruct (compile _ _ _) as [cs r].
    exact (owned_plain (set_compiler cs) (fun _ => conj eq_refl eq_refl) s).
  - intros h. by apply owned_plain.
  - apply owned_modify. intros s. destruct (volatile_of s) as [vol|] eqn:Ev; simpl.
    + split; [done|]. intros vol' [= <-]. by exists vol.
    + split; [done|]. by rewrite Ev.
  - intros s d Hd [Ho Hvol]. split; [|done]. simpl. intros d0 [= <-].
    destruct Hd as [?|(d' & Hd' & -> & Hn)]; [done|]. destruct (Ho d' Hd'). auto.
Qed.

#[export] Instance owned_whole : Whole keeps_owned.
Proof.
  split; [exact _| |by apply owned_plain..| |].
  - intros s _. exact (owned_plain (set_effects []) (fun _ => conj eq_refl eq_refl) s).
  - intros s id _. exact (owned_plain (fun s => set_effects (effects s ++ [Effect.Persist id]) s)
      (fun _ => conj eq_refl eq_refl) s).
  - intros s cs r b _ Hs. exact Hs.
Qed.

(** ** Consistency *)

(** The record [set_phase] stores. *)
Definition in_phase (q : phase) (r : TxRecord) : TxRecord :=
  {| rec_owner := rec_owner r; rec_kind := rec_kind r; rec_phase := q;
     identity := identity r; binding := binding r; rec_snapshot := rec_snapshot r;
     rec_expires_at_ms := if Phase.has_deadline q then rec_expires_at_ms r else None;
     next_sequence := next_sequence r; last := last r; counters := counters r;
     mutations := mutations r; versions := versions r; rec_atomic := rec_atomic r |}.

Lemma set_phase_live q s :
  q <> Phase.Discarded ->
  durable_of (snd (set_phase q s)) =
    match durable_of s with
    | Some (Durable.Live r) => Some (Durable.Live (in_phase q r))
    | d => d
    end.
Proof.
  intros Hq. unfold set_phase, modify. simpl. rewrite bool_decide_eq_false_2 by done.
  by destruct (durable_of s) as [[]|] eqn:E.
Qed.

(** A record may always move to [failed], and an interactive one to [commit_unknown]. *)
Lemma failed_consistent q r :
  q = Phase.Failed \/ (q = Phase.CommitUnknown /\ rec_kind r = Kind.Interactive) ->
  record_consistent r = true -> record_consistent (in_phase q r) = true.
Proof.
  intros Hq. unfold record_consistent. rewrite !andb_true_iff.
  intros Hr. repeat split; try (simpl; tauto).
  - assert (Hk : kind_consistent r = true) by tauto. revert Hk. unfold kind_consistent. simpl.
    destruct (rec_kind r); [done|]. destruct Hq as [->|[_ ?]]; [|done].
    rewrite !andb_true_iff. intros Hk. by repeat split; try tauto.
  - destruct Hq as [->|[-> _]]; reflexivity.
  - apply orb_true_iff; left; apply orb_true_iff; right. by destruct Hq as [->|[-> _]].
Qed.

(** A record of an execution is never [committing]. *)
Lemma committing_interactive r :
  record_consistent r = true -> rec_phase r = Phase.Committing -> rec_kind r = Kind.Interactive.
Proof.
  unfold record_consistent. rewrite !andb_true_iff. intros Hr Hp.
  assert (Hk : kind_consistent r = true) by tauto. revert Hk. unfold kind_consistent.
  destruct (rec_kind r); [done|]. by rewrite Hp.
Qed.

Lemma fail_closed_phase_cases had p q :
  fail_closed_phase had p = Some q ->
  q = Phase.Failed \/ (q = Phase.CommitUnknown /\ p = Some Phase.Committing).
Proof. destruct p as [[]|], had; simpl; intros [= <-]; auto. Qed.

Lemma in_phase_valid had s r q :
  record_of s = Some r -> fail_closed_phase had (phase_of s) = Some q ->
  durable_valid (Durable.Live r) -> durable_valid (Durable.Live (in_phase q r)).
Proof.
  intros Hr Hq [Ho [Hc _]]. apply fail_closed_phase_cases in Hq.
  split; [exact Ho|]. split.
  - apply failed_consistent; [|done]. destruct Hq as [?|[? Hp]]; [by left|right]. split; [done|].
    apply committing_interactive; [done|]. unfold phase_of in Hp. unfold record_of in Hr.
    destruct (durable_of s) as [[|r']|]; try done. injection Hr as ->. by injection Hp.
  - simpl. by destruct Hq as [->|[-> _]].
Qed.

Lemma waiting_volatile_valid t :
  awaited_by t = Awaited.Persist -> is_verdict t = false -> volatile_valid (persisting t).
Proof.
  intros Ht Hn. split; [done|]. split; [apply fresh_owner|].
  pose proof host_owner_name as Ho. pose proof seed_id_bounds as Hs.
  unfold volatile_consistent, paired, work_is, persisting. rewrite <- fresh_owner in Ho. simpl in *.
  rewrite Ho, Ht, Hn, ?andb_true_r. change (atomic_consistent _) with true. rewrite ?andb_true_r.
  unfold MAX_SAFE_INTEGER. rewrite !andb_true_iff, !Z.leb_le, Z.ltb_lt.
  repeat split; lia.
Qed.

Lemma fail_closed_valid reason e b s :
  states_valid s ->
  let s' := snd (fail_closed reason e b s) in reset s' = true \/ states_valid s'.
Proof.
  intros [Hd _]. pose proof (fail_closed_final reason e b s) as Hfin. cbv zeta in *.
  destruct (fail_closed_phase _ _) as [q|] eqn:Eq; [right|by left]. destruct Hfin as [Hvol Hd'].
  assert (Hq : q <> Phase.Discarded) by (apply fail_closed_phase_cases in Eq as [->|[-> _]]; done).
  split.
  - intros d. rewrite Hd', set_phase_live by done.
    destruct (durable_of s) as [[o|r]|] eqn:Ed; [|intros [= <-]|done].
    + intros [= <-]. by apply Hd.
    + apply (in_phase_valid (b || bool_decide (is_Some (volatile_of s))) s); [|done|by apply Hd].
      unfold record_of. by rewrite Ed.
  - intros vol. rewrite Hvol. intros [= <-]. by apply waiting_volatile_valid.
Qed.

(** ** The whole step *)

Definition records_valid (s : St) : Prop := forall d, durable_of s = Some d -> durable_valid d.
Definition volatiles_valid (s : St) : Prop :=
  forall vol, volatile_of s = Some vol -> volatile_valid vol.

(** A dispatch whose output passes the checks leaves valid states. *)
Lemma checked_valid s :
  owned s -> output_valid s -> states_valid s.
Proof.
  intros [Ho Hvol] Hv. split.
  - intros d Hd. destruct (Ho d Hd) as [? Hn]. split; [done|]. destruct d as [|r]; [done|].
    split; [|done]. apply (valid_record _ Hv). unfold record_of. by rewrite Hd.
  - intros vol Hvol'. destruct (Hvol vol Hvol') as [? ?].
    destruct (valid_volatile _ Hv vol Hvol') as [_ ?]. done.
Qed.

Lemma states_valid_owned s : states_valid s -> owned s.
Proof.
  intros [Hd Hv]. split.
  - intros d Ed. destruct (Hd d Ed) as [? Hr]. split; [done|]. by destruct d, Hr.
  - intros vol Ev. by destruct (Hv vol Ev) as (? & ? & _).
Qed.

Lemma run_dispatch_valid e s :
  forallb quiet (effects s) = true -> states_valid s ->
  reset (run_dispatch e s) = true \/ states_valid (run_dispatch e s).
Proof.
  intros Hq Hs. pose proof (whole_run_dispatch keeps_owned e s Hq (states_valid_owned s Hs)) as Hown.
  unfold run_dispatch, checked_dispatch, mbind, M_bind in *.
  destruct (dispatch e s) as [[[]|f] s']; simpl in *; [|by apply fail_closed_valid].
  destruct (check_output s') as [f|] eqn:Ec; simpl in *; [by apply fail_closed_valid|].
  apply check_output_None in Ec as [?|[_ Hv]]; [by left|right]. by apply checked_valid.
Qed.

(** The states a step starts from are valid: what [durable_parse] and [volatile_parse] return. *)
Definition reads_valid (st : stored) (vol : volatile_read) : Prop :=
  (forall d, st = Readable d -> durable_valid d)
  /\ (forall w, vol = ReadVolatile w -> volatile_valid w).

Definition readable (st : stored) : bool :=
  match st with Unreadable _ => false | _ => true end.

Lemma start_valid st cs vol :
  reads_valid st vol -> states_valid (start cs (stored_durable st)
    (match vol with ReadVolatile w => Some w | _ => None end)).
Proof.
  intros [Hd Hv]. split; simpl.
  - intros d Ed. apply Hd. by destruct st; simplify_eq/=.
  - intros w Ew. apply Hv. by destruct vol; simplify_eq/=.
Qed.

Lemma run_read_valid cs st vol e :
  reads_valid st vol ->
  let s := run_read cs st vol e in
  reset s = true \/ (records_valid s /\ (readable st = true -> volatiles_valid s)).
Proof.
  intros Hr. cbv zeta.
  assert (Hweak : forall s, reset s = true \/ states_valid s ->
    reset s = true \/ (records_valid s /\ (readable st = true -> volatiles_valid s)))
    by (intros s [?|[? ?]]; auto).
  assert (Hdisc : forall reason s, records_valid (snd (discard reason e s))).
  { intros reason s d. destruct (discard_spec reason e s) as [_ (l & [_ _ -> _])].
    by intros [= <-]. }
  pose proof (fun cs => start_valid st cs vol Hr) as Hs.
  destruct st as [|reason|d], vol as [|text|w]; cbn [run_read readable] in *;
    try (apply Hweak; first [by apply run_dispatch_valid | by apply fail_closed_valid]);
    try (right; split; [apply Hdisc|done]).
  destruct (is_atomic_input e); [|right; split; [apply Hdisc|done]].
  apply Hweak, run_dispatch_valid; by split.
Qed.

(** Deciding validity. *)
Definition durable_validb (d : durable) : bool :=
  String.eqb (durable_owner d) this_owner
  && match d with
     | Durable.Live r => record_consistent r && negb (bool_decide (rec_phase r = Phase.Discarded))
     | Durable.Tombstone _ => true
     end.

Definition volatile_validb (vol : Volatile) : bool :=
  (v vol =? TX_STATE_VERSION)%Z && bool_decide (vol_owner vol = Io.owner host)
  && volatile_consistent vol.

Lemma reads_valid_of s :
  opt_forallb durable_validb (durable_of s) = true ->
  opt_forallb volatile_validb (volatile_of s) = true ->
  reads_valid (stored_of s) (volatile_read_of s).
Proof.
  unfold stored_of, volatile_read_of. intros Hd Hv. split.
  - intros d. destruct (durable_of s) as [d'|]; [|done]. intros [= ->]. simpl in Hd.
    unfold durable_validb in Hd. apply andb_true_iff in Hd as [Ho%String.eqb_eq Hr].
    split; [done|]. destruct d; [done|]. by bools.
  - intros w. destruct (volatile_of s) as [w'|]; [|done]. intros [= ->]. simpl in Hv.
    unfold volatile_validb in Hv. by bools.
Qed.

(** C10: the states a step leaves. A step that starts from a record and a volatile part of its owner
    that are consistent either resets the owner or leaves a record of the same owner that is
    consistent and not in the tombstone's phase, and, when the record could be read, a volatile
    part of the same owner and version that is consistent: the next step does not refuse what
    this one wrote. This holds whether the event is handled, faults in the middle of a handler,
    fails the output checks, or is discarded. *)
Theorem step_leaves_valid_states cs st vol e :
  reads_valid st vol ->
  let s := run_read cs st vol e in
  reset s = true \/ (records_valid s /\ (readable st = true -> volatiles_valid s)).
Proof. apply run_read_valid. Qed.

(** What the readers return is valid. *)
Lemma durable_parse_valid text d : durable_parse text this_owner = inl d -> durable_valid d.
Proof.
  intros Hp. destruct (durable_parse_owner _ _ _ Hp) as [? Hn]. split; [done|].
  unfold durable_parse in Hp. destruct (_ >? _)%Z; [done|]. destruct (from_str_value text); [|done].
  destruct (negb _); [done|]. destruct (read_durable text) as [w|]; [|done].
  destruct (negb _); [done|]. destruct (from_wire w) as [d'|] eqn:Ew; [|done]. injection Hp as ->.
  destruct d as [|r]; [done|]. split; [|done]. revert Ew. unfold from_wire. destruct (negb _); [done|].
  case_bool_decide; [by repeat case_match|]. intros Ew.
  repeat (apply bind_Some in Ew as (? & _ & Ew)).
  destruct (record_consistent _) eqn:Ec; [|done]. by injection Ew as <-.
Qed.

Lemma volatile_parse_valid text bound vol :
  volatile_parse text (Io.owner host) bound = Some vol -> volatile_valid vol.
Proof.
  unfold volatile_parse. destruct (_ >? _)%Z; [done|].
  intros (w & _ & Hw)%bind_Some. case_match eqn:E; [|done]. injection Hw as ->. by bools.
Qed.
End readable.

(** The step that receives the acknowledgement of COMMIT in the example. *)
Lemma step_leaves_valid_states_witness :
  let s := run_read (H6 := world_env 3200) (compiler commit_sent) (stored_of commit_sent)
             (volatile_read_of commit_sent) (Event.Committed (awaited_of commit_sent)) in
  reset s = true
  \/ (records_valid (H6 := world_env 3200) s
      /\ (readable (stored_of commit_sent) = true -> volatiles_valid (H6 := world_env 3200) s)).
Proof.
  refine (step_leaves_valid_states (H6 := world_env 3200) _ (compiler commit_sent)
            (stored_of commit_sent) (volatile_read_of commit_sent)
            (Event.Committed (awaited_of commit_sent)) _); [vm_compute; reflexivity|].
  apply reads_valid_of; vm_compute; reflexivity.
Defined.

(** ** Reading a stored record back *)
Section roundtrip.
Context `{Serde} `{StateSerde}.

(** The generated (de)serializer on one record: it reads what it printed, which is a JSON object
    with the version of the record. *)
Definition serde_roundtrips (w : DurableWire) : Prop :=
  read_durable (print_durable w) = Some w
  /\ exists p, from_str_value (print_durable w) = Some p
       /\ (Value.get "v" p ≫= Value.as_u64) = Some (w_v w).

(** What a stored record must satisfy to be read. *)
Definition storable (d : durable) : Prop :=
  match d with
| Durable.Tombstone owner => owner_name owner = true
| Durable.Live r => record_valid r
  end.

Definition storableb (d : durable) : bool :=
  match d with
| Durable.Tombstone owner => owner_name owner
| Durable.Live r => record_consistent r && negb (bool_decide (rec_phase r = Phase.Discarded))
  end.

Lemma storable_decided d : storableb d = true -> storable d.
Proof. destruct d; simpl; [done|]. intros Hr. by bools. Qed.

Lemma wire_roundtrip d : storable d -> from_wire (to_wire d) = Some d.
Proof.
  destruct d as [o|r]; simpl; unfold from_wire; cbn [to_wire w_owner w_phase].
  - by intros ->.
  - intros [Hc Hp]. assert (Ho : owner_name (rec_owner r) = true).
    { revert Hc. unfold record_consistent. rewrite !andb_true_iff. tauto. }
    rewrite Ho, bool_decide_eq_false_2 by done. simpl. destruct r. simpl in *. by rewrite Hc.
Qed.

(** The durable round trip. A consistent record of at most 96 KiB of text, or a tombstone, is
    read back by its owner as exactly the record that was stored, and by no other owner. *)
Theorem durable_reads_back d :
  storable d -> serde_roundtrips (to_wire d) -> len (durable_to_json d) <= MAX_DURABLE_BYTES ->
  durable_parse (durable_to_json d) (durable_owner d) = inl d
  /\ forall owner, owner <> durable_owner d ->
       durable_parse (durable_to_json d) owner = inr Unreadable.Owner.
Proof.
  intros Hs [Hr (p & Hp & Hv)] Hl. unfold durable_to_json in *.
  assert (Hw : w_owner (to_wire d) = durable_owner d) by by destruct d.
  assert (Hn : w_v (to_wire d) = TX_STATE_VERSION) by by destruct d.
  assert (Hpre : forall owner, durable_parse (print_durable (to_wire d)) owner =
    if negb (String.eqb (durable_owner d) owner) then inr Unreadable.Owner
    else match from_wire (to_wire d) with Some d => inl d | None => inr Unreadable.Inconsistent end).
  { intros owner. unfold durable_parse. rewrite Hp, Hv, Hr, Hn, Hw.
    rewrite bool_decide_eq_true_2 by done.
    destruct (Z.gtb_spec (len (print_durable (to_wire d))) MAX_DURABLE_BYTES); [lia|done]. }
  split; [|intros owner Hne]; rewrite Hpre.
  - by rewrite String.eqb_refl, wire_roundtrip.
  - by rewrite (proj2 (String.eqb_neq _ _)) by congruence.
Qed.
End roundtrip.

(** The record of the example, with a reader of that record. *)
Definition began_durable : durable := default (Durable.Tombstone "") (durable_of began).

Lemma durable_reads_back_witness :
  let H0 := world_states (Some (to_wire began_durable)) None in
  durable_parse (durable_to_json began_durable) (durable_owner began_durable) = inl began_durable
  /\ forall owner, owner <> durable_owner began_durable ->
       durable_parse (durable_to_json began_durable) owner = inr Unreadable.Owner.
Proof.
  apply (durable_reads_back (H0 := world_states (Some (to_wire began_durable)) None)).
  - apply storable_decided. vm_compute. reflexivity.
  - split; [reflexivity|]. eexists. split; vm_compute; reflexivity.
  - apply Z.leb_le. vm_compute. reflexivity.
Defined.
