(* ===== verification/Lanes.v ===== *)
(** * The lane an awaited effect is recorded on

    A step waits for at most one effect. Unless the step abandons, which the engine asks for when
    it dropped the volatile state, that effect is recorded with its id and its kind on the client
    lane or on the callback lane of the volatile part the step returns, so the outcome that answers
    it is the only kind of outcome the next step accepts for that id. *)

From S2P Require Import Prelude F64 SerdeJson Compiler State Volatile Io Canonical Bounds.
From S2P Require Import Identity Machine Checks Commands Interactive.
From S2P Require Import Interactive Atomic Execution Run Frames HandlerFrames.
From S2P Require Import Batches Failing World.

Section lanes.
Context `{Target} `{Serde} `{StateSerde} `{Sha2} `{Compiler} `{AtomicSerde} `{Unicode} `{Env}.

(** What the lanes wait for. *)
Definition lane_pending (vol : Volatile) (p : Pending) : Prop :=
  pending vol = Some p \/ cb_pending <$> callback vol = Some p.

(** Every id in use is below the next one. *)
Definition ids_below (s : St) : Prop :=
  forall vol p, volatile_of s = Some vol -> lane_pending vol p -> pend_id p < next_effect_id vol.

Definition awaited_count (s : St) : nat := length (List.filter Effect.is_awaited (effects s)).

(** The awaited effect and the lane with its id agree on the kind; a batch with two awaited
    effects is refused anyway. *)
Definition kinds_agree (s : St) : Prop :=
  (1 < awaited_count s)%nat
  \/ forall e vol p, e ∈ effects s -> Effect.is_awaited e = true ->
       volatile_of s = Some vol -> lane_pending vol p -> Effect.effect_id e = Some (pend_id p) ->
       Effect.awaits e = Some (pend_effect p).

Definition coherent (s : St) : Prop := ids_below s /\ kinds_agree s.
Definition keeps_coherent (s s' : St) : Prop := coherent s -> coherent s'.

#[export] Instance keeps_coherent_preorder : PreOrder keeps_coherent.
Proof. split; [by intros s Hs|]. intros s1 s2 s3 H12 H23 Hs. by apply H23, H12. Qed.

(** The lanes wait for nothing new. *)
Definition lanes_shrink (vol vol' : Volatile) : Prop :=
  next_effect_id vol' = next_effect_id vol /\ forall p, lane_pending vol' p -> lane_pending vol p.

Lemma coherent_shrink s s' :
  effects s' = effects s ->
  (forall vol', volatile_of s' = Some vol' -> exists vol,
     default fresh_volatile (volatile_of s) = vol /\ lanes_shrink vol vol') ->
  keeps_coherent s s'.
Proof.
  intros He Hv [Hb Hk].
  assert (Hold : forall vol' p, volatile_of s' = Some vol' -> lane_pending vol' p ->
    exists vol, volatile_of s = Some vol /\ next_effect_id vol' = next_effect_id vol /\ lane_pending vol p).
  { intros vol' p Hvol' Hp. destruct (Hv vol' Hvol') as (vol & <- & Hn & Hl). specialize (Hl p Hp).
    destruct (volatile_of s) as [vol|]; [by exists vol|]. by destruct Hl. }
  split.
  - intros vol' p Hvol' Hp. destruct (Hold vol' p Hvol' Hp) as (vol & Ev & -> & Hp'). by apply (Hb vol).
  - unfold kinds_agree, awaited_count in *. rewrite He. destruct Hk as [?|Hk]; [by left|right].
    intros e vol' p Hin Ha Hvol' Hp. destruct (Hold vol' p Hvol' Hp) as (vol & Ev & _ & Hp').
    by apply (Hk e vol p).
Qed.

Lemma coherent_modify f :
  (forall s, effects (f s) = effects s /\ volatile_of (f s) = volatile_of s) ->
  frames keeps_coherent (modify f).
Proof.
  intros Hf. apply frames_modify. intros s. destruct (Hf s) as [He Hv].
  apply coherent_shrink; [done|]. rewrite Hv. intros vol ->. by exists vol.
Qed.

Lemma benign_shrink f vol : benign f -> lanes_shrink vol (f vol).
Proof.
  intros Hf. destruct (Hf vol) as (_ & _ & Hn & Hp & Hc). split; [done|]. intros p [E|E]; [left|right].
  - by destruct Hp as [<-|Hp]; [|congruence].
  - by destruct Hc as [<-|Hc]; [|rewrite Hc in E].
Qed.

Lemma awaited_count_app s e :
  length (List.filter Effect.is_awaited (effects s ++ [e]))
  = (awaited_count s + if Effect.is_awaited e then 1 else 0)%nat.
Proof.
  unfold awaited_count. rewrite List.filter_app, length_app. simpl.
  by destruct (Effect.is_awaited e).
Qed.

Lemma count_zero s e :
  awaited_count s = 0%nat -> e ∈ effects s -> Effect.is_awaited e = true -> False.
Proof.
  unfold awaited_count. intros Hz He Ha.
  assert (Hin : In e (List.filter Effect.is_awaited (effects s)))
    by by apply filter_In; split; [apply list_elem_of_In|].
  by destruct (List.filter _ _).
Qed.

(** One more awaited effect, whose id and kind the lanes record. *)
Lemma coherent_awaited s s' e :
  effects s' = effects s ++ [e] -> Effect.is_awaited e = true -> ids_below s' ->
  (forall vol p, volatile_of s' = Some vol -> lane_pending vol p ->
     Effect.effect_id e = Some (pend_id p) -> Effect.awaits e = Some (pend_effect p)) ->
  coherent s'.
Proof.
  intros He Ha Hb Hk. split; [done|]. unfold kinds_agree, awaited_count. rewrite He, awaited_count_app, Ha.
  destruct (awaited_count s) as [|n] eqn:Ec; [right|left; lia].
  intros e' vol p [Hin|Hin%list_elem_of_singleton]%elem_of_app Ha' Hvol Hp Hid.
  - by destruct (count_zero s e' Ec Hin Ha').
  - subst e'. by apply (Hk vol).
Qed.

Lemma expects_awaited k eff id : expects k eff -> Effect.is_awaited (eff id) = true.
Proof. intros He. destruct (He id) as [_ Ha]. by destruct (eff id). Qed.

(** The volatile part a wait starts from. *)
Lemma ids_below_default s p :
  ids_below s -> lane_pending (default fresh_volatile (volatile_of s)) p ->
  pend_id p < next_effect_id (default fresh_volatile (volatile_of s)).
Proof. intros Hb Hp. destruct (volatile_of s) as [vol|] eqn:Ev; [by apply (Hb vol)|]. by destruct Hp. Qed.

Lemma coherent_wait lane r t eff :
  expects (awaited_by t) eff -> frames keeps_coherent (wait lane r t eff).
Proof.
  intros He s Hs. rewrite wait_spec. destruct (_ <=? _)%Z; simpl.
  - revert Hs. apply coherent_shrink; [done|]. intros vol' [= <-]. eexists. by split.
  - set (vol := default fresh_volatile (volatile_of s)). set (id := next_effect_id vol).
    pose proof (fun p => ids_below_default s p (proj1 Hs)) as Hb. fold vol id in Hb.
    apply (coherent_awaited s _ (eff id)); [done|by eapply expects_awaited| |].
    + intros vol' p [= <-] Hp. simpl. destruct Hp as [[= <-]|Hp]; simpl; [lia|].
      assert (pend_id p < id) by (apply Hb; by right). lia.
    + intros vol' p [= <-] Hp Hid. destruct (He id) as [Ei Ea]. rewrite Ei in Hid. injection Hid as Hid.
      destruct Hp as [[= <-]|Hp]; [done|]. assert (pend_id p < id) by (apply Hb; by right). lia.
Qed.

Lemma wait_callback_spec r h t eff s :
  let vol := default fresh_volatile (volatile_of s) in
  let id := next_effect_id vol in
  wait_callback r h t eff s =
    if (MAX_SAFE_INTEGER <=? id)%Z then (inr "effect_ids"%string, set_volatile (Some vol) s)
    else (inl tt, set_effects (effects s ++ [eff id]) (set_volatile (Some
            (set_v_callback (Some
               {| cb_pending := {| pend_id := id; pend_effect := CallbackTask.awaits t |};
                  cb_request_id := r; cb_token_hash := h; cb_task := t |})
              (set_v_next_id (id + 1) vol))) s)).
Proof.
  simpl. unfold wait_callback, mbind, M_bind, volatile_mut, modify, gets. simpl.
  by destruct (MAX_SAFE_INTEGER <=? _)%Z.
Qed.

Lemma coherent_wait_callback r h t eff :
  expects (CallbackTask.awaits t) eff -> frames keeps_coherent (wait_callback r h t eff).
Proof.
  intros He s Hs. rewrite wait_callback_spec. destruct (_ <=? _)%Z; simpl.
  - revert Hs. apply coherent_shrink; [done|]. intros vol' [= <-]. eexists. by split.
  - set (vol := default fresh_volatile (volatile_of s)). set (id := next_effect_id vol).
    pose proof (fun p => ids_below_default s p (proj1 Hs)) as Hb. fold vol id in Hb.
    apply (coherent_awaited s _ (eff id)); [done|by eapply expects_awaited| |].
    + intros vol' p [= <-] Hp. simpl. destruct Hp as [Hp|[= <-]]; simpl; [|lia].
      assert (pend_id p < id) by (apply Hb; by left). lia.
    + intros vol' p [= <-] Hp Hid. destruct (He id) as [Ei Ea]. rewrite Ei in Hid. injection Hid as Hid.
      destruct Hp as [Hp|[= <-]]; [|done]. assert (pend_id p < id) by (apply Hb; by left). lia.
Qed.

Lemma coherent_push e : quiet e = true -> frames keeps_coherent (push e).
Proof.
  intros Hq s [Hb Hk]. unfold quiet in Hq. apply negb_true_iff in Hq. split; [exact Hb|].
  unfold kinds_agree, awaited_count. cbn [push modify snd set_effects effects].
  rewrite awaited_count_app, Hq, Nat.add_0_r. destruct Hk as [?|Hk]; [by left|right].
  intros e' vol p [Hin|Hin%list_elem_of_singleton]%elem_of_app Ha; [by apply (Hk e' vol p)|congruence].
Qed.

#[export] Instance coherent_base : Base keeps_coherent any.
Proof.
  split.
  - exact _.
  - apply coherent_push.
  - intros lane r t eff He _. by apply coherent_wait.
  - intros r h t eff He _. by apply coherent_wait_callback.
  - intros f Hf s. apply coherent_shrink; [done|]. simpl. intros vol'.
    destruct (volatile_of s) as [vol|]; simpl; [|done]. intros [= <-]. exists vol.
    by split; [|apply benign_shrink].
  - intros f Hf s. apply coherent_shrink; [done|]. simpl. intros vol' [= <-].
    eexists. by split; [|apply benign_shrink].
  - intros s. apply coherent_shrink; [done|]. by intros vol'.
  - intros r. by apply coherent_modify.
  - intros h. by apply coherent_modify.
  - intros auth envelope s. unfold compile_in_compiler. destruct (compile _ _ _) as [cs r].
    exact (coherent_modify (set_compiler cs) (fun _ => conj eq_refl eq_refl) s).
  - intros h. by apply coherent_modify.
  - intros s. unfold release_all, modify. simpl. apply coherent_shrink; [by case_match|].
    destruct (volatile_of s) as [vol|] eqn:Ev; simpl; [|by rewrite Ev].
    intros vol' [= <-]. by exists vol.
  - intros s d _. apply coherent_shrink; [done|]. simpl. intros vol' ->. by exists vol'.
Qed.

#[export] Instance coherent_whole : Whole keeps_coherent.
Proof.
  split; [exact _| |by apply coherent_modify..| |].
  - intros s _ [Hb _]. split; [exact Hb|]. right. simpl. by intros e vol p ?%elem_of_nil.
  - intros s id Hv _. split; [|right]; intros e vol; simpl; congruence.
  - intros s cs r b _ [Hb _]. split; [exact Hb|]. right. simpl. by intros e vol p ?%elem_of_nil.
Qed.

(** A consistent volatile part uses ids below the next one. *)
Lemma consistent_below vol p :
  volatile_consistent vol = true -> lane_pending vol p -> pend_id p < next_effect_id vol.
Proof.
  unfold volatile_consistent. rewrite !andb_true_iff. intros Hc [Hp|Hp].
  - assert (Hb : opt_forallb (fun p => pend_id p <? next_effect_id vol)%Z (pending vol) = true) by tauto.
    rewrite Hp in Hb. simpl in Hb. by bools.
  - assert (Hb : callback_consistent vol = true) by tauto. unfold callback_consistent in Hb.
    destruct (callback vol) as [cb|]; [|done]. injection Hp as <-. simpl in Hb. by bools.
Qed.

Lemma start_coherent cs st vol :
  (forall w, vol = ReadVolatile w -> volatile_consistent w = true) ->
  coherent (begin_step cs st vol).
Proof.
  intros Hv. split; [|right; simpl; by intros e w p ?%elem_of_nil].
  intros w p. simpl. destruct vol as [| |w']; try done. intros [= ->]. apply consistent_below. auto.
Qed.

(** ** Every lane waits for an effect that was sent *)
Section sent.
Variable before : option Volatile.

(** The lane waited for it before the step. *)
Definition waited (p : Pending) : Prop := exists w, before = Some w /\ lane_pending w p.

(** Its effect is in the batch. *)
Definition sent (l : list effect) (p : Pending) : Prop :=
  exists e, e ∈ l /\ Effect.effect_id e = Some (pend_id p) /\ Effect.awaits e = Some (pend_effect p).

Definition lanes_sent (s : St) : Prop :=
  forall vol p, volatile_of s = Some vol -> lane_pending vol p -> waited p \/ sent (effects s) p.
Definition keeps_sent (s s' : St) : Prop := lanes_sent s -> lanes_sent s'.

#[export] Instance keeps_sent_preorder : PreOrder keeps_sent.
Proof. split; [by intros s Hs|]. intros s1 s2 s3 H12 H23 Hs. by apply H23, H12. Qed.

Lemma sent_app l k p : sent l p -> sent (l ++ k) p.
Proof. intros (e & He & ?). exists e. split; [|done]. apply elem_of_app. by left. Qed.

(** The lanes shrink and the batch grows. *)
Lemma sent_shrink s s' :
  (exists l, effects s' = effects s ++ l) ->
  (forall vol', volatile_of s' = Some vol' -> exists vol,
     default fresh_volatile (volatile_of s) = vol /\ forall p, lane_pending vol' p -> lane_pending vol p) ->
  keeps_sent s s'.
Proof.
  intros [l He] Hv Hs vol' p Hvol' Hp. destruct (Hv vol' Hvol') as (vol & <- & Hl). specialize (Hl p Hp).
  destruct (volatile_of s) as [vol|] eqn:Ev; [|by destruct Hl].
  destruct (Hs vol p Ev Hl) as [?|?]; [by left|right]. rewrite He. by apply sent_app.
Qed.

Lemma sent_grow s s' l :
  effects s' = effects s ++ l -> volatile_of s' = volatile_of s -> keeps_sent s s'.
Proof. intros He Hv. apply sent_shrink; [by exists l|]. rewrite Hv. intros vol ->. by exists vol. Qed.

Lemma sent_modify f :
  (forall s, effects (f s) = effects s /\ volatile_of (f s) = volatile_of s) ->
  frames keeps_sent (modify f).
Proof.
  intros Hf. apply frames_modify. intros s. destruct (Hf s) as [He Hv].
  apply (sent_grow _ _ []); [by rewrite app_nil_r|done].
Qed.

(** A wait records the effect it sends. *)
Lemma sent_wait lane r t eff : expects (awaited_by t) eff -> frames keeps_sent (wait lane r t eff).
Proof.
  intros He s Hs. rewrite wait_spec. destruct (_ <=? _)%Z; simpl.
  - revert Hs. apply sent_shrink; [exists []; by rewrite app_nil_r|]. intros vol' [= <-]. by eexists.
  - set (vol := default fresh_volatile (volatile_of s)). set (id := next_effect_id vol).
  intros vol' p [= <-] [[= <-]|Hp]; simpl.
  + right. exists (eff id). destruct (He id) as [? ?]. split; [|done].
      apply elem_of_app. right. by apply list_elem_of_singleton.
  + subst vol. destruct (volatile_of s) as [vol|] eqn:Ev; [|done]. simpl in Hp.
      destruct (Hs vol p Ev (or_intror Hp)) as [?|?]; [by left|right]. by apply sent_app.
Qed.

Lemma sent_wait_callback r h t eff :
  expects (CallbackTask.awaits t) eff -> frames keeps_sent (wait_callback r h t eff).
Proof.
  intros He s Hs. rewrite wait_callback_spec. destruct (_ <=? _)%Z; simpl.
  - revert Hs. apply sent_shrink; [exists []; by rewrite app_nil_r|]. intros vol' [= <-]. by eexists.
  - set (vol := default fresh_volatile (volatile_of s)). set (id := next_effect_id vol).
  intros vol' p [= <-] [Hp|[= <-]]; simpl.
  + subst vol. destruct (volatile_of s) as [vol|] eqn:Ev; [|done]. simpl in Hp.
      destruct (Hs vol p Ev (or_introl Hp)) as [?|?]; [by left|right]. by apply sent_app.
  + right. exists (eff id). destruct (He id) as [? ?]. split; [|done].
      apply elem_of_app. right. by apply list_elem_of_singleton.
Qed.

(** An update of the volatile part alone. *)
Lemma sent_volatile s vol' :
  (forall p, lane_pending vol' p -> lane_pending (default fresh_volatile (volatile_of s)) p) ->
  keeps_sent s (set_volatile (Some vol') s).
Proof.
  intros Hl. apply sent_shrink; [exists []; by rewrite app_nil_r|]. intros w [= <-]. by eexists.
Qed.

#[export] Instance sent_base : Base keeps_sent any.
Proof.
  split.
  - exact _.
  - intros e _ s. by apply (sent_grow _ _ [e]).
  - intros lane r t eff He _. by apply sent_wait.
  - intros r h t eff He _. by apply sent_wait_callback.
  - intros f Hf s. unfold with_volatile. simpl. destruct (volatile_of s) as [vol|] eqn:Ev; simpl.
  + apply sent_volatile. rewrite Ev. simpl. by apply benign_shrink.
  + apply (sent_grow _ _ []); [by rewrite app_nil_r|]. by rewrite Ev.
  - intros f Hf s. apply sent_volatile. by apply benign_shrink.
  - intros s _. by intros vol.
  - intros r. by apply sent_modify.
  - intros h. by apply sent_modify.
  - intros auth envelope s. unfold compile_in_compiler. destruct (compile _ _ _) as [cs r].
  exact (sent_modify (set_compiler cs) (fun _ => conj eq_refl eq_refl) s).
  - intros h. by apply sent_modify.
  - intros s. unfold release_all, modify. simpl. destruct (volatile_of s) as [vol|] eqn:Ev; [|done].
  apply sent_shrink; [exists []; by rewrite app_nil_r|]. intros w [= <-]. exists vol. by rewrite Ev.
  - intros s d _. apply (sent_grow _ _ []); [by rewrite app_nil_r|done].
Qed.

(** Immediate effects are recorded on no lane. *)
Lemma sent_quiet l p : forallb quiet l = true -> ~ sent l p.
Proof.
  intros Hq (e & He & _ & Ha). rewrite forallb_forall in Hq.
  apply list_elem_of_In, Hq in He. by destruct e.
Qed.

Lemma sent_forget s s' :
  forallb quiet (effects s) = true -> volatile_of s' = volatile_of s -> keeps_sent s s'.
Proof.
  intros Hq Hv Hs vol p. rewrite Hv. intros Ev Hp. destruct (Hs vol p Ev Hp) as [?|Hx]; [by left|].
  by apply sent_quiet in Hx.
Qed.

#[export] Instance sent_whole : Whole keeps_sent.
Proof.
  split; [exact _| |by apply sent_modify..| |].
  - intros s Hq. by apply sent_forget.
  - intros s id Hv. by apply (sent_grow _ _ [Effect.Persist id]).
  - intros s cs r b Hq. by apply sent_forget.
Qed.
End sent.

(** The volatile part a step reads. *)
Definition read_part (vol : volatile_read) : option Volatile :=
  match vol with ReadVolatile w => Some w | _ => None end.

Lemma start_sent cs st vol : lanes_sent (read_part vol) (begin_step cs st vol).
Proof. intros w p Ew Hp. left. by exists w. Qed.

(** The effect is recorded with its id and kind on a lane of the returned volatile part. *)
Definition recorded (out : Output) (e : effect) : Prop :=
  exists w p, out_volatile out = Some (volatile_to_json w) /\ lane_pending w p
    /\ Effect.effect_id e = Some (pend_id p) /\ Effect.awaits e = Some (pend_effect p).

Lemma lane_of_id w e :
  Effect.is_awaited e = true ->
  (pend_id <$> pending w = Effect.effect_id e
   \/ (fun cb => pend_id (cb_pending cb)) <$> callback w = Effect.effect_id e) ->
  exists p, lane_pending w p /\ Effect.effect_id e = Some (pend_id p).
Proof.
  intros Ha Hl. destruct (awaited_id e Ha) as [id Hid]. rewrite Hid in *. destruct Hl as [Hl|Hl].
  - destruct (pending w) as [p|] eqn:Ep; [|done]. exists p. split; [by left|]. by rewrite <- Hl.
  - destruct (callback w) as [cb|] eqn:Ec; [|done]. exists (cb_pending cb).
    split; [right; by rewrite Ec|]. by rewrite <- Hl.
Qed.

(** ** Abandoning

    [Abandon] is the one event whose step returns no volatile state with its effect: the engine
    dropped that state, and only the record is stored. *)

Lemma abandon_effects s e :
  e ∈ effects (snd (abandon s)) -> e ∈ effects s \/ exists id, e = Effect.Persist id.
Proof.
  unfold abandon. rewrite at_modify, at_gets, at_release_all, at_gets, at_modify, at_gets. cbv zeta.
  set (s1 := snd (release_all _)). set (id := match volatile_of s1 with Some _ => _ | None => _ end).
  set (s2 := set_volatile None s1).
  assert (He : effects s2 = effects s) by (unfold s2, s1, release_all; simpl; by case_match).
  match goal with |- context [match ?x with Some _ => _ | None => _ end] => destruct x as [p|] end.
  - rewrite at_set_phase. pose proof (set_phase_reads p s2 s2 eq_refl) as (_ & Hp & _).
    rewrite He in Hp. set (s3 := snd (set_phase p s2)) in *. clearbody s3. simpl.
    rewrite Hp, elem_of_app, list_elem_of_singleton. intros [?| ->]; [by left|right].
    by exists id.
  - intros Hin. left. rewrite <- He. exact Hin.
Qed.

(** A step that fails closed waits with a volatile part, or resets. *)
Lemma fail_closed_waits reason e b s :
  let s' := snd (fail_closed reason e b s) in reset s' = true \/ is_Some (volatile_of s').
Proof.
  pose proof (fail_closed_final reason e b s) as Hf. cbv zeta in *.
  destruct (fail_closed_phase _ _); [right|by left]. destruct Hf as [-> _]. by eexists.
Qed.

Lemma run_abandon_effects s e :
  forallb quiet (effects s) = true -> e ∈ effects (run_dispatch Event.Abandon s) ->
  reset (run_dispatch Event.Abandon s) = false -> volatile_of (run_dispatch Event.Abandon s) = None ->
  Effect.is_awaited e = true -> exists id, e = Effect.Persist id.
Proof.
  intros Hq. unfold run_dispatch, checked_dispatch, mbind, M_bind. cbn [dispatch].
  pose proof (abandon_effects s e) as He. destruct (abandon s) as [[[]|f] s']; cbn [snd get] in *;
    [destruct (check_output s') as [f|]; cbn [fault]|];
    try (intros _ Hr Hv; destruct (fail_closed_waits f Event.Abandon false
           (restored s (foldl release_handle (compiler s') (allocated s')) (request_of s') (abandoned s')))
           as [Hx|[w Hw]]; unfold restored in *; congruence).
  intros Hin _ _ Ha. destruct (He Hin) as [Hs|?]; [|done].
  rewrite forallb_forall in Hq. apply list_elem_of_In, Hq in Hs. unfold quiet in Hs. by rewrite Ha in Hs.
Qed.

(** The awaited effect of a step that abandons is the record's. *)
Lemma abandoned_persists cs st vol e eff :
  let s := run_read cs st vol e in
  abandoned s = true -> volatile_of s = None -> reset s = false ->
  eff ∈ effects s -> Effect.is_awaited eff = true ->
  e = Event.Abandon /\ exists id, eff = Effect.Persist id.
Proof.
  intros s Hab Hv Hr Hin Ha. pose proof (run_read_abandoned cs st vol e Hab) as ->. split; [done|].
  assert (Hrun : forall s0, forallb quiet (effects s0) = true -> s = run_dispatch Event.Abandon s0 ->
    exists id, eff = Effect.Persist id).
  { intros s0 Hq Es. rewrite Es in Hin, Hr, Hv. by eapply run_abandon_effects. }
  unfold s in *. clear s.
  destruct st as [|reason|d], vol as [|text|vol]; cbn [run_read is_atomic_input] in *;
    try (eapply Hrun; [|reflexivity]; done);
    try (by rewrite (flag_fail_closed _ _ _ _) in Hab);
    by rewrite (flag_discard _ _ _) in Hab.
Qed.

(** The awaited effect of a step: on a lane of the volatile part it returns, or the effect of an
    abandoned step, which returns none. *)
Lemma step_awaited cs st vol e eff :
  let s := run_read cs st vol e in
  let out := snd (finish_output s) in
  eff ∈ out_effects out -> Effect.is_awaited eff = true ->
  reset s = false /\ eff ∈ effects s
  /\ ((e = Event.Abandon /\ out_volatile out = None /\ exists id, eff = Effect.Persist id)
      \/ exists w, volatile_of s = Some w /\ out_volatile out = Some (volatile_to_json w)
           /\ (pend_id <$> pending w = Effect.effect_id eff
               \/ (fun cb => pend_id (cb_pending cb)) <$> callback w = Effect.effect_id eff)).
Proof.
  intros s out He Ha. pose proof (run_read_settled cs st vol e) as Hs. fold s in Hs.
  destruct (settled_awaited s eff Hs He Ha) as (Hr & Hin & [[Hab Hv]|(w & Ew & Hi & Hl)]);
    split; try done; (split; [done|]).
  - left. destruct (abandoned_persists cs st vol e eff Hab Hv Hr Hin Ha) as [? ?]. split; [done|].
    split; [|done]. unfold out, finish_output. by rewrite Hr, Hv.
  - right. exists w. split; [done|]. split; [by apply finish_volatile|done].
Qed.

(** C9: the effect execution contract. Whatever states, event and compiler a step reads, the
    effects it returns obey the batch rule (at most one awaited effect, and it is the last), and
    the id of the awaited effect is the one a lane of the returned volatile state records as
    pending. Only an [Abandon] event is exempt: its step returns no volatile state, and the one
    effect it may wait for is [Effect.Persist], of the record. *)
Theorem step_effects_contract cs st vol e :
  let out := snd (finish_output (run_read cs st vol e)) in
  batch_rule (out_effects out) = true
  /\ forall eff, eff ∈ out_effects out -> Effect.is_awaited eff = true ->
       (e = Event.Abandon /\ out_volatile out = None /\ exists id, eff = Effect.Persist id)
       \/ awaited_lane out eff.
Proof.
  split.
  - rewrite finish_effects. destruct (run_read_settled cs st vol e) as [[Hr Hq]|(Hr & Hb & _)]; rewrite Hr.
    + by apply batch_rule_reset.
    + by rewrite app_nil_r.
  - intros eff He Ha. destruct (step_awaited cs st vol e eff He Ha) as (_ & _ & [?|(w & _ & ? & ?)]);
      [by left|right]. by exists w.
Qed.

(** C11: the lanes and the effects correspond. From a consistent volatile part, or none, every awaited
    effect a step returns is recorded, with its id and its kind, on the client or the callback lane
    of the volatile part it returns, except the [Effect.Persist] of a step on [Abandon], which
    returns none; and unless the step resets, every lane of the state it leaves waits for an effect
    of this batch or for one it already waited for: no outcome is lost, and no lane waits for an
    effect nobody sent. *)
Theorem lanes_match_effects cs st vol e :
  (forall w, vol = ReadVolatile w -> volatile_consistent w = true) ->
  let s := run_read cs st vol e in
  let out := snd (finish_output s) in
  (forall eff, eff ∈ out_effects out -> Effect.is_awaited eff = true ->
     (e = Event.Abandon /\ out_volatile out = None /\ exists id, eff = Effect.Persist id)
     \/ recorded out eff)
  /\ (reset s = false -> forall w p, volatile_of s = Some w -> lane_pending w p ->
       waited (read_part vol) p \/ sent (out_effects out) p).
Proof.
  intros Hv s out. split.
  - intros eff He Ha. destruct (step_awaited cs st vol e eff He Ha) as (Hr & Hin & [?|(w & Ew & Hw & Hl)]);
      [by left|right]. destruct (lane_of_id w eff Ha Hl) as (p & Hp & Hid). exists w, p.
    split; [done|]. split; [done|]. split; [done|].
    destruct (whole_run_read keeps_coherent cs st vol e (start_coherent cs st vol Hv)) as [_ Hk].
    destruct Hk as [Htwo|Hk]; [|by apply (Hk eff w p)]. exfalso.
    destruct (run_read_settled cs st vol e) as [[? _]|(_ & Hb & _)]; [unfold s in Hr; congruence|].
    unfold batch_rule in Hb. apply negb_true_iff, orb_false_iff in Hb as [Hone _].
    apply Nat.ltb_ge in Hone. unfold awaited_count in Htwo. lia.
  - intros Hr w p Ew Hp. unfold out. rewrite finish_effects, Hr, app_nil_r.
    exact (whole_run_read (keeps_sent (read_part vol)) cs st vol e (start_sent cs st vol) w p Ew Hp).
Qed.
End lanes.

(** The step that sends COMMIT in the example. *)
Lemma lanes_match_effects_witness :
  let s := run_read (H6 := world_env 3102) (compiler committing)
             (stored_of committing) (volatile_read_of committing) (Event.Persisted (awaited_of committing)) in
  let out := snd (finish_output s) in
  (forall eff, eff ∈ out_effects out -> Effect.is_awaited eff = true ->
     (Event.Persisted (awaited_of committing) = Event.Abandon /\ out_volatile out = None
      /\ exists id, eff = Effect.Persist id) \/ recorded out eff)
  /\ (reset s = false -> forall w p, volatile_of s = Some w -> lane_pending w p ->
       waited (read_part (volatile_read_of committing)) p \/ sent (out_effects out) p).
Proof.
  refine (lanes_match_effects (H6 := world_env 3102) (compiler committing) (stored_of committing)
            (volatile_read_of committing)
            (Event.Persisted (awaited_of committing)) _).
  assert (Hb : opt_forallb volatile_consistent (volatile_of committing) = true)
    by (vm_compute; reflexivity).
  intros w. unfold volatile_read_of. destruct (volatile_of committing); [|discriminate].
  intros [= <-]. exact Hb.
Defined.
