(* ===== verification/Canon.v ===== *)
(** * Canonical text identifies a value

    The canonical text of a JSON value depends on the value only up to the order
    of its members, and determines it up to that order: two requests have the
    same canonical text exactly when they are the same request. *)

From Stdlib Require Import Sorting.Sorted Sorting.Permutation.
From S2P Require Import Prelude F64 Utf8 Btree SerdeJson Compiler State Volatile Io Bounds.
From S2P Require Import Canonical Identity World.

(** ** Sorting members *)
Lemma sort_members_by {A} (l : list (string * A)) : sort_members l = sort_by fst l.
Proof.
  unfold sort_members, sort_by. induction l as [|a l IH]; simpl; [done|]. rewrite IH. clear IH.
  generalize (foldr (insert_by fst) [] l). intros k. induction k as [|b k IH]; simpl; [done|].
  unfold key_leb. destruct (String.compare _ _); by rewrite ?IH.
Qed.

Lemma sort_members_map {A B} (f : A -> B) (l : list (string * A)) :
  sort_members (map (fun '(k, a) => (k, f a)) l) = map (fun '(k, a) => (k, f a)) (sort_members l).
Proof.
  unfold sort_members. induction l as [|[k a] l IH]; simpl; [done|]. rewrite IH. clear IH.
  generalize (foldr insert_member [] l). intros m. induction m as [|[k' b] m IH]; simpl; [done|].
  unfold key_leb. simpl. destruct (String.compare _ _); by rewrite ?IH.
Qed.

(** ** Values up to the order of members *)

(** One step of reordering, anywhere in the value. *)
Inductive reorder : json -> json -> Prop :=
| reorder_members l k :
    Permutation l k -> NoDup (map fst l) -> reorder (Json.Object l) (Json.Object k)
| reorder_item l a b k :
    reorder a b -> reorder (Json.Array (l ++ a :: k)) (Json.Array (l ++ b :: k))
| reorder_member l key a b k :
    reorder a b ->
    reorder (Json.Object (l ++ (key, a) :: k)) (Json.Object (l ++ (key, b) :: k)).

(** Induction on a value, its items and its members. *)
Section induction.
Variable P : json -> Prop.
Hypothesis (Hnull : P Json.Null) (Hbool : forall b, P (Json.Bool b))
  (Hnum : forall n, P (Json.Number n)) (Hstr : forall s, P (Json.String s))
  (Harr : forall l, Forall P l -> P (Json.Array l))
  (Hobj : forall ms, Forall (fun m => P (snd m)) ms -> P (Json.Object ms)).

Fixpoint json_nested (j : json) : P j :=
  match j with
| Json.Null => Hnull
| Json.Bool b => Hbool b
| Json.Number n => Hnum n
| Json.String s => Hstr s
| Json.Array l =>
      Harr l ((fix items l : Forall P l :=
                 match l with
                 | [] => Forall_nil_2 _
                 | a :: l => Forall_cons_2 _ _ _ (json_nested a) (items l)
                 end) l)
| Json.Object ms =>
      Hobj ms ((fix members ms : Forall (fun m => P (snd m)) ms :=
                  match ms with
                  | [] => Forall_nil_2 _
                  | m :: ms => Forall_cons_2 _ _ _ (json_nested (snd m)) (members ms)
                  end) ms)
  end.
End induction.

(** The value with its members sorted at every level. *)
Fixpoint normalize (j : json) : json :=
  match j with
  | Json.Array l => Json.Array (map normalize l)
  | Json.Object ms => Json.Object (sort_members (map (fun '(k, a) => (k, normalize a)) ms))
  | _ => j
  end.

(** Numbers that print as plain digits. *)
Definition plain_number (n : number) : Prop :=
  match n with
  | Number.PosInt n => 0 <= n < 2 ^ 64
  | Number.NegInt n => - 2 ^ 63 <= n < 0
  | Number.Float _ => False
  end.

Fixpoint plain (j : json) : Prop :=
  match j with
  | Json.Number n => plain_number n
  | Json.Array l => foldr (fun a p => plain a /\ p) True l
  | Json.Object ms => foldr (fun '(_, a) p => plain a /\ p) True ms
  | _ => True
  end.

(** ** Decoding numbers and strings *)
Definition stops (s : string) : Prop :=
  match s with String c _ => is_digit c = false | EmptyString => True end.

Fixpoint read_num (acc : Z) (s : string) : Z * string :=
  match s with
  | String c s' => if is_digit c then read_num (acc * 10 + (byte_of c - 48)) s' else (acc, s)
  | EmptyString => (acc, s)
  end.

Lemma read_num_stops acc s : stops s -> read_num acc s = (acc, s).
Proof. destruct s as [|c s]; simpl; [done|]. by intros ->. Qed.

Lemma read_dec_loop fuel n acc :
  0 <= n < 10 ^ Z.of_nat fuel -> read_num 0 (dec_loop fuel n acc) = read_num n acc.
Proof.
  revert n acc. induction fuel as [|fuel IH]; intros n acc Hn; [simpl in *; f_equal; lia|].
  cbn [dec_loop]. cbv zeta. pose proof (Z.mod_pos_bound n 10 ltac:(lia)) as Hm.
  assert (Hread : forall a, read_num a (String (char_of (48 + n mod 10)) acc)
                    = read_num (a * 10 + n mod 10) acc).
  { intros a. cbn [read_num]. rewrite digit_char, byte_of_char by lia. f_equal. lia. }
  destruct (Z.ltb_spec n 10).
  - rewrite Hread, Z.mod_small by lia. f_equal. 
  - rewrite IH, Hread by (rewrite Nat2Z.inj_succ, Z.pow_succ_r in Hn by lia;
      split; [apply Z.div_pos; lia|apply Z.div_lt_upper_bound; lia]).
    f_equal. pose proof (Z.div_mod n 10). lia.
Qed.

Lemma read_dec n x : 0 <= n < 2 ^ 64 -> stops x -> read_num 0 (dec n ++ x)%string = (n, x).
Proof.
  intros Hn Hx. rewrite dec_loop_dec, dec_loop_app, append_nil, read_dec_loop.
  - by apply read_num_stops.
  - split; [lia|]. etransitivity; [apply Hn|]. vm_compute. reflexivity.
Qed.

(** One character of an escaped string; [None] at the closing quote. *)
Definition unescape (s : string) : option (ascii * string) :=
  match s with
  | EmptyString => None
  | String c s' =>
      if (byte_of c =? 34)%Z then None
      else if (byte_of c =? 92)%Z then
        match s' with
        | EmptyString => None
        | String d r =>
            if (byte_of d =? 117)%Z then
              match r with
              | String _ (String _ (String x (String y r'))) =>
                  h ← hex_digit x; l ← hex_digit y; Some (char_of (h * 16 + l), r')
              | _ => None
              end
            else
              let b := if (byte_of d =? 98)%Z then 8 else if (byte_of d =? 116)%Z then 9
                       else if (byte_of d =? 110)%Z then 10 else if (byte_of d =? 102)%Z then 12
                       else if (byte_of d =? 114)%Z then 13 else byte_of d in
              Some (char_of b, r)
        end
      else Some (c, s')
  end.

Lemma unescape_byte c u : unescape (escape_byte c ++ u)%string = Some (c, u).
Proof. by destruct c as [[] [] [] [] [] [] [] []]. Qed.

Lemma append_assoc (s t u : string) : ((s ++ t) ++ u)%string = (s ++ (t ++ u))%string.
Proof.
  induction s as [|c s IH]; rewrite ?append_cons, ?append_nil; [done|]. by rewrite IH.
Qed.

Lemma escape_inj s t x y :
  (escape s ++ dquote ++ x)%string = (escape t ++ dquote ++ y)%string -> s = t /\ x = y.
Proof.
  revert t. induction s as [|c s IH]; intros [|d t]; cbn [escape]; rewrite ?append_nil, ?append_assoc.
  - intros E. by injection E.
  - intros E. apply (f_equal unescape) in E. by rewrite unescape_byte in E.
  - intros E. apply (f_equal unescape) in E. by rewrite unescape_byte in E.
  - intros E. apply (f_equal unescape) in E. rewrite !unescape_byte in E.
    injection E as -> E. by destruct (IH t E) as [-> ->].
Qed.

Lemma write_string_inj s t x y :
  (write_string s ++ x)%string = (write_string t ++ y)%string -> s = t /\ x = y.
Proof.
  unfold write_string. rewrite !append_assoc. intros E. injection E as E. by apply escape_inj.
Qed.

Lemma display_stops n x :
  - 2 ^ 63 <= n < 2 ^ 64 -> stops x ->
  (match (display_Z n ++ x)%string with
   | String c s => if (byte_of c =? 45)%Z then let '(m, r) := read_num 0 s in (- m, r)
                   else read_num 0 (String c s)
   | EmptyString => (0, EmptyString)
   end) = (n, x).
Proof.
  intros Hn Hx. unfold display_Z. destruct (Z.ltb_spec n 0).
  - rewrite append_cons. cbn -[read_num dec]. rewrite read_dec by (done || lia). f_equal. lia.
  - pose proof (read_dec n x ltac:(lia) Hx) as Hr.
    destruct (dec n ++ x)%string as [|c s] eqn:E; [done|]. rewrite <- Hr.
    destruct (Z.eqb_spec (byte_of c) 45) as [Hc|]; [|done]. exfalso.
    destruct (dec_head n x) as (d & u & Hd & Hb). rewrite E in Hd. injection Hd as -> _.
    rewrite byte_of_char in Hc by lia. lia.
Qed.

(** ** Decoding lists *)
Section lists.
Context {A : Type} (p : A -> string) (good : A -> Prop) (close : ascii).
Hypothesis close_digit : is_digit close = false.
Hypothesis close_comma : close <> ","%char.
Hypothesis starts : forall a x c r, good a -> (p a ++ x)%string = String c r -> c <> close.
Hypothesis prints : forall a, good a -> p a <> EmptyString.

(** [p] decodes one item. *)
Definition decodes (a : A) : Prop :=
  forall b x y, good a -> good b -> stops x -> stops y ->
    (p a ++ x)%string = (p b ++ y)%string -> a = b /\ x = y.

Lemma commas_cons a l z :
  (commas (map p (a :: l)) ++ z)%string
  = (p a ++ match l with [] => z | _ => String "," (commas (map p l) ++ z) end)%string.
Proof.
  destruct l as [|b l]; [done|]. cbn [map commas]. rewrite append_assoc, append_cons. done.
Qed.

Lemma commas_inj l k x y :
  Forall decodes l -> Forall good l -> Forall good k ->
  (commas (map p l) ++ String close x)%string = (commas (map p k) ++ String close y)%string ->
  l = k /\ x = y.
Proof.
  intros Hd. revert k. induction Hd as [|a l Ha _ IH]; intros [|b k] Hl Hk.
  - cbn [map commas]. rewrite !append_nil. intros E. by injection E.
  - rewrite commas_cons. cbn [map commas]. rewrite append_nil. intros E. symmetry in E.
    by apply starts in E; [|by inversion Hk].
  - rewrite commas_cons. cbn [map commas]. rewrite append_nil. intros E.
    by apply starts in E; [|by inversion Hl].
  - rewrite !commas_cons. inversion Hl as [|? ? Hga Hl']; subst. inversion Hk as [|? ? Hgb Hk']; subst.
    intros E. apply Ha in E as [-> E]; [|done|done|by destruct l|by destruct k].
    destruct l as [|a' l], k as [|b' k]; [by injection E as ->| | |].
    + by injection E.
    + by injection E.
    + injection E as E. by destruct (IH (b' :: k) Hl' Hk' E) as [-> ->].
Qed.
End lists.

Section canon.
Context `{Serde}.

Lemma reorder_text a b : reorder a b -> to_canonical a = to_canonical b.
Proof.
  unfold to_canonical. induction 1 as [l k Hp Hn|l a b k _ IH|l key a b k _ IH]; cbn [write_value].
  - do 3 f_equal. f_equal. rewrite !sort_members_by. apply sort_by_permutation.
    + by apply Permutation_map.
    + rewrite map_map. erewrite map_ext; [exact Hn|]. by intros [? ?].
  - by rewrite !map_app; simpl; rewrite IH.
  - by rewrite !map_app; simpl; rewrite IH.
Qed.

(** The printer on sorted values. *)
Fixpoint print (j : json) : string :=
  match j with
| Json.Array items => ("[" ++ commas (map print items) ++ "]")%string
| Json.Object ms =>
      ("{" ++ commas (map (fun '(k, a) => write_string k ++ ":" ++ print a)%string ms) ++ "}")%string
| _ => write_value j
  end.

Lemma write_value_print j : write_value j = print (normalize j).
Proof.
  induction j as [|b|n|s|l IH|ms IH] using json_nested; try done; cbn [write_value normalize print].
  - do 3 f_equal. rewrite map_map. apply map_ext_in. intros a Ha.
    rewrite Forall_forall in IH. by apply IH, list_elem_of_In.
  - do 3 f_equal. rewrite !sort_members_map, !map_map. apply map_ext_in. intros [k a] Hin. cbn.
    do 2 f_equal. rewrite Forall_forall in IH. apply (IH (k, a)).
    rewrite <- (sort_by_perm fst), <- sort_members_by. by apply list_elem_of_In.
Qed.

(** What kind of value a text starts. *)
Definition head_class (s : string) : nat :=
  match s with
| EmptyString => 0
| String c _ =>
      if is_digit c || (byte_of c =? 45)%Z then 7
      else if (byte_of c =? 110)%Z then 1 else if (byte_of c =? 116)%Z then 2
      else if (byte_of c =? 102)%Z then 3 else if (byte_of c =? 34)%Z then 4
      else if (byte_of c =? 91)%Z then 5 else if (byte_of c =? 123)%Z then 6 else 0
  end.

Definition json_class (j : json) : nat :=
  match j with
| Json.Null => 1 | Json.Bool true => 2 | Json.Bool false => 3 | Json.String _ => 4
| Json.Array _ => 5 | Json.Object _ => 6 | Json.Number _ => 7
  end.

Definition number_value (n : number) : Z :=
  match n with Number.PosInt n | Number.NegInt n => n | Number.Float _ => 0 end.

Lemma write_plain n : plain_number n -> write_number n = display_Z (number_value n).
Proof. by destruct n. Qed.

Lemma plain_range n : plain_number n -> - 2 ^ 63 <= number_value n < 2 ^ 64.
Proof. destruct n; simpl; [|..]; intros; try done; lia. Qed.

Lemma display_class n x : head_class (display_Z n ++ x)%string = 7%nat.
Proof.
  unfold display_Z. destruct (n <? 0)%Z; [done|]. destruct (dec_head n x) as (d & u & -> & Hd).
  unfold head_class. by rewrite digit_char by done.
Qed.

Lemma print_class j x : plain j -> head_class (print j ++ x)%string = json_class j.
Proof.
  destruct j as [|[]|n|s|l|ms]; try done. intros Hn. cbn [print write_value json_class].
  rewrite write_plain by done. apply display_class.
Qed.

Lemma plain_items l : plain (Json.Array l) <-> Forall plain l.
Proof. simpl. induction l as [|a l IH]; simpl; [by split|]. rewrite Forall_cons. tauto. Qed.
Lemma plain_members ms : plain (Json.Object ms) <-> Forall (fun m => plain (snd m)) ms.
Proof.
  simpl. induction ms as [|[k a] ms IH]; simpl; [by split|]. rewrite Forall_cons. simpl. tauto.
Qed.

Definition print_member (m : string * json) : string :=
  (write_string (fst m) ++ ":" ++ print (snd m))%string.

Lemma print_object ms :
  print (Json.Object ms) = ("{" ++ commas (map print_member ms) ++ "}")%string.
Proof. cbn [print]. do 3 f_equal. apply map_ext. by intros [? ?]. Qed.

Lemma member_decodes m :
  decodes print plain (snd m) -> decodes print_member (fun m => plain (snd m)) m.
Proof.
  intros Hd [k b] x y Ha Hb Hx Hy. destruct m as [k' a]. unfold print_member. cbn in *.
  rewrite !append_assoc. intros E. apply write_string_inj in E as [-> E]. injection E as E.
  by destruct (Hd b x y Ha Hb Hx Hy E) as [-> ->].
Qed.

Lemma print_not_close a x c r :
  plain a -> (print a ++ x)%string = String c r -> c <> "]"%char.
Proof.
  intros Ha E ->. pose proof (print_class a x Ha) as Hc. rewrite E in Hc. by destruct a as [|[]| | | |].
Qed.

Lemma print_decodes a : decodes print plain a.
Proof.
  induction a as [|b|n|s|l IH|ms IH] using json_nested; intros b' x y Ha Hb Hx Hy E;
    assert (Hcl : json_class b' = json_class _)
      by (rewrite <- (print_class b' y Hb), <- E; by apply print_class).
  - destruct b' as [|[]| | | |]; try done. by injection E.
  - destruct b' as [|b'| | | |]; try by destruct b. destruct b, b'; try done; by injection E.
  - destruct b' as [|[]|m| | |]; try done. simpl in Ha, Hb. cbn [print write_value] in E.
    rewrite !write_plain in E by done.
    pose proof (display_stops _ x (plain_range n Ha) Hx) as Hn.
    pose proof (display_stops _ y (plain_range m Hb) Hy) as Hm. rewrite E, Hm in Hn.
    injection Hn as Hn ->. split; [|done]. destruct n, m; simpl in *; try done; try lia; congruence.
  - destruct b' as [|[]| | | |]; try done. cbn [print write_value] in E.
    by destruct (write_string_inj _ _ _ _ E) as [-> ->].
  - destruct b' as [|[]| | |k|]; try done. cbn [print] in E. rewrite !append_assoc in E.
    injection E as E. apply plain_items in Ha, Hb.
    destruct (commas_inj print plain "]" eq_refl ltac:(done) print_not_close l k x y IH Ha Hb E)
      as [-> ->]. done.
  - destruct b' as [|[]| | | |k]; try done. rewrite !print_object, !append_assoc in E.
    injection E as E. apply plain_members in Ha, Hb.
    destruct (commas_inj print_member (fun m => plain (snd m)) "}" eq_refl ltac:(done)
      ltac:(intros m z c r _ Em; unfold print_member, write_string in Em; rewrite !append_assoc in Em;
            injection Em as <- _; done) ms k x y) as [-> ->]; try done.
    eapply Forall_impl; [exact IH|]. intros m. apply member_decodes.
Qed.

(** ** Normal forms and reordering *)

(** Every object has distinct member names. *)
Fixpoint distinct (j : json) : Prop :=
  match j with
| Json.Array l => foldr (fun a p => distinct a /\ p) True l
| Json.Object ms => NoDup (map fst ms) /\ foldr (fun '(_, a) p => distinct a /\ p) True ms
| _ => True
  end.

Lemma distinct_items l : distinct (Json.Array l) <-> Forall distinct l.
Proof. simpl. induction l as [|a l IH]; simpl; [by split|]. rewrite Forall_cons. tauto. Qed.
Lemma distinct_members ms :
  distinct (Json.Object ms) <-> NoDup (map fst ms) /\ Forall (fun m => distinct (snd m)) ms.
Proof.
  simpl. enough (foldr (fun '(_, a) p => distinct a /\ p) True ms
                 <-> Forall (fun m => distinct (snd m)) ms) by tauto.
  induction ms as [|[k a] ms IH]; simpl; [by split|]. rewrite Forall_cons. simpl. tauto.
Qed.

Lemma reorder_sym a b : reorder a b -> reorder b a.
Proof.
  induction 1 as [l k Hp Hn|l a b k _ IH|l key a b k _ IH];
    [|by constructor..].
  constructor; [by symmetry|]. by rewrite <- (Permutation_map fst Hp).
Qed.

Lemma reorders_sym a b : rtc reorder a b -> rtc reorder b a.
Proof.
  induction 1 as [a|a b c Hab _ IH]; [done|]. etransitivity; [exact IH|].
  by apply rtc_once, reorder_sym.
Qed.

Lemma reorders_item pre a b l :
  rtc reorder a b -> rtc reorder (Json.Array (pre ++ a :: l)) (Json.Array (pre ++ b :: l)).
Proof. intros Hab. apply (rtc_congruence (R := reorder) (fun a => Json.Array (pre ++ a :: l))); [|done]. by constructor. Qed.

Lemma reorders_member pre key a b l :
  rtc reorder a b ->
  rtc reorder (Json.Object (pre ++ (key, a) :: l)) (Json.Object (pre ++ (key, b) :: l)).
Proof.
  intros Hab. apply (rtc_congruence (R := reorder) (fun a => Json.Object (pre ++ (key, a) :: l))); [|done].
  by constructor.
Qed.

Lemma normalize_items pre l :
  Forall (fun a => rtc reorder a (normalize a)) l ->
  rtc reorder (Json.Array (pre ++ l)) (Json.Array (pre ++ map normalize l)).
Proof.
  intros Hl. revert pre. induction Hl as [|a l Ha _ IH]; intros pre; [done|].
  etransitivity; [by apply reorders_item|]. cbn [map]. rewrite !(cons_middle (normalize a)), !app_assoc.
  apply IH.
Qed.

Lemma normalize_members pre ms :
  Forall (fun m => rtc reorder (snd m) (normalize (snd m))) ms ->
  rtc reorder (Json.Object (pre ++ ms)) (Json.Object (pre ++ map (fun '(k, a) => (k, normalize a)) ms)).
Proof.
  intros Hl. revert pre. induction Hl as [|[k a] ms Ha _ IH]; intros pre; [done|].
  etransitivity; [by apply reorders_member|]. cbn [map].
  rewrite !(cons_middle (k, normalize a)), !app_assoc. apply IH.
Qed.

Lemma normalize_reorders j : distinct j -> rtc reorder j (normalize j).
Proof.
  induction j as [|b|n|s|l IH|ms IH] using json_nested; intros Hd; try done; cbn [normalize].
  - apply distinct_items in Hd. apply (normalize_items []).
    apply Forall_forall. intros a Ha. rewrite Forall_forall in IH, Hd. auto.
  - apply distinct_members in Hd as [Hn Hd].
    etransitivity; [apply (normalize_members [])|].
    + apply Forall_forall. intros m Hm. rewrite Forall_forall in IH, Hd. auto.
    + apply rtc_once. constructor.
      * by rewrite sort_members_by, sort_by_perm.
      * simpl. rewrite map_map. erewrite map_ext; [exact Hn|]. by intros [? ?].
Qed.

Lemma plain_normalize j : plain j -> plain (normalize j).
Proof.
  induction j as [|b|n|s|l IH|ms IH] using json_nested; intros Hp; try done; cbn [normalize].
  - apply plain_items in Hp. apply plain_items, Forall_map, Forall_forall. intros a Ha.
    rewrite Forall_forall in IH, Hp. auto.
  - apply plain_members in Hp. apply plain_members. rewrite sort_members_by, sort_by_perm.
    apply Forall_map, Forall_forall. intros [k a] Hm. cbn.
    rewrite Forall_forall in IH, Hp. apply (IH (k, a) Hm), (Hp (k, a) Hm).
Qed.

Lemma reorders_text a b : rtc reorder a b -> to_canonical a = to_canonical b.
Proof. induction 1 as [c|c d e Hcd _ IH]; [done|]. by rewrite (reorder_text c d). Qed.

(** C31: canonical JSON is canonical. Two values with distinct member names whose numbers are
    integers of a [u64] or an [i64] have the same canonical text exactly when one is the other with
    the members of its objects reordered, at any depth. The fingerprints, digests and replay
    identities of the transactions are hashes of such texts. *)
Theorem canonical_identifies a b :
  plain a -> plain b -> distinct a -> distinct b ->
  to_canonical a = to_canonical b <-> rtc reorder a b.
Proof.
  intros Ha Hb Hda Hdb. split.
  - unfold to_canonical. rewrite !write_value_print. intros E.
    transitivity (normalize a); [by apply normalize_reorders|].
    assert (En : normalize a = normalize b); [|rewrite En; by apply reorders_sym, normalize_reorders].
    apply (f_equal (fun s => s ++ EmptyString)%string) in E.
    by apply (print_decodes (normalize a) (normalize b) EmptyString EmptyString);
      try apply plain_normalize.
  - apply reorders_text.
Qed.
End canon.

(** Two spellings of one request. *)
Definition request_a : json :=
  Json.Object [("sql", Json.String "SELECT"); ("params", Json.Object [("id", Json.Number (Number.PosInt 7))])].
Definition request_b : json :=
  Json.Object [("params", Json.Object [("id", Json.Number (Number.PosInt 7))]); ("sql", Json.String "SELECT")].

Lemma canonical_identifies_witness :
  to_canonical request_a = to_canonical request_b <-> rtc reorder request_a request_b.
Proof.
  apply (canonical_identifies request_a request_b); simpl;
    repeat split; try lia; apply (bool_decide_unpack _); vm_compute; exact I.
Defined.

(** ** What the identities depend on

    Every digest has the shape the stored record requires, the auth fingerprint
    is the hash of exactly the caller and the binding up to the order of their
    members, and the replay identity leaves the snapshot out. *)

(** ** The shape of a digest *)
Lemma hex_char_lower n : 0 <= n < 16 -> is_hex_lower (hex_char n) = true.
Proof.
  intros Hn. unfold hex_char, is_hex_lower, is_digit, in_range.
  destruct (Z.ltb_spec n 10); rewrite byte_of_char by lia; apply orb_true_iff;
    [left|right]; apply andb_true_iff; rewrite !Z.leb_le; lia.
Qed.

Lemma hex_string_hex l :
  Forall (fun b => 0 <= b < 256) l ->
  all_hex (hex_string l) = true /\ len (hex_string l) = 2 * Z.of_nat (length l).
Proof.
  unfold all_hex. induction 1 as [|b l Hb _ [IHh IHl]]; [done|]. cbn [hex_string].
  rewrite str_forallb_app, len_app, IHh, IHl. unfold hex_byte, len at 1. cbn [String.length str_forallb].
  assert (Hs : 0 <= Z.shiftr b 4 < 16)
    by (rewrite Z.shiftr_div_pow2 by lia; split; [apply Z.div_pos; lia|apply Z.div_lt_upper_bound; lia]).
  assert (Ha : 0 <= Z.land b 15 < 16)
    by (change 15 with (Z.ones 4); rewrite Z.land_ones by lia; apply Z.mod_pos_bound; lia).
  rewrite !hex_char_lower by done. split; [done|]. cbn [length]. lia.
Qed.

Section identities.
Context `{Serde} `{Sha2}.

Lemma sha256_hex64 `{!Sha2Laws} s : hex64 (sha256_hex s) = true.
Proof.
  unfold hex64, sha256_hex. destruct (hex_string_hex (sha256_digest s) (digest_bytes s)) as [-> ->].
  by rewrite digest_length.
Qed.

(** Digests. Whatever the caller and the command, the auth fingerprint, the replay identity and
    the command digests are 64 lower-case hexadecimal characters, as the stored record's
    consistency requires of each of them. *)
Theorem digests_hex64 `{!Sha2Laws} auth binding kind command :
  (forall f, identity_auth_fingerprint auth binding = inl f -> hex64 f = true)
  /\ (forall f, replay_identity auth binding = inl f -> hex64 f = true)
  /\ hex64 (command_digest kind command) = true /\ hex64 (callback_digest command) = true.
Proof.
  repeat split; try apply sha256_hex64; intros f.
  - unfold identity_auth_fingerprint. destruct (auth_read _); [|done]. simpl.
    destruct (binding_read _); [|done]. intros [= <-]. apply sha256_hex64.
  - unfold replay_identity. destruct (auth_read _); [|done]. simpl.
    destruct (binding_read _); [|done]. simpl. destruct (without_snapshot _); [|done].
    intros [= <-]. apply sha256_hex64.
Qed.

(** ** The auth fingerprint *)

(** The auth fingerprint. Unless two texts collide under SHA-256, two callers have the same
    fingerprint exactly when their principal, subject, role, session and database binding
    are the same values up to the order of members: [roles] and [access], which [auth] also carries,
    and the spelling of the request are left out. *)
Theorem auth_fingerprint_exact auth binding auth' binding' A A' b b' :
  auth_read (Some auth) = inl A -> binding_read (Some binding) = inl b ->
  auth_read (Some auth') = inl A' -> binding_read (Some binding') = inl b' ->
  plain (auth_value A b) -> distinct (auth_value A b) ->
  plain (auth_value A' b') -> distinct (auth_value A' b') ->
  (sha256_hex (to_canonical (auth_value A b)) = sha256_hex (to_canonical (auth_value A' b')) ->
   to_canonical (auth_value A b) = to_canonical (auth_value A' b')) ->
  identity_auth_fingerprint auth binding = identity_auth_fingerprint auth' binding' <->
  rtc reorder (auth_value A b) (auth_value A' b').
Proof.
  intros HA Hb HA' Hb' Hp Hd Hp' Hd' Hsha. unfold identity_auth_fingerprint.
  rewrite HA, HA'. cbn [rbind]. rewrite Hb, Hb'. cbn [rbind].
  rewrite <- canonical_identifies by done. split; [|by intros ->].
  intros [= E]. auto.
Qed.

(** ** The replay identity *)

(** The binding with another snapshot. *)
Definition set_snapshot (s : string) (parts : list (string * json)) : list (string * json) :=
  map (fun '(k, v) => if String.eqb k "snapshot" then (k, Json.String s) else (k, v)) parts.

Lemma set_snapshot_assoc s parts k :
  assoc k (set_snapshot s parts) =
    if String.eqb k "snapshot" then (fun _ => Json.String s) <$> assoc k parts else assoc k parts.
Proof.
  unfold set_snapshot. generalize "snapshot"%string as sn. intros sn.
  induction parts as [|[k' v] parts IH]; simpl; [by destruct (String.eqb k sn)|].
  destruct (String.eqb_spec k' sn) as [->|Hk']; simpl.
  - destruct (String.eqb_spec sn k) as [<-|Hk]; [by rewrite String.eqb_refl|]. rewrite IH.
    by destruct (String.eqb_spec k sn); [congruence|].
  - destruct (String.eqb_spec k' k) as [->|Hk]; [|exact IH].
    by rewrite (proj2 (String.eqb_neq _ _) Hk').
Qed.

Lemma set_snapshot_without s parts :
  without_snapshot (Json.Object (set_snapshot s parts)) = without_snapshot (Json.Object parts).
Proof.
  unfold set_snapshot, without_snapshot. do 2 f_equal. generalize "snapshot"%string as sn. intros sn.
  induction parts as [|[k v] parts IH]; simpl; [done|].
  destruct (String.eqb k sn) eqn:Ek; simpl; rewrite Ek; simpl; [done|]. by rewrite IH.
Qed.

Lemma set_snapshot_keys s parts r o :
  exact_keys (Json.Object (set_snapshot s parts)) r o = exact_keys (Json.Object parts) r o.
Proof.
  unfold exact_keys. f_equal. f_equal.
  - unfold set_snapshot. generalize "snapshot"%string as sn. intros sn.
    induction parts as [|[k v] parts IH]; simpl; [done|]. destruct (String.eqb k sn); by rewrite IH.
  - induction r as [|k r IH]; [done|]. cbn [forallb]. rewrite IH. f_equal.
    cbn [Json.get]. rewrite set_snapshot_assoc.
    destruct (String.eqb k "snapshot"); [|done]. apply bool_decide_ext. by rewrite fmap_is_Some.
Qed.

Lemma set_snapshot_read s parts :
  binding_read (Some (Json.Object parts)) = inl (Json.Object parts) ->
  binding_read (Some (Json.Object (set_snapshot s parts))) = inl (Json.Object (set_snapshot s parts)).
Proof.
  unfold binding_read, or_internal. cbn [rbind]. rewrite set_snapshot_keys.
  destruct (exact_keys _ _ _) as [[]|]; [|done]. cbn [rbind Json.get].
  rewrite !set_snapshot_assoc. cbn [String.eqb Ascii.eqb eqb].
  destruct (ensure _) as [[]|]; [|done]. cbn [rbind].
  assert (Hparts : forall ps qs, (forallb (fun part => is_string (assoc part ps))
      ["scope"; "databaseId"; "generation"; "snapshot"]%string = true ->
    forallb (fun part => is_string (assoc part qs))
      ["scope"; "databaseId"; "generation"; "snapshot"]%string = true) ->
    forall x y : json,
    rbind (ensure (forallb (fun part => is_string (assoc part ps))
       ["scope"; "databaseId"; "generation"; "snapshot"]%string)) (fun _ => inl x) = inl x ->
    rbind (ensure (forallb (fun part => is_string (assoc part qs))
       ["scope"; "databaseId"; "generation"; "snapshot"]%string)) (fun _ => inl y) = inl y).
  { intros ps qs Himp x y. destruct (forallb _ _) eqn:E; [|done]. by rewrite Himp. }
  apply Hparts. simpl. rewrite !set_snapshot_assoc. cbn [String.eqb Ascii.eqb eqb].
  rewrite !andb_true_iff. intros (? & ? & ? & Hs & _). repeat split; try done.
  by destruct (assoc "snapshot" parts).
Qed.

(** The replay identity. A caller's replay identity does not depend on the snapshot of the
    database binding, so a command can be retried after the policy changed; every other part of
    the binding stays in it. *)
Theorem replay_identity_ignores_snapshot auth parts s :
  binding_read (Some (Json.Object parts)) = inl (Json.Object parts) ->
  replay_identity auth (Json.Object (set_snapshot s parts)) = replay_identity auth (Json.Object parts).
Proof.
  intros Hb. unfold replay_identity. destruct (auth_read _); [|done]. cbn [rbind].
  rewrite Hb, (set_snapshot_read s) by done. cbn [rbind]. by rewrite set_snapshot_without.
Qed.
End identities.

(** One caller, spelled twice. *)
Definition caller_a : json :=
  Json.Object [("principal", Json.String "user"); ("role", Json.String "member");
               ("session", Json.Object [("org", Json.String "o1"); ("tenant", Json.String "t1")]);
               ("subject", Json.String "u1")].
Definition caller_b : json :=
  Json.Object [("subject", Json.String "u1"); ("roles", Json.Array [Json.String "member"]);
               ("session", Json.Object [("tenant", Json.String "t1"); ("org", Json.String "o1")]);
               ("role", Json.String "member"); ("principal", Json.String "user")].
Definition session_a : json := Json.Object [("org", Json.String "o1"); ("tenant", Json.String "t1")].
Definition session_b : json := Json.Object [("tenant", Json.String "t1"); ("org", Json.String "o1")].
Definition caller_auth (session : json) : Auth :=
  {| principal := Json.String "user"; subject := Json.String "u1"; role := Json.String "member";
     session := session |}.
Definition binding_parts : list (string * json) :=
  [("version", Json.Number (Number.PosInt 1)); ("scope", Json.String "tenant");
   ("databaseId", Json.String "db1"); ("generation", Json.String "g1");
   ("snapshot", Json.String "snap1")]%string.

Lemma digests_hex64_witness :
  (forall f, identity_auth_fingerprint caller_a (Json.Object binding_parts) = inl f -> hex64 f = true)
  /\ (forall f, replay_identity caller_a (Json.Object binding_parts) = inl f -> hex64 f = true)
  /\ hex64 (command_digest "commit" (Json.Object [])) = true
  /\ hex64 (callback_digest (Json.Object [])) = true.
Proof. apply (digests_hex64 caller_a (Json.Object binding_parts) "commit" (Json.Object [])). Defined.

Lemma auth_fingerprint_exact_witness :
  identity_auth_fingerprint caller_a (Json.Object binding_parts)
    = identity_auth_fingerprint caller_b (Json.Object binding_parts) <->
  rtc reorder (auth_value (caller_auth session_a) (Json.Object binding_parts))
    (auth_value (caller_auth session_b) (Json.Object binding_parts)).
Proof.
  apply (auth_fingerprint_exact caller_a (Json.Object binding_parts) caller_b
           (Json.Object binding_parts)); try (vm_compute; reflexivity).
  1, 3: simpl; lia.
  all: simpl; repeat split; apply (bool_decide_unpack _); vm_compute; exact I.
Defined.

Lemma replay_identity_ignores_snapshot_witness :
  replay_identity caller_a (Json.Object (set_snapshot "snap2" binding_parts))
  = replay_identity caller_a (Json.Object binding_parts).
Proof.
  apply (replay_identity_ignores_snapshot caller_a binding_parts "snap2"). vm_compute. reflexivity.
Defined.

(** The snapshot is part of the fingerprint but not of the replay identity. *)
Example snapshot_changes_fingerprint :
  identity_auth_fingerprint caller_a (Json.Object (set_snapshot "snap2" binding_parts))
  <> identity_auth_fingerprint caller_a (Json.Object binding_parts).
Proof. vm_compute. discriminate. Qed.

(** ** Timestamps are correct

    [civil_from_days] is the inverse of counting days in the proleptic
    Gregorian calendar, and [iso_from_ms] writes 24 characters from which the
    milliseconds are read back. *)

(** ** The calendar *)
Definition leap (y : Z) : bool :=
  (y mod 4 =? 0)%Z && (negb (y mod 100 =? 0)%Z || (y mod 400 =? 0)%Z).

(** Days of a month. *)
Definition month_days (y m : Z) : Z :=
  if (m =? 2)%Z then (if leap y then 29 else 28)
  else if (m =? 4)%Z || (m =? 6)%Z || (m =? 9)%Z || (m =? 11)%Z then 30 else 31.

(** Days of the year before month [m], in a year that is not leap. *)
Definition month_start (m : Z) : Z :=
  nth (Z.to_nat (m - 1)) [0; 31; 59; 90; 120; 151; 181; 212; 243; 273; 304; 334] 0.

(** Days from 1970-01-01 to a date. *)
Definition day_number (y m d : Z) : Z :=
  365 * (y - 1970) + ((y - 1) / 4 - 492) - ((y - 1) / 100 - 19) + ((y - 1) / 400 - 4)
  + month_start m + (if (2 <? m)%Z && leap y then 1 else 0) + (d - 1).

(** The calendar of an era of 400 years, from March. *)
Definition year_start (k : Z) : Z := 365 * k + k / 4 - k / 100.

Definition year_of_era (doe : Z) : Z :=
  (doe - doe / 1460 + doe / 36524 - doe / 146096) / 365.

Lemma year_of_era_spec doe :
  0 <= doe < 146097 ->
  0 <= year_of_era doe < 400
  /\ year_start (year_of_era doe) <= doe
  /\ doe - year_start (year_of_era doe) < 365 + (if leap (year_of_era doe + 1) then 1 else 0).
Proof.
  intros Hd. unfold year_of_era, year_start.
  set (k := (doe - doe / 1460 + doe / 36524 - doe / 146096) / 365).
  assert (Hk : 0 <= k < 400 /\ 365 * k + k / 4 - k / 100 <= doe).
  { subst k. zlia. }
  split; [lia|]. split; [lia|]. unfold leap. subst k. Z.to_euclidean_division_equations.
  repeat case_match; bools; try lia.
Qed.

Lemma leap_era y era : leap (y + 400 * era) = leap y.
Proof.
  unfold leap. replace ((y + 400 * era) mod 4) with (y mod 4)
    by (zlia).
  replace ((y + 400 * era) mod 100) with (y mod 100) by (zlia).
  replace ((y + 400 * era) mod 400) with (y mod 400) by (zlia).
  done.
Qed.

(** Leap years before a year. *)
Definition leaps (y : Z) : Z := y / 4 - y / 100 + y / 400.

Lemma leaps_step y : leaps (y - 1) + (if leap y then 1 else 0) = leaps y.
Proof.
  unfold leaps, leap. Z.to_euclidean_division_equations. repeat case_match; bools; try lia.
Qed.

Lemma leaps_era y era : 0 <= y < 400 -> leaps (y + 400 * era) = y / 4 - y / 100 + 97 * era.
Proof. unfold leaps. intros Hy. zlia. Qed.

(** Evaluates the constants of one month. *)
Ltac month_constants :=
  repeat match goal with
  | |- context [(153 * ?c + 2) / 5] =>
      let v := eval vm_compute in ((153 * c + 2) / 5) in change ((153 * c + 2) / 5) with v
  | |- context [if (?c <? 10)%Z then ?c + 3 else ?c - 9] =>
      let v := eval vm_compute in (if (c <? 10)%Z then c + 3 else c - 9) in
      change (if (c <? 10)%Z then c + 3 else c - 9) with v
  | |- context [month_start ?m] =>
      let v := eval vm_compute in (month_start m) in change (month_start m) with v
  | |- context [(2 <? ?m)%Z] => let v := eval vm_compute in (2 <? m)%Z in change (2 <? m)%Z with v
  end; cbv iota.

(** The month and the day of a day of a year that starts in March. *)
Lemma month_of_year doy :
  0 <= doy < 366 ->
  let mp := (5 * doy + 2) / 153 in
  let day := doy - (153 * mp + 2) / 5 + 1 in
  let month := if (mp <? 10)%Z then mp + 3 else mp - 9 in
  1 <= month <= 12 /\ 1 <= day
  /\ (month = 2 -> day <= 29 /\ (doy < 365 -> day <= 28))
  /\ (month <> 2 -> forall y, day <= month_days y month)
  /\ month_start month + day - 1 = (if (2 <? month)%Z then doy + 59 else doy - 306).
Proof.
  intros Hd mp day month.
  assert (Hmp : 0 <= mp <= 11) by (subst mp; zlia).
  assert (Hday : 153 * mp <= 5 * doy + 2 < 153 * mp + 153)
    by (subst mp; zlia).
  assert (Hcases : mp = 0 \/ mp = 1 \/ mp = 2 \/ mp = 3 \/ mp = 4 \/ mp = 5 \/ mp = 6 \/ mp = 7
    \/ mp = 8 \/ mp = 9 \/ mp = 10 \/ mp = 11) by lia.
  subst month day. clearbody mp.
  repeat destruct Hcases as [->|Hcases]; [..|subst mp]; month_constants;
    unfold month_days; repeat split; intros; try lia; simpl; lia.
Qed.

Lemma civil_from_days_date days :
  let '(year, month, day) := civil_from_days days in
  1 <= month <= 12 /\ 1 <= day <= month_days year month /\ day_number year month day = days.
Proof.
  unfold civil_from_days. set (z := days + 719468). set (era := z / 146097).
  set (doe := z - era * 146097).
  assert (Hdoe : 0 <= doe < 146097) by (subst doe era; zlia).
  fold (year_of_era doe). pose proof (year_of_era_spec doe Hdoe) as (Hyoe & Hlo & Hhi).
  set (yoe := year_of_era doe) in *. clearbody yoe.
  set (doy := doe - (365 * yoe + yoe / 4 - yoe / 100)).
  assert (Hdoy : 0 <= doy < 365 + (if leap (yoe + 1) then 1 else 0)) by (unfold year_start in *; lia).
  assert (Hb : 0 <= doy < 366) by (destruct (leap (yoe + 1)); lia).
  pose proof (month_of_year doy Hb) as Hm. cbv zeta in Hm.
  set (mp := (5 * doy + 2) / 153) in *.
  set (day := doy - (153 * mp + 2) / 5 + 1) in *.
  set (month := if (mp <? 10)%Z then mp + 3 else mp - 9) in *.
  destruct Hm as (Hmonth & Hday & Hfeb & Hother & Hsum).
  set (year := yoe + era * 400 + (if (month <=? 2)%Z then 1 else 0)).
  split; [done|]. split.
  - split; [done|]. destruct (Z.eq_dec month 2) as [E|E]; [|by apply Hother].
    unfold month_days. rewrite E. simpl. unfold year. rewrite E. simpl.
    replace (yoe + era * 400 + 1) with (yoe + 1 + 400 * era) by lia. rewrite leap_era.
    destruct (Hfeb E) as [? ?]. destruct (leap (yoe + 1)); lia.
  - unfold day_number. pose proof (leaps_step year) as Hstep.
    pose proof (leaps_era yoe era Hyoe) as Hera. unfold leaps in *.
    unfold year in *. destruct (Z.leb_spec month 2) as [Hle|Hgt].
    + rewrite (proj2 (Z.ltb_ge 2 month)) in * by lia. cbn [andb].
      replace (yoe + era * 400 + 1 - 1) with (yoe + 400 * era) by lia.
      subst doe z. lia.
    + rewrite (proj2 (Z.ltb_lt 2 month)) in * by lia. cbn [andb].
      replace (yoe + era * 400 + 0) with (yoe + 400 * era) in * by lia.
      subst doe z. lia.
Qed.

(** The calendar. For every day of every year, [civil_from_days] returns an existing date of the
    proleptic Gregorian calendar, and it is that many days after 1970-01-01. *)
Theorem civil_from_days_correct days :
  let '(year, month, day) := civil_from_days days in
  1 <= month <= 12 /\ 1 <= day <= month_days year month /\ day_number year month day = days.
Proof. apply civil_from_days_date. Qed.

(** ** The text *)

(** Reads a number and the character after it. *)
Definition read_part (s : string) : Z * string :=
  let '(n, rest) := read_num 0 s in (n, match rest with String _ rest => rest | _ => rest end).

(** The milliseconds of a timestamp. *)
Definition parse_iso (s : string) : Z :=
  let '(year, s) := read_part s in
  let '(month, s) := read_part s in
  let '(day, s) := read_part s in
  let '(hour, s) := read_part s in
  let '(minute, s) := read_part s in
  let '(second, s) := read_part s in
  let '(millis, _) := read_part s in
  (((day_number year month day * 24 + hour) * 60 + minute) * 60 + second) * 1000 + millis.

Lemma len_dec_loop fuel n acc k :
  0 <= n < 10 ^ Z.of_nat (S k) ->
  (String.length (dec_loop fuel n acc) <= String.length acc + S k)%nat.
Proof.
  revert n acc k. induction fuel as [|fuel IH]; intros n acc k Hn; [simpl; lia|].
  cbn [dec_loop]. cbv zeta. destruct (Z.ltb_spec n 10); [simpl; lia|].
  destruct k as [|k]; [simpl in *; lia|].
  etransitivity; [apply (IH _ _ k)|cbn [String.length]; lia].
  rewrite Nat2Z.inj_succ, Z.pow_succ_r in Hn by lia.
  split; [apply Z.div_pos; lia|apply Z.div_lt_upper_bound; lia].
Qed.

Lemma len_dec n k : 0 <= n < 10 ^ Z.of_nat (S k) -> (String.length (dec n) <= S k)%nat.
Proof. intros Hn. rewrite dec_loop_dec. by apply (len_dec_loop 20 n EmptyString k). Qed.

Lemma zeros_length k : String.length (String.string_of_list_ascii (replicate k "0"%char)) = k.
Proof. induction k as [|k IH]; simpl; [done|]. by rewrite IH. Qed.

Lemma padded_length k n : 0 <= n < 10 ^ Z.of_nat (S k) -> String.length (padded (S k) n) = S k.
Proof.
  intros Hn. unfold padded. rewrite string_length_app, zeros_length.
  pose proof (len_dec n k Hn). lia.
Qed.

Lemma read_zeros k s :
  read_num 0 (String.string_of_list_ascii (replicate k "0"%char) ++ s) = read_num 0 s.
Proof. induction k as [|k IH]; [done|]. exact IH. Qed.

Lemma read_padded k n c rest :
  0 <= n < 2 ^ 64 -> is_digit c = false ->
  read_part (padded k n ++ String c rest) = (n, rest).
Proof.
  intros Hn Hc. unfold read_part, padded. rewrite append_assoc, read_zeros.
  by rewrite (read_dec n (String c rest)).
Qed.

Lemma month_start_bounds m : 1 <= m <= 12 -> 0 <= month_start m <= 334.
Proof.
  intros Hm. assert (Hc : m = 1 \/ m = 2 \/ m = 3 \/ m = 4 \/ m = 5 \/ m = 6 \/ m = 7 \/ m = 8 \/ m = 9
    \/ m = 10 \/ m = 11 \/ m = 12) by lia.
  repeat destruct Hc as [->|Hc]; [..|subst m]; unfold month_start; simpl; lia.
Qed.

(** The last day of the year 9999 is day 2932896. *)
Lemma year_bounds y m d :
  1 <= m <= 12 -> 1 <= d <= month_days y m -> 0 <= day_number y m d <= 2932896 -> 0 <= y < 10000.
Proof.
  intros Hm Hd. pose proof (month_start_bounds m Hm) as Hs. unfold day_number.
  assert (Hd31 : d <= 31) by (unfold month_days in Hd; repeat case_match; lia).
  set (b := if (2 <? m)%Z && leap y then 1 else 0).
  assert (0 <= b <= 1) by (subst b; case_match; lia). clearbody b.
  intros Hn. zlia.
Qed.

(** The public timestamps. For every time the machine accepts, and up to the end of the year
    9999, the text is 24 characters long and reading its date in the Gregorian calendar and its
    time of day gives the milliseconds back; so distinct times have distinct texts. *)
Theorem iso_roundtrip ms :
  0 <= ms <= 253402300799999 ->
  String.length (iso_from_ms ms) = 24%nat /\ parse_iso (iso_from_ms ms) = ms.
Proof.
  intros Hms. unfold iso_from_ms. set (days := ms / 1000 / 86400).
  pose proof (civil_from_days_date days) as Hc.
  destruct (civil_from_days days) as [[year month] day]. destruct Hc as (Hm & Hd & Hn).
  assert (Hdays : 0 <= days <= 2932896) by (subst days; zlia).
  assert (Hy : 0 <= year < 10000) by (by apply (year_bounds year month day); [..|rewrite Hn]).
  assert (Hd31 : day <= 31) by (unfold month_days in Hd; repeat case_match; lia).
  set (hour := (ms / 1000 / 3600) mod 24). set (minute := (ms / 1000 / 60) mod 60).
  set (second := (ms / 1000) mod 60). set (millis := ms mod 1000).
  assert (Hh : 0 <= hour < 24) by (apply Z.mod_pos_bound; lia).
  assert (Hmi : 0 <= minute < 60) by (apply Z.mod_pos_bound; lia).
  assert (Hse : 0 <= second < 60) by (apply Z.mod_pos_bound; lia).
  assert (Hml : 0 <= millis < 1000) by (apply Z.mod_pos_bound; lia).
  split.
  - rewrite !string_length_app, !padded_length by (simpl; lia). reflexivity.
  - unfold parse_iso. rewrite !append_cons, !append_nil.
    repeat (rewrite read_padded by (lia || done)).
    rewrite Hn. subst days hour minute second millis. zlia.
Qed.

Lemma iso_roundtrip_witness :
  String.length (iso_from_ms 1700000000123) = 24%nat
  /\ parse_iso (iso_from_ms 1700000000123) = 1700000000123.
Proof. apply (iso_roundtrip 1700000000123). lia. Defined.
