(* ===== verification/StrictFacts.v ===== *)
(** * The strict check accepts exactly what the parser accepts

    The counting visitor of [strict.rs] and the parsing visitor of
    [canonical.rs] walk the same events. The check succeeds exactly when the
    parser does and the body holds no more values than the limit, and what the
    parser returns is in canonical form. *)

From Stdlib Require Import Sorting.Sorted Sorting.Permutation.
From S2P Require Import Prelude F64 SerdeJson Compiler State Volatile Io Canonical Btree.
From S2P Require Import Canon World.

Scheme stream_mut := Induction for Stream Sort Prop
  with seq_mut := Induction for SeqAccess Sort Prop
  with map_mut := Induction for MapAccess Sort Prop.

Combined Scheme stream_ind3 from stream_mut, seq_mut, map_mut.

(** Values and member names, as the check counts them. *)
Fixpoint json_values (j : json) : Z :=
  match j with
  | Json.Array l => 1 + foldr (fun a n => json_values a + n) 0 l
  | Json.Object ms => 1 + foldr (fun '(_, a) n => 1 + json_values a + n) 0 ms
  | _ => 1
  end.

Definition items_values (l : list json) : Z := foldr (fun a n => json_values a + n) 0 l.
Definition members_values (ms : list (string * json)) : Z :=
  foldr (fun '(_, a) n => 1 + json_values a + n) 0 ms.

Lemma json_values_pos j : 1 <= json_values j.
Proof.
  induction j as [|b|n|s|l IH|ms IH] using json_nested; simpl; try lia.
  - enough (0 <= foldr (fun a n => json_values a + n) 0 l) by lia.
    induction IH as [|a l Ha _ IHl]; simpl; lia.
  - enough (0 <= foldr (fun '(_, a) n => 1 + json_values a + n) 0 ms) by lia.
    induction IH as [|[k a] l Ha _ IHl]; simpl in *; lia.
Qed.

Lemma items_values_nonneg l : 0 <= items_values l.
Proof.
  unfold items_values. induction l as [|a l IH]; simpl; [lia|]. pose proof (json_values_pos a). lia.
Qed.

Lemma members_values_nonneg ms : 0 <= members_values ms.
Proof.
  unfold members_values. induction ms as [|[k a] l IH]; simpl; [lia|].
  pose proof (json_values_pos a). lia.
Qed.

Lemma members_values_perm l k : Permutation l k -> members_values l = members_values k.
Proof.
  unfold members_values. induction 1 as [|[? ?] l k _ IH|[? ?] [? ?] l|l k m _ IH1 _ IH2]; simpl; lia.
Qed.

(** Equal neighbours of a sorted list are its duplicates. *)
Lemma neighbours_sorted {A} (l : list (string * A)) :
  StronglySorted (key_le fst) l ->
  distinct_neighbours l = true <-> StronglySorted (key_lt fst) l.
Proof.
  unfold distinct_neighbours. induction l as [|a l IH]; intros Hs; [split; [constructor|done]|].
  apply StronglySorted_inv in Hs as [Hs Ha]. specialize (IH Hs).
  destruct l as [|b l]; [split; [repeat constructor|done]|].
  cbn [windows2]. rewrite andb_true_iff, IH, negb_true_iff, String.eqb_neq.
  assert (Hb : key_le fst a b) by by inversion Ha. split.
  - intros [Hne Hl]. constructor; [done|].
    assert (Hab : key_lt fst a b) by by apply sle_cases in Hb as [?|?].
    constructor; [done|]. apply StronglySorted_inv in Hl as [_ Hl].
    eapply Forall_impl; [exact Hl|]. intros c. by apply slt_trans.
  - intros Hl. apply StronglySorted_inv in Hl as [Hl Hab]. split; [|done].
    inversion Hab as [|? ? Hlt]; subst. by apply slt_not_eq.
Qed.

Lemma NoDup_sorted {A} (l : list (string * A)) :
  StronglySorted (key_le fst) l -> NoDup (map fst l) -> StronglySorted (key_lt fst) l.
Proof.
  induction l as [|a l IH]; intros Hs Hn; [constructor|].
  apply StronglySorted_inv in Hs as [Hs Ha]. apply NoDup_cons in Hn as [Hna Hn].
  constructor; [by apply IH|]. rewrite Forall_forall in Ha |- *. intros b Hb.
  destruct (proj1 (sle_cases _ _) (Ha b Hb)) as [?|E]; [done|]. exfalso. apply Hna. rewrite E.
  by apply list_elem_of_fmap_2.
Qed.

Lemma distinct_neighbours_NoDup {A} (l : list (string * A)) :
  distinct_neighbours (sort_members l) = true <-> NoDup (map fst l).
Proof.
  rewrite sort_members_by, neighbours_sorted by apply sort_by_sorted. split.
  - intros Hs. apply strict_NoDup in Hs. by rewrite sort_by_perm in Hs.
  - intros Hn. apply NoDup_sorted; [apply sort_by_sorted|]. by rewrite sort_by_perm.
Qed.

(** ** The two visitors *)
Section visitors.
Context `{Target} `{Serde}.
Variable max_values : option Z.
Variable max_depth : nat.

(** The deserializer yields finite doubles. *)
Fixpoint finite_stream (s : Stream) : Prop :=
  match s with
| SF64 f => F64.is_finite f = true
| SSeq items => finite_seq items
| SMap entries => finite_map entries
| _ => True
  end
with finite_seq (s : SeqAccess) : Prop :=
  match s with SeqNext item rest => finite_stream item /\ finite_seq rest | _ => True end
with finite_map (s : MapAccess) : Prop :=
  match s with MapNext _ item rest => finite_stream item /\ finite_map rest | _ => True end.

Definition within (n : Z) : Prop := match max_values with Some max => n <= max | None => True end.

Lemma within_mono a b : a <= b -> within b -> within a.
Proof. unfold within. destruct max_values; [lia|done]. Qed.

(** The count after [n] more values. *)
Definition counted (values n values' : Z) : Prop := values' = sat_add usize_max values n /\ within values'.

Lemma count_iff values values' : count max_values values = inl values' <-> counted values 1 values'.
Proof.
  unfold count, counted, within. destruct max_values as [max|]; simpl.
  - rewrite Z.gtb_ltb. destruct (Z.ltb_spec max (sat_add usize_max values 1)).
    + split; [done|]. intros [-> ?]. lia.
    + split; [intros [= <-]; done|by intros [-> _]].
  - split; [by intros [= <-]|by intros [-> _]].
Qed.

(** Counting in two parts. *)
Lemma counted_split values a b values' :
  0 <= a -> 0 <= b ->
  (exists v1, counted values a v1 /\ counted v1 b values') <-> counted values (a + b) values'.
Proof.
  intros Ha Hb. unfold counted, sat_add. split.
  - intros (v1 & [-> _] & [-> ?]). split; [lia|done].
  - intros [-> Hw]. exists (Z.min (values + a) usize_max). repeat split; [|lia|done].
    eapply within_mono; [|exact Hw]. lia.
Qed.

Definition value_spec (s : Stream) : Prop :=
  finite_stream s -> forall depth values values',
    check_value max_values max_depth depth values s = inl values' <->
    exists j, visit_value max_depth depth s = Some j /\ counted values (json_values j) values'.

Definition seq_spec (s : SeqAccess) : Prop :=
  finite_seq s -> forall depth values values', within values -> values <= usize_max ->
    check_seq max_values max_depth depth values s = inl values' <->
    exists l, visit_seq max_depth depth s = Some l /\ counted values (items_values l) values'.

Definition map_spec (s : MapAccess) : Prop :=
  finite_map s -> forall depth keys values values', within values -> values <= usize_max ->
    check_map max_values max_depth depth keys values s = inl values' <->
    exists ms, visit_map max_depth depth s = Some ms /\ NoDup (map fst ms)
      /\ (forall k, k ∈ map fst ms -> k ∉ keys) /\ counted values (members_values ms) values'.

Lemma counted_here values : within values -> values <= usize_max -> counted values 0 values.
Proof. unfold counted, sat_add. split; [lia|done]. Qed.

Lemma counted_zero values values' :
  within values -> values <= usize_max -> counted values 0 values' <-> values' = values.
Proof.
  intros Hw Hm. split; [unfold counted, sat_add; intros [-> _]; lia|].
  intros ->. by apply counted_here.
Qed.

Lemma counted_bound values n values' : counted values n values' -> within values' /\ values' <= usize_max.
Proof. unfold counted, sat_add. intros [-> ?]. split; [done|lia]. Qed.

Lemma rbind_inl {A B E} (m : A + E) (k : A -> B + E) b :
  match m with inl a => k a | inr e => inr e end = inl b <-> exists a, m = inl a /\ k a = inl b.
Proof.
  destruct m as [a|e]; split.
  - by exists a.
  - by intros (? & [= <-] & ?).
  - done.
  - by intros (? & ? & _).
Qed.

Lemma seq_next item rest :
  value_spec item -> seq_spec rest -> seq_spec (SeqNext item rest).
Proof.
  intros IHi IHr [Hi Hr] depth values values' Hw Hm. cbn [check_seq visit_seq].
  rewrite rbind_inl. split.
  - intros (v1 & Hv & Hrest). apply (IHi Hi) in Hv as (j & -> & Hc).
    destruct (counted_bound _ _ _ Hc). apply (IHr Hr) in Hrest as (l & -> & Hl); [|done..].
    exists (j :: l). split; [done|]. apply counted_split; [pose proof (json_values_pos j); lia|
      apply items_values_nonneg|by exists v1].
  - intros (l & Hv & Hc). apply bind_Some in Hv as (j & Hj & Hv).
    apply bind_Some in Hv as (l' & Hl & [= <-]).
    apply counted_split in Hc as (v1 & Hc1 & Hc2);
      [|pose proof (json_values_pos j); lia|apply items_values_nonneg].
    exists v1. split; [apply (IHi Hi); by exists j|]. destruct (counted_bound _ _ _ Hc1).
    apply (IHr Hr); [done..|]. by exists l'.
Qed.

(** A member: its name, then its value. *)
Lemma member_counted j n values values' :
  0 <= n ->
  (exists v1 v2, counted values 1 v1 /\ counted v1 (json_values j) v2 /\ counted v2 n values')
  <-> counted values (1 + json_values j + n) values'.
Proof.
  intros Hn. pose proof (json_values_pos j). rewrite <- counted_split by lia. split.
  - intros (v1 & v2 & H1' & H2' & H3'). exists v2. split; [|done]. apply counted_split; [lia..|]. by exists v1.
  - intros (v2 & H12 & H3'). apply counted_split in H12 as (v1 & H1' & H2'); [|lia..]. by exists v1, v2.
Qed.

Lemma map_next key item rest :
  value_spec item -> map_spec rest -> map_spec (MapNext key item rest).
Proof.
  intros IHi IHr [Hi Hr] depth keys values values' Hw Hm. cbn [check_map visit_map].
  rewrite rbind_inl. split.
  - intros (v1 & Hkey & Hrest). apply count_iff in Hkey.
    destruct (str_in key keys) eqn:Ek; [done|]. apply bool_decide_eq_false in Ek.
    apply rbind_inl in Hrest as (v2 & Hv & Hrest). apply (IHi Hi) in Hv as (j & -> & Hc).
    destruct (counted_bound _ _ _ Hc).
    apply (IHr Hr) in Hrest as (ms & -> & Hn & Hd & Hms); [|done..].
    exists ((key, j) :: ms). split; [done|]. cbn [map fst]. split; [|split].
    + constructor; [|done]. intros Hin. apply (Hd key Hin). left.
    + intros k [->|Hin]%elem_of_cons; [done|]. intros Hk. apply (Hd k Hin). by right.
    + apply (member_counted j (members_values ms)); [apply members_values_nonneg|]. by exists v1, v2.
  - intros (l & Hv & Hn & Hd & Hc). apply bind_Some in Hv as (j & Hj & Hv).
    apply bind_Some in Hv as (ms & Hms & [= <-]). cbn [map fst] in Hn, Hd.
    apply NoDup_cons in Hn as [Hnk Hn].
    apply (member_counted j (members_values ms)) in Hc as (v1 & v2 & H1' & H2' & H3');
      [|apply members_values_nonneg].
    exists v1. split; [by apply count_iff|].
    replace (str_in key keys) with false by (symmetry; apply bool_decide_eq_false, Hd; left).
    apply rbind_inl. exists v2. split; [apply (IHi Hi); by exists j|].
    destruct (counted_bound _ _ _ H2'). apply (IHr Hr); [done..|]. exists ms.
    split; [done|]. split; [done|]. split; [|done].
    intros k Hk [->|Hin]%elem_of_cons; [done|]. apply (Hd k); [by right|done].
Qed.

Lemma seq_value items : seq_spec items -> value_spec (SSeq items).
Proof.
  intros IH Hf depth values values'. cbn [check_value visit_value].
  destruct (max_depth <=? depth)%nat; [split; [done|by intros (? & ? & _)]|].
  rewrite rbind_inl. split.
  - intros (v1 & Hc & Hs). apply count_iff in Hc. destruct (counted_bound _ _ _ Hc).
    apply (IH Hf) in Hs as (l & -> & Hl); [|done..]. exists (Json.Array l). split; [done|].
    apply (counted_split values 1 (items_values l)); [lia|apply items_values_nonneg|by exists v1].
  - intros (j & Hj & Hc). apply bind_Some in Hj as (l & Hl & [= <-]).
    apply (counted_split values 1 (items_values l)) in Hc as (v1 & Hc1 & Hc2); [|lia|apply items_values_nonneg].
    exists v1. split; [by apply count_iff|]. destruct (counted_bound _ _ _ Hc1).
    apply (IH Hf); [done..|]. by exists l.
Qed.

Lemma map_value entries : map_spec entries -> value_spec (SMap entries).
Proof.
  intros IH Hf depth values values'. cbn [check_value visit_value].
  destruct (max_depth <=? depth)%nat; [split; [done|by intros (? & ? & _)]|].
  rewrite rbind_inl. split.
  - intros (v1 & Hc & Hs). apply count_iff in Hc. destruct (counted_bound _ _ _ Hc).
    apply (IH Hf) in Hs as (ms & -> & Hn & _ & Hl); [|done..]. cbn [mbind option_bind].
    rewrite (proj2 (distinct_neighbours_NoDup ms) Hn). exists (Json.Object (sort_members ms)).
    split; [done|]. apply (counted_split values 1 (members_values (sort_members ms)));
      [lia|apply members_values_nonneg|]. exists v1. split; [done|].
    by rewrite (members_values_perm _ ms) by (rewrite sort_members_by; apply sort_by_perm).
  - intros (j & Hj & Hc). apply bind_Some in Hj as (ms & Hms & Hj). cbv zeta in Hj.
    destruct (distinct_neighbours _) eqn:En; [|done]. injection Hj as <-.
    apply (counted_split values 1 (members_values (sort_members ms))) in Hc as (v1 & Hc1 & Hc2);
      [|lia|apply members_values_nonneg].
    rewrite (members_values_perm _ ms) in Hc2 by (rewrite sort_members_by; apply sort_by_perm).
    exists v1. split; [by apply count_iff|]. destruct (counted_bound _ _ _ Hc1).
    apply (IH Hf); [done..|]. exists ms. split; [done|].
    split; [by apply distinct_neighbours_NoDup|]. split; [|done]. by intros k _ ?%elem_of_nil.
Qed.

Lemma scalar_iff j values values' :
  json_values j = 1 ->
  count max_values values = inl values' <->
  exists j', Some j = Some j' /\ counted values (json_values j') values'.
Proof. intros Hj. rewrite count_iff. split; [exists j; by rewrite Hj|intros (? & [= <-] & ?); by rewrite <- Hj]. Qed.

Lemma visitors_agree :
  (forall s, value_spec s) /\ (forall s, seq_spec s) /\ (forall s, map_spec s).
Proof.
  apply stream_ind3; auto using seq_value, map_value, seq_next, map_next;
    unfold value_spec, seq_spec, map_spec.
  - intros _ depth values values'. by apply scalar_iff.
  - intros b _ depth values values'. by apply scalar_iff.
  - intros n _ depth values values'. by apply scalar_iff.
  - intros n _ depth values values'. by apply scalar_iff.
  - intros f Hf depth values values'. simpl in *. rewrite Hf. by apply scalar_iff.
  - intros t _ depth values values'. by apply scalar_iff.
  - intros e _ depth values values'. simpl. split; [done|by intros (? & ? & _)].
  - intros _ depth values values' Hw Hm. simpl. split.
    + intros [= <-]. exists []. split; [done|by apply counted_here].
    + intros (? & [= <-] & Hc). apply counted_zero in Hc as ->; done.
  - intros e _ depth values values' _ _. simpl. split; [done|by intros (? & ? & _)].
  - intros _ depth keys values values' Hw Hm. simpl. split.
    + intros [= <-]. exists []. split; [done|]. split; [constructor|].
      split; [by intros k ?%elem_of_nil|by apply counted_here].
    + intros (? & [= <-] & _ & _ & Hc). apply counted_zero in Hc as ->; done.
  - intros e _ depth keys values values' _ _. simpl. split; [done|by intros (? & ? & _)].
Qed.
End visitors.

(** ** The whole text *)
Section texts.
Context `{Target} `{Serde}.

(** C32: the strict check. On a body whose numbers are finite, the check with a limit below the
    width of [usize] succeeds exactly when the parser of canonical JSON succeeds and the values and
    member names of what it returns are at most the limit; without a limit, exactly when the parser
    succeeds. *)
Theorem strict_check_exact body max :
  finite_stream (fst (from_str_events body)) -> 0 <= max < usize_max ->
  (check body (Some max) = inl tt <-> exists j, parse body = Some j /\ json_values j <= max)
  /\ (check body None = inl tt <-> exists j, parse body = Some j).
Proof.
  intros Hf Hmax. unfold check, check_with_max_depth, parse, parse_with_max_depth.
  destruct (from_str_events body) as [events ok]. simpl in Hf.
  assert (Hiff : forall limit, (exists values, check_value limit MAX_DEPTH 0 0 events = inl values) <->
    exists j, visit_value MAX_DEPTH 0 events = Some j /\ within limit (sat_add usize_max 0 (json_values j))).
  { intros limit. destruct (visitors_agree limit MAX_DEPTH) as [Hv _]. specialize (Hv events Hf 0%nat 0).
    split.
    - intros [values Hc]. apply Hv in Hc as (j & Hj & -> & Hw). by exists j.
    - intros (j & Hj & Hw). eexists. apply Hv. exists j. split; [done|]. by split. }
  assert (Hcheck : forall limit,
    match check_value limit MAX_DEPTH 0 0 events with
    | inr message => inr (classify message)
    | inl _ => if ok then inl tt else inr StrictError.Syntax
    end = (inl tt : unit + strict_error) <->
    exists j, (value ← visit_value MAX_DEPTH 0 events; if ok then Some value else None) = Some j
              /\ within limit (sat_add usize_max 0 (json_values j))).
  { intros limit. specialize (Hiff limit). destruct (check_value limit MAX_DEPTH 0 0 events) as [v|e].
    - destruct (proj1 Hiff (ex_intro _ v eq_refl)) as (j & -> & Hw). simpl. destruct ok.
      + split; [by exists j|done].
      + split; [done|by intros (? & ? & _)].
    - split; [done|]. intros (j & Hj & Hw). apply bind_Some in Hj as (j' & Hj & Hok).
      destruct ok; [|done]. injection Hok as ->.
      destruct (proj2 Hiff (ex_intro _ j (conj Hj Hw))) as [? ?]. done. }
  split; rewrite Hcheck; cbn [within].
  - split; intros (j & Hj & Hw); exists j; (split; [done|]); unfold sat_add in *; lia.
  - split; [intros (j & Hj & _); by exists j|intros (j & Hj); by exists j].
Qed.
End texts.

Lemma strict_check_exact_witness :
  let body := requote "{'a':[1,2],'b':{'c':null}}" in
  (check body (Some 9) = inl tt <-> exists j, parse body = Some j /\ json_values j <= 9)
  /\ (check body None = inl tt <-> exists j, parse body = Some j).
Proof.
  apply (strict_check_exact (requote "{'a':[1,2],'b':{'c':null}}") 9).
  - vm_compute. repeat split.
  - split; [lia | reflexivity].
Defined.

Example strict_limit_9 : check (requote "{'a':[1,2],'b':{'c':null}}") (Some 9) = inl tt.
Proof. vm_compute. reflexivity. Qed.
Example strict_limit_8 :
  check (requote "{'a':[1,2],'b':{'c':null}}") (Some 8) = inr StrictError.TooManyValues.
Proof. vm_compute. reflexivity. Qed.

(** ** What the parser returns *)

(** The nesting of arrays and objects. *)
Fixpoint json_depth (j : json) : nat :=
  match j with
  | Json.Array l => S (foldr (fun a n => Nat.max (json_depth a) n) 0%nat l)
  | Json.Object ms => S (foldr (fun '(_, a) n => Nat.max (json_depth a) n) 0%nat ms)
  | _ => 0%nat
  end.

(** Member names strictly ascend in every object. *)
Fixpoint ascending (j : json) : Prop :=
  match j with
  | Json.Array l => foldr (fun a p => ascending a /\ p) True l
  | Json.Object ms =>
      StronglySorted (key_lt fst) ms /\ foldr (fun '(_, a) p => ascending a /\ p) True ms
  | _ => True
  end.

Lemma ascending_items l : ascending (Json.Array l) <-> Forall ascending l.
Proof. simpl. induction l as [|a l IH]; simpl; [by split|]. rewrite Forall_cons. tauto. Qed.
Lemma ascending_members ms :
  ascending (Json.Object ms) <->
  StronglySorted (key_lt fst) ms /\ Forall (fun m => ascending (snd m)) ms.
Proof.
  simpl. enough (foldr (fun '(_, a) p => ascending a /\ p) True ms
                 <-> Forall (fun m => ascending (snd m)) ms) by tauto.
  induction ms as [|[k a] ms IH]; simpl; [by split|]. rewrite Forall_cons. simpl. tauto.
Qed.

Definition below (n : nat) (j : json) : Prop := ascending j /\ (json_depth j <= n)%nat.

Lemma depth_items n l :
  Forall (fun a => (json_depth a <= n)%nat) l -> (json_depth (Json.Array l) <= S n)%nat.
Proof. simpl. intros Hl. apply le_n_S. induction Hl as [|a l Ha _ IH]; simpl; lia. Qed.
Lemma depth_members n ms :
  Forall (fun m => (json_depth (snd m) <= n)%nat) ms -> (json_depth (Json.Object ms) <= S n)%nat.
Proof. simpl. intros Hl. apply le_n_S. induction Hl as [|[k a] l Ha _ IH]; simpl in *; lia. Qed.

Lemma visited max_depth :
  (forall s depth j, visit_value max_depth depth s = Some j -> below (max_depth - depth) j)
  /\ (forall s depth l, visit_seq max_depth depth s = Some l -> Forall (below (max_depth - depth)) l)
  /\ (forall s depth ms, visit_map max_depth depth s = Some ms ->
       Forall (fun m => below (max_depth - depth) (snd m)) ms).
Proof.
  apply stream_ind3; simpl.
  - intros depth j [= <-]. split; [done|simpl; lia].
  - intros b depth j [= <-]. split; [done|simpl; lia].
  - intros n depth j [= <-]. split; [done|simpl; lia].
  - intros n depth j [= <-]. split; [done|simpl; lia].
  - intros f depth j. destruct (F64.is_finite f); [|done]. intros [= <-]. split; [done|simpl; lia].
  - intros t depth j [= <-]. split; [done|simpl; lia].
  - intros items IH depth j. destruct (Nat.leb_spec max_depth depth); [done|].
    intros (l & Hl & [= <-])%bind_Some. apply IH in Hl. split.
    + apply ascending_items. eapply Forall_impl; [exact Hl|]. by intros a [? _].
    + replace (max_depth - depth)%nat with (S (max_depth - S depth)) by lia.
      apply depth_items. eapply Forall_impl; [exact Hl|]. by intros a [_ ?].
  - intros entries IH depth j. destruct (Nat.leb_spec max_depth depth); [done|].
    intros (ms & Hms & Hj)%bind_Some. destruct (distinct_neighbours _) eqn:En; [|done]. injection Hj as <-.
    apply IH in Hms. rewrite <- (sort_by_perm fst ms), <- sort_members_by in Hms. split.
    + apply ascending_members. split.
      * apply neighbours_sorted; [|done]. rewrite sort_members_by. apply sort_by_sorted.
      * eapply Forall_impl; [exact Hms|]. by intros m [? _].
    + replace (max_depth - depth)%nat with (S (max_depth - S depth)) by lia.
      apply depth_members. eapply Forall_impl; [exact Hms|]. by intros m [_ ?].
  - done.
  - intros depth l [= <-]. constructor.
  - intros item IHi rest IHr depth l (j & Hj & Hl)%bind_Some.
    apply bind_Some in Hl as (l' & Hl' & [= <-]). constructor; auto.
  - done.
  - intros depth l [= <-]. constructor.
  - intros key item IHi rest IHr depth l (j & Hj & Hl)%bind_Some.
    apply bind_Some in Hl as (l' & Hl' & [= <-]). constructor; auto.
  - done.
Qed.

(** Members in order stay in order. *)
Lemma sort_sorted {A} (l : list (string * A)) : StronglySorted (key_lt fst) l -> sort_members l = l.
Proof.
  intros Hs. rewrite sort_members_by. symmetry. apply (sorted_unique fst).
  - induction Hs as [|a l _ IH Ha]; constructor; [done|]. eapply Forall_impl; [exact Ha|].
    intros b. apply slt_sle.
  - apply sort_by_sorted.
  - by rewrite sort_by_perm.
  - by apply strict_NoDup.
Qed.

Lemma map_keys_sorted {A B} (f : string * A -> string * B) ms :
  (forall m, fst (f m) = fst m) ->
  StronglySorted (key_lt fst) ms -> StronglySorted (key_lt fst) (map f ms).
Proof.
  intros Hf. induction 1 as [|a l _ IH Ha]; simpl; constructor; [done|].
  apply Forall_map. eapply Forall_impl; [exact Ha|]. intros b. unfold key_lt. by rewrite !Hf.
Qed.

Lemma ascending_normal j : ascending j -> normalize j = j.
Proof.
  induction j as [|b|n|s|l IH|ms IH] using json_nested; intros Ha; try done; cbn [normalize].
  - apply ascending_items in Ha. f_equal. rewrite <- (map_id l) at 2. apply map_ext_in.
    intros a Hin%list_elem_of_In. rewrite Forall_forall in IH, Ha. auto.
  - apply ascending_members in Ha as [Hs Ha]. f_equal. rewrite sort_sorted.
    + rewrite <- (map_id ms) at 2. apply map_ext_in. intros [k a] Hin%list_elem_of_In.
      rewrite Forall_forall in IH, Ha. f_equal. apply (IH _ Hin), (Ha _ Hin).
    + apply map_keys_sorted; [by intros [? ?]|done].
Qed.

Section parsed.
Context `{Serde}.

Lemma parse_below text j : parse text = Some j -> below MAX_DEPTH j.
Proof.
  unfold parse, parse_with_max_depth. destruct (from_str_events text) as [events ok].
  intros (j' & Hj & Hok)%bind_Some. destruct ok; [|done]. injection Hok as ->.
  destruct (visited MAX_DEPTH) as [Hv _]. exact (Hv events 0%nat j Hj).
Qed.

(** What the parser returns. Every object has strictly ascending member names, arrays and
    objects nest at most 64 deep, and the value is its own normal form: two bodies whose numbers
    are integers have the same canonical text exactly when they parse to the same value. *)
Theorem parse_canonical_form text j :
  parse text = Some j ->
  ascending j /\ (json_depth j <= 64)%nat /\ normalize j = j
  /\ forall text' j', parse text' = Some j' -> plain j -> plain j' ->
       canonical_json text = canonical_json text' <-> j = j'.
Proof.
  intros Hj. destruct (parse_below text j Hj) as [Ha Hd].
  split; [done|]. split; [exact Hd|]. split; [by apply ascending_normal|].
  intros text' j' Hj' Hp Hp'. destruct (parse_below text' j' Hj') as [Ha' _].
  unfold canonical_json. rewrite Hj, Hj'. cbn. split; [|by intros ->].
  intros [= E]. revert E. unfold to_canonical. rewrite !write_value_print, !ascending_normal by done.
  intros E. apply (f_equal (fun s => s ++ EmptyString)%string) in E.
  by apply (print_decodes j j' EmptyString EmptyString).
Qed.
End parsed.

Lemma parse_canonical_form_witness :
  exists j, parse (requote "{'b':1,'a':[true]}") = Some j
    /\ ascending j /\ (json_depth j <= 64)%nat /\ normalize j = j
    /\ forall text' j', parse text' = Some j' -> plain j -> plain j' ->
         canonical_json (requote "{'b':1,'a':[true]}") = canonical_json text' <-> j = j'.
Proof.
  eexists. split; [vm_compute; reflexivity|].
  apply (parse_canonical_form (requote "{'b':1,'a':[true]}")). vm_compute. reflexivity.
Defined.
