(* ===== verification/CallbackFacts.v ===== *)
(** * The callback lane and exact retries

    Who may query a transaction that is being validated and what a validator is given: the token,
    the comparison of hashes, a decision, the order of the checks. A command that repeats the last
    completed one is answered with the stored response and changes nothing. *)

From Stdlib Require Import Sorting.Sorted.
From S2P Require Import Prelude F64 Btree SerdeJson Compiler State Volatile Io Bounds Canonical.
From S2P Require Import Identity Machine Checks Commands Interactive Atomic Execution Run Frames.
From S2P Require Import HandlerFrames Batches World.

(** ** Tokens, decisions, and the order of the checks

    The capability token is 43 base64url characters that determine its 32
    bytes, the constant-time comparison is equality, a decision allows a commit
    exactly when it has the accepted shape, and the validators run in strictly
    ascending order of their ids. *)

(** ** base64url *)

Definition is_byte (b : Z) : Prop := 0 <= b < 256.

Lemma lor_disjoint a n b : 0 <= n -> 0 <= b < 2 ^ n -> Z.lor (a * 2 ^ n) b = a * 2 ^ n + b.
Proof.
  intros Hn Hb. assert (Hl : Z.land (a * 2 ^ n) b = 0).
  { apply Z.bits_inj'. intros m Hm. rewrite Z.land_spec, Z.bits_0, Z.mul_pow2_bits by lia.
    destruct (Z.ltb_spec m n) as [Hlt|Hge].
    - by rewrite Z.testbit_neg_r by lia.
    - assert (Ht : Z.testbit b m = false); [|by rewrite Ht, andb_false_r].
      rewrite <- (Z.mod_small b (2 ^ n)) by lia. apply Z.mod_pow2_bits_high. lia. }
  rewrite <- Z.lxor_lor by done. by rewrite Z.add_nocarry_lxor.
Qed.

Lemma sextet_div t i : 0 <= 18 - 6 * Z.of_nat i -> sextet t i = (t / 2 ^ (18 - 6 * Z.of_nat i)) mod 64.
Proof.
  intros Hi. unfold sextet. rewrite Z.shiftr_div_pow2 by done.
  change 63 with (Z.ones 6). by rewrite Z.land_ones.
Qed.

Lemma sextet_range t i : 0 <= sextet t i < 64.
Proof.
  unfold sextet. change 63 with (Z.ones 6). rewrite Z.land_ones by lia.
  apply Z.mod_pos_bound. lia.
Qed.

(** The value of a base64url character. *)
Definition unalphabet (c : ascii) : Z :=
  let b := byte_of c in
  if in_range 65 90 b then b - 65 else if in_range 97 122 b then b - 71
  else if in_range 48 57 b then b + 4 else if (b =? 45)%Z then 62 else 63.

Lemma sextet_cases (P : Z -> bool) s :
  forallb P (map Z.of_nat (seq 0 64)) = true -> 0 <= s < 64 -> P s = true.
Proof.
  rewrite forallb_forall. intros Hall Hs. apply Hall, in_map_iff. exists (Z.to_nat s).
  split; [lia|]. apply in_seq. lia.
Qed.

Lemma unalphabet_char s : 0 <= s < 64 -> unalphabet (alphabet_char s) = s.
Proof.
  intros Hs. apply Z.eqb_eq, (sextet_cases (fun s => unalphabet (alphabet_char s) =? s)%Z); [|done].
  vm_compute. reflexivity.
Qed.

Definition token_char (c : ascii) : bool := is_alnum c || (byte_of c =? 45)%Z || (byte_of c =? 95)%Z.

Lemma alphabet_token s : 0 <= s < 64 -> token_char (alphabet_char s) = true.
Proof. apply (sextet_cases (fun s => token_char (alphabet_char s))). vm_compute. reflexivity. Qed.

Ltac triples :=
  cbn [triple_of]; change (16 - 8 - 8) with 0; change (16 - 8) with 8;
  rewrite !Z.shiftl_mul_pow2, ?Z.lor_0_r by lia;
  change (2 ^ 0) with 1; rewrite ?Z.mul_1_r.

Lemma triple_three a b c :
  is_byte a -> is_byte b -> is_byte c -> triple_of 16 [a; b; c] = a * 65536 + b * 256 + c.
Proof.
  unfold is_byte. intros Ha Hb Hc. triples.
  rewrite (lor_disjoint b 8 c) by lia.
  rewrite (lor_disjoint a 16) by (change (2 ^ 16) with 65536; change (2 ^ 8) with 256; lia).
  change (2 ^ 16) with 65536. change (2 ^ 8) with 256. lia.
Qed.

Lemma triple_two a b : is_byte a -> is_byte b -> triple_of 16 [a; b] = a * 65536 + b * 256.
Proof.
  unfold is_byte. intros Ha Hb. triples.
  rewrite (lor_disjoint a 16) by (change (2 ^ 16) with 65536; change (2 ^ 8) with 256; lia).
  change (2 ^ 16) with 65536. change (2 ^ 8) with 256. lia.
Qed.

Lemma triple_one a : triple_of 16 [a] = a * 65536.
Proof. by triples. Qed.

(** The bytes of a group of sextets. *)
Definition group_bytes (s0 s1 s2 s3 : Z) : Z := ((s0 * 64 + s1) * 64 + s2) * 64 + s3.

Lemma group_of_triple t :
  0 <= t < 2 ^ 24 ->
  group_bytes (sextet t 0) (sextet t 1) (sextet t 2) (sextet t 3) = t.
Proof.
  intros Ht. rewrite !sextet_div by (simpl; lia). unfold group_bytes.
  change (2 ^ (18 - 6 * Z.of_nat 0)) with 262144. change (2 ^ (18 - 6 * Z.of_nat 1)) with 4096.
  change (2 ^ (18 - 6 * Z.of_nat 2)) with 64. change (2 ^ (18 - 6 * Z.of_nat 3)) with 1.
  rewrite Z.div_1_r.
  zlia.
Qed.

Fixpoint unbase64url (s : string) : list Z :=
  match s with
  | String a (String b (String c (String d s'))) =>
      let t := group_bytes (unalphabet a) (unalphabet b) (unalphabet c) (unalphabet d) in
      t / 65536 :: (t / 256) mod 256 :: t mod 256 :: unbase64url s'
  | String a (String b (String c EmptyString)) =>
      let t := group_bytes (unalphabet a) (unalphabet b) (unalphabet c) 0 in
      [t / 65536; (t / 256) mod 256]
  | String a (String b EmptyString) => [group_bytes (unalphabet a) (unalphabet b) 0 0 / 65536]
  | _ => []
  end.

Definition sextet_char (t : Z) (i : nat) : ascii := alphabet_char (sextet t i).

Lemma unalphabet_sextet t i : unalphabet (sextet_char t i) = sextet t i.
Proof. apply unalphabet_char, sextet_range. Qed.

Lemma base64url_three a b c l :
  base64url (a :: b :: c :: l) =
  let t := triple_of 16 [a; b; c] in
  String (sextet_char t 0) (String (sextet_char t 1) (String (sextet_char t 2)
    (String (sextet_char t 3) (base64url l)))).
Proof. reflexivity. Qed.

Lemma base64url_two a b :
  base64url [a; b] =
  let t := triple_of 16 [a; b] in
  String (sextet_char t 0) (String (sextet_char t 1) (String (sextet_char t 2) EmptyString)).
Proof. reflexivity. Qed.

Lemma base64url_one a :
  base64url [a] =
  let t := triple_of 16 [a] in String (sextet_char t 0) (String (sextet_char t 1) EmptyString).
Proof. reflexivity. Qed.

(** Induction on bytes three at a time. *)
Lemma three_ind (P : list Z -> Prop) :
  P [] -> (forall a, P [a]) -> (forall a b, P [a; b]) ->
  (forall a b c l, P l -> P (a :: b :: c :: l)) -> forall l, P l.
Proof.
  intros H0 H1 H2 H3. fix IH 1. intros [|a [|b [|c l]]]; [done..|]. exact (H3 a b c l (IH l)).
Qed.

Lemma last_sextets t :
  0 <= t < 2 ^ 24 ->
  (t mod 64 = 0 -> group_bytes (sextet t 0) (sextet t 1) (sextet t 2) 0 = t)
  /\ (t mod 4096 = 0 -> group_bytes (sextet t 0) (sextet t 1) 0 0 = t).
Proof.
  intros Ht. rewrite !sextet_div by (simpl; lia). unfold group_bytes.
  change (2 ^ (18 - 6 * Z.of_nat 0)) with 262144. change (2 ^ (18 - 6 * Z.of_nat 1)) with 4096.
  change (2 ^ (18 - 6 * Z.of_nat 2)) with 64.
  split; intros Hm; zlia.
Qed.

Lemma unbase64url_base64url l : Forall is_byte l -> unbase64url (base64url l) = l.
Proof.
  induction l as [|a|a b|a b c l IH] using three_ind; intros Hl; [done|..].
  - inversion Hl as [|? ? Ha _]; subst. rewrite base64url_one. cbv zeta. cbn [unbase64url].
    rewrite !unalphabet_sextet, triple_one. unfold is_byte in Ha.
    rewrite (proj2 (last_sextets (a * 65536) ltac:(lia)))
      by (zlia).
    by rewrite Z.div_mul.
  - inversion Hl as [|? ? Ha Hl']; subst. inversion Hl' as [|? ? Hb _]; subst.
    rewrite base64url_two. cbv zeta. cbn [unbase64url]. rewrite !unalphabet_sextet.
    rewrite triple_two by done. unfold is_byte in *.
    rewrite (proj1 (last_sextets (a * 65536 + b * 256) ltac:(lia)))
      by (zlia).
    f_equal; [|f_equal]; zlia.
  - inversion Hl as [|? ? Ha Hl']; subst. inversion Hl' as [|? ? Hb Hl'']; subst.
    inversion Hl'' as [|? ? Hc Hrest]; subst.
    rewrite base64url_three. cbv zeta. cbn [unbase64url]. rewrite !unalphabet_sextet.
    rewrite triple_three by done. unfold is_byte in *.
    rewrite group_of_triple by lia. rewrite IH by done.
    f_equal; [|f_equal; [|f_equal]]; zlia.
Qed.

Lemma token_chars t i s :
  str_forallb token_char (String (sextet_char t i) s) = str_forallb token_char s.
Proof. cbn [str_forallb]. unfold sextet_char. by rewrite (alphabet_token _ (sextet_range t i)). Qed.

Lemma base64url_chars l : str_forallb token_char (base64url l) = true.
Proof.
  induction l as [|a|a b|a b c l IH] using three_ind; [done|..];
    rewrite ?base64url_one, ?base64url_two, ?base64url_three; cbv zeta;
    rewrite !token_chars; done.
Qed.

(** The length of unpadded base64. *)
Lemma base64url_len l : len (base64url l) = (4 * Z.of_nat (length l) + 2) / 3.
Proof.
  induction l as [|a|a b|a b c l IH] using three_ind; try reflexivity.
  rewrite base64url_three. cbv zeta. unfold len in *. cbn [String.length length].
  rewrite !Nat2Z.inj_succ, IH. zlia.
Qed.

(** ** The entropy of the host *)
Lemma hex_digit_lower c : is_hex_lower c = true -> exists d, hex_digit c = Some d /\ 0 <= d < 16.
Proof.
  unfold is_hex_lower, is_digit, hex_digit, in_range. intros Hc.
  destruct ((48 <=? byte_of c)%Z && (byte_of c <=? 57)%Z) eqn:E1; simpl in Hc.
  - bools. eexists. split; [done|lia].
  - rewrite Hc. bools. eexists. split; [done|lia].
Qed.

Lemma from_hex_two s :
  String.length s = 2%nat -> all_hex s = true -> exists b, from_hex 0 s = Some b /\ is_byte b.
Proof.
  destruct s as [|c [|d [|? ?]]]; try done. intros _ Hx. unfold all_hex in Hx. cbn in Hx.
  apply andb_true_iff in Hx as [Hc Hd]. rewrite andb_true_r in Hd.
  destruct (hex_digit_lower c Hc) as (x & Ex & Hx). destruct (hex_digit_lower d Hd) as (y & Ey & Hy).
  unfold from_hex. rewrite Ex. simpl. rewrite Ey. simpl. eexists. split; [done|]. unfold is_byte. lia.
Qed.

Lemma hex_pair s i :
  hex64 s = true -> (i < 32)%nat ->
  exists b, (hex ← str_get s (i * 2) (i * 2 + 2); from_hex 0 hex) = Some b /\ is_byte b.
Proof.
  unfold hex64, len. intros Hs Hi. bools.
  assert (Hl : String.length s = 64%nat) by lia.
  unfold str_get. rewrite Hl.
  replace (i * 2 + 2 <=? 64)%nat with true by (symmetry; apply Nat.leb_le; lia).
  replace (i * 2 <=? i * 2 + 2)%nat with true by (symmetry; apply Nat.leb_le; lia).
  simpl. replace (i * 2 + 2 - i * 2)%nat with 2%nat by lia.
  apply from_hex_two; [apply substring_length; lia | by apply substring_forallb].
Qed.

Lemma mapM_total {A B} (f : A -> option B) (P : B -> Prop) l :
  (forall a, a ∈ l -> exists b, f a = Some b /\ P b) ->
  exists k, mapM f l = Some k /\ length k = length l /\ Forall P k.
Proof.
  induction l as [|a l IH]; intros Hf; [by exists []|].
  destruct (Hf a) as (b & Eb & Hb); [left|].
  destruct IH as (k & Ek & Hlen & Hk); [intros a' Ha'; apply Hf; by right|].
  exists (b :: k). cbn [mapM]. unfold mapM in Ek |- *. simpl. rewrite Eb. simpl. rewrite Ek. simpl.
  split; [done|]. split; [by rewrite Hlen|]. by constructor.
Qed.

(** The capability token a validator receives. For valid host facts the step always finds its
    32 bytes of entropy, their base64url text satisfies the syntax the callback requires of a
    presented token, and the text determines the bytes. *)
Theorem capability_token_valid h :
  host_valid h = true ->
  exists bytes, entropy_bytes h = Some bytes /\ length bytes = 32%nat
    /\ token_syntax (base64url bytes) = true
    /\ forall bytes', Forall is_byte bytes' -> base64url bytes' = base64url bytes -> bytes' = bytes.
Proof.
  unfold host_valid. intros Hv. bools.
  destruct (mapM_total (fun i => hex ← str_get (entropy h) (i * 2) (i * 2 + 2); from_hex 0 hex)
              is_byte (seq 0 32)) as (bytes & Eb & Hlen & Hb).
  { intros i Hi. apply hex_pair; [done|]. apply elem_of_seq in Hi. lia. }
  rewrite length_seq in Hlen. exists bytes. split; [done|]. split; [done|]. split.
  - unfold token_syntax. rewrite base64url_len, Hlen. exact (base64url_chars bytes).
  - intros bytes' Hb' E. rewrite <- (unbase64url_base64url bytes'), E by done.
    by apply unbase64url_base64url.
Qed.

Lemma capability_token_valid_witness :
  exists bytes, entropy_bytes (world_host 0) = Some bytes /\ length bytes = 32%nat
    /\ token_syntax (base64url bytes) = true
    /\ forall bytes', Forall is_byte bytes' -> base64url bytes' = base64url bytes -> bytes' = bytes.
Proof. apply (capability_token_valid (world_host 0)). vm_compute. reflexivity. Defined.

(** ** The comparison of hashes *)
Lemma lor_zero a b : 0 <= a -> 0 <= b -> (Z.lor a b =? 0)%Z = (a =? 0)%Z && (b =? 0)%Z.
Proof.
  intros Ha Hb. apply eq_true_iff_eq. rewrite andb_true_iff, !Z.eqb_eq. apply Z.lor_eq_0_iff.
Qed.

Lemma byte_of_nonneg a : 0 <= byte_of a.
Proof. unfold byte_of. lia. Qed.

Lemma hash_difference_zero d l r :
  0 <= d -> String.length l = String.length r ->
  (hash_difference d l r =? 0)%Z = (d =? 0)%Z && String.eqb l r.
Proof.
  revert d r. induction l as [|a l IH]; intros d [|b r]; cbn [hash_difference String.length]; intros Hd Hl;
    try lia.
  - by destruct (d =? 0)%Z.
  - pose proof (byte_of_nonneg a). pose proof (byte_of_nonneg b).
    assert (Hx : 0 <= Z.lxor (byte_of a) (byte_of b)) by (apply Z.lxor_nonneg; lia).
    rewrite IH by (try apply Z.lor_nonneg; lia).
    rewrite lor_zero by done. rewrite <- andb_assoc. f_equal.
    cbn [String.eqb]. destruct (Ascii.eqb_spec a b) as [->|Hn].
    + by rewrite Z.lxor_nilpotent.
    + replace (Z.lxor (byte_of a) (byte_of b) =? 0)%Z with false; [done|].
      symmetry. apply Z.eqb_neq. intros E%Z.lxor_eq. by apply Hn, byte_of_inj.
Qed.

Lemma same_hash_eqb left right : same_hash left right = String.eqb left right.
Proof.
  unfold same_hash. destruct (Z.eqb_spec (len left) (len right)) as [E|E]; simpl.
  - rewrite hash_difference_zero; [done|lia|unfold len in E; lia].
  - symmetry. apply String.eqb_neq. by intros ->.
Qed.

(** The constant-time comparison. The accumulated difference of two hashes decides their equality,
    whatever their lengths and bytes, although it looks at every byte of equally long texts. *)
Theorem same_hash_is_equality left right : same_hash left right = String.eqb left right.
Proof. apply same_hash_eqb. Qed.

(** ** A validator's decision *)

(** The decisions that allow a commit. *)
Definition allowing (decision : value) : Prop :=
  exists object, decision = Value.Object object
    /\ (forall key v, (key, v) ∈ object -> key ∈ ["version"; "allowed"; "error"]%string)
    /\ assoc "version" object = Some (Value.String "1")
    /\ assoc "allowed" object = Some (Value.Bool true)
    /\ (assoc "error" object = None
        \/ exists code, assoc "error" object = Some (Value.Object [("code"%string, Value.String code)])).

Lemma field_str_Some key object s :
  field_str key object = Some s <-> assoc key object = Some (Value.String s).
Proof.
  unfold field_str. destruct (assoc key object) as [v|]; simpl; [|done].
  destruct v; simpl; split; congruence.
Qed.

Lemma single_code e :
  (length e =? 1)%nat && opt_existsb Value.is_string (assoc "code" e) = true <->
  exists code, e = [("code"%string, Value.String code)].
Proof.
  split.
  - intros [Hl Hc]%andb_true_iff. apply Nat.eqb_eq in Hl.
    destruct e as [|[k v] [|? ?]]; try done. simpl in Hc.
    destruct (String.eqb_spec k "code") as [->|]; [|done]. simpl in Hc.
    destruct v; try done. by exists s.
  - intros [code ->]. done.
Qed.

(** A validator's decision. It allows the commit exactly when it is an object of no other members than
    [version], [allowed] and [error], [version] is the text 1, [allowed] is true, and [error], when
    present, is an object of one text [code]; every other decision rejects. *)
Theorem allowed_decision_exact decision : allowed_decision decision = true <-> allowing decision.
Proof.
  unfold allowed_decision, allowing. destruct decision as [| | | | |object];
    try (split; [done|by intros (? & ? & _)]). simpl.
  rewrite !andb_true_iff, forallb_forall, bool_decide_eq_true, field_str_Some. split.
  - intros [[[Hk Hv] He] Ha]. exists object. split; [done|]. split.
    { intros key v Hin. apply list_elem_of_In in Hin. specialize (Hk _ Hin). simpl in Hk.
      unfold str_in in Hk. by apply bool_decide_eq_true in Hk. }
    split; [done|]. split.
    + destruct (assoc "allowed" object) as [[]|]; try done. by destruct b.
    + destruct (assoc "error" object) as [err|]; [right|by left].
      destruct err as [| | | | |e]; try done. apply single_code in He as [code ->]. by exists code.
  - intros (object' & [= <-] & Hk & Hv & Ha & He). split; [split; [split|]|].
    + intros [key v] Hin. unfold str_in. apply bool_decide_eq_true. eapply Hk. by apply list_elem_of_In.
    + done.
    + destruct He as [->|[code ->]]; [done|]. simpl. done.
    + by rewrite Ha.
Qed.

(** ** The order of the checks *)
Lemma sort_checks_by l : sort_checks l = sort_by check_id l.
Proof.
  induction l as [|c l IH]; [done|]. cbn [sort_checks sort_by foldr] in *.
  change (foldr insert_check [] l) with (sort_checks l). rewrite IH.
  change (foldr (insert_by check_id) [] l) with (sort_by check_id l).
  generalize (sort_by check_id l). intros k. induction k as [|d k IHk]; [done|].
  simpl. by rewrite IHk.
Qed.

(** Dropping equal neighbours of a sorted list leaves a strictly sorted one with the same ids. *)
Lemma dedup_checks_spec l :
  StronglySorted (key_le check_id) l ->
  StronglySorted (key_lt check_id) (dedup_checks l)
  /\ (forall c, c ∈ dedup_checks l -> c ∈ l)
  /\ (forall c, c ∈ l -> exists d, d ∈ dedup_checks l /\ check_id d = check_id c).
Proof.
  induction l as [|c l IH]; intros Hl.
  { split; [constructor|]. split; [done|]. by intros c ?%elem_of_nil. }
  apply StronglySorted_inv in Hl as [Hl Hc]. destruct (IH Hl) as (Hs & Hin & Hcov). clear IH.
  simpl. destruct (dedup_checks l) as [|d k] eqn:Ed.
  - split; [by repeat constructor|]. split.
    + intros x ->%list_elem_of_singleton. left.
    + intros x [->|Hx]%elem_of_cons; [exists c; split; [left|done]|].
      destruct (Hcov x Hx) as (y & Hy & _). by apply elem_of_nil in Hy.
  - apply StronglySorted_inv in Hs as [Hk Hd].
    assert (Hcd : sle (check_id c) (check_id d)).
    { rewrite Forall_forall in Hc. apply Hc, Hin. left. }
    destruct (String.eqb_spec (check_id c) (check_id d)) as [E|E].
    + split; [|split].
      * constructor; [done|]. eapply Forall_impl; [exact Hd|]. intros x. unfold key_lt. by rewrite E.
      * intros x [->|Hx]%elem_of_cons; [left|]. right. apply Hin. by right.
      * intros x [->|Hx]%elem_of_cons; [exists c; split; [left|done]|].
        destruct (Hcov x Hx) as (y & [->|Hy]%elem_of_cons & Ey).
        -- exists c. split; [left|congruence].
        -- exists y. split; [by right|done].
    + apply sle_cases in Hcd as [Hcd|Hcd]; [|done]. split; [|split].
      * constructor; [by constructor|]. constructor; [done|].
        eapply Forall_impl; [exact Hd|]. intros x. by apply slt_trans.
      * intros x [->|Hx]%elem_of_cons; [left|]. right. by apply Hin.
      * intros x [->|Hx]%elem_of_cons; [exists c; split; [left|done]|].
        destruct (Hcov x Hx) as (y & Hy & Ey). exists y. split; [by right|done].
Qed.

Section order.
Context `{Compiler}.

(** The checks of a commit. Exactly the triggered ones, each id once, in strictly ascending order
    of their ids; without a changed resource there are none. *)
Theorem sorted_checks_order s resources :
  StronglySorted (key_lt check_id) (sorted_checks s resources)
  /\ NoDup (map check_id (sorted_checks s resources))
  /\ (forall c, c ∈ sorted_checks s resources -> c ∈ triggered_checks (compiler s) resources)
  /\ (resources <> [] -> forall c, c ∈ triggered_checks (compiler s) resources ->
        exists d, d ∈ sorted_checks s resources /\ check_id d = check_id c).
Proof.
  unfold sorted_checks. destruct (bool_decide (resources = [])) eqn:E.
  { bools. split; [constructor|]. split; [constructor|]. split; [by intros c ?%elem_of_nil|done]. }
  rewrite sort_checks_by. set (l := triggered_checks _ _).
  destruct (dedup_checks_spec _ (sort_by_sorted check_id l)) as (Hs & Hin & Hcov).
  split; [done|]. split; [|split].
  - by apply strict_NoDup.
  - intros c Hc. rewrite <- (sort_by_perm check_id l). by apply Hin.
  - intros _ c Hc. apply Hcov. by rewrite sort_by_perm.
Qed.
End order.

(** ** Exact retries and the callback lane *)

Section retries.
Context `{Target} `{Serde} `{StateSerde} `{Sha2} `{Compiler} `{Env}.

(** The envelope of a repeated statement compiles again, or fails in a way that says nothing
    about the statement. *)
Definition may_repeat (c : Command) (s : St) : Prop :=
  exists outcome, fst (compile_members (to_canonical (cmd_auth c)) (cmd_members c) s) = inl outcome
    /\ match outcome with
       | inl _ => True
       | inr e => err_code e ∈ ["POLICYSQL_DATABASE_UNAVAILABLE"; "POLICYSQL_INTERNAL"]%string
       end.

(** [input] is the command [c] of the record's own caller at the sequence of [l], the last
    completed command. *)
Record at_last (kind : string) (input : value) (c : Command) (r : TxRecord) (l : Replay) (s : St)
    : Prop := {
  last_screened text : Value.get_str "command" input = Some text -> check text None = inl tt;
  last_parsed : parse_command kind input = Some c;
  last_owner : Value.get_str "transactionId" input = Some this_owner;
  last_record : durable_of s = Some (Durable.Live r);
  last_kind : rec_kind r = Kind.Interactive;
  last_binding : is_Some (cmd_binding c);
  last_caller : replay_identity (cmd_auth c) (cmd_binding_json c) = inl (replay (identity r));
  last_reply : last r = Some l;
  last_sequence : exists n, cmd_sequence c = Some n /\ n + 1 = next_sequence r;
  last_compiles : kind = "statement"%string -> may_repeat c s
  }.

(** Only the compiler's table changed, and its live handles did not. *)
Definition compiled_away `{!CompilerLaws} (s s' : St) : Prop :=
  live (compiler s') = live (compiler s)
  /\ s' = set_compiler (compiler s') s.

Lemma compile_members_cases auth members s :
  (exists e, compile_members auth members s = (inl (inr e), s))
  \/ exists envelope, compile_members auth members s = compile_in_compiler auth envelope s.
Proof.
  unfold compile_members. destruct (assoc "sql" members); [|left; by eexists].
  destruct (assoc "params" members); [right; by eexists|left; by eexists].
Qed.

Lemma may_repeat_true `{!CompilerLaws} c s :
  may_repeat c s ->
  exists s', may_repeat_members (to_canonical (cmd_auth c)) (cmd_members c) s = (inl true, s')
    /\ compiled_away s s'.
Proof.
  intros (outcome & Ho & Hok). unfold may_repeat_members, mbind, M_bind.
  destruct (compile_members_cases (to_canonical (cmd_auth c)) (cmd_members c) s) as [[e Ec]|[env Ec]];
    rewrite Ec in *.
  - injection Ho as <-. exists s. simpl. unfold str_in. rewrite bool_decide_eq_true_2 by done.
    split; [done|]. split; [done|]. by destruct s.
  - unfold compile_in_compiler in *. destruct (compile _ _ _) as [cs [comp|e]] eqn:Ecomp; simpl in *;
      injection Ho as <-.
    + eexists. split; [done|]. destruct (compile_ok _ _ _ _ _ Ecomp) as [Hfresh Hlive].
      split; [|done]. simpl. rewrite release_live, Hlive. apply set_eq. intros h.
      rewrite elem_of_difference, elem_of_union, elem_of_singleton.
      split; [by intros [[->|?] ?]|]. intros Hh. split; [by right|]. by intros ->.
    + unfold str_in. rewrite bool_decide_eq_true_2 by done. eexists. split; [done|].
      split; [|done]. simpl. by apply (compile_err _ _ _ _ _ Ecomp).
Qed.

Lemma replay_candidate_last `{!CompilerLaws} kind input c r l s :
  at_last kind input c r l s ->
  exists s', replay_candidate kind c r s = (inl (Some l), s') /\ compiled_away s s'.
Proof.
  intros Hl. destruct (last_sequence _ _ _ _ _ _ Hl) as (n & Hn & Hnext).
  unfold replay_candidate. rewrite Hn, (last_reply _ _ _ _ _ _ Hl), (proj2 (Z.eqb_eq _ _) Hnext).
  destruct (String.eqb_spec kind "statement") as [E|E].
  - destruct (may_repeat_true c s (last_compiles _ _ _ _ _ _ Hl E)) as (s' & Hm & Hs).
    exists s'. split; [|done]. unfold mbind, M_bind. by rewrite Hm.
  - exists s. split; [done|]. split; [done|]. by destruct s.
Qed.

Lemma command_at_last kind input c r l s :
  at_last kind input c r l s ->
  command kind input s = command_owned kind c r (set_request (Some host_request_id) s).
Proof.
  intros [Hscreen Hparse Howner Hrec Hkind _ _ _ _ _]. unfold command.
  assert (Hs : (text ← Value.get_str "command" input;
         match check text None with
         | inr StrictError.DuplicateKey => Some Code.Invalid
         | inr StrictError.TooDeep => Some Code.JsonTooDeep
         | _ => None
         end) = None).
  { destruct (Value.get_str "command" input) as [text|] eqn:E; [|done]. simpl. by rewrite Hscreen. }
  rewrite Hs, Hparse, Howner. rewrite at_modify, at_get. cbn [set_request durable_of].
  by rewrite Hrec, Hkind, !bool_decide_eq_true_2.
Qed.

Lemma may_repeat_request c s req : may_repeat c s -> may_repeat c (set_request req s).
Proof.
  unfold may_repeat, compile_members. destruct (assoc "sql" _); [|done].
  destruct (assoc "params" _); [|done]. unfold compile_in_compiler. simpl.
  by destruct (compile _ _ _).
Qed.

Lemma at_last_request kind input c r l s req :
  at_last kind input c r l s -> at_last kind input c r l (set_request req s).
Proof. intros [? ? ? ? ? ? ? ? ? ?]. split; auto using may_repeat_request. Qed.

(** C30: exact retries. A command of the record's own caller at the sequence of the last completed
    command, with the same digest, is answered with exactly the stored response, whatever the
    phase, the deadline and the snapshot are by now: nothing else is done, no state changes, and a
    repeated statement leaves no handle in the compiler. *)
Theorem exact_retry_replays `{!CompilerLaws} kind input c r l s :
  at_last kind input c r l s -> digest_of c = Some (digest l) ->
  let '(result, s') := command kind input s in
  result = inl tt
  /\ effects s' = effects s ++ [Effect.Respond "client" (value_reply (response l))]
  /\ durable_of s' = durable_of s /\ volatile_of s' = volatile_of s /\ reset s' = reset s
  /\ live (compiler s') = live (compiler s).
Proof.
  intros Hl Hd. rewrite (command_at_last _ _ _ _ _ _ Hl).
  apply (at_last_request _ _ _ _ _ _ (Some host_request_id)) in Hl as Hl'.
  destruct (replay_candidate_last _ _ _ _ _ _ Hl') as (s1 & Hc & Hlive & Hs1).
  unfold command_owned. destruct (last_binding _ _ _ _ _ _ Hl) as [b Hb].
  rewrite Hb, (last_caller _ _ _ _ _ _ Hl), String.eqb_refl. cbn [negb].
  unfold mbind, M_bind. rewrite Hc, Hd, String.eqb_refl. unfold respond, push, modify.
  simpl. simpl in Hlive. rewrite Hs1. by repeat split.
Qed.
End retries.

(** The commit of the example, sent again after it succeeded. *)
Definition commit_again : value := command_input "commit" (requote "{'sequence':2}").
Definition commit_command : Command :=
  default {| cmd_kind := ""; cmd_auth := Json.Null; cmd_binding := None; cmd_binding_json := Json.Null;
             cmd_snapshot := ""; cmd_text := ""; cmd_members := []; cmd_sequence := None |}
    (parse_command "commit" commit_again).
Definition committed_record : TxRecord :=
  match record_of committed with
  | Some r => r
  | None => new_record (H4 := world_env 0) {| auth_fingerprint := ""; replay := ""; start_fingerprint := ""; mode := Mode.Read |}
              {| version := 1; scope := ""; database_id := ""; generation := ""; bind_snapshot := "" |} "" 0
  end.
Definition committed_reply : Replay :=
  default {| digest := ""; response := "" |} (last committed_record).

Lemma exact_retry_replays_witness :
  let '(result, s') := command (H4 := world_env 9000) "commit" commit_again committed in
  result = inl tt
  /\ effects s' = effects committed ++ [Effect.Respond "client" (value_reply (response committed_reply))]
  /\ durable_of s' = durable_of committed /\ volatile_of s' = volatile_of committed
  /\ reset s' = reset committed /\ live (compiler s') = live (compiler committed).
Proof.
  apply (exact_retry_replays (H4 := world_env 9000) "commit" commit_again commit_command
           committed_record committed_reply committed).
  - assert (Ht : Value.get_str "command" commit_again = Some (requote "{'sequence':2}"))
      by (vm_compute; reflexivity).
    refine {| last_screened := fun text E => _; last_compiles := fun E => _ |};
      [|vm_compute; reflexivity ..| | | | |].
    + rewrite Ht in E. injection E as <-. vm_compute. reflexivity.
    + eexists. vm_compute. reflexivity.
    + vm_compute. reflexivity.
    + vm_compute. reflexivity.
    + exists 2. split; vm_compute; reflexivity.
    + discriminate.
  - vm_compute. reflexivity.
Defined.

(** ** Who may query a transaction that is being committed

    A validator's capability expires before the transaction's deadline, and a
    callback query reaches the database only with the token of the live
    capability, before both deadlines, under the record's snapshot and at the next
    sequence. *)

Section callback_facts.
Context `{Target} `{Serde} `{StateSerde} `{Sha2} `{Compiler} `{Env}.

Definition is_check (e : effect) : bool :=
  match e with Effect.CheckBinding _ _ _ => true | _ => false end.

(** Which effects [ok] accepts: the immediate ones, and those of a close. *)
Definition closing (e : effect) : bool :=
  match e with Effect.Rollback _ | Effect.Persist _ => true | _ => quiet e end.
Class AcceptsClosing (ok : effect -> bool) := accepts_closing e : closing e = true -> ok e = true.

#[export] Instance closing_quiet ok : AcceptsClosing ok -> AcceptsQuiet ok.
Proof. intros Hu e He. apply Hu. by destruct e. Qed.

(** The only binding check is that of [b], before [d]. *)
Definition checks_only (b : Binding) (d : option Z) (e : effect) : bool :=
  match e with Effect.CheckBinding _ b' d' => bool_decide (b' = b /\ d' = d) | _ => true end.

#[export] Instance checks_only_closing b d : AcceptsClosing (checks_only b d).
Proof. intros e He. by destruct e. Qed.

Section handlers.
Variable ok : effect -> bool.
Context `{HU : !AcceptsClosing ok}.

#[local] Abbreviation quietly := (frames (evolves ok)).
#[local] Hint Extern 1 (quietly (push _)) => apply (base_push (ok := ok)) : frames.
#[local] Hint Extern 1 (quietly (wait _ _ _ _)) => apply (base_wait (ok := ok)) : frames.
#[local] Hint Extern 1 (quietly (with_volatile _)) => apply (base_volatile (ok := ok)) : frames.
#[local] Hint Extern 1 (quietly (volatile_mut _)) =>
  apply (base_volatile_mut (ok := ok)) : frames.
#[local] Hint Extern 1 (quietly (release_in_compiler _)) =>
  apply (base_release (ok := ok)) : frames.
#[local] Hint Extern 1 (quietly release_all) => apply (base_release_all (ok := ok)) : frames.
#[local] Hint Extern 1 (quietly (compile_in_compiler _ _)) =>
  apply (base_compile (ok := ok)) : frames.
#[local] Hint Extern 1 (ok _ = true) => (apply accepts_closing; reflexivity) : frames.
#[local] Hint Extern 1 (quietly (modify (set_request _))) =>
  apply (base_request (ok := ok)) : frames.
#[local] Hint Extern 1 (quietly (modify (fun s => set_allocated (allocated s ++ [?h]) s))) =>
  apply (base_allocated (ok := ok) h) : frames.
#[local] Hint Extern 1 (quiet _ = true) => reflexivity : frames.

Lemma closing_set_phase p : quietly (set_phase p).
Proof. apply frames_modify_same. intros s. by repeat case_match. Qed.
#[local] Hint Resolve closing_set_phase : frames.
Lemma closing_respond r : quietly (respond r).
Proof. unfold respond. frame_go. Qed.
Lemma closing_respond_callback r : quietly (respond_callback r).
Proof. unfold respond_callback. frame_go. Qed.
Lemma closing_release h : quietly (release h).
Proof. unfold release. frame_go. Qed.
Lemma closing_set_connection c : quietly (set_connection c).
Proof. unfold set_connection. frame_go. Qed.
#[local] Hint Resolve closing_respond closing_respond_callback closing_release
  closing_set_connection : frames.
Lemma closing_persist_phase lane r p reply : quietly (persist_phase lane r p reply).
Proof. unfold persist_phase, clear_work. frame_go. Qed.
#[local] Hint Resolve closing_persist_phase : frames.
Lemma closing_end lane p reply : quietly (close lane p reply).
Proof. unfold close, revoke. frame_go. Qed.
#[local] Hint Resolve closing_end : frames.
Lemma closing_fail_validation reply : quietly (fail_validation reply).
Proof. unfold fail_validation. frame_go. Qed.
#[local] Hint Resolve closing_fail_validation : frames.
Lemma closing_compile_members a m : quietly (compile_members a m).
Proof. unfold compile_members. frame_go. Qed.
#[local] Hint Resolve closing_compile_members : frames.
Lemma closing_may_repeat a m : quietly (may_repeat_members a m).
Proof. unfold may_repeat_members. frame_go. Qed.
#[local] Hint Resolve closing_may_repeat : frames.
#[local] Hint Extern 1 (quietly (wait_callback _ _ _ _)) =>
  apply (base_wait_callback (ok := ok)) : frames.
Lemma closing_callback_compile r t c m n b d :
  (forall id, ok (Effect.CheckBinding id b d) = true) -> quietly (callback_compile r t c m n b d).
Proof. intros Hb. unfold callback_compile, keep_handle, log_core_error, log. frame_go. Qed.
End handlers.

(** ** The authorized query *)

(** Effects are only added, and an added binding check satisfies [P]. *)
Definition checks_satisfy (P : effect -> Prop) (s s' : St) : Prop :=
  exists l, effects s' = effects s ++ l /\ forall e, e ∈ l -> is_check e = true -> P e.

Lemma checks_satisfy_only P b d s s' :
  (forall id, P (Effect.CheckBinding id b d)) -> evolves (checks_only b d) s s' ->
  checks_satisfy P s s'.
Proof.
  intros HP [(l & El & Hl) _]. exists l. split; [done|]. rewrite forallb_forall in Hl.
  intros e He Hc. destruct e; try done.
  apply list_elem_of_In in He. apply Hl in He. simpl in He.
  apply bool_decide_eq_true in He as [-> ->]. apply HP.
Qed.

Definition unchecked (e : effect) : bool := negb (is_check e).
#[local] Instance unchecked_closing : AcceptsClosing unchecked.
Proof. intros e He. by destruct e. Qed.

Lemma checks_satisfy_none P s s' : evolves unchecked s s' -> checks_satisfy P s s'.
Proof.
  intros [(l & El & Hl) _]. exists l. split; [done|]. rewrite forallb_forall in Hl.
  intros e He Hc. apply list_elem_of_In, Hl in He. unfold unchecked in He. by rewrite Hc in He.
Qed.

(** The binding check of the query [text] under the capability [cap]: the next sequence, within
    the statement limit, of a record before its deadline and compiled under the current
    snapshot; the check's own deadline is the earlier of the record's and the capability's. *)
Definition next_query (s : St) (text : string) (cap : Capability) (e : effect) : Prop :=
  exists id members r,
    parse_callback text = Some (members, cap_next_sequence cap)
    /\ cap_next_sequence cap <= max_transaction_statements limits
    /\ record_of s = Some r /\ past_deadline r = false
    /\ rec_snapshot r = snapshot_of (compiler s)
    /\ e = Effect.CheckBinding id (binding r)
             ((fun at_ms => Z.min at_ms (cap_expires_at_ms cap)) <$> rec_expires_at_ms r).

#[local] Hint Resolve closing_respond_callback closing_fail_validation
  closing_may_repeat closing_end : frames.
#[local] Hint Extern 0 (AcceptsClosing _) => exact _ : frames.

Lemma callback_authorized_checks request text cap s :
  checks_satisfy (next_query s text cap) s (snd (callback_authorized request text cap s)).
Proof.
  unfold callback_authorized.
  destruct (parse_callback text) as [[members n]|] eqn:Ep.
  2:{ apply checks_satisfy_none. frame_here. }
  rewrite at_get, at_or_fault. destruct (record_of s) as [r|] eqn:Er.
  2:{ by apply checks_satisfy_none. }
  destruct (past_deadline r || _) eqn:Ed; [apply checks_satisfy_none; frame_here|].
  apply orb_false_iff in Ed as [Ed Es]. apply negb_false_iff, String.eqb_eq in Es.
  cbv zeta. destruct (negb _ || (max_transaction_statements limits <? n)%Z) eqn:En.
  { apply checks_satisfy_none. frame_here. }
  apply orb_false_iff in En as [En Hm]. apply negb_false_iff, Z.eqb_eq in En as ->.
  apply Z.ltb_ge in Hm. eapply checks_satisfy_only; [by intros id; exists id, members, r|].
  assert (Hc : forall b d id, checks_only b d (Effect.CheckBinding id b d) = true)
    by (intros; by apply bool_decide_eq_true).
  pose proof (fun b d c => closing_callback_compile (checks_only b d) request text c members
                (cap_next_sequence cap) b d (Hc b d)) as Hq.
  frame_here.
Qed.

(** The query [text] was presented with the token of the live capability, before it expired. *)
Definition presented (s : St) (input : value) (cap : Capability) (text : string) : Prop :=
  exists fields token,
    exact_object input ["kind"; "validationId"; "capability"; "command"] [] = Some fields
    /\ field_str "capability" fields = Some token /\ field_str "command" fields = Some text
    /\ capability_live s None = Some cap /\ (vol ← volatile_of s; callback vol) = None
    /\ token_syntax token = true /\ sha256_hex token = cap_token_hash cap
    /\ now_ms host < cap_expires_at_ms cap.

(** C15: A validator's query reaches the database only with authority. Whatever a caller sends to
    the callback lane, a binding check is issued only when the caller presents a well-formed token
    whose hash is that of the live capability (so the record is validating, its connection open
    and its validator called), strictly before the capability expires and before the record's
    deadline, under the record's own snapshot, with exactly the next sequence, within the
    statement limit. The check is for the record's binding, and its deadline is the earlier of
    the two deadlines. *)
Theorem callback_query_authorized input s :
  checks_satisfy
    (fun e => exists cap text, presented s input cap text /\ next_query s text cap e)
    s (snd (callback_query input s)).
Proof.
  unfold callback_query. set (P := fun e => _).
  destruct (exact_object _ _ _) as [fields|] eqn:Ef; [|apply checks_satisfy_none; frame_here].
  destruct (field_str "validationId" fields) as [validation|];
    [|apply checks_satisfy_none; frame_here].
  destruct (field_str "capability" fields) as [token|] eqn:Et;
    [|apply checks_satisfy_none; frame_here].
  destruct (field_str "command" fields) as [text|] eqn:Ex; [|apply checks_satisfy_none; frame_here].
  cbv zeta. case_match; [apply checks_satisfy_none; frame_here|]. rewrite at_get.
  destruct (opt_existsb _ (volatile_of s)) eqn:Ec; [apply checks_satisfy_none; frame_here|].
  destruct (capability_live s None) as [cap|] eqn:El; [|apply checks_satisfy_none; frame_here].
  destruct (negb _ || _) eqn:Eg; [apply checks_satisfy_none; frame_here|].
  apply orb_false_iff in Eg as [Eg Ee]. apply negb_false_iff, andb_true_iff in Eg as [Es Eh].
  rewrite same_hash_eqb in Eh. apply String.eqb_eq in Eh. apply Z.leb_gt in Ee.
  destruct (callback_authorized_checks host_request_id text cap s) as (l & Hl & Hq).
  exists l. split; [done|]. intros e He Hi. exists cap, text. split; [|by apply Hq].
  exists fields, token. repeat split; try done.
  destruct (volatile_of s) as [vol|]; [|done]. simpl in *.
  apply bool_decide_eq_false in Ec. destruct (callback vol); [by destruct Ec|done].
Qed.

(** ** The grant *)

Definition is_call (e : effect) : bool :=
  match e with Effect.CallValidator _ _ _ _ _ => true | _ => false end.
Definition uncalled (e : effect) : bool := negb (is_call e).
#[local] Instance uncalled_closing : AcceptsClosing uncalled.
Proof. intros e He. by destruct e. Qed.

(** The call of the validator of check [c] with a fresh capability: it expires strictly after now
    and no later than the check's timeout and the record's deadline, and the volatile part holds
    the hash of its token, for this check, with nothing used yet. *)
Definition granted (checks : CommitChecks) (s s' : St) (e : effect) : Prop :=
  exists c r deadline bytes session role id payload,
    let expires := Z.min (sat_add64 (now_ms host) (check_timeout_ms c)) deadline in
    cc_checks checks !! Z.to_nat (cc_index checks) = Some c
    /\ record_of s = Some r /\ rec_expires_at_ms r = Some deadline
    /\ connection_of s = Connection.Open /\ now_ms host < expires
    /\ entropy_bytes host = Some bytes
    /\ e = Effect.CallValidator id (check_id c) payload
             {| grant_token := base64url bytes; grant_expires_at_ms := expires |}
             (expires - now_ms host)
    /\ (vol ← volatile_of s'; capability vol) = Some
         {| cap_token_hash := sha256_hex (base64url bytes); cap_expires_at_ms := expires;
            cap_check := check_id c; cap_session := session; cap_role := role;
            cap_next_sequence := 1; cap_last := None; cap_rows := 0; cap_result_bytes := 0 |}.

Definition calls_granted (checks : CommitChecks) (s s' : St) : Prop :=
  exists l, effects s' = effects s ++ l /\ forall e, e ∈ l -> is_call e = true -> granted checks s s' e.

Lemma calls_granted_none checks s s' : evolves uncalled s s' -> calls_granted checks s s'.
Proof.
  intros [(l & El & Hl) _]. exists l. split; [done|]. rewrite forallb_forall in Hl.
  intros e He Hc. apply list_elem_of_In, Hl in He. unfold uncalled in He. by rewrite Hc in He.
Qed.

(** A validator is called only with a capability the callback lane can honour. Whenever
    issuing a check calls its validator, the connection is open, the capability expires strictly
    after the current time and no later than the record's deadline or the check's timeout, the
    call's timeout is what is left of it, the token is the base64url of the step's entropy, and
    the state holds exactly the token's hash with that expiry, for that check, at sequence 1. *)
Theorem issue_grants lane request_id checks s :
  calls_granted checks s (snd (issue lane request_id checks s)).
Proof.
  unfold issue. rewrite at_or_fault.
  destruct (cc_checks checks !! _) as [c|] eqn:Ec; [|by apply calls_granted_none].
  rewrite at_get, at_or_fault. destruct (record_of s) as [r|] eqn:Er; [|by apply calls_granted_none].
  rewrite at_or_fault. destruct (rec_expires_at_ms r) as [deadline|] eqn:Ed;
    [|by apply calls_granted_none].
  rewrite at_lift. destruct (hook_statements _ _) as [[vs sts]|]; [|by apply calls_granted_none].
  cbv zeta. destruct (_ || _) eqn:Eg; [apply calls_granted_none; frame_here|].
  apply orb_false_iff in Eg as [Ee Eo]. apply Z.leb_gt in Ee.
  apply negb_false_iff, bool_decide_eq_true in Eo.
  rewrite at_or_fault. destruct (parse _) as [auth|]; [|by apply calls_granted_none].
  assert (Hrole : forall (m : M string) (k : string -> M unit), (m = fault "checks_role" \/ exists a, m = mret a) ->
    (forall a, calls_granted checks s (snd (k a s))) -> calls_granted checks s (snd ((m ≫= k) s))).
  { intros m k [->|(a & ->)] Hk; [by apply calls_granted_none|apply Hk]. }
  apply Hrole.
  { case_match; [eauto|]. unfold or_fault. case_match; eauto. }
  intros role. rewrite at_or_fault.
  destruct (callback_session auth role) as [session|]; [|by apply calls_granted_none].
  rewrite at_or_fault. case_match; [|by apply calls_granted_none]. rewrite at_or_fault.
  destruct (entropy_bytes host) as [bytes|] eqn:Eb; [|by apply calls_granted_none].
  unfold volatile_mut. rewrite at_modify, wait_spec. cbv zeta.
  case_match; [by apply calls_granted_none, evolves_same|].
  eexists [_]. split; [done|]. intros e He _. apply list_elem_of_singleton in He as ->.
  exists c, r, deadline, bytes. by do 4 eexists.
Qed.
End callback_facts.

(** ** A validator's query that is checked *)
Definition callback_input (token : string) : value :=
  Value.object [("kind", jstr "callback"); ("validationId", jstr ("cval_" ++ hex32)%string);
                ("capability", jstr token);
                ("command", jstr (requote "{'sequence':1,'sql':'SELECT','params':{}}"))].

Definition issued_token : string := default "" (base64url <$> entropy_bytes (world_host 3050)).

Definition queried (token : string) : St :=
  snd (callback_query (H4 := world_env 3050) (callback_input token)
         (set_effects [] validating)).

Example issued_token_checked : existsb is_check (effects (queried issued_token)) = true.
Proof. vm_compute. reflexivity. Qed.
Example other_token_unchecked : existsb is_check (effects (queried "other")) = false.
Proof. vm_compute. reflexivity. Qed.
Example validator_called : existsb is_call (effects validating) = true.
Proof. vm_compute. reflexivity. Qed.
