(* ===== verification/TursoFacts.v ===== *)
(** * What a validated result is

    The formats of the result boundary against the value contract of Core.v, the texts on which
    they panic, and what a result that passes the validation of Turso.v says. *)

From S2P Require Import Prelude Result F64 Utf8 Core Plan Turso.

(** ** Numbers of a few digits *)

Lemma digits_value_bound s : forall acc,
  str_forallb is_digit s = true -> 0 <= acc ->
  0 <= digits_value acc s < (acc + 1) * 10 ^ len s.
Proof.
  unfold len. induction s as [|c s IH]; intros acc Hs Ha.
  - cbn. lia.
  - cbn [str_forallb] in Hs. bools. unfold is_digit, in_range in *. bools.
    assert (Hc : 0 <= byte_of c - 48 < 10) by lia.
    specialize (IH (acc * 10 + (byte_of c - 48))). change (digits_value acc (String c s))
      with (digits_value (acc * 10 + (byte_of c - 48)) s).
    cbn [String.length]. rewrite Nat2Z.inj_succ, Z.pow_succ_r by lia.
    assert (0 < 10 ^ Z.of_nat (String.length s)) by (apply Z.pow_pos_nonneg; lia).
    destruct IH as [Hlo Hhi]; [done|lia|]. nia.
Qed.

(** On short texts the width of the integer does not matter. *)
Lemma parse_short m m' k s :
  (String.length s <= k)%nat -> 10 ^ Z.of_nat k <= m -> 10 ^ Z.of_nat k <= m' ->
  parse_unsigned m s = parse_unsigned m' s.
Proof.
  intros Hl Hm Hm'. unfold parse_unsigned.
  set (body := default s (strip_prefix "+" s)).
  assert (Hb : (String.length body <= k)%nat).
  { subst body. destruct (strip_prefix "+" s) as [t|] eqn:E; [|done]. simpl.
    apply strip_prefix_Some in E as ->. rewrite append_cons, append_nil in Hl. simpl in Hl. lia. }
  destruct (digits body) eqn:Hd; [|done]. unfold digits in Hd. bools.
  assert (Hv := digits_value_bound body 0).
  destruct Hv as [H1 H2]; [done|lia|].
  assert (10 ^ len body <= 10 ^ Z.of_nat k) by (apply Z.pow_le_mono_r; unfold len; lia).
  simpl andb. rewrite !(proj2 (Z.leb_le _ _)) by lia. done.
Qed.

(** A slice lies between two boundaries of the text. *)
Lemma slice_inv s a b p :
  slice s a b = Some p ->
  is_char_boundary s a = true /\ is_char_boundary s b = true /\ (a <= b <= String.length s)%nat
  /\ p = substring a (b - a) s.
Proof.
  unfold slice, str_get.
  destruct (is_char_boundary s a), (is_char_boundary s b); try done. simpl andb.
  destruct (Nat.leb_spec b (String.length s)), (Nat.leb_spec a b); try done. simpl.
  by intros [= <-].
Qed.

Lemma slice_length s a b p : slice s a b = Some p -> String.length p = (b - a)%nat.
Proof. intros (_ & _ & ? & ->)%slice_inv. apply substring_length. lia. Qed.

Lemma number_at_short m m' s a b :
  10 ^ Z.of_nat (b - a) <= m -> 10 ^ Z.of_nat (b - a) <= m' ->
  number_at m s a b = number_at m' s a b.
Proof.
  intros Hm Hm'. unfold number_at. destruct (slice s a b) as [p|] eqn:E; [|done].
  apply slice_length in E as Hl. simpl. apply (parse_short m m' (b - a)); lia.
Qed.

Lemma valid_date_is_basic value : valid_date value = basic_date value.
Proof.
  unfold valid_date, basic_date, part_at.
  rewrite (number_at_short U32_MAX 65535 value 0 4), (number_at_short U32_MAX 255 value 5 7),
    (number_at_short U32_MAX 255 value 8 10) by (unfold U32_MAX; simpl; lia). done.
Qed.

Lemma part_below_some bound text a b p :
  10 ^ Z.of_nat (b - a) <= 255 -> slice text a b = Some p ->
  part_below bound text a b = Some (field_below bound text a b).
Proof.
  intros Hb Hp. unfold part_below, field_below, number_at. rewrite Hp. simpl. do 2 f_equal.
  apply slice_length in Hp as Hl. apply (parse_short _ _ (b - a)); unfold U32_MAX; lia.
Qed.

(** ** The formats agree with the contract *)

Lemma field_below_slice bound text a b :
  field_below bound text a b = true -> is_Some (slice text a b).
Proof. unfold field_below, number_at. destruct (slice text a b); [by eexists|done]. Qed.

(** A field that is in range is read as such at both boundaries. *)
Lemma part_below_true bound text a b :
  10 ^ Z.of_nat (b - a) <= 255 ->
  part_below bound text a b = Some true <-> field_below bound text a b = true.
Proof.
  intros Hb. destruct (slice text a b) as [p|] eqn:Hp.
  - rewrite (part_below_some _ _ _ _ p) by done. split; [by intros [= ->]|by intros ->].
  - unfold part_below, field_below, number_at. by rewrite Hp.
Qed.

Lemma and_also_true a b : and_also a b = Some true <-> a = Some true /\ b = Some true.
Proof. destruct a as [[]|]; simpl; intuition congruence. Qed.

Lemma valid_offset_true suffix :
  valid_offset suffix = Some true <-> offset_suffix suffix = true \/ suffix = "z"%string.
Proof.
  unfold valid_offset, offset_suffix. destruct (String.eqb_spec suffix "Z") as [->|HZ]; [tauto|].
  destruct (String.eqb_spec suffix "z") as [->|Hz]; [tauto|]. cbn [orb].
  change (opt_existsb (fun n => n <? 24)%Z (number_at 255 suffix 1 3))
    with (field_below 24 suffix 1 3).
  change (opt_existsb (fun n => n <? 60)%Z (number_at 255 suffix 4 6))
    with (field_below 60 suffix 4 6).
  destruct (_ && _ && _) eqn:Eb; cbn [negb andb].
  - rewrite and_also_true, !part_below_true, andb_true_iff by (simpl; lia). tauto.
  - split; [done|]. by intros [|].
Qed.

Lemma valid_time_true time :
  valid_time time = Some true <->
  negb (field_below 24 time 0 2) || negb (field_below 60 time 3 5)
  || negb (field_below 60 time 6 8) = false.
Proof.
  unfold valid_time. rewrite !and_also_true, !part_below_true by (simpl; lia).
  rewrite !orb_false_iff, !negb_false_iff. tauto.
Qed.

(** The rest of a text from a position where a slice ends. *)
Lemma slice_rest s a b p :
  slice s a b = Some p -> slice s b (String.length s) = Some (substring b (String.length s - b) s).
Proof.
  intros (_ & Hb & [_ Hl] & _)%slice_inv. unfold slice, str_get.
  assert (is_char_boundary s (String.length s) = true) as ->.
  { unfold is_char_boundary. destruct (String.get _ s) as [c|] eqn:E; [|apply Nat.eqb_refl].
    exfalso. revert E. clear. induction s as [|d s IH]; [done|exact IH]. }
  by rewrite Hb, (proj2 (Nat.leb_le _ _) Hl), Nat.leb_refl.
Qed.

(** A datetime the contract accepts is accepted here, and one accepted here without an offset is
    accepted by the contract. *)
Lemma datetime_agrees value off :
  (basic_datetime value off = true -> valid_datetime value off = Some true)
  /\ (off = false -> valid_datetime value off = Some true -> basic_datetime value off = true).
Proof.
  unfold valid_datetime, basic_datetime. destruct (len value <? 19)%Z; [done|].
  destruct (slice value 0 10) as [date|]; [|done]. simpl. rewrite valid_date_is_basic.
  destruct (basic_date date); [|done]. destruct (byte_is value 10 84 || byte_is value 10 32); [|done].
  simpl. destruct (slice value 11 19) as [time|] eqn:Ht; [|done]. simpl.
  destruct (negb (byte_is time 2 58) || negb (byte_is time 5 58)); [done|].
  destruct (negb (field_below 24 time 0 2) || _ || _) eqn:Hv.
  { split; [done|]. intros _. destruct (valid_time time) as [[]|] eqn:E; [|done..].
    apply valid_time_true in E. congruence. }
  apply valid_time_true in Hv. rewrite Hv, (slice_rest _ _ _ _ Ht).
  unfold without_fraction. cbn [default from_option mbind option_bind negb id].
  destruct (if starts_with _ _ then _ else _) as [suffix|]; [|done].
  destruct off; simpl; [|by split; [intros ->|intros _ [= ->]]].
  split; [|done]. intros Hs. apply valid_offset_true. by left.
Qed.

(** ** Texts that panic *)

(** Well-formed UTF-8, up to overlong forms: every [str] is. [need] is the number of continuation
    bytes to come. *)
Fixpoint utf8_from (need : nat) (s : string) : bool :=
  match s, need with
  | EmptyString, O => true
  | EmptyString, S _ => false
  | String c s', S need => in_range 128 191 (byte_of c) && utf8_from need s'
  | String c s', O =>
      if (byte_of c <? 128)%Z then utf8_from 0 s'
      else if in_range 194 223 (byte_of c) then utf8_from 1 s'
      else if in_range 224 239 (byte_of c) then utf8_from 2 s'
      else in_range 240 244 (byte_of c) && utf8_from 3 s'
  end.
Definition utf8 : string -> bool := utf8_from 0.

Lemma utf8_start s : utf8 s = true -> is_char_boundary s 0 = true.
Proof.
  unfold utf8, is_char_boundary. destruct s as [|c s]; [done|]. simpl.
  unfold in_range. intros Hu. apply negb_true_iff, andb_false_iff.
  destruct (Z.ltb_spec (byte_of c) 128); [left; apply Z.leb_gt; lia|right; apply Z.leb_gt].
  repeat case_match; bools; lia.
Qed.

(** A character of one byte ends at the next boundary. *)
Definition settled (s : string) : Prop :=
  forall i c, String.get i s = Some c -> byte_of c < 128 -> is_char_boundary s (S i) = true.

Lemma utf8_settled s : forall need, utf8_from need s = true -> settled s.
Proof.
  induction s as [|d s IH]; intros need Hu i c Hc Hb; [done|].
  assert (Hs : exists need', utf8_from need' s = true /\ (byte_of d < 128 -> need' = O)).
  { simpl in Hu. destruct need as [|need].
    - destruct (Z.ltb_spec (byte_of d) 128); [by exists O|].
      repeat case_match; bools; (eexists; split; [eassumption|lia]).
    - bools. exists need. split; [done|]. unfold in_range in *. bools. lia. }
  destruct Hs as (need' & Hu' & Hd). destruct i as [|i].
  - injection Hc as <-. rewrite (Hd Hb) in Hu'. apply utf8_start in Hu'.
    unfold is_char_boundary in *. destruct s; [done|exact Hu'].
  - specialize (IH _ Hu' i c Hc Hb). unfold is_char_boundary in *. simpl String.get in *.
    destruct (String.get (S i) s) eqn:E; [exact IH|]. exact IH.
Qed.

Lemma get_str_drop n : forall s i, String.get i (str_drop n s) = String.get (n + i) s.
Proof. induction n as [|n IH]; intros [|c s] i; [done..| |apply IH]. by destruct i. Qed.

Lemma str_drop_length n : forall s, String.length (str_drop n s) = (String.length s - n)%nat.
Proof. induction n as [|n IH]; intros [|c s]; [done..|]. apply IH. Qed.

Lemma substring_rest s : forall n,
  (n <= String.length s)%nat -> substring n (String.length s - n) s = str_drop n s.
Proof.
  assert (Hall : forall t, substring 0 (String.length t) t = t)
    by (induction t; simpl; [done|by f_equal]).
  induction s as [|c s IH]; intros [|n] Hn; [done|done| |].
  - simpl. by rewrite Hall.
  - simpl in *. apply IH. lia.
Qed.

Lemma boundary_drop n s i :
  (n <= String.length s)%nat -> is_char_boundary (str_drop n s) i = is_char_boundary s (n + i).
Proof.
  intros Hn. unfold is_char_boundary. rewrite get_str_drop, str_drop_length.
  destruct (String.get (n + i) s); [done|]. destruct (Nat.eqb_spec i (String.length s - n)).
  - symmetry. apply Nat.eqb_eq. lia.
  - symmetry. apply Nat.eqb_neq. lia.
Qed.

Lemma settled_drop n s : (n <= String.length s)%nat -> settled s -> settled (str_drop n s).
Proof.
  intros Hn Hs i c Hc Hb. rewrite boundary_drop by done. rewrite get_str_drop in Hc.
  replace (n + S i)%nat with (S (n + i)) by lia. by eapply Hs.
Qed.

Lemma byte_is_get s i b : byte_is s i b = true -> exists c, String.get i s = Some c /\ byte_of c = b.
Proof. unfold byte_is. destruct (String.get i s) as [c|]; simpl; [|done]. intros. bools. by exists c. Qed.

(** Next to an ASCII byte the text may be sliced. *)
Lemma ascii_boundaries s i b :
  settled s -> byte_is s i b = true -> b < 128 ->
  is_char_boundary s i = true /\ is_char_boundary s (S i) = true.
Proof.
  intros Hs (c & Hc & <-)%byte_is_get Hb. split; [|by eapply Hs].
  unfold is_char_boundary. rewrite Hc. unfold in_range. rewrite (proj2 (Z.leb_gt _ _)) by lia. done.
Qed.

Lemma part_below_some' bound s a b :
  is_char_boundary s a = true -> is_char_boundary s b = true ->
  (a <= b <= String.length s)%nat -> part_below bound s a b <> None.
Proof.
  intros Ha Hb Hl. unfold part_below, slice, str_get. rewrite Ha, Hb. simpl.
  by rewrite !(proj2 (Nat.leb_le _ _)) by lia.
Qed.

Lemma and_also_some a b : a <> None -> b <> None -> and_also a b <> None.
Proof. by destruct a as [[]|]. Qed.

Lemma get_lt s i : (i < String.length s)%nat <-> is_Some (String.get i s).
Proof.
  revert i. induction s as [|c s IH]; intros [|i]; simpl.
  - split; [lia|]. by intros [].
  - split; [lia|]. by intros [].
  - split; [by eexists|lia].
  - rewrite <- IH. lia.
Qed.

Lemma slice_boundary s a b p i :
  slice s a b = Some p -> (i <= b - a)%nat -> is_char_boundary p i = is_char_boundary s (a + i).
Proof.
  intros Hp Hi. pose proof (slice_length _ _ _ _ Hp) as Hl.
  apply slice_inv in Hp as (_ & Hb & Hab & ->). destruct (decide (i = b - a)%nat) as [->|Hne].
  - replace (a + (b - a))%nat with b by lia. rewrite Hb. unfold is_char_boundary.
    destruct (String.get _ _) as [c|] eqn:E.
    + assert (is_Some (String.get (b - a) (substring a (b - a) s))) as Hlt%get_lt by by eexists. lia.
    + apply Nat.eqb_eq. lia.
  - unfold is_char_boundary. rewrite substring_correct1, Nat.add_comm by lia.
    destruct (String.get (a + i) s) as [c|] eqn:E; [done|].
    assert (a + i < String.length s)%nat as [? Hs]%get_lt by lia. congruence.
Qed.

Lemma settled_slice s a b p : settled s -> slice s a b = Some p -> settled p.
Proof.
  intros Hs Hp i c Hc Hb. assert (i < String.length p)%nat as Hi by (apply get_lt; by eexists).
  pose proof (slice_length _ _ _ _ Hp) as Hl. rewrite (slice_boundary s a b) by (done || lia).
  apply slice_inv in Hp as (_ & _ & _ & ->). rewrite substring_correct1 in Hc by lia.
  replace (a + S i)%nat with (S (i + a)) by lia. by eapply Hs.
Qed.

(** The fields of a time and of an offset are cut next to ASCII bytes. *)
Lemma valid_time_total value time :
  settled value -> slice value 11 19 = Some time ->
  byte_is time 2 58 = true -> byte_is time 5 58 = true -> valid_time time <> None.
Proof.
  intros Hs Ht H2 H5. pose proof (settled_slice _ _ _ _ Hs Ht) as Hst.
  pose proof (slice_length _ _ _ _ Ht) as Hl.
  destruct (ascii_boundaries time 2 58), (ascii_boundaries time 5 58); try done.
  assert (Hfirst : is_char_boundary time 0 = true).
  { rewrite (slice_boundary value 11 19) by (done || lia). by apply slice_inv in Ht as [? _]. }
  assert (Hlast : is_char_boundary time 8 = true).
  { rewrite (slice_boundary value 11 19) by (done || lia). by apply slice_inv in Ht as (_ & ? & _). }
  unfold valid_time. repeat apply and_also_some; apply part_below_some'; done || lia.
Qed.

Lemma valid_offset_total suffix : settled suffix -> valid_offset suffix <> None.
Proof.
  intros Hs. unfold valid_offset. destruct (_ || _); [done|].
  destruct (_ && _ && _) eqn:E; simpl; [|done]. bools.
  assert (Hl : String.length suffix = 6%nat) by (unfold len in *; lia).
  destruct (ascii_boundaries suffix 3 58); [done..|].
  assert (Hfirst : is_char_boundary suffix 1 = true).
  { match goal with H : _ || _ = true |- _ => apply orb_true_iff in H as [Hb|Hb] end;
      by eapply ascii_boundaries. }
  assert (Hlast : is_char_boundary suffix 6 = true).
  { unfold is_char_boundary. destruct (String.get 6 suffix) eqn:E; [|by rewrite Hl].
    assert (6 < String.length suffix)%nat by (apply get_lt; by eexists). lia. }
  apply and_also_some; apply part_below_some'; done || lia.
Qed.

Lemma without_fraction_settled suffix rest :
  settled suffix -> without_fraction suffix = Some rest -> settled rest.
Proof.
  unfold without_fraction. intros Hs. destruct (starts_with "." suffix); [|by intros [= <-]].
  destruct (String.eqb _ ""); [done|]. intros [= <-]. set (n := (_ + 1)%nat).
  destruct (Nat.le_gt_cases n (String.length suffix)); [by apply settled_drop|].
  intros i c Hc. assert (i < String.length (str_drop n suffix))%nat by (apply get_lt; by eexists).
  rewrite str_drop_length in *. lia.
Qed.

(** Texts that panic. The check of a datetime column panics exactly on the texts of 19 bytes or
    more that have no character boundary at byte 10, or whose date and separator are right and that
    have no boundary at byte 19. *)
Theorem datetime_panics value require_offset :
  utf8 value = true ->
  valid_datetime value require_offset = None <->
  19 <= len value /\
  (is_char_boundary value 10 = false
   \/ opt_existsb basic_date (slice value 0 10) = true
      /\ byte_is value 10 84 || byte_is value 10 32 = true
      /\ is_char_boundary value 19 = false).
Proof.
  intros Hu. pose proof (utf8_settled _ _ Hu) as Hs. pose proof (utf8_start _ Hu) as H0.
  unfold valid_datetime. destruct (Z.ltb_spec (len value) 19) as [|Hl]; [split; [done|lia]|].
  assert (Hlen : (19 <= String.length value)%nat) by (unfold len in *; lia).
  assert (Hcut : forall a b, (a <= b <= 19)%nat -> is_char_boundary value a = true ->
    slice value a b = if is_char_boundary value b then Some (substring a (b - a) value) else None).
  { intros a b Hab Ha. unfold slice, str_get. rewrite Ha. simpl.
    by rewrite !(proj2 (Nat.leb_le _ _)) by lia. }
  rewrite (Hcut 0%nat 10%nat) by (done || lia).
  destruct (is_char_boundary value 10) eqn:H10; simpl; [|tauto]. rewrite valid_date_is_basic.
  destruct (basic_date _); simpl; [|intuition congruence].
  destruct (byte_is value 10 84 || byte_is value 10 32) eqn:Hsep; simpl; [|intuition congruence].
  assert (H11 : is_char_boundary value 11 = true)
    by (apply orb_true_iff in Hsep as [Hb|Hb]; by eapply ascii_boundaries).
  pose proof (Hcut 11%nat 19%nat ltac:(lia) H11) as Ht. rewrite Ht.
  destruct (is_char_boundary value 19) eqn:H19; simpl; [|intuition congruence].
  split; [|intuition congruence]. intros Hv. exfalso. revert Hv.
  set (time := substring _ _ value) in *. destruct (byte_is time 2 58) eqn:H2, (byte_is time 5 58) eqn:H5;
    try done. simpl. pose proof (valid_time_total _ _ Hs Ht H2 H5).
  destruct (valid_time time) as [[]|]; try done. simpl. rewrite (slice_rest _ _ _ _ Ht). simpl.
  rewrite substring_rest by lia. destruct (without_fraction _) as [suffix|] eqn:Hf; [|done].
  destruct require_offset; [|done]. apply valid_offset_total.
  eapply without_fraction_settled; [|exact Hf]. by apply settled_drop.
Qed.

(** Twenty bytes, the last two of which are one character across byte 19. *)
Definition split_second : string :=
  ("2024-01-01T12:00:5" ++ String (char_of 195) (String (char_of 169) ""))%string.

Lemma datetime_panics_witness : valid_datetime split_second true = None.
Proof. apply (datetime_panics split_second true); vm_compute; [done|]. split; [done|]. by right. Defined.

(** ** The contract at both boundaries *)

Section contract.
Context `{Regex}.

Lemma require_ok {E} b (e : E) : require b e = inl () <-> b = true.
Proof. by destruct b. Qed.

Lemma constraints_agree value descriptor max_bytes :
  match value with LogicalValue.Bytes bytes => Z.of_nat (length bytes) <= max_bytes | _ => True end ->
  value <> LogicalValue.Null ->
  value_satisfies_contract value descriptor max_bytes = true <->
  format_accepts value (vd_format descriptor) = true
  /\ validate_constraints value descriptor = inl ().
Proof.
  intros Hb Hn. unfold value_satisfies_contract, validate_constraints.
  replace (match value with LogicalValue.Bytes _ => _ | _ => _ end) with false
    by (destruct value; try done; symmetry; by apply Z.ltb_ge).
  rewrite bool_decide_eq_false_2 by done. destruct (format_accepts value _); simpl; [|by split; [|intros []]].
  destruct (vd_constraints descriptor) as [c|]; [|done].
  change (existsb (constraint_equal value)) with (existsb (scalar_allowed value)).
  destruct (negb _ && negb _); [by split; [|intros []]|].
  destruct (_ || _); [by split; [|intros []]|].
  destruct value; rewrite ?require_ok; by (split; [intros; split|intros []]).
Qed.

Lemma email_is_accepted value :
  valid_email value = true ->
  opt_existsb (fun '(local, domain) =>
    negb (String.eqb local "")
    && negb (str_forallb (fun c => negb (byte_of c =? 46)%Z) domain)) (split_at value) = true.
Proof.
  unfold valid_email. destruct (split_at value) as [[local domain]|]; [|done]. intros Hv. bools.
  simpl. fold is_dot. rewrite andb_true_iff, !negb_true_iff. done.
Qed.

Lemma format_agrees value descriptor :
  (vd_format descriptor <> Some "email"%string ->
   format_accepts value (vd_format descriptor) = true -> validate_format value descriptor = inl ())
  /\ (vd_format descriptor <> Some "rfc3339"%string ->
   validate_format value descriptor = inl () -> format_accepts value (vd_format descriptor) = true).
Proof.
  unfold validate_format, format_accepts. destruct (vd_format descriptor) as [f|]; [|done].
  destruct (str_in f _); [done|]. destruct value as [|value| | | | |]; try done.
  destruct (String.eqb f "uuid"); [by destruct (valid_uuid value) eqn:E; unfold valid_uuid in E; rewrite E|].
  destruct (String.eqb_spec f "email") as [->|].
  { split; [done|]. intros _ He. apply email_is_accepted. by destruct (valid_email value). }
  destruct (String.eqb f "iso-date").
  { rewrite <- valid_date_is_basic. by destruct (valid_date value). }
  destruct (String.eqb f "sqlite-datetime").
  { destruct (datetime_agrees value false) as [Hto Hfrom]. split; intros _ Hv.
    - by rewrite Hto.
    - apply Hfrom; [done|]. by destruct (valid_datetime value false) as [[]|]. }
  destruct (String.eqb_spec f "rfc3339") as [->|]; [|done].
  split; [|done]. intros _ Hv. by rewrite (proj1 (datetime_agrees value true) Hv).
Qed.
End contract.

(** C25: both boundaries. A value the parameters of a request may have for a column, by its type and
    contract, is a valid result for that column; and a valid result satisfies the contract of its
    column. Emails are the exception to the first, offsets written [z] to the second. *)
Theorem written_values_return `{Regex} value descriptor types max_bytes :
  (value_satisfies_contract value descriptor max_bytes = true ->
   value = LogicalValue.Null
   \/ logical_value_matches value (vd_logical_type descriptor) max_bytes = true ->
   vd_logical_type descriptor ∈ types -> vd_format descriptor <> Some "email"%string ->
   (forall x, value = LogicalValue.Number x -> F64.is_finite x = true) ->
   validate_value value descriptor types max_bytes = inl ())
  /\ (validate_value value descriptor types max_bytes = inl () ->
      vd_format descriptor <> Some "rfc3339"%string ->
      value_satisfies_contract value descriptor max_bytes = true).
Proof.
  destruct (decide (value = LogicalValue.Null)) as [->|Hn].
  { unfold validate_value, value_satisfies_contract. simpl. rewrite require_ok. done. }
  split.
  - intros Hc [->|Hm] Ht Hf Hx; [done|].
    assert (Hb : match value with LogicalValue.Bytes bytes => Z.of_nat (length bytes) <= max_bytes
      | _ => True end).
    { destruct value; try done. destruct (vd_logical_type descriptor); try done. by apply Z.leb_le. }
    apply constraints_agree in Hc as [Hacc Hcon]; [|done..]. unfold validate_value.
    replace (match value with LogicalValue.Bytes _ => _ | _ => _ end) with false
      by (destruct value; try done; symmetry; by apply Z.ltb_ge).
    rewrite bool_decide_eq_false_2 by done.
    rewrite (proj1 (format_agrees value descriptor)) by done.
    assert (existsb (type_matches value) types = true) as ->.
    { apply existsb_exists. exists (vd_logical_type descriptor). rewrite <- list_elem_of_In.
      split; [done|]. destruct value, (vd_logical_type descriptor); simpl in *; auto. }
    assert (unsafe_integer value descriptor = false) as ->; [|exact Hcon].
    destruct value as [| | |n| | |]; try done. unfold unsafe_integer.
    destruct (decide (vd_logical_type descriptor = LogicalType.Integer)) as [Hi|];
      [|by rewrite bool_decide_eq_false_2].
    rewrite Hi in *. unfold logical_value_matches, in_range in Hm. bools.
    apply andb_false_iff. right. apply Z.ltb_ge. lia.
  - unfold validate_value. intros Hv Hf.
    destruct (match value with LogicalValue.Bytes _ => _ | _ => _ end) eqn:Hb; [done|].
    rewrite bool_decide_eq_false_2 in Hv by done. destruct (_ || _); [done|].
    apply result_bind_inl in Hv as [[] [Hfmt Hcon]]. apply constraints_agree; [|done|].
    { destruct value; try done. by apply Z.ltb_ge. }
    split; [|done]. by apply (proj2 (format_agrees value descriptor)).
Qed.

(** A text column with a format, and a regular expression engine that knows no pattern. *)
Definition text_column (format : string) : ValueDescriptor :=
  {| vd_logical_type := LogicalType.String; vd_representation := ValueRepresentation.String;
     vd_nullable := false; vd_format := Some format; vd_storage := None; vd_constraints := None;
     vd_json_schema := None |}.
Definition no_patterns : Regex := {| regex_match := fun _ => None |}.

(** A date may be written and read; an email whose domain starts with a dot may be written and is
    no valid result. *)
Lemma written_values_return_witness :
  validate_value (H := no_patterns) (LogicalValue.String "2024-02-29") (text_column "iso-date")
    [LogicalType.String] 16 = inl ()
  /\ value_satisfies_contract (H := no_patterns) (LogicalValue.String "a@.b") (text_column "email") 16
     = true
  /\ validate_value (H := no_patterns) (LogicalValue.String "a@.b") (text_column "email")
       [LogicalType.String] 16 = fail AdapterError.InvalidResult.
Proof.
  split_and!; [|reflexivity..].
  apply (proj1 (written_values_return (H := no_patterns) (LogicalValue.String "2024-02-29")
    (text_column "iso-date") [LogicalType.String] 16)).
  - reflexivity.
  - right. reflexivity.
  - by left.
  - done.
  - done.
Defined.
