(* ===== verification/ResultFacts.v ===== *)
(** * What a validated result says

    A result that passes the validation of Turso.v answers its plan: the relation [answers], and
    that the validation accepts exactly the results in it. *)

From S2P Require Import Prelude Result F64 Utf8 Core Plan Turso TursoFacts.

(** The row as the database sends it: every value, followed by its visibility where the column has
    a companion. *)
Fixpoint physical_row (descriptors : list ResultColumnDescriptor) (row : list LogicalValue)
    (redacted : list bool) : list LogicalValue :=
  match descriptors, row, redacted with
  | d :: descriptors', v :: row', f :: redacted' =>
      v :: match rc_visibility_column d with Some _ => [LogicalValue.Boolean (negb f)] | None => [] end
        ++ physical_row descriptors' row' redacted'
  | _, _, _ => []
  end.

(** A redacted value is NULL, in a column with a companion. *)
Definition hidden (d : ResultColumnDescriptor) (v : LogicalValue) (f : bool) : Prop :=
  f = true -> is_Some (rc_visibility_column d) /\ v = LogicalValue.Null.

Definition row_size (row : list LogicalValue) : Z := foldr (fun v n => value_size v + n) 0 row.
Definition total_size (rows : list (list LogicalValue)) : Z :=
  foldr (fun row n => row_size row + n) 0 rows.

Section plans.
Context `{Regex} (plan : CandidateExecutionPlan).

(** A value that is valid for its column, hidden only where the plan redacts. *)
Definition cell_valid (d : ResultColumnDescriptor) (v : LogicalValue) (f : bool) : Prop :=
  validate_value v (rc_value d) (rc_possible_types d) (el_max_bytes_per_value (plan_limits plan))
  = inl ()
  /\ (f = true -> rc_redacted_on_null d = true).

Definition row_answers (physical public : list LogicalValue) (redacted : list bool) : Prop :=
  physical = physical_row (plan_result plan) public redacted
  /\ Forall3 hidden (plan_result plan) public redacted
  /\ Forall3 cell_valid (plan_result plan) public redacted.

(** The public result a physical one stands for, within the limits of the plan. *)
Record answers (budget : Z) (physical public : ExecuteResult) : Prop := {
  ans_physical_columns : er_columns physical = physical_result_columns plan;
  ans_redactions : er_redactions physical = [];
  ans_columns : er_columns public = map rc_name (plan_result plan);
  ans_affected : er_affected_rows public = er_affected_rows physical;
  ans_rows : Forall3 row_answers (er_rows physical) (er_rows public) (er_redactions public);
  ans_max_rows : result_rows public <= el_max_rows (plan_limits plan);
  ans_size : total_size (er_rows public) <= budget;
  ans_expected n : plan_expected_result_rows plan = Some n -> result_rows public = n
}.

(** ** Rows *)

Lemma strip_row_inl descriptors : forall row public redacted,
  strip_row descriptors row = inl (public, redacted) <->
  row = physical_row descriptors public redacted /\ Forall3 hidden descriptors public redacted.
Proof.
  induction descriptors as [|d descriptors IH]; intros row public redacted.
  - destruct row; simpl.
    + split; [intros [= <- <-]; by split; [|constructor]|]. intros [_ Hh]. by inversion Hh.
    + split; [done|]. intros [Hr Hh]. by inversion Hh; subst.
  - split.
    + destruct row as [|v row]; [done|]. simpl. intros Hs.
      apply result_bind_inl in Hs as [[f rest] [Hf Hs]].
      apply result_bind_inl in Hs as [[vs fs] [Hr Hs]]. injection Hs as <- <-.
      apply IH in Hr as [-> Hh]. simpl.
      destruct (rc_visibility_column d) eqn:Ed.
      * destruct row as [|[| |visible| | | |] row]; try done.
        destruct (negb visible && _) eqn:Ev; [done|]. injection Hf as <- <-.
        rewrite negb_involutive. split; [done|]. constructor; [|done].
        intros Hn. split; [by rewrite Ed|]. rewrite Hn in Ev. simpl in Ev.
        by apply negb_false_iff, bool_decide_eq_true in Ev.
      * injection Hf as <- <-. split; [done|]. by constructor.
    + intros [-> Hh]. inversion Hh as [|? v f ? vs fs Hd Hrest]; subst. simpl.
      destruct (rc_visibility_column d) eqn:Ed; simpl.
      * rewrite negb_involutive. destruct f; simpl.
        -- destruct (Hd eq_refl) as [_ ->]. rewrite bool_decide_eq_true_2 by done. simpl.
           by rewrite (proj2 (IH _ vs fs) (conj eq_refl Hrest)).
        -- by rewrite (proj2 (IH _ vs fs) (conj eq_refl Hrest)).
      * destruct f; [destruct (Hd eq_refl) as [[]]; congruence|].
        by rewrite (proj2 (IH _ vs fs) (conj eq_refl Hrest)).
Qed.

Lemma value_size_nonneg v : 0 <= value_size v.
Proof. destruct v; simpl; auto using len_nonneg; lia. Qed.

Lemma row_size_nonneg row : 0 <= row_size row.
Proof. induction row as [|v row IH]; simpl; [done|]. pose proof (value_size_nonneg v). lia. Qed.

Lemma total_size_nonneg rows : 0 <= total_size rows.
Proof. induction rows as [|row rows IH]; simpl; [done|]. pose proof (row_size_nonneg row). lia. Qed.

(** One value more, within the budget. *)
Lemma add_size_inl budget bytes v b :
  0 <= bytes -> budget <= U64_MAX ->
  add_size budget bytes v = inl b <-> b = bytes + value_size v /\ b <= budget.
Proof.
  intros Hb Hu. unfold add_size, checked_add64. pose proof (value_size_nonneg v).
  destruct (Z.leb_spec (bytes + value_size v) U64_MAX); simpl; [|split; [done|lia]].
  destruct (Z.ltb_spec budget (bytes + value_size v)); [split; [done|lia]|].
  split; [by intros [= <-]|by intros [-> _]].
Qed.

Lemma cells_inl budget cells : forall bytes b,
  0 <= bytes <= budget -> budget <= U64_MAX ->
  for_fold (validate_cell plan budget) bytes cells = inl b <->
  Forall (fun '(v, d) => validate_value v (rc_value d) (rc_possible_types d)
            (el_max_bytes_per_value (plan_limits plan)) = inl ()) cells
  /\ b = bytes + row_size (map fst cells) /\ b <= budget.
Proof.
  induction cells as [|[v d] cells IH]; intros bytes b Hb Hu; simpl.
  - split; [intros [= <-]; split; [constructor|lia]|intros (_ & -> & _)]. do 2 f_equal. lia.
  - pose proof (value_size_nonneg v). pose proof (row_size_nonneg (map fst cells)). split.
    + intros Hc. apply result_bind_inl in Hc as [s [Hs Hc]].
      apply result_bind_inl in Hs as [[] [Hv Hs]]. apply add_size_inl in Hs as [-> Hs]; [|lia..].
      apply IH in Hc as (Hf & -> & Hc); [|lia..]. split_and!; [by constructor|lia..].
    + intros (Hf & -> & Hc). inversion Hf as [|? ? Hv Hf']; subst. simpl in Hv. rewrite Hv. simpl.
      assert (add_size budget bytes v = inl (bytes + value_size v)) as ->
        by (apply add_size_inl; lia). simpl.
      apply IH; [lia..|]. split_and!; [done|lia..].
Qed.

Lemma flags_inl descriptors row flags :
  length row = length descriptors ->
  bad_flags descriptors row flags = false <->
  length flags = length row
  /\ Forall (fun '(f, d) => f = true -> rc_redacted_on_null d = true) (zip flags descriptors).
Proof.
  intros Hl. unfold bad_flags. rewrite orb_false_iff, negb_false_iff, Nat.eqb_eq.
  rewrite <- not_true_iff_false, existsb_exists, Forall_forall. split; intros [Hlen Hf]; split; try done.
  - intros [f d] Hin Htrue. apply not_false_iff_true. intros Hr. apply Hf. exists (f, d).
    rewrite <- list_elem_of_In. split; [done|]. simpl. by rewrite Htrue, Hr.
  - intros ([f d] & Hin & Hb). bools. rewrite <- list_elem_of_In in Hin.
    specialize (Hf _ Hin H0). simpl in Hf. congruence.
Qed.

Lemma cells_valid descriptors : forall row flags,
  Forall3 cell_valid descriptors row flags <->
  length row = length descriptors /\ length flags = length row
  /\ Forall (fun '(v, d) => validate_value v (rc_value d) (rc_possible_types d)
               (el_max_bytes_per_value (plan_limits plan)) = inl ()) (zip row descriptors)
  /\ Forall (fun '(f, d) => f = true -> rc_redacted_on_null d = true) (zip flags descriptors).
Proof.
  induction descriptors as [|d descriptors IH]; intros row flags.
  - split.
    + inversion 1; subst. split_and!; by constructor.
    + intros (Hl & Hf & _). destruct row, flags; try done. constructor.
  - split.
    + inversion 1 as [|? v f ? vs fs [Hv Hf] Hr]; subst. apply IH in Hr as (? & ? & ? & ?).
      simpl. split_and!; try lia; by constructor.
    + intros (Hl & Hf & Hv & Hr). destruct row as [|v row], flags as [|f flags]; try done.
      inversion Hv; inversion Hr; subst. constructor; [done|]. apply IH. split_and!; simpl in *; try lia; done.
Qed.

Lemma validate_row_inl budget bytes row flags b :
  0 <= bytes <= budget -> budget <= U64_MAX ->
  validate_row plan budget bytes row (Some flags) = inl b <->
  Forall3 cell_valid (plan_result plan) row flags /\ b = bytes + row_size row /\ b <= budget.
Proof.
  intros Hb Hu. unfold validate_row. rewrite cells_valid.
  destruct (Nat.eqb_spec (length row) (length (plan_result plan))) as [Hl|]; [|by split; [|intros [[]]]].
  simpl negb. cbv iota.
  assert (Hfst : map fst (zip row (plan_result plan)) = row)
    by (apply fst_zip; lia).
  split.
  - intros Hv. apply result_bind_inl in Hv as [s [Hs Hv]].
    apply cells_inl in Hs as (Hc & -> & Hs); [|done..]. rewrite Hfst in *.
    destruct (bad_flags _ _ _) eqn:Hf; [done|]. apply flags_inl in Hf as [??]; [|done].
    injection Hv as <-. done.
  - intros ((_ & Hlen & Hc & Hf) & -> & Hs).
    assert (for_fold (validate_cell plan budget) bytes (zip row (plan_result plan))
            = inl (bytes + row_size row)) as E.
    { apply cells_inl; [done..|]. by rewrite Hfst. }
    rewrite E. simpl.
    by rewrite (proj2 (flags_inl _ _ _ Hl) (conj Hlen Hf)).
Qed.

Lemma validate_rows_inl budget : budget <= U64_MAX -> forall rows redactions bytes b,
  length rows = length redactions -> 0 <= bytes <= budget ->
  validate_rows plan budget bytes rows redactions = inl b <->
  Forall2 (Forall3 cell_valid (plan_result plan)) rows redactions
  /\ b = bytes + total_size rows /\ b <= budget.
Proof.
  intros Hu. induction rows as [|row rows IH]; intros [|flags redactions] bytes b Hl Hb; try done; simpl.
  - split; [intros [= <-]; split; [constructor|lia]|intros (_ & -> & _)]. do 2 f_equal. lia.
  - pose proof (row_size_nonneg row). pose proof (total_size_nonneg rows). split.
    + intros Hv. apply result_bind_inl in Hv as [s [Hs Hv]].
      apply validate_row_inl in Hs as (Hr & -> & Hs); [|done..].
      apply IH in Hv as (Hf & -> & Hv); [|simpl in Hl; lia..]. split_and!; [by constructor|lia..].
    + intros (Hf & -> & Hs). inversion Hf; subst.
      assert (validate_row plan budget bytes row (Some flags) = inl (bytes + row_size row)) as ->
        by (apply validate_row_inl; [done..|]; split_and!; [done|done|lia]). simpl.
      apply IH; [simpl in Hl; lia..|]. split_and!; [done|lia..].
Qed.

(** ** Results *)

Lemma rows_forall3 rows physical :
  Forall2 (fun row r => strip_row (plan_result plan) row = inl r) physical rows ->
  Forall2 (Forall3 cell_valid (plan_result plan)) (map fst rows) (map snd rows) <->
  Forall3 row_answers physical (map fst rows) (map snd rows).
Proof.
  induction 1 as [|row [public redacted] physical rows Hs Hrest IH]; simpl.
  - split; constructor.
  - apply strip_row_inl in Hs. split.
    + inversion 1; subst. constructor; [by split_and!; [apply Hs|apply Hs|]|by apply IH].
    + inversion 1 as [|? ? ? ? ? ? (_ & _ & Hc) ?]; subst. constructor; [done|by apply IH].
Qed.

(** The rows of an answer are the stripped physical rows. *)
Lemma answered_rows physical public redactions :
  Forall3 row_answers physical public redactions ->
  exists rows, Forall2 (fun row r => strip_row (plan_result plan) row = inl r) physical rows
               /\ public = map fst rows /\ redactions = map snd rows.
Proof.
  induction 1 as [|row v f physical public redactions (Hp & Hh & _) _ (rows & Hs & -> & ->)].
  - by exists [].
  - exists ((v, f) :: rows). split_and!; [|done|done]. constructor; [|done]. by apply strip_row_inl.
Qed.

Lemma validate_public_inl r r' budget :
  0 <= budget <= U64_MAX ->
  validate_public_result plan r budget = inl r' <-> answers budget r r'.
Proof.
  intros Hb. unfold validate_public_result, strip_visibility_columns. split.
  - intros Hv. destruct (bool_decide (er_redactions r = [])) eqn:Hr; [|done]. simpl in Hv.
    apply result_bind_inl in Hv as [s [Hs Hv]].
    destruct (bool_decide (er_columns r = _)) eqn:Hc; [|done].
    apply result_bind_inl in Hs as [rows [Hrows Hs]]. injection Hs as <-. simpl in Hv.
    rewrite bool_decide_eq_true_2 in Hv by done. simpl in Hv.
    destruct (_ <? _)%Z eqn:Hmax in Hv; [done|].
    apply result_bind_inl in Hv as [b [Hval Hv]]. apply collect_inl in Hrows.
    apply validate_rows_inl in Hval as (Hcells & -> & Hsize);
      [|by apply Hb|by rewrite !length_map|by split; [|apply Hb]].
    destruct (opt_existsb _ _) eqn:He; [done|]. injection Hv as <-. bools.
    split; simpl; try done; [by apply rows_forall3|].
    intros n Hn. rewrite Hn in He. simpl in He. by apply negb_false_iff, Z.eqb_eq in He.
  - intros [Hc Hr Hpc Ha Hrows Hmax Hsize Hexp].
    rewrite bool_decide_eq_true_2 by done. simpl. rewrite bool_decide_eq_true_2 by done. simpl.
    destruct (answered_rows _ _ _ Hrows) as (rows & Hs & Ef & Es).
    rewrite (proj2 (collect_inl _ _ _) Hs). simpl. rewrite bool_decide_eq_true_2 by done. simpl.
    assert (E : {| er_columns := map rc_name (plan_result plan); er_rows := map fst rows;
      er_redactions := map snd rows; er_affected_rows := er_affected_rows r |} = r').
    { destruct r'; simpl in *. congruence. }
    rewrite E. rewrite (proj2 (Z.ltb_ge _ _)) by done. rewrite <- Ef, <- Es.
    rewrite (proj2 (validate_rows_inl budget ltac:(lia) (er_rows r') (er_redactions r') 0
      (total_size (er_rows r')) ltac:(by rewrite Ef, Es, !length_map) ltac:(lia))).
    2: { split_and!; [|done|done]. rewrite Ef, Es. apply (rows_forall3 rows (er_rows r) Hs).
         by rewrite <- Ef, <- Es. }
    simpl. destruct (plan_expected_result_rows plan) as [n|]; [|done]. simpl.
    by rewrite (Hexp n eq_refl), Z.eqb_refl.
Qed.

(** The rows of a mutation without the operation check, which every row passed. *)
Definition checked_rows (r : ExecuteResult) (returned : list (list LogicalValue)) : Prop :=
  match plan_operation_check_column plan with
  | Some check_column =>
      er_columns r = (physical_result_columns plan ++ [check_column])%list
      /\ result_rows r = er_affected_rows r
      /\ exists rows, er_rows r = map (fun row => (row ++ [LogicalValue.Boolean true])%list) rows
           /\ returned = if bool_decide (length (plan_result plan) = 0)%nat then [] else rows
  | None =>
      er_columns r = physical_result_columns plan
      /\ (length (plan_result plan) <> 0%nat -> result_rows r = er_affected_rows r)
      /\ returned = er_rows r
  end.

Lemma pop_check_inl row rest :
  pop_check row = inl rest <-> row = (rest ++ [LogicalValue.Boolean true])%list.
Proof.
  unfold pop_check, pop. split.
  - destruct (rev row) as [|v l] eqn:E; [done|]. apply (f_equal (@rev _)) in E.
    rewrite rev_involutive in E. simpl in E. destruct v as [| |[]| | | |]; try done. by intros [= <-].
  - intros ->. rewrite rev_app_distr. simpl. by rewrite rev_involutive.
Qed.

Lemma checks_pass rows rest :
  collect pop_check rows = inl rest <->
  rows = map (fun row => (row ++ [LogicalValue.Boolean true])%list) rest.
Proof.
  rewrite collect_inl. split.
  - induction 1 as [|row r rows rest Hr _ IH]; [done|]. simpl. apply pop_check_inl in Hr as ->.
    by rewrite IH.
  - intros ->. induction rest; constructor; [by apply pop_check_inl|done].
Qed.

Lemma operation_checked_inl r s :
  operation_checked plan r = inl s <->
  checked_rows r (er_rows s) /\ er_columns s = physical_result_columns plan
  /\ er_redactions s = er_redactions r /\ er_affected_rows s = er_affected_rows r.
Proof.
  unfold operation_checked, checked_rows. destruct (plan_operation_check_column plan) as [c|].
  - case_bool_decide; simpl; [|by split; [|intros [[]]]].
    destruct (Z.eqb_spec (result_rows r) (er_affected_rows r)); simpl; [|by split; [|intros [(_ & ? & _)]]].
    split.
    + intros Hs. apply result_bind_inl in Hs as [rows [Hrows Hs]]. injection Hs as <-. simpl.
      apply checks_pass in Hrows. split_and!; try done. by exists rows.
    + intros ((_ & _ & rows & Hrows & Hret) & Hcols & Hred & Haff).
      rewrite (proj2 (checks_pass _ _) Hrows). simpl. destruct s; simpl in *. by subst.
  - case_bool_decide; simpl; [|by split; [|intros [[]]]].
    assert (Hsame : (mret r : result Stop ExecuteResult) = inl s <-> er_rows s = er_rows r
      /\ er_columns s = er_columns r /\ er_redactions s = er_redactions r
      /\ er_affected_rows s = er_affected_rows r).
    { split; [by intros [= <-]|]. intros (? & ? & ? & ?). destruct r, s; simpl in *. by subst. }
    case_bool_decide as Hempty; simpl; [rewrite Hsame; intuition congruence|].
    destruct (Z.eqb_spec (result_rows r) (er_affected_rows r)) as [|Hne]; simpl.
    + rewrite Hsame. intuition congruence.
    + split; [done|]. intros [(_ & Hn & _) _]. by destruct (Hne (Hn Hempty)).
Qed.

(** The columns and rows of a mutation without its check; a mutation's result is validated as one
    that affects no row. *)
Definition without_check (r : ExecuteResult) (returned : list (list LogicalValue)) : ExecuteResult :=
  {| er_columns := physical_result_columns plan; er_rows := returned;
     er_redactions := er_redactions r; er_affected_rows := er_affected_rows r |}.

Lemma answers_affected budget r r' n :
  answers budget r r' ->
  answers budget
    {| er_columns := er_columns r; er_rows := er_rows r; er_redactions := er_redactions r;
       er_affected_rows := n |}
    {| er_columns := er_columns r'; er_rows := er_rows r'; er_redactions := er_redactions r';
       er_affected_rows := n |}.
Proof. by intros []; split. Qed.

Lemma validate_mutation_inl r r' budget :
  0 <= budget <= U64_MAX ->
  validate_mutation_result plan r budget = inl r' <->
  (forall n, plan_expected_affected_rows plan = Some n -> er_affected_rows r = n)
  /\ exists returned, checked_rows r returned /\ answers budget (without_check r returned) r'.
Proof.
  intros Hb. unfold validate_mutation_result. split.
  - intros Hv. case_bool_decide; [|done]. simpl in Hv.
    destruct (opt_existsb _ _) eqn:He; [done|].
    apply result_bind_inl in Hv as [s [Hs Hv]]. apply result_bind_inl in Hv as [p [Hp Hv]].
    apply operation_checked_inl in Hs as (Hrows & Hcols & Hred & Haff).
    apply validate_public_inl in Hp; [|done]. injection Hv as <-. split.
    { intros n Hn. rewrite Hn in He. simpl in He. by apply negb_false_iff, Z.eqb_eq in He. }
    exists (er_rows s). split; [done|]. apply (answers_affected _ _ _ (er_affected_rows r)) in Hp.
    rewrite Haff. unfold without_check. simpl in Hp. by rewrite Hcols, Hred in Hp.
  - intros (Hexp & returned & Hrows & Ha).
    assert (er_redactions r = []) as Hr by (by destruct Ha).
    rewrite bool_decide_eq_true_2 by done. simpl.
    assert (opt_existsb (fun n => negb (er_affected_rows r =? n)%Z)
              (plan_expected_affected_rows plan) = false) as ->.
    { destruct (plan_expected_affected_rows plan) as [n|]; [|done]. simpl.
      by rewrite (Hexp n eq_refl), Z.eqb_refl. }
    rewrite (proj2 (operation_checked_inl r (without_check r returned))) by done. simpl.
    assert (Haff : er_affected_rows r' = er_affected_rows r) by (by destruct Ha).
    apply (answers_affected _ _ _ 0), (validate_public_inl _ _ _ Hb) in Ha. simpl in Ha. rewrite Ha.
    simpl. destruct r'; simpl in *. by subst.
Qed.
End plans.

(** C20: validated results. The validation of a result against a sealed plan accepts exactly the
    results that answer it, and returns their public form: of the rows the database sent, in their
    order, every value valid for its column and NULL where the companion of its column hides it,
    within the rows and bytes of the plan. A select changes nothing; a mutation affects the rows
    the plan expects, and every row of its result carries a true operation check. *)
Theorem results_exact `{Regex} sealed_plan r r' max_result_bytes :
  let plan := sealed sealed_plan in
  let budget := Z.min max_result_bytes (el_max_result_bytes (plan_limits plan)) in
  in_u64 max_result_bytes -> in_u64 (el_max_result_bytes (plan_limits plan)) ->
  validate_sealed_result_within sealed_plan r max_result_bytes = inl r' <->
  match plan_operation plan with
  | OperationKind.Select => er_affected_rows r = 0 /\ answers plan budget r r'
  | _ =>
      (forall n, plan_expected_affected_rows plan = Some n -> er_affected_rows r = n)
      /\ exists returned,
           checked_rows plan r returned /\ answers plan budget (without_check plan r returned) r'
  end.
Proof.
  intros plan budget Hmax Hlim. unfold validate_sealed_result_within. fold plan budget.
  assert (Hb : 0 <= budget <= U64_MAX) by (unfold in_u64, budget in *; lia).
  destruct (plan_operation plan); try by apply validate_mutation_inl.
  unfold validate_result. destruct (Z.eqb_spec (er_affected_rows r) 0); simpl;
    [|by split; [|intros []]].
  rewrite <- (validate_public_inl plan r r' budget Hb). unfold validate_public_result.
  destruct (negb _); intuition.
Qed.

(** A plan of two text columns, the second with a companion. *)
Definition two_columns : CandidateExecutionPlan :=
  {| plan_protected_sql := "SELECT"; plan_client_parameters := ∅; plan_server_parameters := ∅;
     plan_result :=
       [{| rc_name := "name"; rc_value := text_column "base64";
           rc_possible_types := [LogicalType.String]; rc_redacted_on_null := false;
           rc_visibility_column := None |};
        {| rc_name := "secret";
           rc_value := {| vd_logical_type := LogicalType.String;
                          vd_representation := ValueRepresentation.String; vd_nullable := true;
                          vd_format := None; vd_storage := None; vd_constraints := None;
                          vd_json_schema := None |};
           rc_possible_types := [LogicalType.String]; rc_redacted_on_null := true;
           rc_visibility_column := Some "secret_visible"%string |}];
     plan_operation := OperationKind.Select;
     plan_limits := {| el_max_rows := 2; el_max_result_bytes := 32; el_timeout_ms := 1000;
                       el_max_bytes_per_value := 16 |};
     plan_snapshot := "s"; plan_profile_id := "p"; plan_expected_affected_rows := None;
     plan_expected_result_rows := None; plan_operation_check_column := None;
     plan_column_metadata_bytes := 0 |}.

Definition sent : ExecuteResult :=
  {| er_columns := ["name"; "secret"; "secret_visible"]%string;
     er_rows := [[LogicalValue.String "a"; LogicalValue.Null; LogicalValue.Boolean false];
                 [LogicalValue.String "b"; LogicalValue.String "x"; LogicalValue.Boolean true]];
     er_redactions := []; er_affected_rows := 0 |}.

Definition shown : ExecuteResult :=
  {| er_columns := ["name"; "secret"]%string;
     er_rows := [[LogicalValue.String "a"; LogicalValue.Null];
                 [LogicalValue.String "b"; LogicalValue.String "x"]];
     er_redactions := [[false; true]; [false; false]]; er_affected_rows := 0 |}.

Lemma results_exact_witness :
  validate_sealed_result_within (H := no_patterns) {| sealed := two_columns |} sent 100 = inl shown
  /\ answers (H := no_patterns) two_columns 32 sent shown.
Proof.
  assert (Hv : validate_sealed_result_within (H := no_patterns) {| sealed := two_columns |} sent 100
               = inl shown) by reflexivity.
  split; [exact Hv|].
  apply (results_exact (H := no_patterns) {| sealed := two_columns |} sent shown 100) in Hv;
    [|by vm_compute..]. exact (proj2 Hv).
Defined.
