(* ===== verification/ActivateFacts.v ===== *)
(** * What activation guarantees

    A bundle that activates is well formed: every predicate is about its resource's columns,
    callers and presets share no column, the commit checks are within their bounds. *)

From S2P Require Import Prelude Result F64 Utf8 Btree Core Catalog Ir Bytes Policy Activate Protect.
From S2P Require Import CompilePolicy Semantics Views Catalog.

(** The reader's documented typing: limits and timeouts are unsigned. *)
Class YamlLaws `{Yaml} : Prop := {
  limits_unsigned text raw resource r role x s limit :
    yaml_from_str text = Some raw -> (resource, r) ∈ rb_resources raw ->
    (role, x) ∈ rr_roles r -> role_select x = Some s -> rs_limit s = Some limit -> 0 <= limit;
  timeouts_unsigned text raw id check :
    yaml_from_str text = Some raw -> (id, check) ∈ rb_commit_checks raw ->
    0 <= rh_timeout_ms (rc_hook check)
}.

(** ** Predicates *)

Section yaml_induction.
Context (P : YamlValue -> Prop).
Context (Null : P YamlValue.Null) (Bool : forall b, P (YamlValue.Bool b)).
Context (Number : forall n, P (YamlValue.Number n)) (String : forall s, P (YamlValue.String s)).
Context (Sequence : forall vs, Forall P vs -> P (YamlValue.Sequence vs)).
Context (Mapping : forall es, Forall (fun e => P e.2) es -> P (YamlValue.Mapping es)).
Context (Tagged : forall t v, P v -> P (YamlValue.Tagged t v)).

Fixpoint yaml_nested_ind (v : YamlValue) : P v :=
  match v with
  | YamlValue.Null => Null
  | YamlValue.Bool b => Bool b
  | YamlValue.Number n => Number n
  | YamlValue.String s => String s
  | YamlValue.Sequence vs => Sequence vs (all_of P yaml_nested_ind vs)
  | YamlValue.Mapping es => Mapping es (all_of _ (fun e => yaml_nested_ind e.2) es)
  | YamlValue.Tagged t v => Tagged t v (yaml_nested_ind v)
  end.
End yaml_induction.

Section predicates.
Context (r : ResourceDescriptor) (Hr : resource_valid r).

Lemma policy_column_resource name usage c :
  policy_column r name usage = inl c -> column_resource (bc_id c) = rd_id r.
Proof.
  unfold policy_column, known_column. intros Hc. compile_inv. injection Hc as <-. simpl.
  by eapply column_id_resource.
Qed.

Lemma parse_operand_resource v t x :
  parse_operand v r t = inl x -> operand_of_resource (rd_id r) x = true.
Proof.
  unfold parse_operand. intros Hx.
  destruct x as [key|value|c]; [done|done|]. repeat case_match; try done; compile_inv; try done;
    repeat case_match; try done;
    try match goal with H : _ <$> literal_for_type ?v ?t = _ |- _ =>
      by destruct (literal_for_type v t) end.
  injection Hx as ->. apply Z.eqb_eq. by eapply policy_column_resource.
Qed.

Lemma parse_comparison_resource name v p :
  parse_comparison name v r = inl p -> of_resource (rd_id r) p = true.
Proof.
  unfold parse_comparison. intros Hp. apply result_bind_inl in Hp as [c [Hc Hp]].
  apply policy_column_resource in Hc. apply result_bind_inl in Hp as [m [_ Hp]].
  destruct m as [|[o x] [|]]; try done. apply result_bind_inl in Hp as [operator [_ Hp]].
  apply Z.eqb_eq in Hc. case_match; [|case_match].
  - apply result_bind_inl in Hp as [n [_ Hp]]. by injection Hp as <-.
  - apply result_bind_inl in Hp as [vs [_ Hp]]. case_match; [done|].
    apply result_bind_inl in Hp as [ws [_ Hp]]. by injection Hp as <-.
  - apply result_bind_inl in Hp as [op [_ Hp]]. case_match; [done|].
    apply result_bind_inl in Hp as [y [Hy Hp]]. injection Hp as <-. simpl. rewrite Hc.
    by eapply parse_operand_resource.
Qed.

Lemma parse_predicate_resource v :
  (forall p, parse_predicate r v = inl p -> of_resource (rd_id r) p = true)
  /\ forall vs, untag v = YamlValue.Sequence vs -> Forall (fun v => forall p,
       parse_predicate r v = inl p -> of_resource (rd_id r) p = true) vs.
Proof.
  induction v using yaml_nested_ind; try done.
  - split; [done|]. simpl. intros vs' [= <-]. eapply Forall_impl; [done|]. by intros v [? _].
  - split; [|done]. intros p Hp. simpl in Hp. destruct es as [|[key body] [|]]; try done.
    apply Forall_cons in H as [[IHp IHs] _]. simpl in IHp, IHs.
    apply result_bind_inl in Hp as [k [_ Hp]]. case_match.
    + destruct (untag body) as [| | | |vs| |] eqn:E; try done. destruct vs as [|v vs]; [done|].
      apply result_bind_inl in Hp as [ps [Hps Hp]]. specialize (IHs _ eq_refl).
      apply collect_inl in Hps. assert (Hall : forallb (of_resource (rd_id r)) ps = true).
      { clear Hp E. induction Hps as [|a b l l' Hab _ IH]; simpl; [done|].
        apply Forall_cons in IHs as [Ha IHs]. rewrite (Ha b Hab). by apply IH. }
      inversion Hps; subst. injection Hp as <-. by case_match; simpl in *; rewrite Hall.
    + case_match; [|by eapply parse_comparison_resource].
      destruct (parse_predicate r body) as [q|] eqn:E; [|done]. injection Hp as <-. simpl.
      by apply IHp.
  - destruct v; exact IHv.
Qed.

Lemma parse_predicate_valid v p :
  parse_predicate r v = inl p -> of_resource (rd_id r) p = true.
Proof. apply parse_predicate_resource. Qed.
End predicates.

#[export] Instance column_order : TotalOrder column_compare.
Proof.
  split.
  - intros [r o] [r' o']. unfold column_compare. simpl. destruct (Z.compare r r') eqn:E.
    + apply Z.compare_eq_iff in E as ->. rewrite Z.compare_eq_iff. split; congruence.
    + split; [done|]. intros [= -> ->]. by rewrite Z.compare_refl in E.
    + split; [done|]. intros [= -> ->]. by rewrite Z.compare_refl in E.
  - intros [r o] [r' o']. unfold column_compare. simpl.
    rewrite (Z.compare_antisym r r'), (Z.compare_antisym o o'). by destruct (Z.compare r r').
  - intros [r o] [r' o'] [r'' o'']. unfold column_compare. simpl.
    destruct (Z.compare_spec r r'), (Z.compare_spec r' r''), (Z.compare_spec r r'');
      try done; try lia. rewrite !Z.compare_lt_iff. lia.
Qed.

(** ** The policy of one operation *)

(** The presets of a policy: on columns of the resource the caller may not write, with a value of
    the session or of the policy. *)
Record presets_valid (resource : Z) (columns : gset ColumnId) (presets : Presets) : Prop := {
  presets_sorted : bt_sorted column_compare presets;
  presets_column c v : (c, v) ∈ presets -> column_resource c = resource /\ c ∉ columns;
  presets_operand c t operand : (c, (t, operand)) ∈ presets ->
    match operand with PolicyOperand.Column _ => False | _ => True end
}.

Definition columns_of (resource : Z) (columns : gset ColumnId) : Prop :=
  forall c, c ∈ columns -> column_resource c = resource.

Record insert_policy_valid (resource : Z) (p : InsertPolicy) : Prop := {
  insert_columns : columns_of resource (ip_columns p);
  insert_presets : presets_valid resource (ip_columns p) (ip_presets p);
  insert_check : of_resource resource (ip_check p) = true;
  insert_returning : columns_of resource (ip_returning p)
}.
Record update_policy_valid (resource : Z) (p : UpdatePolicy) : Prop := {
  update_columns : columns_of resource (up_columns p);
  update_presets : presets_valid resource (up_columns p) (up_presets p);
  update_filter : of_resource resource (up_filter p) = true;
  update_check : of_resource resource (up_check p) = true;
  update_returning : columns_of resource (up_returning p)
}.
Record delete_policy_valid (resource : Z) (p : DeletePolicy) : Prop := {
  delete_filter : of_resource resource (dp_filter p) = true;
  delete_returning : columns_of resource (dp_returning p)
}.

Section operations.
Context `{Base64} (r : ResourceDescriptor) (Hr : resource_valid r).

Lemma columns_of_insert columns name d :
  columns_of (rd_id r) columns -> column r name = Some d ->
  columns_of (rd_id r) ({[cd_id d]} ∪ columns).
Proof.
  intros Hc Hd c. rewrite elem_of_union, elem_of_singleton. intros [->|?]; [|by apply Hc].
  by eapply column_id_resource.
Qed.

Lemma column_set_valid names columns :
  column_set r names = inl columns -> columns_of (rd_id r) columns.
Proof.
  intros Hset. refine (for_fold_invariant (columns_of (rd_id r)) _ _ _ _ _ _ Hset);
    [|by intros c; rewrite elem_of_empty].
  intros s name s' _ Hs Hn. apply result_bind_inl in Hn as [d [Hd Hn]]. apply ok_or_inl in Hd.
  case_bool_decide; [done|]. injection Hn as <-. by eapply columns_of_insert.
Qed.

Lemma activate_returning_valid raw columns :
  activate_returning raw r = inl columns -> columns_of (rd_id r) columns.
Proof.
  destruct raw as [raw|]; simpl; [|intros [= <-] c; by rewrite elem_of_empty].
  case_bool_decide; [done|apply column_set_valid].
Qed.

Lemma activate_presets_valid columns max raw presets :
  activate_presets r columns max raw = inl presets -> presets_valid (rd_id r) columns presets.
Proof.
  intros Hset. refine (for_fold_invariant (presets_valid (rd_id r) columns) _ _ _ _ _ _ Hset);
    [|split; [done|..]; intros; exfalso; by eapply not_elem_of_nil].
  intros s [name value] s' _ [Hs Hc Ho] Hn. apply result_bind_inl in Hn as [d [Hd Hn]].
  apply ok_or_inl in Hd. case_bool_decide as Hnew; [done|].
  apply result_bind_inl in Hn as [operand [_ Hn]].
  assert (Hs' : s' = fst (bt_insert column_compare (cd_id d)
      (vd_logical_type (cd_value d), operand) s)
    /\ match operand with PolicyOperand.Column _ => False | _ => True end)
    by (destruct operand; [by injection Hn as <-|by injection Hn as <-|done]).
  destruct Hs' as [-> Hop]. split.
  - exact (bt_insert_sorted column_compare _ _ _ Hs).
  - intros c v Hin. apply bt_insert_elem in Hin as [[-> ->]|Hin]; [|by eapply Hc].
    split; [by eapply column_id_resource|done].
  - intros c t op Hin. apply bt_insert_elem in Hin as [[-> [= -> ->]]|Hin]; [done|by eapply Ho].
Qed.

Lemma activate_select_valid raw id p :
  activate_select raw r id = inl p -> (forall limit, rs_limit raw = Some limit -> 0 <= limit) ->
  select_policy_valid (rd_id r) p.
Proof.
  unfold activate_select. case_bool_decide; [done|]. intros Hp Hlimit.
  apply result_bind_inl in Hp as [[[names regular] conditional] [Hcols Hp]].
  apply result_bind_inl in Hp as [pid [_ Hp]]. apply result_bind_inl in Hp as [f [Hf Hp]].
  injection Hp as <-.
  assert (Hinv : columns_of (rd_id r) regular /\ regular ⊆ names
    /\ forall c q, conditional !! c = Some q -> column_resource c = rd_id r
         /\ of_resource (rd_id r) q = true /\ c ∈ names /\ c ∉ regular).
  { refine (for_fold_invariant (fun '(names, regular, conditional) =>
      columns_of (rd_id r) regular /\ regular ⊆ names
      /\ forall c q, conditional !! c = Some q -> column_resource c = rd_id r
         /\ of_resource (rd_id r) q = true /\ c ∈ names /\ c ∉ regular)
      _ _ _ _ _ _ Hcols).
    2: { split; [by intros c; rewrite elem_of_empty|]. split; [done|]. intros c q.
         by rewrite lookup_empty. }
    intros [[ns reg] cond] c [[ns' reg'] cond'] _ (Hreg & Hsub & Hcond) Hs.
    destruct c as [name|name visible on_deny]; simpl in Hs.
    - apply result_bind_inl in Hs as [c [Hc Hs]]. assert (Hcr := policy_column_resource r Hr _ _ _ Hc).
      case_bool_decide as Hnew; [done|]. injection Hs as <- <- <-. split; [|split; [clear Hcond; set_solver|]].
      + intros c'. rewrite elem_of_union, elem_of_singleton. intros [->|?]; auto.
      + intros c' q Hq. destruct (Hcond _ _ Hq) as (? & ? & ? & ?). clear Hcond. set_solver.
    - destruct on_deny; try done. apply result_bind_inl in Hs as [c [Hc Hs]].
      assert (Hcr := policy_column_resource r Hr _ _ _ Hc). case_match; [done|].
      case_bool_decide as Hnew; [done|]. apply result_bind_inl in Hs as [q [Hq Hs]].
      injection Hs as <- <- <-. split; [done|]. split; [clear Hcond; set_solver|]. intros c' q'.
      rewrite lookup_insert_Some. intros [[<- <-]|[Hne Hq']].
      + split; [done|]. split; [by eapply parse_predicate_valid|]. clear Hcond. set_solver.
      + destruct (Hcond _ _ Hq') as (? & ? & ? & ?). clear Hcond. set_solver. }
  destruct Hinv as (Hreg & _ & Hcond). split; simpl; try done.
  - intros c q Hq. by destruct (Hcond _ _ Hq) as (? & ? & _).
  - intros c q Hq. by destruct (Hcond _ _ Hq) as (_ & _ & _ & ?).
  - by eapply parse_predicate_valid.
Qed.

Lemma activate_insert_valid max raw id p :
  activate_insert max raw r id = inl p -> insert_policy_valid (rd_id r) p.
Proof.
  unfold activate_insert. case_bool_decide; [done|]. intros Hp. compile_inv. injection Hp as <-.
  split; simpl; eauto using column_set_valid, activate_presets_valid, parse_predicate_valid,
    activate_returning_valid.
Qed.

Lemma activate_update_valid max raw id p :
  activate_update max raw r id = inl p -> update_policy_valid (rd_id r) p.
Proof.
  unfold activate_update. case_bool_decide; [done|]. intros Hp. compile_inv. injection Hp as <-.
  split; simpl; eauto using column_set_valid, activate_presets_valid, parse_predicate_valid,
    activate_returning_valid.
Qed.

Lemma activate_delete_valid raw id p :
  activate_delete raw r id = inl p -> delete_policy_valid (rd_id r) p.
Proof.
  unfold activate_delete. intros Hp. compile_inv. injection Hp as <-.
  split; simpl; eauto using parse_predicate_valid, activate_returning_valid.
Qed.
End operations.

(** ** The bundle *)

Definition roles_valid (id : Z) (roles : gmap string SelectPolicy * gmap string InsertPolicy
    * gmap string UpdatePolicy * gmap string DeletePolicy) : Prop :=
  let '(s, i, u, d) := roles in
  map_Forall (fun _ => select_policy_valid id) s /\ map_Forall (fun _ => insert_policy_valid id) i
  /\ map_Forall (fun _ => update_policy_valid id) u
  /\ map_Forall (fun _ => delete_policy_valid id) d.

Definition policies_valid {T} (valid : Z -> T -> Prop) (policies : PolicyMap T) : Prop :=
  forall r role p, policy_of policies r role = Some p -> valid r p.

(** Every policy of the bundle is about its own resource. *)
Record policies_activated (b : PolicyBundle) : Prop := {
  select_activated : bundle_valid b;
  insert_activated : policies_valid insert_policy_valid (pb_insert b);
  update_activated : policies_valid update_policy_valid (pb_update b);
  delete_activated : policies_valid delete_policy_valid (pb_delete b)
}.

Section bundle.
Context `{YamlLaws} `{Base64}.

Lemma add_policy_valid {Raw T} (act : Raw -> ResourceDescriptor -> Z -> policy_result T)
    (valid : T -> Prop) r role raw next roles state :
  (forall x id p, raw = Some x -> act x r id = inl p -> valid p) ->
  map_Forall (fun _ => valid) roles ->
  add_policy act r role raw (next, roles) = inl state -> map_Forall (fun _ => valid) (snd state).
Proof.
  unfold add_policy. intros Hact Hroles Hs. destruct raw as [x|]; [|by injection Hs as <-].
  apply result_bind_inl in Hs as [p [Hp Hs]]. apply result_bind_inl in Hs as [n [_ Hs]].
  case_match; [done|]. injection Hs as <-. simpl. apply map_Forall_insert_2; [|done]. by eapply Hact.
Qed.

Lemma activate_role_valid r max state raw state' :
  resource_valid r ->
  (forall s limit, role_select raw.2 = Some s -> rs_limit s = Some limit -> 0 <= limit) ->
  roles_valid (rd_id r) (snd state) -> activate_role r max state raw = inl state' ->
  roles_valid (rd_id r) (snd state').
Proof.
  intros Hr Hlimit. destruct state as [next [[[s i] u] d]], raw as [name raw]. simpl.
  intros (Hs & Hi & Hu & Hd) Ha. apply result_bind_inl in Ha as [role [_ Ha]].
  apply result_bind_inl in Ha as [s' [Es Ha]]. apply result_bind_inl in Ha as [i' [Ei Ha]].
  apply result_bind_inl in Ha as [u' [Eu Ha]]. apply result_bind_inl in Ha as [d' [Ed Ha]].
  injection Ha as <-. simpl. split_and!.
  - eapply add_policy_valid; [|exact Hs|exact Es]. intros x id p Hx Hp.
    eapply activate_select_valid; [done|exact Hp|]. intros limit. by apply Hlimit.
  - eapply add_policy_valid; [|exact Hi|exact Ei]. intros x id p _ Hp.
    by eapply activate_insert_valid.
  - eapply add_policy_valid; [|exact Hu|exact Eu]. intros x id p _ Hp.
    by eapply activate_update_valid.
  - eapply add_policy_valid; [|exact Hd|exact Ed]. intros x id p _ Hp.
    by eapply activate_delete_valid.
Qed.

Lemma policies_valid_insert {T} (valid : Z -> T -> Prop) id roles policies :
  policies_valid valid policies -> map_Forall (fun _ => valid id) roles ->
  policies_valid valid (<[id := roles]> policies).
Proof.
  intros Hp Hr r role p. unfold policy_of. intros Hl.
  apply bind_Some in Hl as [rs [Hrs Hl]]. apply lookup_insert_Some in Hrs as [[<- <-]|[_ Hrs]].
  - by apply (Hr role).
  - apply (Hp r role). unfold policy_of. rewrite Hrs. exact Hl.
Qed.

Definition state_valid (state : Policies) : Prop :=
  let '(_, (s, i, u, d)) := state in
  policies_valid select_policy_valid s /\ policies_valid insert_policy_valid i
  /\ policies_valid update_policy_valid u /\ policies_valid delete_policy_valid d.

Lemma activate_resource_valid catalog max state raw state' :
  catalog_valid catalog ->
  (forall role x s limit, (role, x) ∈ rr_roles raw.2 -> role_select x = Some s ->
     rs_limit s = Some limit -> 0 <= limit) ->
  state_valid state -> activate_resource catalog max state raw = inl state' -> state_valid state'.
Proof.
  intros Hcat Hlimit. destruct state as [next [[[s i] u] d]], raw as [name raw]. simpl.
  intros (Hs & Hi & Hu & Hd) Ha. apply result_bind_inl in Ha as [r [Hr Ha]]. apply ok_or_inl in Hr.
  assert (Hrv := Hcat _ _ Hr). apply result_bind_inl in Ha as [[next' roles] [Hroles Ha]].
  assert (Hv : roles_valid (rd_id r) (snd (next', roles))).
  { refine (for_fold_invariant (fun state : Roles => roles_valid (rd_id r) (snd state))
      _ _ _ _ _ _ Hroles); [|by simpl; split_and!; apply map_Forall_empty].
    intros st [role x] st' Hin Hst Hact. eapply activate_role_valid; [done| |exact Hst|exact Hact].
    intros. by eapply Hlimit. }
  destruct roles as [[[s' i'] u'] d']. destruct Hv as (Hs' & Hi' & Hu' & Hd').
  case_bool_decide; [done|]. injection Ha as <-.
  simpl. split_and!; by apply policies_valid_insert.
Qed.

Lemma commit_check_bounded catalog raw c :
  activate_commit_check catalog raw = inl c -> 0 <= rh_timeout_ms (rc_hook raw.2) ->
  0 < acc_timeout_ms c <= MAX_COMMIT_CHECK_TIMEOUT_MS /\ acc_triggered_by c <> ∅.
Proof.
  destruct raw as [id raw]. simpl. intros Hc Ht. apply result_bind_inl in Hc as [name [_ Hc]].
  case_match eqn:E; [done|]. apply orb_false_iff in E as [E Em].
  apply orb_false_iff in E as [El Ez]. bools. apply result_bind_inl in Hc as [ids [Hids Hc]].
  apply result_bind_inl in Hc as [role [_ Hc]]. injection Hc as <-. simpl. split; [lia|].
  apply collect_inl, Forall2_length in Hids. destruct ids as [|i ids]; [simpl in Hids; lia|].
  set_solver.
Qed.

Lemma activate_policies yaml catalog snapshot max b :
  catalog_valid catalog -> activate_with_value_limit yaml catalog snapshot max = inl b ->
  policies_activated b.
Proof.
  intros Hcat Ha. unfold activate_with_value_limit in Ha.
  apply result_bind_inl in Ha as [raw [Hraw Ha]]. apply ok_or_inl in Hraw. case_match; [done|].
  apply result_bind_inl in Ha as [checks [_ Ha]].
  apply result_bind_inl in Ha as [[next [[[s i] u] d]] [Hp Ha]]. injection Ha as <-.
  assert (Hv : state_valid (next, (s, i, u, d))).
  { refine (for_fold_invariant state_valid _ _ _ _ _ _ Hp);
      [|by simpl; split_and!; intros ? ? ?; unfold policy_of; rewrite lookup_empty].
    intros st [name x] st' Hin Hst Hact. eapply activate_resource_valid; [done| |done|exact Hact].
    intros role y sel limit Hrole Hsel Hl. by eapply (limits_unsigned yaml raw name x role y). }
  by destruct Hv as (Hs & Hi & Hu & Hd).
Qed.
End bundle.

(** A bundle the runtime serves: activated against a catalog it built. *)
Definition bundle_served `{Yaml} `{Base64} (b : PolicyBundle) : Prop :=
  exists yaml catalog snapshot max, catalog_built catalog
    /\ activate_with_value_limit yaml catalog snapshot max = inl b.

Lemma served_policies `{YamlLaws} `{Base64} b : bundle_served b -> policies_activated b.
Proof.
  intros (yaml & catalog & snapshot & max & Hcat & Ha).
  eapply activate_policies; [|exact Ha]. by apply catalog_built_valid.
Qed.

(** C16: activation. A bundle that activates declares at most four commit checks, each with a
    timeout from 1 to 1500 ms and at least one resource of the catalog; no policy presets a column
    its callers may write, or from a column; and every predicate, column and permission of a policy
    is on the resource the policy is for. *)
Theorem activate_valid `{YamlLaws} `{Base64} yaml catalog snapshot max b :
  catalog_built catalog -> activate_with_value_limit yaml catalog snapshot max = inl b ->
  policies_activated b
  /\ (length (pb_commit_checks b) <= MAX_COMMIT_CHECKS)%nat
  /\ forall c, c ∈ pb_commit_checks b ->
       0 < acc_timeout_ms c <= MAX_COMMIT_CHECK_TIMEOUT_MS /\ acc_triggered_by c <> ∅.
Proof.
  intros Hcat Ha. split; [by eapply activate_policies; [apply catalog_built_valid|]|].
  unfold activate_with_value_limit in Ha.
  apply result_bind_inl in Ha as [raw [Hraw Ha]]. apply ok_or_inl in Hraw. case_match; [done|].
  apply result_bind_inl in Ha as [checks [Hchecks Ha]].
  apply result_bind_inl in Ha as [[next [[[s i] u] d]] [_ Ha]]. injection Ha as <-. simpl.
  unfold activate_commit_checks in Hchecks. case_match eqn:E; [done|].
  apply Nat.ltb_ge in E. apply collect_inl in Hchecks.
  split; [by rewrite <- (Forall2_length _ _ _ Hchecks)|].
  intros c Hc. apply list_elem_of_lookup in Hc as [k Hk].
  destruct (Forall2_lookup_r _ _ _ _ _ Hchecks Hk) as [rawc [Hrk Hact]].
  apply (commit_check_bounded _ _ _ Hact). destruct rawc as [id chk].
  eapply timeouts_unsigned; [exact Hraw|]. by eapply list_elem_of_lookup_2.
Qed.
