(* ===== verification/PolicyWorld.v ===== *)
(** * A concrete world for the policy compiler

    An engine on integers, strings and booleans, a catalog of projects and tasks, and a bundle
    for the role [member]; the witnesses of the theorems run on it. *)

From S2P Require Import Prelude Result F64 Utf8 Btree Core Bytes Catalog Ir Policy Activate Protect.
From S2P Require Import CompilePolicy Semantics Views Bytes Catalog ActivateFacts.

(** ** An engine *)

Definition plain_operate (op : Operator.operator) (a b : LogicalValue) : LogicalValue :=
  match op, a, b with
  | Operator.Least, LogicalValue.Int64 m, LogicalValue.Int64 n => LogicalValue.Int64 (Z.min m n)
  | _, LogicalValue.Null, _ | _, _, LogicalValue.Null => LogicalValue.Null
  | (Operator.Equal | Operator.Like), _, _ => LogicalValue.Boolean (bool_decide (a = b))
  | Operator.NotEqual, _, _ => LogicalValue.Boolean (negb (bool_decide (a = b)))
  | Operator.Less, LogicalValue.Int64 m, LogicalValue.Int64 n => LogicalValue.Boolean (m <? n)%Z
  | Operator.LessEqual, LogicalValue.Int64 m, LogicalValue.Int64 n =>
      LogicalValue.Boolean (m <=? n)%Z
  | Operator.Greater, LogicalValue.Int64 m, LogicalValue.Int64 n => LogicalValue.Boolean (n <? m)%Z
  | Operator.GreaterEqual, LogicalValue.Int64 m, LogicalValue.Int64 n =>
      LogicalValue.Boolean (n <=? m)%Z
  | Operator.Concat, LogicalValue.String s, LogicalValue.String t => LogicalValue.String (s ++ t)
  | Operator.Concat, _, _ => LogicalValue.String ""
  | _, _, _ => LogicalValue.Null
  end.

#[export] Instance plain_engine : Engine := {|
  operate := plain_operate;
  cast_text v := v;
  call _ arguments := default LogicalValue.Null (head arguments);
  truth v :=
    match v with
    | LogicalValue.Boolean b => Some b
    | LogicalValue.Int64 n => Some (negb (n =? 0)%Z)
    | _ => None
    end;
  order_rows keys := seq 0 (length keys);
  row_number _ i := LogicalValue.Int64 (Z.of_nat i + 1)
|}.

#[export] Instance plain_engine_laws : EngineLaws.
Proof. done. Qed.

(** ** A catalog *)

Definition plain_value (t : LogicalType) : ValueDescriptor :=
  {| vd_logical_type := t; vd_representation := ValueRepresentation.String; vd_nullable := false;
     vd_format := None; vd_storage := None; vd_constraints := None; vd_json_schema := None |}.

Definition get {A E} (default : A) (r : A + E) : A := match r with inl a => a | inr _ => default end.

Definition no_resource : ResourceDescriptor :=
  {| rd_id := 0; rd_name := ""; rd_source := ""; rd_columns := [] |}.

Definition projects_columns : list (string * ValueDescriptor) :=
  [("id", plain_value LogicalType.Int64); ("owner", plain_value LogicalType.String);
   ("name", plain_value LogicalType.String); ("secret", plain_value LogicalType.String)]%string.
Definition tasks_columns : list (string * ValueDescriptor) :=
  [("id", plain_value LogicalType.Int64); ("project", plain_value LogicalType.Int64)]%string.

Definition projects := get no_resource (resource_new 1 "projects" projects_columns).
Definition tasks := get no_resource (resource_new 2 "tasks" tasks_columns).
Definition world_catalog : Catalog :=
  get {| cat_snapshot := ""; cat_resources := [] |} (catalog_new "snapshot" [projects; tasks]).

Lemma world_catalog_built : catalog_built world_catalog.
Proof.
  exists "snapshot", [projects; tasks]. split; [reflexivity|].
  constructor; [|constructor; [|constructor]].
  - by eapply (built_new 1 "projects" "projects" projects_columns).
  - by eapply (built_new 2 "tasks" "tasks" tasks_columns).
Qed.

(** ** A bundle *)

Definition yaml_member (key : string) (v : YamlValue) : YamlValue :=
  YamlValue.Mapping [(YamlValue.String key, v)].

Definition yaml_int (n : Z) : YamlValue := YamlValue.Number (YamlNumber.PosInt n).

(** [{owner: {eq: {session: subject_id}}}] *)
Definition owned : YamlValue :=
  yaml_member "owner" (yaml_member "eq" (yaml_member "session" (YamlValue.String "subject_id"))).

(** [{id: {lt: n}}] *)
Definition below (n : Z) : YamlValue := yaml_member "id" (yaml_member "lt" (yaml_int n)).

Definition world_raw : RawBundle := {|
  rb_version := 1;
  rb_resources :=
    [("projects", {| rr_roles := [("member", {|
        role_select := Some {|
          rs_columns := [RawColumn.Regular "id"; RawColumn.Regular "owner";
                         RawColumn.Conditional "name" owned YamlValue.Null];
          rs_filter := below 100; rs_limit := Some 2; rs_allow_aggregations := true;
          rs_allow_windows := false |};
        role_insert := Some {|
          ri_columns := ["id"; "name"];
          ri_presets := [("owner", yaml_member "session" (YamlValue.String "subject_id"))];
          ri_check := below 100; ri_returning := None |};
        role_update := Some {|
          ru_columns := ["name"];
          ru_presets := [("owner", yaml_member "session" (YamlValue.String "subject_id"))];
          ru_filter := owned; ru_check := below 100;
          ru_returning := Some {| rr_columns := ["id"] |} |};
        role_delete := Some {| rd_filter := owned; rd_returning := None |} |})] |});
     ("tasks", {| rr_roles := [("member", {|
        role_select := Some {|
          rs_columns := [RawColumn.Regular "id"; RawColumn.Regular "project"];
          rs_filter := below 10; rs_limit := None; rs_allow_aggregations := false;
          rs_allow_windows := false |};
        role_insert := None; role_update := None; role_delete := None |})] |})]%string;
  rb_commit_checks :=
    [("total", {| rc_triggered_by := ["projects"]; rc_role := None;
                  rc_hook := {| rh_timeout_ms := 1000 |} |})]%string
|}.

#[export] Instance world_yaml : Yaml :=
  {| yaml_from_str text := if String.eqb text "bundle" then Some world_raw else None |}.

Definition unsigned_limits (raw : RawBundle) : bool :=
  forallb (fun r => forallb (fun x =>
    opt_forallb (fun s => opt_forallb (Z.leb 0) (rs_limit s)) (role_select x.2)) (rr_roles r.2))
    (rb_resources raw)
  && forallb (fun c => 0 <=? rh_timeout_ms (rc_hook c.2))%Z (rb_commit_checks raw).

#[export] Instance world_yaml_laws : YamlLaws.
Proof.
  assert (Hw : unsigned_limits world_raw = true) by reflexivity.
  unfold unsigned_limits in Hw. apply andb_true_iff in Hw as [Hl Ht].
  rewrite !forallb_forall in *. split.
  - intros text raw resource r role x s limit Hraw Hr Hx Hs Hlim. simpl in Hraw.
    case_match; [|done]. injection Hraw as <-. apply list_elem_of_In in Hr. specialize (Hl _ Hr).
    rewrite forallb_forall in Hl. apply list_elem_of_In in Hx. specialize (Hl _ Hx).
    simpl in Hl. rewrite Hs in Hl. simpl in Hl. rewrite Hlim in Hl. by apply Z.leb_le.
  - intros text raw id check Hraw Hc. simpl in Hraw. case_match; [|done]. injection Hraw as <-.
    apply list_elem_of_In in Hc. specialize (Ht _ Hc). by apply Z.leb_le.
Qed.

Definition no_bundle : PolicyBundle :=
  {| pb_snapshot := ""; pb_select := ∅; pb_insert := ∅; pb_update := ∅; pb_delete := ∅;
     pb_commit_checks := []; pb_quoted_string_literals := ∅ |}.

Definition world_bundle : PolicyBundle := get no_bundle (activate "bundle" world_catalog "snapshot").

Lemma world_activates :
  activate_with_value_limit "bundle" world_catalog "snapshot" DEFAULT_MAX_BYTES_PER_VALUE
  = inl world_bundle.
Proof. vm_compute. reflexivity. Qed.

Lemma world_bundle_served : bundle_served world_bundle.
Proof.
  exists "bundle", world_catalog, "snapshot", DEFAULT_MAX_BYTES_PER_VALUE.
  split; [exact world_catalog_built|exact world_activates].
Qed.

Definition no_session : TrustedSession := {| session_role := ""; session_values := ∅ |}.
Definition world_session : TrustedSession :=
  get no_session (trusted_session_new "member" "ann" []).

(** ** Rows *)

Definition project (id : Z) (owner name secret : string) : Row :=
  list_to_map
    [({| column_resource := 1; column_ordinal := 0 |}, LogicalValue.Int64 id);
     ({| column_resource := 1; column_ordinal := 1 |}, LogicalValue.String owner);
     ({| column_resource := 1; column_ordinal := 2 |}, LogicalValue.String name);
     ({| column_resource := 1; column_ordinal := 3 |}, LogicalValue.String secret)].
Definition task (id project : Z) : Row :=
  list_to_map
    [({| column_resource := 2; column_ordinal := 0 |}, LogicalValue.Int64 id);
     ({| column_resource := 2; column_ordinal := 1 |}, LogicalValue.Int64 project)].

Definition world_database : Database := fun r =>
  if (r =? 1)%Z then
    [project 1 "ann" "apple" "s1"; project 2 "bob" "berry" "s2"; project 3 "ann" "cherry" "s3";
     project 4 "bob" "date" "s4"; project 500 "ann" "elder" "s5"]
  else if (r =? 2)%Z then [task 1 1; task 2 2; task 3 3; task 20 4; task 4 500]
  else [].

(** ** Statements *)

Definition col (resource ordinal : Z) (t : LogicalType) (usage : ColumnUsage.column_usage)
    : BoundColumn :=
  {| bc_id := {| column_resource := resource; column_ordinal := ordinal |};
     bc_logical_type := t; bc_usage := usage |}.
Definition column_expr (resource ordinal : Z) (t : LogicalType) : BoundExpr :=
  BoundExpr.Column (col resource ordinal t ColumnUsage.Filter).
Definition returned (e : BoundExpr) (name : string) : BoundProjection :=
  {| bp_expression := e; bp_output_name := name |}.

Definition plain_select (resource : Z) (projections : list BoundProjection)
    (predicate limit : option BoundExpr) : BoundSelect :=
  {| bs_resource := resource; bs_alias := None; bs_joins := []; bs_projections := projections;
     bs_predicate := predicate; bs_group_by := []; bs_having := None; bs_order_by := [];
     bs_limit := limit; bs_offset := None |}.

(** [EXISTS (SELECT 1 FROM tasks WHERE tasks.project = projects.id)] *)
Definition has_task : BoundExpr :=
  BoundExpr.Exists (plain_select 2 [returned (BoundExpr.Literal (LogicalValue.Int64 1)) "exists_value"]
    (Some (BoundExpr.Equal (column_expr 2 1 LogicalType.Int64) (column_expr 1 0 LogicalType.Int64)))
    None).

(** [SELECT id, name FROM projects WHERE EXISTS (...) LIMIT :n] *)
Definition world_select : BoundSelect :=
  plain_select 1
    [returned (column_expr 1 0 LogicalType.Int64) "id";
     returned (column_expr 1 2 LogicalType.String) "name"]
    (Some has_task) (Some (BoundExpr.ClientParameter "n" LogicalType.Int64)).

Definition args_n (n : Z) : gmap string LogicalValue := {[ "n"%string := LogicalValue.Int64 n ]}.

Definition no_plan : CompileOutput := compile_constant_select no_bundle {| bcs_projections := [] |}.
Definition world_output : CompileOutput :=
  get no_plan (compile_select world_bundle (BoundStatement.Select world_select) world_session).

(** The values a select returns when it is run as compiled. *)
Definition run_output (out : CompileOutput) (args : gmap string LogicalValue) (db : Database)
    : list (list LogicalValue) :=
  match pp_statement (co_plan out) with
  | BoundStatement.Select s =>
      run_select db {| client_values := args; server_params := pp_server_values (co_plan out) |} s
  | _ => []
  end.

(** Ann sees the names of her own projects; her view ends at project 100; of the four rows left the
    policy returns two. *)
Example world_runs : run_output world_output (args_n 10) world_database
  = [[LogicalValue.Int64 1; LogicalValue.String "apple"]; [LogicalValue.Int64 2; LogicalValue.Null]].
Proof. vm_compute. reflexivity. Qed.

Lemma activate_valid_witness :
  (length (pb_commit_checks world_bundle) <= MAX_COMMIT_CHECKS)%nat
  /\ policies_activated world_bundle.
Proof.
  destruct (activate_valid "bundle" world_catalog "snapshot" DEFAULT_MAX_BYTES_PER_VALUE world_bundle
    world_catalog_built world_activates) as (Hp & Hn & _). split; [exact Hn|exact Hp].
Defined.
