(* ===== verification/ParameterFacts.v ===== *)
(** * What is proved of client parameters

    The pass finds every occurrence of a parameter with its position, and the values of a request
    are accepted exactly when every occurrence accepts its value; an accepted request determines
    what the statement means. *)

From S2P Require Import Prelude Result F64 Utf8 Core Catalog Ir Plan Semantics PolicyWorld.

(** ** The occurrences *)

(** An occurrence: the name, the type it is bound with, and its position. *)
Abbreviation Occurrence := (string * LogicalType * Position)%type.

Definition option_list {A B} (f : A -> list B) (o : option A) : list B :=
  match o with Some a => f a | None => [] end.

Definition select_occurrences (occurrences : BoundExpr -> list Occurrence) (s : BoundSelect)
    : list Occurrence :=
  flat_map (fun p => occurrences (bp_expression p)) (bs_projections s)
  ++ flat_map (fun j => occurrences (bj_on j)) (bs_joins s)
  ++ option_list occurrences (bs_predicate s)
  ++ option_list occurrences (bs_having s)
  ++ flat_map (fun o => occurrences (bo_expression o)) (bs_order_by s)
  ++ option_list occurrences (bs_limit s)
  ++ option_list occurrences (bs_offset s).

Fixpoint occurrences_at (e : BoundExpr) (p : Position) : list Occurrence :=
  let occurrences e := occurrences_at e Position.Other in
  match e with
  | BoundExpr.ClientParameter name logical_type => [(name, logical_type, p)]
  | BoundExpr.Equal l r | BoundExpr.NotEqual l r | BoundExpr.Less l r
  | BoundExpr.LessEqual l r | BoundExpr.Greater l r | BoundExpr.GreaterEqual l r
  | BoundExpr.Like l r | BoundExpr.Glob l r | BoundExpr.Least l r | BoundExpr.Concat l r =>
      occurrences_at l (compared_with r) ++ occurrences_at r (compared_with l)
  | BoundExpr.And l r | BoundExpr.Or l r | BoundExpr.ConditionalOutput l r =>
      occurrences l ++ occurrences r
  | BoundExpr.Not e | BoundExpr.IsNull e | BoundExpr.CastText e => occurrences e
  | BoundExpr.In e vs _ =>
      occurrences e ++ flat_map (fun v => occurrences_at v (compared_with e)) vs
  | BoundExpr.ScalarFunction _ es _ => flat_map occurrences es
  | BoundExpr.Exists s => select_occurrences occurrences s
  | BoundExpr.Case bs o _ =>
      flat_map (fun b => occurrences b.1 ++ occurrences b.2) bs ++ option_list occurrences o
  | BoundExpr.RowNumber _ _ os => flat_map (fun o => occurrences (bo_expression o)) os
  | BoundExpr.Column _ | BoundExpr.ServerParameter _ _ | BoundExpr.Literal _
  | BoundExpr.CountAll _ => []
  end.

Definition occurrences (e : BoundExpr) : list Occurrence := occurrences_at e Position.Other.

Definition assigned (b : BoundAssignment) : list Occurrence :=
  occurrences_at (ba_value b) (Position.Assignment (ba_column b)).

Definition projected (ps : list BoundProjection) : list Occurrence :=
  flat_map (fun p => occurrences (bp_expression p)) ps.

Definition statement_occurrences (statement : BoundStatement) : list Occurrence :=
  match statement with
  | BoundStatement.Select s => select_occurrences occurrences s
  | BoundStatement.ConstantSelect s => projected (bcs_projections s)
  | BoundStatement.JsonCollectionSelect s =>
      occurrences (bjc_path s) ++ option_list occurrences (bjc_predicate s)
  | BoundStatement.Insert i => flat_map assigned (concat (bi_rows i)) ++ projected (bi_returning i)
  | BoundStatement.Update u =>
      flat_map assigned (bu_assignments u) ++ option_list occurrences (bu_predicate u)
      ++ projected (bu_returning u)
  | BoundStatement.Delete d => option_list occurrences (bd_predicate d) ++ projected (bd_returning d)
  end.

(** ** The pass adds the occurrences in turn *)

Section pass.
Context (catalog : Catalog).

Definition add_occurrence (a : ClientParameterAnalysis) (o : Occurrence)
    : ClientParameterAnalysis :=
  let '(name, logical_type, p) := o in Plan.parameter catalog name logical_type p a.

Definition add_occurrences (os : list Occurrence) (a : ClientParameterAnalysis)
    : ClientParameterAnalysis := fold_left add_occurrence os a.

Lemma add_occurrences_app l k a :
  add_occurrences (l ++ k) a = add_occurrences k (add_occurrences l a).
Proof. apply fold_left_app. Qed.

Lemma add_all_occurrences {A} (visit : A -> ClientParameterAnalysis -> ClientParameterAnalysis)
    (f : A -> list Occurrence) l :
  Forall (fun x => forall a, visit x a = add_occurrences (f x) a) l ->
  forall a, add_all visit l a = add_occurrences (flat_map f l) a.
Proof.
  induction 1 as [|x l Hx _ IH]; intros a; [done|]. simpl. rewrite add_occurrences_app, <- Hx.
  apply IH.
Qed.

Lemma add_option_occurrences {A} (visit : A -> ClientParameterAnalysis -> ClientParameterAnalysis)
    (f : A -> list Occurrence) o :
  option_holds (fun x => forall a, visit x a = add_occurrences (f x) a) o ->
  forall a, add_option visit o a = add_occurrences (option_list f o) a.
Proof. destruct o as [x|]; [|done]. intros Hx st. apply Hx. Qed.

Lemma visit_select_occurrences (visit : BoundExpr -> ClientParameterAnalysis -> ClientParameterAnalysis)
    (f : BoundExpr -> list Occurrence) s :
  select_forall (fun e => forall a, visit e a = add_occurrences (f e) a) s ->
  forall a, visit_select visit s a = add_occurrences (select_occurrences f s) a.
Proof.
  intros (Hj & Hp & Hw & Hh & Ho & Hl & Hoff) a. unfold visit_select, select_occurrences.
  rewrite !add_occurrences_app.
  rewrite <- (add_all_occurrences (fun q => visit (bp_expression q))) by done.
  rewrite <- (add_all_occurrences (fun q => visit (bj_on q))) by done.
  rewrite <- (add_option_occurrences visit f (bs_predicate s)) by done.
  rewrite <- (add_option_occurrences visit f (bs_having s)) by done.
  rewrite <- (add_all_occurrences (fun q => visit (bo_expression q))) by done.
  rewrite <- (add_option_occurrences visit f (bs_limit s)) by done.
  by rewrite <- (add_option_occurrences visit f (bs_offset s)).
Qed.

Lemma expr_at_occurrences e :
  forall p a, expr_at catalog e p a = add_occurrences (occurrences_at e p) a.
Proof.
  induction e using bound_expr_nested_ind; intros pos st; simpl;
    rewrite ?add_occurrences_app; try congruence.
  - rewrite <- IHe. apply add_all_occurrences.
    eapply Forall_impl; [done|]. intros v Hv a'. apply Hv.
  - rewrite <- (add_all_occurrences (fun '(condition, value) a =>
      expr_at catalog value Position.Other (expr_at catalog condition Position.Other a))).
    + apply add_option_occurrences. destruct e; [|done]. intros a'. apply H0.
    + eapply Forall_impl; [done|]. intros [c v] [Hc Hv] a'. simpl in *.
      by rewrite add_occurrences_app, <- Hc, <- Hv.
  - apply visit_select_occurrences. apply (select_forall_impl _ _ _ H). auto.
  - apply add_all_occurrences. eapply Forall_impl; [done|]. simpl. auto.
  - apply add_all_occurrences. eapply Forall_impl; [done|]. simpl. auto.
Qed.

Lemma expr_occurrences e a : expr catalog e a = add_occurrences (occurrences e) a.
Proof. apply expr_at_occurrences. Qed.

Lemma projections_occurrences ps a : projections catalog ps a = add_occurrences (projected ps) a.
Proof.
  apply add_all_occurrences, Forall_true. intros p a'. apply expr_occurrences.
Qed.

Lemma assignments_occurrences l a :
  add_all (assignment catalog) l a = add_occurrences (flat_map assigned l) a.
Proof. apply add_all_occurrences, Forall_true. intros b a'. apply expr_at_occurrences. Qed.

Lemma optional_occurrences o a :
  add_option (expr catalog) o a = add_occurrences (option_list occurrences o) a.
Proof. apply add_option_occurrences. destruct o; [|done]. intros a'. apply expr_occurrences. Qed.

Lemma statement_occurrences_added statement a :
  visit_statement catalog statement a = add_occurrences (statement_occurrences statement) a.
Proof.
  destruct statement; simpl; rewrite ?add_occurrences_app.
  - apply visit_select_occurrences, select_forall_true. intros e a'. apply expr_occurrences.
  - apply projections_occurrences.
  - by rewrite optional_occurrences, expr_occurrences.
  - by rewrite projections_occurrences, assignments_occurrences.
  - by rewrite projections_occurrences, optional_occurrences, assignments_occurrences.
  - by rewrite projections_occurrences, optional_occurrences.
Qed.
End pass.

(** ** What the pass knows of its occurrences *)

Section knowledge.
Context (catalog : Catalog).

Definition column_of (p : Position) : option BoundColumn := (position_column catalog p).1.
Definition null_safe (p : Position) : bool := (position_column catalog p).2.

(** A contract is right for the occurrences of its name. *)
Definition contract_right (os : list Occurrence) (name : string) (c : ClientParameterContract)
    : Prop :=
  (cpc_nullable c = true <-> forall t p, (name, t, p) ∈ os -> null_safe p = true)
  /\ forall id, (exists column, column ∈ cpc_columns c /\ bc_id column = id)
       <-> exists t p column, (name, t, p) ∈ os /\ column_of p = Some column /\ bc_id column = id.

Record right (os : list Occurrence) (a : ClientParameterAnalysis) : Prop := {
  right_names name : is_Some (cpa_parameters a !! name) <-> exists t p, (name, t, p) ∈ os;
  right_contract name c : cpa_parameters a !! name = Some c -> contract_right os name c;
  right_first name c : cpa_parameters a !! name = Some c ->
    exists p, (name, cpc_logical_type c, p) ∈ os;
  right_types : cpa_type_conflict a = false <->
    forall name t p c, (name, t, p) ∈ os -> cpa_parameters a !! name = Some c ->
      cpc_logical_type c = t
}.

Lemma right_empty : right [] {| cpa_parameters := ∅; cpa_type_conflict := false |}.
Proof.
  split; simpl.
  - intros name. rewrite lookup_empty. split; [by intros []|]. intros (t & p & Hin). set_solver.
  - by intros name c Hc.
  - by intros name c Hc.
  - split; [|done]. intros _ name t p c Hin. set_solver.
Qed.

Lemma contract_right_other os name o c :
  o.1.1 <> name -> contract_right os name c -> contract_right (os ++ [o]) name c.
Proof.
  intros Hne [Hnull Hcol].
  assert (Hin : forall t p, (name, t, p) ∈ os ++ [o] <-> (name, t, p) ∈ os).
  { intros t p. rewrite elem_of_app, list_elem_of_singleton. split; [|by left].
    intros [?|<-]; done. }
  split.
  - rewrite Hnull. by setoid_rewrite Hin.
  - intros id. rewrite Hcol. by setoid_rewrite Hin.
Qed.

Lemma extend_columns (known : list BoundColumn) (column : BoundColumn) id :
  (exists c, c ∈ (if existsb (fun k => bool_decide (bc_id k = bc_id column)) known
                  then known else (known ++ [column])%list) /\ bc_id c = id)
  <-> (exists c, c ∈ known /\ bc_id c = id) \/ bc_id column = id.
Proof.
  destruct (existsb _ known) eqn:E.
  - split; [by left|]. intros [?|<-]; [done|]. apply existsb_exists in E as [k [Hk E]].
    apply bool_decide_eq_true in E. exists k. by rewrite list_elem_of_In.
  - split.
    + intros (c & Hc & <-). apply elem_of_app in Hc as [Hc|Hc].
      * left. by exists c.
      * apply list_elem_of_singleton in Hc as ->. by right.
    + intros [(c & Hc & <-)|<-]; [exists c|exists column]; by rewrite elem_of_app, ?list_elem_of_singleton; auto.
Qed.

(** What the occurrences of a name say, one more or fewer. *)
Lemma null_safe_snoc (os : list Occurrence) (name : string) (t : LogicalType) (p : Position) :
  (forall t' p', (name, t', p') ∈ os ++ [(name, t, p)] -> null_safe p' = true)
  <-> (forall t' p', (name, t', p') ∈ os -> null_safe p' = true) /\ null_safe p = true.
Proof.
  split.
  - intros Hs. split; [|apply (Hs t); apply elem_of_app; right; by apply list_elem_of_singleton].
    intros t' p' Hin. apply (Hs t'), elem_of_app. by left.
  - intros [Hs Hp] t' p' Hin. apply elem_of_app in Hin as [Hin|Hin]; [by eapply Hs|].
    apply list_elem_of_singleton in Hin. by injection Hin as -> ->.
Qed.

Lemma columns_snoc (os : list Occurrence) (name : string) (t : LogicalType) (p : Position) id :
  (exists t' p' column, (name, t', p') ∈ os ++ [(name, t, p)] /\ column_of p' = Some column
     /\ bc_id column = id)
  <-> (exists t' p' column, (name, t', p') ∈ os /\ column_of p' = Some column /\ bc_id column = id)
      \/ exists column, column_of p = Some column /\ bc_id column = id.
Proof.
  split.
  - intros (t' & p' & column & Hin & Hc & <-). apply elem_of_app in Hin as [Hin|Hin].
    + left. by exists t', p', column.
    + apply list_elem_of_singleton in Hin. injection Hin as -> ->. right. by exists column.
  - intros [(t' & p' & column & Hin & Hc & <-)|(column & Hc & <-)].
    + exists t', p', column. rewrite elem_of_app. auto.
    + exists t, p, column. rewrite elem_of_app, list_elem_of_singleton. auto.
Qed.

Lemma add_occurrence_names (os : list Occurrence) a n t p :
  right os a ->
  forall name, is_Some (cpa_parameters (Plan.parameter catalog n t p a) !! name)
    <-> exists t' p', (name, t', p') ∈ os ++ [(n, t, p)].
Proof.
  intros Ha name. unfold Plan.parameter. destruct (position_column catalog p) as [column nullable]. simpl.
  setoid_rewrite elem_of_app. setoid_rewrite list_elem_of_singleton.
  destruct (decide (n = name)) as [->|Hne].
  - rewrite lookup_insert_eq. split; [intros _; exists t, p; by right|by eexists].
  - rewrite lookup_insert_ne by done. rewrite (right_names _ _ Ha).
    split; intros (t' & p' & Hin); exists t', p'; [by left|].
    destruct Hin as [Hin|[= -> ]]; done.
Qed.

(** The contract the pass starts from: the known one, or one of a name without occurrences. *)
Lemma start_right (os : list Occurrence) a n t p :
  right os a ->
  let c := default {| cpc_logical_type := t; cpc_nullable := null_safe p; cpc_columns := [] |}
             (cpa_parameters a !! n) in
  (cpc_nullable c && null_safe p = true
     <-> (forall t' p', (n, t', p') ∈ os -> null_safe p' = true) /\ null_safe p = true)
  /\ forall id, (exists column, column ∈ cpc_columns c /\ bc_id column = id)
       <-> exists t' p' column, (n, t', p') ∈ os /\ column_of p' = Some column /\ bc_id column = id.
Proof.
  intros Ha. destruct (cpa_parameters a !! n) as [c|] eqn:E; simpl.
  - destruct (right_contract _ _ Ha _ _ E) as [Hn Hc]. split; [|done].
    by rewrite andb_true_iff, Hn.
  - assert (Hno : forall t' p', ~ (n, t', p') ∈ os).
    { intros t' p' Hin. assert (Hs : is_Some (cpa_parameters a !! n)).
      { apply (right_names _ _ Ha). by exists t', p'. }
      rewrite E in Hs. by destruct Hs. }
    split.
    + rewrite andb_diag. split; [|by intros [_ ?]]. intros Hp. split; [|done].
      intros t' p' Hin. by destruct (Hno t' p').
    + intros id. split; [intros (column & Hin & _); by apply elem_of_nil in Hin|]. intros (t' & p' & column & Hin & _). by destruct (Hno t' p').
Qed.

Lemma add_occurrence_contract (os : list Occurrence) a n t p :
  right os a ->
  forall name c, cpa_parameters (Plan.parameter catalog n t p a) !! name = Some c ->
  contract_right (os ++ [(n, t, p)]) name c.
Proof.
  intros Ha name c Hc. destruct (start_right os a n t p Ha) as [Hn Hcol].
  unfold Plan.parameter in Hc. unfold null_safe, column_of in *.
  destruct (position_column catalog p) as [column nullable] eqn:Ep. simpl in *.
  destruct (decide (n = name)) as [->|Hne].
  - rewrite lookup_insert_eq in Hc. injection Hc as <-. split.
    + rewrite null_safe_snoc. unfold null_safe. rewrite Ep. simpl. exact Hn.
    + intros id. rewrite columns_snoc. unfold column_of. rewrite Ep. simpl.
      destruct column as [column|].
      * rewrite extend_columns, Hcol. split; (intros [?|Hid]; [by left|right]).
        -- by exists column.
        -- destruct Hid as (c' & [= ->] & ?). done.
      * rewrite Hcol. split; [by left|]. intros [?|(c' & ? & _)]; done.
  - rewrite lookup_insert_ne in Hc by done. apply contract_right_other; [done|].
    by apply (right_contract _ _ Ha).
Qed.

Lemma add_occurrence_first (os : list Occurrence) a n t p :
  right os a ->
  forall name c, cpa_parameters (Plan.parameter catalog n t p a) !! name = Some c ->
  exists p', (name, cpc_logical_type c, p') ∈ os ++ [(n, t, p)].
Proof.
  intros Ha name c. unfold Plan.parameter. destruct (position_column catalog p) as [column nullable]. simpl.
  destruct (decide (n = name)) as [->|Hne].
  - rewrite lookup_insert_eq. intros [= <-]. simpl.
    destruct (cpa_parameters a !! name) as [c|] eqn:E; simpl.
    + destruct (right_first _ _ Ha _ _ E) as [p' Hp']. exists p'. apply elem_of_app. by left.
    + exists p. apply elem_of_app. right. by apply list_elem_of_singleton.
  - rewrite lookup_insert_ne by done. intros Hc. destruct (right_first _ _ Ha _ _ Hc) as [p' Hp'].
    exists p'. apply elem_of_app. by left.
Qed.

Lemma add_occurrence_types (os : list Occurrence) a n t p :
  right os a ->
  cpa_type_conflict (Plan.parameter catalog n t p a) = false <->
  forall name t' p' c, (name, t', p') ∈ os ++ [(n, t, p)] ->
    cpa_parameters (Plan.parameter catalog n t p a) !! name = Some c -> cpc_logical_type c = t'.
Proof.
  intros Ha. unfold Plan.parameter. destruct (position_column catalog p) as [column nullable]. simpl.
  rewrite orb_false_iff, negb_false_iff, bool_decide_eq_true, (right_types _ _ Ha).
  set (c0 := default _ (cpa_parameters a !! n)).
  assert (Hold : forall name t' p', (name, t', p') ∈ os ->
    exists c, cpa_parameters a !! name = Some c).
  { intros name t' p' Hin. apply (proj2 (right_names _ _ Ha name)). by exists t', p'. }
  split.
  - intros [Ht He] name t' p' c Hin Hc. destruct (decide (n = name)) as [->|Hne].
    + rewrite lookup_insert_eq in Hc. injection Hc as <-. simpl.
      apply elem_of_app in Hin as [Hin|Hin].
      * destruct (Hold _ _ _ Hin) as [c Hc]. unfold c0. rewrite Hc. simpl. by eapply Ht.
      * apply list_elem_of_singleton in Hin. injection Hin as -> ->. done.
    + rewrite lookup_insert_ne in Hc by done. apply elem_of_app in Hin as [Hin|Hin];
        [by eapply Ht|]. apply list_elem_of_singleton in Hin. congruence.
  - intros Hall. split.
    + intros name t' p' c Hin Hc. destruct (decide (n = name)) as [->|Hne].
      * assert (Hc0 : c0 = c) by (unfold c0; by rewrite Hc). rewrite <- Hc0.
        apply (Hall name t' p' _ (proj2 (elem_of_app _ _ _) (or_introl Hin)) (lookup_insert_eq _ _ _)).
      * apply (Hall name t' p'); [apply elem_of_app; by left|]. by rewrite lookup_insert_ne.
    + assert (Hin : (n, t, p) ∈ os ++ [(n, t, p)])
        by (apply elem_of_app; right; by apply list_elem_of_singleton).
      apply (Hall n t p _ Hin (lookup_insert_eq _ _ _)).
Qed.

Lemma occurrences_right os : right os (add_occurrences catalog os
  {| cpa_parameters := ∅; cpa_type_conflict := false |}).
Proof.
  induction os as [|[[n t] p] os IH] using rev_ind; [apply right_empty|].
  rewrite add_occurrences_app. simpl. split.
  - by apply add_occurrence_names.
  - by apply add_occurrence_contract.
  - by apply add_occurrence_first.
  - by apply add_occurrence_types.
Qed.

Lemma analysis_right statement :
  right (statement_occurrences statement) (analyze_client_parameters statement catalog).
Proof.
  unfold analyze_client_parameters. rewrite statement_occurrences_added. apply occurrences_right.
Qed.
End knowledge.

(** ** The values of a request *)

Section acceptance.
Context `{Regex} (catalog : Catalog) (max_bytes_per_value : Z).

(** A value an occurrence accepts: of its type, or NULL where every occurrence of the name is an
    assignment to a nullable column; and one the contract of its column accepts. *)
Definition accepts (os : list Occurrence) (o : Occurrence) (value : LogicalValue) : Prop :=
  let '(name, logical_type, p) := o in
  (logical_value_matches value logical_type max_bytes_per_value = true
   \/ value = LogicalValue.Null
      /\ forall t' p', (name, t', p') ∈ os -> null_safe catalog p' = true)
  /\ forall column, column_of catalog p = Some column ->
       exists d, column_descriptor catalog column = Some d
         /\ value_satisfies_contract value d max_bytes_per_value = true.

Lemma check_value_inl values name c :
  check_value catalog values max_bytes_per_value (name, c) = inl () <->
  exists value, values !! name = Some value
    /\ (logical_value_matches value (cpc_logical_type c) max_bytes_per_value = true
        \/ value = LogicalValue.Null /\ cpc_nullable c = true)
    /\ forall column, column ∈ cpc_columns c ->
         exists d, column_descriptor catalog column = Some d
           /\ value_satisfies_contract value d max_bytes_per_value = true.
Proof.
  unfold check_value. split.
  - intros Hc. apply result_bind_inl in Hc as [value [Hv Hc]]. apply ok_or_inl in Hv.
    exists value. split; [done|]. case_match eqn:E; [done|]. split.
    + apply andb_false_iff in E as [E|E]; apply negb_false_iff in E; [|by left].
      apply andb_true_iff in E as [E1 E2]. apply bool_decide_eq_true in E1. by right.
    + intros column Hcol. apply for_each_inl in Hc. rewrite Forall_forall in Hc.
      apply Hc, result_bind_inl in Hcol as [d [Hd Hs]].
      apply ok_or_inl in Hd. apply require_inl in Hs. by exists d.
  - intros (value & Hv & Hm & Hc). rewrite Hv. simpl.
    assert (E : negb (bool_decide (value = LogicalValue.Null) && cpc_nullable c)
                && negb (logical_value_matches value (cpc_logical_type c) max_bytes_per_value)
                = false).
    { destruct Hm as [->|[-> ->]]; [by rewrite andb_false_r|]. by rewrite bool_decide_eq_true_2. }
    unfold mbind, result_bind. rewrite E. apply for_each_inl, Forall_forall.
    intros column Hcol. destruct (Hc column Hcol) as (d & Hd & Hs).
    rewrite Hd. simpl. by rewrite Hs.
Qed.

Lemma column_descriptor_id column column' :
  bc_id column = bc_id column' ->
  column_descriptor catalog column = column_descriptor catalog column'.
Proof. unfold column_descriptor. by intros ->. Qed.

(** The pass over a statement: its occurrences and what it knows of them. *)
Section accepted.
Context (statement : BoundStatement) (values : gmap string LogicalValue).
Let os : list Occurrence := statement_occurrences statement.
Let a : ClientParameterAnalysis := analyze_client_parameters statement catalog.

(** The values are those of the parameters, each used with one type, and every occurrence accepts
    its value. *)
Definition accepted_values : Prop :=
  (forall name, is_Some (values !! name) <-> exists t p, (name, t, p) ∈ os)
  /\ (forall name t p t' p', (name, t, p) ∈ os -> (name, t', p') ∈ os -> t = t')
  /\ (forall o value, o ∈ os -> values !! o.1.1 = Some value -> accepts os o value).

Lemma known_occurrence name t p :
  (name, t, p) ∈ os -> exists c, cpa_parameters a !! name = Some c.
Proof.
  intros Hin. apply (proj2 (right_names _ _ _ (analysis_right catalog statement) name)).
  by exists t, p.
Qed.

Lemma names_dom :
  names a = dom values <->
  forall name, is_Some (values !! name) <-> exists t p, (name, t, p) ∈ os.
Proof.
  pose proof (analysis_right catalog statement : right catalog os a) as Hr.
  unfold names. rewrite set_eq. setoid_rewrite elem_of_dom.
  split; intros Hn name; [rewrite <- Hn|rewrite Hn]; by rewrite (right_names _ _ _ Hr).
Qed.

(** What the validation comes down to. *)
Lemma validate_inl :
  validate_client_parameters a catalog values max_bytes_per_value = inl () <->
  names a = dom values /\ cpa_type_conflict a = false
  /\ forall name c, cpa_parameters a !! name = Some c ->
       check_value catalog values max_bytes_per_value (name, c) = inl ().
Proof.
  unfold validate_client_parameters, contracts. case_bool_decide as Hn; simpl;
    [|by split; [|intros []]].
  destruct (cpa_type_conflict a); simpl; [by split; [|intros (_ & ? & _)]|].
  rewrite for_each_inl, Forall_forall. split.
  - intros Hall. split_and!; [done|done|]. intros name c Hc. apply (Hall (name, c)).
    by apply elem_of_map_to_list.
  - intros (_ & _ & Hall) [name c] Hin. by apply Hall, elem_of_map_to_list.
Qed.

Lemma validated_accepted :
  validate_client_parameters a catalog values max_bytes_per_value = inl () -> accepted_values.
Proof.
  pose proof (analysis_right catalog statement : right catalog os a) as Hr.
  intros (Hn & Ec & Hall)%validate_inl. pose proof (proj1 (right_types _ _ _ Hr) Ec) as Htypes.
  split; [by apply names_dom|]. split.
  { intros name t p t' p' H1 H2. destruct (known_occurrence _ _ _ H1) as [c Hc].
    by rewrite <- (Htypes _ _ _ _ H1 Hc), <- (Htypes _ _ _ _ H2 Hc). }
  intros [[name t] p] value Hin Hv. simpl in Hv. destruct (known_occurrence _ _ _ Hin) as [c Hc].
  specialize (Hall _ _ Hc). apply check_value_inl in Hall as (v & Hv' & Hm & Hcols).
  assert (v = value) as -> by congruence.
  destruct (right_contract _ _ _ Hr _ _ Hc) as [Hnull Hids].
  rewrite (Htypes _ _ _ _ Hin Hc) in Hm. split.
  - destruct Hm as [?|[? Hcn]]; [by left|right]. split; [done|]. by apply Hnull.
  - intros column Hcol. destruct (proj2 (Hids (bc_id column))) as (k & Hk & Hid).
    { by exists t, p, column. }
    rewrite <- (column_descriptor_id k column Hid). by apply Hcols.
Qed.

Lemma accepted_validated :
  accepted_values -> validate_client_parameters a catalog values max_bytes_per_value = inl ().
Proof.
  pose proof (analysis_right catalog statement : right catalog os a) as Hr.
  intros (Hdom & Ht & Hacc). apply validate_inl. split; [by apply names_dom|]. split.
  { apply (right_types _ _ _ Hr). intros name t p c Hin Hc.
    destruct (right_first _ _ _ Hr _ _ Hc) as [p' Hp']. by eapply Ht. }
  intros name c Hc. apply check_value_inl. destruct (right_contract _ _ _ Hr _ _ Hc) as [Hnull Hids].
  destruct (right_first _ _ _ Hr _ _ Hc) as [p Hos].
  destruct (proj2 (Hdom name)) as [value Hv]; [by eexists _, _|].
  exists value. split; [done|]. split.
  - destruct (Hacc _ value Hos Hv) as [[?|[? Hs]] _]; [by left|right].
    split; [done|]. by apply Hnull.
  - intros column Hcol. destruct (proj1 (Hids (bc_id column))) as (t' & p' & k & Hin' & Hk & Hid).
    { by exists column. }
    destruct (Hacc (name, t', p') value Hin' Hv) as [_ Hcs].
    rewrite (column_descriptor_id column k (eq_sym Hid)). by apply Hcs.
Qed.

(** An accepted value is NULL only where every occurrence proves that NULL is safe. *)
Lemma accepted_not_null name t p value :
  validate_client_parameters a catalog values max_bytes_per_value = inl () ->
  (name, t, p) ∈ os -> null_safe catalog p = false -> values !! name = Some value ->
  value <> LogicalValue.Null.
Proof.
  intros (_ & _ & Hacc)%validated_accepted Hin Hp Hv ->.
  destruct (Hacc (name, t, p) LogicalValue.Null Hin Hv) as [[Hm|[_ Hs]] _]; [by destruct t|].
  specialize (Hs _ _ Hin). congruence.
Qed.
End accepted.

(** C19: client parameters. The values of a request are accepted exactly when they are the values of
    the parameters of the statement, every name is used with one type, and every occurrence accepts
    its value: one of its type, or NULL if the parameter is nowhere but assigned to nullable
    columns, that the contract of the column next to the occurrence allows. *)
Theorem parameters_accepted statement values :
  let os := statement_occurrences statement in
  validate_client_parameters (analyze_client_parameters statement catalog) catalog values
    max_bytes_per_value = inl () <->
  (forall name, is_Some (values !! name) <-> exists t p, (name, t, p) ∈ os)
  /\ (forall name t p t' p', (name, t, p) ∈ os -> (name, t', p') ∈ os -> t = t')
  /\ (forall o value, o ∈ os -> values !! o.1.1 = Some value -> accepts os o value).
Proof. split; [apply validated_accepted|apply accepted_validated]. Qed.
End acceptance.

(** ** The pass misses no parameter

    A bound select means the same under client values that agree on the names the pass finds. *)

Section agreement.
Context `{Engine} (db : Database) (v v' s : gmap string LogicalValue).

Let params := {| client_values := v; server_params := s |}.
Let params' := {| client_values := v'; server_params := s |}.

Definition agree (os : list Occurrence) : Prop :=
  forall o, o ∈ os -> v !! o.1.1 = v' !! o.1.1.

Lemma agree_app l k : agree (l ++ k) <-> agree l /\ agree k.
Proof.
  unfold agree. split.
  - intros Ha. split; intros o Ho; apply Ha, elem_of_app; auto.
  - intros [Hl Hk] o Ho. apply elem_of_app in Ho as [?|?]; auto.
Qed.

Lemma agree_flat_map {A} (f : A -> list Occurrence) l :
  agree (flat_map f l) <-> Forall (fun a => agree (f a)) l.
Proof.
  induction l as [|a l IH]; simpl; [split; [constructor|intros _ o Ho; set_solver]|].
  by rewrite agree_app, Forall_cons, IH.
Qed.

Lemma agree_option {A} (f : A -> list Occurrence) o :
  agree (option_list f o) <-> option_holds (fun a => agree (f a)) o.
Proof. destruct o; simpl; [done|]. split; [done|]. intros _ x Hx. set_solver. Qed.

Lemma join_rows_eval g g' (j : BoundJoin) env :
  (forall env, g env (bj_on j) = g' env (bj_on j)) -> join_rows db g j env = join_rows db g' j env.
Proof.
  intros Hg. unfold join_rows.
  by erewrite (List.filter_ext (fun env => is_true (g env (bj_on j)))) by (intros; by rewrite Hg).
Qed.

Lemma joined_rows_eval g g' (js : list BoundJoin) :
  Forall (fun j => forall env, g env (bj_on j) = g' env (bj_on j)) js ->
  forall envs, joined_rows db g envs js = joined_rows db g' envs js.
Proof.
  induction 1 as [|j js Hj _ IH]; intros envs; [done|]. simpl. rewrite IH. f_equal.
  apply flat_map_ext. intros env. by apply join_rows_eval.
Qed.

Lemma source_rows_eval g g' (q : BoundSelect) env :
  Forall (fun j => forall env, g env (bj_on j) = g' env (bj_on j)) (bs_joins q) ->
  option_holds (fun e => forall env, g env e = g' env e) (bs_predicate q) ->
  source_rows db g q env = source_rows db g' q env.
Proof.
  intros Hj Hp. unfold source_rows. rewrite (joined_rows_eval g g') by done.
  apply List.filter_ext. intros e. unfold where_holds. destruct (bs_predicate q); [|done].
  simpl in Hp. by rewrite Hp.
Qed.

Lemma page_eval {A} g g' (q : BoundSelect) (l : list A) :
  option_holds (fun e => g e = g' e) (bs_limit q) ->
  option_holds (fun e => g e = g' e) (bs_offset q) -> page g q l = page g' q l.
Proof.
  intros Hl Ho. unfold page. destruct (bs_limit q), (bs_offset q); simpl in *; congruence.
Qed.

(** The parts of a select that its occurrences cover. *)
Lemma agree_select f q :
  agree (select_occurrences f q) <-> select_forall (fun e => agree (f e)) q.
Proof.
  unfold select_occurrences, select_forall.
  rewrite !agree_app, !agree_flat_map, !agree_option. tauto.
Qed.

Lemma select_forall_mp (P Q : BoundExpr -> Prop) q :
  select_forall (fun e => P e -> Q e) q -> select_forall P q -> select_forall Q q.
Proof.
  assert (Ho : forall o, option_holds (fun e => P e -> Q e) o -> option_holds P o -> option_holds Q o)
    by (intros []; simpl; auto).
  assert (Hl : forall {A} (g : A -> BoundExpr) l, Forall (fun a => P (g a) -> Q (g a)) l ->
    Forall (fun a => P (g a)) l -> Forall (fun a => Q (g a)) l).
  { intros A g l H1 H2. rewrite Forall_forall in *. auto. }
  intros (H1 & H2 & H3 & H4 & H5 & H6 & H7) (G1 & G2 & G3 & G4 & G5 & G6 & G7).
  split_and!; auto.
Qed.

Lemma eval_agree e : forall p, agree (occurrences_at e p) ->
  forall f, eval db params f e = eval db params' f e.
Proof.
  induction e using bound_expr_nested_ind; intros pos Ha fr; simpl in *;
    repeat match goal with
      | H : agree (_ ++ _) |- _ => apply agree_app in H as [? ?]
      | H : agree (flat_map _ _) |- _ => apply agree_flat_map in H
      | H : agree (option_list _ _) |- _ => apply agree_option in H
      | IH : forall p, agree (occurrences_at ?e p) -> _, H : agree (occurrences_at ?e _) |- _ =>
          specialize (IH _ H)
      end; try congruence.
  - pose proof (Ha (n, t, pos) ltac:(by apply list_elem_of_singleton)) as Hn. simpl in Hn.
    unfold Semantics.parameter. by rewrite Hn.
  - rewrite IHe. f_equal. apply map_ext_Forall. rewrite Forall_forall in *. intros x Hx.
    eapply H0; [done|]. by apply H2.
  - f_equal.
    + apply map_ext_Forall. rewrite Forall_forall in *. intros b Hb.
      match goal with H : forall x, x ∈ bs -> agree _ |- _ => specialize (H b Hb); apply agree_app in H as [? ?] end.
      destruct (H0 b Hb) as [Hb1 Hb2]. f_equal; [by eapply Hb1|by eapply Hb2].
    + destruct e; [|done]. simpl in *. by eapply H1.
  - by rewrite IHe1, IHe2.
  - match goal with H : select_forall _ _ |- _ => rename H into IH end. apply agree_select in Ha.
    assert (Hq : select_forall (fun e => forall f, eval db params f e = eval db params' f e) s0).
    { eapply select_forall_mp; [eapply (select_forall_impl _ _ _ IH)|exact Ha].
      intros e He Hag f. exact (He _ Hag f). }
    destruct Hq as (Hj & _ & Hp & _ & _ & Hl & Ho).
    rewrite (source_rows_eval _ (fun env => eval db params' (frame_of env))).
    + erewrite page_eval; [done|..]; (eapply option_holds_impl; [done|]); auto.
    + eapply Forall_impl; [done|]. simpl. auto.
    + eapply option_holds_impl; [done|]. auto.
  - f_equal. apply map_ext_Forall. rewrite Forall_forall in *. eauto.
  - f_equal. apply map_ext. intros env. f_equal. apply map_ext_Forall. rewrite Forall_forall in *.
    intros o Ho. f_equal. eauto.
Qed.

Lemma run_select_agree q :
  agree (select_occurrences occurrences q) -> run_select db params q = run_select db params' q.
Proof.
  intros Ha. apply agree_select in Ha.
  assert (Hq : select_forall (fun e => forall f, eval db params f e = eval db params' f e) q).
  { apply (select_forall_impl _ _ _ Ha). intros e He f.
    apply (eval_agree e Position.Other He). }
  destruct Hq as (Hj & Hp & Hw & Hh & Ho & Hl & Hoff).
  assert (Hframes : frames db params q = frames db params' q).
  { unfold frames. rewrite (source_rows_eval _ (fun env => eval db params' (frame_of env))).
    - erewrite (List.filter_ext (having_holds db params q)); [done|]. intros g.
      unfold having_holds. destruct (bs_having q); [|done]. simpl in Hh. by rewrite Hh.
    - eapply Forall_impl; [done|]. simpl. auto.
    - eapply option_holds_impl; [done|]. auto. }
  assert (Hkey : forall f, sort_key db params q f = sort_key db params' q f).
  { intros f. unfold sort_key. apply map_ext_Forall. eapply Forall_impl; [exact Ho|].
    simpl. intros o Heq. by rewrite Heq. }
  unfold run_select, ordered. rewrite Hframes, (map_ext _ _ Hkey).
  erewrite (map_ext (Semantics.project db params q)).
  - apply page_eval; (eapply option_holds_impl; [done|]); auto.
  - intros f. unfold Semantics.project. apply map_ext_Forall. eapply Forall_impl; [exact Hp|]. auto.
Qed.

Lemma found_agree catalog statement :
  (forall name, name ∈ names (analyze_client_parameters statement catalog) -> v !! name = v' !! name) ->
  agree (statement_occurrences statement).
Proof.
  intros Hn [[name t] p] Hin. apply Hn, elem_of_dom, (right_names _ _ _ (analysis_right _ _)).
  by exists t, p.
Qed.
End agreement.

(** C8: The pass misses no parameter. Under client values that agree on the names it finds in a
    select, the select returns the same rows. *)
Theorem found_parameters_determine `{Engine} db catalog select v v' server :
  (forall name,
    name ∈ names (analyze_client_parameters (BoundStatement.Select select) catalog) ->
    v !! name = v' !! name) ->
  run_select db {| client_values := v; server_params := server |} select
  = run_select db {| client_values := v'; server_params := server |} select.
Proof. intros Hn. by apply run_select_agree, (found_agree v v' catalog (BoundStatement.Select select)). Qed.

(** A parameter the select does not use changes nothing; the one it uses does. *)
Lemma found_parameters_determine_witness :
  names (analyze_client_parameters (BoundStatement.Select world_select) world_catalog) = {["n"%string]}
  /\ run_select world_database
       {| client_values := <["other"%string := LogicalValue.Int64 7]> (args_n 1);
          server_params := ∅ |} world_select
     = run_select world_database {| client_values := args_n 1; server_params := ∅ |} world_select
  /\ run_select world_database {| client_values := args_n 0; server_params := ∅ |} world_select
     <> run_select world_database {| client_values := args_n 1; server_params := ∅ |} world_select.
Proof.
  split; [reflexivity|]. split; [|vm_compute; discriminate].
  apply (found_parameters_determine world_database world_catalog). intros name Hn.
  change (names _) with ({["n"%string]} : gset string) in Hn. apply elem_of_singleton in Hn as ->.
  reflexivity.
Defined.
