(* ===== verification/EmitFacts.v ===== *)
(** * What the emitter writes

    The syntax tree of a protected select means what the select means: on the tables behind the
    catalog it returns the rows of the bound select, each conditional column with its visibility
    beside it. *)

From S2P Require Import Prelude Result F64 Utf8 Btree Core Catalog Ir Protect CompilePolicy.
From S2P Require Import PolicyWorld Plan SqlAst Complexity Emit Semantics SqlMeaning.

(** ** Names and numerals *)

Lemma undoubled_doubled c s : undoubled c (doubled c s) = s.
Proof.
  induction s as [|a s IH]; [done|]. simpl. destruct (Ascii.eqb_spec a c) as [->|Hne].
  - simpl. by rewrite Ascii.eqb_refl, IH.
  - simpl. destruct (Ascii.eqb_spec a c); [done|]. simpl. destruct (doubled c s) as [|b t] eqn:E.
    + by destruct s as [|x s]; [|simpl in E; destruct (Ascii.eqb x c)].
    + by rewrite IH.
Qed.

Lemma denoted_quoted value : denoted (quoted_name value) = value.
Proof.
  change (quoted_name value)
    with (from_string (String double_quote (doubled double_quote value ++ dquote))).
  unfold denoted. rewrite Ascii.eqb_refl, string_length_app.
  replace (String.length (doubled double_quote value) + String.length dquote - 1)%nat
    with (String.length (doubled double_quote value)) by (simpl; lia).
  by rewrite substring_app_l, undoubled_doubled.
Qed.

#[local] Arguments denoted : simpl never.
#[local] Arguments quoted_name : simpl never.
#[local] Arguments dec : simpl never.

Lemma numeral_dec n : 0 <= n < 2 ^ 63 -> numeral (dec n) = LogicalValue.Int64 n.
Proof. intros Hn. unfold numeral. by rewrite parse_i64_dec. Qed.

Lemma numeral_negative n : 0 <= n <= 2 ^ 63 -> numeral ("-" ++ dec n) = LogicalValue.Int64 (- n).
Proof. intros Hn. unfold numeral. by rewrite parse_i64_negative. Qed.

(** ** The tables behind a catalog *)

(** The row of a resource: its columns by their identities. *)
Definition row_of (r : ResourceDescriptor) (row : NamedRow) : Row :=
  list_to_map (omap (fun d => pair (cd_id d) <$> row !! cd_name d) (columns r)).

(** The database the bound statements read. *)
Definition database (catalog : Catalog) (tables : Tables) : Database := fun resource =>
  match resource_by_id catalog resource with
  | Some r => map (row_of r) (tables (rd_source r))
  | None => []
  end.

(** Every column of the catalog has an identity of its own. *)
Definition columns_distinct (catalog : Catalog) : Prop :=
  forall resource r, resource_by_id catalog resource = Some r -> NoDup (map cd_id (columns r)).

Lemma row_of_empty r : row_of r ∅ = ∅.
Proof.
  unfold row_of. replace (omap _ (columns r)) with (@nil (ColumnId * LogicalValue)); [done|].
  induction (columns r) as [|d ds IH]; [done|]. simpl. by rewrite lookup_empty.
Qed.

Lemma row_of_lookup r row id d :
  NoDup (map cd_id (columns r)) -> column_by_id r id = Some d ->
  row_of r row !! id = row !! cd_name d.
Proof.
  unfold column_by_id, row_of. intros Hd Hc. destruct (_ =? _)%Z; [|done].
  induction (columns r) as [|c cs IH]; [done|]. simpl in *. apply NoDup_cons in Hd as [Hn Hd].
  case_bool_decide as Hid.
  - injection Hc as ->. destruct (row !! cd_name d) as [v|] eqn:E; simpl.
    + by rewrite Hid, lookup_insert_eq.
    + apply not_elem_of_list_to_map_1. intros Hin. apply Hn.
      apply list_elem_of_fmap in Hin as ([id' v] & -> & Hin). apply list_elem_of_omap in Hin as (d' & Hd' & E').
      destruct (row !! cd_name d'); [|done]. injection E' as <- _.
      apply list_elem_of_fmap. exists d'. by rewrite Hid.
  - destruct (row !! cd_name c) as [v|] eqn:E; simpl; [|by apply IH].
    rewrite lookup_insert_ne by done. by apply IH.
Qed.

(** ** What an emission does to its state *)

(** The names that literals may take from here on are free. *)
Definition literal_name (n : Z) : string := (SERVER_PARAMETER_PREFIX ++ "literal_" ++ dec n)%string.
Definition fresh (s : EmitState) : Prop :=
  0 <= es_next_literal s
  /\ forall n, es_next_literal s <= n < 2 ^ 64 -> es_server_parameters s !! literal_name n = None.

(** [m] keeps the parameters of the server, adds to them, and returns what [Q] says of all
    parameters that contain them. *)
Definition emits {A} (m : emission A) (Q : gmap string LogicalValue -> A -> Prop) : Prop :=
  forall s a s', m s = inl (a, s') -> fresh s ->
    fresh s' /\ es_server_parameters s ⊆ es_server_parameters s'
    /\ forall sp, es_server_parameters s' ⊆ sp -> Q sp a.

Lemma emits_ret {A} (a : A) (Q : gmap string LogicalValue -> A -> Prop) :
  (forall sp, Q sp a) -> emits (mret a) Q.
Proof. intros HQ s a' s' [= <- <-] Hs. auto. Qed.

Lemma emits_bind {A B} (m : emission A) (k : A -> emission B) P Q :
  emits m P -> (forall a, emits (k a) (fun sp b => P sp a -> Q sp b)) -> emits (m ≫= k) Q.
Proof.
  intros Hm Hk s b s' Hb Hs. unfold mbind, emission_bind in Hb.
  destruct (m s) as [[a s1]|] eqn:Ea; [|done]. destruct (Hm _ _ _ Ea Hs) as (Hs1 & Hle1 & HP).
  destruct (Hk a _ _ _ Hb Hs1) as (Hs' & Hle2 & HQ). split; [done|]. split; [by etrans|].
  intros sp Hsp. apply HQ; [done|]. apply HP. by etrans.
Qed.

Lemma emits_impl {A} (m : emission A) (P Q : gmap string LogicalValue -> A -> Prop) :
  emits m P -> (forall sp a, P sp a -> Q sp a) -> emits m Q.
Proof. intros Hm HPQ s a s' Ha Hs. destruct (Hm _ _ _ Ha Hs) as (? & ? & HP). auto. Qed.

Lemma emits_also {A} (m : emission A) (P : gmap string LogicalValue -> A -> Prop) (R : A -> Prop) :
  emits m P -> (forall s a s', m s = inl (a, s') -> R a) -> emits m (fun sp a => P sp a /\ R a).
Proof.
  intros Hm HR s a s' Ha Hs. destruct (Hm _ _ _ Ha Hs) as (? & ? & HP). split_and!; eauto.
Qed.

Lemma emits_lift {A} (r : result EmitError.emit_error A) : emits (lift r) (fun _ a => r = inl a).
Proof. intros s a s' Ha Hs. unfold lift in Ha. destruct r; [|done]. injection Ha as <- <-. auto. Qed.

Lemma emits_push column (Q : gmap string LogicalValue -> unit -> Prop) :
  (forall sp, Q sp ()) -> emits (push_column column) Q.
Proof. intros HQ s [] s' [= <-] Hs. auto. Qed.

Lemma emits_aside {A} (m : emission A) Q : emits m Q -> emits (aside m) Q.
Proof.
  intros Hm s a s' Ha Hs. unfold aside in Ha. set (s0 := Build_EmitState _ _ _ _ []) in Ha.
  destruct (m s0) as [[b s1]|] eqn:Eb; [|done]. injection Ha as <- <-. by apply (Hm _ _ _ Eb).
Qed.

Lemma emits_all {A B} (f : A -> emission B) (R : gmap string LogicalValue -> A -> B -> Prop) l :
  Forall (fun a => emits (f a) (fun sp b => R sp a b)) l ->
  emits (emit_all f l) (fun sp bs => Forall2 (R sp) l bs).
Proof.
  induction 1 as [|a l Ha _ IH]; simpl; [by apply emits_ret|].
  eapply emits_bind; [exact Ha|]. intros b. eapply emits_bind; [exact IH|]. intros bs.
  apply emits_ret. by constructor.
Qed.

Lemma emits_option {A B} (f : A -> emission B) (R : gmap string LogicalValue -> A -> B -> Prop) o :
  option_holds (fun a => emits (f a) (fun sp b => R sp a b)) o ->
  emits (emit_option f o) (fun sp o' => option_Forall2 (R sp) o o').
Proof.
  destruct o as [a|]; simpl; [|by intros _; apply emits_ret; constructor].
  intros Ha. eapply emits_bind; [exact Ha|]. intros b. apply emits_ret. by constructor.
Qed.

Lemma emits_parameter name :
  emits (emit_parameter name) (fun _ x => exists index, x = SqlExpr.VariableExpr (named (":" ++ name) index)).
Proof.
  intros s x s' Hx Hs. unfold emit_parameter in Hx.
  destruct (es_parameter_indices s !! _) as [index|]; [injection Hx as <- <-; eauto|].
  destruct (_ <? _)%Z; [done|]. injection Hx as <- <-. eauto.
Qed.

Lemma dec_inj m n : 0 <= m < 2 ^ 64 -> 0 <= n < 2 ^ 64 -> dec m = dec n -> m = n.
Proof. intros Hm Hn E. apply (f_equal (digits_value 0)) in E. by rewrite !dec_value in E. Qed.

Lemma literal_name_inj m n :
  0 <= m < 2 ^ 64 -> 0 <= n < 2 ^ 64 -> literal_name m = literal_name n -> m = n.
Proof.
  unfold literal_name. intros Hm Hn E. apply dec_inj; [done..|].
  apply (inj (String.append _)), (inj (String.append _)) in E. exact E.
Qed.

(** A literal that becomes a parameter is found under its name. *)
Lemma emits_literal_parameter fuel value :
  emits (literal_parameter fuel value) (fun sp x => exists name index,
    x = SqlExpr.VariableExpr (named (":" ++ name) index) /\ sp !! name = Some value).
Proof.
  intros s x s' Hx Hs. pose proof Hs as [Hpos Hfree].
  assert (Hcase : exists next name,
    checked_add64 (es_next_literal s) 1 = Some next
    /\ from_trusted_suffix ("literal_" ++ dec (es_next_literal s)) = inl name
    /\ (es_server_parameters s !! name = None ->
        emit_parameter name {| es_server_parameters := <[name := value]> (es_server_parameters s);
          es_next_literal := next; es_parameter_indices := es_parameter_indices s;
          es_next_parameter := es_next_parameter s; es_columns := es_columns s |} = inl (x, s'))).
  { destruct fuel; simpl in Hx; (destruct (checked_add64 _ 1) as [next|]; [|done]);
      (destruct (from_trusted_suffix _) as [name|]; [|done]); exists next, name;
      (split; [done|]); (split; [done|]); intros Hn; by rewrite Hn in Hx. }
  destruct Hcase as (next & name & Hnext & Hname & Hcase).
  unfold checked_add64 in Hnext. destruct (Z.leb_spec (es_next_literal s + 1) U64_MAX); [|done].
  injection Hnext as <-. unfold from_trusted_suffix in Hname. destruct (negb _); [done|].
  injection Hname as <-. change (SERVER_PARAMETER_PREFIX ++ _)%string
    with (literal_name (es_next_literal s)) in *. unfold U64_MAX in *.
  assert (Hnone : es_server_parameters s !! literal_name (es_next_literal s) = None)
    by (apply Hfree; lia).
  specialize (Hcase Hnone). set (s1 := Build_EmitState _ _ _ _ _) in Hcase.
  assert (Hs1 : fresh s1).
  { split; [simpl; lia|]. intros n Hn. simpl in *. rewrite lookup_insert_ne; [apply Hfree; lia|].
    intros E. apply literal_name_inj in E; lia. }
  destruct (emits_parameter _ _ _ _ Hcase Hs1) as (Hs' & Hle & Hvar). split; [done|].
  split; [etrans; [|exact Hle]; by apply insert_subseteq|]. intros sp Hsp.
  destruct (Hvar sp Hsp) as [index ->]. eexists _, _. split; [done|].
  eapply lookup_weaken; [|exact Hsp]. eapply lookup_weaken; [|exact Hle]. apply lookup_insert_eq.
Qed.

(** ** The select and its tree *)

Definition conj_all {A} (P : A -> Prop) (l : list A) : Prop := fold_right (fun a p => P a /\ p) True l.

Lemma conj_all_Forall {A} (P : A -> Prop) l : conj_all P l <-> Forall P l.
Proof. induction l as [|a l IH]; simpl; [by split|]. by rewrite Forall_cons, IH. Qed.

Definition select_every (P : BoundExpr -> Prop) (s : BoundSelect) : Prop :=
  conj_all (fun j => P (bj_on j)) (bs_joins s)
  /\ conj_all (fun p => P (bp_expression p)) (bs_projections s)
  /\ option_holds P (bs_predicate s)
  /\ option_holds P (bs_having s)
  /\ conj_all (fun o => P (bo_expression o)) (bs_order_by s)
  /\ option_holds P (bs_limit s)
  /\ option_holds P (bs_offset s).

(** What a number is printed as reads back as the number. *)
Definition number_reads (x : f64) : Prop :=
  numeral (if F64.ltb x F64.zero then "-" ++ Display.text (SpecFloat.SFopp x) else Display.text x)
  = LogicalValue.Number x.

Section meaning.
Context `{Engine} (catalog : Catalog) (tables : Tables) (client : gmap string LogicalValue).
Context (aliases : gmap Z string).
Context (Hdistinct : columns_distinct catalog).
Context (Halias : forall r r' a, aliases !! r = Some a -> aliases !! r' = Some a -> r = r').
Context (Hnamed : forall r, aliases !! r <> Some EmptyString).

(** No parameter of the client has the name of one of the server, numbers read back, and 64-bit
    integers are. *)
Fixpoint readable (sp : gmap string LogicalValue) (e : BoundExpr) : Prop :=
  let readable := readable sp in
  match e with
  | BoundExpr.ClientParameter name _ => sp !! name = None
  | BoundExpr.Literal (LogicalValue.Number x) => number_reads x
  | BoundExpr.Literal (LogicalValue.Int64 n) => - 2 ^ 63 <= n < 2 ^ 63
  | BoundExpr.Equal l r | BoundExpr.NotEqual l r | BoundExpr.Less l r | BoundExpr.LessEqual l r
  | BoundExpr.Greater l r | BoundExpr.GreaterEqual l r | BoundExpr.And l r | BoundExpr.Or l r
  | BoundExpr.Like l r | BoundExpr.Glob l r | BoundExpr.Least l r | BoundExpr.Concat l r
  | BoundExpr.ConditionalOutput l r => readable l /\ readable r
  | BoundExpr.Not inner | BoundExpr.IsNull inner | BoundExpr.CastText inner => readable inner
  | BoundExpr.In e values _ => readable e /\ conj_all readable values
  | BoundExpr.Case branches otherwise _ =>
      conj_all (fun branch => readable branch.1 /\ readable branch.2) branches
      /\ option_holds readable otherwise
  | BoundExpr.ScalarFunction _ arguments _ =>
      conj_all readable arguments
  | BoundExpr.Exists s => select_every readable s
  | BoundExpr.RowNumber _ _ order_by => conj_all (fun o => readable (bo_expression o)) order_by
  | BoundExpr.Column _ | BoundExpr.ServerParameter _ _ | BoundExpr.Literal _
  | BoundExpr.CountAll _ => True
  end.

Definition values (sp : gmap string LogicalValue) (name : string) : LogicalValue :=
  match sp !! name with Some v => v | None => parameter client name end.
Definition bound_values (sp : gmap string LogicalValue) : Params :=
  {| client_values := client; server_params := sp |}.

(** The rows of the resources, from those of their aliases. *)
Definition bind_env (env : SqlEnv) : Env :=
  map_imap (fun resource alias =>
    r ← resource_by_id catalog resource; row_of r <$> env !! alias) aliases.

Definition bind_frame (f : SqlFrame) : Frame :=
  {| fr_env := bind_env (sf_env f); fr_count := sf_count f; fr_window := map bind_env (sf_window f);
     fr_index := sf_index f |}.

Lemma bind_env_empty : bind_env ∅ = ∅.
Proof.
  apply map_eq. intros r. unfold bind_env. rewrite map_lookup_imap, !lookup_empty.
  destruct (aliases !! r) as [a|]; [|done]. simpl. destruct (resource_by_id catalog r); [|done].
  simpl. by rewrite lookup_empty.
Qed.

Lemma bind_env_insert resource alias r row env :
  aliases !! resource = Some alias -> resource_by_id catalog resource = Some r ->
  bind_env (<[alias := row]> env) = <[resource := row_of r row]> (bind_env env).
Proof.
  intros Ha Hr. apply map_eq. intros resource'. unfold bind_env. rewrite map_lookup_imap.
  destruct (decide (resource = resource')) as [<-|Hne].
  - rewrite Ha. simpl. by rewrite Hr, !lookup_insert_eq.
  - rewrite lookup_insert_ne, map_lookup_imap by done.
    destruct (aliases !! resource') as [alias'|] eqn:Ha'; [|done]. simpl.
    destruct (resource_by_id catalog resource'); [|done]. simpl. rewrite lookup_insert_ne; [done|].
    intros <-. by apply Hne, (Halias _ _ alias).
Qed.

Lemma bind_frame_of env : bind_frame (sql_frame_of env) = frame_of (bind_env env).
Proof. done. Qed.

Lemma bind_in_env f env : bind_frame (in_sql_env f env) = in_env (bind_frame f) (bind_env env).
Proof. done. Qed.

Abbreviation means sp f x := (sql_eval tables (values sp) f x).
Abbreviation meant sp f e := (eval (database catalog tables) (bound_values sp) (bind_frame f) e).
Abbreviation expression := (Emit.expression catalog aliases).

Definition agree (sp : gmap string LogicalValue) (e : BoundExpr) (x : SqlExpr) : Prop :=
  readable sp e -> forall f, means sp f x = meant sp f e.
Definition emitted (e : BoundExpr) : Prop := emits (expression e) (fun sp x => agree sp e x).

Lemma emits_column column :
  emits (emit_column catalog aliases column) (fun sp x => forall f,
    means sp f x = column_value (bind_env (sf_env f)) (bc_id column)).
Proof.
  unfold emit_column. eapply emits_bind; [apply emits_lift|]. intros r.
  eapply emits_bind; [apply emits_lift|]. intros d.
  eapply emits_bind; [apply emits_lift|]. intros a. apply emits_ret.
  intros sp Ha%ok_or_inl Hd%ok_or_inl Hr%ok_or_inl f.
  destruct (String.eqb_spec a "") as [->|Hne]; [by destruct (Hnamed _ Ha)|].
  simpl. rewrite !denoted_quoted. unfold column_value, bind_env. rewrite map_lookup_imap, Ha. simpl.
  rewrite Hr. simpl. destruct (sf_env f !! a) as [row|]; [|done]. simpl.
  by rewrite (row_of_lookup _ _ _ d) by (done || by eapply Hdistinct).
Qed.

(** ** Projections *)

(** What the expression emitted counts is what the expression does. *)
Definition counted (e : BoundExpr) : Prop :=
  yields (expression e) (fun x => counts_star x = counts e).

Lemma parameter_star name : yields (emit_parameter name) (fun x => counts_star x = false).
Proof. intros s x s'. unfold emit_parameter. repeat case_match; try done; by intros [= <- _]. Qed.

Lemma literal_star fuel value : yields (literal_parameter fuel value) (fun x => counts_star x = false).
Proof.
  induction fuel as [|fuel IH]; intros s x s'; simpl; repeat case_match; try done;
    try (by apply IH); by apply parameter_star.
Qed.

Lemma counted_all_of {A} (f : A -> emission SqlExpr) (count : A -> bool) l :
  Forall (fun a => yields (f a) (fun x => counts_star x = count a)) l ->
  yields (emit_all f l) (fun xs => existsb counts_star xs = existsb count l).
Proof.
  induction 1 as [|a l Ha _ IH]; simpl; [by apply yields_ret|].
  eapply yields_bind; [exact Ha|]. intros x Hx. eapply yields_bind; [exact IH|]. intros xs Hxs.
  apply yields_ret. simpl. by rewrite Hx, Hxs.
Qed.

Lemma counted_two l r (node : SqlExpr -> SqlExpr -> SqlExpr) :
  counted l -> counted r ->
  (forall x y, counts_star (node x y) = counts_star x || counts_star y) ->
  yields (x ← expression l; y ← expression r; mret (node x y))
    (fun x => counts_star x = counts l || counts r).
Proof.
  intros Hl Hr Hn. eapply yields_bind; [exact Hl|]. intros x Hx.
  eapply yields_bind; [exact Hr|]. intros y Hy. apply yields_ret. by rewrite Hn, Hx, Hy.
Qed.

Lemma counted_in e vs n : counted e -> Forall counted vs -> counted (BoundExpr.In e vs n).
Proof.
  intros He Hvs. unfold counted. simpl. destruct vs as [|v vs]; [by intros ? ? ?|].
  eapply yields_bind; [exact He|]. intros x Hx.
  eapply yields_bind; [by apply (counted_all_of _ counts)|]. intros xs Hxs. apply yields_ret.
  cbn [parenthesized counts_star existsb]. by rewrite Hx, Hxs, orb_false_r.
Qed.

Lemma counted_case bs o t :
  Forall (fun b => counted b.1 /\ counted b.2) bs -> option_holds counted o ->
  counted (BoundExpr.Case bs o t).
Proof.
  intros Hbs Ho. unfold counted. simpl.
  eapply yields_bind with (P := fun pairs =>
    existsb (fun pair => counts_star pair.1 || counts_star pair.2) pairs
    = existsb (fun b => counts b.1 || counts b.2) bs).
  { clear Ho. induction Hbs as [|b bs [Hc Hv] _ IH]; simpl; [by apply yields_ret|].
    eapply yields_bind with (P := fun pair => counts_star pair.1 || counts_star pair.2
      = counts b.1 || counts b.2).
    - eapply yields_bind; [exact Hc|]. intros x Hx. eapply yields_bind; [exact Hv|].
      intros y Hy. apply yields_ret. simpl. by rewrite Hx, Hy.
    - intros pair Hp. eapply yields_bind; [exact IH|]. intros pairs Hps. apply yields_ret.
      simpl. by rewrite Hp, Hps. }
  intros pairs Hp. eapply yields_bind with (P := fun o' =>
    match o' with Some x => counts_star x | None => false end
    = match o with Some e => counts e | None => false end).
  - destruct o as [e|]; simpl; [|by apply yields_ret].
    eapply yields_bind; [exact Ho|]. intros x Hx. by apply yields_ret.
  - intros o' Ho'. apply yields_ret. simpl. by rewrite Hp, Ho'.
Qed.

Lemma expression_star e : counted e.
Proof.
  induction e using bound_expr_nested_ind; unfold counted; simpl.
  all: try (apply (counted_two e1 e2); [done|done|intros; simpl; by rewrite ?orb_false_r]).
  all: try (eapply yields_bind; [exact IHe|]; intros x Hx; apply yields_ret; simpl;
            by rewrite ?orb_false_r).
  - unfold emit_column. eapply yields_bind; [by apply yields_any|]. intros r _.
    eapply yields_bind; [by apply yields_any|]. intros d _.
    eapply yields_bind; [by apply yields_any|]. intros a _. apply yields_ret. by case_match.
  - apply parameter_star.
  - intros s x s'. unfold emit_server_parameter. case_match; [|done]. apply parameter_star.
  - unfold emit_literal. destruct v as [|? |[]| | | | ]; try (by apply yields_ret);
      try (intros s0 x s1 Hx; exact (literal_star _ _ _ _ _ Hx)); [apply yields_ret; by case_match|].
    case_match; [apply yields_ret; by case_match|by intros ? ? ?].
  - apply counted_in; [done|by eapply Forall_impl].
  - by apply (counted_case _ _ LogicalType.String).
  - apply (counted_two e2 e1 (fun x y => case_when x y (SqlExpr.Literal SqlLiteral.Null))); [done..|].
    intros x y. simpl. by rewrite !orb_false_r.
  - eapply yields_bind; [by apply yields_any|]. intros r _.
    eapply yields_bind; [by apply yields_any|]. intros node _. by apply yields_ret.
  - by apply yields_ret.
  - eapply yields_bind; [by apply (counted_all_of _ counts)|]. intros xs Hxs. by apply yields_ret.
  - eapply yields_bind; [by apply yields_any|]. intros xs _.
    eapply yields_bind; [by apply yields_any|]. intros ys _. by apply yields_ret.
Qed.

(** The columns a projection becomes: its value, and the visibility of a conditional one. *)
Definition projected_as (sp : gmap string LogicalValue) (p : BoundProjection)
    (columns : list ResultColumn) : Prop :=
  exists x name, counts_star x = counts (bp_expression p) /\ agree sp (bp_expression p) x
  /\ match bp_expression p with
     | BoundExpr.ConditionalOutput _ condition => exists y name',
         columns = [ResultExpr x name; ResultExpr (truth_flag y) name']
         /\ agree sp condition y /\ counts_star y = counts condition
     | _ => columns = [ResultExpr x name]
     end.

(** The condition of a conditional expression is emitted once more. *)
Definition emitted_twice (e : BoundExpr) : Prop :=
  emitted e /\ forall value condition,
    e = BoundExpr.ConditionalOutput value condition -> emitted condition.

Lemma emits_projection index p :
  emitted_twice (bp_expression p) ->
  emits (emit_projection catalog expression index p) (fun sp columns => projected_as sp p columns).
Proof.
  intros [He Hc]. unfold emit_projection.
  eapply emits_bind; [exact (emits_also _ _ _ He (expression_star _))|]. intros x.
  eapply emits_bind; [by apply (emits_push _ (fun _ _ => True))|]. intros [].
  assert (Hstar : forall columns, (forall sp, agree sp (bp_expression p) x ->
    counts_star x = counts (bp_expression p) -> projected_as sp p columns) ->
    emits (mret columns) (fun sp columns => True ->
      agree sp (bp_expression p) x /\ counts_star x = counts (bp_expression p) ->
      projected_as sp p columns)).
  { intros columns Hcol. apply emits_ret. intros sp _ [Ha Hx]. by apply Hcol. }
  unfold projected_as in *. destruct (bp_expression p) eqn:Ep;
    try (apply Hstar; intros sp Ha Hx; by eexists _, _).
  eapply emits_bind; [by apply (emits_push _ (fun _ _ => True))|]. intros [].
  eapply emits_bind; [eapply emits_also; [by eapply Hc|apply expression_star]|]. intros y.
  apply emits_ret. intros sp Hy _ _ [Ha Hx].
  eexists _, _. split; [exact Hx|]. split; [done|]. by eexists _, _.
Qed.

Lemma emits_projections ps :
  Forall (fun p => emitted_twice (bp_expression p)) ps -> forall index,
  emits (emit_projections_from catalog expression index ps) (fun sp columns =>
    exists groups, columns = concat groups /\ Forall2 (projected_as sp) ps groups).
Proof.
  induction 1 as [|p ps Hp _ IH]; intros index; simpl; [apply emits_ret; by exists []|].
  eapply emits_bind; [by apply emits_projection|]. intros columns.
  eapply emits_bind; [apply IH|]. intros rest. apply emits_ret.
  intros sp (groups & -> & Hg) Hc. exists (columns :: groups). split; [done|]. by constructor.
Qed.

(** ** Selects *)

Definition ordered_as (sp : gmap string LogicalValue) (o : BoundOrder) (column : SortedColumn)
    : Prop :=
  agree sp (bo_expression o) (sc_expr column) /\ direction (sc_order column) = bo_direction o.

Definition joined_as (sp : gmap string LogicalValue) (j : BoundJoin)
    (joined : SqlExpr.joined_select_table) : Prop :=
  exists r alias operator on,
    resource_by_id catalog (bj_resource j) = Some r /\ aliases !! bj_resource j = Some alias
    /\ joined = SqlExpr.Build_Joined operator
         (SqlExpr.Table (qualified_name (rd_source r)) (Some (quoted_alias alias)) None)
         (Some (On on))
    /\ is_left operator = bool_decide (bj_kind j = JoinKind.Left) /\ agree sp (bj_on j) on.

Definition grouped_as (sp : gmap string LogicalValue) (s : BoundSelect)
    (group_by : option (GroupByOf SqlExpr)) : Prop :=
  Forall2 (fun column x => forall f, means sp f x = column_value (bind_env (sf_env f)) (bc_id column))
    (bs_group_by s) (match group_by with Some g => gb_exprs g | None => [] end)
  /\ option_Forall2 (agree sp) (bs_having s) (group_by ≫= gb_having).

Definition limited_as (sp : gmap string LogicalValue) (s : BoundSelect) (limit : option SqlLimit)
    : Prop :=
  match bs_limit s, limit with
  | Some l, Some limit =>
      agree sp l (limit_expr limit) /\ option_Forall2 (agree sp) (bs_offset s) (limit_offset limit)
  | None, None => bs_offset s = None
  | _, _ => False
  end.

Inductive selected_as (sp : gmap string LogicalValue) (s : BoundSelect) (r : ResourceDescriptor)
    : SqlSelect -> Prop :=
| selected_intro alias groups joins predicate group_by order_by limit :
    aliases !! bs_resource s = Some alias ->
    Forall2 (projected_as sp) (bs_projections s) groups ->
    Forall2 (joined_as sp) (bs_joins s) joins ->
    option_Forall2 (agree sp) (bs_predicate s) predicate ->
    grouped_as sp s group_by ->
    Forall2 (ordered_as sp) (bs_order_by s) order_by ->
    limited_as sp s limit ->
    selected_as sp s r
      (SqlExpr.Build_Select None
         (SqlExpr.OneSelect None (concat groups)
            (Some (SqlExpr.Build_From
                     (SqlExpr.Table (qualified_name (rd_source r)) (Some (quoted_alias alias)) None)
                     joins))
            predicate group_by [])
         [] order_by limit).

Lemma emits_sorted o :
  emitted (bo_expression o) -> emits (emit_sorted expression o) (fun sp column => ordered_as sp o column).
Proof.
  intros He. unfold emit_sorted. eapply emits_bind; [exact He|]. intros x. apply emits_ret.
  intros sp Hx. split; [done|]. by destruct (bo_direction o).
Qed.

Lemma emits_join j :
  emitted (bj_on j) -> emits (emit_join catalog aliases expression j) (fun sp joined => joined_as sp j joined).
Proof.
  intros He. unfold emit_join. eapply emits_bind; [apply emits_lift|]. intros r.
  eapply emits_bind; [apply emits_lift|]. intros alias.
  eapply emits_bind; [exact He|]. intros on. apply emits_ret.
  intros sp Hon Ha%ok_or_inl Hr%ok_or_inl. eexists _, _, _, _. split_and!; [exact Hr|exact Ha|done| |done].
  by destruct (bj_kind j).
Qed.

Lemma emits_group_by s :
  option_holds emitted (bs_having s) ->
  emits (emit_group_by catalog aliases expression s) (fun sp group_by => grouped_as sp s group_by).
Proof.
  intros Hh. unfold emit_group_by, grouped_as.
  destruct (bs_group_by s) as [|c cs] eqn:Ec, (bs_having s) as [h|] eqn:Eh;
    try (apply emits_ret; intros sp; split; constructor);
    (eapply emits_bind; [apply (emits_all _ (fun sp column x => forall f,
       means sp f x = column_value (bind_env (sf_env f)) (bc_id column))), Forall_true, emits_column|];
     intros exprs; eapply emits_bind; [by apply (emits_option _ agree)|]; intros having;
     apply emits_ret; by intros sp ? ?).
Qed.

Lemma emits_limit s :
  option_holds emitted (bs_limit s) -> option_holds emitted (bs_offset s) ->
  emits (emit_limit expression s) (fun sp limit => limited_as sp s limit).
Proof.
  intros Hl Ho. unfold emit_limit, limited_as. destruct (bs_limit s) as [l|].
  - eapply emits_bind; [exact Hl|]. intros limit.
    eapply emits_bind; [by apply (emits_option _ agree)|]. intros offset. by apply emits_ret.
  - destruct (bs_offset s); [by intros ? ? ? ?|]. by apply emits_ret.
Qed.

Lemma emits_select s r :
  select_forall emitted_twice s ->
  emits (select_node catalog aliases expression s r) (fun sp node => selected_as sp s r node).
Proof.
  intros (Hj & Hp & Hw & Hh & Ho & Hl & Hoff). unfold select_node.
  assert (Hone : forall o, option_holds emitted_twice o -> option_holds emitted o)
    by (intros [e|]; [by intros [? _]|done]).
  destruct (bs_projections s) as [|p ps] eqn:Ep; [by intros ? ? ? ?|]. rewrite <- Ep in *.
  eapply emits_bind; [apply emits_lift|]. intros alias.
  eapply emits_bind; [apply (emits_all _ joined_as);
    eapply Forall_impl; [exact Hj|]; intros j [He _]; by apply emits_join|]. intros joins.
  eapply emits_bind; [by apply emits_group_by, Hone|]. intros group_by.
  eapply emits_bind; [apply (emits_all _ ordered_as);
    eapply Forall_impl; [exact Ho|]; intros o [He _]; by apply emits_sorted|]. intros order_by.
  eapply emits_bind; [by apply emits_limit; apply Hone|]. intros limit.
  eapply emits_bind; [by apply emits_projections|]. intros columns.
  eapply emits_bind; [by apply (emits_option _ agree), Hone|]. intros predicate. apply emits_ret.
  intros sp Hpred (groups & -> & Hg) Hlim Hord Hgroup Hjoins Ha%ok_or_inl. by constructor.
Qed.

(** ** Rows *)

Section rows.
Context (sp : gmap string LogicalValue).
Abbreviation sql_on := (fun env => sql_eval tables (values sp) (sql_frame_of env)).
Abbreviation on := (fun env => eval (database catalog tables) (bound_values sp) (frame_of env)).

Lemma bind_table_rows resource alias r env :
  aliases !! resource = Some alias -> resource_by_id catalog resource = Some r ->
  map bind_env (table_rows tables
    (SqlExpr.Table (qualified_name (rd_source r)) (Some (quoted_alias alias)) None) env)
  = map (fun row => <[resource := row]> (bind_env env)) (database catalog tables resource).
Proof.
  intros Ha Hr. unfold database. rewrite Hr. simpl. rewrite !map_map, !denoted_quoted.
  apply map_ext. intros row. by apply bind_env_insert.
Qed.

Lemma bind_join_rows j joined env :
  joined_as sp j joined -> readable sp (bj_on j) ->
  map bind_env (sql_join_rows tables sql_on joined env)
  = join_rows (database catalog tables) on j (bind_env env).
Proof.
  intros (r & alias & operator & e & Hr & Ha & -> & Hleft & Hon) Hread.
  unfold sql_join_rows, join_rows. rewrite Hleft, <- (bind_table_rows _ alias r) by done.
  rewrite filter_map_swap.
  rewrite (List.filter_ext (fun env => is_true (on (bind_env env) (bj_on j)))
    (fun env => is_true (sql_on env e))) by (intros env'; by rewrite (Hon Hread)).
  destruct (bj_kind j); [done|]. simpl. destruct (List.filter _ _); [|done]. simpl.
  by rewrite denoted_quoted, (bind_env_insert (bj_resource j) _ r), row_of_empty.
Qed.

Lemma bind_joined_rows js joins :
  Forall2 (joined_as sp) js joins -> Forall (fun j => readable sp (bj_on j)) js -> forall envs,
  map bind_env (sql_joined_rows tables sql_on envs joins)
  = joined_rows (database catalog tables) on (map bind_env envs) js.
Proof.
  induction 1 as [|j joined js joins Hj _ IH]; intros Hread envs; [done|]. simpl.
  apply Forall_cons in Hread as [Hread Hreads]. rewrite IH by done. f_equal.
  induction envs as [|env envs IHe]; [done|]. simpl. rewrite map_app, IHe.
  by rewrite (bind_join_rows j joined env).
Qed.

Lemma bind_source_rows s r alias joins predicate env :
  resource_by_id catalog (bs_resource s) = Some r -> aliases !! bs_resource s = Some alias ->
  Forall2 (joined_as sp) (bs_joins s) joins -> option_Forall2 (agree sp) (bs_predicate s) predicate ->
  select_every (readable sp) s ->
  map bind_env (sql_source_rows tables sql_on
    (SqlExpr.Table (qualified_name (rd_source r)) (Some (quoted_alias alias)) None) joins predicate env)
  = source_rows (database catalog tables) on s (bind_env env).
Proof.
  intros Hr Ha Hj Hw (Hrj & _ & Hrw & _). unfold sql_source_rows, source_rows.
  rewrite <- (bind_table_rows _ alias r) by done.
  rewrite <- (bind_joined_rows _ joins) by (done || by apply conj_all_Forall).
  rewrite filter_map_swap. f_equal. apply List.filter_ext. intros e. unfold where_holds, sql_where.
  destruct Hw as [w x Hw|]; [|done]. by rewrite (Hw Hrw).
Qed.

Lemma bind_page {A} s limit f (l : list A) :
  limited_as sp s limit -> select_every (readable sp) s ->
  sql_page (sql_eval tables (values sp) f) limit l
  = page (eval (database catalog tables) (bound_values sp) (bind_frame f)) s l.
Proof.
  intros Hl (_ & _ & _ & _ & _ & Hrl & Hro). unfold limited_as, sql_page, page in *.
  destruct (bs_limit s) as [e|], limit as [limit|]; try done; [|by rewrite Hl].
  destruct Hl as [He Ho]. rewrite (He Hrl). f_equal. destruct Ho as [o x Ho|]; [|done].
  by rewrite (Ho Hro).
Qed.

Lemma bind_sort_keys orders columns f :
  Forall2 (ordered_as sp) orders columns -> Forall (fun o => readable sp (bo_expression o)) orders ->
  sql_sort_keys (sql_eval tables (values sp) f) columns
  = map (fun o => (meant sp f (bo_expression o), bo_direction o)) orders.
Proof.
  induction 1 as [|o column orders columns [Ho Hd] _ IH]; intros Hr; [done|].
  apply Forall_cons in Hr as [Hr Hrs]. unfold sql_sort_keys in *. simpl.
  by rewrite (Ho Hr), Hd, IH.
Qed.

Lemma bind_map es xs f :
  Forall2 (agree sp) es xs -> Forall (readable sp) es ->
  map (sql_eval tables (values sp) f) xs
  = map (eval (database catalog tables) (bound_values sp) (bind_frame f)) es.
Proof.
  induction 1 as [|e x es xs He _ IH]; intros Hr; [done|].
  apply Forall_cons in Hr as [Hr Hrs]. simpl. by rewrite (He Hr), IH.
Qed.
End rows.

(** ** Expressions *)

Lemma emits_two l r (node : SqlExpr -> SqlExpr -> SqlExpr) e :
  emitted l -> emitted r ->
  (forall sp x y, agree sp l x -> agree sp r y -> agree sp e (node x y)) ->
  emits (x ← expression l; y ← expression r; mret (node x y)) (fun sp z => agree sp e z).
Proof.
  intros Hl Hr Hn. eapply emits_bind; [exact Hl|]. intros x.
  eapply emits_bind; [exact Hr|]. intros y. apply emits_ret. auto.
Qed.

Lemma emits_one inner (node : SqlExpr -> SqlExpr) e :
  emitted inner -> (forall sp x, agree sp inner x -> agree sp e (node x)) ->
  emits (x ← expression inner; mret (node x)) (fun sp z => agree sp e z).
Proof. intros Hi Hn. eapply emits_bind; [exact Hi|]. intros x. apply emits_ret. auto. Qed.

Lemma values_server sp name v : sp !! name = Some v -> values sp name = v.
Proof. unfold values. by intros ->. Qed.

Lemma variable_value sp f name index :
  sql_eval tables (values sp) f (SqlExpr.VariableExpr (named (":" ++ name) index)) = values sp name.
Proof. done. Qed.

Lemma emitted_literal v : emitted (BoundExpr.Literal v).
Proof.
  unfold emitted. simpl. destruct v as [|s|[]|n|x|b|j]; simpl; try (by apply emits_ret);
    try (intros s0 x s1 Hx Hs; destruct (emits_literal_parameter _ _ _ _ _ Hx Hs) as (? & ? & Hp);
         split; [done|]; split; [done|]; intros sp Hsp;
         destruct (Hp sp Hsp) as (name & index & -> & Hv); intros _ f; simpl;
         by apply values_server).
  - apply emits_ret. intros sp Hn f. simpl in *. destruct (Z.ltb_spec n 0); simpl.
    + rewrite numeral_negative by lia. f_equal. lia.
    + apply numeral_dec. lia.
  - destruct (F64.is_finite x); [|by intros ? ? ?]. apply emits_ret. intros sp Hn f.
    unfold readable, number_reads in Hn. by destruct (F64.ltb x F64.zero).
Qed.

Lemma emitted_parameter name t : emitted (BoundExpr.ClientParameter name t).
Proof.
  eapply emits_impl; [apply emits_parameter|]. intros sp x [index ->] Hn f.
  rewrite variable_value. unfold values. simpl in *. by rewrite Hn.
Qed.

Lemma emitted_server_parameter name t : emitted (BoundExpr.ServerParameter name t).
Proof.
  intros s x s' Hx Hs. simpl in Hx. unfold emit_server_parameter in Hx.
  destruct (es_server_parameters s !! name) as [v|] eqn:Ev; [|done].
  destruct (emits_parameter _ _ _ _ Hx Hs) as (Hs' & Hle & Hp). split; [done|]. split; [done|].
  intros sp Hsp. destruct (Hp _ Hsp) as [index ->]. intros _ f.
  rewrite variable_value. assert (Hv : sp !! name = Some v) by (eapply lookup_weaken; [|exact Hsp]; by eapply lookup_weaken).
  rewrite (values_server _ _ _ Hv). simpl. unfold parameter. by rewrite Hv.
Qed.

Lemma emitted_in e vs n : emitted e -> Forall emitted vs -> emitted (BoundExpr.In e vs n).
Proof.
  intros He Hvs. unfold emitted. simpl. destruct vs as [|v vs]; [by intros ? ? ?|].
  eapply emits_bind; [exact He|]. intros x.
  eapply emits_bind; [by apply (emits_all _ agree)|]. intros xs. apply emits_ret.
  intros sp Hxs Hx [Hr Hrs] f. apply (conj_all_Forall _ (v :: vs)) in Hrs.
  cbn [parenthesized sql_eval eval]. by rewrite (Hx Hr), (bind_map _ _ _ _ Hxs Hrs).
Qed.

Lemma emitted_case bs o t :
  Forall (fun b => emitted b.1 /\ emitted b.2) bs -> option_holds emitted o ->
  emitted (BoundExpr.Case bs o t).
Proof.
  intros Hbs Ho. unfold emitted. simpl.
  eapply emits_bind; [apply (emits_all _ (fun sp b pair => agree sp b.1 pair.1 /\ agree sp b.2 pair.2));
    eapply Forall_impl; [exact Hbs|]|].
  { intros b [Hc Hv]. eapply emits_bind; [exact Hc|]. intros x.
    eapply emits_bind; [exact Hv|]. intros y. apply emits_ret. auto. }
  intros pairs. eapply emits_bind; [by apply (emits_option _ agree)|]. intros otherwise.
  apply emits_ret. intros sp Hother Hpairs [Hr Hro] f. apply conj_all_Forall in Hr.
  cbn [sql_eval eval]. f_equal.
  - clear Hbs. induction Hpairs as [|b pair bs pairs [Hc Hv] _ IH]; [done|].
    apply Forall_cons in Hr as [[Hrc Hrv] Hr]. simpl. by rewrite (Hc Hrc), (Hv Hrv), IH.
  - destruct Hother as [e x Hx|]; [|done]. by apply Hx.
Qed.

Lemma emitted_conditional v c :
  emitted v -> emitted c -> emitted (BoundExpr.ConditionalOutput v c).
Proof.
  intros Hv Hc. unfold emitted. simpl. eapply emits_bind; [exact Hc|]. intros x.
  eapply emits_bind; [exact Hv|]. intros y. apply emits_ret.
  intros sp Hy Hx [Hrv Hrc] f. simpl. by rewrite (Hx Hrc), (Hy Hrv).
Qed.

Lemma function_value_registered name args :
  function_value (denoted (exact (function_name name))) args = call name args.
Proof. by destruct name, args as [|? [|? [|]]]. Qed.

Lemma emitted_function g es t : Forall emitted es -> emitted (BoundExpr.ScalarFunction g es t).
Proof.
  intros Hes. unfold emitted. simpl. eapply emits_bind; [by apply (emits_all _ agree)|].
  intros xs. apply emits_ret. intros sp Hxs Hr f. apply conj_all_Forall in Hr.
  cbn [function_call sql_eval function_tail over_clause eval].
  by rewrite function_value_registered, (bind_map _ _ _ _ Hxs Hr).
Qed.

Lemma emitted_row_number r ps os :
  Forall (fun o => emitted (bo_expression o)) os -> emitted (BoundExpr.RowNumber r ps os).
Proof.
  intros Hos. unfold emitted. simpl.
  eapply emits_bind; [apply (emits_all _ (fun sp column x => forall f,
    means sp f x = column_value (bind_env (sf_env f)) (bc_id column))), Forall_true, emits_column|].
  intros xs. eapply emits_bind; [apply (emits_all _ ordered_as);
    eapply Forall_impl; [exact Hos|]; intros o He; by apply emits_sorted|]. intros columns.
  apply emits_ret. intros sp Hcol Hxs Hr f. apply conj_all_Forall in Hr.
  cbn [sql_eval eval over_clause]. f_equal. cbn [bind_frame fr_window]. rewrite map_map.
  apply map_ext. intros env. cbn [window_partition_by window_order_by]. f_equal.
  - clear -Hxs. induction Hxs as [|p x ps xs Hx _ IH]; [done|]. simpl. by rewrite Hx, IH.
  - rewrite (bind_sort_keys sp os) by done. done.
Qed.

Lemma emitted_exists s : select_forall emitted_twice s -> emitted (BoundExpr.Exists s).
Proof.
  intros Hs. unfold emitted. simpl. eapply emits_bind; [apply emits_lift|]. intros r.
  eapply emits_bind; [by apply emits_aside, emits_select|]. intros node. apply emits_ret.
  intros sp [alias groups joins predicate group_by order_by limit Ha _ Hj Hw _ _ Hl] Hr%ok_or_inl Hread f.
  cbn [sql_eval eval]. f_equal. rewrite (bind_page sp s) by done.
  change (fr_env (bind_frame f)) with (bind_env (sf_env f)).
  rewrite <- (bind_source_rows sp s r alias joins predicate) by done.
  unfold page. set (n := match bs_offset s with Some _ => _ | None => _ end).
  set (bound := match bs_limit s with Some _ => _ | None => _ end).
  set (rows := sql_source_rows _ _ _ _ _ _). clearbody rows n bound. clear.
  revert n. induction rows as [|row rows IH]; intros [|n]; destruct bound as [[|m]|]; simpl; auto; apply IH.
Qed.

Lemma emitted_all e : emitted_twice e.
Proof.
  unfold emitted_twice. induction e using bound_expr_nested_ind;
    repeat match goal with H : emitted _ /\ _ |- _ => destruct H as [H _] end;
    (split; [|intros value condition Heq; try done]).
  all: try (first [apply (emits_two _ _ (fun x y => parenthesized (SqlExpr.Binary x _ y)))
                  |apply (emits_two _ _ (fun x y => parenthesized (SqlExpr.Like x false _ y None)))
                  |apply (emits_two _ _ (fun x y => function_call "MIN" [x; y]))];
            [done|done|]; intros sp x y Hx Hy [Hl Hr] f; simpl; by rewrite (Hx Hl), (Hy Hr)).
  all: try (first [apply (emits_one _ (fun x => parenthesized (SqlExpr.Unary _ x)))
                  |apply (emits_one _ (fun x => parenthesized (SqlExpr.Binary x _ _)))
                  |apply (emits_one _ (fun x => SqlExpr.Cast x _))];
            [done|]; intros sp x Hx Hr f; simpl; by rewrite (Hx Hr)).
  - unfold emitted. simpl. eapply emits_impl; [apply emits_column|]. intros sp x Hx _ f. by rewrite Hx.
  - apply emitted_parameter.
  - apply emitted_server_parameter.
  - apply emitted_literal.
  - apply emitted_in; [done|]. eapply Forall_impl; [done|]. by intros v [Hv _].
  - apply emitted_case.
    + eapply Forall_impl; [done|]. by intros b [[Hc _] [Hv _]].
    + by destruct e as [e|]; [destruct H1|].
  - by apply emitted_conditional.
  - by injection Heq as -> ->.
  - by apply emitted_exists.
  - by apply emits_ret.
  - apply emitted_function. eapply Forall_impl; [done|]. by intros v [Hv _].
  - apply emitted_row_number. eapply Forall_impl; [done|]. by intros v [Hv _].
Qed.

(** ** The rows of a select *)

Section result.
Context (sp : gmap string LogicalValue) (s : BoundSelect) (r : ResourceDescriptor).
Context (Hr : resource_by_id catalog (bs_resource s) = Some r).
Context (Hread : select_every (readable sp) s).

(** The row a select emits: every value, and after a conditional one its visibility. *)
Definition emitted_row (f : Frame) : list LogicalValue :=
  flat_map (fun p =>
    eval (database catalog tables) (bound_values sp) f (bp_expression p)
    :: match bp_expression p with
       | BoundExpr.ConditionalOutput _ condition =>
           [LogicalValue.Boolean
              (is_true (eval (database catalog tables) (bound_values sp) f condition))]
       | _ => []
       end) (bs_projections s).

Lemma truth_flag_value f y condition :
  agree sp condition y -> readable sp condition ->
  sql_eval tables (values sp) f (truth_flag y) = LogicalValue.Boolean (is_true (meant sp f condition)).
Proof. intros Hy Hc. simpl. rewrite (Hy Hc). by destruct (is_true _). Qed.

Lemma projected_values ps groups f :
  Forall2 (projected_as sp) ps groups -> Forall (fun p => readable sp (bp_expression p)) ps ->
  sql_project tables (values sp) (concat groups) f
  = flat_map (fun p =>
      meant sp f (bp_expression p)
      :: match bp_expression p with
         | BoundExpr.ConditionalOutput _ condition =>
             [LogicalValue.Boolean (is_true (meant sp f condition))]
         | _ => []
         end) ps.
Proof.
  induction 1 as [|p columns ps groups (x & name & _ & Hx & Hp) _ IH]; intros Hrs; [done|].
  apply Forall_cons in Hrs as [Hrp Hrs]. simpl. unfold sql_project in *. rewrite map_app, (IH Hrs).
  rewrite <- (Hx Hrp). destruct (bp_expression p); try (by rewrite Hp).
  destruct Hp as (y & name' & -> & Hy & _). simpl in Hrp. destruct Hrp as [_ Hc].
  by rewrite <- (truth_flag_value f y) by done.
Qed.

Lemma counting_columns ps groups :
  Forall2 (projected_as sp) ps groups -> existsb counts_rows (concat groups) = existsb is_count ps.
Proof.
  induction 1 as [|p columns ps groups (x & name & Hx & _ & Hp) _ IH]; [done|]. simpl.
  rewrite existsb_app, IH. f_equal. unfold is_count. rewrite <- Hx.
  destruct (bp_expression p); try (rewrite Hp; simpl; by rewrite orb_false_r).
  destruct Hp as (y & name' & -> & _ & Hy). simpl. rewrite Hy, Hx. simpl.
  by rewrite !orb_false_r, orb_comm, orb_assoc, orb_diag.
Qed.

Abbreviation bind_group := (fun group : SqlEnv * Z => (bind_env group.1, group.2)).

Lemma bind_grouped columns group_by envs :
  existsb counts_rows columns = existsb is_count (bs_projections s) -> grouped_as sp s group_by ->
  map bind_group (sql_grouped tables (values sp) columns
    (match group_by with Some g => gb_exprs g | None => [] end) envs)
  = grouped s (map bind_env envs).
Proof.
  intros Hc [Hg _]. unfold sql_grouped, grouped. rewrite Hc; clear Hc.
  destruct Hg as [|c x cs xs Hx Hxs].
  - destruct (existsb is_count _); [|rewrite !map_map; by apply map_ext]. simpl. rewrite length_map.
    by destruct envs; simpl; rewrite ?bind_env_empty.
  - rewrite length_map. symmetry. apply group_rows_map. intros env. simpl.
    rewrite (Hx (sql_frame_of env)). f_equal. clear -Hxs.
    induction Hxs as [|c' x' cs xs Hx' _ IH]; [done|]. simpl. by rewrite (Hx' (sql_frame_of env)), IH.
Qed.

Lemma bind_frames groups group_by envs :
  Forall2 (projected_as sp) (bs_projections s) groups -> grouped_as sp s group_by ->
  map bind_env envs
  = source_rows (database catalog tables)
      (fun env => eval (database catalog tables) (bound_values sp) (frame_of env)) s ∅ ->
  map bind_frame (sql_frames tables (values sp) (concat groups) group_by envs)
  = frames (database catalog tables) (bound_values sp) s.
Proof.
  intros Hp Hg Henvs. unfold sql_frames, frames. rewrite <- Henvs.
  rewrite <- (bind_grouped (concat groups) group_by) by (done || by apply counting_columns).
  rewrite filter_map_swap.
  rewrite (List.filter_ext (fun g => having_holds (database catalog tables) (bound_values sp) s
    (bind_group g)) (sql_having tables (values sp) (group_by ≫= gb_having))).
  - change (map bind_frame ?l) with (bind_frame <$> l). rewrite fmap_imap. set (gs := List.filter _ _).
    change (map bind_group gs) with (bind_group <$> gs). rewrite imap_fmap. apply imap_ext.
    intros i g _. simpl. unfold bind_frame. simpl. f_equal. by rewrite !map_map.
  - intros g. unfold having_holds, sql_having. destruct Hg as [_ Hg], Hread as (_ & _ & _ & Hh & _).
    revert Hh. destruct Hg as [h x Hx|]; [|done]. intros Hh. by rewrite (Hx Hh).
Qed.

Lemma bind_positions frames order_by :
  Forall2 (ordered_as sp) (bs_order_by s) order_by ->
  map (fun f => sql_sort_keys (sql_eval tables (values sp) f) order_by) frames
  = map (sort_key (database catalog tables) (bound_values sp) s) (map bind_frame frames).
Proof.
  intros Ho. rewrite map_map. apply map_ext. intros f. destruct Hread as (_ & _ & _ & _ & Hro & _).
  apply conj_all_Forall in Hro. by rewrite (bind_sort_keys sp (bs_order_by s)).
Qed.

Lemma selected_rows node :
  selected_as sp s r node ->
  run_sql tables (values sp) node
  = page (eval (database catalog tables) (bound_values sp) (frame_of ∅)) s
      (map emitted_row (ordered (database catalog tables) (bound_values sp) s)).
Proof.
  intros [alias groups joins predicate group_by order_by limit Ha Hp Hj Hw Hg Ho Hl].
  unfold run_sql. rewrite (bind_page sp s), bind_frame_of, bind_env_empty by done. f_equal.
  set (frames := sql_frames _ _ _ _ _).
  assert (Hframes : map bind_frame frames = Semantics.frames (database catalog tables) (bound_values sp) s).
  { apply bind_frames; [done..|]. by rewrite (bind_source_rows sp s r), bind_env_empty. }
  clearbody frames. unfold ordered. rewrite bind_positions, <- Hframes by done.
  set (positions := order_rows _). clearbody positions.
  rewrite omap_lookup_map, map_map. apply map_ext. intros f. apply projected_values; [done|].
  destruct Hread as (_ & Hrp & _). by apply conj_all_Forall.
Qed.
End result.
End meaning.

(** ** Aliases *)

(** Every alias has a number below the next one, and no two resources have the same. *)
Definition aliases_ok (state : Aliases) : Prop :=
  0 <= state.2
  /\ (forall r a, state.1 !! r = Some a -> exists n, 0 <= n < state.2 /\ a = table_alias n)
  /\ forall r r' n, 0 <= n < state.2 -> state.1 !! r = Some (table_alias n) ->
       state.1 !! r' = Some (table_alias n) -> r = r'.

Lemma table_alias_inj m n :
  0 <= m < 2 ^ 64 -> 0 <= n < 2 ^ 64 -> table_alias m = table_alias n -> m = n.
Proof.
  unfold table_alias. intros Hm Hn E. apply dec_inj; [done..|].
  apply (inj (String.append _)) in E. exact E.
Qed.

(** A name for one more resource, or a new one for a known resource. *)
Lemma aliases_insert state r :
  aliases_ok state -> state.2 < 2 ^ 64 ->
  aliases_ok (<[r := table_alias state.2]> state.1, state.2 + 1).
Proof.
  intros (Hpos & Hnum & Hinj) Hmax. split_and!; simpl; [lia|..].
  - intros r' a. destruct (decide (r = r')) as [<-|Hne].
    + rewrite lookup_insert_eq. intros [= <-]. exists state.2. split; [lia|done].
    + rewrite lookup_insert_ne by done. intros (n & Hn & ->)%Hnum. exists n. split; [lia|done].
  - intros r1 r2 n Hn H1 H2.
    assert (Hnew : forall r', (<[r := table_alias state.2]> state.1) !! r' = Some (table_alias n) ->
      n = state.2 /\ r' = r \/ n < state.2 /\ state.1 !! r' = Some (table_alias n)).
    { intros r'. destruct (decide (r = r')) as [<-|Hne].
      - rewrite lookup_insert_eq. intros E%(inj Some). left. apply table_alias_inj in E; lia.
      - rewrite lookup_insert_ne by done. intros Hr'. right. split; [|done].
        destruct (Hnum _ _ Hr') as (k & Hk & E). apply table_alias_inj in E; lia. }
    destruct (Hnew _ H1) as [[? ?]|[? H1']], (Hnew _ H2) as [[? ?]|[? H2']];
      try lia; try congruence. apply (Hinj r1 r2 n); [lia|done..].
Qed.

(** Aliases are only added, and the next number only grows. *)
Definition allocates (f : Aliases -> Aliases) : Prop :=
  forall state, state.2 <= (f state).2
    /\ (aliases_ok state -> (f state).2 <= 2 ^ 64 -> aliases_ok (f state)).

Lemma allocates_id : allocates (fun state => state).
Proof. intros state. split; [lia|done]. Qed.

Lemma allocates_compose f g : allocates f -> allocates g -> allocates (fun state => g (f state)).
Proof.
  intros Hf Hg state. destruct (Hf state) as [Hf1 Hf2], (Hg (f state)) as [Hg1 Hg2].
  split; [lia|]. intros Hs Hmax. apply Hg2; [|done]. apply Hf2; [done|lia].
Qed.

Lemma allocates_all {A} (f : A -> Aliases -> Aliases) l :
  Forall (fun a => allocates (f a)) l -> allocates (add_all f l).
Proof.
  induction 1 as [|a l Ha _ IH]; [apply allocates_id|]. by apply (allocates_compose (f a)).
Qed.

Lemma allocates_option {A} (f : A -> Aliases -> Aliases) o :
  option_holds (fun a => allocates (f a)) o -> allocates (add_option f o).
Proof. destruct o; [done|]. intros _. apply allocates_id. Qed.

Lemma allocates_resource resource : allocates (allocate resource).
Proof.
  intros [aliases next]. unfold allocate. destruct (aliases !! resource); [apply allocates_id|].
  split; [simpl; lia|]. intros Hs Hmax. apply (aliases_insert (aliases, next)); [done|simpl in *; lia].
Qed.

Lemma allocates_nested e : allocates (allocate_nested_aliases e).
Proof.
  induction e using bound_expr_nested_ind; simpl; try apply allocates_id; try done;
    try (by apply (allocates_compose _ (allocate_nested_aliases _))).
  - apply (allocates_compose (allocate_nested_aliases e)); [done|]. by apply allocates_all.
  - apply (allocates_compose (add_all _ _)); [|by apply allocates_option].
    apply allocates_all. eapply Forall_impl; [done|]. intros b [Hc Hv]. by apply allocates_compose.
  - apply (allocates_compose (allocate _)); [apply allocates_resource|].
    apply allocates_option. by destruct H as (_ & _ & ? & _).
  - by apply allocates_all.
Qed.

Lemma allocates_joins js : allocates (join_aliases js).
Proof.
  induction js as [|j js IH]; [apply allocates_id|]. simpl.
  apply (allocates_compose (fun state => (<[bj_resource j := table_alias state.2]> state.1, state.2 + 1)));
    [|done].
  intros state. split; [simpl; lia|]. intros Hs Hmax. apply aliases_insert; [done|]. simpl in Hmax. lia.
Qed.

Lemma select_aliases_ok s : (select_aliases s).2 <= 2 ^ 64 -> aliases_ok (select_aliases s).
Proof.
  intros Hmax. unfold select_aliases in *. set (root := ({[bs_resource s := TABLE_ALIAS]}, 1)) in *.
  assert (Hroot : aliases_ok root).
  { split_and!; simpl; [lia|..].
    - intros r a [<- <-]%lookup_singleton_Some. by exists 0.
    - intros r r' n _ [<- _]%lookup_singleton_Some [<- _]%lookup_singleton_Some. done. }
  assert (Hall : allocates (fun state =>
    add_option allocate_nested_aliases (bs_predicate s) (join_aliases (bs_joins s) state))).
  { apply allocates_compose; [apply allocates_joins|]. apply allocates_option.
    destruct (bs_predicate s); [|done]. apply allocates_nested. }
  by apply (Hall root).
Qed.

Lemma aliases_named state r : aliases_ok state -> state.1 !! r <> Some EmptyString.
Proof. intros (_ & Hn & _) E. by destruct (Hn _ _ E) as (n & _ & ?). Qed.

Lemma aliases_injective state r r' a :
  aliases_ok state -> state.1 !! r = Some a -> state.1 !! r' = Some a -> r = r'.
Proof.
  intros (_ & Hn & Hi) Hr Hr'. destruct (Hn _ _ Hr) as (n & Hb & ->). by apply (Hi r r' n).
Qed.

(** ** Catalogs *)

Lemma resource_columns_distinct r : resource_valid r -> NoDup (map cd_id (columns r)).
Proof.
  intros [Hs Hk _ Hu]. unfold columns. rewrite map_map.
  apply (NoDup_fmap_2_strong (fun entry : string * ColumnDescriptor => cd_id entry.2)).
  - intros [k d] [k' d'] Hd Hd' E. simpl in E. pose proof (Hu _ _ _ _ Hd Hd' E) as ->.
    by rewrite (Hk _ _ Hd), (Hk _ _ Hd').
  - eapply NoDup_fmap_1, (bt_sorted_keys String.compare), Hs.
Qed.

Lemma catalog_built_resources c r : catalog_built c -> r ∈ resources c -> resource_valid r.
Proof.
  intros (snapshot & rs & Hc & Hrs) Hin. unfold catalog_new in Hc.
  destruct (resolve_resources rs []) as [out|] eqn:E; [|done].
  apply resolve_resources_spec in E as [_ Hout]; [|done].
  assert (Hcat : cat_resources c = out) by (by destruct out; [done|injection Hc as <-]).
  unfold resources in Hin. rewrite Hcat in Hin. apply list_elem_of_fmap in Hin as ([k r'] & -> & Hin).
  apply Hout in Hin as [Hin|[Hin _]]; [by apply elem_of_nil in Hin|].
  apply resource_built_valid. exact (proj1 (Forall_forall _ _) Hrs _ Hin).
Qed.

Lemma catalog_columns_distinct c : catalog_built c -> columns_distinct c.
Proof.
  intros Hc resource r Hr. apply find_some in Hr as [Hr _].
  apply resource_columns_distinct, (catalog_built_resources c); [done|]. by apply list_elem_of_In.
Qed.

(** ** The theorem *)

(** A row without the visibilities. *)
Fixpoint shown (ps : list BoundProjection) (row : list LogicalValue) : list LogicalValue :=
  match ps, row with
  | p :: ps, v :: row =>
      v :: shown ps (match bp_expression p with
                     | BoundExpr.ConditionalOutput _ _ => List.tl row
                     | _ => row
                     end)
  | _, _ => []
  end.

Lemma map_page {A B} (g : A -> B) eval s l : map g (page eval s l) = page eval s (map g l).
Proof.
  unfold page, bounded. set (n := match bs_offset s with Some _ => _ | None => _ end).
  destruct (bs_limit s) as [limit|]; [destruct (row_bound _)|]; by rewrite ?skipn_map, ?firstn_map.
Qed.

Lemma shown_emitted `{Engine} catalog tables client sp s f :
  shown (bs_projections s) (emitted_row catalog tables client sp s f)
  = project (database catalog tables) (bound_values client sp) s f.
Proof.
  unfold emitted_row, project. induction (bs_projections s) as [|p ps IH]; [done|]. simpl.
  f_equal. rewrite <- IH. by destruct (bp_expression p).
Qed.

Lemma emit_inl `{Dialect} plan catalog emitted :
  emit plan catalog = inl emitted ->
  exists tree state, emitted_tree plan catalog = inl (tree, state)
    /\ em_sql emitted = print_stmt tree
    /\ em_server_parameters emitted = es_server_parameters state.
Proof.
  unfold emit. intros He. apply result_bind_inl in He as [[tree state] [Ht He]].
  apply result_bind_inl in He as [m [_ He]].
  destruct (_ <? ms_columns m); [done|]. destruct (_ <? es_next_parameter state); [done|].
  destruct (height_exceeded m); [done|]. destruct (recursion_exceeded m); [done|].
  injection He as <-. by exists tree, state.
Qed.

(** The tree of an emitted select, and its rows with the visibilities. *)
Lemma emitted_rows `{Engine} `{Dialect} catalog tables plan s emitted client :
  catalog_built catalog ->
  pp_statement plan = BoundStatement.Select s ->
  (select_aliases s).2 <= 2 ^ 64 ->
  (forall n, pp_server_values plan !! literal_name n = None) ->
  emit plan catalog = inl emitted ->
  let sp := em_server_parameters emitted in
  select_every (readable sp) s ->
  pp_server_values plan ⊆ sp
  /\ exists node, em_sql emitted = print_stmt (Stmt.Select node)
  /\ run_sql tables (values client sp) node
     = page (eval (database catalog tables) (bound_values client sp) (frame_of ∅)) s
         (map (emitted_row catalog tables client sp s)
            (ordered (database catalog tables) (bound_values client sp) s)).
Proof.
  intros Hc Hplan Hmax Hfree He sp Hread. apply emit_inl in He as (tree & state & Ht & Hsql & Hsp).
  unfold emitted_tree in Ht. rewrite Hplan in Ht. simpl in Ht.
  pose proof (select_aliases_ok s Hmax) as Hok.
  assert (Hs : fresh (emit_state plan)) by (split; simpl; [lia|auto]).
  unfold known_resource, lift, mbind, emission_bind in Ht.
  destruct (resource_by_id catalog (bs_resource s)) as [r|] eqn:Er; [|done]. simpl in Ht.
  destruct (select_node _ _ _ _ _ _) as [[node state']|] eqn:En; [|done].
  injection Ht as <- <-.
  pose proof (catalog_columns_distinct _ Hc) as Hd.
  assert (Hinj : forall r r' a, (select_aliases s).1 !! r = Some a ->
    (select_aliases s).1 !! r' = Some a -> r = r') by (intros r1 r2 a; by apply aliases_injective).
  assert (Hnamed : forall r, (select_aliases s).1 !! r <> Some EmptyString)
    by (intros r1; by apply aliases_named).
  assert (Hall : select_forall (emitted_twice catalog tables client (select_aliases s).1) s)
    by (apply select_forall_true; intros e; by apply emitted_all).
  destruct (emits_select catalog tables client _ Hd Hnamed s r Hall _ _ _ En Hs) as (_ & Hle & Hnode).
  specialize (Hnode _ (reflexivity _)). subst sp. rewrite Hsp in *. split; [done|].
  exists node. split; [done|].
  exact (selected_rows catalog tables client _ Hinj _ s r Er Hread node Hnode).
Qed.

Lemma shown_rows `{Engine} catalog tables client sp s :
  map (shown (bs_projections s))
    (page (eval (database catalog tables) (bound_values client sp) (frame_of ∅)) s
       (map (emitted_row catalog tables client sp s)
          (ordered (database catalog tables) (bound_values client sp) s)))
  = run_select (database catalog tables) (bound_values client sp) s.
Proof.
  rewrite map_page, map_map. unfold run_select. f_equal. apply map_ext. intros f.
  apply shown_emitted.
Qed.

(** C5: the emitter is correct, for a catalog that was built, a plan none of whose parameters has a
    name the emitter gives to literals, and a select of at most 2^64 aliases that is [readable]: its
    number literals read back from their printed texts as the numbers they are (5.0, printed 5, does
    not), its integer literals have 64 bits, and none of its client parameters has the name of a
    parameter of the server. On the tables behind the catalog, with the values of the client and of
    the emitted parameters, the tree of the emitted select then returns the rows of the bound select,
    each conditional value followed by its visibility; and without the visibilities these are the
    rows of the bound select. The parameters of the plan are kept. *)
Theorem emitted_select_means `{Engine} `{Dialect} catalog tables plan s emitted client :
  catalog_built catalog ->
  pp_statement plan = BoundStatement.Select s ->
  (select_aliases s).2 <= 2 ^ 64 ->
  (forall n, pp_server_values plan !! literal_name n = None) ->
  emit plan catalog = inl emitted ->
  let sp := em_server_parameters emitted in
  select_every (readable sp) s ->
  pp_server_values plan ⊆ sp
  /\ exists node, em_sql emitted = print_stmt (Stmt.Select node)
  /\ run_sql tables (values client sp) node
     = page (eval (database catalog tables) (bound_values client sp) (frame_of ∅)) s
         (map (emitted_row catalog tables client sp s)
            (ordered (database catalog tables) (bound_values client sp) s))
  /\ map (shown (bs_projections s)) (run_sql tables (values client sp) node)
     = run_select (database catalog tables) (bound_values client sp) s.
Proof.
  intros Hc Hplan Hmax Hfree He sp Hread. subst sp.
  destruct (emitted_rows catalog tables plan s emitted client Hc Hplan Hmax Hfree He Hread)
    as (Hle & node & Hsql & Hrun).
  split; [exact Hle|]. exists node. split; [exact Hsql|]. split; [exact Hrun|].
  rewrite Hrun. apply shown_rows.
Qed.

(** ** The select of the world *)

#[local] Instance plain_dialect : Dialect := {|
  parse_commands _ := None; print_cmd _ := EmptyString; print_stmt _ := "SELECT"%string;
  as_str := denoted; stmt_eqb _ _ := true; MAX_EXPR_DEPTH := 100
|}.

Definition world_tables : Tables := fun table =>
  if String.eqb table "projects" then
    map (fun '(id, owner, name) =>
      {[ "id"%string := LogicalValue.Int64 id; "owner"%string := LogicalValue.String owner;
         "name"%string := LogicalValue.String name ]})
      [(1, "ann", "apple"); (2, "bob", "berry"); (3, "ann", "cherry"); (4, "bob", "date")]%string
  else if String.eqb table "tasks" then
    map (fun '(id, project) =>
      {[ "id"%string := LogicalValue.Int64 id; "project"%string := LogicalValue.Int64 project ]})
      [(1, 1); (2, 2); (3, 3)]
  else [].

Definition no_sql : EmittedSql :=
  {| em_sql := EmptyString; em_server_parameters := ∅; em_column_metadata_bytes := 0;
     em_pattern_variables := [] |}.
Definition world_emitted : EmittedSql := get no_sql (emit (co_plan world_output) world_catalog).
Definition world_plan : BoundSelect :=
  match pp_statement (co_plan world_output) with BoundStatement.Select s => s | _ => world_select end.

Lemma world_literal_names n : pp_server_values (co_plan world_output) !! literal_name n = None.
Proof.
  assert (Hall : forallb (fun '(name, _) => negb (starts_with "__policysql_l" name))
    (map_to_list (pp_server_values (co_plan world_output))) = true) by (vm_compute; reflexivity).
  revert Hall. generalize (pp_server_values (co_plan world_output)). intros values Hall.
  destruct (values !! literal_name n) as [v|] eqn:E; [|done]. exfalso.
  apply elem_of_map_to_list, list_elem_of_In in E.
  apply (proj1 (forallb_forall _ _) Hall) in E. discriminate E.
Qed.

Lemma emitted_select_means_witness :
  exists node,
    run_sql world_tables (values (args_n 10) (em_server_parameters world_emitted)) node
    = [[LogicalValue.Int64 1; LogicalValue.String "apple"; LogicalValue.Boolean true];
       [LogicalValue.Int64 2; LogicalValue.Null; LogicalValue.Boolean false]].
Proof.
  destruct (emitted_select_means world_catalog world_tables (co_plan world_output) world_plan
    world_emitted (args_n 10)) as (_ & node & _ & Hrun & _).
  - exact world_catalog_built.
  - vm_compute. reflexivity.
  - vm_compute. discriminate.
  - exact world_literal_names.
  - vm_compute. reflexivity.
  - vm_compute. repeat split; try discriminate; try exact I.
  - exists node. rewrite Hrun. vm_compute. reflexivity.
Defined.

(** [5.0] is printed as [5], which is read as an integer. *)
Example integral_number_printed :
  match emit_literal (LogicalValue.Number (F64.of_Z 5)) (emit_state (co_plan world_output)) with
  | inl (x, _) => sql_eval (fun _ => []) (fun _ => LogicalValue.Null) (sql_frame_of ∅) x
  | inr _ => LogicalValue.Null
  end = LogicalValue.Int64 5.
Proof. vm_compute. reflexivity. Qed.
