(* ===== verification/SealFacts.v ===== *)
(** * What is sealed

    Exactly which protected plans are sealed, and as what: the four operations together. *)

From S2P Require Import Prelude Result F64 Utf8 Core Catalog Ir Plan Policy Protect.
From S2P Require Import CompilePolicy PolicyWorld SqlAst Complexity Descriptors Emit Sealing.

Section sealed.
Context `{Regex} `{Dialect}.

(** The operation of that kind. *)
Definition compile_verified (operation : OperationKind.operation_kind) :=
  match operation with
  | OperationKind.Select => compile_verified_select
  | OperationKind.Insert => compile_verified_insert
  | OperationKind.Update => compile_verified_update
  | OperationKind.Delete => compile_verified_delete
  end.

(** The plans the operation is for. *)
Definition of_operation (operation : OperationKind.operation_kind) (plan : ProtectedPlan) : Prop :=
  match operation, pp_statement plan with
  | OperationKind.Select, _ => True
  | OperationKind.Insert, BoundStatement.Insert _ =>
      is_Some (pp_operation_check plan) /\ is_Some (pp_expected_affected_rows plan)
  | OperationKind.Update, BoundStatement.Update _ => is_Some (pp_operation_check plan)
  | OperationKind.Delete, BoundStatement.Delete _ => pp_operation_check plan = None
  | _, _ => False
  end.

Definition expected_affected (operation : OperationKind.operation_kind) (plan : ProtectedPlan)
    : option Z :=
  match operation with OperationKind.Select => None | _ => pp_expected_affected_rows plan end.

Definition expected_check (operation : OperationKind.operation_kind) : option string :=
  match operation with
  | OperationKind.Insert | OperationKind.Update => Some CHECK_COLUMN
  | _ => None
  end.

(** The value is a string the emitter bound for a literal. *)
Definition literal_bound (values : gmap string LogicalValue) (value : string) : Prop :=
  exists name, starts_with LITERAL_PARAMETER_PREFIX name = true
    /\ values !! name = Some (LogicalValue.String value).

(** The literals of the client are bound as their values, and a bound value with quotes around it
    is one of them or of the policies. *)
Definition literals_decoded (w : StringLiteralWitnesses) (values : gmap string LogicalValue)
    : Prop :=
  (forall l, l ∈ slw_client w ->
     csl_token l = sqlite_string_token (csl_value l) /\ literal_bound values (csl_value l))
  /\ (forall value, literal_bound values value -> still_quoted value = true ->
        value ∈ slw_policy w \/ exists l, l ∈ slw_client w /\ csl_value l = value).

Lemma literal_strings_spec values value :
  value ∈ literal_strings values <-> literal_bound values value.
Proof.
  unfold literal_strings, literal_bound. rewrite elem_of_list_to_set, list_elem_of_omap. split.
  - intros ([name v] & Hin & E). apply elem_of_map_to_list in Hin.
    destruct (starts_with _ name) eqn:Hs; [|done].
    destruct v; try done. injection E as ->. by exists name.
  - intros (name & Hs & Hv). exists (name, LogicalValue.String value).
    rewrite elem_of_map_to_list. split; [done|]. by rewrite Hs.
Qed.

Lemma tokens_decoded w :
  existsb (fun l => negb (String.eqb (sqlite_string_token (csl_value l)) (csl_token l)))
    (slw_client w) = false
  <-> forall l, l ∈ slw_client w -> csl_token l = sqlite_string_token (csl_value l).
Proof.
  rewrite <- not_true_iff_false, existsb_exists. split.
  - intros Hn l Hl. destruct (String.eqb_spec (sqlite_string_token (csl_value l)) (csl_token l))
      as [Heq|Hne]; [done|].
    exfalso. apply Hn. exists l. split; [by apply list_elem_of_In|].
    apply negb_true_iff. by apply String.eqb_neq.
  - intros Hl (l & Hin & Hneq). apply list_elem_of_In, Hl in Hin. rewrite Hin in Hneq.
    by rewrite String.eqb_refl in Hneq.
Qed.

Definition client_values (w : StringLiteralWitnesses) : gset string :=
  list_to_set (map csl_value (slw_client w)).

Lemma client_values_spec w value :
  value ∈ client_values w <-> exists l, l ∈ slw_client w /\ csl_value l = value.
Proof.
  unfold client_values. rewrite elem_of_list_to_set, list_elem_of_fmap.
  split; intros (l & H1 & H2); exists l; by split.
Qed.

Lemma string_literals_verified w values :
  verify_string_literals w values = inl () <-> literals_decoded w values.
Proof.
  unfold verify_string_literals, literals_decoded. fold (client_values w).
  destruct (existsb _ _) eqn:E1.
  { split; [done|]. intros [Hc _]. apply not_false_iff_true in E1. exfalso. apply E1.
    apply tokens_decoded. intros l Hl. by apply Hc. }
  assert (Ht := proj1 (tokens_decoded w) E1). destruct (bool_decide _) eqn:E2; simpl.
  - apply bool_decide_eq_true in E2. rewrite for_each_inl, Forall_forall. split.
    + intros Hq. split.
      * intros l Hl. split; [by apply Ht|]. apply literal_strings_spec, E2, client_values_spec.
        by exists l.
      * intros value Hv Hs. specialize (Hq value).
        rewrite elem_of_elements, literal_strings_spec, Hs in Hq. specialize (Hq Hv).
        rewrite <- client_values_spec. do 2 case_bool_decide; auto. done.
    + intros [_ Hq] value Hv. rewrite elem_of_elements, literal_strings_spec in Hv.
      destruct (still_quoted value) eqn:Es; [|done]. simpl.
      specialize (Hq value Hv Es). rewrite <- client_values_spec in Hq.
      do 2 case_bool_decide; try done. by destruct Hq.
  - split; [done|]. intros [Hc _]. exfalso. apply bool_decide_eq_false in E2. apply E2.
    intros value Hv. apply client_values_spec in Hv as (l & Hl & <-).
    by apply literal_strings_spec, Hc.
Qed.

(** ** One plan, one verifier *)

(** The candidate is what the verifier expects, with a statement of the right kind that equals the
    expected one. *)
Definition expectations_met (v : SqliteInvariantVerifier) (c : CandidateExecutionPlan)
    (statement : Stmt) : Prop :=
  is_operation (siv_operation v) statement = true
  /\ stmt_eqb statement (siv_statement v) = true
  /\ plan_operation c = siv_operation v
  /\ plan_expected_affected_rows c = siv_affected_rows v
  /\ plan_expected_result_rows c = siv_result_rows v
  /\ plan_operation_check_column c = (if siv_operation_check v then Some CHECK_COLUMN else None)
  /\ plan_snapshot c = siv_snapshot v
  /\ dom (plan_client_parameters c) = siv_client_parameters v
  /\ dom (plan_server_parameters c) = siv_server_parameters v
  /\ plan_result c = siv_result v
  /\ literals_decoded (siv_string_literals v) (plan_server_parameters c).

Lemma parse_single_inl sql statement :
  parse_single_statement sql = inl statement <-> parse_commands sql = Some [Cmd.Stmt statement].
Proof.
  unfold parse_single_statement. split.
  - destruct (parse_commands sql) as [[|[s| |] [|]]|]; by intros [= <-].
  - by intros ->.
Qed.

Lemma check_column_matches (check : bool) (column : option string) :
  negb (check && negb (bool_decide (column = Some CHECK_COLUMN))) = true
  /\ negb (negb check && bool_decide (is_Some column)) = true
  <-> column = (if check then Some CHECK_COLUMN else None).
Proof.
  destruct check; simpl; rewrite !negb_true_iff.
  - rewrite negb_false_iff, bool_decide_eq_true. tauto.
  - rewrite bool_decide_eq_false, eq_None_not_Some. tauto.
Qed.

Lemma invariants_exact v c :
  invariants_hold v c = inl ()
  <-> exists statement, parse_commands (plan_protected_sql c) = Some [Cmd.Stmt statement]
        /\ expectations_met v c statement.
Proof.
  unfold invariants_hold, expectations_met. setoid_rewrite <- parse_single_inl.
  destruct (parse_single_statement _) as [statement|[]]; simpl.
  - rewrite !require_bind, !bool_decide_eq_true, string_literals_verified, String.eqb_eq.
    assert (Hc := check_column_matches (siv_operation_check v) (plan_operation_check_column c)).
    split.
    + intros. exists statement. tauto.
    + intros (s & Heq & Hs). injection Heq as <-. tauto.
  - split; [done|]. by intros (? & ? & _).
Qed.

(** ** The four operations *)

Section plans.
Context (operation : OperationKind.operation_kind) (plan : ProtectedPlan) (catalog : Catalog).
Context (client_parameters : gmap string LogicalValue).
Context (limits : ExecutionLimits) (snapshot : string).

(** What is sealed. *)
Definition sealed_plan (emitted : EmittedSql) (result : list ResultColumnDescriptor)
    : CandidateExecutionPlan :=
  {| plan_protected_sql := em_sql emitted; plan_client_parameters := client_parameters;
     plan_server_parameters := em_server_parameters emitted; plan_result := result;
     plan_operation := operation; plan_limits := limits; plan_snapshot := snapshot;
     plan_profile_id := PROFILE_ID;
     plan_expected_affected_rows := expected_affected operation plan;
     plan_expected_result_rows := pp_expected_result_rows plan;
     plan_operation_check_column := expected_check operation;
     plan_column_metadata_bytes := em_column_metadata_bytes emitted |}.

Definition sealing_verifier (emitted : EmittedSql) (result : list ResultColumnDescriptor)
    (statement : Stmt) : SqliteInvariantVerifier :=
  {| siv_profile_id := PROFILE_ID; siv_statement := statement;
     siv_client_parameters := names (analyze_client_parameters (pp_statement plan) catalog);
     siv_server_parameters := dom (em_server_parameters emitted); siv_result := result;
     siv_snapshot := snapshot; siv_operation := operation;
     siv_affected_rows := expected_affected operation plan;
     siv_operation_check := bool_decide (is_Some (expected_check operation));
     siv_result_rows := pp_expected_result_rows plan;
     siv_string_literals := pp_string_literals plan |}.

(** The operations differ in their guards only. *)
Lemma compile_verified_guarded :
  of_operation operation plan ->
  compile_verified operation plan catalog client_parameters limits snapshot
  = ('(emitted, result) ← prepare plan catalog client_parameters limits;
     statement ← emission_error
       (map_err (parse_single_statement (em_sql emitted)) EmitError.ReparseFailed);
     seal (sealed_plan emitted result) (sealing_verifier emitted result statement)).
Proof.
  unfold of_operation, compile_verified, compile_verified_select, compile_verified_insert,
    compile_verified_update, compile_verified_delete, is_checked, plan_verifier, verifier_new,
    verify_plan_rows, expect_plan_rows, verify_plan_affected, expect_plan_affected, sealed_plan,
    sealing_verifier, expected_affected.
  destruct operation;
    [intros _|destruct (pp_statement plan) eqn:Es; intros Hop; try done..];
    [|destruct Hop as [[check Hc] [affected Ha]]; rewrite Hc, Ha
     |destruct Hop as [check Hc]; rewrite Hc|rewrite Hop];
    simpl;
    (destruct (prepare _ _ _ _) as [[emitted result]|e]; [simpl|done]);
    (destruct (parse_single_statement _) as [statement|]; [simpl|done]);
    destruct (pp_expected_result_rows plan); try done;
    by destruct (pp_expected_affected_rows plan).
Qed.

(** The guards refuse the other plans. *)
Lemma compile_verified_unguarded p :
  compile_verified operation plan catalog client_parameters limits snapshot = inl p ->
  of_operation operation plan.
Proof.
  unfold of_operation, compile_verified, compile_verified_insert, compile_verified_update,
    compile_verified_delete, is_checked.
  destruct operation; [done|..]; rewrite require_bind, andb_true_iff; intros [[Hs Hc] Hp];
    destruct (pp_statement plan); try done.
  - apply bool_decide_eq_true in Hc. apply result_bind_inl in Hp as (n & Hn & _).
    apply ok_or_inl in Hn. by rewrite Hn.
  - by apply bool_decide_eq_true in Hc.
  - apply negb_true_iff, bool_decide_eq_false in Hc. by apply eq_None_not_Some.
Qed.

Lemma prepare_inl emitted result :
  prepare plan catalog client_parameters limits = inl (emitted, result)
  <-> emit plan catalog = inl emitted
      /\ validate_client_parameters (analyze_client_parameters (pp_statement plan) catalog) catalog
           client_parameters (el_max_bytes_per_value limits) = inl ()
      /\ check_pattern_lengths emitted client_parameters = inl ()
      /\ result_descriptors catalog (pp_statement plan) client_parameters = inl result.
Proof.
  unfold prepare. destruct (emit plan catalog) as [emitted'|]; simpl; [|by split; [|intros []]].
  destruct (validate_client_parameters _ _ _ _) as [[]|]; simpl; [|by split; [|intros (_ & ? & _)]].
  destruct (check_pattern_lengths emitted' client_parameters) as [[]|] eqn:Ec; simpl.
  - destruct (result_descriptors _ _ _) as [result'|]; simpl;
      [|by split; [|intros (_ & _ & _ & ?)]].
    split; [by intros [= <- <-]|]. by intros ([= <-] & _ & _ & [= <-]).
  - split; [done|]. intros ([= <-] & _ & Hc & _). by rewrite Ec in Hc.
Qed.

(** A sealed candidate is not empty, has the profile of its verifier, and passes its check. *)
Lemma seal_inl c v p :
  seal c v = inl p
  <-> non_empty (plan_protected_sql c) = true /\ plan_profile_id c = siv_profile_id v
      /\ invariants_hold v c = inl () /\ p = {| sealed := c |}.
Proof.
  unfold seal, verify. simpl. destruct (non_empty _); simpl; [|by split; [|intros []]].
  destruct (String.eqb_spec (plan_profile_id c) (siv_profile_id v)) as [Hp|Hp]; simpl;
    [|by split; [|intros (_ & ? & _)]].
  destruct (invariants_hold v c) as [[]|]; simpl; [|by split; [|intros (_ & _ & ? & _)]].
  split; [by intros [= <-]|]. by intros (_ & _ & _ & ->).
Qed.

Lemma validated_names analysis max :
  validate_client_parameters analysis catalog client_parameters max = inl () ->
  dom client_parameters = names analysis.
Proof.
  unfold validate_client_parameters. by case_bool_decide.
Qed.
End plans.

(** What a plan that is sealed has passed. *)
Lemma compile_verified_passed operation plan catalog client_parameters limits snapshot p :
  compile_verified operation plan catalog client_parameters limits snapshot = inl p ->
  of_operation operation plan
  /\ exists emitted result statement,
    emit plan catalog = inl emitted
    /\ validate_client_parameters (analyze_client_parameters (pp_statement plan) catalog)
         catalog client_parameters (el_max_bytes_per_value limits) = inl ()
    /\ check_pattern_lengths emitted client_parameters = inl ()
    /\ result_descriptors catalog (pp_statement plan) client_parameters = inl result
    /\ non_empty (em_sql emitted) = true
    /\ parse_commands (em_sql emitted) = Some [Cmd.Stmt statement]
    /\ is_operation operation statement = true
    /\ literals_decoded (pp_string_literals plan) (em_server_parameters emitted)
    /\ p = {| sealed := sealed_plan operation plan client_parameters limits snapshot
                          emitted result |}.
Proof.
  intros Hp. assert (Hop := compile_verified_unguarded _ _ _ _ _ _ _ Hp). split; [done|].
  rewrite compile_verified_guarded in Hp by done.
  apply result_bind_inl in Hp as ([emitted result] & Hprep & Hp).
  apply prepare_inl in Hprep as (? & ? & ? & ?).
  apply result_bind_inl in Hp as (statement & Hs & Hp).
  destruct (parse_single_statement _) as [s|] eqn:Es in Hs; [|done]. injection Hs as ->.
  apply parse_single_inl in Es.
  apply seal_inl in Hp as (? & _ & Hp & ->). apply invariants_exact in Hp as (s & Hs & Hm).
  simpl in Hs. rewrite Es in Hs. injection Hs as <-.
  destruct Hm as (? & ? & ? & ? & ? & ? & ? & ? & ? & ? & ?).
  by exists emitted, result, statement.
Qed.

(** C6: exactly which plans are sealed, and as what. A plan of the operation is sealed when it is
    emitted, the values of the client and the lengths of the patterns are accepted, its columns
    are described, the emitted text parses as one statement of the operation's kind, and the
    string literals are bound decoded. The sealed candidate is the emitted SQL with exactly the
    client's values, the emitted parameters, and the expectations of the plan. The statement that
    is parsed is compared with a second parse of the same text only: nothing relates it to the
    tree that was emitted. *)
Theorem sealed_exactly operation plan catalog client_parameters limits snapshot p :
  (forall statement, stmt_eqb statement statement = true) ->
  compile_verified operation plan catalog client_parameters limits snapshot = inl p
  <-> of_operation operation plan
      /\ exists emitted result statement,
        emit plan catalog = inl emitted
        /\ validate_client_parameters (analyze_client_parameters (pp_statement plan) catalog)
             catalog client_parameters (el_max_bytes_per_value limits) = inl ()
        /\ check_pattern_lengths emitted client_parameters = inl ()
        /\ result_descriptors catalog (pp_statement plan) client_parameters = inl result
        /\ non_empty (em_sql emitted) = true
        /\ parse_commands (em_sql emitted) = Some [Cmd.Stmt statement]
        /\ is_operation operation statement = true
        /\ literals_decoded (pp_string_literals plan) (em_server_parameters emitted)
        /\ p = {| sealed := sealed_plan operation plan client_parameters limits snapshot
                              emitted result |}.
Proof.
  intros Hrefl. split.
  - apply compile_verified_passed.
  - intros (Hop & emitted & result & statement & He & Hv & Hc & Hr & Hn & Hs & Hk & Hl & ->).
    rewrite compile_verified_guarded by done.
    rewrite (proj2 (prepare_inl plan catalog client_parameters limits emitted result)) by done.
    simpl. rewrite (proj2 (parse_single_inl _ _) Hs). simpl.
    apply seal_inl. split; [done|]. split; [done|]. split; [|done].
    apply invariants_exact. exists statement. split; [done|]. apply validated_names in Hv.
    repeat split; try done; try apply Hl; auto. by destruct operation.
Qed.
End sealed.

(** ** A plan sealed with the text of another *)

#[local] Instance plain_regex : Regex := {| regex_match _ := Some (fun _ => true) |}.

(** [SELECT 1] *)
Definition select_one : SqlSelect :=
  SqlExpr.Build_Select None
    (SqlExpr.OneSelect None [ResultExpr (SqlExpr.Literal (SqlLiteral.Numeric "1")) None] None None
       None []) [] [] None.

(** A printer that writes the same text whatever the tree is. *)
#[local] Instance misprinting_dialect : Dialect := {|
  parse_commands _ := Some [Cmd.Stmt (Stmt.Select select_one)]; print_cmd _ := "SELECT 1"%string;
  print_stmt _ := "SELECT 1"%string; as_str name := match name with from_string t | exact t => t end;
  stmt_eqb _ _ := true; MAX_EXPR_DEPTH := 100
|}.

Definition world_limits : ExecutionLimits :=
  {| el_max_rows := 100; el_max_result_bytes := 10000; el_timeout_ms := 1000;
     el_max_bytes_per_value := 1000 |}.

Definition no_sql : EmittedSql :=
  {| em_sql := EmptyString; em_server_parameters := ∅; em_column_metadata_bytes := 0;
     em_pattern_variables := [] |}.
Definition misprinted : EmittedSql := get no_sql (emit (co_plan world_output) world_catalog).
Definition world_result : list ResultColumnDescriptor :=
  get [] (result_descriptors world_catalog (pp_statement (co_plan world_output)) (args_n 10)).

Lemma world_literals_decoded :
  literals_decoded (pp_string_literals (co_plan world_output)) (em_server_parameters misprinted).
Proof. apply string_literals_verified. vm_compute. reflexivity. Qed.

(** The plan of the world is sealed with a text that means another statement. *)
Lemma sealed_exactly_witness :
  compile_verified OperationKind.Select (co_plan world_output) world_catalog (args_n 10)
    world_limits "snapshot"
  = inl {| sealed := sealed_plan OperationKind.Select (co_plan world_output) (args_n 10)
             world_limits "snapshot" misprinted world_result |}
  /\ em_sql misprinted = "SELECT 1"%string.
Proof.
  split; [|vm_compute; reflexivity].
  refine (proj2 (sealed_exactly OperationKind.Select (co_plan world_output) world_catalog
    (args_n 10) world_limits "snapshot" _ _) _); [intros statement; reflexivity|].
  split; [exact I|]. exists misprinted, world_result, (Stmt.Select select_one).
  split; [vm_compute; reflexivity|]. split; [vm_compute; reflexivity|].
  split; [vm_compute; reflexivity|]. split; [vm_compute; reflexivity|].
  split; [vm_compute; reflexivity|]. split; [reflexivity|]. split; [reflexivity|].
  split; [exact world_literals_decoded|reflexivity].
Defined.
