(* ===== verification/DescriptorFacts.v ===== *)
(** * What the result descriptors promise

    JSON paths: the reader accepts exactly the texts of paths, and its loop ends on every text.
    Nullability: a column that is described as not nullable is not NULL in any row of the select,
    up to the one case of a bare column beside a COUNT over no rows. *)

From S2P Require Import Prelude Result F64 Utf8 Core Catalog Ir Plan Descriptors.
From S2P Require Import PolicyWorld Semantics ParameterFacts.

(** ** JSON paths *)

(** The texts of a list of segments: an index is written with any digits. *)
Inductive path_text : list JsonPathSegment.json_path_segment -> string -> Prop :=
| path_end : path_text [] EmptyString
| path_property name segments text :
    name <> EmptyString -> str_forallb name_byte name = true -> path_text segments text ->
    path_text (JsonPathSegment.Property name :: segments) (String "." (name ++ text))
| path_index digits segments text :
    digits <> EmptyString -> str_forallb is_digit digits = true -> path_text segments text ->
    path_text (JsonPathSegment.Index :: segments) (String "[" (digits ++ String "]" text)).

Lemma path_text_stops segments text : path_text segments text -> stops name_byte text.
Proof. by inversion 1. Qed.

Lemma json_segments_complete segments text :
  path_text segments text -> forall fuel, (String.length text <= fuel)%nat ->
  json_segments fuel text = inl segments.
Proof.
  induction 1 as [|name segments text Hne Hname Hp IH|digits segments text Hne Hd Hp IH];
    intros fuel Hf; [by destruct fuel|..]; (destruct fuel as [|fuel]; [simpl in Hf; lia|]).
  - assert (Hl := string_length_app name text). simpl in Hf. simpl json_segments.
    rewrite take_while_app by (done || by eapply path_text_stops).
    destruct (String.eqb_spec name ""); [done|]. rewrite str_drop_app. by rewrite IH by lia.
  - assert (Hl := string_length_app digits (String "]" text)). simpl in Hf, Hl.
    simpl json_segments. rewrite take_while_app by done. rewrite str_drop_app.
    destruct (String.eqb_spec digits ""); [done|]. simpl. by rewrite IH by lia.
Qed.

Lemma json_segments_sound fuel : forall text segments,
  json_segments fuel text = inl segments -> path_text segments text.
Proof.
  induction fuel as [|fuel IH]; intros [|c rest] segments; simpl; try done;
    try (intros [= <-]; constructor).
  destruct (Z.eqb_spec (byte_of c) 46) as [Hc|].
  - destruct (take_while_split name_byte rest) as [Hr Hn].
    destruct (String.eqb_spec (take_while name_byte rest) ""); [done|]. intros Hs.
    apply result_bind_inl in Hs as [segs [Hs Heq]]. injection Heq as <-.
    apply IH in Hs. set (text := str_drop _ _) in *. set (name := take_while _ _) in *.
    clearbody text name. subst rest. replace c with "."%char by (by apply byte_of_inj).
    by constructor.
  - destruct (Z.eqb_spec (byte_of c) 91) as [Hc|]; [|done].
    destruct (take_while_split is_digit rest) as [Hr Hd].
    set (text := str_drop _ _) in *. set (digits := take_while _ _) in *. clearbody text digits.
    subst rest. destruct text as [|close rest']; [done|].
    destruct (String.eqb_spec digits ""); [done|]. simpl.
    destruct (Z.eqb_spec (byte_of close) 93) as [Hclose|]; [|done]. simpl. intros Hs.
    apply result_bind_inl in Hs as [segs [Hs Heq]]. injection Heq as <-. apply IH in Hs.
    replace c with "["%char by (by apply byte_of_inj).
    replace close with "]"%char by (by apply byte_of_inj). by constructor.
Qed.

(** The only error of the loop. *)
Lemma json_segments_inr fuel : forall text e,
  json_segments fuel text = inr e -> json_segments fuel text = invalid_path.
Proof.
  induction fuel as [|fuel IH]; intros [|c rest] e; simpl; try done.
  destruct (_ =? 46)%Z.
  - destruct (String.eqb _ ""); [done|].
    destruct (json_segments fuel _) as [segs|e'] eqn:E; [done|]. intros _. by rewrite (IH _ _ E) in E.
  - destruct (_ =? 91)%Z; [|done]. destruct (str_drop _ _) as [|close rest']; [done|].
    destruct (_ || _); [done|]. destruct (json_segments fuel rest') as [segs|e'] eqn:E; [done|].
    intros _. by rewrite (IH _ _ E) in E.
Qed.

(** C39: JSON paths. The reader accepts exactly a dollar sign followed by the text of segments, and
    returns them; and its loop ends on every text: more rounds than the text has bytes change
    nothing. *)
Theorem json_paths_exact path segments :
  (parse_json_path path = inl segments <->
   exists text, path = String "$" text /\ path_text segments text)
  /\ forall fuel, (String.length path <= fuel)%nat ->
       json_segments fuel path = json_segments (String.length path) path.
Proof.
  split.
  - unfold parse_json_path. destruct path as [|c rest]; [split; [done|by intros (? & ? & _)]|].
    destruct (Z.eqb_spec (byte_of c) 36) as [Hc|Hc].
    + replace c with "$"%char by (by apply byte_of_inj). split.
      * intros Hs. exists rest. split; [done|]. by eapply json_segments_sound.
      * intros (text & [= <-] & Hp). by eapply json_segments_complete.
    + split; [done|]. intros (text & [= -> _] & _). by destruct Hc.
  - intros fuel Hf. destruct (json_segments (String.length path) path) as [segs|e] eqn:E.
    + apply (json_segments_complete segs); [by eapply json_segments_sound|done].
    + rewrite <- E, (json_segments_inr _ _ _ E).
      destruct (json_segments fuel path) as [segs|e'] eqn:E'.
      * apply json_segments_sound in E'. by rewrite (json_segments_complete segs path) in E.
      * by rewrite <- E', (json_segments_inr _ _ _ E').
Qed.

(** ** Where NULL may appear *)

(** The documented behaviour of the functions on NULL: concatenation, casts, LOWER and UPPER are
    NULL on NULL only, ROW_NUMBER is a number. *)
Class NullLaws `{Engine} : Prop := {
  concat_null l r :
    operate Operator.Concat l r = LogicalValue.Null ->
    l = LogicalValue.Null \/ r = LogicalValue.Null;
  cast_null v : cast_text v = LogicalValue.Null -> v = LogicalValue.Null;
  lower_null v vs :
    call ScalarFunction.Lower (v :: vs) = LogicalValue.Null -> v = LogicalValue.Null;
  upper_null v vs :
    call ScalarFunction.Upper (v :: vs) = LogicalValue.Null -> v = LogicalValue.Null;
  row_number_null rows i : (i < length rows)%nat -> row_number rows i <> LogicalValue.Null
}.

(** The columns a catalog describes as not nullable hold a value in every row. *)
Definition conforms (catalog : Catalog) (db : Database) : Prop :=
  forall row column d,
    row ∈ db (column_resource (bc_id column)) -> catalog_column catalog column = Some d ->
    vd_nullable (cd_value d) = false ->
    default LogicalValue.Null (row !! bc_id column) <> LogicalValue.Null.

(** The same, as a test of finitely many columns. *)
Definition fills (catalog : Catalog) (db : Database) : bool :=
  forallb (fun r => forallb (fun d =>
    vd_nullable (cd_value d)
    || forallb (fun row => negb (bool_decide
         (default LogicalValue.Null (row !! cd_id d) = LogicalValue.Null))) (db (rd_id r)))
    (columns r)) (resources catalog).

Lemma fills_conforms catalog db : fills catalog db = true -> conforms catalog db.
Proof.
  intros Hf row column d Hrow Hd Hn. unfold catalog_column, resource_by_id in Hd.
  destruct (List.find _ (resources catalog)) as [r|] eqn:Er; [|done]. simpl in Hd.
  apply find_some in Er as [Hr Hid]. apply Z.eqb_eq in Hid.
  unfold column_by_id in Hd. destruct (_ =? _)%Z; [|done].
  apply find_some in Hd as [Hin Hd]. apply bool_decide_eq_true in Hd.
  apply (proj1 (forallb_forall _ _) Hf) in Hr. apply (proj1 (forallb_forall _ _) Hr) in Hin.
  rewrite Hn in Hin. simpl in Hin. rewrite <- Hid in Hrow. apply list_elem_of_In in Hrow.
  apply (proj1 (forallb_forall _ _) Hin) in Hrow. rewrite <- Hd.
  by apply negb_true_iff, bool_decide_eq_false in Hrow.
Qed.

Section nullability.
Context `{NullLaws} (catalog : Catalog) (db : Database) (params : Params) (select : BoundSelect).

Definition in_from (resource : Z) : Prop :=
  resource = bs_resource select \/ exists join, join ∈ bs_joins select /\ bj_resource join = resource.

(** What the binder leaves of a value: columns of the select, no literal NULL, and parameters of
    the server with a value. *)
Fixpoint grounded (e : BoundExpr) : Prop :=
  let all es := fold_right (fun e rest => grounded e /\ rest) True es in
  match e with
  | BoundExpr.Column column => in_from (column_resource (bc_id column))
  | BoundExpr.ServerParameter name _ =>
      parameter (server_params params) name <> LogicalValue.Null
  | BoundExpr.Literal v => v <> LogicalValue.Null
  | BoundExpr.Concat l r => grounded l /\ grounded r
  | BoundExpr.CastText e => grounded e
  | BoundExpr.ConditionalOutput e _ => grounded e
  | BoundExpr.Case branches otherwise _ =>
      fold_right (fun branch rest => grounded branch.2 /\ rest) True branches
      /\ match otherwise with Some e => grounded e | None => True end
  | BoundExpr.ScalarFunction _ es _ => all es
  | _ => True
  end.

(** A resource contributes a row of the database, or an empty one where it is joined on the left. *)
Definition contributes (joins : list BoundJoin) (env : Env) (resource : Z) : Prop :=
  exists row, env !! resource = Some row
    /\ (row ∈ db resource
        \/ row = ∅ /\ exists j, j ∈ joins /\ bj_resource j = resource /\ bj_kind j = JoinKind.Left).

Definition supplied (joins : list BoundJoin) (env : Env) : Prop :=
  contributes joins env (bs_resource select)
  /\ forall j, j ∈ joins -> contributes joins env (bj_resource j).

Lemma contributes_more joins joins' env resource :
  (forall j, j ∈ joins -> j ∈ joins') -> contributes joins env resource ->
  contributes joins' env resource.
Proof.
  intros Hin (row & Hr & [Hdb|(He & j & Hj & Hres & Hk)]); exists row; split; [done|by left|done|].
  right. split; [done|]. exists j. auto.
Qed.

Lemma contributes_insert joins env resource resource' row :
  (resource' = resource -> contributes joins (<[resource' := row]> env) resource) ->
  contributes joins env resource -> contributes joins (<[resource' := row]> env) resource.
Proof.
  intros Hnew Hold. destruct (decide (resource' = resource)) as [->|]; [by apply Hnew|].
  destruct Hold as (r & Hr & Hc). exists r. by rewrite lookup_insert_ne.
Qed.

(** One join more. *)
Lemma join_supplied eval joins join env env' :
  supplied joins env -> env' ∈ join_rows db eval join env -> supplied (joins ++ [join]) env'.
Proof.
  intros [Hroot Hjoins] Hin.
  assert (Hrow : exists row, env' = <[bj_resource join := row]> env
    /\ (row ∈ db (bj_resource join) \/ row = ∅ /\ bj_kind join = JoinKind.Left)).
  { unfold join_rows in Hin. set (matches := List.filter _ _) in Hin.
    assert (Hm : env' ∈ matches -> exists row, env' = <[bj_resource join := row]> env
      /\ (row ∈ db (bj_resource join) \/ row = ∅ /\ bj_kind join = JoinKind.Left)).
    { intros Hm. apply list_elem_of_In, filter_In in Hm as [Hm _]. apply in_map_iff in Hm as (row & <- & Hr).
      exists row. split; [done|]. left. by apply list_elem_of_In. }
    destruct (bj_kind join) eqn:Ek; [by apply Hm|]. destruct matches; [|by apply Hm].
    apply list_elem_of_singleton in Hin as ->. exists ∅. auto. }
  destruct Hrow as (row & -> & Hrow).
  assert (Hself : contributes (joins ++ [join]) (<[bj_resource join := row]> env) (bj_resource join)).
  { exists row. rewrite lookup_insert_eq. split; [done|]. destruct Hrow as [|[-> Hk]]; [by left|].
    right. split; [done|]. exists join. rewrite elem_of_app, list_elem_of_singleton. auto. }
  assert (Hmore : forall r, contributes joins env r ->
    contributes (joins ++ [join]) (<[bj_resource join := row]> env) r).
  { intros r Hr. apply contributes_insert; [by intros <-|].
    eapply contributes_more; [|exact Hr]. intros j Hj. apply elem_of_app. by left. }
  split; [by apply Hmore|]. intros j Hj. apply elem_of_app in Hj as [Hj|Hj]; [by apply Hmore, Hjoins|].
  by apply list_elem_of_singleton in Hj as ->.
Qed.

Lemma joined_supplied eval joins : forall done envs,
  Forall (supplied done) envs -> Forall (supplied (done ++ joins)) (joined_rows db eval envs joins).
Proof.
  induction joins as [|join joins IH]; intros ready envs Henvs; simpl; [by rewrite app_nil_r|].
  replace (ready ++ join :: joins)%list with ((ready ++ [join]) ++ joins)%list
    by (by rewrite <- app_assoc).
  apply IH, Forall_forall. intros env' Hin. apply list_elem_of_In, in_flat_map in Hin as (env & He & Hin).
  apply list_elem_of_In in He, Hin. eapply join_supplied; [|exact Hin].
  by eapply Forall_forall in Henvs.
Qed.

Lemma source_supplied eval : Forall (supplied (bs_joins select)) (source_rows db eval select ∅).
Proof.
  apply Forall_forall. intros env Hin. unfold source_rows in Hin.
  apply list_elem_of_In, filter_In in Hin as [Hin _]. apply list_elem_of_In in Hin.
  eapply Forall_forall; [|exact Hin]. apply (joined_supplied eval (bs_joins select) []).
  apply Forall_forall. intros e He. apply list_elem_of_In, in_map_iff in He as (row & <- & Hr).
  split; [|by intros j Hj; apply elem_of_nil in Hj]. exists row. rewrite lookup_insert_eq. split; [done|].
  left. by apply list_elem_of_In.
Qed.

(** ** Values *)

Context (Hdb : conforms catalog db).

(** Every parameter of the client has a value. *)
Definition filled (os : list Occurrence) : Prop :=
  forall name t p, (name, t, p) ∈ os -> parameter (client_values params) name <> LogicalValue.Null.

Lemma filled_app l k : filled (l ++ k) -> filled l /\ filled k.
Proof.
  intros Hf. split; intros name t p Hin; apply (Hf name t p), elem_of_app; auto.
Qed.

Lemma filled_flat_map {A} (f : A -> list Occurrence) l x : filled (flat_map f l) -> x ∈ l -> filled (f x).
Proof.
  intros Hf Hx name t p Hin. apply (Hf name t p), list_elem_of_In, in_flat_map. exists x.
  by rewrite <- !list_elem_of_In.
Qed.

Lemma column_not_null env column d :
  supplied (bs_joins select) env -> in_from (column_resource (bc_id column)) ->
  catalog_column catalog column = Some d -> vd_nullable (cd_value d) = false ->
  left_joined (Some select) column = false -> column_value env (bc_id column) <> LogicalValue.Null.
Proof.
  intros [Hroot Hjoins] Hfrom Hd Hn Hl.
  assert (Hc : contributes (bs_joins select) env (column_resource (bc_id column))).
  { destruct Hfrom as [->|(j & Hj & <-)]; auto. }
  destruct Hc as (row & Hrow & [Hin|(_ & j & Hj & Hres & Hk)]).
  - unfold column_value. rewrite Hrow. by apply (Hdb row column d).
  - exfalso. simpl in Hl. rewrite <- not_true_iff_false in Hl. apply Hl, existsb_exists.
    exists j. rewrite <- list_elem_of_In, Hres, Z.eqb_refl, bool_decide_eq_true_2; done.
Qed.

(** The first branch of a CASE that is taken, or what follows ELSE. *)
Lemma case_value_in branches otherwise :
  case_value branches otherwise = otherwise
  \/ exists c, (c, case_value branches otherwise) ∈ branches.
Proof.
  induction branches as [|[c v] branches IH]; [by left|]. simpl. destruct (is_true c).
  - right. exists c. by left.
  - destruct IH as [->|[c' Hin]]; [by left|right]. exists c'. by right.
Qed.

Lemma grounded_branch (bs : list (BoundExpr * BoundExpr)) b :
  fold_right (fun branch rest => grounded branch.2 /\ rest) True bs -> b ∈ bs -> grounded b.2.
Proof.
  induction bs as [|b' bs IH]; [by intros _ Hb%elem_of_nil|]. intros [Hb' Hbs] Hin.
  apply elem_of_cons in Hin as [->|]; auto.
Qed.

Lemma branch_not_nullable (bs : list (BoundExpr * BoundExpr)) c e :
  existsb (fun '(_, value) =>
    match expression_nullable catalog (Some select) value with inl b => b | inr _ => true end) bs
  = false ->
  (c, e) ∈ bs -> expression_nullable catalog (Some select) e = inl false.
Proof.
  intros Hb Hin. apply not_true_iff_false in Hb.
  destruct (expression_nullable catalog (Some select) e) as [[]|] eqn:E; [|done|];
    destruct Hb; apply existsb_exists; exists (c, e); by rewrite <- list_elem_of_In, E.
Qed.

Lemma value_not_null e : forall pos fr,
  supplied (bs_joins select) (fr_env fr) -> grounded e -> filled (occurrences_at e pos) ->
  expression_nullable catalog (Some select) e = inl false ->
  eval db params fr e <> LogicalValue.Null.
Proof.
  induction e using bound_expr_nested_ind; intros pos fr Hs Hg Hf Hn; simpl in *; try done.
  - apply result_bind_inl in Hn as [d [Hd Hn]]. apply ok_or_inl in Hd. injection Hn as Hn.
    apply orb_false_iff in Hn as [Hn Hl]. by eapply column_not_null.
  - apply (Hf n t pos). by apply list_elem_of_singleton.
  - apply filled_app in Hf as [Hf1 Hf2]. destruct Hg as [Hg1 Hg2].
    apply result_bind_inl in Hn as [[] [Hn1 Hn2]]; [done|].
    intros [Hz|Hz]%concat_null; [by eapply IHe1|by eapply IHe2].
  - intros Hz%cast_null. by eapply IHe.
  - injection Hn as Hn. apply orb_false_iff in Hn as [Hb Ho]. apply filled_app in Hf as [Hf1 Hf2].
    destruct Hg as [Hg1 Hg2].
    destruct (case_value_in (map (fun b => (eval db params fr b.1, eval db params fr b.2)) bs)
      (match e with Some e => eval db params fr e | None => LogicalValue.Null end)) as [->|[c Hin]].
    + destruct e as [e|]; [|done]. simpl in *.
      destruct (expression_nullable catalog (Some select) e) as [[]|] eqn:Ee; [done| |done].
      by eapply H2.
    + apply list_elem_of_fmap in Hin as ([c' e'] & [= _ Heq] & Hin). rewrite Heq.
      destruct (proj1 (Forall_forall _ _) H1 _ Hin) as [_ IH].
      pose proof (filled_flat_map _ _ _ Hf1 Hin) as Hfb. apply filled_app in Hfb as [_ Hfb].
      eapply IH; [done| |exact Hfb|].
      * by eapply (grounded_branch bs (c', e')).
      * by eapply (branch_not_nullable bs).
  - by destruct f, es as [|e es]; try done; simpl in *; destruct Hg as [Hg _];
      apply filled_app in Hf as [Hf _]; inversion H1; subst;
      (intros Hz%lower_null || intros Hz%upper_null); eapply H4.
Qed.
(** ** Descriptors *)

Lemma conditional_nullable values index p d value condition :
  bp_expression p = BoundExpr.ConditionalOutput value condition ->
  projection_descriptor catalog (Some select) values index p = inl d ->
  vd_nullable (rc_value d) = true.
Proof.
  unfold projection_descriptor, scalar_result_descriptor, compound_result_descriptor,
    column_result_descriptor. intros -> Hd. simpl in Hd. destruct value; try done. simpl in Hd.
  destruct (resource_by_id _ _) as [r|]; [|done]. simpl in Hd.
  destruct (column_by_id _ _) as [c|]; [|done]. injection Hd as <-. simpl.
  by rewrite orb_true_r.
Qed.

(** The nullability of a descriptor is that of the expression. *)
Lemma descriptor_nullable values index p d :
  projection_descriptor catalog (Some select) values index p = inl d ->
  vd_nullable (rc_value d) = false ->
  expression_nullable catalog (Some select) (bp_expression p) = inl false
  \/ (exists r, bp_expression p = BoundExpr.CountAll r)
  \/ (exists r ps os, bp_expression p = BoundExpr.RowNumber r ps os).
Proof.
  intros Hd Hn. destruct (bp_expression p) eqn:Ep;
    try (right; right; by eexists _, _, _); try (right; left; by eexists);
    try (by rewrite (conditional_nullable _ _ _ _ _ _ Ep Hd) in Hn);
    unfold projection_descriptor, scalar_result_descriptor, compound_result_descriptor,
      column_result_descriptor in Hd; rewrite Ep in Hd; try done; left; try done.
  - simpl in Hd. unfold expression_nullable, catalog_column.
    destruct (resource_by_id _ _) as [r|]; [|done]. simpl in *.
    destruct (column_by_id _ _) as [c|]; [|done]. injection Hd as <-. simpl in *.
    by rewrite orb_false_r in Hn; rewrite Hn.
  - destruct (expression_nullable _ _ _) as [nullable|]; [|done]. injection Hd as <-. by simpl in Hn; subst.
  - simpl in Hd. simpl. destruct (expression_nullable _ _ _) as [nullable|]; [|done].
    injection Hd as <-. by simpl in Hn; subst.
  - cbn [mbind result_bind] in Hd. destruct (expression_nullable _ _ _) as [nullable|]; [|done].
    injection Hd as <-. by simpl in Hn; subst.
  - destruct (expression_nullable _ _ _) as [nullable|]; [|done].
    apply result_bind_inl in Hd as [sc [Hsc Hd]].
    apply result_bind_inl in Hsc as [b' [[= ->] Hsc]].
    apply result_bind_inl in Hsc as [types [_ Hsc]].
    apply result_bind_inl in Hsc as [t [_ Hsc]]. injection Hsc as <-. injection Hd as <-.
    by simpl in Hn; subst.
Qed.

Lemma described_value values index p d fr :
  projection_descriptor catalog (Some select) values index p = inl d ->
  vd_nullable (rc_value d) = false ->
  supplied (bs_joins select) (fr_env fr) -> (fr_index fr < length (fr_window fr))%nat ->
  grounded (bp_expression p) -> filled (occurrences (bp_expression p)) ->
  eval db params fr (bp_expression p) <> LogicalValue.Null.
Proof.
  intros Hd Hn Hs Hi Hg Hf. destruct (descriptor_nullable _ _ _ _ Hd Hn) as [He|[[r ->]|(r & ps & os & ->)]].
  - by eapply value_not_null.
  - done.
  - apply row_number_null. by rewrite length_map.
Qed.
End nullability.

(** ** The parameters of a select *)

Section parameters.
Context (catalog : Catalog).

Definition unsafe (os : list Occurrence) : Prop :=
  Forall (fun o => null_safe catalog o.2 = false) os.

Lemma unsafe_compared e : null_safe catalog (compared_with e) = false.
Proof. unfold compared_with. by destruct (direct_column e). Qed.

Lemma unsafe_app l k : unsafe l -> unsafe k -> unsafe (l ++ k).
Proof. by apply Forall_app_2. Qed.

Lemma unsafe_flat_map {A} (f : A -> list Occurrence) l :
  Forall (fun x => unsafe (f x)) l -> unsafe (flat_map f l).
Proof. induction 1; [constructor|by apply unsafe_app]. Qed.

Lemma unsafe_option {A} (f : A -> list Occurrence) o :
  option_holds (fun x => unsafe (f x)) o -> unsafe (option_list f o).
Proof. by destruct o; [|constructor]. Qed.

#[local] Hint Resolve unsafe_compared unsafe_app unsafe_flat_map unsafe_option : core.

Lemma unsafe_select f s :
  select_forall (fun e => unsafe (f e)) s -> unsafe (select_occurrences f s).
Proof. intros (? & ? & ? & ? & ? & ? & ?). unfold select_occurrences. auto 10. Qed.

(** Only an assignment proves that NULL is safe. *)
Lemma occurrences_unsafe e : forall p,
  null_safe catalog p = false -> unsafe (occurrences_at e p).
Proof.
  induction e using bound_expr_nested_ind; intros pos Hp; simpl; try (by constructor); auto.
  - apply unsafe_app; [auto|]. apply unsafe_flat_map. eapply Forall_impl; [done|]. auto.
  - apply unsafe_app.
    + apply unsafe_flat_map. eapply Forall_impl; [done|]. simpl. intros b [Hc Hv]. auto.
    + apply unsafe_option. destruct e; simpl in *; auto.
  - apply unsafe_select. eapply (select_forall_impl _ _ _ H). auto.
  - apply unsafe_flat_map. eapply Forall_impl; [done|]. auto.
  - apply unsafe_flat_map. eapply Forall_impl; [done|]. simpl. auto.
Qed.

Lemma accepted_filled `{Regex} select params max_bytes_per_value :
  validate_client_parameters (analyze_client_parameters (BoundStatement.Select select) catalog)
    catalog (client_values params) max_bytes_per_value = inl () ->
  Forall (fun p => filled params (occurrences (bp_expression p))) (bs_projections select).
Proof.
  intros Hv. pose proof (validated_accepted _ _ _ _ Hv) as (Hdom & _ & _).
  apply Forall_forall. intros p Hp name t pos Hin.
  assert (Hos : (name, t, pos) ∈ statement_occurrences (BoundStatement.Select select)).
  { simpl. unfold select_occurrences. apply elem_of_app. left.
    apply list_elem_of_In, in_flat_map. exists p. by rewrite <- !list_elem_of_In. }
  destruct (proj2 (Hdom name)) as [value Hvalue]; [by eexists _, _|].
  unfold parameter. rewrite Hvalue. simpl. eapply (accepted_not_null _ _ _ _ name t pos); try done.
  pose proof (occurrences_unsafe (bp_expression p) Position.Other eq_refl) as Hu.
  exact (proj1 (Forall_forall _ _) Hu _ Hin).
Qed.
End parameters.

(** ** Rows *)

Section rows.
Context `{Engine} (db : Database) (params : Params) (select : BoundSelect).

Definition source : list Env :=
  source_rows db (fun env => eval db params (frame_of env)) select ∅.

(** A COUNT without GROUP BY has a row of the source to show beside it. *)
Definition counted_rows : Prop :=
  bs_group_by select = [] -> existsb is_count (bs_projections select) = true -> source <> [].

Lemma group_rows_in fuel (key : Env -> list LogicalValue) : forall envs group,
  group ∈ group_rows fuel key envs -> group.1 ∈ envs.
Proof.
  induction fuel as [|fuel IH]; intros [|env envs] group; simpl; try by intros ?%elem_of_nil.
  intros [->|Hin]%elem_of_cons; [by left|]. apply IH in Hin.
  apply list_elem_of_In, filter_In in Hin as [Hin _]. right. by apply list_elem_of_In.
Qed.

Lemma grouped_in group : counted_rows -> group ∈ grouped select source -> group.1 ∈ source.
Proof.
  unfold counted_rows, grouped. intros Hc. destruct (bs_group_by select); [|apply group_rows_in].
  destruct (existsb _ _).
  - intros ->%list_elem_of_singleton. specialize (Hc eq_refl eq_refl).
    destruct source as [|env envs]; [done|]. by left.
  - intros (env & -> & Hin)%list_elem_of_fmap. done.
Qed.

Lemma frames_in fr :
  counted_rows -> fr ∈ frames db params select ->
  fr_env fr ∈ source /\ (fr_index fr < length (fr_window fr))%nat.
Proof.
  intros Hc Hin. unfold frames in Hin. set (groups := List.filter _ _) in Hin.
  apply elem_of_lookup_imap in Hin as (i & group & -> & Hg). simpl. split.
  - apply grouped_in; [done|]. apply list_elem_of_lookup_2, list_elem_of_In, filter_In in Hg as [Hg _].
    by apply list_elem_of_In.
  - rewrite length_map. by eapply lookup_lt_Some.
Qed.

Lemma page_in {A} eval_bound (l : list A) x : x ∈ page eval_bound select l -> x ∈ l.
Proof.
  unfold page, bounded. set (n := match bs_offset select with Some _ => _ | None => _ end).
  intros Hin. rewrite <- (firstn_skipn n l). apply elem_of_app. right.
  destruct (bs_limit select) as [limit|]; [|done]. destruct (row_bound _) as [m|]; [|done].
  rewrite <- (firstn_skipn m (List.skipn n l)). apply elem_of_app. by left.
Qed.

(** Every row of the result is the projection of a frame. *)
Lemma run_select_in row :
  row ∈ run_select db params select ->
  exists fr, fr ∈ frames db params select /\ row = project db params select fr.
Proof.
  intros Hin%page_in. apply list_elem_of_fmap in Hin as (fr & -> & Hin). exists fr. split; [|done].
  apply list_elem_of_omap in Hin as (i & _ & Hi). by eapply list_elem_of_lookup_2.
Qed.
End rows.

(** C38: nullability. A request whose values are accepted sees no NULL in a column that is described
    as not nullable: over a database that fills the columns the catalog describes as not nullable,
    in every row of the select the value of such a column is not NULL. The premises on the select
    are what the binder leaves, but for the last: a COUNT without GROUP BY beside other columns
    needs a row to count. *)
Theorem described_not_null `{Regex} `{NullLaws} catalog db params select max_bytes_per_value
    descriptors :
  conforms catalog db ->
  Forall (fun p => grounded params select (bp_expression p)) (bs_projections select) ->
  counted_rows db params select ->
  validate_client_parameters (analyze_client_parameters (BoundStatement.Select select) catalog)
    catalog (client_values params) max_bytes_per_value = inl () ->
  result_descriptors catalog (BoundStatement.Select select) (client_values params)
  = inl descriptors ->
  Forall (fun row => Forall2 (fun d value =>
    vd_nullable (rc_value d) = false -> value <> LogicalValue.Null) descriptors row)
    (run_select db params select).
Proof.
  intros Hdb Hg Hcount Hv Hd. apply Forall_forall. intros row (fr & Hfr & ->)%run_select_in.
  apply frames_in in Hfr as [Henv Hi]; [|done]. apply accepted_filled in Hv.
  assert (Hs : supplied db select (bs_joins select) (fr_env fr)).
  { pose proof (source_supplied db select (fun env => eval db params (frame_of env))) as Hs.
    exact (proj1 (Forall_forall _ _) Hs _ Henv). }
  simpl in Hd. unfold projection_descriptors in Hd. destruct (opt_existsb _ _); [done|].
  apply collect_inl in Hd. unfold project. apply Forall2_same_length_lookup_2.
  { apply Forall2_length in Hd. by rewrite <- Hd, length_imap, length_map. }
  intros i d value Hdi Hvi Hn. apply list_lookup_fmap_Some in Hvi as (p & -> & Hp).
  destruct (Forall2_lookup_r _ _ _ _ _ Hd Hdi) as ([j q] & Hq & Hdq).
  rewrite list_lookup_imap, Hp in Hq. injection Hq as <- <-.
  eapply (described_value catalog db params select); try done.
  - by eapply Forall_lookup_1 in Hg.
  - exact (Forall_lookup_1 _ _ _ _ Hv Hp).
Qed.

(** ** A select over projects and their tasks *)

#[local] Instance plain_null_laws : NullLaws.
Proof.
  constructor; [|done|by intros v vs|by intros v vs|by intros rows i].
  by intros l r; destruct l, r; auto.
Qed.

#[local] Instance plain_regex : Regex := {| regex_match _ := Some (fun _ => true) |}.

(** [SELECT name || :suffix, tasks.id FROM projects LEFT JOIN tasks ON tasks.project = projects.id] *)
Definition labels : BoundSelect :=
  {| bs_resource := 1; bs_alias := None;
     bs_joins := [{| bj_resource := 2; bj_alias := None; bj_kind := JoinKind.Left;
                     bj_on := BoundExpr.Equal (column_expr 2 1 LogicalType.Int64)
                                (column_expr 1 0 LogicalType.Int64) |}];
     bs_projections :=
       [returned (BoundExpr.Concat (column_expr 1 2 LogicalType.String)
                    (BoundExpr.ClientParameter "suffix" LogicalType.String)) "label";
        returned (column_expr 2 0 LogicalType.Int64) "task"];
     bs_predicate := None; bs_group_by := []; bs_having := None; bs_order_by := [];
     bs_limit := None; bs_offset := None |}.
Definition with_suffix : Params :=
  {| client_values := {[ "suffix"%string := LogicalValue.String "!" ]}; server_params := ∅ |}.

Lemma world_conforms : conforms world_catalog world_database.
Proof. apply fills_conforms. vm_compute. reflexivity. Qed.

Definition describe (s : BoundSelect) (params : Params) : list ResultColumnDescriptor :=
  get [] (result_descriptors world_catalog (BoundStatement.Select s) (client_values params)).
Definition nullable_columns (s : BoundSelect) (params : Params) : list bool :=
  map (fun d => vd_nullable (rc_value d)) (describe s params).

(** The label of every project is there; a project without tasks has no task. *)
Example labels_rows :
  nullable_columns labels with_suffix = [false; true]
  /\ run_select (fun r => if (r =? 1)%Z then take 2 (world_database 1) else take 1 (world_database r))
       with_suffix labels
     = [[LogicalValue.String "apple!"; LogicalValue.Int64 1];
        [LogicalValue.String "berry!"; LogicalValue.Null]].
Proof. split; vm_compute; reflexivity. Qed.

Lemma described_not_null_witness :
  Forall (fun row => Forall2 (fun d value =>
    vd_nullable (rc_value d) = false -> value <> LogicalValue.Null) (describe labels with_suffix) row)
    (run_select world_database with_suffix labels).
Proof.
  apply (described_not_null world_catalog world_database with_suffix labels 1000).
  - exact world_conforms.
  - constructor; [by repeat constructor|constructor; [|constructor]].
    right. eexists. split; [by left|done].
  - done.
  - vm_compute. reflexivity.
  - vm_compute. reflexivity.
Defined.

(** [SELECT name, COUNT( * ) FROM projects] over no rows: one row, and NULL in a column that is
    described as not nullable. *)
Definition counted : BoundSelect :=
  plain_select 1 [returned (column_expr 1 2 LogicalType.String) "name";
                  returned (BoundExpr.CountAll 1) "count"] None None.

Lemma empty_count_null :
  nullable_columns counted with_suffix = [false; false]
  /\ run_select (fun _ => []) with_suffix counted = [[LogicalValue.Null; LogicalValue.Int64 0]].
Proof. split; vm_compute; reflexivity. Qed.

Lemma json_paths_exact_witness :
  parse_json_path "$.tags[0]"
  = inl [JsonPathSegment.Property "tags"; JsonPathSegment.Index].
Proof.
  apply (json_paths_exact "$.tags[0]"). exists ".tags[0]"%string. split; [done|].
  apply (path_property "tags" _ "[0]"); [done|done|]. by apply (path_index "0" [] ""); [..|constructor].
Defined.
