(* ===== verification/ProtectFacts.v ===== *)
(** * The meaning of protected expressions

    An instantiated predicate means what the policy says; a protected expression means on the
    database what the client's means on the view. *)

From S2P Require Import Prelude Result F64 Utf8 Core Ir Policy Protect CompilePolicy Semantics Views.
From S2P Require Import Views.

(** ** Policy predicates depend on their resource's columns *)

Section predicates.
Context `{Engine} (session : TrustedSession).

Lemma policy_value_ext resource p (c d : ColumnId -> LogicalValue) :
  of_resource resource p = true ->
  (forall column, column_resource column = resource -> c column = d column) ->
  policy_value session c p = policy_value session d p.
Proof.
  intros Hp Hcd. induction p using policy_predicate_nested_ind; simpl in *; bools.
  - rewrite Hcd by done. f_equal. destruct x; simpl in *; bools; [done|done|by apply Hcd].
  - by rewrite Hcd.
  - by rewrite Hcd.
  - f_equal. apply map_ext_Forall. rewrite forallb_forall in *. rewrite Forall_forall in *.
    intros q Hq. apply H0; [done|]. apply H2. by apply list_elem_of_In.
  - f_equal. apply map_ext_Forall. rewrite forallb_forall in *. rewrite Forall_forall in *.
    intros q Hq. apply H0; [done|]. apply H2. by apply list_elem_of_In.
  - by rewrite IHp.
Qed.

(** In a combination of rows the predicate is about the row of its resource. *)
Lemma policy_value_row resource p env row :
  of_resource resource p = true ->
  policy_value session (column_value (<[resource := row]> env)) p
  = policy_value session (row_columns row) p.
Proof.
  intros Hp. apply (policy_value_ext resource); [done|]. intros column <-.
  unfold column_value, row_columns. by rewrite lookup_insert_eq.
Qed.

Lemma policy_value_other resource other p env row :
  of_resource resource p = true -> resource <> other ->
  policy_value session (column_value (<[other := row]> env)) p
  = policy_value session (column_value env) p.
Proof.
  intros Hp Hne. apply (policy_value_ext resource); [done|]. intros column <-.
  unfold column_value. by rewrite lookup_insert_ne.
Qed.
End predicates.

(** ** Instantiated predicates *)

Section instantiation.
Context `{Engine} (session : TrustedSession) (db : Database) (params : Params).

(** The server parameters of the run have at least the collected values. *)
Definition provided (values : ServerValues) : Prop := values ⊆ server_params params.

Lemma provided_le s s' : s ⊆ s' -> provided s' -> provided s.
Proof. unfold provided. intros; by etrans. Qed.

Lemma operand_meaning operand expected s e s' f :
  session_values_only session s ->
  instantiate_operand operand expected session s = inl (e, s') -> provided s' ->
  eval db params f e = operand_value session (column_value (fr_env f)) operand.
Proof.
  intros Hs He Hp. destruct operand as [key|value|column]; simpl in He.
  - case_match; [by compile_inv|]. compile_inv.
    match goal with H : session_get _ _ = Some _ |- _ => rename H into Hkey end.
    match goal with H : insert_value _ _ _ = inl _ |- _ => injection H as <- end.
    simpl. rewrite Hkey. unfold parameter.
    rewrite (lookup_weaken (<[_ := _]> s) _ _ _ (lookup_insert_eq _ _ _) Hp). done.
  - by compile_inv.
  - by compile_inv.
Qed.

(** A loop relates every element to what it becomes. *)
Lemma traverse_forall {A B} (g : A -> Compile B) (R : A -> B -> Prop) l :
  Forall (fun a => collects session (g a) /\ forall s b s', session_values_only session s ->
    g a s = inl (b, s') -> provided s' -> R a b) l ->
  forall s l' s', session_values_only session s -> traverse g l s = inl (l', s') ->
  provided s' -> Forall2 R l l'.
Proof.
  induction 1 as [|a l [Hc Ha] Hl IH]; intros s l' s' Hs Ht Hp; simpl in Ht.
  - injection Ht as <- <-. constructor.
  - apply compile_bind_inl in Ht as [b [s1 [Hb Ht]]].
    apply compile_bind_inl in Ht as [bs [s2 [Hbs Ht]]]. injection Ht as <- <-.
    destruct (Hc _ _ _ Hs Hb) as [_ Hs1]. constructor; [|by eapply IH].
    apply (Ha _ _ _ Hs Hb). eapply provided_le; [|done].
    assert (Hcl : collects session (traverse g l)); [|by eapply Hcl].
    apply collects_traverse. eapply Forall_impl; [done|]. by intros ? [? _].
Qed.

Definition logical_value (and : bool) := if and then and_value else or_value.

Lemma fold_logical_meaning {A} (f : A -> Compile BoundExpr) (v : A -> LogicalValue) fr and l s e s' :
  Forall (fun a => collects session (f a) /\ forall s e s',
    session_values_only session s -> f a s = inl (e, s') -> provided s' ->
    eval db params fr e = v a) l ->
  session_values_only session s -> fold_logical f l and s = inl (e, s') -> provided s' ->
  eval db params fr e = fold_values (logical_value and) (map v l).
Proof.
  intros Hl Hs He Hp. destruct Hl as [|a l [Hca Ha] Hl]; simpl in *; [by compile_inv|].
  apply compile_bind_inl in He as [e1 [s1 [He1 He]]].
  destruct (Hca _ _ _ Hs He1) as [_ Hs1].
  assert (He1v : provided s1 -> eval db params fr e1 = v a) by (intros; by apply (Ha _ _ _ Hs He1)).
  clear He1 Ha Hca Hs. revert e1 s1 Hs1 He He1v. revert Hl. generalize (v a) as w. intros w Hl.
  revert w. induction Hl as [|b l [Hcb Hb] _ IH]; intros w e1 s1 Hs1 He Hw; simpl.
  - compile_inv. by apply Hw.
  - apply compile_bind_inl in He as [e2 [s2 [He2 He]]].
    destruct (Hcb _ _ _ Hs1 He2) as [Hle Hs2]. eapply IH; [done|exact He|].
    intros Hp2. assert (Hv : eval db params fr e2 = v b) by (by apply (Hb _ _ _ Hs1 He2)).
    rewrite <- Hv. rewrite <- Hw by (by eapply provided_le). by destruct and.
Qed.

Lemma predicate_meaning p : forall s e s' f,
  session_values_only session s ->
  instantiate_predicate session p s = inl (e, s') -> provided s' ->
  eval db params f e = policy_value session (column_value (fr_env f)) p.
Proof.
  induction p using policy_predicate_nested_ind; intros s e s' f Hs He Hp; simpl in He.
  - apply compile_bind_inl in He as [r [s1 [Hr He]]]. injection He as <- <-.
    assert (Hv := operand_meaning _ _ _ _ _ f Hs Hr Hp). by destruct o; simpl; rewrite Hv.
  - injection He as <- <-. simpl. by rewrite map_map, map_id.
  - injection He as <- <-. by destruct n.
  - eapply (fold_logical_meaning _ _ f true); [|done|exact He|done].
    eapply Forall_impl; [done|]. simpl. intros q Hq. split; [apply collects_predicate|].
    intros; by eapply Hq.
  - eapply (fold_logical_meaning _ _ f false); [|done|exact He|done].
    eapply Forall_impl; [done|]. simpl. intros q Hq. split; [apply collects_predicate|].
    intros; by eapply Hq.
  - apply compile_fmap_inl in He as [e1 [He ->]]. simpl. f_equal. by eapply IHp.
Qed.
End instantiation.

(** ** Policy predicates count no rows *)

Lemma operand_counts operand expected session :
  yields (instantiate_operand operand expected session) (fun e => counts e = false).
Proof.
  destruct operand as [key|value|column]; simpl; [|by apply yields_ret..].
  case_match; [by intros ? ? ?|].
  eapply yields_bind; [by apply yields_any|]. intros v _.
  eapply yields_bind; [by apply yields_any|]. intros name _.
  eapply yields_bind; [by apply yields_any|]. intros u _. by apply yields_ret.
Qed.

Lemma fold_logical_counts {A} (f : A -> Compile BoundExpr) l and :
  Forall (fun a => yields (f a) (fun e => counts e = false)) l ->
  yields (fold_logical f l and) (fun e => counts e = false).
Proof.
  intros Hl. destruct Hl as [|a l Ha Hl]; simpl; [by intros ? ? ?|].
  eapply yields_bind; [exact Ha|]. induction Hl as [|b l Hb _ IH]; intros e He; [by apply yields_ret|].
  eapply yields_bind; [exact Hb|]. intros e' He'. apply IH. by destruct and; simpl; rewrite He, He'.
Qed.

Lemma predicate_counts session p :
  yields (instantiate_predicate session p) (fun e => counts e = false).
Proof.
  induction p using policy_predicate_nested_ind; simpl.
  - eapply yields_bind; [apply operand_counts|]. intros e He. apply yields_ret.
    by destruct o.
  - apply yields_ret. simpl. match goal with |- existsb _ (map _ ?vs) = _ => by induction vs end.
  - apply yields_ret. by destruct n.
  - by apply fold_logical_counts.
  - by apply fold_logical_counts.
  - intros s e s' He. apply compile_fmap_inl in He as [e' [He ->]]. simpl. exact (IHp _ _ _ He).
Qed.

(** ** The view of a combination of rows *)

Section masks.
Context `{Engine} (session : TrustedSession) (selected : Selected).
Context (Hvalid : forall r policy, selected !! r = Some policy -> select_policy_valid r policy).

(** [regular_columns] of the compiler. *)
Definition regular_columns : gset ColumnId :=
  ⋃ (map (fun '(_, policy) => sp_regular_columns policy) (map_to_list selected)).

Lemma regular_columns_elem c :
  c ∈ regular_columns <-> exists policy,
    selected !! column_resource c = Some policy /\ c ∈ sp_regular_columns policy.
Proof.
  unfold regular_columns. rewrite elem_of_union_list. split.
  - intros [X [HX Hc]]. apply list_elem_of_fmap in HX as [[r policy] [-> Hr]].
    apply elem_of_map_to_list in Hr. exists policy. split; [|done].
    by rewrite (regular_of_resource _ _ (Hvalid _ _ Hr) _ Hc).
  - intros [policy [Hp Hc]]. exists (sp_regular_columns policy). split; [|done].
    apply list_elem_of_fmap. exists (column_resource c, policy). split; [done|].
    by apply elem_of_map_to_list.
Qed.

Definition mask_env (env : Env) : Env :=
  map_imap (fun r row => (fun policy => mask_row session policy row) <$> selected !! r) env.

Lemma mask_row_empty policy : mask_row session policy ∅ = ∅.
Proof. apply map_eq. intros c. unfold mask_row. by rewrite map_lookup_imap, !lookup_empty. Qed.

Lemma mask_env_empty : mask_env ∅ = ∅.
Proof. apply map_eq. intros r. unfold mask_env. by rewrite map_lookup_imap, !lookup_empty. Qed.

Lemma mask_env_insert r policy row env :
  selected !! r = Some policy ->
  mask_env (<[r := row]> env) = <[r := mask_row session policy row]> (mask_env env).
Proof.
  intros Hr. apply map_eq. intros r'. unfold mask_env. rewrite map_lookup_imap.
  destruct (decide (r = r')) as [<-|Hne].
  - by rewrite !lookup_insert_eq, Hr.
  - by rewrite !lookup_insert_ne, map_lookup_imap.
Qed.

(** A regular column has its value in the view. *)
Lemma column_value_mask env c :
  c ∈ regular_columns -> column_value (mask_env env) c = column_value env c.
Proof.
  rewrite regular_columns_elem. intros [policy [Hp Hc]]. unfold column_value, mask_env.
  rewrite map_lookup_imap. destruct (env !! column_resource c) as [row|]; simpl; [|done].
  rewrite Hp. simpl. unfold mask_row. rewrite map_lookup_imap.
  destruct (row !! c) as [v|]; simpl; [|done]. unfold visible_value.
  by rewrite bool_decide_true.
Qed.

Definition mask_frame (f : Frame) : Frame :=
  {| fr_env := mask_env (fr_env f); fr_count := fr_count f;
     fr_window := map mask_env (fr_window f); fr_index := fr_index f |}.

Lemma mask_frame_of env : mask_frame (frame_of env) = frame_of (mask_env env).
Proof. done. Qed.

Lemma mask_in_env f env : mask_frame (in_env f env) = in_env (mask_frame f) (mask_env env).
Proof. done. Qed.
End masks.

(** ** Nested selects *)

Lemma forallb_impl {A} (p q : A -> bool) l :
  Forall (fun a => p a = true -> q a = true) l -> forallb p l = true -> forallb q l = true.
Proof.
  rewrite !forallb_forall, Forall_forall. intros Hl Hp a Ha. apply Hl; [|by apply Hp].
  by apply list_elem_of_In.
Qed.

(** ** Computations that change nothing *)

Definition pure {A} (m : Compile A) (a : A) : Prop := forall s, m s = inl (a, s).

Lemma bind_pure {A B} (m : Compile A) a (k : A -> Compile B) r s :
  pure m a -> k a s = r -> (m ≫= k) s = r.
Proof. unfold mbind, compile_bind. by intros ->. Qed.

Lemma fmap_pure {A B} (m : Compile A) a (f : A -> B) s : pure m a -> (f <$> m) s = inl (f a, s).
Proof. unfold fmap, compile_fmap. by intros ->. Qed.

Lemma binary_pure node l r l' r' s :
  pure l l' -> pure r r' -> binary node l r s = inl (node l' r', s).
Proof. intros Hl Hr. unfold binary. apply (bind_pure _ l'); [done|]. by apply (bind_pure _ r'). Qed.

Lemma traverse_pure {A} (f : A -> Compile A) l :
  Forall (fun a => pure (f a) a) l -> pure (traverse f l) l.
Proof.
  induction 1 as [|a l Ha _ IH]; intros s; simpl; [done|].
  apply (bind_pure _ a); [done|]. by apply (bind_pure _ l).
Qed.

Lemma traverse_pure_forallb {A} (p : A -> bool) (f : A -> Compile A) l :
  Forall (fun a => p a = true -> pure (f a) a) l -> forallb p l = true ->
  pure (traverse f l) l.
Proof.
  intros Hl Hp. apply traverse_pure. rewrite forallb_forall in Hp. rewrite Forall_forall in *.
  intros a Ha s. apply Hl; [done|]. by apply Hp, list_elem_of_In.
Qed.

Lemma traverse_option_pure {A} (p : A -> bool) (f : A -> Compile A) o :
  option_holds (fun a => p a = true -> pure (f a) a) o ->
  opt_forallb p o = true -> pure (traverse_option f o) o.
Proof.
  destruct o as [a|]; [|done]. simpl. intros Ha Hp s. apply (bind_pure _ a); [by apply Ha|done].
Qed.

Section protection.
Context `{EngineLaws} (session : TrustedSession) (selected : Selected).
Context (Hvalid : forall r policy, selected !! r = Some policy -> select_policy_valid r policy).
Context (Hpositive : forall r policy, selected !! r = Some policy -> sp_limit policy <> Some 0).
Context (db : Database) (params : Params).

Abbreviation mask := (mask_env session selected).
Abbreviation shown := (view session selected db).
Abbreviation valid e := (validate_client_expression (regular_columns selected) e = inl ()).

Lemma truth_of_truth t : truth (of_truth t) = t.
Proof. destruct t; simpl; [apply truth_boolean|apply truth_null]. Qed.

Lemma is_true_and a b : is_true (and_value a b) = is_true a && is_true b.
Proof.
  unfold is_true, and_value. rewrite truth_of_truth.
  by destruct (truth a) as [[]|], (truth b) as [[]|].
Qed.

(** The filter of a resource on a combination of rows. *)
Definition filter_holds (policy : SelectPolicy) (env : Env) : bool :=
  is_true (policy_value session (column_value env) (sp_filter policy)).

Lemma filter_holds_row r policy row env :
  selected !! r = Some policy ->
  filter_holds policy (<[r := row]> env) = policy_holds session (sp_filter policy) row.
Proof.
  intros Hr. unfold filter_holds, policy_holds. f_equal. apply policy_value_row.
  exact (filter_of_resource _ _ (Hvalid _ _ Hr)).
Qed.

(** Binding a resource of the view is binding one of its rows that the filter holds on. *)
Lemma bind_view r policy env :
  selected !! r = Some policy ->
  map (fun row => <[r := row]> (mask env)) (shown r)
  = map mask (List.filter (filter_holds policy) (map (fun row => <[r := row]> env) (db r))).
Proof.
  intros Hr. unfold view. rewrite Hr, filter_map_swap, !map_map.
  assert (Hf : forall rows, List.filter (fun row => filter_holds policy (<[r:=row]> env)) rows
    = List.filter (policy_holds session (sp_filter policy)) rows).
  { intros rows. apply List.filter_ext. intros row. by apply filter_holds_row. }
  rewrite Hf. apply map_ext. intros row. by rewrite (mask_env_insert _ _ _ policy).
Qed.

Lemma protect_exists_free e :
  exists_free e = true -> pure (protect_nested_selects selected session e) e.
Proof.
  induction e using bound_expr_nested_ind; intros Hf s0; simpl in *; bools; try done.
  all: try (apply binary_pure; auto).
  all: try (apply fmap_pure; auto).
  - apply (bind_pure _ e); [auto|]. apply (bind_pure _ vs); [|done].
    by apply (traverse_pure_forallb exists_free).
  - apply (bind_pure _ bs).
    + apply (traverse_pure_forallb (fun b => exists_free b.1 && exists_free b.2)); [|done].
      eapply Forall_impl; [done|]. intros [c v] [Hc Hv] Hb s. simpl in *. bools.
      apply (bind_pure _ c); [auto|]. apply (bind_pure _ v); auto.
    + apply (bind_pure _ e); [|done]. by apply (traverse_option_pure exists_free).
  - apply (bind_pure _ es); [|done]. by apply (traverse_pure_forallb exists_free).
Qed.

Lemma exists_free_plain e : exists_free e = true -> exists_plain e = true.
Proof.
  induction e using bound_expr_nested_ind; intros Hf; simpl in *; bools; try done.
  all: try (by rewrite IHe1, IHe2); auto.
  - rewrite IHe by done. by apply (forallb_impl exists_free).
  - apply andb_true_iff. split; [|by destruct e; simpl in *; auto].
    apply (forallb_impl (fun b => exists_free b.1 && exists_free b.2)); [|done].
    eapply Forall_impl; [done|]. intros [c v] [Hc Hv] Hb. simpl in *. bools.
    by rewrite Hc, Hv.
  - by apply (forallb_impl exists_free).
Qed.

(** ** A protected expression means what the client's means on the view *)

Abbreviation meaning e e' := (forall f,
  eval db params f e' = eval shown params (mask_frame session selected f) e).

Lemma traverse_meaning {A B V} (g : A -> Compile B) (v : B -> V) (w : A -> V) l :
  Forall (fun a => collects session (g a) /\ forall s b s', session_values_only session s ->
    g a s = inl (b, s') -> provided params s' -> v b = w a) l ->
  forall s l' s', session_values_only session s -> traverse g l s = inl (l', s') ->
  provided params s' -> map v l' = map w l.
Proof.
  intros Hg s l' s' Hs Ht Hp.
  assert (Hall := traverse_forall session params g (fun a b => v b = w a) l Hg s l' s' Hs Ht Hp).
  clear Hg Ht. by induction Hall as [|a b l1 l2 Hab _ IH]; simpl; [|rewrite Hab, IH].
Qed.

Lemma row_bound_positive n :
  0 < n -> row_bound (LogicalValue.Int64 n) = Some (S (pred (Z.to_nat n))).
Proof. intros Hn. simpl. destruct (n <? 0)%Z eqn:E; bools; [lia|f_equal; lia]. Qed.

(** The rows of an EXISTS. *)
Lemma exists_rows s policy predicate filter env :
  selected !! bs_resource s = Some policy ->
  bs_joins s = [] ->
  (forall env, where_holds (fun env => eval db params (frame_of env)) predicate env
    = where_holds (fun env => eval shown params (frame_of env)) (bs_predicate s) (mask env)) ->
  (forall env, is_true (eval db params (frame_of env) filter) = filter_holds policy env) ->
  source_rows shown (fun env => eval shown params (frame_of env)) s (mask env)
  = map mask (source_rows db (fun env => eval db params (frame_of env))
      (with_predicate s (Some (and_optional predicate filter))) env).
Proof.
  intros Hr Hj Hw Hf. unfold source_rows. simpl. rewrite Hj. simpl.
  rewrite (bind_view _ policy) by done. rewrite filter_map_swap, filter_filter. f_equal.
  apply List.filter_ext. intros e. rewrite <- Hw.
  destruct predicate as [p|]; simpl; rewrite ?is_true_and, Hf; [apply andb_comm|by rewrite andb_true_r].
Qed.

Lemma source_rows_limit db' g s limit env :
  source_rows db' g (apply_policy_limit s limit) env = source_rows db' g s env.
Proof. by destruct limit. Qed.

Lemma exists_page s policy {A} (g : BoundExpr -> LogicalValue) (l : list A) :
  selected !! bs_resource s = Some policy -> bs_limit s = None -> bs_offset s = None ->
  (forall v, g (BoundExpr.Literal v) = v) ->
  match page g (apply_policy_limit s (sp_limit policy)) l with [] => false | _ :: _ => true end
  = match l with [] => false | _ :: _ => true end.
Proof.
  intros Hr Hl Ho Hg. unfold page, apply_policy_limit.
  destruct (sp_limit policy) as [limit|] eqn:E; simpl; rewrite Ho; simpl; [|by rewrite Hl].
  rewrite Hl. simpl limited. rewrite Hg, row_bound_positive; [by destruct l|].
  assert (H1 := limit_unsigned _ _ (Hvalid _ _ Hr) _ E).
  assert (H2 : limit <> 0) by (intros ->; by eapply Hpositive).
  unfold I64_MAX. case_match; lia.
Qed.

Lemma column_meaning c : bc_id c ∈ regular_columns selected ->
  meaning (BoundExpr.Column c) (BoundExpr.Column c).
Proof. intros Hc f. simpl. by rewrite column_value_mask. Qed.

Abbreviation protect := (protect_nested_selects selected session).

(** What the induction shows of an expression. *)
Definition protected (e : BoundExpr) : Prop := forall s e' s',
  valid e -> exists_plain e = true -> session_values_only session s ->
  protect e s = inl (e', s') -> provided params s' -> meaning e e'.

Lemma binary_inl node l r s e' s' :
  binary node l r s = inl (e', s') -> exists l' r' s1,
    l s = inl (l', s1) /\ r s1 = inl (r', s') /\ e' = node l' r'.
Proof.
  intros He. apply compile_bind_inl in He as [l' [s1 [Hl He]]].
  apply compile_bind_inl in He as [r' [s2 [Hr He]]]. injection He as <- <-. by exists l', r', s1.
Qed.

Lemma protected_two l r s l' r' s1 s' f :
  protected l -> protected r -> valid l -> valid r ->
  exists_plain l = true -> exists_plain r = true -> session_values_only session s ->
  protect l s = inl (l', s1) -> protect r s1 = inl (r', s') -> provided params s' ->
  eval db params f l' = eval shown params (mask_frame session selected f) l
  /\ eval db params f r' = eval shown params (mask_frame session selected f) r.
Proof.
  intros Hl Hr Hvl Hvr Hpl Hpr Hs El Er Hp.
  destruct (collects_protect session selected l _ _ _ Hs El) as [_ Hs1].
  destruct (collects_protect session selected r _ _ _ Hs1 Er) as [Hle _].
  split; [eapply (Hl _ _ _ Hvl Hpl Hs El)|by eapply (Hr _ _ _ Hvr Hpr Hs1 Er)].
  by eapply provided_le.
Qed.

Lemma protected_binary node (op : LogicalValue -> LogicalValue -> LogicalValue) l r s e' s' :
  (forall db f l r, eval db params f (node l r) = op (eval db params f l) (eval db params f r)) ->
  protected l -> protected r ->
  (_ ← validate_client_expression (regular_columns selected) l;
   validate_client_expression (regular_columns selected) r) = inl () ->
  exists_plain l && exists_plain r = true -> session_values_only session s ->
  binary node (protect l) (protect r) s = inl (e', s') -> provided params s' ->
  meaning (node l r) e'.
Proof.
  intros Hnode Hl Hr Hv Hp Hs He Hsv f. compile_inv. bools.
  apply binary_inl in He as (l' & r' & s1 & El & Er & ->). rewrite !Hnode.
  by destruct (protected_two l r s l' r' s1 s' f) as [-> ->].
Qed.

Lemma protected_unary node (op : LogicalValue -> LogicalValue) e s e' s' :
  (forall db f e, eval db params f (node e) = op (eval db params f e)) ->
  protected e -> valid e -> exists_plain e = true -> session_values_only session s ->
  (node <$> protect e) s = inl (e', s') -> provided params s' -> meaning (node e) e'.
Proof.
  intros Hnode He Hv Hp Hs Hn Hsv f. apply compile_fmap_inl in Hn as [e1 [E ->]].
  rewrite !Hnode. f_equal. by eapply He.
Qed.

Lemma protected_list es s es' s' f :
  Forall protected es ->
  for_each (validate_client_expression (regular_columns selected)) es = inl () ->
  forallb exists_plain es = true -> session_values_only session s ->
  traverse protect es s = inl (es', s') -> provided params s' ->
  map (eval db params f) es' = map (eval shown params (mask_frame session selected f)) es.
Proof.
  intros Hes Hv Hp Hs Ht Hsv. apply for_each_inl in Hv. rewrite forallb_forall in Hp.
  eapply traverse_meaning; [|exact Hs|exact Ht|done]. rewrite Forall_forall in *.
  intros e He. split; [apply collects_protect|]. intros s1 e1 s2 Hs1 E Hp2.
  apply (Hes e He s1 _ s2); auto. apply Hp. by apply list_elem_of_In.
Qed.

Lemma protected_option o s o' s' f :
  option_holds protected o ->
  if_some (validate_client_expression (regular_columns selected)) o = inl () ->
  opt_forallb exists_plain o = true -> session_values_only session s ->
  traverse_option protect o s = inl (o', s') -> provided params s' ->
  (eval db params f <$> o') = (eval shown params (mask_frame session selected f) <$> o).
Proof.
  destruct o as [e|]; simpl; intros He Hv Hp Hs Ht Hsv; [|by injection Ht as <- <-].
  apply compile_bind_inl in Ht as [e1 [s1 [E Ht]]]. injection Ht as <- <-. simpl. f_equal.
  by eapply He.
Qed.

Lemma protected_case bs o t s e' s' :
  Forall (fun b => protected b.1 /\ protected b.2) bs -> option_holds protected o ->
  valid (BoundExpr.Case bs o t) -> exists_plain (BoundExpr.Case bs o t) = true ->
  session_values_only session s -> protect (BoundExpr.Case bs o t) s = inl (e', s') ->
  provided params s' -> meaning (BoundExpr.Case bs o t) e'.
Proof.
  intros Hbs Ho Hv Hp Hs He Hsv f. simpl in Hv, Hp, He.
  apply andb_true_iff in Hp as [Hpb Hpo]. apply result_bind_inl in Hv as [[] [Hvb Hvo]].
  apply compile_bind_inl in He as [bs' [s1 [Ht He]]].
  apply compile_bind_inl in He as [o' [s2 [Hto He]]]. injection He as <- <-.
  assert (Hc : collects session (traverse (fun '(condition, value) =>
    condition ← protect condition; value ← protect value; mret (condition, value)) bs)).
  { apply collects_traverse, Forall_true. intros [c v].
    apply collects_bind; [apply collects_protect|intros c'].
    apply collects_bind; [apply collects_protect|intros v'; apply collects_ret]. }
  destruct (Hc _ _ _ Hs Ht) as [_ Hs1].
  assert (Hle : s1 ⊆ s2).
  { assert (Hco : collects session (traverse_option protect o)); [|by eapply Hco].
    apply collects_traverse_option. destruct o; [apply collects_protect|done]. }
  simpl. f_equal.
  - eapply traverse_meaning; [|exact Hs|exact Ht|by eapply provided_le].
    apply for_each_inl in Hvb. rewrite forallb_forall in Hpb. rewrite Forall_forall in *.
    intros [c v] Hb. specialize (Hbs _ Hb). specialize (Hvb _ Hb). apply list_elem_of_In in Hb.
    specialize (Hpb _ Hb). simpl in *. destruct Hbs. bools. compile_inv. split.
    + apply collects_bind; [apply collects_protect|intros c'].
      apply collects_bind; [apply collects_protect|intros v'; apply collects_ret].
    + intros s3 b s4 Hs' Hb' Hp2. apply compile_bind_inl in Hb' as [c' [s5 [Ec Hb']]].
      apply compile_bind_inl in Hb' as [v' [s6 [Ev Hb']]]. injection Hb' as <- <-. simpl.
      by destruct (protected_two c v s3 c' v' s5 s6 f) as [-> ->].
  - assert (Hopt := protected_option _ _ _ _ f Ho Hvo Hpo Hs1 Hto Hsv).
    by destruct o, o'; simplify_eq/=.
Qed.

Lemma protected_exists s : option_holds protected (bs_predicate s) ->
  protected (BoundExpr.Exists s).
Proof.
  intros Hps s0 e' s' Hv Hp Hs He Hsv f. simpl in Hv, Hp, He. bools.
  apply result_bind_inl in Hv as [[] [_ Hv]].
  apply compile_bind_inl in He as [p [s1 [Ht He]]].
  apply compile_bind_inl in He as [policy [s2 [Hr He]]].
  apply checked_inl in Hr as [Hr ->]. apply ok_or_inl in Hr.
  apply compile_bind_inl in He as [filter [s3 [Hf He]]]. injection He as <- <-.
  assert (Hc : collects session (traverse_option protect (bs_predicate s))).
  { apply collects_traverse_option. destruct (bs_predicate s); [apply collects_protect|done]. }
  destruct (Hc _ _ _ Hs Ht) as [Hle Hs1].
  destruct (collects_predicate session _ _ _ _ Hs1 Hf) as [Hle' _].
  assert (Hsv1 := provided_le _ _ _ Hle' Hsv).
  assert (Hj : bs_joins s = []) by by destruct (bs_joins s).
  cbn [eval]. f_equal. unfold mask_frame at 2. cbn [fr_env].
  rewrite (exists_rows s policy p filter); [|done|done| |].
  - rewrite source_rows_limit, (exists_page (with_predicate s _) policy) by done.
    unfold page. replace (bs_limit s) with (@None BoundExpr) by done.
    replace (bs_offset s) with (@None BoundExpr) by done. simpl. by destruct (source_rows db _ _ _).
  - intros env. assert (Hw := protected_option _ _ _ _ (frame_of env) Hps Hv ltac:(done) Hs Ht Hsv1).
    rewrite mask_frame_of in Hw. destruct p, (bs_predicate s); simplify_eq/=; congruence.
  - intros env. unfold filter_holds.
    by rewrite (predicate_meaning _ _ _ _ _ _ _ (frame_of env) Hs1 Hf Hsv).
Qed.

Lemma protected_free e : protected e -> valid e -> exists_free e = true -> meaning e e.
Proof.
  intros He Hv Hf. apply (He ∅ e ∅); [done|by apply exists_free_plain|by intros ??|..].
  - by apply protect_exists_free.
  - apply map_empty_subseteq.
Qed.

Lemma protected_row_number r ps os :
  Forall (fun o => protected (bo_expression o)) os -> protected (BoundExpr.RowNumber r ps os).
Proof.
  intros Hos s e' s' Hv Hp Hs He Hsv f. simpl in He. injection He as <- <-. simpl in *.
  apply result_bind_inl in Hv as [[] [Hvp Hvo]]. apply for_each_inl in Hvp, Hvo.
  rewrite forallb_forall in Hp. rewrite map_map. f_equal. apply map_ext. intros env. f_equal.
  - apply map_ext_Forall. eapply Forall_impl; [exact Hvp|]. intros c Hc. simpl in Hc.
    case_bool_decide; [|done]. symmetry. by apply column_value_mask.
  - apply map_ext_Forall. rewrite Forall_forall in *. intros o Ho. f_equal.
    rewrite <- mask_in_env. apply protected_free; auto. apply Hp. by apply list_elem_of_In.
Qed.

Lemma protect_meaning e : protected e.
Proof.
  induction e using bound_expr_nested_ind;
    try (intros s e' s' Hv Hp Hs He Hsv; cbn [validate_client_expression] in Hv;
         cbn [exists_plain] in Hp; cbn [protect_nested_selects] in He;
         first [ eapply protected_binary; [reflexivity|..]; eassumption
               | eapply protected_unary; [reflexivity|..]; eassumption ]).
  - intros s e' s' Hv Hp Hs He Hsv. injection He as <- <-. apply column_meaning.
    simpl in Hv. by case_bool_decide.
  - by intros s e' s' Hv Hp Hs [= <- <-] Hsv f.
  - by intros s e' s' Hv Hp Hs [= <- <-] Hsv f.
  - by intros s e' s' Hv Hp Hs [= <- <-] Hsv f.
  - intros s e' s' Hv Hp Hs He Hsv f. simpl in Hv, Hp. bools.
    apply result_bind_inl in Hv as [[] [Hve Hvs]].
    apply compile_bind_inl in He as [e1 [s1 [He1 He]]].
    apply compile_bind_inl in He as [vs1 [s2 [Hvs1 He]]]. injection He as <- <-.
    destruct (collects_protect session selected _ _ _ _ Hs He1) as [_ Hs1].
    assert (Hle : s1 ⊆ s2).
    { assert (Hct : collects session (traverse protect vs)); [|by eapply Hct].
      apply collects_traverse, Forall_true. intros; apply collects_protect. }
    simpl. f_equal; [|by eapply protected_list].
    apply (IHe s e1 s1); auto. by eapply provided_le.
  - intros s e' s' Hv Hp Hs He Hsv. by eapply protected_case.
  - by intros s e' s' Hv.
  - apply protected_exists. by match goal with H : select_forall _ _ |- _ => apply H end.
  - by intros s e' s' Hv Hp Hs [= <- <-] Hsv f.
  - intros s e' s' Hv Hp Hs He Hsv fr. simpl in Hv, Hp.
    apply compile_bind_inl in He as [es1 [s1 [Hes He]]]. injection He as <- <-. simpl. f_equal.
    by eapply protected_list.
  - by apply protected_row_number.
Qed.

Lemma free_meaning e : valid e -> exists_free e = true -> meaning e e.
Proof. intros. by apply protected_free; [apply protect_meaning|..]. Qed.
End protection.
