(* ===== verification/ViewFacts.v ===== *)
(** * A compiled select answers from the view

    The refinement of the policy compiler: the rows a protected select returns on the database
    are the rows the client's select returns on the view of the caller's role. *)

From S2P Require Import Prelude Result F64 Utf8 Core Ir Policy Protect CompilePolicy Semantics.
From S2P Require Import Views ProtectFacts.

(** ** Joins *)

Lemma filter_ext_elem {A} (p q : A -> bool) l :
  (forall a, a ∈ l -> p a = q a) -> List.filter p l = List.filter q l.
Proof.
  induction l as [|a l IH]; intros Hpq; simpl; [done|].
  rewrite (Hpq a) by left. rewrite IH; [done|]. intros b Hb. apply Hpq. by right.
Qed.

Lemma existsb_false_forall {A} (p : A -> bool) l :
  existsb p l = false <-> forall a, List.In a l -> p a = false.
Proof.
  induction l as [|a l IH]; simpl; [by split|]. rewrite orb_false_iff, IH. split.
  - by intros [Ha Hl] b [<-|Hb]; auto.
  - intros Hl. auto.
Qed.

Section joins.
Context `{EngineLaws} (session : TrustedSession) (selected : Selected).
Context (Hvalid : forall r policy, selected !! r = Some policy -> select_policy_valid r policy).
Context (db : Database) (params : Params).

Abbreviation mask := (mask_env session selected).
Abbreviation shown := (view session selected db).
Abbreviation full := (fun env => eval db params (frame_of env)).
Abbreviation seen := (fun env => eval shown params (frame_of env)).
Abbreviation holds := (filter_holds session).

(** What WHERE checks of a joined resource. *)
Definition join_checked (j : BoundJoin) (env : Env) : bool :=
  match bj_kind j with
  | JoinKind.Inner => opt_forallb (fun policy => holds policy env) (selected !! bj_resource j)
  | JoinKind.Left => true
  end.
Definition joins_checked (js : list BoundJoin) (env : Env) : bool :=
  forallb (fun j => join_checked j env) js.

(** The join a filter was added to. *)
Record join_filtered (j j' : BoundJoin) : Prop := {
  filtered_resource : bj_resource j' = bj_resource j;
  filtered_kind : bj_kind j' = bj_kind j;
  filtered_policy : exists policy, selected !! bj_resource j = Some policy /\
    forall env, is_true (full env (bj_on j')) = is_true (full env (bj_on j))
      && match bj_kind j with JoinKind.Inner => true | JoinKind.Left => holds policy env end
}.

Lemma filter_meaning policy s e s' env :
  session_values_only session s ->
  instantiate_predicate session (sp_filter policy) s = inl (e, s') -> provided params s' ->
  is_true (full env e) = holds policy env.
Proof.
  intros Hs He Hp. unfold filter_holds.
  by rewrite (predicate_meaning _ _ _ _ _ _ _ (frame_of env) Hs He Hp).
Qed.

Lemma filter_joins_meaning js : forall p s p' js' s',
  session_values_only session s ->
  filter_joins selected session (Some p) js s = inl ((p', js'), s') -> provided params s' ->
  (forall env, where_holds full p' env = is_true (full env p) && joins_checked js env)
  /\ Forall2 join_filtered js js'.
Proof.
  induction js as [|j js IH]; intros p s p' js' s' Hs Hf Hp; simpl in Hf.
  { injection Hf as <- <- <-. split; [|constructor]. intros env. simpl. by rewrite andb_true_r. }
  apply compile_bind_inl in Hf as [policy [s1 [Hr Hf]]]. apply checked_inl in Hr as [Hr ->].
  apply ok_or_inl in Hr. apply compile_bind_inl in Hf as [e [s2 [He Hf]]].
  destruct (collects_predicate _ _ _ _ _ Hs He) as [_ Hs2].
  assert (Hle : s2 ⊆ s' -> forall env, is_true (full env e) = holds policy env).
  { intros Hle env. eapply filter_meaning; [exact Hs|exact He|]. by eapply provided_le. }
  unfold joins_checked, join_checked in *. simpl. rewrite Hr. simpl.
  destruct (bj_kind j) eqn:Ek; apply compile_bind_inl in Hf as [[p1 js1] [s3 [Hf Hr']]];
    injection Hr' as <- <- <-; destruct (IH _ _ _ _ _ Hs2 Hf Hp) as [Hw Hjs];
    destruct (collects_filter_joins _ _ _ _ _ _ _ Hs2 Hf) as [Hs3 _]; specialize (Hle Hs3).
  - split.
    + intros env. simpl. rewrite Hw. simpl. rewrite is_true_and, Hle. by rewrite andb_assoc.
    + constructor; [|done]. split; [done|done|]. exists policy. split; [done|]. intros env.
      by rewrite Ek, andb_true_r.
  - split; [done|]. constructor; [|done]. split; [done|done|]. exists policy. split; [done|].
    intros env. rewrite Ek. simpl. by rewrite is_true_and, Hle.
Qed.

Lemma join_rows_view j j' env :
  join_filtered j j' ->
  (forall env, seen (mask env) (bj_on j) = full env (bj_on j)) ->
  join_rows shown seen j (mask env)
  = map mask (List.filter (join_checked j) (join_rows db full j' env)).
Proof.
  intros [Hr Hk [policy [Hp Hon]]] Hv. unfold join_rows. rewrite Hr, Hk.
  rewrite (bind_view _ _ Hvalid _ _ policy) by done. rewrite filter_map_swap, filter_filter.
  assert (Hj : forall l, List.filter (fun e => holds policy e && is_true (seen (mask e) (bj_on j))) l
    = List.filter (fun e => holds policy e && is_true (full e (bj_on j))) l).
  { intros l. apply List.filter_ext. intros e. by rewrite Hv. }
  rewrite Hj. set (rows := map _ (db (bj_resource j))). unfold join_checked. rewrite Hp.
  destruct (bj_kind j).
  - rewrite filter_filter. f_equal. apply List.filter_ext. intros e. rewrite Hon. simpl.
    rewrite andb_true_r. apply andb_comm.
  - rewrite (List.filter_ext (fun e => is_true (full e (bj_on j')))
      (fun e => holds policy e && is_true (full e (bj_on j)))) by
      (intros e; rewrite Hon; apply andb_comm).
    assert (Hall : forall l : list Env, List.filter (fun _ => true) l = l).
    { intros l. by induction l as [|? l IH]; simpl; [|rewrite IH]. }
    rewrite Hall. destruct (List.filter _ rows) as [|e l]; simpl; [|done].
    by rewrite (mask_env_insert _ _ _ policy), mask_row_empty.
Qed.

(** The combinations of a join bind its resource. *)
Lemma join_rows_bind db' g j env e :
  e ∈ join_rows db' g j env -> exists row, e = <[bj_resource j := row]> env.
Proof.
  unfold join_rows. intros He.
  assert (Hm : forall p, e ∈ List.filter p (map (fun row => <[bj_resource j:=row]> env)
    (db' (bj_resource j))) -> exists row, e = <[bj_resource j := row]> env).
  { intros p Hin. apply list_elem_of_In, List.filter_In in Hin as [Hin _].
    apply in_map_iff in Hin as [row [<- _]]. by exists row. }
  destruct (bj_kind j); [by eapply Hm|].
  destruct (List.filter _ _) eqn:E.
  - apply list_elem_of_singleton in He as ->. by exists ∅.
  - rewrite <- E in He. by eapply Hm.
Qed.

(** A condition on the combinations so far that the remaining joins do not change. *)
Definition unaffected (p : Env -> bool) (js : list BoundJoin) : Prop :=
  Forall (fun j => forall row env, p (<[bj_resource j := row]> env) = p env) js.

Lemma join_checked_unaffected j js :
  (forall j', j' ∈ js -> bj_resource j' <> bj_resource j) -> unaffected (join_checked j) js.
Proof.
  intros Hne. apply Forall_forall. intros j' Hj row env. unfold join_checked.
  destruct (bj_kind j); [|done].
  destruct (selected !! bj_resource j) as [policy|] eqn:E; [|done]. simpl. unfold filter_holds.
  f_equal. eapply policy_value_other; [exact (filter_of_resource _ _ (Hvalid _ _ E))|].
  intros Heq. by apply (Hne j').
Qed.

Lemma joined_rows_view js js' : Forall2 join_filtered js js' ->
  NoDup (map bj_resource js) ->
  Forall (fun j => forall env, seen (mask env) (bj_on j) = full env (bj_on j)) js ->
  forall p envs, unaffected p js ->
  joined_rows shown seen (map mask (List.filter p envs)) js
  = map mask (List.filter (fun env => p env && joins_checked js env)
      (joined_rows db full envs js')).
Proof.
  induction 1 as [|j j' js js' Hj Hjs IH]; intros Hnd Hon p envs Hp; simpl.
  { f_equal. apply List.filter_ext. intros env. unfold joins_checked. simpl. by rewrite andb_true_r. }
  apply NoDup_cons in Hnd as [Hnew Hnd]. apply Forall_cons in Hon as [Hon Hons].
  apply Forall_cons in Hp as [Hpj Hps].
  assert (Hstep : flat_map (join_rows shown seen j) (map mask (List.filter p envs))
    = map mask (List.filter (fun env => p env && join_checked j env)
        (flat_map (join_rows db full j') envs))).
  { clear IH. induction envs as [|env envs IH]; simpl; [done|].
    rewrite List.filter_app, map_app, <- IH.
    assert (Hrows : List.filter (fun e => p e && join_checked j e) (join_rows db full j' env)
      = if p env then List.filter (join_checked j) (join_rows db full j' env) else []).
    { rewrite (filter_ext_elem (fun e => p e && join_checked j e)
        (fun e => p env && join_checked j e)).
      - destruct (p env); [done|]. by induction (join_rows db full j' env).
      - intros e He. apply join_rows_bind in He as [row ->].
        by rewrite (filtered_resource _ _ Hj), Hpj. }
    rewrite Hrows. destruct (p env); simpl; [|done].
    by rewrite (join_rows_view j j'). }
  rewrite Hstep, IH; [|done|done|].
  - f_equal. apply List.filter_ext. intros env. unfold joins_checked. simpl.
    by rewrite andb_assoc.
  - apply Forall_forall. intros j1 Hj1 row env. unfold unaffected in Hps. rewrite Forall_forall in Hps.
    rewrite (Hps _ Hj1). f_equal.
    assert (Hu : unaffected (join_checked j) js); [|by apply (proj1 (Forall_forall _ _) Hu)].
    apply join_checked_unaffected. intros j2 Hj2 Heq. apply Hnew. rewrite <- Heq.
    apply list_elem_of_In, in_map, list_elem_of_In, Hj2.
Qed.
End joins.

(** ** Projections *)

Section selects.
Context `{EngineLaws} (session : TrustedSession) (selected : Selected).
Context (Hvalid : forall r policy, selected !! r = Some policy -> select_policy_valid r policy).
Context (Hpositive : forall r policy, selected !! r = Some policy -> sp_limit policy <> Some 0).
Context (db : Database) (params : Params).

Abbreviation mask := (mask_env session selected).
Abbreviation maskf := (mask_frame session selected).
Abbreviation shown := (view session selected db).
Abbreviation full := (fun env => eval db params (frame_of env)).
Abbreviation seen := (fun env => eval shown params (frame_of env)).

(** A projection and the one the compiler put in its place. *)
Record projection_protected (p p' : BoundProjection) : Prop := {
  protected_count : is_count p' = is_count p;
  protected_meaning : forall f,
    eval db params f (bp_expression p') = eval shown params (maskf f) (bp_expression p)
}.

Lemma column_value_conditional env c policy visible_if :
  selected !! column_resource c = Some policy -> c ∉ sp_regular_columns policy ->
  sp_conditional_columns policy !! c = Some visible_if ->
  column_value (mask env) c
  = if is_true (policy_value session (column_value env) visible_if)
    then column_value env c else LogicalValue.Null.
Proof.
  intros Hp Hc Hv. unfold column_value at 1 3, mask_env. rewrite map_lookup_imap.
  destruct (env !! column_resource c) as [row|] eqn:E; simpl; [|by case_match].
  rewrite Hp. simpl. unfold mask_row. rewrite map_lookup_imap.
  destruct (conditional_of_resource _ _ (Hvalid _ _ Hp) _ _ Hv) as [_ Hr].
  rewrite <- (insert_id env _ _ E), (policy_value_row session _ _ env row Hr).
  destruct (row !! c) as [v|]; simpl; [|by case_match]. unfold visible_value.
  rewrite bool_decide_false, Hv by done. unfold policy_holds. by case_match.
Qed.

Lemma row_number_valid r ps os :
  check_projection selected (regular_columns selected)
    {| bp_expression := BoundExpr.RowNumber r ps os; bp_output_name := "" |} = inl () ->
  validate_client_expression (regular_columns selected) (BoundExpr.RowNumber r ps os) = inl ().
Proof.
  unfold check_projection. simpl. intros Hc. compile_inv. apply negb_true_iff in Hc.
  apply orb_false_iff in Hc as [Hc Ho]. apply orb_false_iff in Hc as [_ Hc].
  rewrite (proj2 (for_each_inl _ ps)).
  - apply for_each_inl, Forall_forall. intros o Hin. apply list_elem_of_In in Hin.
    assert (Ho' := proj1 (existsb_false_forall _ _) Ho o Hin). revert Ho'. simpl.
    by destruct (validate_client_expression _ _) as [[]|].
  - apply Forall_forall. intros c Hin. apply list_elem_of_In in Hin.
    assert (Hc' := proj1 (existsb_false_forall _ _) Hc c Hin). revert Hc'. simpl.
    by case_bool_decide.
Qed.

Lemma projection_meaning p s p' s' :
  session_values_only session s ->
  apply_projection_permission selected session p s = inl (p', s') ->
  check_projection selected (regular_columns selected) p' = inl () ->
  exists_free (bp_expression p) = true -> provided params s' -> projection_protected p p'.
Proof.
  intros Hs Ha Hc Hf Hp. unfold apply_projection_permission in Ha.
  destruct (bp_expression p) eqn:E; try done;
    try (injection Ha as <- <-; unfold check_projection in Hc; rewrite E in Hc;
         split; [done|]; intros f; rewrite E; by eapply free_meaning).
  - apply compile_bind_inl in Ha as [policy [s1 [Hr Ha]]]. apply checked_inl in Hr as [Hr ->].
    apply ok_or_inl in Hr. case_bool_decide as Hreg.
    + injection Ha as <- <-. split; [done|]. intros f. rewrite E. apply column_meaning; [done|].
      apply regular_columns_elem; eauto.
    + apply compile_bind_inl in Ha as [v [s1 [Hv Ha]]]. apply checked_inl in Hv as [Hv ->].
      apply ok_or_inl in Hv. apply compile_bind_inl in Ha as [e [s1 [He Ha]]].
      injection Ha as <- <-. split;
        [unfold is_count; simpl; by rewrite E, (predicate_counts _ _ _ _ _ He)|]. intros f. simpl.
      rewrite E. simpl. rewrite (predicate_meaning _ _ _ _ _ _ _ f Hs He Hp).
      symmetry. by eapply column_value_conditional.
  - injection Ha as <- <-. split; [done|]. intros f. rewrite E. eapply free_meaning; try done.
    apply row_number_valid. unfold check_projection in Hc. rewrite E in Hc. exact Hc.
Qed.

Lemma collects_projection p : collects session (apply_projection_permission selected session p).
Proof.
  intros s p' s' Hs Hp. apply (collects_projections session selected [p] s [p'] s' Hs).
  unfold apply_projection_permissions. simpl. unfold mbind at 1, compile_bind at 1. by rewrite Hp.
Qed.

Lemma projections_meaning ps s ps' s' :
  session_values_only session s ->
  apply_projection_permissions ps selected session s = inl (ps', s') ->
  for_each (check_projection selected (regular_columns selected)) ps' = inl () ->
  forallb (fun p => exists_free (bp_expression p)) ps = true -> provided params s' ->
  Forall2 projection_protected ps ps'.
Proof.
  intros Hs Ha Hc Hf Hp.
  assert (Hall : Forall2 (fun p p' => check_projection selected (regular_columns selected) p'
    = inl () -> projection_protected p p') ps ps').
  { refine (traverse_forall session params _ _ ps _ s ps' s' Hs Ha Hp).
    rewrite forallb_forall in Hf. apply Forall_forall. intros p Hin.
    split; [apply collects_projection|]. intros s1 p' s2 Hs1 Hp1 Hp2 Hck.
    eapply projection_meaning; [exact Hs1|exact Hp1|done| |done].
    by apply Hf, list_elem_of_In. }
  apply for_each_inl in Hc. clear Ha Hf.
  induction Hall as [|p p' ps ps' Hpp _ IH]; [constructor|]. apply Forall_cons in Hc as [Hc Hcs].
  constructor; auto.
Qed.

(** ** Groups, order, pages *)

(** A select and the one the compiler put in its place, before the limit. *)
Record select_protected (s s' : BoundSelect) : Prop := {
  sources_protected : source_rows shown seen s ∅ = map mask (source_rows db full s' ∅);
  projections_protected : Forall2 projection_protected (bs_projections s) (bs_projections s');
  same_group_by : bs_group_by s' = bs_group_by s;
  same_having : bs_having s' = bs_having s;
  same_order_by : bs_order_by s' = bs_order_by s;
  group_by_regular : Forall (fun c => bc_id c ∈ regular_columns selected) (bs_group_by s);
  having_protected : option_holds (fun e => forall f,
    eval db params f e = eval shown params (maskf f) e) (bs_having s);
  order_protected : Forall (fun o => forall f,
    eval db params f (bo_expression o) = eval shown params (maskf f) (bo_expression o))
    (bs_order_by s)
}.

Abbreviation mask_group := (fun group : Env * Z => (mask group.1, group.2)).

Lemma grouped_mask s s' envs : select_protected s s' ->
  grouped s (map mask envs) = map mask_group (grouped s' envs).
Proof.
  intros Hs. unfold grouped. rewrite (same_group_by _ _ Hs).
  assert (Hg := group_by_regular _ _ Hs). destruct (bs_group_by s) as [|c cs].
  - assert (Hc : existsb is_count (bs_projections s') = existsb is_count (bs_projections s)).
    { induction (projections_protected _ _ Hs) as [|p p' ps ps' Hp _ IH]; simpl; [done|].
      by rewrite (protected_count _ _ Hp), IH. }
    rewrite Hc. case_match.
    + simpl. rewrite length_map. destruct envs; simpl; [|done]. by rewrite mask_env_empty.
    + by rewrite !map_map.
  - rewrite length_map. apply group_rows_map. intros env. apply map_ext_Forall.
    eapply Forall_impl; [exact Hg|]. intros c' Hc'. simpl in *. by apply column_value_mask.
Qed.

Lemma having_mask s s' group : select_protected s s' ->
  having_holds shown params s (mask_group group) = having_holds db params s' group.
Proof.
  intros Hs. unfold having_holds. rewrite (same_having _ _ Hs).
  assert (Hh := having_protected _ _ Hs). destruct (bs_having s) as [e|]; [|done]. simpl in Hh.
  unfold group_frame. by rewrite Hh.
Qed.

Lemma frames_mask s s' : select_protected s s' ->
  frames shown params s = map maskf (frames db params s').
Proof.
  intros Hs. unfold frames. rewrite (sources_protected _ _ Hs), (grouped_mask s s') by done.
  rewrite filter_map_swap.
  rewrite (List.filter_ext _ (having_holds db params s')) by (intros; by apply having_mask).
  set (groups := List.filter _ _). change (map maskf ?l) with (maskf <$> l).
  rewrite fmap_imap. change (map mask_group groups) with (mask_group <$> groups) at 2.
  rewrite imap_fmap. apply imap_ext. intros i group _. unfold mask_frame. simpl.
  f_equal. by rewrite !map_map.
Qed.

Lemma ordered_mask s s' : select_protected s s' ->
  ordered shown params s = map maskf (ordered db params s').
Proof.
  intros Hs. unfold ordered. rewrite (frames_mask s s') by done. rewrite map_map.
  assert (Hk : map (fun f => sort_key shown params s (maskf f)) (frames db params s')
    = map (sort_key db params s') (frames db params s')).
  { apply map_ext. intros f. unfold sort_key. rewrite (same_order_by _ _ Hs).
    apply map_ext_Forall. eapply Forall_impl; [exact (order_protected _ _ Hs)|].
    intros o Ho. simpl. by rewrite Ho. }
  rewrite Hk. apply omap_lookup_map.
Qed.

Lemma result_rows s s' : select_protected s s' ->
  map (project db params s') (ordered db params s')
  = map (project shown params s) (ordered shown params s).
Proof.
  intros Hs. rewrite (ordered_mask s s') by done. rewrite map_map. apply map_ext. intros f.
  unfold project. induction (projections_protected _ _ Hs) as [|p p' ps ps' Hp _ IH]; simpl; [done|].
  by rewrite IH, (protected_meaning _ _ Hp).
Qed.
End selects.

(** ** The select the compiler produces

    From the lemmas above: what [compile_select] returns refines the view, its limit,
    and what follows about information flow. *)

(** ** The limit of the policies *)

Lemma least_limit_spec (selected : Selected) :
  match least_limit selected with
  | None => forall r policy, selected !! r = Some policy -> sp_limit policy = None
  | Some m =>
      (exists r policy, selected !! r = Some policy /\ sp_limit policy = Some m)
      /\ forall r policy n, selected !! r = Some policy -> sp_limit policy = Some n -> m <= n
  end.
Proof.
  unfold least_limit.
  assert (Hl : forall r policy, selected !! r = Some policy <-> (r, policy) ∈ map_to_list selected)
    by (intros; by rewrite elem_of_map_to_list).
  assert (Hlist : forall l : list (Z * SelectPolicy),
    match fold_right (fun '(_, policy) least =>
        match sp_limit policy, least with
        | Some limit, Some least => Some (Z.min limit least)
        | Some limit, None => Some limit
        | None, least => least
        end) None l with
    | None => forall r policy, (r, policy) ∈ l -> sp_limit policy = None
    | Some m =>
        (exists r policy, (r, policy) ∈ l /\ sp_limit policy = Some m)
        /\ forall r policy n, (r, policy) ∈ l -> sp_limit policy = Some n -> m <= n
    end); [|].
  - induction l as [|[r policy] l IH]; simpl; [by inversion 1|].
    destruct (sp_limit policy) as [n|] eqn:En, (fold_right _ None l) as [m|] eqn:Em.
    + destruct IH as [(r' & p' & Hin & Hm) Hall]. split.
      * destruct (Z.min_spec n m) as [[_ ->]|[_ ->]]; [exists r, policy|exists r', p'];
          (split; [|done]); [by left|by right].
      * intros r1 p1 k. rewrite elem_of_cons. intros [[= -> ->]|Hin1] Hk.
        -- rewrite En in Hk. injection Hk as ->. lia.
        -- specialize (Hall _ _ _ Hin1 Hk). lia.
    + split; [exists r, policy; split; [by left|done]|]. intros r1 p1 k. rewrite elem_of_cons.
      intros [[= -> ->]|Hin1] Hk; [rewrite En in Hk; injection Hk as ->; lia|].
      by rewrite (IH _ _ Hin1) in Hk.
    + destruct IH as [(r' & p' & Hin & Hm) Hall].
      split; [exists r', p'; split; [by right|done]|]. intros r1 p1 k. rewrite elem_of_cons.
      intros [[= -> ->]|Hin1] Hk; [by rewrite En in Hk|by eapply Hall].
    + intros r1 p1. rewrite elem_of_cons. intros [[= -> ->]|Hin1]; [done|by eapply IH].
  - specialize (Hlist (map_to_list selected)). case_match.
    + destruct Hlist as [(r & policy & Hin & Hm) Hall]. split.
      * exists r, policy. by rewrite Hl.
      * intros r1 p1 n. rewrite Hl. by apply Hall.
    + intros r policy. rewrite Hl. apply Hlist.
Qed.

(** ** Protecting a select *)

Lemma Forall_and_forallb {A} (P : A -> Prop) (q : A -> bool) l :
  Forall P l -> forallb q l = true -> Forall (fun a => P a /\ q a = true) l.
Proof.
  rewrite !Forall_forall, forallb_forall. intros HP Hq a Ha. split; [auto|].
  by apply Hq, list_elem_of_In.
Qed.

Section select.
Context `{EngineLaws} (session : TrustedSession) (selected : Selected).
Context (Hvalid : forall r policy, selected !! r = Some policy -> select_policy_valid r policy).
Context (db : Database) (params : Params).

Abbreviation mask := (mask_env session selected).
Abbreviation shown := (view session selected db).
Abbreviation full := (fun env => eval db params (frame_of env)).
Abbreviation seen := (fun env => eval shown params (frame_of env)).

Lemma source_rows_protected s predicate root e p' js' :
  (forall env, where_holds full p' env
    = is_true (full env (and_optional predicate e)) && joins_checked session selected (bs_joins s) env) ->
  Forall2 (join_filtered session selected db params) (bs_joins s) js' ->
  selected !! bs_resource s = Some root ->
  (forall env, is_true (full env e) = filter_holds session root env) ->
  (forall env, where_holds full predicate env = where_holds seen (bs_predicate s) (mask env)) ->
  Forall (fun j => forall env, seen (mask env) (bj_on j) = full env (bj_on j)) (bs_joins s) ->
  NoDup (bs_resource s :: map bj_resource (bs_joins s)) ->
  source_rows shown seen s ∅
  = map mask (source_rows db full (with_joins (with_predicate s p') js') ∅).
Proof.
  intros Hw Hjs Hr He Hp Hon Hnd. apply NoDup_cons in Hnd as [Hnew Hnd].
  unfold source_rows. simpl. rewrite <- (mask_env_empty session selected).
  rewrite (bind_view _ _ Hvalid _ _ root) by done.
  rewrite (joined_rows_view _ _ Hvalid _ _ _ _ Hjs Hnd Hon).
  - rewrite filter_map_swap, filter_filter. f_equal. apply List.filter_ext. intros env.
    rewrite Hw, <- Hp. destruct predicate as [c|]; simpl; rewrite ?is_true_and, He.
    + by destruct (is_true _), (filter_holds _ _ _), (joins_checked _ _ _ _).
    + by rewrite andb_true_r.
  - apply Forall_forall. intros j Hj row env. unfold filter_holds. f_equal.
    eapply policy_value_other; [exact (filter_of_resource _ _ (Hvalid _ _ Hr))|].
    intros Heq. apply Hnew. rewrite Heq. by apply list_elem_of_In, in_map, list_elem_of_In.
Qed.

Context (Hpositive : forall r policy, selected !! r = Some policy -> sp_limit policy <> Some 0).

Lemma regular_columns_check s : check_select selected s = inl () ->
  if_some (validate_client_expression (regular_columns selected)) (bs_predicate s) = inl ()
  /\ Forall (fun o => validate_client_expression (regular_columns selected) (bo_expression o)
       = inl ()) (bs_order_by s)
  /\ Forall (fun c => bc_id c ∈ regular_columns selected) (bs_group_by s)
  /\ if_some (validate_client_expression (regular_columns selected)) (bs_having s) = inl ()
  /\ for_each (check_projection selected (regular_columns selected)) (bs_projections s) = inl ()
  /\ Forall (fun j => validate_client_expression (regular_columns selected) (bj_on j) = inl ())
       (bs_joins s).
Proof.
  unfold check_select. intros Hc. compile_inv. rewrite !for_each_inl in *. repeat split; try done.
  eapply Forall_impl; [done|]. intros c Hr. simpl in Hr. compile_inv. by case_bool_decide.
Qed.

Lemma protect_select_meaning s s' values :
  select_plain s = true -> protect_select selected session s ∅ = inl (s', values) ->
  provided params values ->
  exists s0, s' = apply_policy_limit s0 (least_limit selected)
    /\ select_protected session selected db params s s0
    /\ bs_limit s0 = bs_limit s /\ bs_offset s0 = bs_offset s.
Proof.
  intros Hplain Hps Hp. unfold select_plain in Hplain. bools.
  assert (Hs0 : session_values_only session ∅) by by intros ??.
  unfold protect_select in Hps.
  apply compile_bind_inl in Hps as [ps [v1 [Hproj Hps]]].
  apply compile_bind_inl in Hps as [[] [v2 [Hc Hps]]]. apply checked_inl in Hc as [Hc ->].
  apply compile_bind_inl in Hps as [predicate [v3 [Hpred Hps]]].
  apply compile_bind_inl in Hps as [root [v4 [Hr Hps]]]. apply checked_inl in Hr as [Hr ->].
  apply ok_or_inl in Hr.
  apply compile_bind_inl in Hps as [e [v5 [He Hps]]].
  apply compile_bind_inl in Hps as [[p' js'] [v6 [Hj Hps]]]. injection Hps as <- <-.
  destruct (collects_projections _ _ _ _ _ _ Hs0 Hproj) as [_ Hs1].
  destruct (regular_columns_check _ Hc) as (Hvp & Hvo & Hvg & Hvh & Hvps & Hvj).
  assert (Hcp : collects session (traverse_option (protect_nested_selects selected session)
    (bs_predicate s))).
  { apply collects_traverse_option. destruct (bs_predicate s); [apply collects_protect|done]. }
  destruct (Hcp _ _ _ Hs1 Hpred) as [Hle3 Hs3].
  destruct (collects_predicate _ _ _ _ _ Hs3 He) as [Hle5 Hs5].
  destruct (collects_filter_joins _ _ _ _ _ _ _ Hs5 Hj) as [Hle6 Hs6].
  assert (Hp5 := provided_le _ _ _ Hle6 Hp). assert (Hp3 := provided_le _ _ _ Hle5 Hp5).
  assert (Hp1 := provided_le _ _ _ Hle3 Hp3).
  eexists. split; [reflexivity|]. split; [|done].
  destruct (filter_joins_meaning session selected db params _ _ _ _ _ _ Hs5 Hj Hp) as [Hw Hjs].
  split; try done.
  - apply (source_rows_protected s predicate root e p' js'); try done.
    + intros env. by apply (filter_meaning _ _ _ _ _ _ _ env Hs3 He).
    + intros env. assert (Hm : option_holds (protected session selected db params) (bs_predicate s))
        by (destruct (bs_predicate s); [by apply protect_meaning|done]).
      assert (Ho := protected_option _ _ _ _ _ _ _ _ (frame_of env) Hm Hvp ltac:(done) Hs1 Hpred Hp3).
      rewrite mask_frame_of in Ho. destruct predicate, (bs_predicate s); simplify_eq/=; congruence.
    + eapply Forall_impl; [exact (Forall_and_forallb _ _ _ Hvj ltac:(done))|].
      intros j [Hv Hf] env. simpl in *. symmetry. rewrite <- mask_frame_of.
      by apply free_meaning.
  - eapply projections_meaning; [done|done|exact Hs0|exact Hproj|done..].
  - simpl in Hvh. destruct (bs_having s); [|done]. simpl in *. intros f. by apply free_meaning.
  - eapply Forall_impl; [exact (Forall_and_forallb _ _ _ Hvo ltac:(done))|].
    intros o [Hv Hf] f. simpl in *. by apply free_meaning.
Qed.
End select.

(** ** What [compile_select] returns *)

Lemma select_policies_spec b select role resources selected :
  select_policies b select role = inl (resources, selected) ->
  selected = role_policies b role resources
  /\ Forall (fun r => is_Some (policy_of (pb_select b) r role)) resources.
Proof.
  unfold select_policies. set (l := sort_dedup _). clearbody l. intros Hs.
  apply result_bind_inl in Hs as [pairs [Hc Hs]].
  injection Hs as <- <-. apply collect_inl in Hc. unfold role_policies. split.
  - f_equal. induction Hc as [|r pair l pairs Hr _ IH]; [done|].
    apply result_bind_inl in Hr as [policy [Hp Hr]]. apply ok_or_inl in Hp. injection Hr as <-.
    cbn. rewrite Hp. cbn. by f_equal.
  - induction Hc as [|r pair l pairs Hr _ IH]; constructor; [|done].
    apply result_bind_inl in Hr as [policy [Hp Hr]]. apply ok_or_inl in Hp. by eexists.
Qed.

Lemma role_policies_lookup b role resources r policy :
  role_policies b role resources !! r = Some policy ->
  policy_of (pb_select b) r role = Some policy /\ r ∈ resources.
Proof.
  intros Hl. apply elem_of_list_to_map_2, list_elem_of_omap in Hl as [r' [Hr' Hp]].
  destruct (policy_of _ r' role) eqn:E; simplify_eq/=. done.
Qed.

Lemma role_policies_elem b role resources r :
  r ∈ resources -> role_policies b role resources !! r = policy_of (pb_select b) r role.
Proof.
  unfold role_policies. induction resources as [|r' l IH]; [by inversion 1|]. intros Hr. cbn.
  destruct (decide (r' = r)) as [->|Hne].
  - destruct (policy_of (pb_select b) r role) as [p|] eqn:E; cbn; [by rewrite lookup_insert_eq|].
    apply elem_of_cons in Hr as [_|Hr]; [|by apply IH].
    apply not_elem_of_list_to_map_1. intros Hin. apply list_elem_of_fmap in Hin as [[k p] [-> Hin]].
    apply list_elem_of_omap in Hin as [r' [_ Hin]]. cbn in E.
    destruct (policy_of (pb_select b) r' role) eqn:E'; simplify_eq/=.
  - apply elem_of_cons in Hr as [->|Hr]; [done|].
    destruct (policy_of (pb_select b) r' role); cbn; [by rewrite lookup_insert_ne, IH|by apply IH].
Qed.

Lemma compile_select_inl b s session out :
  compile_select b (BoundStatement.Select s) session = inl out ->
  exists protected,
    pp_statement (co_plan out) = BoundStatement.Select protected
    /\ protect_select
         (role_policies b (session_role session) (ex_resources (co_explain out))) session s ∅
       = inl (protected, pp_server_values (co_plan out))
    /\ pp_policy_limit (co_plan out)
       = least_limit (role_policies b (session_role session) (ex_resources (co_explain out))).
Proof.
  intros Hc. simpl in Hc. apply result_bind_inl in Hc as [[resources selected] [Hs Hc]].
  apply result_bind_inl in Hc as [[protected values] [Hp Hc]]. injection Hc as <-. simpl.
  apply select_policies_spec in Hs as [-> _]. by exists protected.
Qed.

Lemma take_bounded {A} m bound (l : list A) :
  take m (bounded bound l) = bounded (Some match bound with Some n => Nat.min m n | None => m end) l.
Proof. destruct bound as [n|]; simpl; [apply take_take|done]. Qed.

Section pages.
Context `{EngineLaws} (params : Params).

Lemma scalar_eval db db' f f' e :
  scalar e = true -> eval db params f e = eval db' params f' e.
Proof. by destruct e. Qed.

(** A counted limit is a number of rows. *)
Lemma limit_counts_eval db f s limit :
  limit_counts params s = true -> bs_limit s = Some limit ->
  exists n, eval db params f limit = LogicalValue.Int64 n /\ 0 <= n.
Proof.
  unfold limit_counts. intros Hc Hl. rewrite Hl in Hc. simpl in Hc.
  destruct limit; try done; simpl; (destruct (parameter _ _) || destruct value); try done; bools;
    by eexists.
Qed.

Lemma row_bound_nonneg n : 0 <= n -> row_bound (LogicalValue.Int64 n) = Some (Z.to_nat n).
Proof. intros Hn. simpl. by rewrite (proj2 (Z.ltb_ge _ _)). Qed.

Lemma limited_eval db f s p :
  limit_counts params s = true -> 0 <= p ->
  row_bound (eval db params f (limited (bs_limit s) p))
  = Some match bs_limit s with
         | Some limit =>
             match row_bound (eval db params f limit) with
             | Some n => Nat.min (Z.to_nat (Z.min I64_MAX p)) n
             | None => Z.to_nat (Z.min I64_MAX p)
             end
         | None => Z.to_nat (Z.min I64_MAX p)
         end.
Proof.
  intros Hc Hp. set (clamped := Z.min I64_MAX p).
  assert (Hk : (if (p <=? I64_MAX)%Z then p else I64_MAX) = clamped) by
    (unfold clamped; case_match; bools; lia).
  assert (H1 : 0 <= clamped) by (unfold clamped, I64_MAX; lia).
  destruct (bs_limit s) as [limit|] eqn:El; simpl limited; rewrite Hk;
    [|simpl eval; by rewrite row_bound_nonneg].
  destruct (limit_counts_eval db f s limit Hc El) as [n [Hn Hn0]].
  rewrite Hn, row_bound_nonneg by done. rewrite <- Z2Nat.inj_min.
  rewrite <- row_bound_nonneg by lia. f_equal. rewrite Z.min_comm.
  destruct limit; simpl in *; rewrite ?Hn, ?least_integers; try done.
Qed.

Lemma page_limited {A} db db' f f' s p (l : list A) :
  limit_counts params s = true -> opt_forallb scalar (bs_limit s) = true ->
  opt_forallb scalar (bs_offset s) = true -> (forall n, p = Some n -> 0 <= n) ->
  page (eval db params f) (apply_policy_limit s p) l
  = bounded (policy_bound p) (page (eval db' params f') s l).
Proof.
  intros Hc Hl Ho Hp. unfold page.
  assert (Hskip : match bs_offset s with Some o => skipped (eval db params f o) | None => 0%nat end
    = match bs_offset s with Some o => skipped (eval db' params f' o) | None => 0%nat end).
  { destruct (bs_offset s) as [o|]; [|done]. by rewrite (scalar_eval db db' f f'). }
  assert (Hlim : match bs_limit s with Some e => row_bound (eval db params f e) | None => None end
    = match bs_limit s with Some e => row_bound (eval db' params f' e) | None => None end).
  { destruct (bs_limit s) as [e|]; [|done]. by rewrite (scalar_eval db db' f f'). }
  destruct p as [p|]; simpl; [|by rewrite Hskip, Hlim].
  rewrite limited_eval by auto. rewrite Hskip, <- Hlim, take_bounded.
  by destruct (bs_limit s).
Qed.
End pages.

(** ** The refinement *)

Section refinement.
Context `{EngineLaws} (b : PolicyBundle) (session : TrustedSession).
Context (Hbundle : bundle_valid b).

Lemma role_policies_valid role resources r policy :
  role_policies b role resources !! r = Some policy -> select_policy_valid r policy.
Proof. intros Hl. apply role_policies_lookup in Hl as [Hp _]. by eapply Hbundle. Qed.

(** A policy limit of zero leaves no row. *)
Lemma zero_limit_empty db params s :
  opt_forallb scalar (bs_limit s) = true -> limit_counts params s = true ->
  run_select db params (apply_policy_limit s (Some 0)) = [].
Proof.
  intros Hl Hc. unfold run_select, page. cbn [apply_policy_limit bs_limit with_limit].
  rewrite limited_eval by done. destruct (bs_limit s); simpl; [by destruct (row_bound _)|done].
Qed.

Lemma select_refines_view s s' values db params :
  let policies := role_policies b (session_role session) in
  forall resources,
  protect_select (policies resources) session s ∅ = inl (s', values) ->
  select_plain s = true -> provided params values -> limit_counts params s = true ->
  run_select db params s'
  = bounded (policy_bound (least_limit (policies resources)))
      (run_select (role_view b session resources db) params s).
Proof.
  intros policies resources Hp Hplain Hprov Hc.
  assert (Hv := role_policies_valid (session_role session) resources).
  assert (Hn : forall n, least_limit (policies resources) = Some n -> 0 <= n).
  { intros n Hn. assert (Hs := least_limit_spec (policies resources)). rewrite Hn in Hs.
    destruct Hs as [(r & policy & Hr & Hl) _]. exact (limit_unsigned _ _ (Hv _ _ Hr) _ Hl). }
  assert (Hls : opt_forallb scalar (bs_limit s) = true /\ opt_forallb scalar (bs_offset s) = true)
    by (unfold select_plain in Hplain; bools; done).
  destruct (decide (least_limit (policies resources) = Some 0)) as [Hz|Hz].
  - rewrite Hz. simpl. unfold protect_select in Hp. compile_inv. rewrite Hz.
    apply zero_limit_empty; [apply Hls|exact Hc].
  - assert (Hpos : forall r policy, policies resources !! r = Some policy ->
      sp_limit policy <> Some 0).
    { intros r policy Hr Hl. apply Hz. assert (Hs := least_limit_spec (policies resources)).
      destruct (least_limit (policies resources)) as [m|]; [|by rewrite (Hs _ _ Hr) in Hl].
      destruct Hs as [_ Hall]. specialize (Hall _ _ _ Hr Hl). specialize (Hn m eq_refl).
      f_equal. lia. }
    destruct (protect_select_meaning session (policies resources) Hv db params Hpos s s' values
      Hplain Hp Hprov) as (s0 & -> & Hs & Hl & Ho).
    change (role_view b session resources db) with (view session (policies resources) db).
    unfold run_select. rewrite <- (result_rows session (policies resources) Hv db params s s0 Hs).
    rewrite <- (page_limited params db _ (frame_of ∅) _ s); try apply Hls; try done.
    assert (Ha : forall p A (l : list A), page (eval db params (frame_of ∅)) (apply_policy_limit s0 p) l
      = page (eval db params (frame_of ∅)) (apply_policy_limit s p) l).
    { intros p A l. destruct p; unfold page; simpl; by rewrite ?Hl, ?Ho. }
    rewrite Ha. by destruct (least_limit (policies resources)).
Qed.
End refinement.
