(* ===== verification/BindFacts.v ===== *)
(** * What binding an expression keeps

    Facts about Binding.v. An expression bound in the scopes of a statement means on the rows of
    the resources what it says on the rows of its sources (SqlMeaning.v). *)

From Stdlib Require Import SpecFloat.
From S2P Require Import Prelude Result F64 Utf8 Btree Core Catalog Ir SqlAst Semantics SqlMeaning.
From S2P Require Import SqlMeaning Binding EmitFacts.

(** ** Lists *)

Lemma first_some_head {A B} (f : A -> option B) l : first_some f l = head (omap f l).
Proof. induction l as [|a l IH]; cbn; [done|]. by destruct (f a). Qed.

Lemma omap_rev {A B} (f : A -> option B) l : omap f (rev l) = rev (omap f l).
Proof.
  induction l as [|a l IH]; cbn; [done|]. rewrite omap_app, IH. cbn.
  destruct (f a); [done|by rewrite app_nil_r].
Qed.

Lemma find_unique {A} (p : A -> bool) l a :
  a ∈ l -> p a = true -> (forall b, b ∈ l -> p b = true -> b = a) -> List.find p l = Some a.
Proof.
  intros Ha Hp Hu. destruct (List.find p l) as [b|] eqn:E.
  - apply find_some in E as [Hb Hpb]. f_equal. apply Hu; [by apply list_elem_of_In|done].
  - apply list_elem_of_In in Ha. by rewrite (find_none _ _ E _ Ha) in Hp.
Qed.

Lemma find_map {A B} (p : B -> bool) (f : A -> B) l :
  List.find p (map f l) = f <$> List.find (fun a => p (f a)) l.
Proof. induction l as [|a l IH]; simpl; [done|]. by destruct (p (f a)). Qed.

Lemma Forall2_find {A B} (R : A -> B -> Prop) p q la lb :
  Forall2 R la lb -> (forall a b, R a b -> p a = q b) ->
  option_Forall2 R (List.find p la) (List.find q lb).
Proof.
  intros Hl Hpq. induction Hl as [|a b la lb Hab _ IH]; simpl; [constructor|].
  rewrite <- (Hpq _ _ Hab). destruct (p a); [by constructor|done].
Qed.

(** ** Text *)

Lemma canonical_idemp s : canonical (canonical s) = canonical s.
Proof.
  unfold canonical, lowercase. induction s as [|c s IH]; simpl; [done|]. f_equal; [|done].
  by destruct c as [[] [] [] [] [] [] [] []].
Qed.

(** A string token is decoded to the string it is written for; only NUL cannot be written. *)
Definition no_nul (value : string) : bool :=
  str_forallb (fun c => negb (Ascii.eqb c "000")) value.

Lemma decode_doubled value : no_nul value = true -> decode_characters (doubled single_quote value) = inl value.
Proof.
  induction value as [|c value IH]; intros Hn; [done|]. unfold no_nul in Hn. simpl in Hn.
  apply andb_true_iff in Hn as [Hc Hn]. apply negb_true_iff in Hc. specialize (IH Hn).
  simpl. destruct (Ascii.eqb_spec c single_quote) as [->|Hq]; cbn [decode_characters].
  - rewrite !Ascii.eqb_refl. by rewrite IH.
  - by rewrite Hc, (proj2 (Ascii.eqb_neq c single_quote)), IH.
Qed.

Lemma decode_characters_spec inner value :
  decode_characters inner = inl value <-> inner = doubled single_quote value /\ no_nul value = true.
Proof.
  split; [|by intros [-> Hn]; apply decode_doubled].
  remember (String.length inner) as n eqn:Hl.
  assert (Hle : (String.length inner <= n)%nat) by lia. clear Hl. revert inner value Hle.
  induction n as [|n IH]; intros [|c inner] value Hle Hd; cbn [String.length] in Hle; try lia;
    try (by injection Hd as <-).
  cbn [decode_characters] in Hd. destruct (Ascii.eqb_spec c "000") as [|Hz]; [done|].
  destruct (Ascii.eqb_spec c single_quote) as [->|Hc].
  - destruct inner as [|d inner]; [done|]. cbn [String.length] in Hle.
    destruct (Ascii.eqb_spec d single_quote) as [->|]; [|done].
    apply result_bind_inl in Hd as [v [Hd Hv]]. injection Hv as <-.
    apply IH in Hd as [-> Hn]; [|lia]. by split.
  - apply result_bind_inl in Hd as [v [Hd Hv]]. injection Hv as <-.
    apply IH in Hd as [-> Hn]; [|lia]. unfold no_nul in *. simpl.
    rewrite (proj2 (Ascii.eqb_neq c single_quote)), (proj2 (Ascii.eqb_neq c "000")) by done.
    by rewrite Hn.
Qed.

Lemma string_literal_decodes token value :
  decode_string_literal token = inl value <->
  token = String single_quote (doubled single_quote value ++ String single_quote EmptyString)
  /\ no_nul value = true.
Proof.
  unfold decode_string_literal. split.
  - intros (inner & Hi & Hd)%result_bind_inl. apply ok_or_inl in Hi.
    apply decode_characters_spec in Hd as [-> Hn]. split; [|done].
    destruct (strip_prefix _ token) as [rest|] eqn:Er; [|done]. simpl in Hi.
    apply strip_prefix_Some in Er as ->. by apply strip_suffix_Some in Hi as ->.
  - intros [-> Hn]. set (rest := (_ ++ _)%string).
    change (String single_quote rest) with (String single_quote EmptyString ++ rest)%string.
    rewrite strip_prefix_app. cbn [mbind option_bind]. unfold rest.
    rewrite (proj2 (strip_suffix_Some _ _ _) eq_refl). by apply decode_doubled.
Qed.

Lemma string_value_decoded token value :
  decode_string_literal token = inl value -> string_value token = value.
Proof.
  intros [-> _]%string_literal_decodes. unfold string_value. rewrite string_length_app. simpl.
  rewrite Nat.add_sub, substring_app_l. apply undoubled_doubled.
Qed.

(** ** The columns of a resource by their names *)

Abbreviation column_name column := (canonical (cd_name column)).
Abbreviation named_so name := (fun column => String.eqb (column_name column) name).

Lemma scope_columns_find cs name :
  NoDup (map (fun column => column_name column) cs) ->
  scope_columns cs !! name = List.find (named_so name) cs.
Proof.
  unfold scope_columns. intros Hn. induction cs as [|c cs IH] using rev_ind; [done|].
  rewrite fold_left_app, map_app in *. apply NoDup_app in Hn as (Hn & Hc & _). simpl.
  destruct (String.eqb_spec (column_name c) name) as [<-|Hne].
  - rewrite lookup_insert_eq. symmetry. apply find_unique; [apply elem_of_app; right; by left| |].
    + by rewrite String.eqb_refl.
    + intros d [Hd|Hd]%elem_of_app Heq; [|by apply list_elem_of_singleton in Hd].
      apply String.eqb_eq in Heq. exfalso. eapply (Hc (column_name d)); [|rewrite Heq; by left].
      exact (list_elem_of_fmap_2 (fun c => column_name c) _ _ Hd).
  - rewrite lookup_insert_ne, IH by done. clear -Hne. induction cs as [|d cs IH]; simpl.
    + by rewrite (proj2 (String.eqb_neq _ _) Hne).
    + by destruct (String.eqb _ _).
Qed.

Lemma resource_names_distinct r :
  resource_valid r -> NoDup (map (fun column => column_name column) (columns r)).
Proof.
  intros Hr. unfold columns. rewrite map_map.
  replace (map _ _) with (map fst (rd_columns r)).
  - apply (bt_sorted_keys String.compare), columns_sorted, Hr.
  - apply map_ext_Forall, Forall_forall. intros [k d] Hd. exact (column_key _ Hr _ _ Hd).
Qed.

Lemma resource_column r c :
  resource_valid r -> c ∈ columns r -> column_resource (cd_id c) = rd_id r.
Proof.
  intros Hr [[k d] [-> Hd]]%list_elem_of_fmap. exact (column_of_resource _ Hr _ _ Hd).
Qed.

Lemma named_row_find r row name :
  resource_valid r ->
  find_column name (named_row r row)
  = (fun column => default LogicalValue.Null (row !! cd_id column)) <$> scope_columns (columns r) !! name.
Proof.
  intros Hr. rewrite scope_columns_find by by apply resource_names_distinct.
  unfold find_column, named_row. rewrite find_map. by destruct (List.find _ _).
Qed.

Lemma scope_columns_elem r name c :
  resource_valid r -> scope_columns (columns r) !! name = Some c ->
  c ∈ columns r /\ column_name c = name.
Proof.
  intros Hr. rewrite scope_columns_find by by apply resource_names_distinct.
  intros [Hc Hn]%find_some. split; [by apply list_elem_of_In|by apply String.eqb_eq].
Qed.

(** ** Scopes and rows *)

(** The row an entry stands for is the row of the resource of its scope. *)
Definition entry_reads (env : Env) (scope : SourceScope) (entry : Entry) : Prop :=
  en_name entry = sc_qualifier scope /\
  forall name, find_column name (en_columns entry)
    = (fun column => column_value env (cd_id column)) <$> sc_columns scope !! name.
Definition env_reads (env : Env) : list SourceScope -> QueryEnv -> Prop :=
  Forall2 (entry_reads env).

Record scope_ok (scope : SourceScope) : Prop := {
  scope_canonical : canonical (sc_qualifier scope) = sc_qualifier scope;
  scope_column name column :
    sc_columns scope !! name = Some column ->
    column_resource (cd_id column) = rd_id (sc_resource scope)
}.
(** Every scope is one of its resource, and no two have the same name. *)
Definition scopes_ok (scopes : list SourceScope) : Prop :=
  Forall scope_ok scopes /\ NoDup (map sc_qualifier scopes).

Lemma scopes_ok_app scopes scope :
  scopes_ok scopes -> scope_ok scope -> sc_qualifier scope ∉ map sc_qualifier scopes ->
  scopes_ok (scopes ++ [scope]).
Proof.
  intros [Hs Hn] Ho Hq. split; [by apply Forall_app; split; [|constructor]|].
  rewrite map_app. apply NoDup_app. split; [done|]. split; [|apply NoDup_singleton].
  by intros q Hin ->%list_elem_of_singleton.
Qed.

(** The row of another resource changes nothing. *)
Lemma entry_reads_insert env r row scope entry :
  scope_ok scope -> r <> rd_id (sc_resource scope) ->
  entry_reads env scope entry -> entry_reads (<[r := row]> env) scope entry.
Proof.
  intros Hs Hr [Hq Hc]. split; [done|]. intros name. rewrite Hc.
  destruct (sc_columns scope !! name) as [c|] eqn:E; [|done]. simpl. f_equal.
  unfold column_value. by rewrite (scope_column _ Hs _ _ E), lookup_insert_ne.
Qed.

Lemma env_reads_insert env r row scopes entries :
  Forall scope_ok scopes -> r ∉ map (fun scope => rd_id (sc_resource scope)) scopes ->
  env_reads env scopes entries -> env_reads (<[r := row]> env) scopes entries.
Proof.
  intros Hs Hr He. induction He as [|scope entry scopes entries He _ IH]; [constructor|].
  apply Forall_cons in Hs as [Hso Hs]. apply not_elem_of_cons in Hr as [Hne Hr].
  constructor; [by apply entry_reads_insert|by apply IH].
Qed.

(** A row beside which another is read. *)
Lemma env_reads_join env r row scopes entries scope entry :
  Forall scope_ok scopes -> r ∉ map (fun scope => rd_id (sc_resource scope)) scopes ->
  env_reads env scopes entries -> entry_reads (<[r := row]> env) scope entry ->
  env_reads (<[r := row]> env) (scopes ++ [scope]) (entries ++ [entry]).
Proof.
  intros Hs Hr He Hentry. apply Forall2_app; [by apply env_reads_insert|].
  by constructor.
Qed.

(** ** Induction on syntax trees *)

(** The expressions that are bound inside an expression. *)
Definition children (e : SqlExpr) : list SqlExpr :=
  match e with
  | SqlExpr.Binary l _ r | SqlExpr.Like l _ _ r _ => [l; r]
  | SqlExpr.Unary _ inner | SqlExpr.IsNull inner | SqlExpr.NotNull inner
  | SqlExpr.Cast inner _ => [inner]
  | SqlExpr.Parenthesized es | SqlExpr.FunctionCall _ _ es _ _ _ => es
  | SqlExpr.InList lhs _ rhs => lhs :: rhs
  | SqlExpr.Case _ pairs otherwise =>
      flat_map (fun pair => [pair.1; pair.2]) pairs ++ option_list otherwise
  | SqlExpr.Exists (SqlExpr.Build_Select _ (SqlExpr.OneSelect _ _ _ predicate _ _) _ _ _) =>
      option_list predicate
  | _ => []
  end.

Lemma Forall_pairs {A} (P : A -> Prop) pairs :
  Forall (fun pair => P pair.1 /\ P pair.2) pairs ->
  Forall P (flat_map (fun pair => [pair.1; pair.2]) pairs).
Proof. induction 1 as [|pair pairs [H1 H2] _ IH]; simpl; by repeat constructor. Qed.

Lemma Forall_option_list {A} (P : A -> Prop) o : option_holds P o <-> Forall P (option_list o).
Proof. destruct o; simpl; [by rewrite Forall_singleton|by split]. Qed.

Lemma sql_expr_children_ind (P : SqlExpr -> Prop) :
  (forall e, Forall P (children e) -> P e) -> forall e, P e.
Proof.
  intros step. fix IH 1. intros e. apply step.
  destruct e as [| | | | | |l ? r|? i|es|i|i| | |l ? r| |l ? ? r ?|i ?|? pairs otherwise|? ? args| |query| |];
    cbn [children]; try exact (Forall_nil_2 _).
  - exact (Forall_cons_2 _ _ _ (IH l) (Forall_cons_2 _ _ _ (IH r) (Forall_nil_2 _))).
  - exact (Forall_cons_2 _ _ _ (IH i) (Forall_nil_2 _)).
  - exact (all_of P IH es).
  - exact (Forall_cons_2 _ _ _ (IH i) (Forall_nil_2 _)).
  - exact (Forall_cons_2 _ _ _ (IH i) (Forall_nil_2 _)).
  - exact (Forall_cons_2 _ _ _ (IH l) (all_of P IH r)).
  - exact (Forall_cons_2 _ _ _ (IH l) (Forall_cons_2 _ _ _ (IH r) (Forall_nil_2 _))).
  - exact (Forall_cons_2 _ _ _ (IH i) (Forall_nil_2 _)).
  - apply Forall_app_2; [|exact (proj1 (Forall_option_list _ _) (some_of P IH otherwise))].
    exact (Forall_pairs _ _ (all_of _ (fun pair => conj (IH pair.1) (IH pair.2)) pairs)).
  - exact (all_of P IH args).
  - destruct query as [? [? ? ? predicate ? ?|] ? ? ?]; [|exact (Forall_nil_2 _)].
    exact (proj1 (Forall_option_list _ _) (some_of P IH predicate)).
Qed.

Section facts.
Context `{Engine} `{Dialect} (catalog : Catalog) (Hcatalog : catalog_built catalog).
Context (db : Database) (params : Params).

Abbreviation meant := (eval db params).
Abbreviation said := (query_eval catalog db (parameter (client_values params))).

(** ** Sources *)

(** The scope of a table and what its source gives on a row. *)
Record source_bound (table : SelectTable) (scope : SourceScope) : Prop := {
  bound_scope : scope_ok scope;
  bound_named name c : sc_columns scope !! name = Some c -> column_name c = name;
  bound_qualifier : exists name alias indexed,
    table = SqlExpr.Table name alias indexed /\ sc_qualifier scope = source_name name alias;
  bound_entry : exists entry : Row -> Entry,
    table_source catalog db table
    = {| so_rows := map entry (db (rd_id (sc_resource scope))); so_absent := entry ∅ |}
    /\ forall env row, default ∅ (env !! rd_id (sc_resource scope)) = row ->
       entry_reads env scope (entry row)
}.

Lemma alias_name_explicit alias : alias_name alias = canonical <$> explicit_alias alias.
Proof. destruct alias as [[[] name]|]; done. Qed.

Lemma source_name_canonical name alias : canonical (source_name name alias) = source_name name alias.
Proof.
  unfold source_name. rewrite alias_name_explicit.
  destruct (explicit_alias alias); apply canonical_idemp.
Qed.

Lemma catalog_resource_name name r :
  resource catalog name = Some r -> canonical (rd_name r) = canonical name /\ resource_valid r.
Proof.
  intros Hr. split; [|by eapply catalog_built_valid]. destruct Hcatalog as (snapshot & rs & Hc & _).
  by apply (catalog_new_spec _ _ _ _ _ Hc) in Hr as [_ ->].
Qed.

Lemma row_read r env row c :
  resource_valid r -> c ∈ columns r -> default ∅ (env !! rd_id r) = row ->
  default LogicalValue.Null (row !! cd_id c) = column_value env (cd_id c).
Proof.
  intros Hr Hc <-. unfold column_value. rewrite (resource_column _ _ Hr Hc).
  by destruct (env !! rd_id r).
Qed.

Lemma bind_source_bound table scope :
  bind_source catalog table = inl scope -> source_bound table scope.
Proof.
  unfold bind_source. destruct table as [name alias indexed| | |]; try done.
  intros [_ Hb]%require_bind. apply require_bind in Hb as [_ Hb].
  apply result_bind_inl in Hb as [r [Hr%ok_or_inl [= <-]]].
  destruct (catalog_resource_name _ _ Hr) as [Hname Hvalid].
  assert (Hq : default (canonical (rd_name r)) (canonical <$> explicit_alias alias)
    = source_name name alias) by (unfold source_name; by rewrite alias_name_explicit, Hname).
  split; cbn [sc_resource sc_qualifier sc_columns].
  - split; cbn [sc_resource sc_qualifier sc_columns]; rewrite ?Hq.
    + apply source_name_canonical.
    + intros n c Hc. apply scope_columns_elem in Hc as [Hc _]; [|done]. by apply resource_column.
  - intros n c Hc. by apply scope_columns_elem in Hc as [_ Hc].
  - by exists name, alias, indexed.
  - exists (fun row => {| en_name := source_name name alias; en_columns := named_row r row |}).
    split; [unfold table_source; by rewrite Hr|]. intros env row Hrow. split; [done|]. intros n.
    cbn [sc_columns en_columns]. rewrite named_row_find by done.
    destruct (scope_columns (columns r) !! n) as [c|] eqn:Ec; [|done]. simpl. f_equal.
    apply scope_columns_elem in Ec as [Hc _]; [|done]. by apply (row_read r).
Qed.

(** ** Names *)

(** What an expression that is bound means: what it says, in every frame of its scopes; and it
    counts rows if it says so. *)
Record frames_agree (scopes : list SourceScope) (f : Frame) (qf : QueryFrame) : Prop := {
  agree_env : env_reads (fr_env f) scopes (qf_env qf);
  agree_count : fr_count f = qf_count qf;
  agree_window : Forall2 (fun env => env_reads env scopes) (fr_window f) (qf_window qf);
  agree_index : fr_index f = qf_index qf
}.
Definition agrees (scopes : list SourceScope) (e : SqlExpr) (b : BoundExpr) : Prop :=
  counts b = counts_star e /\ forall f qf, frames_agree scopes f qf -> meant f b = said qf e.

Lemma frames_agree_of scopes env entries :
  env_reads env scopes entries -> frames_agree scopes (frame_of env) (query_frame_of entries).
Proof. intros He. split; [done|done|constructor|done]. Qed.

Lemma bare_reads env scopes entries name c :
  env_reads env scopes entries -> omap (fun scope => sc_columns scope !! name) scopes = [c] ->
  bare_column entries name = column_value env (cd_id c).
Proof.
  intros He Ho. unfold bare_column. rewrite first_some_head, omap_rev.
  replace (omap _ entries) with [column_value env (cd_id c)]; [done|].
  change [column_value env (cd_id c)] with (map (fun c => column_value env (cd_id c)) [c]).
  rewrite <- Ho. clear Ho. induction He as [|scope entry scopes entries [_ He] _ IH]; [done|].
  cbn. rewrite He. destruct (sc_columns scope !! name); cbn; by rewrite IH.
Qed.

Lemma qualified_reads env scopes entries source name scope c :
  scopes_ok scopes -> env_reads env scopes entries ->
  List.find (fun scope => eq_ignore_ascii_case (sc_qualifier scope) source) scopes = Some scope ->
  sc_columns scope !! name = Some c ->
  qualified_column entries (canonical source) name = column_value env (cd_id c).
Proof.
  intros [Hs Hn] He [Hin Hq]%find_some Hc. apply list_elem_of_In, list_elem_of_lookup in Hin as [i Hi].
  destruct (Forall2_lookup_l _ _ _ _ _ He Hi) as (entry & Hentry & Hname & Hcol).
  assert (Hsource : sc_qualifier scope = canonical source).
  { apply String.eqb_eq in Hq. unfold canonical in *.
    by rewrite <- (scope_canonical scope) by by eapply Forall_lookup_1. }
  unfold qualified_column. rewrite (find_unique _ _ entry).
  - simpl. by rewrite Hcol, Hc.
  - apply list_elem_of_In, in_rev. rewrite rev_involutive.
    apply list_elem_of_In. by eapply list_elem_of_lookup_2.
  - by rewrite Hname, Hsource, String.eqb_refl.
  - intros entry' Hin Heq. apply String.eqb_eq in Heq.
    apply list_elem_of_In, in_rev, list_elem_of_In, list_elem_of_lookup in Hin as [j Hj].
    destruct (Forall2_lookup_r _ _ _ _ _ He Hj) as (scope' & Hscope' & Hname' & _).
    assert (i = j) as <-; [|congruence].
    eapply (NoDup_lookup _ _ _ (sc_qualifier scope) Hn); rewrite list_lookup_fmap.
    + by rewrite Hi.
    + rewrite Hscope'. simpl. congruence.
Qed.

Lemma resolve_agrees scopes e c usage :
  scopes_ok scopes -> resolve_direct_column scopes e = inl c ->
  agrees scopes e (BoundExpr.Column (bound_column c usage)).
Proof.
  intros Hs Hr. unfold resolve_direct_column in Hr.
  destruct e; try done; (split; [done|]); intros f qf [He _ _ _];
    cbn [direct_name mret result_ret mbind result_bind] in Hr; case_bool_decide; try done; cbn [eval query_eval]; symmetry.
  - destruct (omap _ scopes) as [|c' [|]] eqn:Ho; try done. injection Hr as ->. by eapply bare_reads.
  - destruct (omap _ scopes) as [|c' [|]] eqn:Ho; try done. injection Hr as ->. by eapply bare_reads.
  - apply result_bind_inl in Hr as [scope [Hf%ok_or_inl Hc%ok_or_inl]]. by eapply qualified_reads.
Qed.

(** ** The parts of an expression *)

Context (limits : BindingLimits).

Abbreviation bound_as scopes e := (fun b : BoundExpr * LogicalType => agrees scopes e b.1).
Definition boolean_ok (scopes : list SourceScope) (usage : ColumnUsage.column_usage) (e : SqlExpr)
    : Prop :=
  forall depth, yields (bind_boolean limits catalog scopes usage depth e) (agrees scopes e).
Definition scalar_ok (scopes : list SourceScope) (usage : ColumnUsage.column_usage) (e : SqlExpr)
    : Prop :=
  forall expected depth,
  yields (bind_scalar limits catalog scopes usage expected depth e) (bound_as scopes e).

Lemma yields_all {A B} (f : A -> binding B) (R : A -> B -> Prop) l :
  Forall (fun a => yields (f a) (R a)) l -> yields (bind_all f l) (Forall2 R l).
Proof.
  induction 1 as [|a l Ha _ IH]; simpl; [apply yields_ret; constructor|].
  eapply yields_bind; [exact Ha|]. intros b Hb. eapply yields_bind; [exact IH|]. intros bs Hbs.
  apply yields_ret. by constructor.
Qed.

Lemma yields_zip {A B C} (f : A -> B -> binding C) (R : A -> C -> Prop) l : forall ks,
  Forall (fun a => forall k, yields (f a k) (R a)) l -> length l = length ks ->
  yields (bind_zip f l ks) (Forall2 R l).
Proof.
  induction l as [|a l IH]; intros [|k ks] Hl Hlen; try done; simpl; [apply yields_ret; constructor|].
  apply Forall_cons in Hl as [Ha Hl]. eapply yields_bind; [exact (Ha k)|]. intros c Hc.
  eapply yields_bind; [apply IH; [done|by injection Hlen]|]. intros cs Hcs.
  apply yields_ret. by constructor.
Qed.

Lemma yields_option {A B} (f : A -> binding B) (R : A -> B -> Prop) o :
  option_holds (fun a => yields (f a) (R a)) o -> yields (bind_option f o) (option_Forall2 R o).
Proof.
  destruct o as [a|]; simpl; intros Ha; [|apply yields_ret; constructor].
  eapply yields_bind; [exact Ha|]. intros b Hb. apply yields_ret. by constructor.
Qed.

Lemma agrees_list scopes es bs f qf :
  Forall2 (agrees scopes) es bs -> frames_agree scopes f qf ->
  map (meant f) bs = map (said qf) es.
Proof.
  intros He Hf. induction He as [|e b es bs [_ He] _ IH]; [done|]. simpl. by rewrite IH, (He f qf Hf).
Qed.

Lemma agrees_counts scopes es bs :
  Forall2 (agrees scopes) es bs -> existsb counts bs = existsb counts_star es.
Proof. induction 1 as [|e b es bs [He _] _ IH]; [done|]. simpl. by rewrite He, IH. Qed.

(** An expression made of others that agree. *)
Ltac agree_node :=
  repeat match goal with
         | H : agrees _ _ _ |- _ => let E := fresh "E" in destruct H as [E H]; simpl in E, H
         end;
  split; [simpl; rewrite ?orb_false_r; congruence|];
  intros f qf Hf;
  repeat match goal with
         | H : forall f qf, frames_agree _ f qf -> _ |- _ => specialize (H f qf Hf)
         end;
  simpl; congruence.

Section parts.
Context (scopes : list SourceScope).
Context (scalar : option LogicalType -> SqlExpr -> binding (BoundExpr * LogicalType)).

Abbreviation reads e := (forall expected, yields (scalar expected e) (bound_as scopes e)).

Lemma comparison_agrees l r :
  reads l -> reads r ->
  yields (bind_comparison scalar l r) (fun b => agrees scopes l b.1 /\ agrees scopes r b.2).
Proof.
  intros Hl Hr. unfold bind_comparison. destruct (_ && _); [by intros ? ? ?|]. case_match.
  - eapply yields_bind; [apply Hr|]. intros [br tr] Hbr. eapply yields_bind; [apply Hl|].
    intros [bl tl] Hbl. by apply yields_ret.
  - eapply yields_bind; [apply Hl|]. intros [bl tl] Hbl. eapply yields_bind; [apply Hr|].
    intros [br tr] Hbr. case_bool_decide; [by apply yields_ret|by intros ? ? ?].
Qed.

Lemma in_list_agrees lhs negated rhs :
  reads lhs -> Forall (fun e => reads e) rhs ->
  yields (bind_in_list scalar lhs negated rhs) (agrees scopes (SqlExpr.InList lhs negated rhs)).
Proof.
  intros Hl Hr. unfold bind_in_list. eapply yields_bind with (P := bound_as scopes lhs).
  - case_match; [|apply Hl]. eapply yields_bind; [by apply yields_any|]. intros [b t] _. apply Hl.
  - intros [b t] Hb. eapply yields_bind; [apply (yields_all _ (agrees scopes))|].
    + eapply Forall_impl; [exact Hr|]. intros e He. eapply yields_bind; [apply He|].
      intros [b' t'] Hb'. by apply yields_ret.
    + intros bs Hbs. apply yields_ret. destruct Hb as [Hcb Hb]. simpl in *. split.
      { simpl. by rewrite Hcb, (agrees_counts _ _ _ Hbs). }
      intros f qf Hf. cbn [eval query_eval]. by rewrite (Hb _ _ Hf), (agrees_list _ _ _ _ _ Hbs Hf).
Qed.

Lemma concat_agrees expected l r :
  reads l -> reads r ->
  yields (bind_concat scalar expected l r) (bound_as scopes (SqlExpr.Binary l SqlOperator.Concat r)).
Proof.
  intros Hl Hr. unfold bind_concat. case_match; [by intros ? ? ?|].
  eapply yields_bind; [apply Hl|]. intros [bl tl] Hbl.
  eapply yields_bind; [apply Hr|]. intros [br tr] Hbr. apply yields_ret.
  agree_node.
Qed.

Lemma cast_agrees expected type e :
  reads e -> yields (bind_cast_text scalar expected type e) (bound_as scopes (SqlExpr.Cast e type)).
Proof.
  intros He. unfold bind_cast_text. destruct type as [type|]; [|by intros ? ? ?].
  case_match; [by intros ? ? ?|]. eapply yields_bind; [apply He|]. intros [b t] Hb.
  apply yields_ret. agree_node.
Qed.

Lemma branches_agree condition pairs :
  Forall (fun pair => yields (condition pair.1) (agrees scopes pair.1) /\ reads pair.2) pairs ->
  forall t, yields (bind_branches scalar condition t pairs) (fun b =>
    Forall2 (fun pair branch => agrees scopes pair.1 branch.1 /\ agrees scopes pair.2 branch.2)
      pairs b.1).
Proof.
  induction 1 as [|[when result] pairs [Hw Hr] _ IH]; intros t; simpl; [apply yields_ret; constructor|].
  eapply yields_bind; [exact Hw|]. intros bw Hbw. eapply yields_bind; [apply Hr|].
  intros [br tr] Hbr. eapply yields_bind; [apply IH|]. intros [branches t'] Hb.
  apply yields_ret. by constructor.
Qed.

Lemma case_agrees condition expected pairs otherwise :
  Forall (fun pair => yields (condition pair.1) (agrees scopes pair.1) /\ reads pair.2) pairs ->
  option_holds (fun e => reads e) otherwise ->
  yields (bind_case scalar condition expected pairs otherwise)
    (bound_as scopes (SqlExpr.Case None pairs otherwise)).
Proof.
  intros Hp Ho. unfold bind_case. eapply yields_bind; [by apply branches_agree|].
  intros [branches t] Hb. eapply yields_bind; [by apply yields_any|]. intros t' _.
  eapply yields_bind; [apply (yields_option _ (agrees scopes))|].
  - eapply option_holds_impl; [exact Ho|]. intros e He. eapply yields_bind; [apply He|].
    intros [b tb] Hbb. by apply yields_ret.
  - intros o Hbo. apply yields_ret. simpl in Hb. split.
    { simpl. f_equal; [|by destruct Hbo as [e b [Hbb _]|]].
      clear -Hb. induction Hb as [|pair branch pairs branches [[Hw _] [Hr _]] _ IH]; [done|].
      simpl. by rewrite Hw, Hr, IH. }
    intros f qf Hf. cbn [fst eval query_eval]. f_equal.
    + clear -Hb Hf. induction Hb as [|pair branch pairs branches [[_ Hw] [_ Hr]] _ IH]; [done|].
      simpl in *. by rewrite IH, (Hw _ _ Hf), (Hr _ _ Hf).
    + destruct Hbo as [e b [_ Hbb]|]; [by rewrite (Hbb _ _ Hf)|done].
Qed.

Lemma registered_agrees expected name args tail distinctness order_by within_group :
  Forall (fun e => reads e) args -> over_clause tail = None ->
  yields (bind_registered_scalar scalar expected (as_str name) args)
    (bound_as scopes (SqlExpr.FunctionCall name distinctness args order_by within_group tail)).
Proof.
  intros Ha Ht. unfold bind_registered_scalar. eapply yields_bind; [apply yields_lift|].
  intros [[g signature] t] Hg. destruct (_ || _) eqn:Hlen; [by intros ? ? ?|].
  apply orb_false_iff in Hlen as [Hlen _]. apply negb_false_iff, Nat.eqb_eq in Hlen.
  eapply yields_bind; [apply (yields_zip _ (agrees scopes)); [|done]|].
  - eapply Forall_impl; [exact Ha|]. intros e He k. eapply yields_bind; [apply He|].
    intros [b tb] Hb. by apply yields_ret.
  - intros bs Hbs. apply yields_ret. split; [apply (agrees_counts _ _ _ Hbs)|].
    intros f qf Hf. cbn [fst eval query_eval]. rewrite Ht.
    rewrite (agrees_list _ _ _ _ _ Hbs Hf). unfold query_function.
    unfold registered_scalar in Hg. repeat (case_match; try done); by injection Hg as <- _ _.
Qed.
End parts.

(** ** Expressions *)

Lemma parameter_agrees scopes expected variable :
  yields (bind_parameter limits expected variable) (bound_as scopes (SqlExpr.VariableExpr variable)).
Proof.
  intros t b t' Hb. unfold bind_parameter in Hb.
  apply result_bind_inl in Hb as [raw [Hraw%ok_or_inl Hb]].
  apply result_bind_inl in Hb as [name [Hname%ok_or_inl Hb]].
  apply result_bind_inl in Hb as [name' [Hnew Hb]].
  apply result_bind_inl in Hb as [type [_ Hb]]. case_match; [done|]. injection Hb as <- _.
  assert (name' = name) as ->.
  { destruct (client_parameter_name_new name) as [n|[]] eqn:E; try done. injection Hnew as <-.
    unfold client_parameter_name_new in E. repeat case_match; try done. by injection E. }
  split; [done|]. intros f qf Hf. cbn [fst eval query_eval]. rewrite Hraw. cbn [mbind option_bind]. by rewrite Hname.
Qed.

Lemma literal_agrees scopes literal expected b :
  bind_literal literal expected = inl b -> agrees scopes (SqlExpr.Literal literal) b.1.
Proof.
  intros Hb. unfold bind_literal in Hb. apply result_bind_inl in Hb as [[v t] [Hv Hb]].
  case_match; [|done]. injection Hb as <-. split; [done|]. intros f qf _. cbn [fst eval query_eval query_literal].
  destruct literal as [raw|token| | | |]; try done; simpl in Hv.
  - change (query_literal _) with (numeral raw). unfold numeral.
    destruct (parse_i64 raw); [by injection Hv as <- _|].
    apply result_bind_inl in Hv as [x [Hx%ok_or_inl Hv]]. rewrite Hx. by injection Hv as <- _.
  - apply result_bind_inl in Hv as [s [Hs Hv]]. injection Hv as <- _.
    simpl. by rewrite (string_value_decoded _ _ Hs).
  - by injection Hv as <- _.
  - by injection Hv as <- _.
Qed.

Lemma is_null_literal_null e : is_null_literal e = true -> e = SqlExpr.Literal SqlLiteral.Null.
Proof. by destruct e as [| | | | |[]| | | | | | | | | | | | | | | | |]. Qed.

Lemma boolean_step scopes usage e :
  (forall query, e <> SqlExpr.Exists query) ->
  Forall (fun e => boolean_ok scopes usage e /\ scalar_ok scopes usage e) (children e) ->
  boolean_ok scopes usage e.
Proof.
  intros Hne Hc depth.
  assert (Hcompare : forall l r, scalar_ok scopes usage l -> scalar_ok scopes usage r ->
    yields (bind_comparison (fun expected => bind_scalar limits catalog scopes usage expected
      (depth + 1)) l r) (fun b => agrees scopes l b.1 /\ agrees scopes r b.2)).
  { intros l r Hl Hr. apply comparison_agrees; intros expected; [apply Hl|apply Hr]. }
  destruct e as [| | | | | |l op r|op i|es|i|i| | |lhs negated rhs| |l negated op r escape| | | | |query| |];
    cbn [bind_boolean]; (eapply yields_bind; [by apply yields_any|]); intros [] _; try (by intros ? ? ?);
    cbn [children] in Hc.
  - apply Forall_cons in Hc as [[Hbl Hl] Hc]. apply Forall_cons in Hc as [[Hbr Hr] _].
    destruct op; cbn [comparison]; try (by intros ? ? ?);
      try (eapply yields_bind; [by apply Hcompare|]; intros [bl br] [El Er]; apply yields_ret;
           agree_node);
      try (eapply yields_bind; [apply Hbl|]; intros bl El;
           eapply yields_bind; [apply Hbr|]; intros br Er; apply yields_ret; agree_node);
      (destruct (is_null_literal r) eqn:Enull; [|by intros ? ? ?]);
      apply is_null_literal_null in Enull as ->;
      (eapply yields_bind; [apply Hl|]; intros [bl tl] El; apply yields_ret; agree_node).
  - apply Forall_singleton in Hc as [Hb _]. destruct op; try (by intros ? ? ?).
    eapply yields_bind; [apply Hb|]. intros b Eb. apply yields_ret. agree_node.
  - destruct es as [|e [|]]; try (by intros ? ? ?). apply Forall_singleton in Hc as [Hb _].
    intros t b t' Hbt. destruct (Hb _ _ _ _ Hbt) as [Hcb Hv]. split; [|done].
    simpl. by rewrite orb_false_r.
  - apply Forall_singleton in Hc as [_ Hs]. eapply yields_bind; [apply Hs|]. intros [b tb] Eb.
    apply yields_ret. agree_node.
  - apply Forall_singleton in Hc as [_ Hs]. eapply yields_bind; [apply Hs|]. intros [b tb] Eb.
    apply yields_ret. agree_node.
  - apply Forall_cons in Hc as [[_ Hl] Hc]. destruct rhs as [|r rhs]; [by intros ? ? ?|].
    apply in_list_agrees; [intros expected; apply Hl|]. eapply Forall_impl; [exact Hc|].
    intros e [_ He] expected. apply He.
  - apply Forall_cons in Hc as [[_ Hl] Hc]. apply Forall_cons in Hc as [[_ Hr] _].
    destruct escape; [by intros ? ? ?|]. destruct op; cbn [like_expression]; [..|by intros ? ? ?].
    all: eapply yields_bind; [by apply Hcompare|]; intros [bl br] [El Er]; apply yields_ret;
      destruct negated; agree_node.
  - by destruct (Hne query).
Qed.

Lemma scalar_step scopes usage e :
  scopes_ok scopes ->
  Forall (fun e => boolean_ok scopes usage e /\ scalar_ok scopes usage e) (children e) ->
  scalar_ok scopes usage e.
Proof.
  intros Hs Hc expected depth.
  destruct e as [| | | |variable|literal|l op r| |es| | | | | | | |i type|base pairs otherwise
    |name distinctness args order_by within_group tail| | | |];
    cbn [bind_scalar]; (eapply yields_bind; [by apply yields_any|]); intros [] _; try (by intros ? ? ?);
    cbn [children] in Hc.
  1-3: eapply yields_bind; [apply yields_lift|]; intros c Hr; case_match; [|by intros ? ? ?];
    apply yields_ret; by apply resolve_agrees.
  - apply parameter_agrees.
  - eapply yields_bind; [apply yields_lift|]. intros [b t] Hb.
    eapply yields_bind; [by apply yields_any|]. intros _ _. apply yields_ret.
    by apply (literal_agrees _ _ _ _ Hb).
  - apply Forall_cons in Hc as [[_ Hl] Hc]. apply Forall_cons in Hc as [[_ Hr] _].
    destruct op; try (by intros ? ? ?). apply concat_agrees; intros; [apply Hl|apply Hr].
  - destruct es as [|e [|]]; try (by intros ? ? ?). apply Forall_singleton in Hc as [_ Hb].
    intros t b t' Hbt. destruct (Hb _ _ _ _ _ Hbt) as [Hcb Hv]. split; [|done].
    simpl. by rewrite orb_false_r.
  - apply Forall_singleton in Hc as [_ Hi]. apply cast_agrees. intros; apply Hi.
  - destruct base; [by intros ? ? ?|]. destruct pairs as [|pair pairs]; [by intros ? ? ?|].
    apply Forall_app in Hc as [Hp Ho]. apply case_agrees.
    + clear Ho. induction (pair :: pairs) as [|p ps IH]; [constructor|]. simpl in Hp.
      apply Forall_cons in Hp as [[Hw _] Hp]. apply Forall_cons in Hp as [[_ Hr] Hp].
      constructor; [|by apply IH]. split; [apply Hw|intros; apply Hr].
    + apply Forall_option_list in Ho. eapply option_holds_impl; [exact Ho|]. intros e [_ He] ?. apply He.
  - destruct distinctness, order_by, within_group; try (by intros ? ? ?).
    destruct (plain_tail tail) eqn:Et; [|by intros ? ? ?]. apply registered_agrees.
    + eapply Forall_impl; [exact Hc|]. intros e [_ He] ?. apply He.
    + unfold plain_tail in Et. by destruct (filter_clause tail), (over_clause tail).
  - case_match; [|by intros ? ? ?]. eapply yields_bind; [by apply yields_any|]. intros r _.
    apply yields_ret. split; [done|]. intros f qf Hf. simpl. by rewrite (agree_count _ _ _ Hf).
Qed.

(** ** Rows *)

(** Combinations of rows, and what the sources give for them. *)
Definition rows_read (scopes : list SourceScope) : list Env -> list QueryEnv -> Prop :=
  Forall2 (fun env => env_reads env scopes).

Lemma filter_related {A B} (R : A -> B -> Prop) p q la lb :
  Forall2 R la lb -> (forall a b, R a b -> p a = q b) ->
  Forall2 R (List.filter p la) (List.filter q lb).
Proof.
  intros Hl Hpq. induction Hl as [|a b la lb Hab _ IH]; simpl; [constructor|].
  rewrite <- (Hpq _ _ Hab). destruct (p a); [by constructor|done].
Qed.

Lemma agrees_env scopes e b env entries :
  agrees scopes e b -> env_reads env scopes entries ->
  meant (frame_of env) b = said (query_frame_of entries) e.
Proof. intros Ha He. by apply Ha, frames_agree_of. Qed.

Lemma where_rows scopes s predicate joins entries env qenv :
  option_Forall2 (agrees scopes) predicate (bs_predicate s) ->
  rows_read scopes
    (joined_rows db (fun env => meant (frame_of env))
       (map (fun row => <[bs_resource s := row]> env) (db (bs_resource s))) (bs_joins s))
    (query_joined_rows catalog db (fun env => said (query_frame_of env))
       (map (fun entry => qenv ++ [entry]) entries) joins) ->
  rows_read scopes (source_rows db (fun env => meant (frame_of env)) s env)
    (query_source_rows catalog db (fun env => said (query_frame_of env)) entries joins predicate qenv).
Proof.
  intros Hp Hr. apply filter_related; [exact Hr|]. intros env' qenv' He.
  unfold where_holds, query_where. destruct Hp as [e b Hb|]; [|done].
  by rewrite (agrees_env _ _ _ _ _ Hb He).
Qed.

Lemma extended_rows scopes source entry rows env qenv :
  Forall scope_ok scopes ->
  rd_id (sc_resource source) ∉ map (fun scope => rd_id (sc_resource scope)) scopes ->
  (forall env row, default ∅ (env !! rd_id (sc_resource source)) = row ->
   entry_reads env source (entry row)) ->
  env_reads env scopes qenv ->
  rows_read (scopes ++ [source])
    (map (fun row => <[rd_id (sc_resource source) := row]> env) rows)
    (map (fun entry => qenv ++ [entry]) (map entry rows)).
Proof.
  intros Hs Hr Hentry He. induction rows as [|row rows IH]; [constructor|]. simpl.
  constructor; [|exact IH]. apply env_reads_join; [done..|]. apply Hentry.
  by rewrite lookup_insert_eq.
Qed.

Lemma resource_new scopes source :
  existsb (fun scope => (rd_id (sc_resource scope) =? rd_id (sc_resource source))%Z) scopes = false ->
  rd_id (sc_resource source) ∉ map (fun scope => rd_id (sc_resource scope)) scopes.
Proof.
  intros Hn Hin. apply not_true_iff_false in Hn. apply Hn, existsb_exists.
  apply list_elem_of_fmap in Hin as (scope & Heq & Hin). exists scope.
  split; [by apply list_elem_of_In|by apply Z.eqb_eq].
Qed.

Lemma exists_step scopes usage (query : SqlSelect) :
  (forall scopes, scopes_ok scopes -> forall usage e, e ∈ children (SqlExpr.Exists query) ->
   unshadowed (map sc_qualifier scopes) e = true -> boolean_ok scopes usage e) ->
  scopes_ok scopes -> unshadowed (map sc_qualifier scopes) (SqlExpr.Exists query) = true ->
  boolean_ok scopes usage (SqlExpr.Exists query).
Proof.
  intros IH Hs Hu depth. cbn [bind_boolean]. eapply yields_bind; [by apply yields_any|]. intros [] _.
  destruct query as [[] [[] columns from predicate [] []|] [] [] []]; cbn [bind_exists];
    (eapply yields_bind; [by apply yields_any|]); intros [] _; try (by intros ? ? ?).
  destruct from as [[table [|join joins]]|]; [|by intros ? ? ?..].
  eapply yields_bind; [apply yields_lift|]. intros source Hsource.
  destruct (existsb _ scopes) eqn:Hself; [by intros ? ? ?|].
  eapply yields_bind; [by apply yields_any|]. intros projections _.
  eapply yields_bind; [by apply yields_any|]. intros [] _.
  destruct (bind_source_bound _ _ Hsource) as [Hscope _ (name & alias & indexed & -> & Hq)
    (entry & Htable & Hentry)].
  cbn [unshadowed] in Hu. apply andb_true_iff in Hu as [Hn Hu].
  rewrite <- Hq in Hn, Hu. apply negb_true_iff, bool_decide_eq_false in Hn.
  assert (Hnested : scopes_ok (scopes ++ [source])) by by apply scopes_ok_app.
  eapply yields_bind; [apply (yields_option _ (agrees (scopes ++ [source])))|].
  { destruct predicate as [e|]; [|done]. simpl. apply IH; [done|by left|].
    by rewrite map_app. }
  intros b Hb. apply yields_ret. split; [done|]. intros f qf [He _ _ _].
  cbn [eval query_eval]. f_equal.
  assert (Hrows : rows_read (scopes ++ [source])
    (source_rows db (fun env => meant (frame_of env))
       {| bs_resource := rd_id (sc_resource source); bs_alias := sc_alias source; bs_joins := [];
          bs_projections := projections; bs_predicate := b; bs_group_by := []; bs_having := None;
          bs_order_by := []; bs_limit := None; bs_offset := None |} (fr_env f))
    (query_source_rows catalog db (fun env => said (query_frame_of env))
       (so_rows (table_source catalog db (SqlExpr.Table name alias indexed))) [] predicate
       (qf_env qf))).
  { apply where_rows; [done|]. rewrite Htable. simpl. apply extended_rows; [apply Hs|..|done|done].
    by apply resource_new. }
  unfold page. cbn [bs_limit bs_offset bounded]. rewrite skipn_O. by destruct Hrows.
Qed.


Lemma children_unshadowed names e :
  (forall query, e <> SqlExpr.Exists query) -> unshadowed names e = true ->
  Forall (fun e => unshadowed names e = true) (children e).
Proof.
  intros Hne Hu. destruct e as [| | | | | |l op r|op i|es|i|i| | |lhs negated rhs| |l negated op r escape
    |i type|base pairs otherwise|name distinctness args order_by within_group tail| |query| |];
    cbn [unshadowed children] in *; rewrite ?andb_true_iff in Hu; try (by constructor);
    try (by destruct Hu; repeat constructor); try (by repeat constructor);
    try (by apply Forall_forall; intros e He; eapply forallb_forall, list_elem_of_In).
  - destruct Hu as [Hl Hr]. constructor; [done|]. apply Forall_forall. intros e He.
    by eapply forallb_forall, list_elem_of_In.
  - destruct Hu as [Hp Ho]. apply Forall_app. split; [|by destruct otherwise; repeat constructor].
    apply Forall_pairs, Forall_forall. intros pair Hin. apply andb_true_iff.
    eapply (proj1 (forallb_forall _ _) Hp). by apply list_elem_of_In.
  - by destruct (Hne query).
Qed.

(** An expression that binds means what it says. *)
Lemma expressions_agree e : forall scopes usage,
  scopes_ok scopes -> unshadowed (map sc_qualifier scopes) e = true ->
  boolean_ok scopes usage e /\ scalar_ok scopes usage e.
Proof.
  induction e as [e IH] using sql_expr_children_ind. intros scopes usage Hs Hu.
  rewrite Forall_forall in IH.
  assert (Hexists : (exists query, e = SqlExpr.Exists query) \/ forall query, e <> SqlExpr.Exists query).
  { destruct e; try (by right); left; by eexists. }
  destruct Hexists as [[query ->]|Hne].
  - split; [|intros expected depth; cbn [bind_scalar];
      (eapply yields_bind; [by apply yields_any|]); intros [] _; by intros ? ? ?].
    apply exists_step; [|done|done]. intros scopes' Hs' usage' e He Hue. by apply IH.
  - assert (Hc : Forall (fun e => boolean_ok scopes usage e /\ scalar_ok scopes usage e) (children e)).
    { apply Forall_forall. intros c Hc. apply IH; [done|done|].
      by apply (proj1 (Forall_forall _ _) (children_unshadowed _ _ Hne Hu)). }
    split; [by apply boolean_step|by apply scalar_step].
Qed.
End facts.
