(* ===== verification/BinderFacts.v ===== *)
(** * What binding a query keeps

    Facts about Binder.v: the bound form of a query gives, on the rows of the resources, the rows
    the query says (SqlMeaning.v). *)

From S2P Require Import PolicyWorld.
From S2P Require Import Prelude Result F64 Utf8 Core Catalog Ir SqlAst Semantics SqlMeaning.
From S2P Require Import SqlMeaning Binding Binder BindFacts EmitFacts ProtectFacts.

Section facts.
Context `{EngineLaws} `{Dialect} (catalog : Catalog) (Hcatalog : catalog_built catalog).
Context (db : Database) (params : Params) (limits : BindingLimits).

Abbreviation meant := (eval db params).
Abbreviation values := (parameter (client_values params)).
Abbreviation full := (fun env => eval db params (frame_of env)).
Abbreviation said := (query_eval catalog db values).
Abbreviation told := (fun qenv => said (query_frame_of qenv)).
Abbreviation agrees := (agrees catalog db params).
Abbreviation scope_id := (fun scope => rd_id (sc_resource scope)).

(** ** Joins *)

Definition scope_named (scope : SourceScope) : Prop :=
  forall name c, sc_columns scope !! name = Some c -> column_name c = name.

Lemma join_kind_left operator kind :
  join_kind operator = inl kind -> is_left operator = bool_decide (kind = JoinKind.Left).
Proof. by destruct operator as [|[[]|]|]; intros [= <-]. Qed.

Lemma null_entry_reads env scopes qenv source entry :
  scopes_ok scopes -> rd_id (sc_resource source) ∉ map scope_id scopes ->
  (forall env row, default ∅ (env !! rd_id (sc_resource source)) = row ->
   entry_reads env source (entry row)) ->
  env_reads env scopes qenv ->
  env_reads (<[rd_id (sc_resource source) := ∅]> env) (scopes ++ [source]) (qenv ++ [entry ∅]).
Proof.
  intros [Hs _] Hr Hentry He. apply env_reads_join; [done..|]. apply Hentry.
  by rewrite lookup_insert_eq.
Qed.

Lemma join_rows_read scopes operator table e source kind on env qenv alias :
  scopes_ok scopes -> source_bound catalog db table source ->
  join_kind operator = inl kind -> rd_id (sc_resource source) ∉ map scope_id scopes ->
  agrees (scopes ++ [source]) e on -> env_reads env scopes qenv ->
  rows_read (scopes ++ [source])
    (join_rows db full
       {| bj_resource := rd_id (sc_resource source); bj_alias := alias; bj_kind := kind; bj_on := on |}
       env)
    (query_join_rows catalog db told (SqlExpr.Build_Joined operator table (Some (On e))) qenv).
Proof.
  intros Hs [Hscope _ _ (entry & Htable & Hentry)] Hk Hr Hon He.
  unfold join_rows, query_join_rows. cbn [bj_resource bj_kind bj_on]. rewrite Htable.
  cbn [so_rows so_absent]. rewrite (join_kind_left _ _ Hk).
  assert (Hm : rows_read (scopes ++ [source])
    (List.filter (fun env => is_true (full env on))
       (map (fun row => <[rd_id (sc_resource source) := row]> env) (db (rd_id (sc_resource source)))))
    (List.filter (fun env => is_true (told env e))
       (map (fun entry => qenv ++ [entry]) (map entry (db (rd_id (sc_resource source))))))).
  { apply filter_related; [apply extended_rows; [apply Hs|done..]|].
    intros env' qenv' He'. by rewrite (agrees_env _ _ _ _ _ _ _ _ Hon He'). }
  destruct Hm as [|env' qenv' envs qenvs He' Hm]; [|destruct kind; by constructor].
  destruct kind; simpl; [constructor|]. constructor; [|constructor]. by apply null_entry_reads.
Qed.

(** What the joins add to the scopes, and the rows they give. *)
Record joins_read (scopes : list SourceScope) (joins : list SqlExpr.joined_select_table)
    (bound : list BoundJoin) (after : list SourceScope) : Prop := {
  joins_ok : scopes_ok after;
  joins_named : map sc_qualifier after = (joins_unshadowed (map sc_qualifier scopes) joins).2;
  joins_added : exists added, after = scopes ++ added /\ Forall scope_named added
    /\ env_reads ∅ added (map so_absent (joined_sources catalog db joins));
  joins_elsewhere : Forall (fun join => bj_resource join ∉ map scope_id scopes) bound;
  joins_length : length bound = length joins;
  joins_rows envs qenvs : rows_read scopes envs qenvs ->
    rows_read after (joined_rows db full envs bound) (query_joined_rows catalog db told qenvs joins)
}.

Lemma rows_flat_map scopes scopes' (f : Env -> list Env) (g : QueryEnv -> list QueryEnv) envs qenvs :
  rows_read scopes envs qenvs ->
  (forall env qenv, env_reads env scopes qenv -> rows_read scopes' (f env) (g qenv)) ->
  rows_read scopes' (flat_map f envs) (flat_map g qenvs).
Proof.
  intros Hr Hfg. induction Hr as [|env qenv envs qenvs He _ IH]; [constructor|].
  simpl. apply Forall2_app; [by apply Hfg|done].
Qed.

Lemma qualifier_new scopes source :
  scopes_ok scopes -> scope_ok source ->
  existsb (fun scope => eq_ignore_ascii_case (sc_qualifier scope) (sc_qualifier source)) scopes
  = false -> sc_qualifier source ∉ map sc_qualifier scopes.
Proof.
  intros [Hs _] Hsource Hn Hin. apply not_true_iff_false in Hn. apply Hn, existsb_exists.
  apply list_elem_of_fmap in Hin as (scope & Heq & Hin). exists scope.
  split; [by apply list_elem_of_In|]. unfold eq_ignore_ascii_case. rewrite Heq. apply String.eqb_refl.
Qed.

Lemma bind_joins_read joins : forall scopes,
  scopes_ok scopes -> (joins_unshadowed (map sc_qualifier scopes) joins).1 = true ->
  yields (bind_joins limits catalog scopes joins)
    (fun bound => joins_read scopes joins bound.1 bound.2).
Proof.
  induction joins as [|[operator table c] joins IH]; intros scopes Hs Hu.
  { apply yields_ret. split; try done. exists []. rewrite app_nil_r. split; [done|].
    by split; constructor. }
  cbn [bind_joins]. eapply yields_bind; [apply yields_lift|]. intros kind Hk.
  eapply yields_bind; [apply yields_lift|].
  intros source Hsource%(bind_source_bound _ Hcatalog db).
  destruct (existsb _ scopes) eqn:Hself; [by intros ? ? ?|]. apply resource_new in Hself.
  destruct (existsb _ scopes) eqn:Hdup; [by intros ? ? ?|].
  destruct (bound_qualifier _ _ _ _ Hsource) as (name & alias & indexed & -> & Hq).
  assert (Hscope := bound_scope _ _ _ _ Hsource). apply qualifier_new in Hdup; [|done..].
  destruct c as [[e|]|]; [|by intros ? ? ?..].
  cbn [joins_unshadowed] in Hu. rewrite <- Hq in Hu.
  destruct (joins_unshadowed _ joins) as [ok after] eqn:Eu in Hu. simpl in Hu.
  apply andb_true_iff in Hu as [Hue Hu].
  assert (Hs' : scopes_ok (scopes ++ [source])) by by apply scopes_ok_app.
  replace (map _ scopes ++ _) with (map sc_qualifier (scopes ++ [source])) in * by by rewrite map_app.
  eapply yields_bind; [by eapply expressions_agree|]. intros on Hon.
  eapply yields_bind; [apply IH; [done|by rewrite Eu]|]. intros [bound scopes'] Hr.
  apply yields_ret. cbn [fst snd] in *. destruct Hr as [Hok Hnames (added & -> & Hadd & Habs) Helse Hlen Hrows].
  split; cbn [fst snd] in *; [done| | | | |].
  - rewrite Hnames, Eu. cbn [joins_unshadowed]. rewrite <- Hq.
    replace (map _ scopes ++ _) with (map sc_qualifier (scopes ++ [source])) by by rewrite map_app.
    by rewrite Eu.
  - exists (source :: added). split; [by rewrite <- app_assoc|].
    split; [constructor; [exact (bound_named _ _ _ _ Hsource)|done]|].
    constructor; [|done]. destruct (bound_entry _ _ _ _ Hsource) as (entry & -> & Hentry).
    by apply Hentry.
  - constructor; [done|]. eapply Forall_impl; [exact Helse|]. intros j Hj Hin. apply Hj.
    rewrite map_app. apply elem_of_app. by left.
  - simpl. by rewrite Hlen.
  - intros envs qenvs Hr. apply Hrows. eapply rows_flat_map; [exact Hr|].
    intros env qenv He. by eapply join_rows_read.
Qed.

(** ** The first source *)

(** The entries of the first source are the rows of the resource of its scope that a predicate
    holds on, and the predicate is about these rows alone. *)
Record root_read (root : SourceScope) (inherited : option BoundExpr) (source : Source) : Prop := {
  root_ok : scope_ok root;
  root_rows : exists entry : Row -> Entry,
    source = {| so_rows := map entry (List.filter (fun row =>
                  where_holds full inherited (<[scope_id root := row]> ∅)) (db (scope_id root)));
                so_absent := entry ∅ |}
    /\ forall env row, default ∅ (env !! scope_id root) = row -> entry_reads env root (entry row);
  root_inherited env env' : env !! scope_id root = env' !! scope_id root ->
    where_holds full inherited env = where_holds full inherited env'
}.

Lemma filter_all {A} (l : list A) : List.filter (fun _ => true) l = l.
Proof. induction l as [|a l IH]; simpl; by rewrite ?IH. Qed.

Lemma table_root_read table root :
  bind_source catalog table = inl root ->
  root_read root None (table_source catalog db table) /\ scope_named root.
Proof.
  intros [Hscope Hnamed _ (entry & -> & Hentry)]%(bind_source_bound _ Hcatalog db).
  split; [|done]. split; [done| |done]. exists entry. by rewrite filter_all.
Qed.

(** Rows joined to others stay what they are. *)
Lemma join_rows_kept resource join env env' :
  bj_resource join <> resource -> env' ∈ join_rows db full join env ->
  env' !! resource = env !! resource.
Proof.
  intros Hne Hin. unfold join_rows in Hin.
  assert (Hm : forall env', env' ∈ List.filter (fun env => is_true (full env (bj_on join)))
    (map (fun row => <[bj_resource join := row]> env) (db (bj_resource join))) ->
    env' !! resource = env !! resource).
  { intros env1 Hin1. apply list_elem_of_In, filter_In in Hin1 as [Hin1 _].
    apply in_map_iff in Hin1 as (row & <- & _). by rewrite lookup_insert_ne. }
  destruct (bj_kind join), (List.filter _ _) as [|env1 envs]; try (by apply Hm); [].
  apply list_elem_of_singleton in Hin as ->. by rewrite lookup_insert_ne.
Qed.

Lemma filter_const {A} (p : A -> bool) b l :
  (forall a, a ∈ l -> p a = b) -> List.filter p l = if b then l else [].
Proof.
  intros Hp. induction l as [|a l IH]; [by destruct b|]. simpl. rewrite (Hp a) by left.
  rewrite IH by (intros a' Ha; apply Hp; by right). by destruct b.
Qed.

Lemma filter_joined (p : Env -> bool) resource joins : forall envs,
  (forall env env', env !! resource = env' !! resource -> p env = p env') ->
  Forall (fun join => bj_resource join <> resource) joins ->
  List.filter p (joined_rows db full envs joins) = joined_rows db full (List.filter p envs) joins.
Proof.
  induction joins as [|join joins IH]; intros envs Hp Hj; [done|].
  apply Forall_cons in Hj as [Hne Hj]. simpl. rewrite IH by done. f_equal.
  rewrite filter_flat_map. induction envs as [|env envs IHe]; [done|]. simpl. rewrite IHe.
  rewrite (filter_const p (p env)).
  - by destruct (p env).
  - intros env' Hin. apply Hp. by eapply join_rows_kept.
Qed.

(** FROM, JOIN and WHERE of a bound select and of the query. *)
Lemma source_rows_read root inherited source joins predicate bound_predicate after s :
  root_read root inherited source -> joins_read [root] joins (bs_joins s) after ->
  bs_resource s = scope_id root ->
  bs_predicate s = and_inherited inherited bound_predicate ->
  option_Forall2 (agrees after) predicate bound_predicate ->
  rows_read after (source_rows db full s ∅)
    (query_source_rows catalog db told (so_rows source) joins predicate []).
Proof.
  intros [Hroot (entry & -> & Hentry) Hinh] [Hok _ _ Helse _ Hjoin] Hr Hpred Hp.
  set (inherits := where_holds full inherited). set (selects := where_holds full bound_predicate).
  assert (Hwhere : forall env, where_holds full (bs_predicate s) env = inherits env && selects env).
  { intros env. rewrite Hpred. unfold inherits, selects.
    destruct inherited, bound_predicate; simpl; rewrite ?is_true_and, ?andb_true_r; done. }
  unfold source_rows. rewrite Hr, (List.filter_ext _ _ Hwhere), <- filter_filter.
  apply filter_related.
  - rewrite (filter_joined inherits (scope_id root)); [|exact Hinh|].
    + apply Hjoin. rewrite filter_map_swap. apply (extended_rows []); [constructor|set_solver|done|constructor].
    + eapply Forall_impl; [exact Helse|]. intros join Hj Heq. apply Hj. rewrite Heq. by left.
  - intros env qenv He. unfold selects, where_holds, query_where.
    destruct Hp as [e b Hb|]; [|done]. by rewrite (agrees_env _ _ _ _ _ _ _ _ Hb He).
Qed.

(** ** Projections *)

(** A projection means its result column; its name is the column's where names are kept. *)
Definition projection_read (scopes : list SourceScope) (column : ResultColumn)
    (p : BoundProjection) : Prop :=
  exists e alias, column = ResultExpr e alias /\ agrees scopes e (bp_expression p)
  /\ (Forall scope_named scopes \/ aliased column = true ->
      canonical (bp_output_name p) = result_name column).

Lemma resolve_named scopes e c :
  Forall scope_named scopes -> resolve_direct_column scopes e = inl c ->
  exists qualifier name, direct_name e = inl (qualifier, name) /\ column_name c = canonical name.
Proof.
  intros Hs Hr. unfold resolve_direct_column in Hr.
  apply result_bind_inl in Hr as [[qualifier name] [Hd Hr]]. exists qualifier, name. split; [done|].
  case_bool_decide; [done|]. destruct qualifier as [q|].
  - apply result_bind_inl in Hr as [scope [[Hin _]%ok_or_inl%find_some Hc%ok_or_inl]].
    apply list_elem_of_In in Hin. exact (proj1 (Forall_forall _ _) Hs _ Hin _ _ Hc).
  - destruct (omap _ scopes) as [|c' [|]] eqn:Ho; try done. injection Hr as ->.
    assert (Hc : c ∈ omap (fun scope => sc_columns scope !! canonical name) scopes)
      by (rewrite Ho; by left).
    apply list_elem_of_omap in Hc as (scope & Hin & Hc).
    exact (proj1 (Forall_forall _ _) Hs _ Hin _ _ Hc).
Qed.

Lemma columns_agree scopes usage es columns :
  scopes_ok scopes ->
  collect (fun e => column ← resolve_direct_column scopes e; mret (bound_column column usage)) es
  = inl columns ->
  Forall2 (fun e column => agrees scopes e (BoundExpr.Column column)) es columns.
Proof.
  intros Hs Hc. apply collect_inl in Hc. eapply Forall2_impl; [exact Hc|].
  intros e column He. apply result_bind_inl in He as [c [Hr [= <-]]]. by eapply resolve_agrees.
Qed.

Lemma column_values scopes es columns env qenv :
  Forall2 (fun e column => agrees scopes e (BoundExpr.Column column)) es columns ->
  env_reads env scopes qenv ->
  forall f qf, frames_agree scopes f qf -> fr_env f = env ->
  map (fun column => column_value env (bc_id column)) columns = map (said qf) es.
Proof.
  intros Hc He f qf Hf <-. induction Hc as [|e column es columns [_ Hec] _ IH]; [done|].
  simpl. rewrite IH. f_equal. exact (Hec _ _ Hf).
Qed.

Lemma direction_read order : Binding.direction order = SqlMeaning.direction order.
Proof. by destruct order as [[]|]. Qed.

Lemma row_number_read scopes distinctness args argument_order within_group tail name b :
  scopes_ok scopes ->
  bind_row_number scopes distinctness args argument_order within_group tail = inl b ->
  agrees scopes (SqlExpr.FunctionCall name distinctness args argument_order within_group tail) b.
Proof.
  intros Hs Hb. unfold bind_row_number in Hb.
  destruct distinctness, args, argument_order, within_group, (filter_clause tail); try done.
  destruct (over_clause tail) as [[|window]|] eqn:Eo; try done.
  destruct (window_base window), (window_frame_clause window); try done.
  destruct (window_order_by window) as [|o os] eqn:Eorder; [done|]. rewrite <- Eorder in Hb.
  apply result_bind_inl in Hb as [partition_by [Hp%columns_agree Hb]]; [|done].
  apply result_bind_inl in Hb as [order_by [Ho%collect_inl Hb]].
  apply result_bind_inl in Hb as [first [_ Hb]]. apply result_bind_inl in Hb as [column [_ Hb]].
  case_match; [done|]. injection Hb as <-. split; [done|]. intros f qf Hf. cbn [eval query_eval].
  rewrite Eo. rewrite <- (agree_index _ _ _ Hf). f_equal.
  assert (Hkeys : forall env qenv, env_reads env scopes qenv ->
    map (fun order => (meant (in_env f env) (bo_expression order), bo_direction order)) order_by
    = sql_sort_keys (said (in_query_env qf qenv)) (window_order_by window)).
  { intros env qenv He. clear -Ho Hs He Hf. unfold sql_sort_keys.
    induction Ho as [|o bound os order_by Hbo _ IH]; [done|]. simpl. rewrite IH. f_equal.
    unfold bind_window_order in Hbo. destruct (sc_nulls o); [done|].
    apply result_bind_inl in Hbo as [c [Hr [= <-]]]. simpl. rewrite direction_read. f_equal.
    destruct (resolve_agrees catalog db params _ _ _ ColumnUsage.Window Hs Hr) as [_ Ha].
    apply (Ha (in_env f env)). by destruct Hf; split. }
  assert (Hw := agree_window _ _ _ Hf). clear -Hw Hkeys Hp Hf.
  revert Hw. generalize (fr_window f), (qf_window qf). intros envs qenvs Hw.
  induction Hw as [|env qenv envs qenvs He _ IH]; [done|]. simpl. rewrite IH, (Hkeys _ _ He).
  do 2 f_equal. apply (column_values _ _ _ _ _ Hp He (in_env f env)); [|done].
  by destruct Hf; split.
Qed.

(** A projection before it is named. *)
Definition projected_read (scopes : list SourceScope) (e : SqlExpr) (alias : option As)
    (bound : BoundExpr * string) : Prop :=
  agrees scopes e bound.1
  /\ (explicit_alias alias = None -> Forall scope_named scopes ->
      canonical bound.2 = result_name (ResultExpr e alias)).

Lemma bind_projected_read scopes e alias :
  scopes_ok scopes -> unshadowed (map sc_qualifier scopes) e = true ->
  yields (bind_projected scopes
    (bind_scalar limits catalog scopes ColumnUsage.Projection None 0) e alias)
    (projected_read scopes e alias).
Proof.
  intros Hs Hu. assert (Hscalar : yields
    (bind_scalar limits catalog scopes ColumnUsage.Projection None 0 e)
    (fun b => agrees scopes e b.1)) by by eapply expressions_agree.
  assert (Hnamed : yields
    (output_name ← lift (ok_or (explicit_alias alias) BindError.InvalidResultName);
     '(bound, _) ← bind_scalar limits catalog scopes ColumnUsage.Projection None 0 e;
     mret (bound, output_name)) (projected_read scopes e alias)).
  { eapply yields_bind; [apply yields_lift|]. intros name Hname%ok_or_inl.
    eapply yields_bind; [exact Hscalar|]. intros [b t] Hb. apply yields_ret. split; [done|].
    by rewrite Hname. }
  assert (Hcolumn : yields
    (column ← lift (resolve_direct_column scopes e);
     mret (BoundExpr.Column (bound_column column ColumnUsage.Projection), cd_name column))
    (projected_read scopes e alias)).
  { eapply yields_bind; [apply yields_lift|]. intros c Hc. apply yields_ret.
    split; [by apply resolve_agrees|]. intros Ha Hn. cbn [snd result_name].
    rewrite alias_name_explicit, Ha. simpl.
    destruct (resolve_named _ _ _ Hn Hc) as (q & name & Hd & ->). by destruct e; inversion Hd. }
  assert (Hdefault : forall b name,
    agrees scopes e b -> canonical name = result_name (ResultExpr e None) ->
    projected_read scopes e alias (b, name)).
  { intros b name Hb Hn. split; [done|]. intros Ha _. cbn [snd]. rewrite Hn. cbn [result_name].
    by rewrite !alias_name_explicit, Ha. }
  unfold bind_projected. destruct e; try done.
  - by destruct op.
  - destruct (eq_ignore_ascii_case (as_str name) "row_number") eqn:Er.
    + eapply yields_bind; [apply yields_lift|]. intros b Hb. apply yields_ret, Hdefault.
      * by eapply row_number_read.
      * by apply String.eqb_eq in Er.
    + destruct (is_registered _); [|done]. eapply yields_bind; [exact Hscalar|].
      intros [b t] Hb. apply yields_ret, Hdefault; [done|apply canonical_idemp].
  - destruct (_ && _) eqn:Ec; [|done]. apply andb_true_iff in Ec as [Ec _].
    eapply yields_bind; [by apply yields_any|]. intros r _. apply yields_ret, Hdefault.
    + split; [done|]. intros f qf Hf. simpl. by rewrite (agree_count _ _ _ Hf).
    + by apply String.eqb_eq in Ec.
Qed.

Lemma bind_projection_read scopes column :
  scopes_ok scopes ->
  match column with ResultExpr e _ => unshadowed (map sc_qualifier scopes) e | _ => true end = true ->
  yields (bind_projection scopes
    (bind_scalar limits catalog scopes ColumnUsage.Projection None 0) column)
    (projection_read scopes column).
Proof.
  intros Hs Hu. destruct column as [e alias| |]; [|by intros ? ? ?..]. cbn [bind_projection].
  eapply yields_bind; [by apply bind_projected_read|]. intros [b default_name] [Hb Hn].
  eapply yields_bind; [apply yields_lift|]. intros name Hname.
  apply yields_ret. exists e, alias. split; [done|]. split; [done|]. cbn [bp_output_name].
  assert (name = default default_name (explicit_alias alias)) as ->.
  { revert Hname. unfold result_name_new, validated_string. case_match; by intros [= <-]. }
  intros Hnames. destruct (explicit_alias alias) as [a|] eqn:Ea.
  - cbn [result_name]. by rewrite alias_name_explicit, Ea.
  - apply Hn; [done|]. destruct Hnames as [|Ha]; [done|]. unfold aliased in Ha.
    by rewrite alias_name_explicit, Ea in Ha.
Qed.

(** ** Grouping and order *)

Lemma bind_group_by_read scopes group_by :
  scopes_ok scopes ->
  unshadowed_option (map sc_qualifier scopes) (group_by ≫= gb_having) = true ->
  yields (bind_group_by limits catalog scopes group_by) (fun bound =>
    Forall2 (fun e column => agrees scopes e (BoundExpr.Column column))
      match group_by with Some g => gb_exprs g | None => [] end bound.1
    /\ option_Forall2 (agrees scopes) (group_by ≫= gb_having) bound.2
    /\ (bound.1 = [] -> group_by = None)).
Proof.
  intros Hs Hu. unfold bind_group_by. destruct group_by as [[[|e es] having]|]; simpl in *;
    [by intros ? ? ?| |apply yields_ret; by repeat constructor].
  eapply yields_bind; [apply yields_lift|]. intros columns Hc%(columns_agree _ _ (e :: es)); [|done].
  eapply yields_bind; [apply (yields_option _ (agrees scopes))|].
  - destruct having as [h|]; [|done]. simpl in *. by eapply expressions_agree.
  - intros having' Hh. apply yields_ret. cbn [fst snd]. split; [done|]. split; [done|]. intros ->. inversion Hc.
Qed.

Definition order_read (scopes : list SourceScope) (names : list string)
    (columns : list ResultColumn) (order : SortedColumn) (bound : BoundOrder) : Prop :=
  bo_direction bound = SqlMeaning.direction (sc_order order)
  /\ forall f qf, frames_agree scopes f qf ->
     meant f (bo_expression bound)
     = order_value catalog db values names columns qf (sc_expr order).

(** A result column and the projection of its name. *)
Definition projected (scopes : list SourceScope) (column : ResultColumn) (p : BoundProjection)
    : Prop :=
  projection_read scopes column p /\ canonical (bp_output_name p) = result_name column.

(** The names of the columns in scope. *)
Definition names_of (scopes : list SourceScope) (names : list string) : Prop :=
  forall name, name ∈ names <-> exists scope, scope ∈ scopes /\ is_Some (sc_columns scope !! name).

Lemma find_column_names name columns :
  is_Some (find_column name columns) <-> name ∈ map fst columns.
Proof.
  unfold find_column. induction columns as [|[n v] columns IH]; simpl.
  - split; [by intros [? ?]|by intros ?%elem_of_nil].
  - rewrite elem_of_cons. destruct (String.eqb_spec n name) as [->|Hne]; simpl.
    + split; [by left|by eexists].
    + rewrite IH. split; [by right|]. by intros [<-|].
Qed.

Lemma source_names_of env scopes sources :
  env_reads env scopes (map so_absent sources) -> names_of scopes (flat_map source_names sources).
Proof.
  intros He name. revert He. generalize scopes. clear scopes.
  induction sources as [|source sources IH]; intros scopes He; inversion He as [|scope ? scopes' ? [_ Hc] He']; subst.
  - simpl. split; [by intros ?%elem_of_nil|]. by intros (scope & ?%elem_of_nil & _).
  - simpl. rewrite elem_of_app, (IH _ He'). unfold source_names at 1.
    rewrite <- find_column_names, Hc, fmap_is_Some. split.
    + intros [Hs|(s & Hin & Hs)]; [by exists scope; split; [left|]|by exists s; split; [right|]].
    + intros (s & [->|Hin]%elem_of_cons & Hs); [by left|right; by exists s].
Qed.

Lemma resolve_in_names scopes names e name c :
  names_of scopes names -> direct_name e = inl (None, name) ->
  resolve_direct_column scopes e = inl c -> canonical name ∈ names.
Proof.
  intros Hn Hd Hr. unfold resolve_direct_column in Hr. rewrite Hd in Hr. simpl in Hr.
  case_bool_decide; [done|]. apply Hn.
  destruct (omap _ scopes) as [|c' [|]] eqn:Ho; try done.
  assert (Hc : c' ∈ omap (fun scope => sc_columns scope !! canonical name) scopes)
    by (rewrite Ho; by left).
  apply list_elem_of_omap in Hc as (scope & Hin & Hc). exists scope. split; [done|by eexists].
Qed.

Lemma unknown_not_in_names scopes names e name :
  names_of scopes names -> direct_name e = inl (None, name) ->
  resolve_direct_column scopes e = inr BindError.UnknownColumn -> canonical name ∉ names.
Proof.
  intros Hn Hd Hr. unfold resolve_direct_column in Hr. rewrite Hd in Hr. simpl in Hr.
  case_bool_decide; [done|]. intros (scope & Hin & [c Hc])%Hn.
  assert (He : c ∈ omap (fun scope => sc_columns scope !! canonical name) scopes)
    by (apply list_elem_of_omap; eauto).
  destruct (omap _ scopes) as [|c' [|]]; [|done..]. by apply elem_of_nil in He.
Qed.

Lemma bind_order_read scopes names columns projections order bound :
  scopes_ok scopes -> names_of scopes names -> Forall2 (projected scopes) columns projections ->
  bind_order scopes projections order = inl bound ->
  order_read scopes names columns order bound.
Proof.
  intros Hs Hn Hp Hb. unfold bind_order in Hb. destruct order as [e dir nulls].
  cbn [sc_expr sc_order sc_nulls] in *. destruct nulls; [done|].
  apply result_bind_inl in Hb as [b [Hb [= <-]]]. split; [apply direction_read|].
  cbn [bo_expression sc_expr]. intros f qf Hf.
  destruct (resolve_direct_column scopes e) as [c|error] eqn:Er.
  - injection Hb as <-.
    destruct (resolve_agrees catalog db params _ _ _ ColumnUsage.Order Hs Er) as [_ Ha].
    rewrite (Ha _ _ Hf). unfold order_value.
    destruct e as [name|name| | | | | | | | | | | | | | | | | | | | |]; try done;
      (rewrite bool_decide_true; [done|]); by refine (resolve_in_names _ _ _ (as_str name) _ Hn _ Er).
  - destruct error; try done.
    assert (Hname : forall name, direct_name e = inl (None, name) ->
      (projection ← ok_or (List.find (fun projection =>
         eq_ignore_ascii_case (bp_output_name projection) name) projections)
         BindError.UnknownColumn; mret (bp_expression projection)) = inl b ->
      meant f b = match List.find (fun column => String.eqb (result_name column) (canonical name)) columns with
                  | Some (ResultExpr e _) => said qf e
                  | _ => LogicalValue.Null
                  end /\ canonical name ∉ names).
    { intros name Hd Hfound. split; [|by eapply unknown_not_in_names].
      apply result_bind_inl in Hfound as [p [Hfound%ok_or_inl [= <-]]].
      assert (Hfind := Forall2_find _ (fun column => String.eqb (result_name column) (canonical name))
        (fun p => eq_ignore_ascii_case (bp_output_name p) name) _ _ Hp).
      rewrite Hfound in Hfind. specialize (Hfind ltac:(intros column p' [_ <-]; done)).
      inversion Hfind as [column p' [(e' & alias & -> & [_ Ha] & _) _]|]; subst. by apply Ha. }
    unfold named_projection in Hb. unfold order_value.
    destruct e as [name|name| | | | | | | | | | | | | | | | | | | | |]; try done;
      destruct (Hname (as_str name) eq_refl Hb) as [-> Hni]; by rewrite bool_decide_false.
Qed.

Lemma bind_limit_read scopes e :
  yields (bind_limit limits catalog scopes e) (fun b => meant (frame_of ∅) b = told [] e).
Proof.
  assert (Hnone : frames_agree [] (frame_of ∅) (query_frame_of [])) by (apply frames_agree_of; constructor).
  destruct e as [| | | |variable|[raw| | | | |]| | | | | | | | | | | | | | | | |]; try by intros ? ? ?.
  - cbn [bind_limit bind_scalar]. eapply yields_bind with
      (P := fun b => agrees [] (SqlExpr.VariableExpr variable) b.1).
    + eapply yields_bind; [by apply yields_any|]. intros [] _. by apply parameter_agrees.
    + intros [b t] [_ Hb]. apply yields_ret. by apply Hb.
  - cbn [bind_limit]. eapply yields_bind; [apply yields_lift|]. intros n Hn%ok_or_inl.
    case_match; [by intros ? ? ?|]. apply yields_ret. simpl. unfold numeral. by rewrite Hn.
Qed.

(** ** The rows before projection *)

Definition groups_read (scopes : list SourceScope) : list (Env * Z) -> list (QueryEnv * Z) -> Prop :=
  Forall2 (fun group qgroup => env_reads group.1 scopes qgroup.1 /\ group.2 = qgroup.2).

Lemma group_rows_read scopes (key : Env -> list LogicalValue) (qkey : QueryEnv -> list LogicalValue) :
  (forall env qenv, env_reads env scopes qenv -> key env = qkey qenv) ->
  forall fuel envs qenvs, rows_read scopes envs qenvs ->
  groups_read scopes (group_rows fuel key envs) (group_rows fuel qkey qenvs).
Proof.
  intros Hk. induction fuel as [|fuel IH]; intros envs qenvs Hr; [constructor|].
  destruct Hr as [|env qenv envs qenvs He Hr]; [constructor|]. cbn [group_rows].
  assert (Hsame : forall env' qenv', env_reads env' scopes qenv' ->
    bool_decide (key env' = key env) = bool_decide (qkey qenv' = qkey qenv))
    by (intros env' qenv' He'; by rewrite (Hk _ _ He), (Hk _ _ He')).
  constructor.
  - split; [done|]. cbn [fst snd]. f_equal. eapply Forall2_length, filter_related; [|exact Hsame].
    by constructor.
  - apply IH, filter_related; [done|]. intros env' qenv' He'. by rewrite (Hsame _ _ He').
Qed.

(** What binding makes of the parts of a select. *)
Record body_read (scopes : list SourceScope) (sources : list Source) (columns : list ResultColumn)
    (group_by : option (GroupByOf SqlExpr)) (s : BoundSelect) : Prop := {
  body_ok : scopes_ok scopes;
  body_absent : env_reads ∅ scopes (map so_absent sources);
  body_columns : Forall2 (projected scopes) columns (bs_projections s);
  body_keys : Forall2 (fun e column => agrees scopes e (BoundExpr.Column column))
    match group_by with Some g => gb_exprs g | None => [] end (bs_group_by s);
  body_having : option_Forall2 (agrees scopes) (group_by ≫= gb_having) (bs_having s)
}.

Lemma counted_columns_direct scopes columns ps :
  Forall2 (projected scopes) columns ps -> existsb counts_rows columns = existsb is_count ps.
Proof.
  induction 1 as [|column p columns ps [(e & alias & -> & [Hc _] & _) _] _ IH]; [done|].
  simpl. unfold is_count at 1. by rewrite Hc, IH.
Qed.

Lemma grouped_read scopes sources columns group_by s envs qenvs :
  body_read scopes sources columns group_by s -> rows_read scopes envs qenvs ->
  groups_read scopes (grouped s envs)
    (query_grouped catalog db values (map so_absent sources) columns
       match group_by with Some g => gb_exprs g | None => [] end qenvs).
Proof.
  intros [_ Habs Hcols Hkeys _] Hr. unfold grouped, query_grouped.
  rewrite (counted_columns_direct _ _ _ Hcols), <- (Forall2_length _ _ _ Hr).
  destruct Hkeys as [|e c es cs Hec Hkeys].
  - destruct (existsb _ _).
    + constructor; [|constructor]. split; [|done]. by destruct Hr.
    + induction Hr as [|env qenv envs qenvs He _ IH]; [constructor|]. by constructor.
  - apply group_rows_read; [|done]. intros env qenv He.
    by apply (column_values scopes (e :: es) (c :: cs) _ _ ltac:(by constructor) He
      (frame_of env)); [apply frames_agree_of|].
Qed.

Lemma imap_related {A B C D} (R : C -> D -> Prop) (Q : A -> B -> Prop) (f : nat -> A -> C)
    (g : nat -> B -> D) la lb :
  Forall2 Q la lb -> (forall i a b, Q a b -> R (f i a) (g i b)) ->
  Forall2 R (imap f la) (imap g lb).
Proof.
  intros Hl. revert f g. induction Hl as [|a b la lb Hab _ IH]; intros f g Hfg; [constructor|].
  rewrite !imap_cons. constructor; [by apply Hfg|]. apply IH. intros i. apply (Hfg (S i)).
Qed.

Lemma frames_read scopes sources columns group_by s qenvs :
  body_read scopes sources columns group_by s ->
  rows_read scopes (source_rows db full s ∅) qenvs ->
  Forall2 (frames_agree scopes) (frames db params s)
    (query_frames catalog db values (map so_absent sources) columns
       group_by qenvs).
Proof.
  intros Hb Hr. assert (Hg := grouped_read _ _ _ _ _ _ _ Hb Hr).
  unfold frames, query_frames. set (groups := grouped _ _) in *. set (qgroups := query_grouped _ _ _ _ _ _ _) in *.
  assert (Hf : groups_read scopes (List.filter (having_holds db params s) groups)
    (List.filter (query_having catalog db values (group_by ≫= gb_having))
       qgroups)).
  { apply filter_related; [exact Hg|]. intros [env n] [qenv m] [He Hn]. simpl in He, Hn. subst m.
    unfold having_holds, query_having. destruct (body_having _ _ _ _ _ Hb) as [e b [_ Hh]|]; [|done].
    rewrite (Hh _ (query_group_frame (qenv, n))); [done|]. by split; [..|constructor|]. }
  eapply imap_related; [exact Hf|]. intros i [env n] [qenv m] [He Hn]. simpl in He, Hn. subst m.
  split; [done|done| |done]. cbn [fr_window qf_window].
  clear -Hf. induction Hf as [|? ? ? ? [He _] _ IH]; [constructor|]. by constructor.
Qed.

(** ** Order, page and projection *)

Lemma project_read scopes columns s f qf :
  Forall2 (projected scopes) columns (bs_projections s) -> frames_agree scopes f qf ->
  project db params s f
  = query_project catalog db values columns qf.
Proof.
  intros Hp Hf. unfold project, query_project.
  induction Hp as [|column p columns ps [(e & alias & -> & [_ Ha] & _) _] _ IH]; [done|].
  simpl. by rewrite IH, (Ha _ _ Hf).
Qed.

Lemma picked_related {A B} (R : A -> B -> Prop) la lb positions :
  Forall2 R la lb ->
  Forall2 R (omap (fun i => la !! i) positions) (omap (fun i => lb !! i) positions).
Proof.
  intros Hl. induction positions as [|i positions IH]; [constructor|]. cbn.
  destruct (la !! i) as [a|] eqn:Ea.
  - destruct (Forall2_lookup_l _ _ _ _ _ Hl Ea) as (b & -> & Hab). by constructor.
  - by rewrite (Forall2_lookup_None_1 _ _ _ _ Hl Ea) || (apply Forall2_length in Hl;
      rewrite (proj2 (lookup_ge_None lb i)) by (apply lookup_ge_None in Ea; lia)).
Qed.

Lemma bind_limit_clause_read scopes limit :
  yields (bind_option (fun limit => bind_limit limits catalog scopes (limit_expr limit)) limit)
    (option_Forall2 (fun limit b => meant (frame_of ∅) b = told [] (limit_expr limit)) limit).
Proof.
  apply (yields_option _ (fun limit b => meant (frame_of ∅) b = told [] (limit_expr limit))).
  destruct limit; [|done]. apply bind_limit_read.
Qed.

Lemma bind_offset_clause_read scopes offset :
  yields (bind_option (bind_limit limits catalog scopes) offset)
    (option_Forall2 (fun e b => meant (frame_of ∅) b = told [] e) offset).
Proof.
  apply (yields_option _ (fun e b => meant (frame_of ∅) b = told [] e)).
  destruct offset; [|done]. apply bind_limit_read.
Qed.

Lemma page_read {A} limit s (l : list A) :
  option_Forall2 (fun limit b => meant (frame_of ∅) b = told [] (limit_expr limit)) limit (bs_limit s) ->
  option_Forall2 (fun e b => meant (frame_of ∅) b = told [] e) (limit ← limit; limit_offset limit)
    (bs_offset s) ->
  page (meant (frame_of ∅)) s l = sql_page (told []) limit l.
Proof.
  intros Hl Ho. unfold page, sql_page. destruct Hl as [limit b Hb|].
  - rewrite Hb. simpl in Ho. by destruct Ho as [e b' ->|].
  - inversion Ho. by rewrite skipn_O.
Qed.

(** ** Selects *)

(** The bound form of a query: the same rows, and what a query over it relies on. *)
Record select_reads (query : SqlSelect) (s : BoundSelect) : Prop := {
  select_rows : exists scopes,
    Forall2 (projected scopes) (select_columns query) (bs_projections s)
    /\ Forall2 (frames_agree scopes) (frames db params s)
         (query_rows catalog db values query);
  select_where : bs_joins s = [] -> forall env env',
    env !! bs_resource s = env' !! bs_resource s ->
    where_holds full (bs_predicate s) env = where_holds full (bs_predicate s) env';
  select_answers :
    run_select db params s = run_query catalog db values query
}.

Lemma where_stable root inherited source predicate bound_predicate env env' :
  root_read root inherited source -> option_Forall2 (agrees [root]) predicate bound_predicate ->
  env !! scope_id root = env' !! scope_id root ->
  where_holds full (and_inherited inherited bound_predicate) env
  = where_holds full (and_inherited inherited bound_predicate) env'.
Proof.
  intros [_ (entry & _ & Hentry) Hinh] Hp He.
  assert (Hw : forall env, where_holds full (and_inherited inherited bound_predicate) env
    = where_holds full inherited env && where_holds full bound_predicate env).
  { intros env0. destruct inherited, bound_predicate; simpl; rewrite ?is_true_and, ?andb_true_r; done. }
  rewrite !Hw, (Hinh _ _ He). f_equal. unfold where_holds. destruct Hp as [e b Hb|]; [|done].
  assert (Hr : forall env, env_reads env [root] [entry (default ∅ (env !! scope_id root))])
    by (intros env0; constructor; [by apply Hentry|constructor]).
  rewrite (agrees_env _ _ _ _ _ _ _ _ Hb (Hr env)), (agrees_env _ _ _ _ _ _ _ _ Hb (Hr env')).
  by rewrite He.
Qed.

Lemma run_read scopes sources columns group_by s (qframes : list QueryFrame) order_by limit :
  body_read scopes sources columns group_by s ->
  Forall2 (frames_agree scopes) (frames db params s) qframes ->
  Forall2 (order_read scopes (flat_map source_names sources) columns) order_by (bs_order_by s) ->
  (forall A (l : list A), page (meant (frame_of ∅)) s l = sql_page (told []) limit l) ->
  run_select db params s
  = sql_page (told []) limit
      (map (query_project catalog db values columns)
         (omap (fun i => qframes !! i)
            (order_rows (map (order_keys catalog db values
               (flat_map source_names sources) columns order_by) qframes)))).
Proof.
  intros Hb Hf Ho Hpage. unfold run_select. rewrite Hpage. f_equal. unfold ordered.
  assert (Hkeys : map (sort_key db params s) (frames db params s)
    = map (order_keys catalog db values (flat_map source_names sources)
             columns order_by) qframes).
  { induction Hf as [|f qf fs qfs Hfq _ IH]; [done|]. simpl. rewrite IH. f_equal.
    unfold sort_key, order_keys. clear -Ho Hfq.
    induction Ho as [|o b os bs [Hd Ho] _ IH]; [done|]. simpl. by rewrite IH, Hd, (Ho _ _ Hfq). }
  rewrite Hkeys. set (positions := order_rows _). clearbody positions.
  assert (Hpicked := picked_related _ _ _ positions Hf).
  induction Hpicked as [|f qf fs qfs Hfq _ IH]; [done|]. simpl. rewrite IH. f_equal.
  by apply (project_read scopes); [exact (body_columns _ _ _ _ _ Hb)|].
Qed.

Lemma projections_read scopes columns :
  scopes_ok scopes ->
  forallb (fun column => match column with
           | ResultExpr e _ => unshadowed (map sc_qualifier scopes) e
           | _ => true
           end) columns = true ->
  Forall scope_named scopes \/ forallb aliased columns = true ->
  yields (bind_all (bind_projection scopes
    (bind_scalar limits catalog scopes ColumnUsage.Projection None 0)) columns)
    (Forall2 (projected scopes) columns).
Proof.
  intros Hs Hu Hn. apply yields_all, Forall_forall. intros column Hin%list_elem_of_In.
  eapply yields_impl; [apply bind_projection_read; [done|]|].
  - exact (proj1 (forallb_forall _ _) Hu _ Hin).
  - intros p Hp. split; [done|]. destruct Hp as (e & alias & -> & _ & Hname). apply Hname.
    destruct Hn as [Hn|Hn]; [by left|]. right. exact (proj1 (forallb_forall _ _) Hn _ Hin).
Qed.

Lemma bind_body_read root inherited with_clause table columns joins predicate group_by order_by limit :
  root_read root inherited
    (root_source catalog db values (query_rows catalog db values) with_clause table) ->
  scope_named root \/ forallb aliased columns = true ->
  body_unshadowed (sc_qualifier root) columns joins predicate group_by = true ->
  yields (bind_body limits catalog root inherited columns joins predicate group_by order_by limit)
    (select_reads (SqlExpr.Build_Select with_clause
       (SqlExpr.OneSelect None columns (Some (SqlExpr.Build_From table joins)) predicate group_by [])
       [] order_by limit)).
Proof.
  intros Hroot Hnamed Hu. unfold body_unshadowed in Hu.
  destruct (joins_unshadowed [_] joins) as [ok names] eqn:Ej. rewrite !andb_true_iff in Hu.
  destruct Hu as [[[-> Hcols] Hwhere] Hhaving].
  assert (Hs : scopes_ok [root]) by (split; [by constructor; [exact (root_ok _ _ _ Hroot)|]|apply NoDup_singleton]).
  unfold bind_body. eapply yields_bind; [apply bind_joins_read; [done|simpl; by rewrite Ej]|].
  intros [bound after] Hj. cbn [fst snd] in Hj.
  destruct (joins_added _ _ _ _ Hj) as (added & Hafter & Hadded & Habs).
  assert (Hok := joins_ok _ _ _ _ Hj). assert (Hq := joins_named _ _ _ _ Hj).
  change (map sc_qualifier [root]) with [sc_qualifier root] in Hq. rewrite Ej in Hq. simpl in Hq. subst names.
  set (source := root_source _ _ _ _ _ _) in *.
  set (sources := source :: joined_sources catalog db joins).
  assert (Habsent : env_reads ∅ after (map so_absent sources)).
  { subst after. constructor; [|exact Habs]. destruct (root_rows _ _ _ Hroot) as (entry & -> & He).
    by apply He. }
  eapply yields_bind; [apply projections_read; [done|done|]|].
  { destruct Hnamed as [Hn|Hn]; [left; subst after; by constructor|by right]. }
  intros projections Hp. eapply yields_bind; [by apply yields_any|]. intros [] _.
  eapply yields_bind; [apply (yields_option _ (agrees after))|].
  { destruct predicate as [e|]; [|done]. simpl in *. by eapply expressions_agree. }
  intros bound_predicate Hpred. eapply yields_bind; [by apply bind_group_by_read|].
  intros [group_columns having] (Hkeys & Hh & _). cbn [fst snd] in Hkeys, Hh.
  eapply yields_bind; [apply yields_lift|]. intros orders Ho%collect_inl.
  eapply yields_bind; [apply bind_limit_clause_read|]. intros bound_limit Hl.
  eapply yields_bind; [apply bind_offset_clause_read|].
  intros bound_offset Hoff. apply yields_ret. set (s := {| bs_resource := _ |}).
  assert (Hbody : body_read after sources columns group_by s) by by split.
  assert (Hframes : Forall2 (frames_agree after) (frames db params s)
    (query_rows catalog db values
       (SqlExpr.Build_Select with_clause
          (SqlExpr.OneSelect None columns (Some (SqlExpr.Build_From table joins)) predicate group_by [])
          [] order_by limit))).
  { eapply frames_read; [exact Hbody|]. by eapply source_rows_read. }
  split.
  - by exists after.
  - intros Hnone env env' He. apply (where_stable root inherited source predicate); [done| |done].
    simpl in Hnone. subst bound. assert (Hlen := joins_length _ _ _ _ Hj). destruct joins; [|done].
    by inversion Habs; subst.
  - eapply run_read; [exact Hbody|exact Hframes| |by intros; apply page_read].
    eapply Forall2_impl; [exact Ho|]. intros o b Hob. eapply bind_order_read; [done| |exact Hp|exact Hob].
    by eapply source_names_of.
Qed.

(** ** Derived tables *)

Abbreviation named_output name :=
  (fun p : BoundProjection => String.eqb (canonical (bp_output_name p)) name).

(** The column of the resource a projection is. *)
Definition derived (r : ResourceDescriptor) (p : BoundProjection) : option ColumnDescriptor :=
  column ← direct_column (bp_expression p); column_by_id r (bc_id column).

Lemma derived_columns r ps : forall acc columns,
  for_fold (derived_column r) acc ps = inl columns ->
  Forall (fun p => is_Some (derived r p)) ps
  /\ forall name, columns !! name
     = match acc !! name with
       | Some d => Some d
       | None => p ← List.find (named_output name) ps; derived r p
       end.
Proof.
  induction ps as [|p ps IH]; intros acc columns Hc.
  { injection Hc as <-. split; [constructor|]. intros name. by destruct (acc !! name). }
  apply result_bind_inl in Hc as [acc' [Hp Hc]]. apply IH in Hc as [Hall Hc].
  unfold derived_column in Hp. destruct (bp_expression p) eqn:Ep; try done.
  apply result_bind_inl in Hp as [d [Hd%ok_or_inl Hp]].
  assert (Hder : derived r p = Some d) by (unfold derived; by rewrite Ep).
  destruct (acc !! _) eqn:Eacc in Hp; [done|]. injection Hp as <-.
  split; [by constructor; [rewrite Hder; eexists|]|]. intros name. rewrite Hc. simpl.
  destruct (String.eqb_spec (canonical (bp_output_name p)) name) as [<-|Hne].
  - rewrite lookup_insert_eq, Eacc. simpl. by rewrite Hder.
  - by rewrite lookup_insert_ne.
Qed.

Lemma derived_id r p d :
  derived r p = Some d -> exists column, bp_expression p = BoundExpr.Column column
  /\ cd_id d = bc_id column /\ column_resource (bc_id column) = rd_id r.
Proof.
  unfold derived, column_by_id. destruct (bp_expression p) as [column| | | | | | | | | | | | | | | | | | | | | | | | |];
    try done. simpl. destruct (_ =? _)%Z eqn:Er; [|done]. intros [_ Hd]%find_some.
  exists column. split; [done|]. split; [by apply bool_decide_eq_true in Hd|by apply Z.eqb_eq].
Qed.

Lemma map_imap_const {A B C} (f : nat -> A -> B) (h : B -> C) (k : A -> C) l :
  (forall i a, h (f i a) = k a) -> map h (imap f l) = map k l.
Proof.
  revert f. induction l as [|a l IH]; intros f Hf; [done|]. rewrite imap_cons. simpl.
  rewrite Hf. f_equal. apply IH. intros i b. apply Hf.
Qed.

Lemma transparent_rows s :
  is_transparent s = true -> existsb is_count (bs_projections s) = false ->
  map fr_env (frames db params s)
  = map (fun row => <[bs_resource s := row]> ∅)
      (List.filter (fun row => where_holds full (bs_predicate s) (<[bs_resource s := row]> ∅))
         (db (bs_resource s))).
Proof.
  unfold is_transparent. destruct s as [r alias joins ps p group_by having order_by limit offset].
  cbn [bs_joins bs_order_by bs_limit bs_offset bs_group_by bs_having bs_projections bs_resource bs_predicate].
  destruct joins, order_by, limit, offset, group_by, having; try done. intros _ Hc.
  unfold frames, grouped, source_rows.
  cbn [bs_joins bs_group_by bs_projections bs_resource bs_predicate joined_rows]. rewrite Hc.
  rewrite filter_map_swap. unfold having_holds. cbn [bs_having]. rewrite filter_all.
  rewrite (map_imap_const _ _ fst) by done. by rewrite map_map, filter_map_swap, map_map.
Qed.

(** The entry of a row in a derived table. *)
Definition derived_value (p : BoundProjection) (row : Row) : LogicalValue :=
  match bp_expression p with
  | BoundExpr.Column column => default LogicalValue.Null (row !! bc_id column)
  | _ => LogicalValue.Null
  end.
Definition derived_entry (name : string) (ps : list BoundProjection) (row : Row) : Entry :=
  {| en_name := name;
     en_columns := map (fun p => (canonical (bp_output_name p), derived_value p row)) ps |}.

Lemma derived_entry_reads env r alias ps columns row :
  Forall (fun p => is_Some (derived r p)) ps ->
  (forall name, columns !! name = (p ← List.find (named_output name) ps; derived r p)) ->
  default ∅ (env !! rd_id r) = row ->
  entry_reads env {| sc_resource := r; sc_alias := Some (canonical alias);
                     sc_qualifier := canonical alias; sc_columns := columns |}
    (derived_entry (canonical alias) ps row).
Proof.
  intros Hall Hc Hrow. split; [done|]. intros name. cbn [sc_columns derived_entry en_columns].
  rewrite Hc. unfold find_column. rewrite find_map. cbn [fst].
  destruct (List.find _ ps) as [p|] eqn:Ef; [|done]. apply find_some in Ef as [Hin _].
  apply list_elem_of_In in Hin. destruct (proj1 (Forall_forall _ _) Hall _ Hin) as [d Hd].
  cbn [mbind option_bind]. rewrite Hd. simpl. f_equal.
  destruct (derived_id _ _ _ Hd) as (column & Ep & Hid & Hr). unfold derived_value. rewrite Ep, Hid.
  unfold column_value. rewrite Hr, <- Hrow. by destruct (env !! rd_id r).
Qed.

Lemma combine_map {A B C} (f : A -> B) (g : A -> C) l :
  zip (map f l) (map g l) = map (fun a => (f a, g a)) l.
Proof. induction l as [|a l IH]; simpl; [done|]. f_equal. exact IH. Qed.

(** The rows of a query whose projections are columns of its resource. *)
Lemma derived_rows query s r name :
  select_reads query s -> is_transparent s = true -> rd_id r = bs_resource s ->
  Forall (fun p => is_Some (derived r p)) (bs_projections s) ->
  derived_source catalog db values name (select_columns query) (query_rows catalog db values query)
  = {| so_rows := map (derived_entry name (bs_projections s))
         (List.filter (fun row => where_holds full (bs_predicate s) (<[bs_resource s := row]> ∅))
            (db (bs_resource s)));
       so_absent := derived_entry name (bs_projections s) ∅ |}.
Proof.
  intros [(scopes & Hp & Hf) _ _] Ht Hr Hall.
  assert (Hnames : map result_name (select_columns query)
    = map (fun p => canonical (bp_output_name p)) (bs_projections s))
    by (clear -Hp; induction Hp as [|column p columns ps [_ Hn] _ IH]; [done|]; simpl; by rewrite Hn, IH).
  assert (Hcount : existsb is_count (bs_projections s) = false).
  { apply not_true_iff_false. intros (p & Hin%list_elem_of_In & Hc)%existsb_exists.
    destruct (proj1 (Forall_forall _ _) Hall _ Hin) as [d Hd].
    destruct (derived_id _ _ _ Hd) as (column & Ep & _). unfold is_count in Hc. by rewrite Ep in Hc. }
  assert (Hvalue : forall f, map (fun p => meant f (bp_expression p)) (bs_projections s)
    = map (fun p => derived_value p (default ∅ (fr_env f !! bs_resource s))) (bs_projections s)).
  { intros f. apply map_ext_Forall. eapply Forall_impl; [exact Hall|]. intros p [d Hd].
    destruct (derived_id _ _ _ Hd) as (column & Ep & _ & Hc). unfold derived_value. rewrite Ep.
    simpl. unfold column_value. rewrite Hc, Hr. by destruct (fr_env f !! bs_resource s). }
  unfold derived_source. rewrite Hnames. f_equal.
  - transitivity (map (fun env => derived_entry name (bs_projections s)
      (default ∅ (env !! bs_resource s))) (map fr_env (frames db params s))).
    + rewrite map_map. clear -Hf Hp Hvalue.
      induction Hf as [|f qf fs qfs Hfq _ IH]; [done|]. simpl. rewrite IH. f_equal.
      unfold derived_entry. f_equal. rewrite <- (project_read _ _ _ _ _ Hp Hfq). unfold project.
      by rewrite Hvalue, combine_map.
    + rewrite transparent_rows, map_map by done. apply map_ext. intros row.
      by rewrite lookup_insert_eq.
  - unfold derived_entry. f_equal. rewrite map_map, combine_map. apply map_ext. intros p. f_equal.
    unfold derived_value. by destruct (bp_expression p).
Qed.

Lemma resource_by_id_id id r : resource_by_id catalog id = Some r -> rd_id r = id.
Proof. unfold resource_by_id. intros [_ Hr]%find_some. by apply Z.eqb_eq. Qed.

Lemma derived_root_read query s alias trace root inherited trace' (bind : SqlSelect -> _) :
  bind query = inl (s, trace) -> select_reads query s ->
  bind_derived_source catalog bind query alias = inl (root, inherited, trace') ->
  sc_qualifier root = canonical alias /\
  root_read root inherited
    (derived_source catalog db values (canonical alias) (select_columns query)
       (query_rows catalog db values query)).
Proof.
  intros Hbind Hread Hd. unfold bind_derived_source in Hd.
  apply result_bind_inl in Hd as [[s' t] [Hs Hd]]. rewrite Hbind in Hs. injection Hs as <- <-.
  destruct (is_transparent s) eqn:Ht; [|done]. cbn [negb] in Hd.
  apply result_bind_inl in Hd as [r [Hr%ok_or_inl%resource_by_id_id Hd]].
  apply result_bind_inl in Hd as [columns [Hc Hd]]. injection Hd as <- <- _.
  destruct (derived_columns _ _ _ _ Hc) as [Hall Hcol].
  assert (Hcol' : forall name, columns !! name
    = (p ← List.find (named_output name) (bs_projections s); derived r p))
    by (intros name; by rewrite Hcol, lookup_empty).
  split; [done|]. rewrite (derived_rows _ s r) by done. split; cbn [sc_resource sc_qualifier sc_columns].
  - split; cbn [sc_resource sc_qualifier sc_columns]; [apply canonical_idemp|].
    intros name c Hn. rewrite Hcol' in Hn. destruct (List.find _ _) as [p|]; [|done].
    destruct (derived_id _ _ _ Hn) as (column & _ & -> & Hr'). done.
  - exists (derived_entry (canonical alias) (bs_projections s)). rewrite Hr. split; [done|].
    intros env row Hrow. apply derived_entry_reads; [done|done|by rewrite Hr].
  - rewrite Hr. apply (select_where _ _ Hread). unfold is_transparent in Ht. by destruct (bs_joins s).
Qed.

(** ** Queries *)

(** The query of a table expression. *)
Definition inner_query (with_clause : option SqlExpr.sql_with) (table : SelectTable)
    : option SqlSelect :=
  match with_clause, table with
  | Some (SqlExpr.Build_With _ [SqlExpr.Build_Cte _ _ _ query]), SqlExpr.Table _ _ _ => Some query
  | None, SqlExpr.SubSelect query _ => Some query
  | _, _ => None
  end.

Definition query_bound (query : SqlSelect) : Prop :=
  forall s trace, bind_select limits catalog query = inl (s, trace) -> well_named query = true ->
  select_reads query s.

Lemma bind_root_read with_clause table columns root inherited trace :
  option_holds query_bound (inner_query with_clause table) ->
  bind_root_source catalog (bind_select limits catalog) with_clause table
  = inl (root, inherited, trace) ->
  (root_named well_named with_clause table columns).2 = true ->
  sc_qualifier root = (root_named well_named with_clause table columns).1
  /\ root_read root inherited
       (root_source catalog db values (query_rows catalog db values) with_clause table)
  /\ (scope_named root \/ forallb aliased columns = true).
Proof.
  intros Hin Hb Hu. destruct table as [name alias indexed| |query alias|]; try done.
  - destruct with_clause as [[recursive [|[cte cols any query] [|]]]|]; try done; simpl in Hin, Hu.
    + apply andb_true_iff in Hu as [Hu Halias]. simpl in Hb. unfold root_source.
      destruct (eq_ignore_ascii_case _ _); [|done]. cbn [negb] in Hb.
      destruct (qn_db_name name), indexed; try done. case_bool_decide; [done|].
      destruct (recursive || _ || _); [done|].
      assert (Hname : canonical (default (as_str cte) (explicit_alias alias))
        = default (canonical (as_str cte)) (alias_name alias))
        by (rewrite alias_name_explicit; by destruct (explicit_alias alias)).
      pose proof Hb as Hb'. unfold bind_derived_source in Hb'.
      apply result_bind_inl in Hb' as [[s t] [Hs _]].
      destruct (derived_root_read _ _ _ _ _ _ _ _ Hs (Hin _ _ Hs Hu) Hb) as [Hq Hr].
      rewrite Hname in Hq, Hr. split; [done|]. split; [done|by right].
    + apply result_bind_inl in Hb as [source [Hs [= <- <- _]]].
      destruct (table_root_read _ _ Hs) as [Hr Hn]. split; [|by split; [|left]].
      destruct (bind_source_bound catalog Hcatalog db _ _ Hs) as [_ _ (n & a & i & [= <- <- <-] & Hq) _].
      done.
  - destruct with_clause; [done|]. simpl in Hin, Hu. apply andb_true_iff in Hu as [Hu Halias].
    apply result_bind_inl in Hb as [name [Hname%ok_or_inl Hb]].
    pose proof Hb as Hb'. unfold bind_derived_source in Hb'.
    apply result_bind_inl in Hb' as [[s t] [Hs _]].
    destruct (derived_root_read _ _ _ _ _ _ _ _ Hs (Hin _ _ Hs Hu) Hb) as [Hq Hr].
    cbn [root_named root_source fst]. rewrite alias_name_explicit, Hname. simpl.
    split; [done|]. split; [done|by right].
Qed.

Lemma bind_select_step with_clause table columns joins predicate group_by order_by limit :
  option_holds query_bound (inner_query with_clause table) ->
  query_bound (SqlExpr.Build_Select with_clause
    (SqlExpr.OneSelect None columns (Some (SqlExpr.Build_From table joins)) predicate group_by [])
    [] order_by limit).
Proof.
  intros Hin s trace Hb Hu. cbn [bind_select] in Hb. case_match; [done|].
  apply result_bind_inl in Hb as [[[root inherited] trace'] [Hroot Hb]].
  case_match; [done|]. cbn [well_named] in Hu.
  destruct (root_named _ _ _ _) as [name ok] eqn:En in Hu. apply andb_true_iff in Hu as [-> Hu].
  destruct (bind_root_read _ _ columns _ _ _ Hin Hroot) as (Hq & Hr & Hn); [by rewrite En|].
  rewrite En in Hq. simpl in Hq. subst name.
  exact (bind_body_read _ _ _ _ _ _ _ _ _ _ Hr Hn Hu _ _ _ Hb).
Qed.

Lemma bind_select_reads : forall query, query_bound query.
Proof.
  fix IH 1.
  intros [with_clause [d columns from predicate group_by windows|rows] compounds order_by limit] s
    trace Hb Hu; destruct compounds; try done; cbn [bind_select] in Hb.
  destruct d, windows; try done. destruct from as [[table joins]|]; [|done].
  refine (bind_select_step _ _ _ _ _ _ _ _ _ _ _ Hb Hu). clear -IH.
  destruct with_clause as [[recursive [|[cte cols any query] [|]]]|], table as [name alias indexed| |query' alias|];
    try exact I; [exact (IH query)|exact (IH query')].
Qed.
End facts.

(** ** The theorem *)

(** C3: the binder is correct. A query that is bound, and whose names are those the documentation
    asks for, returns bound what it says: on the rows of the resources, under the values of the
    client, the bound select has the rows that FROM, JOIN, WHERE, GROUP BY, HAVING, ORDER BY and
    LIMIT of the query give by its own names, from tables, table expressions and EXISTS alike; and
    its columns have the names the query gives them. *)
Theorem bound_query_means `{EngineLaws} `{Dialect} catalog limits query s trace db params :
  catalog_built catalog ->
  bind_select limits catalog query = inl (s, trace) -> well_named query = true ->
  run_select db params s = run_query catalog db (parameter (client_values params)) query
  /\ map (fun p => canonical (bp_output_name p)) (bs_projections s)
     = map result_name (select_columns query).
Proof.
  intros Hc Hb Hu. destruct (bind_select_reads catalog Hc db params limits query _ _ Hb Hu)
    as [(scopes & Hp & _) _ Hrun].
  split; [exact Hrun|]. clear -Hp.
  induction Hp as [|column p columns ps [_ Hn] _ IH]; [done|]. simpl. by rewrite Hn, IH.
Qed.

(** ** On the concrete world *)

#[local] Instance plain_dialect : Dialect := {|
  parse_commands _ := None; print_cmd _ := EmptyString; print_stmt _ := EmptyString;
  as_str name := match name with from_string text | exact text => text end;
  stmt_eqb _ _ := true; MAX_EXPR_DEPTH := 100
|}.

Definition named_table (name alias : string) : SelectTable :=
  SqlExpr.Table (single (exact name)) (Some (as_as (exact alias))) None.
Definition dot (source name : string) : SqlExpr := SqlExpr.Qualified (exact source) (exact name).
Definition item (e : SqlExpr) (alias : string) : ResultColumn :=
  ResultExpr e (Some (as_as (exact alias))).
Definition no_tail : FunctionTail := {| filter_clause := None; over_clause := None |}.

(** [SELECT Name AS title, id AS number FROM projects AS p WHERE id < 9] *)
Definition small_projects : SqlSelect :=
  SqlExpr.Build_Select None
    (SqlExpr.OneSelect None
       [item (SqlExpr.Id (exact "Name")) "title"; item (dot "p" "id") "number"]
       (Some (SqlExpr.Build_From (named_table "projects" "p") []))
       (Some (SqlExpr.Binary (SqlExpr.Id (exact "id")) SqlOperator.Less
                (SqlExpr.Literal (SqlLiteral.Numeric "9")))) None []) [] [] None.
(** [EXISTS (SELECT t.id FROM tasks AS t WHERE t.project = D.number)] *)
Definition has_a_task : SqlExpr :=
  SqlExpr.Exists
    (SqlExpr.Build_Select None
       (SqlExpr.OneSelect None [ResultExpr (dot "t" "id") None]
          (Some (SqlExpr.Build_From (named_table "tasks" "t") []))
          (Some (SqlExpr.Binary (dot "t" "project") SqlOperator.Equals (dot "D" "number")))
          None []) [] [] None).
(** [SELECT d.title AS title, COUNT( * ) AS n FROM (...) AS d WHERE EXISTS (...) AND title <> 'berry'
    GROUP BY title HAVING COUNT( * ) < 7 ORDER BY n DESC LIMIT :n] *)
Definition titles : SqlSelect :=
  SqlExpr.Build_Select None
    (SqlExpr.OneSelect None
       [item (dot "d" "title") "title"; item (SqlExpr.FunctionCallStar (exact "COUNT") no_tail) "n"]
       (Some (SqlExpr.Build_From (SqlExpr.SubSelect small_projects (Some (as_as (exact "d")))) []))
       (Some (SqlExpr.Binary has_a_task SqlOperator.And
                (SqlExpr.Binary (SqlExpr.Id (exact "title")) SqlOperator.NotEquals
                   (SqlExpr.Literal (SqlLiteral.String "'berry'")))))
       (Some {| gb_exprs := [SqlExpr.Id (exact "title")];
                gb_having := Some (SqlExpr.Binary (SqlExpr.FunctionCallStar (exact "count") no_tail)
                  SqlOperator.Less (SqlExpr.Literal (SqlLiteral.Numeric "7"))) |}) [])
    []
    [{| sc_expr := SqlExpr.Id (exact "n"); sc_order := Some SortOrder.Desc; sc_nulls := None |}]
    (Some {| limit_expr := SqlExpr.VariableExpr (named ":n" 1); limit_offset := None |}).

Definition bound_titles : BoundSelect * BindTrace :=
  PolicyWorld.get (world_select, no_trace) (bind_select default_limits world_catalog titles).
Definition world_params : Params := {| client_values := args_n 10; server_params := ∅ |}.

Lemma bound_query_means_witness :
  run_select world_database world_params bound_titles.1
  = [[LogicalValue.String "apple"; LogicalValue.Int64 1];
     [LogicalValue.String "cherry"; LogicalValue.Int64 1];
     [LogicalValue.String "date"; LogicalValue.Int64 1]]
  /\ map (fun p => canonical (bp_output_name p)) (bs_projections bound_titles.1)
     = ["title"; "n"]%string.
Proof.
  destruct (bound_query_means world_catalog default_limits titles bound_titles.1 bound_titles.2
    world_database world_params) as [Hrun Hnames].
  - exact world_catalog_built.
  - vm_compute. reflexivity.
  - vm_compute. reflexivity.
  - rewrite Hrun, Hnames. split; vm_compute; reflexivity.
Defined.
