(* ===== verification/MutationFacts.v ===== *)
(** * What a compiled mutation may do

    The rows an update or a delete may touch, the columns it may write, the values the policy
    presets, the state it must leave, and the columns it may return. *)

From S2P Require Import Prelude Result F64 Utf8 Core Ir Policy Protect CompilePolicy Semantics Views.
From S2P Require Import Bytes Catalog Views ActivateFacts ProtectFacts.
From S2P Require Import Bytes PolicyWorld.

Section mutations.
Context `{EngineLaws} (session : TrustedSession) (db : Database) (params : Params).

(** An expression on one row of a resource. *)
Definition on_row (resource : Z) (row : Row) (e : BoundExpr) : LogicalValue :=
  eval db params (frame_of {[ resource := row ]}) e.

(** WHERE on one row. *)
Definition row_selected (resource : Z) (predicate : option BoundExpr) (row : Row) : bool :=
  where_holds (fun env => eval db params (frame_of env)) predicate {[ resource := row ]}.

(** The predicate the compiler leaves selects a row the client selects and the filter permits. *)
Definition restricts (resource : Z) (client protected : option BoundExpr) (p : PolicyPredicate)
    : Prop :=
  forall row, row_selected resource protected row
    = row_selected resource client row && policy_holds session p row.

(** The check of the post-state is the policy's. *)
Definition checks (resource : Z) (check : option BoundExpr) (p : PolicyPredicate) : Prop :=
  exists e, check = Some e
    /\ forall row, is_true (on_row resource row e) = policy_holds session p row.

(** The assignments of the presets: each preset column, with the value of its operand. *)
Definition presets_assigned (presets : Presets) (assignments : list BoundAssignment) : Prop :=
  Forall2 (fun '(c, (t, operand)) a => bc_id (ba_column a) = c
    /\ forall f, eval db params f (ba_value a)
         = operand_value session (column_value (fr_env f)) operand) presets assignments.

(** What a caller may write: its own columns, none of the presets'. *)
Definition writable (columns : gset ColumnId) (presets : Presets) (a : BoundAssignment) : Prop :=
  bc_id (ba_column a) ∈ columns /\ forall v, (bc_id (ba_column a), v) ∉ presets.

Definition returns (columns : gset ColumnId) (returning : list BoundProjection) : Prop :=
  Forall (fun p => exists c, bp_expression p = BoundExpr.Column c /\ bc_id c ∈ columns) returning.

Lemma predicate_on_row resource p values e values' row :
  of_resource resource p = true -> session_values_only session values ->
  instantiate_predicate session p values = inl (e, values') -> provided params values' ->
  is_true (on_row resource row e) = policy_holds session p row.
Proof.
  intros Hp Hs He Hv. unfold on_row, policy_holds.
  rewrite (predicate_meaning _ _ _ _ _ _ _ (frame_of {[resource := row]}) Hs He Hv). simpl.
  rewrite <- insert_empty. by rewrite (policy_value_row _ resource).
Qed.

Lemma restricts_and resource client p values e values' :
  of_resource resource p = true -> session_values_only session values ->
  instantiate_predicate session p values = inl (e, values') -> provided params values' ->
  restricts resource client (Some (and_optional client e)) p.
Proof.
  intros Hp Hs He Hv row. rewrite <- (predicate_on_row resource p values e values' row) by done.
  unfold row_selected, on_row. destruct client; simpl; [apply is_true_and|done].
Qed.

Lemma check_assignment_inl columns presets a :
  check_assignment columns presets a = inl () -> writable columns presets a.
Proof.
  unfold check_assignment. intros Hc. compile_inv. bools. split; [done|]. intros v Hin.
  match goal with H : existsb _ _ = false |- _ => rename H into Hex end.
  apply list_elem_of_In in Hin. apply not_true_iff_false in Hex. apply Hex, existsb_exists.
  exists (bc_id (ba_column a), v). split; [done|]. by apply bool_decide_eq_true.
Qed.

Lemma check_assignments_inl columns presets l :
  for_each (check_assignment columns presets) l = inl () -> Forall (writable columns presets) l.
Proof.
  rewrite for_each_inl. intros Hl. eapply Forall_impl; [exact Hl|]. apply check_assignment_inl.
Qed.

Lemma validate_returning_inl returning columns :
  validate_returning returning columns = inl () -> returns columns returning.
Proof.
  unfold validate_returning. rewrite for_each_inl. intros Hr. eapply Forall_impl; [exact Hr|].
  intros p Hp. simpl in Hp. destruct (bp_expression p) as [c| | | | | | | | | | | | | | | | | | | | | | | | |];
    try done. exists c. split; [done|]. by case_bool_decide.
Qed.

Lemma collects_presets presets : collects session (preset_assignments session presets).
Proof.
  apply collects_traverse, Forall_true. intros [c [t operand]].
  apply collects_bind; [apply collects_operand|intros; apply collects_ret].
Qed.

Lemma presets_meaning presets : forall values assignments values',
  session_values_only session values ->
  preset_assignments session presets values = inl (assignments, values') ->
  provided params values' -> presets_assigned presets assignments.
Proof.
  unfold preset_assignments, presets_assigned.
  induction presets as [|[c [t operand]] presets IH]; intros values l values' Hs Hp Hv; simpl in Hp.
  { injection Hp as <- <-. constructor. }
  apply compile_bind_inl in Hp as [a [s1 [Ha Hp]]].
  apply compile_bind_inl in Hp as [as' [s2 [Has Hp]]]. injection Hp as <- <-.
  apply compile_bind_inl in Ha as [e [s3 [He Ha]]]. injection Ha as <- <-.
  destruct (collects_operand session operand t _ _ _ Hs He) as [_ Hs3].
  destruct (collects_presets presets _ _ _ Hs3 Has) as [Hle _].
  constructor; [|by eapply IH]. split; [done|]. intros f. simpl.
  eapply operand_meaning; [exact Hs|exact He|]. by eapply provided_le.
Qed.
End mutations.

Lemma empty_session_values session : session_values_only session ∅.
Proof. by intros ??. Qed.

(** C12: a compiled update touches a row exactly when the caller's WHERE selects it and the policy's
    filter holds on it; it writes the caller's assignments, all to columns the policy lets it
    write, and then the policy's presets, each with the value of the session or of the policy; it
    checks the rows it leaves with the policy's check; and it returns permitted columns only. *)
Theorem update_restricted `{EngineLaws} `{YamlLaws} `{Base64} b session u out db args :
  let params :=
    {| client_values := args; server_params := pp_server_values (co_plan out) |} in
  let resource := bu_resource u in
  bundle_served b -> compile_update b (BoundStatement.Update u) session = inl out ->
  exists policy protected presets,
    policy_of (pb_update b) resource (session_role session) = Some policy
    /\ pp_statement (co_plan out) = BoundStatement.Update protected
    /\ restricts session db params resource (bu_predicate u) (bu_predicate protected)
         (up_filter policy)
    /\ bu_assignments protected = bu_assignments u ++ presets
    /\ Forall (writable (up_columns policy) (up_presets policy)) (bu_assignments u)
    /\ presets_assigned session db params (up_presets policy) presets
    /\ checks session db params resource (pp_operation_check (co_plan out)) (up_check policy)
    /\ bu_returning protected = bu_returning u /\ returns (up_returning policy) (bu_returning u).
Proof.
  intros params resource Hb Hc. apply served_policies in Hb. simpl in Hc.
  apply result_bind_inl in Hc as [policy [Hp Hc]]. apply ok_or_inl in Hp.
  apply result_bind_inl in Hc as [[] [Hret Hc]]. apply result_bind_inl in Hc as [[] [Hass Hc]].
  apply result_bind_inl in Hc as [[[[presets filter] check] values] [Hrun Hc]].
  injection Hc as <-. simpl in *. unfold run_compile in Hrun.
  apply compile_bind_inl in Hrun as [ps [s1 [Hps Hrun]]].
  apply compile_bind_inl in Hrun as [f [s2 [Hf Hrun]]].
  apply compile_bind_inl in Hrun as [c [s3 [Hck Hrun]]]. injection Hrun as <- <- <- <-.
  assert (Hv := update_activated _ Hb _ _ _ Hp).
  destruct (collects_presets session _ _ _ _ (empty_session_values session) Hps) as [_ Hs1].
  destruct (collects_predicate session _ _ _ _ Hs1 Hf) as [Hle2 Hs2].
  destruct (collects_predicate session _ _ _ _ Hs2 Hck) as [Hle3 _].
  assert (Hp3 : provided params s3) by (unfold provided; done). assert (Hp2 := provided_le _ _ _ Hle3 Hp3).
  eexists policy, _, ps. split; [done|]. split; [reflexivity|]. simpl. split_and!; try done.
  - eapply restricts_and; [exact (update_filter _ _ Hv)|exact Hs1|exact Hf|done].
  - by apply check_assignments_inl.
  - eapply presets_meaning; [apply empty_session_values|exact Hps|]. by eapply provided_le.
  - eexists. split; [done|]. intros row.
    eapply predicate_on_row; [exact (update_check _ _ Hv)|exact Hs2|exact Hck|done].
  - by apply validate_returning_inl.
Qed.

(** A compiled delete touches a row exactly when the caller's WHERE selects it and the policy's
    filter holds on it, and returns permitted columns only. *)
Theorem delete_restricted `{EngineLaws} `{YamlLaws} `{Base64} b session d out db args :
  let params :=
    {| client_values := args; server_params := pp_server_values (co_plan out) |} in
  let resource := bd_resource d in
  bundle_served b -> compile_delete b (BoundStatement.Delete d) session = inl out ->
  exists policy protected,
    policy_of (pb_delete b) resource (session_role session) = Some policy
    /\ pp_statement (co_plan out) = BoundStatement.Delete protected
    /\ restricts session db params resource (bd_predicate d) (bd_predicate protected)
         (dp_filter policy)
    /\ bd_returning protected = bd_returning d /\ returns (dp_returning policy) (bd_returning d).
Proof.
  intros params resource Hb Hc. apply served_policies in Hb. simpl in Hc.
  apply result_bind_inl in Hc as [policy [Hp Hc]]. apply ok_or_inl in Hp.
  apply result_bind_inl in Hc as [[] [Hret Hc]].
  apply result_bind_inl in Hc as [[filter values] [Hrun Hc]]. injection Hc as <-. simpl in *.
  assert (Hv := delete_activated _ Hb _ _ _ Hp). eexists policy, _.
  split; [done|]. split; [reflexivity|]. split; [|split; [done|by apply validate_returning_inl]].
  eapply restricts_and; [exact (delete_filter _ _ Hv)|apply empty_session_values|exact Hrun|].
  by unfold provided.
Qed.

(** A row of an insert: the caller's assignments, then the presets. *)
Definition row_preset `{Engine} session db params (policy : InsertPolicy)
    (row row' : list BoundAssignment) : Prop :=
  Forall (writable (ip_columns policy) (ip_presets policy)) row
  /\ exists presets, row' = row ++ presets
     /\ presets_assigned session db params (ip_presets policy) presets.

(** C13: every row of a compiled insert is the caller's assignments, all to columns the policy lets
    it write, and then the policy's presets; as many rows as the caller's are expected, the policy's
    check is on them, and permitted columns only are returned. *)
Theorem insert_restricted `{EngineLaws} `{YamlLaws} `{Base64} b session i out db args :
  let params :=
    {| client_values := args; server_params := pp_server_values (co_plan out) |} in
  let resource := bi_resource i in
  bundle_served b -> compile_insert b (BoundStatement.Insert i) session = inl out ->
  exists policy protected,
    policy_of (pb_insert b) resource (session_role session) = Some policy
    /\ pp_statement (co_plan out) = BoundStatement.Insert protected
    /\ Forall2 (row_preset session db params policy) (bi_rows i) (bi_rows protected)
    /\ pp_expected_affected_rows (co_plan out) = Some (Z.of_nat (length (bi_rows i)))
    /\ checks session db params resource (pp_operation_check (co_plan out)) (ip_check policy)
    /\ bi_returning protected = bi_returning i /\ returns (ip_returning policy) (bi_returning i).
Proof.
  intros params resource Hb Hc. apply served_policies in Hb. simpl in Hc.
  apply result_bind_inl in Hc as [policy [Hp Hc]]. apply ok_or_inl in Hp.
  apply result_bind_inl in Hc as [[] [Hret Hc]].
  apply result_bind_inl in Hc as [[[rows check] values] [Hrun Hc]].
  apply result_bind_inl in Hc as [n [Hn Hc]]. injection Hc as <-. simpl in *.
  apply compile_bind_inl in Hrun as [rs [s1 [Hrows Hrun]]].
  apply compile_bind_inl in Hrun as [c [s2 [Hck Hrun]]]. injection Hrun as <- <- <-.
  assert (Hv := insert_activated _ Hb _ _ _ Hp).
  assert (Hcol : forall row, collects session (
    _ ← checked (for_each (check_assignment (ip_columns policy) (ip_presets policy)) row);
    presets ← preset_assignments session (ip_presets policy); mret (row ++ presets))).
  { intros row. apply collects_bind; [apply collects_checked|intros []].
    apply collects_bind; [apply collects_presets|intros; apply collects_ret]. }
  destruct (collects_traverse session _ (bi_rows i) ltac:(apply Forall_true, Hcol) _ _ _
    (empty_session_values session) Hrows) as [_ Hs1].
  destruct (collects_predicate session _ _ _ _ Hs1 Hck) as [Hle _].
  assert (Hp2 : provided params s2) by (unfold provided; done).
  assert (Hall : Forall2 (row_preset session db params policy) (bi_rows i) rs).
  { refine (traverse_forall session params _ _ _ _ _ _ _ (empty_session_values session) Hrows
      (provided_le _ _ _ Hle Hp2)).
    apply Forall_forall. intros row _. split; [apply Hcol|]. intros s row' s' Hs Hrow Hps.
    apply compile_bind_inl in Hrow as [[] [s3 [Ha Hrow]]]. apply checked_inl in Ha as [Ha ->].
    apply compile_bind_inl in Hrow as [ps [s4 [Hpre Hrow]]]. injection Hrow as <- <-.
    split; [by apply check_assignments_inl|]. exists ps. split; [done|].
    by eapply presets_meaning; [exact Hs|exact Hpre|]. }
  eexists policy, _. split; [done|]. split; [reflexivity|]. simpl. split_and!; try done.
  - unfold row_count in Hn. case_match; [|done]. injection Hn as <-.
    by rewrite (Forall2_length _ _ _ Hall).
  - eexists. split; [done|]. intros row.
    eapply predicate_on_row; [exact (insert_check _ _ Hv)|exact Hs1|exact Hck|done].
  - by apply validate_returning_inl.
Qed.

(** ** On the concrete world *)

Definition rename (predicate : option BoundExpr) : BoundUpdate :=
  {| bu_resource := 1;
     bu_assignments :=
       [{| ba_column := col 1 2 LogicalType.String ColumnUsage.Write;
           ba_value := BoundExpr.Literal (LogicalValue.String "x") |}];
     bu_predicate := predicate;
     bu_returning := [returned (column_expr 1 0 LogicalType.Int64) "id"] |}.

Definition update_output : CompileOutput :=
  get no_plan (compile_update world_bundle (BoundStatement.Update (rename None)) world_session).

Lemma update_restricted_witness :
  exists policy protected,
    pp_statement (co_plan update_output) = BoundStatement.Update protected
    /\ length (bu_assignments protected) = 2%nat
    /\ restricts world_session world_database
         {| client_values := ∅; server_params := pp_server_values (co_plan update_output) |}
         1 None (bu_predicate protected) (up_filter policy)
    /\ policy_holds world_session (up_filter policy) (project 1 "ann" "a" "s") = true
    /\ policy_holds world_session (up_filter policy) (project 2 "bob" "a" "s") = false.
Proof.
  destruct (update_restricted world_bundle world_session (rename None) update_output world_database ∅
    world_bundle_served ltac:(vm_compute; reflexivity))
    as (policy & protected & presets & Hp & Hst & Hr & Hass & _ & Hpre & _).
  exists policy, protected. split; [exact Hst|].
  change (policy_of (pb_update world_bundle) 1 (session_role world_session) = Some policy) in Hp.
  pose proof (f_equal (fmap up_filter) Hp) as Hfilter.
  pose proof (f_equal (fmap (fun p => length (up_presets p))) Hp) as Hlen.
  apply (inj Some) in Hfilter as Hfilter'. apply (inj Some) in Hlen as Hlen'. split.
  - rewrite Hass, length_app, <- (Forall2_length _ _ _ Hpre), <- Hlen'. vm_compute. reflexivity.
  - split; [exact Hr|]. rewrite <- Hfilter'. split; vm_compute; reflexivity.
Defined.

Definition remove_all : BoundDelete :=
  {| bd_resource := 1; bd_predicate := None; bd_returning := [] |}.
Definition delete_output : CompileOutput :=
  get no_plan (compile_delete world_bundle (BoundStatement.Delete remove_all) world_session).

Lemma delete_restricted_witness :
  exists policy protected,
    policy_of (pb_delete world_bundle) 1 "member" = Some policy
    /\ pp_statement (co_plan delete_output) = BoundStatement.Delete protected
    /\ restricts world_session world_database
         {| client_values := ∅; server_params := pp_server_values (co_plan delete_output) |}
         1 None (bd_predicate protected) (dp_filter policy).
Proof.
  destruct (delete_restricted world_bundle world_session remove_all delete_output world_database ∅
    world_bundle_served ltac:(vm_compute; reflexivity))
    as (policy & protected & Hp & Hst & Hr & _). by exists policy, protected.
Defined.

Definition add_project : BoundInsert :=
  {| bi_resource := 1;
     bi_rows :=
       [[{| ba_column := col 1 0 LogicalType.Int64 ColumnUsage.Write;
            ba_value := BoundExpr.Literal (LogicalValue.Int64 9) |}]];
     bi_returning := [] |}.
Definition insert_output : CompileOutput :=
  get no_plan (compile_insert world_bundle (BoundStatement.Insert add_project) world_session).

Lemma insert_restricted_witness :
  pp_expected_affected_rows (co_plan insert_output) = Some 1
  /\ exists policy, checks world_session world_database
       {| client_values := ∅; server_params := pp_server_values (co_plan insert_output) |}
       1 (pp_operation_check (co_plan insert_output)) (ip_check policy).
Proof.
  destruct (insert_restricted world_bundle world_session add_project insert_output world_database ∅
    world_bundle_served ltac:(vm_compute; reflexivity))
    as (policy & protected & _ & _ & _ & Hn & Hck & _). split; [exact Hn|]. by exists policy.
Defined.
