(* ===== verification/FlowFacts.v ===== *)
(** * The answer of a compiled select

    A compiled select whose EXISTS are in its WHERE and whose LIMIT is an integer that is not
    negative answers from the view of the caller's role alone; and a select of a resource the role
    has no policy for is refused. *)

From Stdlib Require Import Sorting.Sorted.
From S2P Require Import Prelude Result F64 Utf8 Core Ir Policy Protect CompilePolicy Semantics Views.
From S2P Require Import Bytes Catalog Views ActivateFacts ProtectFacts ViewFacts.
From S2P Require Import Bytes PolicyWorld.

(** ** The answer *)

(** C4: the refinement, for a served bundle and a compiled select that meets two conditions.
    [select_plain]: its resources are distinct, its LIMIT and OFFSET are literals or parameters of the
    client, and every EXISTS is in its WHERE and a plain select of one resource. [limit_counts]: its
    LIMIT, if it has one, is an integer that is not negative, for the values at hand. What the
    compiled select returns on the database is then what the caller's select returns on the view its
    role has of the resources of the plan, the rows the policies' filters hold on with the columns
    they permit, cut at the policies' limit. Divergences.v shows it false of a negative LIMIT and of
    an EXISTS in a projection. *)
Theorem select_answers_from_view `{EngineLaws} `{YamlLaws} `{Base64} b session s out db args :
  let resources := ex_resources (co_explain out) in
  let params :=
    {| client_values := args; server_params := pp_server_values (co_plan out) |} in
  bundle_served b -> select_plain s = true -> limit_counts params s = true ->
  compile_select b (BoundStatement.Select s) session = inl out ->
  exists protected,
    pp_statement (co_plan out) = BoundStatement.Select protected
    /\ run_select db params protected
       = bounded (policy_bound (pp_policy_limit (co_plan out)))
           (run_select (role_view b session resources db) params s).
Proof.
  intros resources params Hb Hs Hl Hc.
  apply compile_select_inl in Hc as (protected & Hst & Hp & Hlim). exists protected.
  split; [done|]. rewrite Hlim.
  apply (select_refines_view b session) with (values := pp_server_values (co_plan out));
    [by apply select_activated, served_policies|done|done|exact (reflexivity _)|done].
Qed.

(** ** Missing policies *)

Definition select_resources (s : BoundSelect) : list Z :=
  bs_resource s :: map bj_resource (bs_joins s)
  ++ match bs_predicate s with
     | Some predicate => collect_expression_resources predicate
     | None => []
     end.

Lemma insert_resource_elem r x l : x ∈ insert_resource r l <-> x = r \/ x ∈ l.
Proof.
  induction l as [|y l IH]; simpl; [by rewrite list_elem_of_singleton, elem_of_nil; tauto|].
  destruct (Z.compare r y) eqn:E.
  - apply Z.compare_eq_iff in E as ->. rewrite elem_of_cons. tauto.
  - by rewrite elem_of_cons.
  - rewrite !elem_of_cons, IH. tauto.
Qed.

Lemma sort_dedup_elem x l : x ∈ sort_dedup l <-> x ∈ l.
Proof.
  unfold sort_dedup. induction l as [|y l IH]; simpl; [done|].
  by rewrite insert_resource_elem, IH, elem_of_cons.
Qed.

Lemma sort_dedup_ascending l : StronglySorted Z.lt (sort_dedup l).
Proof.
  unfold sort_dedup. induction l as [|y l IH]; simpl; [constructor|].
  induction IH as [|z m Hm IH Hz]; simpl; [repeat constructor|].
  destruct (Z.compare_spec y z) as [->|Hlt|Hgt]; [by constructor|..].
  - constructor; [by constructor|]. constructor; [done|]. eapply Forall_impl; [exact Hz|].
    intros; by etransitivity.
  - constructor; [done|]. apply Forall_forall. intros x. rewrite insert_resource_elem.
    intros [->|Hx]; [done|]. by apply (proj1 (Forall_forall _ _) Hz).
Qed.

Lemma collect_missing {A B} (f : A -> option B) (g : A -> B -> policy_result (A * B)) e l a :
  (forall a b, exists p, g a b = inl p) -> a ∈ l -> f a = None ->
  collect (fun a => b ← ok_or (f a) e; g a b) l = inr e.
Proof.
  intros Hg Hin Hf. induction Hin as [a l|a a' l Hin IH]; simpl.
  - by rewrite Hf.
  - destruct (f a') as [b|]; simpl; [|done]. destruct (Hg a' b) as [p Hp].
    unfold mbind, result_bind in *. simpl. by rewrite Hp, IH.
Qed.

(** A select is compiled only when the role has a policy for each of its resources: its FROM,
    its joins, and what its WHERE reads; the plan lists exactly these, each once. *)
Theorem select_needs_policies b session s :
  (forall r, r ∈ select_resources s -> policy_of (pb_select b) r (session_role session) = None ->
    compile_select b (BoundStatement.Select s) session = inr PolicyError.MissingPolicy)
  /\ forall out, compile_select b (BoundStatement.Select s) session = inl out ->
     StronglySorted Z.lt (ex_resources (co_explain out))
     /\ (forall r, r ∈ ex_resources (co_explain out) <-> r ∈ select_resources s)
     /\ Forall2 (fun r id => sp_id <$> policy_of (pb_select b) r (session_role session) = Some id)
          (ex_resources (co_explain out)) (ex_applied_policies (co_explain out)).
Proof.
  split.
  - intros r Hr Hp. simpl. unfold select_policies. fold (select_resources s).
    rewrite (collect_missing (fun r => policy_of (pb_select b) r (session_role session))
      (fun r policy => mret (r, policy)) _ _ r); [done|by eexists| |done].
    by apply sort_dedup_elem.
  - intros out Hc. simpl in Hc. apply result_bind_inl in Hc as [[resources selected] [Hs Hc]].
    apply result_bind_inl in Hc as [[protected values] [_ Hc]]. injection Hc as <-. simpl.
    assert (Hres : resources = sort_dedup (select_resources s)).
    { unfold select_policies in Hs. apply result_bind_inl in Hs as [pairs [_ Hs]].
      by injection Hs as <- _. }
    apply select_policies_spec in Hs as [-> Hall]. split; [|split].
    + rewrite Hres. apply sort_dedup_ascending.
    + intros r. rewrite Hres. apply sort_dedup_elem.
    + clear Hres.
      assert (Hlook : forall r, r ∈ resources ->
        role_policies b (session_role session) resources !! r
        = policy_of (pb_select b) r (session_role session)).
      { intros r Hr. by apply role_policies_elem. }
      revert Hlook. generalize (role_policies b (session_role session) resources) as selected.
      intros selected Hlook. induction Hall as [|r l [policy Hr] _ IH]; cbn; [constructor|].
      rewrite Hlook by (by left). rewrite Hr. cbn. constructor; [by rewrite Hr|].
      apply IH. intros r' Hr'. apply Hlook. by right.
Qed.

(** ** On the concrete world *)

Lemma select_answers_from_view_witness :
  exists protected,
    pp_statement (co_plan world_output) = BoundStatement.Select protected
    /\ run_select world_database
         {| client_values := args_n 10; server_params := pp_server_values (co_plan world_output) |}
         protected
       = [[LogicalValue.Int64 1; LogicalValue.String "apple"];
          [LogicalValue.Int64 2; LogicalValue.Null]].
Proof.
  destruct (select_answers_from_view world_bundle world_session world_select world_output
    world_database (args_n 10) world_bundle_served ltac:(vm_compute; reflexivity)
    ltac:(vm_compute; reflexivity) ltac:(vm_compute; reflexivity)) as [protected [Hst Hrun]].
  exists protected. split; [exact Hst|]. rewrite Hrun. vm_compute. reflexivity.
Defined.

Lemma select_needs_policies_witness :
  compile_select world_bundle (BoundStatement.Select (plain_select 7 [] None None)) world_session
    = inr PolicyError.MissingPolicy
  /\ (2 ∈ ex_resources (co_explain world_output) <-> 2 ∈ select_resources world_select).
Proof.
  split.
  - apply (proj1 (select_needs_policies world_bundle world_session (plain_select 7 [] None None)) 7);
      [by left|vm_compute; reflexivity].
  - destruct (proj2 (select_needs_policies world_bundle world_session world_select) world_output
      ltac:(vm_compute; reflexivity)) as (_ & Hin & _). apply Hin.
Defined.
