(* ===== verification/Divergences.v ===== *)
(** * Where the policy compiler falls short of its documents

    The behaviours the model showed that the security model and the policy semantics (docs/) do
    not promise, each for every statement it concerns: a caller's negative LIMIT parameter lifts
    the policy's limit, an EXISTS in a projection reads the whole database, the WHERE of a mutation
    may be anything, and only a projection that is a count itself asks for the permission to
    aggregate. *)

From S2P Require Import Prelude Result F64 Utf8 Btree Core Bytes Catalog Ir Policy Activate Protect.
From S2P Require Import CompilePolicy Semantics Views Bytes Catalog.
From S2P Require Import ActivateFacts ProtectFacts ViewFacts MutationFacts PolicyWorld.

(** ** The limit *)

(** C35: a caller that binds a negative number to its LIMIT parameter gets every row, whatever limit
    the policies set: the smaller of the two is what the caller bound, and a negative LIMIT is no
    limit. docs/policy-semantics.md says the stricter of the two limits is the effective one. *)
Theorem negative_limit_lifts_policy `{EngineLaws} `{YamlLaws} `{Base64} b session s out db args
    name t n :
  let params :=
    {| client_values := args; server_params := pp_server_values (co_plan out) |} in
  bundle_served b -> compile_select b (BoundStatement.Select s) session = inl out ->
  bs_limit s = Some (BoundExpr.ClientParameter name t) ->
  args !! name = Some (LogicalValue.Int64 n) -> n < 0 ->
  exists protected,
    pp_statement (co_plan out) = BoundStatement.Select protected
    /\ run_select db params protected = run_select db params (with_limit protected None).
Proof.
  intros params Hb Hc Hl Hn Hneg. apply served_policies, select_activated in Hb.
  apply compile_select_inl in Hc as (protected & Hst & Hp & _). exists protected.
  split; [done|]. unfold protect_select in Hp. compile_inv.
  set (selected := role_policies _ _ _) in *.
  assert (Hleast := least_limit_spec selected).
  assert (Hv := role_policies_valid b Hb (session_role session) (ex_resources (co_explain out))).
  fold selected in Hv. unfold run_select.
  destruct (least_limit selected) as [p|] eqn:E; cbn [apply_policy_limit].
  - destruct Hleast as [(r & policy & Hr & Hlim) _].
    assert (H0p := limit_unsigned _ _ (Hv _ _ Hr) _ Hlim). unfold page. cbn [bs_limit with_limit].
    simpl bs_limit. rewrite Hl. cbn [limited eval]. unfold parameter at 1. simpl client_values.
    rewrite Hn. simpl default. rewrite least_integers. simpl row_bound.
    rewrite (proj2 (Z.ltb_lt _ _)); [done|lia].
  - unfold page. simpl bs_limit. rewrite Hl. cbn [eval]. unfold parameter at 1. simpl client_values.
    rewrite Hn. simpl row_bound. by rewrite (proj2 (Z.ltb_lt _ _)).
Qed.

Lemma negative_limit_lifts_policy_witness :
  exists protected,
    pp_statement (co_plan world_output) = BoundStatement.Select protected
    /\ pp_policy_limit (co_plan world_output) = Some 2
    /\ length (run_output world_output (args_n (-1)) world_database) = 3%nat
    /\ run_select world_database
         {| client_values := args_n (-1);
            server_params := pp_server_values (co_plan world_output) |} protected
       = run_select world_database
           {| client_values := args_n (-1);
              server_params := pp_server_values (co_plan world_output) |}
           (with_limit protected None).
Proof.
  destruct (negative_limit_lifts_policy world_bundle world_session world_select world_output
    world_database (args_n (-1)) "n" LogicalType.Int64 (-1) world_bundle_served
    ltac:(vm_compute; reflexivity) eq_refl eq_refl eq_refl) as [protected [Hst Hrun]].
  exists protected. split; [exact Hst|]. split; [vm_compute; reflexivity|].
  split; [vm_compute; reflexivity|exact Hrun].
Defined.

(** ** EXISTS outside WHERE *)

(** [CASE WHEN EXISTS (...) THEN 1 ELSE 0 END AS name] *)
Definition exists_output (query : BoundSelect) (name : string) : BoundProjection :=
  {| bp_expression :=
       BoundExpr.Case
         [(BoundExpr.Exists query, BoundExpr.Literal (LogicalValue.Int64 1))]
         (Some (BoundExpr.Literal (LogicalValue.Int64 0))) LogicalType.Int64;
     bp_output_name := name |}.

(** The select with one more column. *)
Definition and_output (s : BoundSelect) (p : BoundProjection) : BoundSelect :=
  with_projections s (bs_projections s ++ [p]).

Lemma compile_bind_intro {A B} (k : A -> Compile B) (m : Compile A) s a s1 r :
  m s = inl (a, s1) -> k a s1 = r -> (x ← m; k x) s = r.
Proof. unfold mbind, compile_bind. by intros ->. Qed.

Lemma traverse_snoc {A} (f : A -> Compile A) a l s' : forall s l',
  traverse f l s = inl (l', s') -> f a s' = inl (a, s') ->
  traverse f (l ++ [a]) s = inl (l' ++ [a], s').
Proof.
  induction l as [|b l IH]; intros s l' Hl Ha; simpl in *.
  - injection Hl as <- <-. eapply compile_bind_intro; [exact Ha|done].
  - apply compile_bind_inl in Hl as [b' [s1 [Hb Hl]]].
    apply compile_bind_inl in Hl as [l1 [s2 [Hl1 Hl]]]. injection Hl as <- <-.
    eapply compile_bind_intro; [exact Hb|]. by eapply compile_bind_intro; [exact (IH _ _ Hl1 Ha)|].
Qed.

Lemma for_each_snoc {E A} (f : A -> result E unit) l a :
  for_each f (l ++ [a]) = inl () <-> for_each f l = inl () /\ f a = inl ().
Proof. by rewrite !for_each_inl, Forall_app, Forall_singleton. Qed.

(** Two checks, one after the other. *)
Lemma checks_both (m k : policy_result unit) :
  (_ ← m; k) = inl () <-> m = inl () /\ k = inl ().
Proof. destruct m as [[]|]; cbn; [tauto|]. split; [done|by intros [? _]]. Qed.

(** The regular columns of a role's policies. *)
Definition regular_of (selected : Selected) : gset ColumnId :=
  ⋃ (map (fun '(_, policy) => sp_regular_columns policy) (map_to_list selected)).

Lemma check_select_output selected s query name :
  validate_client_expression (regular_of selected) (BoundExpr.Exists query) = inl () ->
  check_select selected s = inl () ->
  check_select selected (and_output s (exists_output query name)) = inl ().
Proof.
  intros Hq. unfold check_select. fold (regular_of selected). cbv zeta.
  rewrite !checks_both. cbn [and_output with_projections bs_joins bs_projections bs_predicate
    bs_order_by bs_group_by bs_having]. rewrite !for_each_snoc.
  assert (Hp : check_projection selected (regular_of selected) (exists_output query name) = inl ()).
  { set (branches := [(BoundExpr.Exists query, BoundExpr.Literal (LogicalValue.Int64 1))]).
    change ((_ ← for_each (fun '(condition, value) =>
              _ ← validate_client_expression (regular_of selected) condition;
              validate_client_expression (regular_of selected) value) branches;
            mret ()) = inl () :> policy_result unit).
    rewrite checks_both, for_each_inl. unfold branches. rewrite Forall_singleton.
    split; [by apply checks_both|done]. }
  tauto.
Qed.

(** The added column is the caller's own expression. *)
Lemma protect_select_output selected session s query name protected values :
  validate_client_expression (regular_of selected) (BoundExpr.Exists query) = inl () ->
  run_compile (protect_select selected session s) = inl (protected, values) ->
  run_compile (protect_select selected session (and_output s (exists_output query name)))
    = inl (and_output protected (exists_output query name), values).
Proof.
  intros Hq Hp. unfold run_compile, protect_select in *.
  apply compile_bind_inl in Hp as [ps [s1 [Hps Hp]]].
  apply compile_bind_inl in Hp as [[] [s2 [Hck Hp]]].
  eapply compile_bind_intro; [exact (traverse_snoc _ (exists_output query name) _ _ _ _ Hps eq_refl)|].
  change (with_projections (and_output s (exists_output query name)) (ps ++ [exists_output query name]))
    with (and_output (with_projections s ps) (exists_output query name)). cbv zeta.
  unfold checked in Hck. destruct (check_select selected (with_projections s ps)) as [[]|] eqn:E; [|done].
  injection Hck as ->.
  eapply compile_bind_intro; [unfold checked; by rewrite (check_select_output _ _ query name Hq E)|].
  apply compile_bind_inl in Hp as [pr [s3 [Hpr Hp]]]. eapply compile_bind_intro; [exact Hpr|].
  apply compile_bind_inl in Hp as [root [s4 [Hr Hp]]]. eapply compile_bind_intro; [exact Hr|].
  apply compile_bind_inl in Hp as [rf [s5 [Hrf Hp]]]. eapply compile_bind_intro; [exact Hrf|].
  apply compile_bind_inl in Hp as [fj [s6 [Hfj Hp]]]. eapply compile_bind_intro; [exact Hfj|].
  injection Hp as <- <-. by destruct (least_limit selected).
Qed.

(** What the role's select answers with one more column. *)
Lemma run_select_output `{Engine} db params s query name :
  run_select db params (and_output s (exists_output query name))
  = page (eval db params (frame_of ∅)) s
      (map (fun f => Semantics.project db params s f ++
              [if is_true (eval db params f (BoundExpr.Exists query))
               then LogicalValue.Int64 1 else LogicalValue.Int64 0])
         (ordered db params s)).
Proof.
  assert (Hg : forall envs, grouped (and_output s (exists_output query name)) envs = grouped s envs).
  { intros envs. unfold grouped. simpl. by rewrite existsb_app, orb_false_r. }
  assert (Hf : frames db params (and_output s (exists_output query name)) = frames db params s)
    by (unfold frames; by rewrite Hg).
  unfold run_select, ordered. rewrite Hf. unfold page. cbn [bs_limit bs_offset and_output with_projections].
  do 2 f_equal. apply map_ext. intros f. unfold Semantics.project. simpl bs_projections. by rewrite map_app.
Qed.

(** C36: an EXISTS outside WHERE reads the database, not the view. Whatever select compiles, it
    compiles with one more column CASE WHEN EXISTS (query) THEN 1 ELSE 0 END too, for any query
    whose projections and WHERE use regular columns only, whatever resource it is FROM: the plan
    lists the same resources, applies the same policies and binds the same values, and the answer
    is the same rows in the same order, each with 1 or 0 as the query has a row in the whole
    database, which no filter restricts. docs/security-model.md (invariant 4) says every access
    has an applicable policy. *)
Theorem projection_exists_unfiltered `{Engine} b session s out query name :
  compile_select b (BoundStatement.Select s) session = inl out ->
  validate_client_expression
    (regular_of (role_policies b (session_role session) (ex_resources (co_explain out))))
    (BoundExpr.Exists query) = inl () ->
  exists out' protected protected',
    compile_select b (BoundStatement.Select (and_output s (exists_output query name))) session = inl out'
    /\ ex_resources (co_explain out') = ex_resources (co_explain out)
    /\ ex_applied_policies (co_explain out') = ex_applied_policies (co_explain out)
    /\ pp_server_values (co_plan out') = pp_server_values (co_plan out)
    /\ pp_statement (co_plan out) = BoundStatement.Select protected
    /\ pp_statement (co_plan out') = BoundStatement.Select protected'
    /\ forall db params,
       run_select db params protected
         = page (eval db params (frame_of ∅)) protected
             (map (Semantics.project db params protected) (ordered db params protected))
       /\ run_select db params protected'
         = page (eval db params (frame_of ∅)) protected
             (map (fun f => Semantics.project db params protected f ++
                     [if is_true (eval db params f (BoundExpr.Exists query))
                      then LogicalValue.Int64 1 else LogicalValue.Int64 0])
                (ordered db params protected)).
Proof.
  intros Hc Hq. simpl in Hc. apply result_bind_inl in Hc as [[resources selected] [Hs Hc]].
  apply result_bind_inl in Hc as [[protected values] [Hp Hc]]. injection Hc as <-. simpl in Hq.
  destruct (select_policies_spec _ _ _ _ _ Hs) as [-> _].
  eexists _, protected, (and_output protected (exists_output query name)).
  split.
  { simpl. change (select_policies b (and_output s (exists_output query name)) (session_role session))
      with (select_policies b s (session_role session)).
    rewrite Hs. cbn [mbind result_bind]. by rewrite (protect_select_output _ _ _ _ name _ _ Hq Hp). }
  do 5 (split; [done|]). intros db params. split; [done|apply run_select_output].
Qed.

(** [SELECT id FROM projects WHERE id = id OR EXISTS (...)], and the same with the column
    [CASE WHEN EXISTS (...) THEN 1 ELSE 0 END]. *)
Definition task_query : BoundSelect :=
  plain_select 2 [returned (BoundExpr.Literal (LogicalValue.Int64 1)) "exists_value"]
    (Some (BoundExpr.Equal (column_expr 2 1 LogicalType.Int64) (column_expr 1 0 LogicalType.Int64)))
    None.

Definition all_projects : BoundSelect :=
  plain_select 1 [returned (column_expr 1 0 LogicalType.Int64) "id"]
    (Some (BoundExpr.Or
       (BoundExpr.Equal (column_expr 1 0 LogicalType.Int64) (column_expr 1 0 LogicalType.Int64))
       has_task)) None.

Definition all_output : CompileOutput :=
  get no_plan (compile_select world_bundle (BoundStatement.Select all_projects) world_session).

Definition case_exists : BoundSelect := and_output all_projects (exists_output task_query "used").

(** One project, and a task that the filter of the tasks hides, or no task. *)
Definition hidden_task (present : bool) : Database := fun r =>
  if (r =? 1)%Z then [project 1 "ann" "apple" "s1"]
  else if (r =? 2)%Z then if present then [task 20 1] else []
  else [].

Lemma hidden_task_views resources r :
  (fun policy => policy_holds world_session (sp_filter policy) (task 20 1))
    <$> role_policies world_bundle (session_role world_session) resources !! 2 = Some false ->
  role_view world_bundle world_session resources (hidden_task true) r
  = role_view world_bundle world_session resources (hidden_task false) r.
Proof.
  intros Hf. unfold role_view, view. destruct (_ !! r) as [policy|] eqn:E; [|done].
  unfold hidden_task. destruct (r =? 1)%Z; [done|]. destruct (r =? 2)%Z eqn:E2; [|done].
  apply Z.eqb_eq in E2 as ->. rewrite E in Hf. injection Hf as Hf.
  cbn [List.filter map]. by rewrite Hf.
Qed.

(** Two databases the role has the same view of, and the answers differ. *)
Lemma projection_exists_unfiltered_witness :
  exists out',
    compile_select world_bundle (BoundStatement.Select case_exists) world_session = inl out'
    /\ (forall r, role_view world_bundle world_session (ex_resources (co_explain out'))
                    (hidden_task true) r
                  = role_view world_bundle world_session (ex_resources (co_explain out'))
                      (hidden_task false) r)
    /\ run_output out' ∅ (hidden_task true) = [[LogicalValue.Int64 1; LogicalValue.Int64 1]]
    /\ run_output out' ∅ (hidden_task false) = [[LogicalValue.Int64 1; LogicalValue.Int64 0]].
Proof.
  destruct (projection_exists_unfiltered world_bundle world_session all_projects all_output task_query
    "used" ltac:(vm_compute; reflexivity) ltac:(vm_compute; reflexivity))
    as (out' & protected & protected' & Hc & Hres & _ & Hv & Hst & Hst' & Hrun).
  exists out'. split; [exact Hc|].
  split; [intros r; rewrite Hres; apply hidden_task_views; vm_compute; reflexivity|].
  set (P := match pp_statement (co_plan all_output) with BoundStatement.Select s => s | _ => all_projects end).
  assert (HP : P = protected) by (unfold P; rewrite Hst; reflexivity). rewrite <- HP in Hrun.
  unfold run_output. rewrite Hst', Hv, !(fun db params => proj2 (Hrun db params)).
  unfold P. split; vm_compute; reflexivity.
Defined.

(** ** The WHERE of a mutation *)

(** The same mutation with another WHERE. *)
Definition update_where (u : BoundUpdate) (predicate : option BoundExpr) : BoundUpdate :=
  {| bu_resource := bu_resource u; bu_assignments := bu_assignments u; bu_predicate := predicate;
     bu_returning := bu_returning u |}.
Definition delete_where (d : BoundDelete) (predicate : option BoundExpr) : BoundDelete :=
  {| bd_resource := bd_resource d; bd_predicate := predicate; bd_returning := bd_returning d |}.

Definition params_of (args : gmap string LogicalValue) (out : CompileOutput) : Params :=
  {| client_values := args; server_params := pp_server_values (co_plan out) |}.

Lemma update_other_where b session u out predicate :
  compile_update b (BoundStatement.Update u) session = inl out ->
  exists policy filter values s1 out',
    policy_of (pb_update b) (bu_resource u) (session_role session) = Some policy
    /\ compile_update b (BoundStatement.Update (update_where u predicate)) session = inl out'
    /\ session_values_only session s1
    /\ instantiate_predicate session (up_filter policy) s1 = inl (filter, values)
    /\ values ⊆ pp_server_values (co_plan out')
    /\ pp_statement (co_plan out') = BoundStatement.Update
         {| bu_resource := bu_resource u;
            bu_assignments := match pp_statement (co_plan out) with
                              | BoundStatement.Update p => bu_assignments p | _ => [] end;
            bu_predicate := Some (and_optional predicate filter);
            bu_returning := bu_returning u |}.
Proof.
  intros Hc. simpl in Hc. apply result_bind_inl in Hc as [policy [Hp Hc]].
  apply result_bind_inl in Hc as [[] [Hret Hc]]. apply result_bind_inl in Hc as [[] [Hass Hc]].
  apply result_bind_inl in Hc as [[[[presets filter] check] values] [Hrun Hc]]. injection Hc as <-.
  assert (Hrun' := Hrun). unfold run_compile in Hrun'.
  apply compile_bind_inl in Hrun' as [ps [s1 [Hps Hrun']]].
  apply compile_bind_inl in Hrun' as [f [s2 [Hf Hrun']]].
  apply compile_bind_inl in Hrun' as [c [s3 [Hck Hrun']]]. injection Hrun' as -> -> -> ->.
  destruct (collects_presets session _ _ _ _ (empty_session_values session) Hps) as [_ Hs1].
  destruct (collects_predicate session _ _ _ _ Hs1 Hf) as [_ Hs2].
  destruct (collects_predicate session _ _ _ _ Hs2 Hck) as [Hle _].
  eexists policy, filter, s2, s1, _. split; [by apply ok_or_inl in Hp|].
  split; [simpl; rewrite Hp; cbn [mbind result_bind]; rewrite Hret; cbn [mbind result_bind];
          rewrite Hass; cbn [mbind result_bind]; by rewrite Hrun|].
  done.
Qed.

Lemma delete_other_where b session d out predicate :
  compile_delete b (BoundStatement.Delete d) session = inl out ->
  exists policy filter values out',
    policy_of (pb_delete b) (bd_resource d) (session_role session) = Some policy
    /\ compile_delete b (BoundStatement.Delete (delete_where d predicate)) session = inl out'
    /\ instantiate_predicate session (dp_filter policy) ∅ = inl (filter, values)
    /\ values = pp_server_values (co_plan out')
    /\ pp_statement (co_plan out') = BoundStatement.Delete
         {| bd_resource := bd_resource d; bd_predicate := Some (and_optional predicate filter);
            bd_returning := bd_returning d |}.
Proof.
  intros Hc. simpl in Hc. apply result_bind_inl in Hc as [policy [Hp Hc]].
  apply result_bind_inl in Hc as [[] [Hret Hc]].
  apply result_bind_inl in Hc as [[filter values] [Hrun Hc]]. injection Hc as <-.
  eexists policy, filter, values, _. split; [by apply ok_or_inl in Hp|].
  split; [simpl; rewrite Hp; cbn [mbind result_bind]; rewrite Hret; cbn [mbind result_bind]; by rewrite Hrun|].
  done.
Qed.

(** C37: the WHERE of an update or a delete may be anything: a mutation that compiles compiles with
    every other WHERE too, whatever columns and resources that reads, and then touches exactly the
    rows that WHERE holds on, read on the whole database, among those the policy's filter permits.
    docs/security-model.md (invariant 5) says forbidden columns cannot influence filtering. *)
Theorem mutation_where_unchecked `{EngineLaws} `{YamlLaws} `{Base64} b session predicate :
  bundle_served b ->
  (forall u out,
    compile_update b (BoundStatement.Update u) session = inl out ->
    exists policy out' protected,
      policy_of (pb_update b) (bu_resource u) (session_role session) = Some policy
      /\ compile_update b (BoundStatement.Update (update_where u predicate)) session = inl out'
      /\ pp_statement (co_plan out') = BoundStatement.Update protected
      /\ forall db args row,
         row_selected db (params_of args out') (bu_resource u) (bu_predicate protected) row
         = row_selected db (params_of args out') (bu_resource u) predicate row
           && policy_holds session (up_filter policy) row)
  /\ (forall d out,
    compile_delete b (BoundStatement.Delete d) session = inl out ->
    exists policy out' protected,
      policy_of (pb_delete b) (bd_resource d) (session_role session) = Some policy
      /\ compile_delete b (BoundStatement.Delete (delete_where d predicate)) session = inl out'
      /\ pp_statement (co_plan out') = BoundStatement.Delete protected
      /\ forall db args row,
         row_selected db (params_of args out') (bd_resource d) (bd_predicate protected) row
         = row_selected db (params_of args out') (bd_resource d) predicate row
           && policy_holds session (dp_filter policy) row).
Proof.
  intros Hb. apply served_policies in Hb. split.
  - intros u out Hc. destruct (update_other_where b session u out predicate Hc)
      as (policy & filter & values & s1 & out' & Hp & Hc' & Hs & Hf & Hle & Hst).
    eexists policy, out', _. split; [done|]. split; [done|]. split; [exact Hst|].
    intros db args. eapply restricts_and;
      [exact (update_filter _ _ (update_activated _ Hb _ _ _ Hp))|exact Hs|exact Hf|done].
  - intros d out Hc. destruct (delete_other_where b session d out predicate Hc)
      as (policy & filter & values & out' & Hp & Hc' & Hf & -> & Hst).
    eexists policy, out', _. split; [done|]. split; [done|]. split; [exact Hst|].
    intros db args. eapply restricts_and; [exact (delete_filter _ _ (delete_activated _ Hb _ _ _ Hp))
      |apply empty_session_values|exact Hf|by unfold provided].
Qed.

(** [UPDATE projects SET name = 'x' WHERE secret = :guess] *)
Definition rename_all : BoundUpdate :=
  {| bu_resource := 1;
     bu_assignments :=
       [{| ba_column := col 1 2 LogicalType.String ColumnUsage.Write;
           ba_value := BoundExpr.Literal (LogicalValue.String "x") |}];
     bu_predicate := None; bu_returning := [] |}.

Definition guess : BoundExpr :=
  BoundExpr.Equal (column_expr 1 3 LogicalType.String)
    (BoundExpr.ClientParameter "guess" LogicalType.String).

Definition guess_args (value : string) : gmap string LogicalValue :=
  {[ "guess"%string := LogicalValue.String value ]}.

Definition rename_output : CompileOutput :=
  get no_plan (compile_update world_bundle (BoundStatement.Update rename_all) world_session).

(** No access of the role names the column of secrets, and an update and a delete touch a row by it. *)
Lemma mutation_where_unchecked_witness :
  let secret := {| column_resource := 1; column_ordinal := 3 |} in
  let row := project 1 "ann" "apple" "s1" in
  opt_existsb (fun a => bool_decide (secret ∈ ma_columns a ∪ ma_returning a))
    (update_access world_bundle 1 "member") = false
  /\ opt_existsb (fun a => bool_decide (secret ∈ sa_regular_columns a ∪ sa_conditional_columns a))
       (select_access world_bundle 1 "member") = false
  /\ exists out' protected,
       compile_update world_bundle (BoundStatement.Update (update_where rename_all (Some guess)))
         world_session = inl out'
       /\ pp_statement (co_plan out') = BoundStatement.Update protected
       /\ row_selected world_database (params_of (guess_args "s1") out') 1 (bu_predicate protected) row
          = true
       /\ row_selected world_database (params_of (guess_args "s2") out') 1 (bu_predicate protected) row
          = false.
Proof.
  intros secret row. split; [vm_compute; reflexivity|]. split; [vm_compute; reflexivity|].
  destruct (proj1 (mutation_where_unchecked world_bundle world_session (Some guess) world_bundle_served)
    rename_all rename_output ltac:(vm_compute; reflexivity))
    as (policy & out' & protected & Hp & Hc & Hst & Hrow).
  exists out', protected. split; [exact Hc|]. split; [exact Hst|].
  assert (Hf : (fun policy => policy_holds world_session (up_filter policy) row)
    <$> policy_of (pb_update world_bundle) 1 "member" = Some true) by (vm_compute; reflexivity).
  change (policy_of (pb_update world_bundle) 1 "member" = Some policy) in Hp.
  rewrite Hp in Hf. injection Hf as Hf.
  split; (etransitivity; [exact (Hrow world_database _ row)|]); rewrite Hf, andb_true_r;
    vm_compute; reflexivity.
Defined.

(** ** Aggregates *)

Definition grant_aggregations (policy : SelectPolicy) : SelectPolicy :=
  {| sp_id := sp_id policy; sp_regular_columns := sp_regular_columns policy;
     sp_conditional_columns := sp_conditional_columns policy; sp_filter := sp_filter policy;
     sp_limit := sp_limit policy; sp_allow_aggregations := true;
     sp_allow_windows := sp_allow_windows policy |}.

(** The permission to aggregate, where it is asked for: at a projection that is a count itself. *)
Definition counts_granted (selected : Selected) (projection : BoundProjection) : Prop :=
  forall resource, bp_expression projection = BoundExpr.CountAll resource ->
    exists policy, selected !! resource = Some policy /\ sp_allow_aggregations policy = true.

Lemma grant_regular_columns (selected : Selected) :
  regular_of (grant_aggregations <$> selected) = regular_of selected.
Proof.
  unfold regular_of. rewrite map_to_list_fmap. f_equal. induction (map_to_list selected) as [|[? ?] ? IH]; [done|].
  cbn. by f_equal.
Qed.

Lemma check_projection_grant selected columns projection :
  check_projection selected columns projection = inl ()
  <-> check_projection (grant_aggregations <$> selected) columns projection = inl ()
      /\ counts_granted selected projection.
Proof.
  assert (Hother : forall P Q : Prop, Q -> P <-> P /\ Q) by tauto.
  unfold check_projection, counts_granted.
  destruct (bp_expression projection) eqn:E; try (apply Hother; discriminate);
    rewrite lookup_fmap; destruct (selected !! _) as [policy|] eqn:Ep; cbn.
  - destruct (sp_allow_aggregations policy) eqn:Ea; cbn.
    + split; [|by intros _]. intros _. split; [done|]. intros r [= <-]. by exists policy.
    + split; [discriminate|]. intros [_ Hg]. destruct (Hg _ eq_refl) as (p & Hp & ?). congruence.
  - split; [discriminate|by intros [? _]].
  - apply Hother. discriminate.
  - apply Hother. discriminate.
Qed.

(** C40: [allow_aggregations] guards nothing but a projection that is a count itself: a SELECT passes
    the checks of the compiler exactly when it passes them with every policy allowed to aggregate
    and the policies of its counting projections do allow it. A count inside a CASE, the HAVING
    and the GROUP BY are never asked for the permission; docs/sql-subset.md says aggregates,
    GROUP BY and HAVING are rejected without it. *)
Theorem aggregates_checked (selected : Selected) s :
  check_select selected s = inl ()
  <-> check_select (grant_aggregations <$> selected) s = inl ()
      /\ Forall (counts_granted selected) (bs_projections s).
Proof.
  unfold check_select. fold (regular_of selected) (regular_of (grant_aggregations <$> selected)).
  rewrite grant_regular_columns. set (columns := regular_of selected).
  cbv zeta. rewrite !checks_both, !(for_each_inl (check_projection _ _)).
  assert (Hp : Forall (fun p => check_projection selected columns p = inl ()) (bs_projections s)
    <-> Forall (fun p => check_projection (grant_aggregations <$> selected) columns p = inl ())
          (bs_projections s) /\ Forall (counts_granted selected) (bs_projections s)).
  { rewrite <- Forall_and. apply Forall_iff. intros p. apply check_projection_grant. }
  tauto.
Qed.
