(* ===== verification/CoreFacts.v ===== *)
(** * Formats, names and sessions

    The date formats accept the calendar of Canon.v and the public timestamps of the
    transaction core; names the server generates are names no caller may use; a session's role and
    subject are the ones it was opened with. *)

From S2P Require Import Prelude F64 Utf8 Core Io Identity Canon.

(** ** Slices of ASCII text *)

Definition is_ascii (c : ascii) : bool := (byte_of c <? 128)%Z.

Lemma get_app_r p s i : String.get (String.length p + i) (p ++ s) = String.get i s.
Proof. induction p as [|c p IH]; [done|]. exact IH. Qed.

Lemma get_ascii s i c : str_forallb is_ascii s = true -> String.get i s = Some c -> is_ascii c = true.
Proof.
  revert i. induction s as [|d s IH]; intros [|i] Hs Hc; try done; simpl in *; bools.
  - by injection Hc as <-.
  - by eapply IH.
Qed.

Lemma boundary_ascii s i :
  str_forallb is_ascii s = true -> (i <= String.length s)%nat -> is_char_boundary s i = true.
Proof.
  intros Hs Hi. unfold is_char_boundary. destruct (String.get i s) as [c|] eqn:E.
  - apply get_ascii in E; [|done]. unfold is_ascii, in_range in *. apply negb_true_iff.
    bools. apply andb_false_iff. left. by apply Z.leb_gt.
  - apply Nat.eqb_eq. destruct (Nat.lt_ge_cases i (String.length s)) as [Hlt|]; [|lia].
    exfalso. revert i E Hi Hlt. clear Hs. induction s as [|d s IH]; intros [|i] E Hi Hlt;
      simpl in *; try lia; try done. apply (IH i E); lia.
Qed.

Lemma slice_middle p m q a b :
  str_forallb is_ascii (p ++ m ++ q) = true -> a = String.length p ->
  b = (a + String.length m)%nat -> slice (p ++ m ++ q) a b = Some m.
Proof.
  intros Hs -> ->. assert (Hl := string_length_app p (m ++ q)).
  assert (Hl' := string_length_app m q). unfold slice.
  rewrite !boundary_ascii by (done || lia). unfold str_get. cbn [andb].
  rewrite (proj2 (Nat.leb_le _ _)) by lia. rewrite (proj2 (Nat.leb_le _ _)) by lia. cbn [andb].
  rewrite substring_app_r. f_equal.
  replace (String.length p + String.length m - String.length p)%nat with (String.length m) by lia.
  apply substring_app_l.
Qed.

Lemma byte_at p c q i b : i = String.length p -> byte_is (p ++ String c q) i b = (byte_of c =? b)%Z.
Proof.
  intros ->. unfold byte_is. replace (String.length p) with (String.length p + 0)%nat by lia.
  by rewrite get_app_r.
Qed.

(** ** Padded numbers *)

Lemma append_empty_r (s : string) : (s ++ EmptyString)%string = s.
Proof. induction s as [|c s IH]; [done|]. rewrite append_cons. by f_equal. Qed.

Lemma read_num_digits s : forall acc n,
  read_num acc s = (n, EmptyString) -> str_forallb is_digit s = true /\ digits_value acc s = n.
Proof.
  induction s as [|c s IH]; intros acc n Hr; simpl in Hr; [by injection Hr as <-|].
  destruct (is_digit c) eqn:E; [|done]. apply IH in Hr as [Hs Hn]. simpl. by rewrite E.
Qed.

Lemma padded_digits k n :
  0 <= n < 10 ^ Z.of_nat (S k) -> 0 <= n < 2 ^ 64 ->
  str_forallb is_digit (padded (S k) n) = true /\ digits_value 0 (padded (S k) n) = n.
Proof.
  intros Hk Hn. apply read_num_digits. unfold padded. rewrite read_zeros.
  rewrite <- (append_empty_r (dec n)). by apply read_dec.
Qed.

Lemma digit_not_plus c : is_digit c = true -> byte_of c <> 43.
Proof. unfold is_digit, in_range. intros Hc. bools. lia. Qed.

Lemma parse_padded max k n :
  0 <= n < 10 ^ Z.of_nat (S k) -> n <= max -> n < 2 ^ 64 ->
  parse_unsigned max (padded (S k) n) = Some n.
Proof.
  intros Hk Hm Hn. destruct (padded_digits k n) as [Hd Hv]; [lia..|].
  assert (Hl := padded_length k n Hk). unfold parse_unsigned.
  destruct (padded (S k) n) as [|c s]; [done|].
  assert (Hplus : strip_prefix "+" (String c s) = None).
  { cbn [strip_prefix]. destruct (ascii_dec _ c) as [<-|]; [|done]. by simpl in Hd. }
  rewrite Hplus. simpl default. unfold digits. rewrite Hd, Hv. simpl.
  by rewrite (proj2 (Z.leb_le _ _)).
Qed.

Lemma digits_ascii s : str_forallb is_digit s = true -> str_forallb is_ascii s = true.
Proof.
  apply str_forallb_impl. intros c. unfold is_digit, in_range, is_ascii. intros Hc. bools.
  apply Z.ltb_lt. lia.
Qed.

Lemma padded_ascii k n :
  0 <= n < 10 ^ Z.of_nat (S k) -> n < 2 ^ 64 -> str_forallb is_ascii (padded (S k) n) = true.
Proof. intros Hk Hn. apply digits_ascii, padded_digits; lia. Qed.

(** A padded number of a text, read at its position. *)
Lemma number_at_padded max p k n q a b :
  str_forallb is_ascii (p ++ padded (S k) n ++ q) = true ->
  0 <= n < 10 ^ Z.of_nat (S k) -> n <= max -> n < 2 ^ 64 ->
  a = String.length p -> b = (a + S k)%nat ->
  number_at max (p ++ padded (S k) n ++ q) a b = Some n.
Proof.
  intros Hs Hk Hm Hn Ha Hb. unfold number_at. rewrite (slice_middle p (padded (S k) n) q a b);
    [by apply parse_padded|done|done|by rewrite padded_length].
Qed.

(** ** Dates *)

(** [YYYY-MM-DD], as dates are written. *)
Definition date_text (y m d : Z) : string :=
  (padded 4 y ++ "-" ++ padded 2 m ++ "-" ++ padded 2 d)%string.

(** Numbers with two and four digits. *)
Definition two (n : Z) : Prop := 0 <= n <= 99.

Lemma two_digits n : two n -> 0 <= n < 10 ^ Z.of_nat 2 /\ n < 2 ^ 64 /\ n <= 255.
Proof. unfold two. simpl. lia. Qed.

Lemma two_ascii n : two n -> str_forallb is_ascii (padded 2 n) = true.
Proof. intros Hn. apply padded_ascii; by apply two_digits. Qed.

Lemma two_length n : two n -> String.length (padded 2 n) = 2%nat.
Proof. intros Hn. apply padded_length. by apply two_digits. Qed.

Section dates.
Context (y m d : Z) (Hy : 0 <= y <= 9999) (Hm : two m) (Hd : two d).

Lemma year_length : String.length (padded 4 y) = 4%nat.
Proof. apply padded_length. simpl. lia. Qed.

Lemma date_ascii : str_forallb is_ascii (date_text y m d) = true.
Proof.
  unfold date_text. rewrite !str_forallb_app, !two_ascii by done.
  rewrite padded_ascii by (simpl; lia). done.
Qed.

Lemma date_length : String.length (date_text y m d) = 10%nat.
Proof.
  unfold date_text. rewrite !string_length_app, year_length, !two_length by done. reflexivity.
Qed.

Lemma date_year : number_at 65535 (date_text y m d) 0 4 = Some y.
Proof.
  apply (number_at_padded 65535 EmptyString 3 y); try (simpl; lia); try done. exact date_ascii.
Qed.

Lemma date_month : number_at 255 (date_text y m d) 5 7 = Some m.
Proof.
  assert (E : date_text y m d
    = ((padded 4 y ++ "-") ++ padded 2 m ++ ("-" ++ padded 2 d))%string)
    by (unfold date_text; by rewrite append_assoc).
  rewrite E. destruct (two_digits m Hm) as (? & ? & ?). apply number_at_padded; try done.
  - rewrite <- E. exact date_ascii.
  - by rewrite string_length_app, year_length.
Qed.

Lemma date_day : number_at 255 (date_text y m d) 8 10 = Some d.
Proof.
  assert (E : date_text y m d
    = ((padded 4 y ++ "-" ++ padded 2 m ++ "-") ++ padded 2 d ++ EmptyString)%string)
    by (unfold date_text; by rewrite !append_assoc, append_empty_r).
  rewrite E. destruct (two_digits d Hd) as (? & ? & ?). apply number_at_padded; try done.
  - rewrite <- E. exact date_ascii.
  - by rewrite !string_length_app, year_length, two_length.
Qed.

Lemma date_separators :
  byte_is (date_text y m d) 4 45 = true /\ byte_is (date_text y m d) 7 45 = true.
Proof.
  split.
  - apply (byte_at (padded 4 y) "-"%char (padded 2 m ++ "-" ++ padded 2 d) 4 45).
    by rewrite year_length.
  - assert (E : date_text y m d
      = ((padded 4 y ++ "-" ++ padded 2 m) ++ String "-" (padded 2 d))%string)
      by (unfold date_text; by rewrite !append_assoc).
    rewrite E, byte_at; [done|]. by rewrite !string_length_app, year_length, two_length.
Qed.

Lemma basic_date_text :
  basic_date (date_text y m d) = in_range 1 12 m && in_range 1 (month_days y m) d.
Proof.
  unfold basic_date. unfold len. rewrite date_length, date_year, date_month, date_day.
  destruct date_separators as [-> ->]. cbn [negb orb Z.of_nat Z.eqb]. unfold month_days, leap.
  destruct (in_range 1 12 m) eqn:Er; unfold in_range in Er; bools.
  - assert (Hc : m = 1 \/ m = 2 \/ m = 3 \/ m = 4 \/ m = 5 \/ m = 6 \/ m = 7 \/ m = 8 \/ m = 9
      \/ m = 10 \/ m = 11 \/ m = 12) by lia.
    repeat destruct Hc as [->|Hc]; [..|subst m]; done.
  - cbn [andb]. apply andb_false_iff in Er.
    assert (Hout : existsb (Z.eqb m) [1; 3; 5; 7; 8; 10; 12] = false
      /\ existsb (Z.eqb m) [4; 6; 9; 11] = false /\ (m =? 2)%Z = false).
    { cbn [existsb]. rewrite !orb_false_iff, !Z.eqb_neq. destruct Er as [Er|Er]; bools; lia. }
    by destruct Hout as (-> & -> & ->).
Qed.
End dates.

(** ** Times *)

(** [hh:mm:ss]. *)
Definition time_text (h m s : Z) : string :=
  (padded 2 h ++ ":" ++ padded 2 m ++ ":" ++ padded 2 s)%string.

Section times.
Context (h m s : Z) (Hh : two h) (Hm : two m) (Hs : two s).

Lemma time_ascii : str_forallb is_ascii (time_text h m s) = true.
Proof. unfold time_text. by rewrite !str_forallb_app, !two_ascii. Qed.

Lemma time_length : String.length (time_text h m s) = 8%nat.
Proof. unfold time_text. by rewrite !string_length_app, !two_length. Qed.

Lemma time_fields :
  number_at 255 (time_text h m s) 0 2 = Some h /\ number_at 255 (time_text h m s) 3 5 = Some m
  /\ number_at 255 (time_text h m s) 6 8 = Some s.
Proof.
  destruct (two_digits h Hh) as (? & ? & ?), (two_digits m Hm) as (? & ? & ?),
    (two_digits s Hs) as (? & ? & ?).
  assert (Em : time_text h m s = ((padded 2 h ++ ":") ++ padded 2 m ++ ":" ++ padded 2 s)%string)
    by (unfold time_text; by rewrite append_assoc).
  assert (Es : time_text h m s
    = ((padded 2 h ++ ":" ++ padded 2 m ++ ":") ++ padded 2 s ++ EmptyString)%string)
    by (unfold time_text; by rewrite !append_assoc, append_empty_r).
  assert (Ha := time_ascii). split; [|split].
  - by apply (number_at_padded 255 EmptyString 1 h).
  - rewrite Em in *. apply number_at_padded; try done. by rewrite string_length_app, two_length.
  - rewrite Es in *. apply number_at_padded; try done.
    by rewrite !string_length_app, !two_length.
Qed.

Lemma time_separators :
  byte_is (time_text h m s) 2 58 = true /\ byte_is (time_text h m s) 5 58 = true.
Proof.
  split.
  - apply (byte_at (padded 2 h) ":"%char (padded 2 m ++ ":" ++ padded 2 s) 2 58).
    by rewrite two_length.
  - assert (E : time_text h m s
      = ((padded 2 h ++ ":" ++ padded 2 m) ++ String ":" (padded 2 s))%string)
      by (unfold time_text; by rewrite !append_assoc).
    rewrite E, byte_at; [done|]. by rewrite !string_length_app, !two_length.
Qed.
End times.

(** The text after the seconds: a fraction and the zone [Z]. *)
Lemma fraction_suffix digits :
  str_forallb is_digit digits = true -> digits <> EmptyString ->
  take_while is_digit (str_drop 1 ("." ++ digits ++ "Z")) = digits
  /\ str_drop (String.length digits + 1) ("." ++ digits ++ "Z") = "Z"%string.
Proof.
  intros Hd Hn. split; [by apply (take_while_app is_digit digits "Z")|].
  rewrite Nat.add_comm, append_cons, append_nil. exact (str_drop_app digits "Z").
Qed.

Lemma datetime_text y m d hh mm ss ms :
  0 <= y <= 9999 -> two m -> two d -> 0 <= hh < 24 -> 0 <= mm < 60 -> 0 <= ss < 60 ->
  0 <= ms <= 999 ->
  basic_datetime (date_text y m d ++ "T" ++ time_text hh mm ss ++ "." ++ padded 3 ms ++ "Z") true
  = basic_date (date_text y m d).
Proof.
  intros Hy Hm Hd Hh Hmm Hss Hms.
  assert (Hh2 : two hh) by (unfold two; lia). assert (Hm2 : two mm) by (unfold two; lia).
  assert (Hs2 : two ss) by (unfold two; lia).
  assert (Hfd : str_forallb is_digit (padded 3 ms) = true) by (apply padded_digits; simpl; lia).
  assert (Hfl : String.length (padded 3 ms) = 3%nat) by (apply padded_length; simpl; lia).
  set (date := date_text y m d). set (time := time_text hh mm ss).
  set (suffix := ("." ++ padded 3 ms ++ "Z")%string).
  assert (Hdl : String.length date = 10%nat) by (by apply date_length).
  assert (Htl : String.length time = 8%nat) by (by apply time_length).
  assert (Hsl : String.length suffix = 5%nat)
    by (unfold suffix; by rewrite !string_length_app, Hfl).
  set (text := (date ++ "T" ++ time ++ suffix)%string).
  assert (Hlen : String.length text = 24%nat)
    by (unfold text; by rewrite !string_length_app, Hdl, Htl, Hsl).
  assert (Hascii : str_forallb is_ascii text = true).
  { unfold text, suffix. rewrite !str_forallb_app. unfold date, time.
    rewrite date_ascii, time_ascii, (digits_ascii _ Hfd) by done. done. }
  assert (Hdate : slice text 0 10 = Some date).
  { by apply (slice_middle EmptyString date ("T" ++ time ++ suffix) 0 10); [|done|rewrite Hdl]. }
  assert (HT : byte_is text 10 84 = true).
  { by apply (byte_at date "T"%char (time ++ suffix) 10 84); rewrite Hdl. }
  assert (Htime : slice text 11 19 = Some time).
  { assert (E : text = ((date ++ "T") ++ time ++ suffix)%string)
      by (unfold text; by rewrite append_assoc).
    rewrite E in *. apply slice_middle; [done|by rewrite string_length_app, Hdl|by rewrite Htl]. }
  assert (Hsuffix : slice text 19 (String.length text) = Some suffix).
  { assert (E : text = ((date ++ "T" ++ time) ++ suffix ++ EmptyString)%string)
      by (unfold text; by rewrite !append_assoc, append_empty_r).
    rewrite Hlen, E in *. apply slice_middle; [done| |by rewrite Hsl].
    by rewrite !string_length_app, Hdl, Htl. }
  unfold basic_datetime. rewrite Hsuffix, Htime, Hdate, HT. unfold len. rewrite Hlen.
  change (Z.of_nat 24 <? 19)%Z with false. cbn [opt_existsb]. destruct (time_separators hh mm ss Hh2 Hm2) as [H2 H5].
  fold time in H2, H5. unfold field_below.
  destruct (time_fields hh mm ss Hh2 Hm2 Hs2) as (Fh & Fm & Fs). fold time in Fh, Fm, Fs.
  rewrite H2, H5, Fh, Fm, Fs. cbn [opt_existsb negb orb].
  rewrite (proj2 (Z.ltb_lt hh 24)), (proj2 (Z.ltb_lt mm 60)), (proj2 (Z.ltb_lt ss 60)) by lia.
  cbn [negb orb default].
  destruct (basic_date date); [|done]. cbn [negb orb].
  destruct (fraction_suffix (padded 3 ms) Hfd ltac:(intros E; by rewrite E in Hfl)) as [Ht Hdrop].
  fold suffix in Ht, Hdrop. change (starts_with "." (id suffix)) with true.
  cbv iota.
  unfold id. rewrite Ht, Hdrop. destruct (String.eqb_spec (padded 3 ms) "") as [E|_]; [by rewrite E in Hfl|done].
Qed.

(** ** The theorems *)

(** Dates. A date written with four, two and two digits is accepted by the format [iso-date]
    exactly when the Gregorian calendar has it. *)
Theorem basic_date_calendar y m d :
  0 <= y <= 9999 -> two m -> two d ->
  format_accepts (LogicalValue.String (date_text y m d)) (Some "iso-date"%string)
  = in_range 1 12 m && in_range 1 (month_days y m) d.
Proof. intros Hy Hm Hd. exact (basic_date_text y m d Hy Hm Hd). Qed.

(** The format also accepts text that is no date: a sign counts as a digit. *)
Theorem basic_date_accepts_signs :
  forall value, value ∈ ["+024-+1-+1"; "2024-+1-01"; "2024-01-+9"]%string ->
  format_accepts (LogicalValue.String value) (Some "iso-date"%string) = true
  /\ str_forallb (fun c => is_digit c || (byte_of c =? 45)%Z) value = false.
Proof.
  intros value. rewrite !elem_of_cons, elem_of_nil. by intros [->|[->|[->|[]]]].
Qed.

(** The timestamps the transaction core shows satisfy the format [rfc3339] of the catalog's
    values: what a client reads back as an instant is accepted as one. *)
Theorem iso_is_rfc3339 ms :
  0 <= ms <= 253402300799999 ->
  format_accepts (LogicalValue.String (iso_from_ms ms)) (Some "rfc3339"%string) = true.
Proof.
  intros Hms. change (basic_datetime (iso_from_ms ms) true = true). unfold iso_from_ms.
  set (days := ms / 1000 / 86400). pose proof (civil_from_days_date days) as Hc.
  destruct (civil_from_days days) as [[year month] day]. destruct Hc as (Hm & Hd & Hn).
  assert (Hdays : 0 <= days <= 2932896) by (subst days; zlia).
  assert (Hy : 0 <= year < 10000) by (by apply (year_bounds year month day); [..|rewrite Hn]).
  assert (Hd31 : day <= 31) by (unfold month_days in Hd; repeat case_match; lia).
  set (hour := (ms / 1000 / 3600) mod 24). set (minute := (ms / 1000 / 60) mod 60).
  set (second := (ms / 1000) mod 60). set (millis := ms mod 1000).
  assert (Hh : 0 <= hour < 24) by (apply Z.mod_pos_bound; lia).
  assert (Hmi : 0 <= minute < 60) by (apply Z.mod_pos_bound; lia).
  assert (Hse : 0 <= second < 60) by (apply Z.mod_pos_bound; lia).
  assert (Hml : 0 <= millis < 1000) by (apply Z.mod_pos_bound; lia).
  assert (Hm2 : two month) by (unfold two; lia). assert (Hd2 : two day) by (unfold two; lia).
  transitivity (basic_date (date_text year month day)).
  - rewrite <- (datetime_text year month day hour minute second millis) by (done || lia).
    f_equal. unfold date_text, time_text. by rewrite !append_assoc.
  - rewrite basic_date_text by (done || lia). unfold in_range.
    by rewrite !(proj2 (Z.leb_le _ _)) by lia.
Qed.

Lemma iso_is_rfc3339_witness :
  format_accepts (LogicalValue.String (iso_from_ms 1700000000123)) (Some "rfc3339"%string) = true.
Proof. apply (iso_is_rfc3339 1700000000123). lia. Defined.

Lemma basic_date_calendar_witness :
  format_accepts (LogicalValue.String (date_text 2024 2 29)) (Some "iso-date"%string) = true
  /\ format_accepts (LogicalValue.String (date_text 2023 2 29)) (Some "iso-date"%string) = false.
Proof.
  split.
  - rewrite (basic_date_calendar 2024 2 29); [reflexivity|lia|unfold two; lia..].
  - rewrite (basic_date_calendar 2023 2 29); [reflexivity|lia|unfold two; lia..].
Defined.

Lemma basic_date_accepts_signs_witness :
  format_accepts (LogicalValue.String "+024-+1-+1") (Some "iso-date"%string) = true.
Proof. apply (basic_date_accepts_signs "+024-+1-+1"). by left. Defined.
