(* ===== verification/SessionFacts.v ===== *)
(** * Sessions and server parameters

    What a trusted session holds, and that the parameters the policy compiler adds to a plan carry
    its claims under names no caller can use. *)

From S2P Require Import Prelude Result F64 Utf8 Core Access Bytes Catalog Ir Policy Activate.
From S2P Require Import Protect CompilePolicy Views PolicyWorld MutationFacts.

(** ** The session *)

Lemma session_claims_spec claims : forall values out,
  session_claims claims values = inl out ->
  Forall (fun c => canonical_key c.1 = true /\ c.1 ∉ ["subject_id"; "role"]%string) claims
  /\ forall key, out !! key = match assoc key (rev claims) with
                              | Some value => Some value
                              | None => values !! key
                              end.
Proof.
  induction claims as [|[k v] claims IH]; intros values out Hc; simpl in Hc.
  { injection Hc as <-. by split; [constructor|]. }
  unfold str_in in Hc. case_bool_decide as Hres; [done|].
  unfold session_key_new, validated_string in Hc.
  destruct (canonical_key k) eqn:Ek; simpl in Hc; [|done].
  apply IH in Hc as [Hall Hout]. split; [constructor; [done|exact Hall]|].
  intros key. rewrite Hout. simpl.
  assert (Happ : forall l : list (string * string),
    assoc key (l ++ [(k, v)]) = match assoc key l with
                                | Some w => Some w
                                | None => if String.eqb k key then Some v else None
                                end).
  { induction l as [|[k' v'] l IHl]; simpl; [done|]. by destruct (String.eqb k' key). }
  rewrite Happ. destruct (assoc key (rev claims)); [done|].
  destruct (String.eqb_spec k key) as [->|Hne]; [by rewrite lookup_insert_eq|by rewrite lookup_insert_ne].
Qed.

Lemma opened_session role subject claims session :
  trusted_session_new role subject claims = inl session ->
  session_role session = role /\ session_get session "role" = Some role
  /\ session_get session "subject_id" = Some subject.
Proof.
  unfold trusted_session_new. case_match; [done|]. case_match; [|done]. intros [= <-].
  unfold session_get. simpl. split; [done|]. by rewrite lookup_insert_eq, lookup_insert_ne, lookup_insert_eq.
Qed.

(** The session. A session that opens has a subject, answers [role] and [subject_id] with what
    it was opened with, whatever its claims say, and every other key with the last claim of that
    key; its claims' keys are canonical and none of the two reserved ones. *)
Theorem session_trusted role subject claims session :
  trusted_session_new role subject claims = inl session ->
  subject <> EmptyString /\ session_role session = role
  /\ session_get session "role" = Some role /\ session_get session "subject_id" = Some subject
  /\ Forall (fun c => canonical_key c.1 = true /\ c.1 ∉ ["subject_id"; "role"]%string) claims
  /\ forall key, key ∉ ["subject_id"; "role"]%string ->
       session_get session key = assoc key (rev claims).
Proof.
  intros Hn. destruct (opened_session _ _ _ _ Hn) as (? & ? & ?). revert Hn.
  unfold trusted_session_new. destruct (String.eqb_spec subject "") as [|Hs]; [done|].
  destruct (session_claims claims ∅) as [values|] eqn:E; [|done]. intros [= <-].
  apply session_claims_spec in E as [Hall Hout]. split_and!; try done. unfold session_get. simpl.
  intros key Hkey. rewrite !not_elem_of_cons in Hkey. destruct Hkey as (Hsub & Hrole & _).
  rewrite !lookup_insert_ne by done. rewrite Hout, lookup_empty. by destruct (assoc _ _).
Qed.

Lemma session_trusted_witness :
  session_get (get no_session (trusted_session_new "member" "ann" [("team", "a"); ("team", "b")]))
    "team" = Some "b"%string.
Proof.
  destruct (session_trusted "member" "ann" [("team", "a"); ("team", "b")]%string
    (get no_session (trusted_session_new "member" "ann" [("team", "a"); ("team", "b")]%string))
    ltac:(vm_compute; reflexivity)) as (_ & _ & _ & _ & _ & Hkey).
  rewrite Hkey; [reflexivity|]. rewrite !not_elem_of_cons. split; [done|]. split; [done|].
  apply not_elem_of_nil.
Defined.

(** ** Server parameters *)

(** The plan is the result of a computation that collects. *)
Lemma compiled_server_values b statement session out :
  (compile_select b statement session = inl out \/ compile_insert b statement session = inl out
   \/ compile_update b statement session = inl out \/ compile_delete b statement session = inl out) ->
  session_values_only session (pp_server_values (co_plan out)).
Proof.
  intros [Hc|[Hc|[Hc|Hc]]]; destruct statement as [s|s|s|s|s|s]; simpl in Hc; try done.
  - apply result_bind_inl in Hc as [[resources selected] [_ Hc]].
    apply result_bind_inl in Hc as [[protected values] [Hp Hc]]. injection Hc as <-. simpl.
    eapply run_collects; [|exact Hp]. unfold protect_select. collects.
  - injection Hc as <-. apply empty_session_values.
  - unfold compile_json_collection_select in Hc.
    apply result_bind_inl in Hc as [policy [_ Hc]]. case_match; [done|].
    apply result_bind_inl in Hc as [[] [_ Hc]].
    apply result_bind_inl in Hc as [[filter values] [Hf Hc]]. injection Hc as <-. simpl.
    eapply run_collects; [|exact Hf]. collects.
  - apply result_bind_inl in Hc as [policy [_ Hc]]. apply result_bind_inl in Hc as [[] [_ Hc]].
    apply result_bind_inl in Hc as [[[rows check] values] [Hr Hc]].
    apply result_bind_inl in Hc as [n [_ Hc]]. injection Hc as <-. simpl.
    eapply run_collects; [|exact Hr]. unfold preset_assignments. collects.
  - apply result_bind_inl in Hc as [policy [_ Hc]]. apply result_bind_inl in Hc as [[] [_ Hc]].
    apply result_bind_inl in Hc as [[] [_ Hc]].
    apply result_bind_inl in Hc as [[[[presets filter] check] values] [Hr Hc]].
    injection Hc as <-. simpl. eapply run_collects; [|exact Hr]. unfold preset_assignments. collects.
  - apply result_bind_inl in Hc as [policy [_ Hc]]. apply result_bind_inl in Hc as [[] [_ Hc]].
    apply result_bind_inl in Hc as [[filter values] [Hr Hc]]. injection Hc as <-. simpl.
    eapply run_collects; [|exact Hr]. collects.
Qed.

Lemma starts_with_app p s : starts_with p (p ++ s) = true.
Proof. unfold starts_with. rewrite strip_prefix_app. by apply bool_decide_eq_true. Qed.

(** C18: server parameters. Every server parameter of a plan, of any statement, is a claim of the
    trusted session that the policy asked for, under a name in the reserved namespace: no caller
    can name it, or bind it. *)
Theorem server_parameters_reserved b statement session out name value :
  (compile_select b statement session = inl out \/ compile_insert b statement session = inl out
   \/ compile_update b statement session = inl out \/ compile_delete b statement session = inl out) ->
  pp_server_values (co_plan out) !! name = Some value ->
  client_parameter_name_new name = inr CoreError.ReservedParameterNamespace
  /\ exists key text, name = (SERVER_PARAMETER_PREFIX ++ "session_" ++ key)%string
     /\ session_get session key = Some text /\ value = LogicalValue.String text.
Proof.
  intros Hc Hv. apply compiled_server_values in Hc. destruct (Hc _ _ Hv) as (key & text & -> & Hk & ->).
  unfold client_parameter_name_new. rewrite starts_with_app. split; [done|].
  by exists key, text.
Qed.

Lemma server_parameters_reserved_witness :
  client_parameter_name_new "__policysql_session_subject_id"
  = inr CoreError.ReservedParameterNamespace.
Proof.
  apply (server_parameters_reserved world_bundle (BoundStatement.Select world_select) world_session
    world_output "__policysql_session_subject_id" (LogicalValue.String "ann"));
    [left; vm_compute; reflexivity|vm_compute; reflexivity].
Defined.

(** ** What an authorization grants

    The shape rules decide alone whether a session is malformed, and the canonical result of an
    authorization enters the rules again as what it was. *)

Lemma session_claims_ok claims : forall values,
  existsb (fun '(key, _) => bad_claim key) claims = false ->
  exists out, session_claims claims values = inl out.
Proof.
  induction claims as [|[k v] claims IH]; intros values Hb; simpl in *; [by eexists|].
  apply orb_false_iff in Hb as [Hb Hr]. unfold bad_claim in Hb. apply orb_false_iff in Hb as [Hk Hok].
  rewrite Hk. destruct (session_key_new k); [by apply IH|done].
Qed.

Lemma session_opens role subject claims :
  subject <> EmptyString -> existsb (fun '(key, _) => bad_claim key) claims = false ->
  exists session, trusted_session_new role subject claims = inl session.
Proof.
  intros Hs Hc. unfold trusted_session_new. destruct (String.eqb_spec subject ""); [done|].
  destruct (session_claims_ok claims ∅ Hc) as [out ->]. by eexists.
Qed.

Lemma role_name_new_ok name : is_ok (role_name_new name) = true -> role_name_new name = inl name.
Proof. unfold role_name_new, validated_string. by destruct (canonical_key name). Qed.

(** What the shape rules leave. *)
Lemma check_shape_inl input permissions :
  check_shape input = inl permissions ->
  si_subject input <> EmptyString
  /\ (forall role, role ∈ si_roles input -> role_name_new role = inl role)
  /\ existsb (fun '(key, _) => bad_claim key) (si_session input) = false
  /\ exists access, mapM parse_access (si_access input) = Some access
       /\ permissions = list_to_set access.
Proof.
  unfold check_shape. intros Hc. case_match; [done|].
  destruct (String.eqb_spec (si_subject input) "") as [|Hs]; [done|].
  case_match eqn:Er; [done|]. apply orb_false_iff in Er as [Er _]. apply orb_false_iff in Er as [_ Er].
  case_match; [done|]. apply result_bind_inl in Hc as [access [Ha Hc]]. apply ok_or_inl in Ha.
  case_match; [done|]. case_match eqn:Es; [done|]. injection Hc as <-.
  split; [done|]. split; [|split; [done|by exists access]].
  intros role Hin. apply role_name_new_ok. apply list_elem_of_In in Hin.
  destruct (is_ok (role_name_new role)) eqn:E; [done|].
  assert (existsb (fun role => negb (is_ok (role_name_new role))) (si_roles input) = true);
    [|congruence]. apply existsb_exists. exists role. by rewrite E.
Qed.

(** After the shape rules only the request can be refused. *)
Lemma authorize_after_shape input requested required permissions :
  check_shape input = inl permissions ->
  let role := default (si_default_role input) requested in
  if str_in role (si_roles input) && bool_decide (required ∈ permissions)
  then exists trusted,
    trusted_session_new role (si_subject input) (si_session input) = inl trusted
    /\ authorize_session input requested required
       = inl ({| as_principal := si_principal input; as_subject := si_subject input;
                 as_role := role; as_roles := si_roles input; as_access := si_access input;
                 as_session := si_session input |},
              {| auth_session := trusted; auth_permissions := permissions |})
  else authorize_session input requested required = inr SessionError.Forbidden.
Proof.
  intros Hc role. unfold authorize_session. rewrite Hc. simpl. fold role.
  destruct (str_in role (si_roles input)) eqn:Er; simpl; [|done].
  destruct (bool_decide (required ∈ permissions)); simpl; [|done].
  apply check_shape_inl in Hc as (Hs & Hroles & Hclaims & _).
  apply bool_decide_eq_true in Er. rewrite (Hroles _ Er). simpl.
  destruct (session_opens role _ _ Hs Hclaims) as [trusted Ht]. exists trusted. by rewrite Ht.
Qed.

Lemma authorize_inl input requested required canonical auth :
  authorize_session input requested required = inl (canonical, auth) ->
  let role := default (si_default_role input) requested in
  exists permissions, check_shape input = inl permissions
    /\ role ∈ si_roles input /\ required ∈ permissions
    /\ trusted_session_new role (si_subject input) (si_session input) = inl (auth_session auth)
    /\ auth_permissions auth = permissions
    /\ canonical = {| as_principal := si_principal input; as_subject := si_subject input;
                      as_role := role; as_roles := si_roles input; as_access := si_access input;
                      as_session := si_session input |}.
Proof.
  intros Ha role. destruct (check_shape input) as [permissions|] eqn:Hc;
    [|unfold authorize_session in Ha; by rewrite Hc in Ha].
  pose proof (authorize_after_shape input requested required permissions Hc) as Hs. fold role in Hs.
  simpl in Hs. destruct (str_in role (si_roles input)) eqn:Er; simpl in Hs; [|congruence].
  destruct (bool_decide (required ∈ permissions)) eqn:Ep; [|congruence].
  destruct Hs as (trusted & Ht & Hs). rewrite Hs in Ha. injection Ha as <- <-.
  apply bool_decide_eq_true in Er, Ep. by exists permissions.
Qed.

(** The shape rules say the same of a session whatever its default role. *)
Lemma check_shape_role input role :
  role ∈ si_roles input -> is_ok (check_shape input) = true ->
  check_shape
    {| si_principal := si_principal input; si_subject := si_subject input;
       si_roles := si_roles input; si_default_role := role; si_access := si_access input;
       si_session := si_session input |}
  = check_shape input.
Proof.
  intros Hr Hok. unfold check_shape in *. simpl. repeat (case_match; [done|]).
  by rewrite (bool_decide_eq_true_2 _ Hr : str_in role (si_roles input) = true).
Qed.

(** C26: authorization. An authorized caller acts in the role it asked for, or the default role, one
    of the session's roles, with the endpoint it asked for among its permissions, which are those
    the session lists; its trusted session answers [role] and [subject_id] with these. The
    canonical result enters the rules again as the same authorization, for every endpoint of the
    session and for no other. *)
Theorem authorized_reenters input requested required canonical auth :
  authorize_session input requested required = inl (canonical, auth) ->
  let role := default (si_default_role input) requested in
  role ∈ si_roles input /\ as_role canonical = role /\ required ∈ auth_permissions auth
  /\ (forall p, p ∈ auth_permissions auth <->
        exists value, value ∈ si_access input /\ parse_access value = Some p)
  /\ session_role (auth_session auth) = role
  /\ session_get (auth_session auth) "role" = Some role
  /\ session_get (auth_session auth) "subject_id" = Some (si_subject input)
  /\ forall required', activate_authorized canonical required'
       = if bool_decide (required' ∈ auth_permissions auth) then inl auth
         else inr SessionError.Forbidden.
Proof.
  intros Ha role. apply authorize_inl in Ha as (permissions & Hc & Hr & Hp & Ht & Hperm & ->).
  fold role in Hr, Ht. pose proof (opened_session _ _ _ _ Ht) as (Hrole & Hget & Hsub).
  rewrite Hperm. destruct (check_shape_inl _ _ Hc) as (_ & _ & _ & access & Hacc & Hset).
  split_and!; try done.
  - intros p. rewrite Hset, elem_of_list_to_set. apply mapM_Some in Hacc.
    rewrite !list_elem_of_lookup. split.
    + intros [i Hi]. destruct (Forall2_lookup_r _ _ _ _ _ Hacc Hi) as (value & Hv & Hpa).
      exists value. split; [|done]. apply list_elem_of_lookup. by exists i.
    + intros (value & Hv & Hpa). apply list_elem_of_lookup in Hv as [i Hi].
      destruct (Forall2_lookup_l _ _ _ _ _ Hacc Hi) as (p' & Hp' & Hpa'). exists i. congruence.
  - intros required'. unfold activate_authorized. simpl.
    match goal with |- context [authorize_session ?i _ _] => set (input' := i) end.
    assert (Hc' : check_shape input' = inl permissions).
    { subst input'. rewrite check_shape_role; [done|done|by rewrite Hc]. }
    pose proof (authorize_after_shape input' (Some role) required' permissions Hc') as Hs.
    fold role. simpl in Hs. rewrite (bool_decide_eq_true_2 _ Hr : str_in role (si_roles input) = true) in Hs.
    simpl in Hs. destruct (bool_decide (required' ∈ permissions)).
    + destruct Hs as (trusted & Ht' & ->). simpl. f_equal.
      destruct auth as [session perms]. simpl in *. congruence.
    + by rewrite Hs.
Qed.

(** Malformed sessions. Whether a session is malformed, and where, does not depend on the role
    and the endpoint the client asks for. *)
Theorem faults_before_denials input fault :
  (exists requested required,
     authorize_session input requested required = inr (SessionError.Malformed fault)) ->
  forall requested required,
    authorize_session input requested required = inr (SessionError.Malformed fault).
Proof.
  intros (r & q & Ha) r' q'. destruct (check_shape input) as [permissions|e] eqn:Hc.
  - pose proof (authorize_after_shape input r q permissions Hc) as Hs. simpl in Hs.
    case_match; [destruct Hs as (? & _ & Hs)|]; congruence.
  - unfold authorize_session in *. by rewrite Hc in *.
Qed.

Definition access_example : SessionInput :=
  {| si_principal := "issuer:ann"; si_subject := "ann"; si_roles := ["member"; "reader"];
     si_default_role := "member"; si_access := ["execute"; "catalog"];
     si_session := [("team", "a")] |}%string.

Lemma authorized_reenters_witness :
  exists canonical auth,
    authorize_session access_example (Some "reader"%string) EndpointPermission.Execute
      = inl (canonical, auth)
    /\ activate_authorized canonical EndpointPermission.Catalog = inl auth
    /\ activate_authorized canonical EndpointPermission.Debug = inr SessionError.Forbidden.
Proof.
  destruct (authorize_session access_example (Some "reader"%string) EndpointPermission.Execute)
    as [[canonical auth]|] eqn:E; [|vm_compute in E; discriminate].
  destruct (authorized_reenters access_example (Some "reader"%string) EndpointPermission.Execute
    canonical auth E) as (_ & _ & _ & Hperm & _ & _ & _ & Hre).
  exists canonical, auth. split; [done|]. rewrite !Hre. split.
  - rewrite bool_decide_eq_true_2; [done|]. apply Hperm. exists "catalog"%string.
    split; [|reflexivity]. apply elem_of_cons. right. by apply list_elem_of_singleton.
  - rewrite bool_decide_eq_false_2; [done|]. rewrite Hperm. intros (value & Hv & Hp).
    simpl in Hv. rewrite !elem_of_cons, elem_of_nil in Hv.
    destruct Hv as [->|[->|[]]]; discriminate.
Defined.

Definition malformed_example : SessionInput :=
  {| si_principal := "issuer:ann"; si_subject := "ann"; si_roles := ["member"; "member"];
     si_default_role := "member"; si_access := ["execute"]; si_session := [] |}%string.

Lemma faults_before_denials_witness :
  authorize_session malformed_example (Some "admin"%string) EndpointPermission.Debug
  = inr (SessionError.Malformed SessionFault.Roles).
Proof.
  apply (faults_before_denials malformed_example SessionFault.Roles).
  exists None, EndpointPermission.Execute. vm_compute. reflexivity.
Defined.
