(* ===== verification/ManifestFacts.v ===== *)
(** * What an activated manifest guarantees

    A JSON schema the manifest check accepts is always read, and the schema read is well formed:
    its reader never fails after the check. Every column of an activated catalog obeys the rules of
    its type, and agrees with the database where its schema was given. *)

From S2P Require Import Prelude Result F64 Utf8 Btree Core Bytes Catalog Policy Activate Turso.
From S2P Require Import Gateway Values Manifest ActivateFacts PolicyWorld SealFacts Core.

(** ** JSON schemas *)

(** A schema of at most [levels] levels. Every node has a type or branches, which are what the
    types of a path are collected from; the required members are properties; no other member is
    allowed. *)
Fixpoint schema_formed (levels : nat) (s : JsonValueSchema) : Prop :=
  match levels with
  | O => False
  | S levels =>
      (js_types s <> [] \/ js_any_of s <> [])
      /\ NoDup (js_types s)
      /\ Forall (fun '(name, s) => name <> ""%string /\ schema_formed levels s) (js_properties s)
      /\ (forall items, js_items s = Some items -> schema_formed levels items)
      /\ NoDup (js_required s) /\ js_required s ⊆ map fst (js_properties s)
      /\ js_additional_properties s = false
      /\ length (js_any_of s) <> 1%nat /\ Forall (schema_formed levels) (js_any_of s)
  end.

Lemma untagged_untag {A} (f : YamlValue -> A) v : untagged f v = f (untag v).
Proof. by induction v. Qed.

Lemma at_key_value {A} key (f : YamlValue -> A) object :
  at_key key f object = f <$> mapping_value object key.
Proof.
  induction object as [|[k v] object IH]; [done|]. destruct k; simpl; try exact IH. by case_match.
Qed.

(** The schema read from the members of a mapping. *)
Definition read_properties (v : YamlValue)
    : runtime_result (list (string * JsonValueSchema)) :=
  match as_mapping v with
  | Some properties =>
      entries ← collect (fun '(name, schema) =>
        name ← or_refused (as_str name);
        schema ← parse_json_value_schema schema;
        mret (name, schema)) properties;
      mret (foldl (fun m '(name, schema) => fst (bt_insert String.compare name schema m)) [] entries)
  | None => mret []
  end.
Definition read_branches (v : YamlValue) : runtime_result (list JsonValueSchema) :=
  match as_sequence v with
  | Some branches => collect parse_json_value_schema branches
  | None => mret []
  end.

Lemma sequence_transpose {E A B} (f : A -> result E B) (o : option A) :
  sequence_option (f <$> o) = transpose f o.
Proof. by destruct o. Qed.

Lemma transpose_ext {E A B} (f g : A -> result E B) (o : option A) :
  (forall a, f a = g a) -> transpose f o = transpose g o.
Proof. destruct o; simpl; [by intros ->|done]. Qed.

Lemma parse_schema_unfold v object :
  as_mapping v = Some object ->
  parse_json_value_schema v =
    (types ← transpose json_schema_types (mapping_value object "type");
     properties ← transpose read_properties (mapping_value object "properties");
     items ← transpose parse_json_value_schema (mapping_value object "items");
     any_of ← transpose read_branches (mapping_value object "anyOf");
     mret {| js_types := default [] types; js_properties := default [] properties;
             js_items := items;
             js_required :=
               default [] (omap (M := list) as_str <$> (mapping_value object "required" ≫= as_sequence));
             js_additional_properties := false; js_any_of := default [] any_of |}).
Proof.
  assert (Hu : parse_json_value_schema v = parse_json_value_schema (untag v)).
  { destruct v; try done. cbn [parse_json_value_schema untagged untag]. rewrite untagged_untag.
    assert (Hnt : untag (untag v) = untag v) by by induction v.
    destruct (untag v) eqn:E; try done. exfalso. clear -E. by induction v. }
  rewrite Hu. unfold as_mapping. destruct (untag v); try done. intros [= ->].
  cbn [parse_json_value_schema untagged]. rewrite !at_key_value, !sequence_transpose.
  erewrite (transpose_ext (untagged _) read_properties), (transpose_ext (untagged _) read_branches);
    [done|..]; intros w; rewrite untagged_untag; unfold read_properties, read_branches, as_mapping,
    as_sequence; by destruct (untag w).
Qed.

(** Distinct texts. *)
Lemma distinct_texts_spec p vs : forall seen,
  distinct_texts p seen vs = true ->
  exists texts, Forall2 (fun v text => as_str v = Some text /\ p text = true) vs texts
    /\ NoDup texts /\ (forall text, text ∈ texts -> text ∉ seen).
Proof.
  induction vs as [|v vs IH]; intros seen Hd; cbn [distinct_texts] in Hd.
  { exists []. split; [constructor|]. split; [constructor|]. by intros text ?%elem_of_nil. }
  destruct (as_str v) as [text|] eqn:Hv; [|done].
  apply andb_true_iff in Hd as [[Hp Hseen%negb_true_iff]%andb_true_iff Hd].
  apply IH in Hd as (texts & Htexts & Hnodup & Hnew). exists (text :: texts).
  assert (Hn : text ∉ seen) by by apply bool_decide_eq_false in Hseen.
  split; [by constructor|]. split.
  - constructor; [|done]. intros Hin%Hnew. apply Hin. left.
  - intros text' [->|Hin]%elem_of_cons; [done|]. intros Hs. apply (Hnew _ Hin). by right.
Qed.

(** ** The types of a schema *)

Lemma collect_total {E A B} (f : A -> result E B) (P : A -> B -> Prop) l :
  Forall (fun a => exists b, f a = inl b /\ P a b) l -> exists bs, collect f l = inl bs /\ Forall2 P l bs.
Proof.
  induction 1 as [|a l (b & Hb & HP) _ (bs & Hbs & IH)]; [exists []; by split; [|constructor]|].
  exists (b :: bs). simpl. rewrite Hb. simpl. rewrite Hbs. by split; [|constructor].
Qed.

Lemma schema_type_read v text :
  as_str v = Some text -> str_in text TYPES = true ->
  exists t, json_schema_type v = inl t /\ schema_type_name t = text.
Proof.
  intros Hv Ht. unfold json_schema_type. rewrite Hv. unfold str_in in Ht. bools. unfold TYPES in Ht.
  repeat (apply elem_of_cons in Ht as [->|Ht]; [by eexists|]). by apply elem_of_nil in Ht.
Qed.

Lemma schema_types_read v :
  valid_json_schema_type v = true ->
  exists ts, json_schema_types v = inl ts /\ ts <> [] /\ NoDup ts.
Proof.
  unfold valid_json_schema_type, json_schema_types. destruct (as_str v) as [text|] eqn:Hv.
  - intros Ht. assert (as_sequence v = None) as ->.
    { unfold as_str in Hv. unfold as_sequence. by destruct (untag v). }
    destruct (schema_type_read _ _ Hv Ht) as (t & Hread & _). exists [t]. simpl. rewrite Hread.
    split; [done|]. split; [done|]. apply NoDup_singleton.
  - destruct (as_sequence v) as [vs|]; [|done]. intros [Hlen Hd]%andb_true_iff.
    apply distinct_texts_spec in Hd as (texts & Htexts & Hnodup & _).
    destruct (collect_total json_schema_type
      (fun v t => as_str v = Some (schema_type_name t)) vs) as (ts & Hts & Hnames).
    { clear -Htexts. induction Htexts as [|v text vs texts [Hv Ht] _ IH]; constructor; [|done].
      destruct (schema_type_read _ _ Hv Ht) as (t & Hread & <-). by exists t. }
    exists ts. cbn [default from_option]. split; [done|]. split.
    + intros ->. apply Forall2_nil_inv_r in Hnames as ->. done.
    + assert (texts = map schema_type_name ts) as ->; [|by apply (NoDup_fmap_1 schema_type_name)].
      clear -Htexts Hnames. revert ts Hnames. induction Htexts as [|v text vs texts [Hv _] _ IH];
        intros ts Hnames; inversion Hnames as [|? t ? ts' Ht Hts]; subst; simpl; [done|].
      f_equal; [congruence|by apply IH].
Qed.

(** ** The properties of a schema *)

Lemma bt_insert_keys {V} k (v : V) m l :
  l = k \/ l ∈ map fst m -> l ∈ map fst (fst (bt_insert String.compare k v m)).
Proof.
  induction m as [|[l' w] m IH]; simpl; [intros [->|H%elem_of_nil]; [left|done]|]. intros Hl.
  destruct (String.compare k l') eqn:E; simpl.
  - apply String.compare_eq_iff in E as ->. destruct Hl as [->|[->|?]%elem_of_cons];
      [left|left|by right].
  - destruct Hl as [->|Hl]; [left|by right].
  - destruct (bt_insert String.compare k v m) as [m' old]. simpl in *.
    destruct Hl as [->|[->|Hl]%elem_of_cons]; [right; apply IH; by left|left|right; apply IH; by right].
Qed.

Definition collected {V} (entries : list (string * V)) (m : list (string * V)) : list (string * V) :=
  foldl (fun m '(k, v) => fst (bt_insert String.compare k v m)) m entries.

Lemma collected_spec {V} (entries : list (string * V)) : forall m,
  (forall x, x ∈ collected entries m -> x ∈ entries \/ x ∈ m)
  /\ (forall k, k ∈ map fst entries \/ k ∈ map fst m -> k ∈ map fst (collected entries m)).
Proof.
  induction entries as [|[k v] entries IH]; intros m; simpl.
  { split; [by right|]. by intros k [?%elem_of_nil|]. }
  destruct (IH (fst (bt_insert String.compare k v m))) as [Hin Hkeys]. split.
  - intros [l w] [Hx|Hx%bt_insert_elem]%Hin; [left; by right|].
    destruct Hx as [[-> ->]|]; [left; left|by right].
  - intros l Hl. apply Hkeys. destruct Hl as [[->|?]%elem_of_cons|?];
      [right; apply bt_insert_keys; by left|by left|right; apply bt_insert_keys; by right].
Qed.

Lemma key_eqb_text a b : key_eqb a b = true -> as_str a = as_str b.
Proof.
  revert b. induction a as [| | |text| | |tag a IH]; intros c Hk; destruct c; try done; simpl in Hk.
  - by apply String.eqb_eq in Hk as ->.
  - apply andb_true_iff in Hk as [_ Hk]. exact (IH _ Hk).
Qed.

Section formed.
Context (levels : nat).
(** The schemas one level down. *)
Context (Hdeeper : forall v, valid_json_value_schema levels v = true ->
  exists s, parse_json_value_schema v = inl s /\ schema_formed levels s).

Definition property_valid '((name, schema) : YamlValue * YamlValue) : bool :=
  opt_existsb (fun name => negb (String.eqb name "")) (as_str name)
  && valid_json_value_schema levels schema.

Lemma properties_read v properties :
  as_mapping v = Some properties -> forallb property_valid properties = true ->
  exists m, read_properties v = inl m
    /\ Forall (fun '(name, s) => name <> ""%string /\ schema_formed levels s) m
    /\ forall key schema text, (key, schema) ∈ properties -> as_str key = Some text ->
         text ∈ map fst m.
Proof.
  intros Hv Hvalid. unfold read_properties. rewrite Hv.
  destruct (collect_total (fun '(name, schema) =>
      name ← or_refused (as_str name);
      schema ← parse_json_value_schema schema;
      mret (name, schema) : runtime_result (string * JsonValueSchema))
    (fun '(key, _) '(name, s) => as_str key = Some name /\ name <> ""%string
                                 /\ schema_formed levels s) properties)
    as (entries & Hentries & Hall).
  { rewrite forallb_forall in Hvalid. apply Forall_forall. intros [key schema] Hin.
    apply list_elem_of_In, Hvalid in Hin. unfold property_valid in Hin.
    apply andb_true_iff in Hin as [Hname (s & Hs & Hf)%Hdeeper].
    destruct (as_str key) as [name|]; [|done]. simpl in Hname. exists (name, s). simpl. rewrite Hs.
    repeat split; [|done]. intros ->. done. }
  rewrite Hentries. eexists. split; [reflexivity|].
  change (foldl _ _ _) with (collected entries []). destruct (collected_spec entries []) as [Hin Hkeys].
  split.
  - apply Forall_forall. intros [name s] [Hx|?%elem_of_nil]%Hin; [|done].
    clear -Hall Hx. induction Hall as [|[k v] [n t] l l' (_ & ? & ?) _ IH]; [by apply elem_of_nil in Hx|].
    apply elem_of_cons in Hx as [[= -> ->]|Hx]; [done|by apply IH].
  - intros key schema text Hk Ht. apply Hkeys. left.
    clear -Hall Hk Ht. induction Hall as [|[k v] [n t] l l' (Hn & _) _ IH]; [by apply elem_of_nil in Hk|].
    apply elem_of_cons in Hk as [[= <- <-]|Hk]; simpl; [|right; by apply IH].
    rewrite Ht in Hn. injection Hn as ->. left.
Qed.

Lemma required_read properties v :
  required_holds properties v = true ->
  exists texts, omap (M := list) as_str <$> as_sequence v = Some texts /\ NoDup texts
    /\ forall text, text ∈ texts -> exists members key schema,
         properties = Some members /\ (key, schema) ∈ members /\ as_str key = Some text.
Proof.
  unfold required_holds. destruct (as_sequence v) as [vs|]; [|done].
  intros [Hd Hall]%andb_true_iff. apply distinct_texts_spec in Hd as (texts & Htexts & Hnodup & _).
  assert (Hom : omap as_str vs = texts).
  { clear -Htexts. induction Htexts as [|w text ws texts [Hw _] _ IH]; [done|]. simpl.
    rewrite Hw. by f_equal. }
  exists texts. simpl. rewrite Hom. split; [done|]. split; [done|]. intros text Hin.
  rewrite <- Hom in Hin. apply list_elem_of_omap in Hin as (w & Hw & Ht).
  rewrite forallb_forall in Hall. apply list_elem_of_In, Hall in Hw.
  destruct properties as [members|]; [|done]. simpl in Hw. apply existsb_exists in Hw as ([key schema] & Hk & He).
  exists members, key, schema. split; [done|]. split; [by apply list_elem_of_In|].
  by rewrite <- (key_eqb_text _ _ He).
Qed.

Lemma branches_read v :
  opt_existsb (fun branches =>
    negb (length branches <? 2)%nat && forallb (valid_json_value_schema levels) branches)
    (as_sequence v) = true ->
  exists out, read_branches v = inl out
    /\ (out <> [] /\ length out <> 1%nat /\ Forall (schema_formed levels) out).
Proof.
  unfold read_branches. destruct (as_sequence v) as [bs|]; [|done]. simpl. intros [Hlen Hbs]%andb_true_iff.
  destruct (collect_total parse_json_value_schema (fun _ s => schema_formed levels s) bs)
    as (out & Hout & Hall).
  { rewrite forallb_forall in Hbs. apply Forall_forall. intros b Hb.
    by apply Hdeeper, Hbs, list_elem_of_In. }
  exists out. split; [done|]. apply negb_true_iff, Nat.ltb_ge in Hlen.
  rewrite (Forall2_length _ _ _ Hall) in Hlen. split; [intros ->; simpl in Hlen; lia|].
  split; [lia|]. clear -Hall. by induction Hall; constructor.
Qed.

(** The names an optional list requires. *)
Lemma required_all required properties (names : list string) :
  opt_forallb (required_holds properties) required = true ->
  (forall members key schema text, properties = Some members -> (key, schema) ∈ members ->
     as_str key = Some text -> text ∈ names) ->
  let texts := default [] (omap (M := list) as_str <$> (required ≫= as_sequence)) in
  NoDup texts /\ texts ⊆ names.
Proof.
  destruct required as [v|]; [|by split; [constructor|intros text ?%elem_of_nil]]. simpl.
  intros (texts & Ht & Hnodup & Hin)%required_read Hnames. rewrite Ht. split; [done|].
  intros text (members & key & schema & Hp & Hk & Hs)%Hin. by eapply Hnames.
Qed.
End formed.

Lemma transpose_total {E A B} (f : A -> result E B) (P : B -> Prop) (o : option A) :
  (forall a, o = Some a -> exists b, f a = inl b /\ P b) ->
  exists b, transpose f o = inl b /\ (forall x, b = Some x -> P x) /\ (is_some o = is_some b).
Proof.
  destruct o as [a|]; intros Hf; [|by exists None]. destruct (Hf a eq_refl) as (b & Hb & HP).
  exists (Some b). simpl. rewrite Hb. split; [done|]. by split; [intros x [= <-]|].
Qed.

(** A schema the check accepts is read, and the schema read is well formed. *)
Lemma valid_schema_read levels : forall v,
  valid_json_value_schema levels v = true ->
  exists s, parse_json_value_schema v = inl s /\ schema_formed levels s.
Proof.
  induction levels as [|levels IH]; intros v Hvalid; [done|]. cbn [valid_json_value_schema] in Hvalid.
  destruct (as_mapping v) as [object|] eqn:Hv; [|done]. rewrite (parse_schema_unfold _ _ Hv).
  apply andb_true_iff in Hvalid as [Hvalid Hsome]. apply andb_true_iff in Hvalid as [Hvalid Hany].
  apply andb_true_iff in Hvalid as [Hvalid Hrequired]. apply andb_true_iff in Hvalid as [Hvalid Hitems].
  apply andb_true_iff in Hvalid as [Hmembers Hproperties].
  unfold schema_members_hold in Hmembers. apply andb_true_iff in Hmembers as [_ Htypes].
  unfold has_key in *.
  destruct (transpose_total json_schema_types (fun ts => ts <> [] /\ NoDup ts)
    (mapping_value object "type")) as (types & -> & Hts & Htsome).
  { intros w Hw. rewrite Hw in Htypes. exact (schema_types_read _ Htypes). }
  destruct (transpose_total read_properties (fun m =>
      Forall (fun '(name, s) => name <> ""%string /\ schema_formed levels s) m
      /\ forall members key schema text,
           (mapping_value object "properties" ≫= as_mapping) = Some members ->
           (key, schema) ∈ members -> as_str key = Some text -> text ∈ map fst m)
    (mapping_value object "properties")) as (properties & -> & Hps & Hpsome).
  { intros w Hw. rewrite Hw in Hproperties |- *. simpl in Hproperties |- *.
    destruct (as_mapping w) as [members|] eqn:Hm; [|done].
    destruct (properties_read levels IH w members Hm Hproperties) as (m & Hr & Hf & Hk).
    exists m. split; [done|]. split; [done|]. intros members' key schema text [= <-]. apply Hk. }
  destruct (transpose_total parse_json_value_schema (schema_formed levels)
    (mapping_value object "items")) as (items & -> & His & _).
  { intros w Hw. rewrite Hw in Hitems. exact (IH _ Hitems). }
  destruct (transpose_total read_branches (fun out =>
      out <> [] /\ length out <> 1%nat /\ Forall (schema_formed levels) out)
    (mapping_value object "anyOf")) as (any_of & -> & Hbs & Hbsome).
  { intros w Hw. rewrite Hw in Hany. exact (branches_read levels IH _ Hany). }
  eexists. split; [reflexivity|]. rewrite Htsome, Hbsome in Hsome.
  destruct (required_all _ _ (map fst (default [] properties)) Hrequired) as [Hnodup Hsub].
  { intros members key schema text Hm Hin Ht. destruct properties as [m|].
    - destruct (Hps m eq_refl) as [_ Hk]. by eapply Hk.
    - by destruct (mapping_value object "properties"). }
  destruct types as [ts|], any_of as [out|]; try done; destruct properties as [m|];
    repeat match goal with H : forall x, Some ?a = Some x -> _ |- _ => specialize (H a eq_refl) end;
    cbn [schema_formed js_types js_properties js_items js_required js_additional_properties js_any_of
         default from_option]; destruct_and?; repeat split; auto using NoDup_nil_2.
Qed.

(** ** Columns *)

Section activation.
Context `{Regex} `{Target}.

(** What a descriptor of a column promises: the rules of its type, and agreement with what the
    database says of the column. *)
Record column_agrees (physical : option PhysicalColumn) (column : CatalogColumn)
    (d : ValueDescriptor) : Prop := {
  agrees_type :
    match cc_logical_type column with
    | Some name => fst <$> assoc name LOGICAL_TYPES = Some (vd_logical_type d)
    | None => exists c storage, physical = Some c /\ declared_storage (ph_declared_type c) = inl storage
        /\ (derived_logical_type storage).1 = vd_logical_type d
    end;
  agrees_bytes : vd_logical_type d = LogicalType.Bytes ->
    vd_representation d = ValueRepresentation.Base64
    \/ vd_representation d = ValueRepresentation.String;
  agrees_format : format_allowed (vd_logical_type d) (vd_format d) = true;
  agrees_storage : opt_forallb (storage_holds (vd_logical_type d)) (vd_storage d) = true;
  agrees_constraints :
    opt_forallb (constraints_hold (vd_logical_type d)) (vd_constraints d) = true;
  agrees_schema s : vd_json_schema d = Some s ->
    vd_logical_type d = LogicalType.Json /\ vd_representation d = ValueRepresentation.Json
    /\ schema_formed (S MAX_SCHEMA_DEPTH) s;
  agrees_physical c : physical = Some c ->
    vd_nullable d = ph_nullable c
    /\ exists storage, declared_storage (ph_declared_type c) = inl storage
       /\ vd_storage d = Some storage
}.

Lemma accept_bind {A} b (k : runtime_result A) a :
  (accept b;; k) = inl a <-> b = true /\ k = inl a.
Proof. apply require_bind. Qed.

Lemma transpose_inl {E A B} (f : A -> result E B) o b :
  transpose f o = inl b -> match o with Some a => exists x, f a = inl x /\ b = Some x | None => b = None end.
Proof.
  destruct o as [a|]; simpl; [|by intros [= <-]]. intros (x & Hx & [= <-])%result_bind_inl. by exists x.
Qed.

Lemma column_type_inl column derived t representation :
  column_type column derived = inl (t, representation) ->
  match cc_logical_type column with
  | Some name => fst <$> assoc name LOGICAL_TYPES = Some t
  | None => exists storage, derived = Some storage /\ (derived_logical_type storage).1 = t
  end
  /\ (t = LogicalType.Bytes -> representation = ValueRepresentation.Base64
                               \/ representation = ValueRepresentation.String).
Proof.
  unfold column_type. intros ([t' default] & Ht & Hr)%result_bind_inl.
  apply result_bind_inl in Hr as (rep & _ & [Hb [= -> ->]]%accept_bind). split.
  - destruct (cc_logical_type column) as [name|]; apply ok_or_inl in Ht.
    + change (assoc name LOGICAL_TYPES = Some (t, default)) in Ht. by rewrite Ht.
    + destruct derived as [storage|]; [|done]. injection Ht as Ht. exists storage. by rewrite Ht.
  - intros ->. rewrite bool_decide_true in Hb by done. simpl in Hb.
    apply orb_true_iff in Hb as [?%bool_decide_eq_true|?%bool_decide_eq_true]; [by left|by right].
Qed.

Lemma column_schema_inl column t representation schema s :
  column_schema column t representation = inl schema -> schema = Some s ->
  t = LogicalType.Json /\ representation = ValueRepresentation.Json
  /\ schema_formed (S MAX_SCHEMA_DEPTH) s.
Proof.
  unfold column_schema. destruct (cc_json_schema column) as [v|]; [|by intros [= <-]].
  intros [Hb Hs]%accept_bind ->. apply andb_true_iff in Hb as [Hb Hv]. bools.
  apply valid_schema_read in Hv as (s' & Hp & Hf). rewrite Hp in Hs. injection Hs as <-. done.
Qed.

Lemma agree_some {A} `{EqDecision A} (a : option A) x : agree a (Some x) = true -> default x a = x.
Proof.
  unfold agree, both. destruct a as [a|]; [|done]. intros Hn%negb_true_iff.
  apply bool_decide_eq_false in Hn. simpl. by destruct (decide (a = x)).
Qed.

Lemma parse_constraints_hold v t c :
  parse_constraints v t = inl c -> constraints_hold t c = true.
Proof.
  unfold parse_constraints. do 6 (intros (? & _ & Hc)%result_bind_inl; revert Hc).
  by intros [Hc [= <-]]%accept_bind.
Qed.

Lemma validated_string_inl p e text text' : validated_string p e text = inl text' -> text' = text.
Proof. unfold validated_string. destruct (p text); [by intros [= <-]|done]. Qed.

Lemma activate_column_agrees physical name column name' bytes d :
  activate_column physical name column = inl (name', bytes, d) ->
  name' = name /\ column_agrees physical column d.
Proof.
  unfold activate_column. intros (derived & Hderived & Hc)%result_bind_inl.
  apply result_bind_inl in Hc as ([t representation] & Ht & Hc).
  apply accept_bind in Hc as [Hformat Hc].
  apply result_bind_inl in Hc as (constraints & Hconstraints & Hc).
  apply result_bind_inl in Hc as (schema & Hschema & Hc).
  apply result_bind_inl in Hc as (declared & Hdeclared & [Hagree Hc]%accept_bind).
  apply accept_bind in Hc as [Hstorage [Hnull Hc]%accept_bind].
  apply result_bind_inl in Hc as (n & Hn & [= <- _ <-]).
  apply map_err_inl, validated_string_inl in Hn. split; [done|].
  apply column_type_inl in Ht as [Ht Hbytes]. apply transpose_inl in Hderived.
  split; cbn [vd_logical_type vd_representation vd_nullable vd_format vd_storage vd_constraints
              vd_json_schema].
  - destruct (cc_logical_type column); [done|]. destruct Ht as (storage & -> & Ht).
    destruct physical as [c|]; [|done]. destruct Hderived as (x & Hx & [= <-]). by exists c, storage.
  - done.
  - destruct (cc_format column) as [format|]; [done|]. by case_bool_decide as Ht'; [rewrite Ht'|].
  - done.
  - apply transpose_inl in Hconstraints. destruct (cc_constraints column) as [v|]; [|by subst].
    destruct Hconstraints as (c & Hparse & ->). exact (parse_constraints_hold _ _ _ Hparse).
  - intros s Hs. by eapply column_schema_inl.
  - intros c ->. destruct Hderived as (x & Hx & ->). split.
    + apply (agree_some (cc_nullable column) (ph_nullable c)) in Hnull. by destruct (cc_nullable column).
    + exists x. split; [done|]. apply (agree_some declared x) in Hagree. by destruct declared; simpl in *; subst.
Qed.

(** ** Resources and catalogs *)

(** What the database says of a column, which it must have when its schema is given. *)
Inductive described (physical : option PhysicalSchema) (table column : string)
    : option PhysicalColumn -> Prop :=
| described_unknown : physical = None -> described physical table column None
| described_by p t c :
    physical = Some p -> ph_tables p !! table = Some t -> ph_columns t !! column = Some c ->
    described physical table column (Some c).

(** A column of a resource comes from the manifest and agrees with the database. *)
Definition column_comes_from (physical : option PhysicalSchema) (resource : CatalogResource)
    (name : string) (d : ValueDescriptor) : Prop :=
  exists column c, (name, column) ∈ cr_columns resource
    /\ described physical (src_table (cr_source resource)) name c /\ column_agrees c column d.

(** Recording the length of a declared type leaves the rest of a resource. *)
Lemma declared_bytes_keep (columns : list (string * Z * ValueDescriptor)) : forall r,
  resource_built r ->
  let r' := foldl (fun r '(name, bytes, _) => with_declared_type_bytes name bytes r) r columns in
  resource_built r' /\ rd_name r' = rd_name r
  /\ forall d, d ∈ Catalog.columns r' ->
       exists d0, d0 ∈ Catalog.columns r /\ cd_name d = cd_name d0 /\ cd_value d = cd_value d0.
Proof.
  induction columns as [|[[name bytes] value] columns IH]; intros r Hr; simpl.
  { split; [done|]. split; [done|]. intros d Hd. by exists d. }
  destruct (IH (with_declared_type_bytes name bytes r)) as (Hb & Hn & Hc); [by constructor|].
  split; [done|]. rewrite Hn. unfold with_declared_type_bytes in *.
  destruct (bt_get _ _ _) as [d0|] eqn:E; [|by split]. split; [done|].
  intros d (d1 & Hd1 & -> & ->)%Hc. unfold Catalog.columns in Hd1 |- *.
  apply (proj1 (bt_get_elem String.compare _ _ _ (columns_sorted _ (resource_built_valid _ Hr)))) in E.
  apply list_elem_of_fmap in Hd1 as ([k x] & -> & Hx). cbn [rd_columns] in Hx.
  apply bt_insert_elem in Hx as [[-> ->]|Hx].
  - exists d0. split; [|done]. by apply (list_elem_of_fmap_2 snd _ (canonical name, d0)).
  - exists x. split; [|done]. by apply (list_elem_of_fmap_2 snd _ (k, x)).
Qed.

Lemma physical_entry_described physical table column t c :
  physical_entry ph_tables table physical = inl t ->
  physical_entry ph_columns column t = inl c -> described physical table column c.
Proof.
  unfold physical_entry. intros Ht%transpose_inl Hc%transpose_inl.
  destruct physical as [p|]; [|subst t; subst c; by left].
  destruct Ht as (t' & Ht%ok_or_inl & ->). destruct Hc as (c' & Hc%ok_or_inl & ->). by eright.
Qed.

Lemma activate_resource_inl physical id name resource r :
  activate_manifest_resource physical id name resource = inl r ->
  resource_built r /\ rd_name r = name
  /\ forall d, d ∈ Catalog.columns r -> column_comes_from physical resource (cd_name d) (cd_value d).
Proof.
  unfold activate_manifest_resource. intros [_ Hr]%accept_bind.
  apply result_bind_inl in Hr as (table & Htable & Hr).
  apply result_bind_inl in Hr as (columns & Hcolumns%collect_inl & Hr).
  apply result_bind_inl in Hr as (id' & _ & Hr).
  apply result_bind_inl in Hr as (name' & Hname%map_err_inl%validated_string_inl & Hr).
  apply result_bind_inl in Hr as (source & _ & Hr).
  apply result_bind_inl in Hr as (descriptor & Hnew%map_err_inl & [= <-]).
  destruct (declared_bytes_keep columns descriptor) as (Hb & Hn & Hc); [by econstructor|].
  destruct (resource_new_spec _ _ _ _ _ Hnew) as (_ & _ & Hname' & Hin).
  split; [done|]. split; [by rewrite Hn, Hname'|]. intros d (d0 & Hd0 & -> & ->)%Hc.
  apply list_elem_of_fmap in Hd0 as ([k d1] & -> & (i & c & Hi & _ & ->)%Hin).
  rewrite list_lookup_fmap in Hi. apply fmap_Some in Hi as ([[n bytes] value] & Hi & ->).
  destruct (Forall2_lookup_r _ _ _ _ _ Hcolumns Hi) as ([column_name column] & Hlookup & Hcol).
  apply result_bind_inl in Hcol as (c & Hphysical & [-> Hagrees]%activate_column_agrees).
  exists column, c. split; [by eapply list_elem_of_lookup_2|]. split; [|done].
  by eapply physical_entry_described.
Qed.

Lemma activate_resources_inl physical resources : forall id rs,
  activate_resources physical id resources = inl rs ->
  Forall2 (fun '(name, resource) r =>
    resource_built r /\ rd_name r = name
    /\ forall d, d ∈ Catalog.columns r ->
         column_comes_from physical resource (cd_name d) (cd_value d)) resources rs.
Proof.
  induction resources as [|[name resource] resources IH]; intros id rs Hrs; simpl in Hrs;
    [injection Hrs as <-; constructor|].
  apply result_bind_inl in Hrs as (r & Hr%activate_resource_inl & Hrs).
  apply result_bind_inl in Hrs as (rest & Hrest & [= <-]). constructor; [done|by eapply IH].
Qed.

Lemma catalog_resources snapshot rs c r :
  catalog_new snapshot rs = inl c -> r ∈ Catalog.resources c -> r ∈ rs.
Proof.
  unfold catalog_new. destruct (resolve_resources rs []) as [out|] eqn:E; [|done].
  apply resolve_resources_spec in E as [_ Hin]; [|done]. intros Hc Hr.
  assert (Hcat : cat_resources c = out) by (by destruct out; [done|injection Hc as <-]).
  unfold Catalog.resources in Hr. rewrite Hcat in Hr. apply list_elem_of_fmap in Hr as ([k r'] & -> & Hr).
  apply Hin in Hr as [?%elem_of_nil|[? _]]; [done|done].
Qed.

Context `{ManifestSerde}.

Lemma activate_with_schema_built yaml snapshot physical c :
  activate_catalog_with_schema yaml snapshot physical = inl c ->
  catalog_built c /\ cat_snapshot c = snapshot.
Proof.
  unfold activate_catalog_with_schema. intros (manifest & _ & [_ Hc]%accept_bind)%result_bind_inl.
  apply result_bind_inl in Hc as (rs & Hrs%activate_resources_inl & Hc%map_err_inl). split.
  - exists snapshot, rs. split; [done|]. clear -Hrs.
    induction Hrs as [|[name resource] r l l' (Hr & _) _ IH]; by constructor.
  - unfold catalog_new in Hc. by repeat case_match; simplify_eq.
Qed.

Lemma activate_with_schema_columns yaml snapshot physical c :
  activate_catalog_with_schema yaml snapshot physical = inl c ->
  exists manifest, manifest_from_str yaml = Some manifest /\ cm_version manifest = 1
    /\ forall r d, r ∈ Catalog.resources c -> d ∈ Catalog.columns r ->
         exists resource, (rd_name r, resource) ∈ cm_resources manifest
           /\ column_comes_from physical resource (cd_name d) (cd_value d).
Proof.
  unfold activate_catalog_with_schema.
  intros (manifest & Hm%ok_or_inl & [Hversion Hc]%accept_bind)%result_bind_inl.
  apply andb_true_iff in Hversion as [Hversion _].
  apply result_bind_inl in Hc as (rs & Hrs%activate_resources_inl & Hc%map_err_inl).
  exists manifest. split; [done|]. split; [by apply Z.eqb_eq|]. intros r d Hr Hd.
  apply (catalog_resources _ _ _ _ Hc), list_elem_of_lookup_1 in Hr as (i & Hi).
  destruct (Forall2_lookup_r _ _ _ _ _ Hrs Hi) as ([name resource] & Hl & _ & <- & Hcolumns).
  exists resource. split; [by eapply list_elem_of_lookup_2|by apply Hcolumns].
Qed.

(** C17: every catalog an activation returns is of the snapshot and built from the manifest: each of
    its columns is declared there, exists in the database when the schema of the database was
    given, has its nullability and storage then, and obeys the rules of its type: the formats,
    storage and constraints of the type, a bytes column as base64 text, and a JSON schema only on a
    JSON column, well formed and at most 33 levels deep. *)
Theorem manifest_activates yaml snapshot physical c :
  activate_catalog_with_schema yaml snapshot physical = inl c ->
  catalog_built c /\ cat_snapshot c = snapshot
  /\ exists manifest, manifest_from_str yaml = Some manifest /\ cm_version manifest = 1
     /\ forall r d, r ∈ Catalog.resources c -> d ∈ Catalog.columns r ->
          exists resource, (rd_name r, resource) ∈ cm_resources manifest
            /\ column_comes_from physical resource (cd_name d) (cd_value d).
Proof.
  intros Ha. destruct (activate_with_schema_built _ _ _ _ Ha). split; [done|]. split; [done|].
  exact (activate_with_schema_columns _ _ _ _ Ha).
Qed.
End activation.

(** ** A concrete manifest *)

Definition yaml_text (s : string) : YamlValue := YamlValue.String s.
Definition yaml_object (members : list (string * YamlValue)) : YamlValue :=
  YamlValue.Mapping (map (fun '(key, v) => (yaml_text key, v)) members).

Definition manifest_column (type format : option string) (constraints json_schema : option YamlValue)
    : CatalogColumn :=
  {| cc_logical_type := type; cc_representation := None; cc_storage := None; cc_nullable := None;
     cc_format := format; cc_constraints := constraints; cc_json_schema := json_schema |}.
(** A column whose type is that of the database. *)
Definition derived_column : CatalogColumn := manifest_column None None None None.

(** [{type: object, properties: {tag: {anyOf: [{type: string}, {type: [integer, "null"]}]}},
    required: [tag]}] *)
Definition meta_schema : YamlValue :=
  yaml_object
    [("type", yaml_text "object");
     ("properties", yaml_object
        [("tag", yaml_object
            [("anyOf", YamlValue.Sequence
                [yaml_object [("type", yaml_text "string")];
                 yaml_object [("type", YamlValue.Sequence [yaml_text "integer"; yaml_text "null"])]])])]);
     ("required", YamlValue.Sequence [yaml_text "tag"])]%string.

Definition world_manifest : CatalogManifest :=
  {| cm_version := 1;
     cm_resources :=
       [("projects", {| cr_source := {| src_table := "projects" |};
           cr_columns :=
             [("id", derived_column);
              ("meta", manifest_column (Some "json") None None (Some meta_schema));
              ("name", manifest_column (Some "string") None
                         (Some (yaml_object [("maxLength", yaml_int 40)])) None);
              ("owner", manifest_column (Some "string") (Some "uuid") None None);
              ("secret", derived_column)] |});
        ("tasks", {| cr_source := {| src_table := "tasks" |};
           cr_columns := [("id", derived_column); ("project", derived_column)] |})] |}%string.

Definition declares (declared : string) (nullable : bool) : PhysicalColumn :=
  {| ph_declared_type := declared; ph_nullable := nullable |}.
Definition world_schema : PhysicalSchema :=
  {| ph_tables := list_to_map
       [("projects", {| ph_columns := list_to_map
           [("id", declares "INTEGER" false); ("meta", declares "text" true);
            ("name", declares "VARCHAR(40)" false); ("owner", declares "TEXT" false);
            ("secret", declares "TEXT" false)] |});
        ("tasks", {| ph_columns := list_to_map
           [("id", declares "BIGINT" false); ("project", declares "INT" false)] |})] |}%string.

#[export] Instance world_manifests : ManifestSerde := {|
  manifest_from_str text := if String.eqb text "catalog" then Some world_manifest else None;
  physical_from_str text := if String.eqb text "schema" then Some world_schema else None
|}.

Definition no_catalog : Catalog := {| cat_snapshot := ""; cat_resources := [] |}.
Definition manifest_catalog `{Regex} `{Target} : Catalog :=
  PolicyWorld.get no_catalog (activate_catalog_with_schema "catalog" "snapshot" (Some world_schema)).

#[local] Existing Instance plain_regex.

Example manifest_catalog_columns :
  map (fun r => (rd_name r, map (fun d => (cd_name d, vd_logical_type (cd_value d),
         vd_nullable (cd_value d), cd_declared_type_bytes d)) (Catalog.columns r)))
    (Catalog.resources manifest_catalog)
  = [("projects", [("id", LogicalType.Int64, false, 7); ("meta", LogicalType.Json, true, 4);
                   ("name", LogicalType.String, false, 11); ("owner", LogicalType.String, false, 4);
                   ("secret", LogicalType.String, false, 4)]);
     ("tasks", [("id", LogicalType.Int64, false, 6); ("project", LogicalType.Int64, false, 3)])]%string.
Proof. vm_compute. reflexivity. Qed.

Lemma manifest_activates_witness :
  catalog_built manifest_catalog /\ cat_snapshot manifest_catalog = "snapshot"%string.
Proof.
  destruct (manifest_activates "catalog" "snapshot" (Some world_schema) manifest_catalog) as (Hb & Hs & _).
  - vm_compute. reflexivity.
  - split; [exact Hb|exact Hs].
Defined.
