(* ===== verification/GatewayFacts.v ===== *)
(** * What the gateway guarantees

    From the text of a request to the rows of the sealed statement: the theorems of the binder,
    the policy compiler, the emitter and the sealing put together; and what an atomic execution
    runs. *)

From S2P Require Import PolicyWorld.
From S2P Require Import Prelude Result F64 Utf8 Core Bytes Access Catalog Ir Policy Activate Protect.
From S2P Require Import CompilePolicy Plan SqlAst Binding Binder Complexity Descriptors Emit Sealing.
From S2P Require Import Semantics SqlMeaning Views Gateway.
From S2P Require Import ActivateFacts ProtectFacts ViewFacts EmitFacts SealFacts SessionFacts.
From S2P Require Import BindFacts BinderFacts Semantics.

(** ** One statement *)

Lemma map_error_inl {E E' A} (f : E -> E') (m : result E A) a : map_error f m = inl a -> m = inl a.
Proof. destruct m; [by intros [= ->]|done]. Qed.

(** The operation of a statement. *)
Definition operation_of (statement : BoundStatement) : OperationKind.operation_kind :=
  match statement with
  | BoundStatement.Insert _ => OperationKind.Insert
  | BoundStatement.Update _ => OperationKind.Update
  | BoundStatement.Delete _ => OperationKind.Delete
  | _ => OperationKind.Select
  end.

(** What the statement of a request has gone through. *)
Record request_compiled `{Regex} `{Dialect} (g : Gateway) (session : TrustedSession)
    (request : StatementRequest) (compiled : CompiledStatement) (document : BoundDocument)
    (out : CompileOutput) (plan : ProtectedPlan) : Prop := {
  request_bound :
    bind_document (gw_binding_limits g) (gw_catalog g) (rq_sql request) = inl document;
  request_protected : protect_statement g (doc_statement document) session = inl out;
  request_plan : exists affected,
    plan = requested_plan (co_plan out) affected (rq_expected_row_count request)
             (doc_string_literals document);
  request_sealed :
    compile_verified (operation_of (pp_statement plan)) plan (gw_catalog g) (rq_parameters request)
      (gw_limits g) (gw_snapshot g) = inl (cs_plan compiled);
  request_explained : cs_explain compiled = co_explain out
}.

Lemma compile_request_inl `{Regex} `{Dialect} g session index request bytes compiled bytes' :
  compile_request g session index request bytes = inl (compiled, bytes') ->
  exists document out plan, request_compiled g session request compiled document out plan.
Proof.
  unfold compile_request. intros Hc.
  apply result_bind_inl in Hc as [document [Hd%map_error_inl Hc]].
  apply result_bind_inl in Hc as [out [Ho%map_error_inl Hc]].
  apply result_bind_inl in Hc as [affected [_ Hc]].
  apply result_bind_inl in Hc as [sealed_plan [Hs%map_error_inl Hc]].
  case_match; [done|]. apply result_bind_inl in Hc as [contracts [_ [= <- _]]].
  exists document, out, (requested_plan (co_plan out) affected (rq_expected_row_count request)
    (doc_string_literals document)).
  split; [done|done|by exists affected| |done]. cbn [cs_plan]. revert Hs. unfold seal_statement.
  by destruct (pp_statement _).
Qed.

(** A document that is a select was parsed as one and bound by [bind_select]. *)
Lemma bind_document_select `{Dialect} limits catalog sql document query s :
  bind_document limits catalog sql = inl document ->
  parse_commands sql = Some [Cmd.Stmt (Stmt.Select query)] ->
  doc_statement document = BoundStatement.Select s ->
  exists trace, bind_select limits catalog query = inl (s, trace).
Proof.
  unfold bind_document. intros Hd Hp Hs. destruct (forallb _ _); [done|]. rewrite Hp in Hd.
  cbn [ok_or mbind result_bind] in Hd. apply result_bind_inl in Hd as [[statement trace] [Hb [= <-]]].
  cbn [doc_statement] in Hs. subst statement. unfold bind_statement in Hb.
  destruct (has_json_table_call query); [apply result_bind_inl in Hb as [[? ?] [_ ?]]; done|].
  assert (Hselect : ('(select, trace) ← bind_select limits catalog query;
    mret (BoundStatement.Select select, trace)) = inl (BoundStatement.Select s, trace) ->
    exists trace, bind_select limits catalog query = inl (s, trace)).
  { intros [[s' t] [Hb' [= -> _]]]%result_bind_inl. by exists t. }
  destruct query as [? [? ? [|] ? ? ?|] ? ? ?]; try (by apply Hselect).
  by apply result_bind_inl in Hb as [? [_ ?]].
Qed.

(** Literals get names that no value of the session has. *)
Lemma literal_names_free session values n :
  session_values_only session values -> values !! literal_name n = None.
Proof.
  intros Hv. destruct (values !! literal_name n) as [v|] eqn:E; [|done].
  destruct (Hv _ _ E) as (key & text & Heq & _). exfalso. unfold literal_name in Heq.
  assert (Hs : strip_prefix SERVER_PARAMETER_PREFIX
    (SERVER_PARAMETER_PREFIX ++ ("literal_" ++ dec n))%string
    = strip_prefix SERVER_PARAMETER_PREFIX
        (SERVER_PARAMETER_PREFIX ++ ("session_" ++ key))%string) by by rewrite Heq.
  rewrite !strip_prefix_app in Hs. discriminate Hs.
Qed.

(** From text to rows: what the SQL sealed for a query returns on the tables, its visibility columns
    left out, is what the query says about the view of the role, cut at the policies' limit. *)
Lemma sealed_answers `{EngineLaws} `{YamlLaws} `{Base64} `{Regex} `{Dialect} g session index
    request bytes compiled bytes' document query s out protected tables :
  catalog_built (gw_catalog g) -> bundle_served (gw_policies g) ->
  parse_commands (rq_sql request) = Some [Cmd.Stmt (Stmt.Select query)] ->
  compile_request g session index request bytes = inl (compiled, bytes') ->
  bind_document (gw_binding_limits g) (gw_catalog g) (rq_sql request) = inl document ->
  doc_statement document = BoundStatement.Select s ->
  compile_select (gw_policies g) (BoundStatement.Select s) session = inl out ->
  pp_statement (co_plan out) = BoundStatement.Select protected ->
  let plan := sealed (cs_plan compiled) in
  let client := rq_parameters request in
  let server := plan_server_parameters plan in
  let params := {| client_values := client; server_params := server |} in
  well_named query = true -> select_plain s = true -> limit_counts params s = true ->
  (select_aliases protected).2 <= 2 ^ 64 -> select_every (readable server) protected ->
  plan_client_parameters plan = client
  /\ exists node, plan_protected_sql plan = print_stmt (Stmt.Select node)
  /\ map (shown (bs_projections protected)) (run_sql tables (values client server) node)
     = bounded (policy_bound (pp_policy_limit (co_plan out)))
         (run_query (gw_catalog g)
            (role_view (gw_policies g) session (ex_resources (co_explain out))
               (database (gw_catalog g) tables))
            (parameter client) query).
Proof.
  intros Hcat Hserved Hparse Hreq Hdoc Hs Hout Hprot plan client server params Hnamed Hplain Hcount
    Haliases Hread.
  apply compile_request_inl in Hreq as (document' & out' & plan' & [Hd Hp [affected Hplan] Hseal _]).
  rewrite Hdoc in Hd. injection Hd as <-. rewrite Hs in Hp. cbn [protect_statement] in Hp.
  rewrite Hout in Hp. injection Hp as <-.
  apply compile_verified_passed in Hseal as (_ & emitted & result & _ & Hemit & _ & _ & _ & _ & _ & _ & _ & Hsealed).
  assert (Hserver : server = em_server_parameters emitted) by (unfold server, plan; by rewrite Hsealed).
  assert (Hstatement : pp_statement plan' = BoundStatement.Select protected) by by rewrite Hplan.
  assert (Hvalues : pp_server_values plan' = pp_server_values (co_plan out)) by by rewrite Hplan.
  assert (Hsession : session_values_only session (pp_server_values plan')).
  { rewrite Hvalues. eapply compiled_server_values. left. exact Hout. }
  rewrite Hserver in Hread.
  destruct (emitted_rows (gw_catalog g) tables plan' protected emitted client Hcat Hstatement Haliases
    (fun n => literal_names_free _ _ n Hsession) Hemit Hread) as (Hle & node & Hsql & Hrun).
  rewrite <- Hserver, Hvalues in Hle. rewrite <- Hserver in Hrun.
  split; [unfold plan; by rewrite Hsealed|]. exists node.
  split; [unfold plan; rewrite Hsealed; exact Hsql|].
  rewrite Hrun, shown_rows.
  apply compile_select_inl in Hout as (protected' & Hst & Hprotect & ->).
  rewrite Hprot in Hst. injection Hst as <-.
  rewrite (select_refines_view (gw_policies g) session
    (select_activated _ (served_policies _ Hserved)) s protected (pp_server_values (co_plan out))
    (database (gw_catalog g) tables) params _ Hprotect Hplain Hle Hcount).
  destruct (bind_document_select _ _ _ _ _ _ Hdoc Hparse Hs) as [trace Hbind].
  f_equal. exact (select_answers _ _ _ _ _ (bind_select_reads _ Hcat _ params _ query _ _ Hbind Hnamed)).
Qed.

(** ** What an atomic execution runs *)

(** The candidate is a read: its operation is a select, and its text parses as one. *)
Definition reads_only `{Dialect} (plan : CandidateExecutionPlan) : Prop :=
  plan_operation plan = OperationKind.Select
  /\ exists query, parse_commands (plan_protected_sql plan) = Some [Cmd.Stmt (Stmt.Select query)].

Section atomic.
Context `{Regex} `{Dialect} (g : Gateway).

Lemma sealed_operation operation plan catalog client_parameters limits snapshot p :
  compile_verified operation plan catalog client_parameters limits snapshot = inl p ->
  plan_operation (sealed p) = operation
  /\ exists statement, parse_commands (plan_protected_sql (sealed p)) = Some [Cmd.Stmt statement]
     /\ is_operation operation statement = true.
Proof.
  intros (_ & emitted & result & statement & _ & _ & _ & _ & _ & Hs & Hk & _ & ->)%compile_verified_passed.
  split; [done|]. by exists statement.
Qed.

Lemma compiled_reads session requests : forall index bytes compiled,
  compile_requests g session index requests bytes = inl compiled ->
  Forall (fun statement => plan_operation (sealed (cs_plan statement)) = OperationKind.Select ->
    reads_only (sealed (cs_plan statement))) compiled.
Proof.
  induction requests as [|request requests IH]; intros index bytes compiled Hc; simpl in Hc;
    [injection Hc as <-; constructor|].
  apply result_bind_inl in Hc as [[statement bytes'] [Hr Hc]].
  apply result_bind_inl in Hc as [statements [Hrest [= <-]]].
  constructor; [|by eapply IH]. intros Hop. split; [done|].
  apply compile_request_inl in Hr as (document & out & plan & [_ _ _ Hsealed _]).
  destruct (sealed_operation _ _ _ _ _ _ _ Hsealed) as (Hop' & statement' & Hparse & Hkind).
  rewrite Hop' in Hop. rewrite Hop in Hkind.
  destruct statement' as [query| | | |]; try done. by exists query.
Qed.

Lemma execute_all_invariant {World Output} (execute : CandidateExecutionPlan -> World -> option Output * World)
    (I : World -> Prop) statements : forall w,
  Forall (fun statement => forall w, I w -> I (execute (sealed (cs_plan statement)) w).2) statements ->
  I w -> I (execute_all execute statements w).2.
Proof.
  induction statements as [|statement statements IH]; intros w Hs Hw; [done|].
  apply Forall_cons in Hs as [Hs Hrest]. specialize (Hs w Hw). simpl.
  destruct (execute _ w) as [[output|] w1]; [|done]. simpl in Hs.
  specialize (IH w1 Hrest Hs). destruct (execute_all execute statements w1) as [outputs w2]. done.
Qed.
End atomic.

(** C29: an atomic execution changes nothing that reading does not. Whatever the statements of the
    envelope are, a property of the database that sealed reads keep is kept by the whole
    execution; and the database is not touched unless the caller has the permission to execute,
    the schema is the one it expects, every statement of the envelope has been compiled and all of
    them are reads. *)
Theorem atomic_only_reads `{Regex} `{Dialect} {World Output} g
    (execute : CandidateExecutionPlan -> World -> option Output * World) (I : World -> Prop) auth
    precondition requests w :
  (forall plan w, reads_only plan -> I w -> I (execute plan w).2) ->
  I w ->
  let outcome := execute_atomic g execute auth precondition requests w in
  I outcome.2
  /\ (outcome.2 = w
      \/ EndpointPermission.Execute ∈ auth_permissions auth
         /\ opt_forallb (String.eqb (gw_snapshot g)) precondition = true
         /\ 0 < Z.of_nat (length requests) <= gw_max_statements g
         /\ exists compiled, compile_requests g (auth_session auth) 0 requests 0 = inl compiled
            /\ length compiled = length requests
            /\ Forall (fun statement => reads_only (sealed (cs_plan statement))) compiled).
Proof.
  intros Hreads Hw outcome. unfold outcome, execute_atomic. clear outcome.
  destruct (compile_envelope g auth EndpointPermission.Execute precondition requests)
    as [compiled|e] eqn:Hc; [|by split; [|left]].
  unfold compile_envelope in Hc. case_bool_decide as Hperm; [|done]. cbn [negb] in Hc.
  destruct (opt_existsb _ precondition) eqn:Hpre; [done|].
  destruct (_ || _) eqn:Hlen; [done|]. apply orb_false_iff in Hlen as [Hne Hmax].
  destruct (existsb _ compiled) eqn:Hop; [by split; [|left]|].
  assert (Hall : Forall (fun statement => reads_only (sealed (cs_plan statement))) compiled).
  { assert (Hr := compiled_reads _ _ _ _ _ _ Hc). apply Forall_forall. intros statement Hin.
    apply (proj1 (Forall_forall _ _) Hr _ Hin). apply not_true_iff_false in Hop.
    destruct (decide (plan_operation (sealed (cs_plan statement)) = OperationKind.Select)); [done|].
    exfalso. apply Hop, existsb_exists. exists statement. split; [by apply list_elem_of_In|].
    by rewrite bool_decide_false. }
  split.
  - apply execute_all_invariant; [|done]. eapply Forall_impl; [exact Hall|].
    intros statement Hs w' Hw'. by apply Hreads.
  - right. split; [done|]. split; [|split; [|exists compiled; split; [done|]]].
    + destruct precondition as [value|]; [|done]. simpl in *. apply negb_false_iff in Hpre.
      by rewrite String.eqb_sym.
    + bools. destruct requests; [done|]. simpl in *. lia.
    + split; [|done]. clear -Hc. revert Hc. generalize 0%nat, 0. revert compiled.
      induction requests as [|request requests IH]; intros compiled index bytes Hc; simpl in Hc;
        [by injection Hc as <-|].
      apply result_bind_inl in Hc as [[statement bytes'] [_ Hc]].
      apply result_bind_inl in Hc as [statements [Hrest [= <-]]]. simpl. f_equal. by eapply IH.
Qed.

(** ** String literals *)

(** The binder and the verifier agree on string literals: a token of the grammar is decoded to
    a value exactly when the value has no NUL and is encoded back to that token, so no value the
    binder decoded is refused by the verifier, and the encoding of every other value is decoded. *)
Theorem string_tokens_roundtrip token value :
  decode_string_literal token = inl value
  <-> sqlite_string_token value = token /\ no_nul value = true.
Proof.
  rewrite string_literal_decodes. unfold sqlite_string_token.
  split; intros [Ht Hn]; by split.
Qed.

(** ** On the concrete world *)

(** [SELECT id AS number, name FROM projects AS p WHERE EXISTS (SELECT t.id FROM tasks AS t WHERE
    t.project = p.id) AND owner <> 'O''Neill' ORDER BY number LIMIT :n] *)
Definition member_query : SqlSelect :=
  SqlExpr.Build_Select None
    (SqlExpr.OneSelect None
       [item (SqlExpr.Id (exact "id")) "number"; ResultExpr (SqlExpr.Id (exact "name")) None]
       (Some (SqlExpr.Build_From (named_table "projects" "p") []))
       (Some (SqlExpr.Binary
                (SqlExpr.Exists
                   (SqlExpr.Build_Select None
                      (SqlExpr.OneSelect None [ResultExpr (dot "t" "id") None]
                         (Some (SqlExpr.Build_From (named_table "tasks" "t") []))
                         (Some (SqlExpr.Binary (dot "t" "project") SqlOperator.Equals (dot "p" "id")))
                         None []) [] [] None))
                SqlOperator.And
                (SqlExpr.Binary (SqlExpr.Id (exact "owner")) SqlOperator.NotEquals
                   (SqlExpr.Literal (SqlLiteral.String "'O''Neill'")))))
       None [])
    []
    [{| sc_expr := SqlExpr.Id (exact "number"); sc_order := None; sc_nulls := None |}]
    (Some {| limit_expr := SqlExpr.VariableExpr (named ":n" 1); limit_offset := None |}).
(** [UPDATE projects SET name = :n], which no atomic execution runs. *)
Definition member_update : SqlUpdate :=
  {| upd_with := None; upd_or_conflict := None; upd_tbl_name := single (exact "projects");
     upd_indexed := None;
     upd_sets := [{| set_col_names := [exact "name"];
                     set_expr := SqlExpr.Literal (SqlLiteral.String "'x'") |}];
     upd_from := None; upd_where_clause := None; upd_returning := []; upd_order_by := [];
     upd_limit := None |}.

#[local] Existing Instance plain_regex.

(** [SELECT CASE WHEN COUNT( * ) > 3 THEN 'many' ELSE 'few' END AS n FROM tasks] *)
Definition hidden_count : SqlSelect :=
  SqlExpr.Build_Select None
    (SqlExpr.OneSelect None
       [item (SqlExpr.Case None
                [(SqlExpr.Binary (SqlExpr.FunctionCallStar (exact "COUNT") no_tail)
                    SqlOperator.Greater (SqlExpr.Literal (SqlLiteral.Numeric "3")),
                  SqlExpr.Literal (SqlLiteral.String "'many'"))]
                (Some (SqlExpr.Literal (SqlLiteral.String "'few'")))) "n"]
       (Some (SqlExpr.Build_From (SqlExpr.Table (single (exact "tasks")) None None) []))
       None None []) [] [] None.

(** [EXISTS (SELECT 1 FROM projects AS alias WHERE alias.id > 3)] *)
Definition late_project (alias : string) : SqlExpr :=
  SqlExpr.Exists
    (SqlExpr.Build_Select None
       (SqlExpr.OneSelect None
          [ResultExpr (SqlExpr.Literal (SqlLiteral.Numeric "1")) None]
          (Some (SqlExpr.Build_From (named_table "projects" alias) []))
          (Some (SqlExpr.Binary (dot alias "id") SqlOperator.Greater
                   (SqlExpr.Literal (SqlLiteral.Numeric "3")))) None []) [] [] None).

(** [SELECT CASE WHEN EXISTS (…) THEN 'some' ELSE 'none' END AS n FROM tasks AS t WHERE EXISTS (…)] *)
Definition exists_twice (projected wanted : string) : SqlSelect :=
  SqlExpr.Build_Select None
    (SqlExpr.OneSelect None
       [item (SqlExpr.Case None [(late_project projected, SqlExpr.Literal (SqlLiteral.String "'some'"))]
                (Some (SqlExpr.Literal (SqlLiteral.String "'none'")))) "n"]
       (Some (SqlExpr.Build_From (named_table "tasks" "t") []))
       (Some (late_project wanted)) None []) [] [] None.

(** [SELECT id FROM projects WHERE owner = :owner] *)
Definition owned_projects : SqlSelect :=
  SqlExpr.Build_Select None
    (SqlExpr.OneSelect None [ResultExpr (SqlExpr.Id (exact "id")) None]
       (Some (SqlExpr.Build_From (named_table "projects" "p") []))
       (Some (SqlExpr.Binary (SqlExpr.Id (exact "owner")) SqlOperator.Equals
                (SqlExpr.VariableExpr (named ":owner" 1))))
       None []) [] [] None.

(** The texts of clients. *)
Definition member_statement (text : string) : Stmt :=
  if String.eqb (canonical text) "update" then Stmt.Update member_update
  else if String.eqb text "owned" then Stmt.Select owned_projects
  else if String.eqb text "count" then Stmt.Select hidden_count
  else if String.eqb text "exists" then Stmt.Select (exists_twice "p" "p")
  else if String.eqb text "shadow" then Stmt.Select (exists_twice "t" "t")
  else Stmt.Select member_query.

(** A dialect with the texts of these statements, and the texts the gateway prints. *)
#[local] Instance member_dialect : Dialect := {|
  parse_commands text := Some [Cmd.Stmt (member_statement text)];
  print_cmd _ := "SELECT"%string;
  print_stmt statement := match statement with Stmt.Update _ => "UPDATE" | _ => "SELECT" end%string;
  as_str name := match name with from_string text | exact text => text end;
  stmt_eqb _ _ := true; MAX_EXPR_DEPTH := 100
|}.

Definition member_gateway : Gateway :=
  gateway_new world_catalog world_bundle "snapshot" world_limits 4.
Definition member_request : StatementRequest :=
  {| rq_sql := "query"; rq_parameters := args_n 10; rq_expected_affected_rows := None;
     rq_expected_row_count := None |}.
Definition update_request : StatementRequest :=
  {| rq_sql := "update"; rq_parameters := ∅; rq_expected_affected_rows := None;
     rq_expected_row_count := None |}.
Definition no_candidate : CandidateExecutionPlan :=
  candidate_new "" OperationKind.Select world_limits "" "".
Definition no_compiled : CompiledStatement :=
  {| cs_plan := {| sealed := no_candidate |}; cs_explain := co_explain no_plan;
     cs_client_parameters := ∅ |}.
Definition member_compiled : CompiledStatement * Z :=
  PolicyWorld.get (no_compiled, 0) (compile_request member_gateway world_session 0 member_request 0).
Definition member_document : BoundDocument :=
  PolicyWorld.get
    {| doc_statement := BoundStatement.Select world_select;
       doc_source_span := {| span_start := 0; span_end := 0 |}; doc_parameters := ∅;
       doc_string_literals := [] |}
    (bind_document default_limits world_catalog "query").
Definition member_bound : BoundSelect :=
  match doc_statement member_document with BoundStatement.Select s => s | _ => world_select end.
Definition member_output : CompileOutput :=
  PolicyWorld.get no_plan (compile_select world_bundle (BoundStatement.Select member_bound) world_session).
Definition member_protected : BoundSelect :=
  match pp_statement (co_plan member_output) with BoundStatement.Select s => s | _ => world_select end.

Lemma member_compiles :
  compile_request member_gateway world_session 0 member_request 0
  = inl (member_compiled.1, member_compiled.2).
Proof. vm_compute. reflexivity. Qed.

Lemma member_readable :
  select_every (readable (plan_server_parameters (sealed (cs_plan member_compiled.1)))) member_protected.
Proof. vm_compute. repeat split; try discriminate; try exact I. Qed.

(** A database that counts what is no read. *)
Definition counting_execute (plan : CandidateExecutionPlan) (writes : Z) : option unit * Z :=
  match plan_operation plan with
  | OperationKind.Select => (Some (), writes)
  | _ => (Some (), writes + 1)
  end.

Definition member_auth : AuthContext :=
  {| auth_session := world_session; auth_permissions := {[ EndpointPermission.Execute ]} |}.

Lemma atomic_only_reads_witness :
  (execute_atomic member_gateway counting_execute member_auth (Some "snapshot"%string)
     [member_request; member_request] 7).2 = 7
  /\ (execute_atomic member_gateway counting_execute member_auth None
        [member_request; update_request] 7).2 = 7.
Proof.
  split; (refine (proj1 (atomic_only_reads member_gateway counting_execute (fun writes => writes = 7)
    member_auth _ _ 7 _ eq_refl)); intros plan writes [Hop _] ->; unfold counting_execute; rewrite Hop;
    reflexivity).
Defined.

(** The two envelopes run and are refused. *)
Example member_executes :
  (execute_atomic member_gateway counting_execute member_auth (Some "snapshot"%string)
     [member_request; member_request] 7).1 = inl [(); ()]
  /\ (execute_atomic member_gateway counting_execute member_auth None
        [member_request; update_request] 7).1 = inr GatewayError.TransactionRequired.
Proof. split; vm_compute; reflexivity. Qed.

(** A statement of one text, without parameters. *)
Definition request_of (text : string) : StatementRequest :=
  {| rq_sql := text; rq_parameters := ∅; rq_expected_affected_rows := None;
     rq_expected_row_count := None |}.

Definition is_sealed (text : string) : Prop :=
  match compile_request member_gateway world_session 0 (request_of text) 0 with
  | inl (compiled, _) => plan_operation (sealed (cs_plan compiled)) = OperationKind.Select
  | inr _ => False
  end.

(** The count of the tasks, which their policy does not allow to aggregate, is sealed when it is
    inside a CASE, and tells whether the view has more than three rows. *)
Example hidden_count_sealed :
  is_sealed "count"
  /\ opt_existsb sp_allow_aggregations (policy_of (pb_select world_bundle) 2 "member") = false
  /\ run_query world_catalog (role_view world_bundle world_session [2] world_database)
       (fun _ => LogicalValue.Null) hidden_count = [[LogicalValue.String "many"]].
Proof. split; [|split]; vm_compute; reflexivity. Qed.

(** An EXISTS in a projection is sealed when WHERE also reads its resource. *)
Example case_exists_sealed : is_sealed "exists".
Proof. vm_compute. reflexivity. Qed.

(** An EXISTS whose alias is that of the outer source is accepted, and its columns are those of the
    outer source: [t.id] is the identifier of the task. *)
Example shadowed_alias_accepted :
  match bind_document default_limits world_catalog "shadow" with
  | inl document =>
      match doc_statement document with
      | BoundStatement.Select s =>
          match bs_predicate s with
          | Some (BoundExpr.Exists nested) =>
              bs_resource nested = 1
              /\ match bs_predicate nested with
                 | Some (BoundExpr.Greater (BoundExpr.Column column) _) =>
                     column = col 2 0 LogicalType.Int64 ColumnUsage.Filter
                 | _ => False
                 end
          | _ => False
          end
      | _ => False
      end
  | inr _ => False
  end.
Proof. vm_compute. split; reflexivity. Qed.
