(* ===== verification/RuntimeFacts.v ===== *)
(** * What the runtime guarantees

    The values that cross the module: which texts are a parameter of a type and which cells are a
    value of a column, and what is read back of what was written. What a compiled request reports
    and what its SQL answers, from the configuration of the deployment to the rows; the plans kept
    under handles; the budget the results of an execution share; what Explain refuses. *)

From S2P Require Import World PolicyWorld ManifestFacts.
From S2P Require Import Volatile Io Identity Machine Checks Commands Interactive Atomic Execution Run.
From S2P Require Import HandlerFrames.
From S2P Require Import Prelude Result F64 Utf8 SerdeJson Compiler State Bounds Limits Core Bytes.
From S2P Require Import Access.
From S2P Require Import Catalog Ir Policy Activate Protect CompilePolicy Plan Turso SqlAst Binding.
From S2P Require Import Binder Complexity Descriptors Emit Sealing Semantics SqlMeaning Views Gateway.
From S2P Require Import ActivateFacts EmitFacts SealFacts BinderFacts GatewayFacts.
From S2P Require Import Values Manifest Runtime Service Semantics.

(** ** Values *)

Section values.
Context `{Serde} `{Base64Laws}.

(** A text that is an object or an array by its first character. *)
Definition structured (text : string) : bool := starts_with "{" text || starts_with "[" text.

(** The number an [i64] is, or a finite double that is none. *)
Definition number_is (n : number) (v : LogicalValue) : Prop :=
  match v with
  | LogicalValue.Int64 m => as_i64 n = Some m
  | LogicalValue.Number x => as_i64 n = None /\ Number.as_f64 n = x /\ F64.is_finite x = true
  | _ => False
  end.

(** The JSON values that are a logical value, bytes and JSON aside. *)
Definition scalar_is (v : value) (lv : LogicalValue) : Prop :=
  match lv with
  | LogicalValue.Null => v = Value.Null
  | LogicalValue.Boolean b => v = Value.Bool b
  | LogicalValue.String text => v = Value.String text
  | LogicalValue.Int64 _ | LogicalValue.Number _ => exists n, v = Value.Number n /\ number_is n lv
  | LogicalValue.Bytes _ | LogicalValue.Json _ => False
  end.

Lemma logical_value_scalar max v t lv :
  t <> LogicalType.Bytes -> t <> LogicalType.Json ->
  logical_value max v (Some t) = inl lv <-> scalar_is v lv.
Proof.
  intros Hb Hj. unfold logical_value. rewrite bool_decide_false by congruence.
  destruct v as [|b|n|s|l|ms].
  - split; [by intros [= <-]|]. destruct lv; try done; by intros (? & ? & _).
  - split; [by intros [= <-]|]. destruct lv; simpl; try done; [by intros [= ->]|by intros (? & ? & _)..].
  - split.
    + destruct (as_i64 n) as [m|] eqn:E; [by intros [= <-]; exists n|].
      destruct (F64.is_finite _) eqn:F; [|done]. intros [= <-]. by exists n.
    + destruct lv; simpl; try done; intros (? & [= <-] & Hn).
      * by rewrite Hn.
      * destruct Hn as (-> & -> & ->). done.
  - split; [by intros [= <-]|]. destruct lv; simpl; try done; [by intros [= ->]|by intros (? & ? & _)..].
  - rewrite bool_decide_false by congruence. split; [done|]. destruct lv; simpl; try done; by intros (? & ? & _).
  - rewrite bool_decide_false by congruence. split; [done|]. destruct lv; simpl; try done; by intros (? & ? & _).
Qed.

(** The types a scalar that is not NULL is a value of. *)
Definition scalar_typed (t : LogicalType) (lv : LogicalValue) : Prop :=
  match lv with
  | LogicalValue.String _ => is_text t = true
  | LogicalValue.Boolean _ => t = LogicalType.Boolean
  | LogicalValue.Int64 n =>
      t = LogicalType.Int64 \/ t = LogicalType.Integer /\ -9007199254740991 <= n <= 9007199254740991
  | LogicalValue.Number _ => t = LogicalType.Number
  | _ => False
  end.

(** An array or object. *)
Definition tree_value (v : value) : Prop :=
  match v with Value.Array _ | Value.Object _ => True | _ => False end.

(** What a JSON value is as a value of a type: text in base64 is bytes, an object or array is JSON,
    every other value is a scalar. *)
Definition value_of (max : Z) (t : LogicalType) (v : value) (lv : LogicalValue) : Prop :=
  match lv with
  | LogicalValue.Json text =>
      t = LogicalType.Json /\ tree_value v /\ text = to_string (doc_of_value v)
  | LogicalValue.Bytes bytes =>
      t = LogicalType.Bytes /\ exists s, v = Value.String s /\ rfc_decode s = Some bytes
        /\ Z.of_nat (length bytes) <= max
  | _ => scalar_is v lv /\ (lv = LogicalValue.Null \/ scalar_typed t lv)
  end.

(** What the text of a parameter is as a value of a type: an object or array is JSON as it is
    written. *)
Definition parameter_of (max : Z) (t : LogicalType) (text : string) (lv : LogicalValue) : Prop :=
  if structured text then t = LogicalType.Json /\ lv = LogicalValue.Json text
  else exists v, from_str_value text = Some v /\ value_of max t v lv.

Lemma decode_inl s max bytes :
  decode s max = inl bytes <-> rfc_decode s = Some bytes /\ Z.of_nat (length bytes) <= max.
Proof.
  rewrite decode_spec. destruct (rfc_decode s) as [b|]; [|by split; [|intros [? _]]].
  destruct (Z.ltb_spec max (Z.of_nat (length b))).
  - split; [done|]. intros [[= ->] ?]. lia.
  - split; [intros [= ->]|intros [[= ->] _]]; done.
Qed.

Lemma scalar_matches t lv max :
  match lv with LogicalValue.Bytes _ | LogicalValue.Json _ | LogicalValue.Null => False | _ => True end ->
  logical_value_matches lv t max = true <-> scalar_typed t lv.
Proof.
  destruct lv, t; simpl; try done; intros _; try (split; [by auto|]; by intros [|[? _]]); try by split.
  all: rewrite ?in_range_spec; split; [auto|intros [?|[? ?]]; done].
Qed.

Lemma logical_value_bytes max v lv :
  logical_value max v (Some LogicalType.Bytes) = inl lv
  <-> (v = Value.Null /\ lv = LogicalValue.Null)
      \/ exists s bytes, v = Value.String s /\ lv = LogicalValue.Bytes bytes /\ decode s max = inl bytes.
Proof.
  unfold logical_value. rewrite bool_decide_true by done. split.
  - destruct v as [| | |s| |]; try done; [intros [= <-]; by left|].
    destruct (decode s max) as [bytes|e] eqn:E; [|by destruct e]. intros [= <-]. right. by exists s, bytes.
  - intros [[-> ->]|(s & bytes & -> & -> & ->)]; done.
Qed.

Lemma logical_value_json max v lv :
  logical_value max v (Some LogicalType.Json) = inl lv
  <-> scalar_is v lv \/ tree_value v /\ lv = LogicalValue.Json (to_string (doc_of_value v)).
Proof.
  assert (tree_value v \/ ~ tree_value v) as [Hv|Hv] by (destruct v; simpl; tauto).
  - unfold logical_value. rewrite bool_decide_false by done. split.
    + destruct v; try done; rewrite bool_decide_true by done; intros [= <-]; by right.
    + intros [Hs|[_ ->]]; [|destruct v; try done; by rewrite bool_decide_true].
      destruct v, lv; simpl in Hs; try done; by destruct Hs as (? & ? & _).
  - assert (He : logical_value max v (Some LogicalType.Json) = logical_value max v (Some LogicalType.String)).
    { unfold logical_value. rewrite !bool_decide_false by done. by destruct v. }
    rewrite He, logical_value_scalar by done. split; [by left|]. by intros [?|[? _]].
Qed.

Lemma scalar_not_bytes lv : ~ scalar_typed LogicalType.Bytes lv.
Proof. destruct lv; simpl; intros Ht; try done. by destruct Ht as [|[? _]]. Qed.

Lemma values_read max t v lv :
  logical_value max v (Some t) = inl lv
    /\ (lv = LogicalValue.Null \/ logical_value_matches lv t max = true)
  <-> value_of max t v lv.
Proof.
  destruct (decide (t = LogicalType.Bytes)) as [->|Hb]; [|destruct (decide (t = LogicalType.Json)) as [->|Hj]].
  - rewrite logical_value_bytes. split.
    + intros [[[-> ->]|(s & bytes & -> & -> & Hd)] _]; [by split; [|left]|].
      split; [done|]. exists s. by apply decode_inl in Hd.
    + destruct (decide (lv = LogicalValue.Null)) as [->|Hn].
      { intros [-> _]. by split; [left|left]. }
      destruct lv as [| | | | |bytes|]; try done; intros Hv;
        try (destruct Hv as [_ [?|Ht]]; [done|by apply scalar_not_bytes in Ht]); [|by destruct Hv as [[=] _]].
      destruct Hv as (_ & s & -> & Hd). split; [right; exists s, bytes|right; by apply Z.leb_le, Hd].
      split; [done|]. split; [done|]. by apply decode_inl.
  - rewrite logical_value_json. split.
    + intros [[Hs|[Hv ->]] Hm]; [|done].
      destruct lv; try done; (split; [done|]); destruct Hm as [?|Hm]; try (by left); try done; right;
        by apply (scalar_matches _ _ max).
    + destruct lv; intros Hv; try (destruct Hv as (_ & Hv & ->); by split; [right|right]);
        destruct Hv as [Hs Ht]; (split; [by left|]); destruct Ht; try (by left); right;
        by apply (scalar_matches _ _ max).
  - rewrite logical_value_scalar by done. split.
    + intros [Hs Hm]. destruct lv; try done; (split; [done|]); destruct Hm as [?|Hm]; try (by left);
        try done; right; by apply (scalar_matches _ _ max).
    + destruct lv; intros Hv; try (by destruct Hv as [? _]); destruct Hv as [Hs Ht]; (split; [done|]);
        destruct Ht; try (by left); right; by apply (scalar_matches _ _ max).
Qed.

(** C21: which texts are a parameter of a type. The runtime reads the text of a parameter by the
    type its position has and the plan accepts the value exactly when the text is one of the type:
    objects and arrays only for JSON, kept as they are written; canonical base64 within the limit
    for bytes; numbers that are integers only for the integer types, all others only for numbers.
    A text in quotes is no int64, and an integral number is no number. *)
Theorem parameters_read_exactly max text t lv :
  logical_parameter_value max text (Some t) = inl lv
    /\ (lv = LogicalValue.Null \/ logical_value_matches lv t max = true)
  <-> parameter_of max t text lv.
Proof.
  unfold logical_parameter_value, parameter_of. fold (structured text). destruct (structured text).
  - case_bool_decide as Ht; split.
    + intros [[= <-] _]. injection Ht as ->. done.
    + intros [-> ->]. split; [done|by right].
    + by intros [? _].
    + intros [-> _]. done.
  - destruct (from_str_value text) as [v|]; cbn [ok_or mbind result_bind].
    + rewrite values_read. split; [by exists v|]. by intros (? & [= <-] & ?).
    + split; [by intros [? _]|by intros (? & ? & _)].
Qed.

(** A boolean as the database holds it. *)
Definition boolean_cell_is (cell : value) (b : bool) : Prop :=
  cell = Value.Bool b
  \/ exists n, cell = Value.Number n /\ as_i64 n = Some (if b then 1 else 0).

Lemma stored_boolean_is cell b : stored_boolean cell = Some b <-> boolean_cell_is cell b.
Proof.
  unfold boolean_cell_is. split.
  - destruct cell as [|x|n| | |]; simpl; try done; [intros [= ->]; by left|]. intros Hn. right. exists n.
    case_bool_decide; [by injection Hn as <-|]. case_bool_decide; [by injection Hn as <-|done].
  - intros [->|(n & -> & Hn)]; [done|]. simpl. rewrite Hn. by destruct b.
Qed.

(** The members of a tagged blob. *)
Definition blob_members (members : list (string * value)) (s : string) : Prop :=
  assoc "type" members = Some (Value.String "blob") /\ assoc "base64" members = Some (Value.String s)
  /\ length members = 2%nat.

Lemma raw_blob_is members s : raw_blob members = Some ("blob"%string, s) <-> blob_members members s.
Proof.
  unfold raw_blob, blob_members. split.
  - intros (type & Ht & Hm)%bind_Some. apply bind_Some in Hm as (text & Hs & Hm).
    destruct (Nat.eqb_spec (length members) 2); [|done]. injection Hm as -> ->.
    apply bind_Some in Ht as (v & -> & Hv), Hs as (u & -> & Hu).
    destruct v; try done. destruct u; try done. by injection Hv as ->; injection Hu as ->.
  - intros (-> & -> & ->). done.
Qed.

(** What a cell of the database is as a value of a column of one type: a boolean is also stored as
    0 or 1, bytes are a tagged blob, and JSON is a text that reads as such. *)
Definition cell_of (max : Z) (t : LogicalType) (cell : value) (lv : LogicalValue) : Prop :=
  match lv with
  | LogicalValue.Null => cell = Value.Null
  | LogicalValue.Boolean b => t = LogicalType.Boolean /\ boolean_cell_is cell b
  | LogicalValue.String text => is_text t = true /\ cell = Value.String text
  | LogicalValue.Int64 _ =>
      (t = LogicalType.Integer \/ t = LogicalType.Int64) /\ scalar_is cell lv
  | LogicalValue.Number _ => t = LogicalType.Number /\ scalar_is cell lv
  | LogicalValue.Json text =>
      t = LogicalType.Json /\ cell = Value.String text /\ is_Some (from_str_value text)
  | LogicalValue.Bytes bytes =>
      t = LogicalType.Bytes /\ exists members s, cell = Value.Object members /\ blob_members members s
        /\ rfc_decode s = Some bytes /\ Z.of_nat (length bytes) <= max
  end.

(** A scalar cell of a type that is neither bytes, boolean nor JSON. *)
Lemma scalar_cell max t cell lv :
  t <> LogicalType.Bytes -> t <> LogicalType.Json -> t <> LogicalType.Boolean ->
  logical_result_value max cell [t] = inl lv <-> scalar_is cell lv.
Proof.
  intros Hb Hj Ho. unfold logical_result_value, logical_result_value_without_boolean.
  rewrite !bool_decide_false by (rewrite list_elem_of_singleton; congruence).
  assert (Hs : logical_result_value_scalar max cell [t] = inl lv <-> scalar_is cell lv).
  { rewrite <- (logical_value_scalar max cell t lv) by done. unfold logical_result_value_scalar.
    rewrite bool_decide_false by done. destruct (logical_value max cell (Some t)) eqn:E.
    - destruct cell; try done. unfold logical_value in E. rewrite bool_decide_false in E by congruence.
      injection E as <-. done.
    - destruct cell; try done. unfold logical_value in E. by rewrite bool_decide_false in E by congruence. }
  destruct cell as [| | | | |members]; try exact Hs.
  split; [done|]. destruct lv; try done; by intros (? & ? & _).
Qed.

Lemma boolean_cell max cell lv :
  logical_result_value max cell [LogicalType.Boolean] = inl lv
  <-> (cell = Value.Null /\ lv = LogicalValue.Null)
      \/ exists b, boolean_cell_is cell b /\ lv = LogicalValue.Boolean b.
Proof.
  setoid_rewrite <- stored_boolean_is.
  unfold logical_result_value.
  change (bool_decide (LogicalType.Bytes ∈ [LogicalType.Boolean])) with false.
  change (bool_decide (LogicalType.Boolean ∈ [LogicalType.Boolean])) with true.
  split.
  - destruct cell; try done; destruct (stored_boolean _) as [y|] eqn:E; try done;
      intros [= <-]; try (by left); right; by exists y.
  - intros [[-> ->]|(y & Hy & ->)]; [done|]. destruct cell; try done; by rewrite Hy.
Qed.

Lemma json_cell max cell lv :
  logical_result_value max cell [LogicalType.Json] = inl lv
  <-> (cell = Value.Null /\ lv = LogicalValue.Null)
      \/ exists text, cell = Value.String text /\ is_Some (from_str_value text)
         /\ lv = LogicalValue.Json text.
Proof.
  unfold logical_result_value, logical_result_value_without_boolean.
  change (bool_decide (LogicalType.Bytes ∈ [LogicalType.Json])) with false.
  change (bool_decide (LogicalType.Boolean ∈ [LogicalType.Json])) with false.
  change (bool_decide (LogicalType.Json ∈ [LogicalType.Json])) with true.
  split.
  - destruct cell as [| | |text| |]; try done; [intros [= <-]; by left|].
    destruct (from_str_value text) as [v|] eqn:E; [|done]. intros [= <-]. right. exists text.
    by rewrite E.
  - intros [[-> ->]|(text & -> & [v Hv] & ->)]; [done|]. by rewrite Hv.
Qed.

Lemma bytes_cell max cell lv :
  logical_result_value max cell [LogicalType.Bytes] = inl lv
  <-> (cell = Value.Null /\ lv = LogicalValue.Null)
      \/ exists members s bytes, cell = Value.Object members
         /\ blob_members members s /\ decode s max = inl bytes /\ lv = LogicalValue.Bytes bytes.
Proof.
  setoid_rewrite <- raw_blob_is.
  unfold logical_result_value, logical_result_value_without_boolean.
  change (bool_decide (LogicalType.Bytes ∈ [LogicalType.Bytes])) with true.
  change (bool_decide (LogicalType.Boolean ∈ [LogicalType.Bytes])) with false.
  change (bool_decide (LogicalType.Json ∈ [LogicalType.Bytes])) with false.
  split.
  - destruct cell as [| | | | |members]; try done; [intros [= <-]; by left|]. unfold blob_value.
    destruct (raw_blob members) as [[type s]|] eqn:E; [|done]. simpl.
    destruct (String.eqb_spec type "blob") as [->|]; [|done]. simpl.
    destruct (decode s max) as [bytes|[]] eqn:D; try done. intros [= <-]. right.
    by exists members, s, bytes.
  - intros [[-> ->]|(members & s & bytes & -> & Hm & Hd & ->)]; [done|]. unfold blob_value.
    rewrite Hm. simpl. by rewrite Hd.
Qed.

Lemma cells_exactly max t cell lv :
  logical_result_value max cell [t] = inl lv
    /\ (lv = LogicalValue.Null \/ type_matches lv t = true)
  <-> cell_of max t cell lv.
Proof.
  destruct (decide (t = LogicalType.Bytes)) as [->|Hb];
    [|destruct (decide (t = LogicalType.Json)) as [->|Hj];
      [|destruct (decide (t = LogicalType.Boolean)) as [->|Ho]]].
  - rewrite bytes_cell. split.
    + intros [[[-> ->]|(members & s & bytes & -> & Hm & Hd & ->)] _]; [done|].
      split; [done|]. exists members, s. by apply decode_inl in Hd.
    + destruct lv; try (by intros [? _]); try (intros [[|] _]; done); [by intros ->; split; left|].
      intros (_ & members & s & -> & Hm & Hd). split; [|by right]. right. exists members, s, bytes.
      by apply decode_inl in Hd.
  - rewrite json_cell. split.
    + intros [[[-> ->]|(text & -> & Ht & ->)] _]; [done|]. done.
    + destruct lv; try (by intros [? _]); try (intros [[|] _]; done); [by intros ->; split; left|].
      intros (_ & -> & Ht). split; [|by right]. right. by eexists.
  - rewrite boolean_cell. split.
    + intros [[[-> ->]|(b & Hs & ->)] _]; [done|]. done.
    + destruct lv; try (by intros [? _]); try (intros [[|] _]; done); [by intros ->; split; left|].
      intros (_ & Hs). split; [|by right]. right. by eexists.
  - rewrite scalar_cell by done. split.
    + intros [Hs Hm]. destruct lv, t; simpl in *; try done; destruct Hm as [?|Hm]; try done; auto.
    + destruct lv, t; simpl; try done; intros Hc; destruct_and?; try done; auto.
      all: try match goal with H : _ \/ _ |- _ => by destruct H end.
      split; [done|]. right. by match goal with H : exists n, _ |- _ => destruct H as (n & _ & _ & _ & Hf) end.
Qed.

(** A logical value the database can hold. *)
Definition storable (max : Z) (lv : LogicalValue) : Prop :=
  match lv with
  | LogicalValue.Int64 n => - 2 ^ 63 <= n < 2 ^ 63
  | LogicalValue.Bytes bytes => Forall is_byte bytes /\ Z.of_nat (length bytes) <= max
  | LogicalValue.Json text => is_Some (from_str_value text)
  | _ => True
  end.

(** C22: which cells are a value of a column, and what was written is read back. A column of one type
    takes a cell of the database exactly when the cell is a value of the type: 0 and 1 are the
    stored booleans, a blob is tagged, a text of a JSON column must read as JSON, and a number
    column takes no integral number. The form a statement sends a value of a type to the database
    in is one of them: it is read from a column of that type as the same value. *)
Theorem cells_read_back max t :
  (forall cell lv,
     logical_result_value max cell [t] = inl lv
       /\ (lv = LogicalValue.Null \/ type_matches lv t = true)
     <-> cell_of max t cell lv)
  /\ (forall lv, lv = LogicalValue.Null \/ type_matches lv t = true -> storable max lv ->
       logical_result_value max (encode_parameter_value lv) [t] = inl lv).
Proof.
  split; [apply cells_exactly|]. intros lv Ht Hv. apply (cells_exactly max t).
  destruct lv as [|text|b|n|x|bytes|text]; simpl in *.
  - done.
  - destruct Ht as [|Ht]; [done|]. by destruct t.
  - destruct Ht as [|Ht]; [done|]. destruct t; try done. split; [done|by left].
  - split; [destruct Ht as [|Ht]; [done|]; destruct t; auto; done|]. eexists. split; [reflexivity|].
    unfold number_of_i64, as_i64. destruct (Z.leb_spec 0 n); [|done].
    by rewrite (proj2 (Z.leb_le _ _)) by lia.
  - destruct Ht as [|Ht]; [done|]. destruct t; try done. rewrite Ht. split; [done|].
    by exists (Number.Float x).
  - destruct Ht as [|Ht]; [done|]. destruct t; try done. split; [done|].
    eexists _, _. split; [reflexivity|]. split; [by repeat split|].
    unfold encode. rewrite encode_rfc, rfc_roundtrip; tauto.
  - destruct Ht as [|Ht]; [done|]. by destruct t.
Qed.
End values.

(** ** A deployment *)

Section deployment.
Context `{Target} `{Serde} `{ManifestSerde} `{Yaml} `{Regex} `{Base64}.

(** What the constructor of a runtime has made sure of. *)
Record deployed (r : PolicySqlRuntime) : Prop := {
  deployed_catalog : catalog_built (rt_catalog r);
  deployed_columns resource d : resource ∈ Catalog.resources (rt_catalog r) ->
    d ∈ Catalog.columns resource -> exists physical column, column_agrees physical column (cd_value d);
  deployed_policies : bundle_served (rt_policies r);
  deployed_gateway :
    gw_catalog (rt_gateway r) = rt_catalog r /\ gw_policies (rt_gateway r) = rt_policies r
    /\ gw_binding_limits (rt_gateway r) = binding_limits (rt_limits r);
  deployed_snapshot :
    rt_snapshot r = snapshot_text (rt_schema_version r) (rt_policy_version r)
    /\ cat_snapshot (rt_catalog r) = rt_snapshot r /\ gw_snapshot (rt_gateway r) = rt_snapshot r
    /\ pb_snapshot (rt_policies r) = rt_snapshot r;
  deployed_limits : Forall2 in_field FIELDS (configured (rt_limits r));
  deployed_record :
    durable_bound_holds
      (len (rt_snapshot r) * 2 + len (rt_schema_version r) + len (rt_policy_version r))
      (rl_max_transaction_statements (rt_limits r))
      (rl_max_transaction_result_bytes (rt_limits r)) (longest_resource_name (rt_catalog r)) = true
}.

Lemma activated_snapshot yaml catalog snapshot max b :
  activate_with_value_limit yaml catalog snapshot max = inl b -> pb_snapshot b = snapshot.
Proof.
  unfold activate_with_value_limit. intros (raw & _ & Hb)%result_bind_inl. case_match; [done|].
  apply result_bind_inl in Hb as (checks & _ & Hb).
  apply result_bind_inl in Hb as ([next [[[select insert] update] delete]] & _ & Hb).
  by injection Hb as <-.
Qed.

Lemma build_runtime_deployed catalog_yaml policy_yaml schema_version policy_version limits_json
    physical r :
  build_runtime catalog_yaml policy_yaml schema_version policy_version limits_json physical = inl r ->
  deployed r.
Proof.
  unfold build_runtime. destruct (MAX_CONFIGURATION_BYTES <? _); [done|].
  intros (snapshot & Hs%map_err_inl%validated_string_inl & Hr)%result_bind_inl.
  apply result_bind_inl in Hr as (catalog & Hc%map_err_inl & Hr).
  apply result_bind_inl in Hr as (limits & Hl & Hr).
  apply result_bind_inl in Hr as (policies & Hp%map_error_inl & Hr).
  destruct (usize_max <? _); [done|]. destruct (negb (durable_bound_holds _ _ _ _)) eqn:Hd; [done|].
  injection Hr as <-. destruct (activate_with_schema_columns _ _ _ _ Hc) as (manifest & _ & _ & Hcolumns).
  apply activate_with_schema_built in Hc as [Hcat Hsnap].
  apply parse_inl in Hl as [Hfields _].
  split; cbn; [done| |by exists policy_yaml, catalog, snapshot, (value_limit limits)|done| |done|].
  - intros resource d Hr Hin. destruct (Hcolumns _ _ Hr Hin) as (_ & _ & column & c & _ & _ & Ha).
    by exists c, column.
  - split; [done|]. split; [done|]. split; [done|]. by eapply activated_snapshot.
  - by apply negb_false_iff in Hd.
Qed.
End deployment.

(** ** Compiling a request *)

Lemma collect_at_inl {E A B} (f : nat -> A -> result E B) l : forall index bs,
  collect_at f index l = inl bs ->
  Forall2 (fun a b => exists index, f index a = inl b) l bs.
Proof.
  induction l as [|a l IH]; intros index bs Hc; simpl in Hc; [injection Hc as <-; constructor|].
  apply result_bind_inl in Hc as (b & Hb & Hc). apply result_bind_inl in Hc as (bs' & Hbs & [= <-]).
  constructor; [by eexists|by eapply IH].
Qed.

Lemma compile_requests_inl `{Regex} `{Dialect} g session requests : forall index bytes compiled,
  compile_requests g session index requests bytes = inl compiled ->
  Forall2 (fun request statement => exists index bytes bytes',
    compile_request g session index request bytes = inl (statement, bytes')) requests compiled.
Proof.
  induction requests as [|request requests IH]; intros index bytes compiled Hc; simpl in Hc;
    [injection Hc as <-; constructor|].
  apply result_bind_inl in Hc as ([statement bytes'] & Hr & Hc).
  apply result_bind_inl in Hc as (statements & Hs & [= <-]).
  constructor; [by eexists _, _, _|by eapply IH].
Qed.

Section compiling.
Context `{Target} `{Serde} `{SerdeNumber} `{RuntimeSerde} `{Base64} `{Regex} `{Dialect}.

(** What a statement of a compiled request has gone through: it was read as a request, compiled for
    the session by the gateway, and told of. *)
Record statement_compiled (r : PolicySqlRuntime) (endpoint : EndpointPermission)
    (session : TrustedSession) (raw : RequestStatement) (request : StatementRequest)
    (statement : CompiledStatement) (dto : CompiledStatementDto) : Prop := {
  compiled_read :
    statement_request (rt_catalog r) (binding_limits (rt_limits r)) (value_limit (rt_limits r)) raw
      endpoint = inl request;
  compiled_gateway : exists index bytes bytes',
    compile_request (rt_gateway r) session index request bytes = inl (statement, bytes');
  compiled_told : Runtime.compiled_statement (rt_catalog r) statement = inl dto
}.

Lemma compile_request_json_inl r auth_json request_json permission response retained :
  compile_request_json r auth_json request_json permission = inl (response, retained) ->
  exists endpoint auth request requests compiled,
    read_request r auth_json request_json permission = inl (endpoint, auth, request)
    /\ compile_envelope (rt_gateway r) auth endpoint (Some (rt_snapshot r)) requests = inl compiled
    /\ retained = (if bool_decide (endpoint = EndpointPermission.Execute) then Some compiled else None)
    /\ forall i raw, ar_statements request !! i = Some raw ->
         exists req statement dto, compiled !! i = Some statement
           /\ cr_statements response !! i = Some dto
           /\ statement_compiled r endpoint (auth_session auth) raw req statement dto.
Proof.
  unfold compile_request_json. intros ([[endpoint auth] request] & Hread & Hc)%result_bind_inl.
  apply result_bind_inl in Hc as (requests & Hrequests & Hc).
  apply result_bind_inl in Hc as (compiled & Hcompiled%map_error_inl & Hc).
  apply result_bind_inl in Hc as (statements & Hstatements%collect_inl & [= <- <-]).
  exists endpoint, auth, request, requests, compiled. split; [done|]. split; [done|]. split; [done|].
  unfold statement_requests in Hrequests. apply result_bind_inl in Hrequests as (_ & _ & Hrequests).
  apply collect_at_inl in Hrequests. unfold compile_envelope in Hcompiled.
  do 3 (case_match; [done|]). apply compile_requests_inl in Hcompiled.
  intros i raw Hraw. destruct (Forall2_lookup_l _ _ _ _ _ Hrequests Hraw) as (req & Hreq & index & Hr).
  destruct (Forall2_lookup_l _ _ _ _ _ Hcompiled Hreq) as (statement & Hst & Hg).
  destruct (Forall2_lookup_l _ _ _ _ _ Hstatements Hst) as (dto & Hdto & Hd).
  exists req, statement, dto. split; [done|]. split; [done|].
  apply map_error_inl in Hr. by split.
Qed.
End compiling.





(** ** The plans kept under handles *)

Section handles.
Context `{Target} `{Serde} `{SerdeNumber} `{RuntimeSerde} `{Base64} `{Regex} `{Dialect}.
Context (r : PolicySqlRuntime).

(** A call that changes the table, and the handle it gives out. *)
Inductive call := CompileCall (auth_json request_json permission : string) | ReleaseCall (handle : Z).

Definition serve (p : Plans) (c : call) : Plans * option Z :=
  match c with
  | CompileCall auth_json request_json permission =>
      let '(outcome, p) := compile_and_store r p auth_json request_json permission in
      (p, match outcome with inl response => cr_execution_handle response | inr _ => None end)
  | ReleaseCall handle => (snd (release_execution p handle), None)
  end.

(** The table after some calls, and the handles they gave out, the last first. *)
Definition serve_all (calls : list call) : Plans * list Z :=
  foldl (fun '(p, given) c => let '(p, handle) := serve p c in (p, option_list handle ++ given))
    (no_plans, []) calls.

Lemma serve_all_snoc calls c :
  serve_all (calls ++ [c])
  = let '(p, given) := serve_all calls in
    let '(p, handle) := serve p c in (p, option_list handle ++ given).
Proof. unfold serve_all. rewrite foldl_app. simpl. by destruct (foldl _ _ _). Qed.

(** A call stores nothing, stores a plan under the next handle, or releases a handle. *)
Lemma serve_cases p c :
  serve p c = (p, None) /\ (forall h, c <> ReleaseCall h)
  \/ (exists compiled, (size (rt_plans p) < MAX_ACTIVE_EXECUTIONS)%nat /\ rt_next_handle p < U64_MAX
        /\ (forall h, c <> ReleaseCall h)
        /\ serve p c = ({| rt_plans := <[rt_next_handle p := compiled]> (rt_plans p);
                           rt_next_handle := rt_next_handle p + 1 |}, Some (rt_next_handle p)))
  \/ (exists h, c = ReleaseCall h
        /\ serve p c = ({| rt_plans := delete h (rt_plans p); rt_next_handle := rt_next_handle p |}, None)).
Proof.
  destruct c as [auth_json request_json permission|h]; [|right; right; by exists h].
  unfold serve, compile_and_store.
  destruct (compile_request_json r _ _ _) as [[response [compiled|]]|e] eqn:E; [| |by left].
  - unfold store_plan. destruct (MAX_ACTIVE_EXECUTIONS <=? _)%nat eqn:Hs; [by left|].
    unfold checked_add64. destruct (_ <=? U64_MAX) eqn:Hn; [|by left]. right. left. exists compiled.
    apply Nat.leb_gt in Hs. apply Z.leb_le in Hn. split; [done|]. split; [lia|]. by split.
  - left. split; [|done]. cbn [mret result_ret].
    assert (cr_execution_handle response = None) as ->; [|done].
    unfold compile_request_json in E. apply result_bind_inl in E as ([[endpoint auth] request] & _ & E).
    apply result_bind_inl in E as (requests & _ & E). apply result_bind_inl in E as (compiled & _ & E).
    apply result_bind_inl in E as (statements & _ & E). by injection E as <- _.
Qed.

(** The handle was given out by one of the calls and not released since. *)
Definition in_use (calls : list call) (h : Z) : Prop :=
  exists before c after, calls = before ++ c :: after /\ (serve (serve_all before).1 c).2 = Some h
    /\ ReleaseCall h ∉ after.

Lemma in_use_snoc calls c h :
  in_use (calls ++ [c]) h
  <-> (serve (serve_all calls).1 c).2 = Some h \/ in_use calls h /\ c <> ReleaseCall h.
Proof.
  split.
  - intros (before & c' & after & Heq & Hg & Hr).
    destruct after as [|a after _] using rev_ind.
    + apply app_inj_tail in Heq as [-> ->]. by left.
    + right. rewrite app_comm_cons, app_assoc in Heq. apply app_inj_tail in Heq as [-> ->].
      rewrite elem_of_app, list_elem_of_singleton in Hr. split; [|by intros ->; apply Hr; right].
      exists before, c', after. split; [done|]. split; [done|]. intros ?. apply Hr. by left.
  - intros [Hg|[(before & c' & after & -> & Hg & Hr) Hc]].
    + exists calls, c, []. split; [done|]. split; [done|]. by intros ?%elem_of_nil.
    + exists before, c', (after ++ [c]). split; [by rewrite <- app_assoc|]. split; [done|].
      rewrite elem_of_app, list_elem_of_singleton. by intros [?|?].
Qed.

(** C23: the handles of plans. Whatever is compiled and released, the handles given out are fresh,
    one larger than the one before, so none is ever used twice; at most 64 plans are kept; and a plan
    is kept exactly from the call that gives its handle to the release of the handle. *)
Theorem handles_fresh calls p given :
  serve_all calls = (p, given) ->
  given = rev (map Z.of_nat (seq 1 (length given)))
  /\ rt_next_handle p = 1 + Z.of_nat (length given)
  /\ (size (rt_plans p) <= MAX_ACTIVE_EXECUTIONS)%nat
  /\ handles_given p
  /\ forall h, is_Some (rt_plans p !! h) <-> in_use calls h.
Proof.
  revert p given. induction calls as [|c calls IH] using rev_ind; intros p given Hs.
  { injection Hs as <- <-. split; [done|]. split; [done|]. split; [apply Nat.le_0_l|].
    split; [apply no_plans_given|]. intros h. split.
    - intros [plan Hp]. cbn in Hp. by rewrite lookup_empty in Hp.
    - intros (before & c & after & Heq & _). by destruct before. }
  rewrite serve_all_snoc in Hs. destruct (serve_all calls) as [q held] eqn:Hq.
  destruct (IH _ _ eq_refl) as (Hgiven & Hnext & Hsize & Hbelow & Hlive). clear IH.
  assert (Hin : forall h, in_use (calls ++ [c]) h
      <-> (serve q c).2 = Some h \/ in_use calls h /\ c <> ReleaseCall h)
    by (intros h; rewrite in_use_snoc, Hq; done).
  destruct (serve_cases q c) as [[Hc Hn]|[(compiled & Hlt & _ & Hn & Hc)|(l & -> & Hc)]];
    rewrite Hc in Hs, Hin; injection Hs as <- <-; cbn [rt_plans rt_next_handle option_list app] in *.
  - split; [done|]. split; [done|]. split; [done|]. split; [done|]. intros h. rewrite Hlive, Hin.
    split; [by right|by intros [?|[? _]]].
  - assert (Hfree : rt_plans q !! rt_next_handle q = None).
    { apply eq_None_not_Some. intros Hp%Hbelow. lia. }
    split; [|split; [cbn [length]; lia|split; [|split]]].
    + cbn [length]. rewrite seq_S, map_app, rev_app_distr, <- Hgiven. cbn. f_equal. lia.
    + by rewrite map_size_insert_None.
    + intros h [plan Hp]. cbn in *. apply lookup_insert_Some in Hp as [[<- _]|[_ Hp]]; [lia|].
      assert (h < rt_next_handle q) by (apply Hbelow; by exists plan). lia.
    + intros h. rewrite Hin, <- Hlive. destruct (decide (h = rt_next_handle q)) as [->|Hne].
      * rewrite lookup_insert_eq. split; [by left|by eexists].
      * rewrite lookup_insert_ne by done. split; [by right|by intros [[= ?]|[? _]]].
  - split; [done|]. split; [done|]. split; [|split].
    + rewrite map_size_delete. destruct (rt_plans q !! l); simpl; lia.
    + exact (release_given q l Hbelow).
    + intros h. rewrite Hin, <- Hlive. destruct (decide (h = l)) as [->|Hne].
      * rewrite lookup_delete_eq. split; [by intros [? ?]|]. by intros [?|[_ ?]].
      * rewrite lookup_delete_ne by done. split; [|by intros [?|[? _]]].
        intros Hu. right. split; [done|congruence].
Qed.
End handles.

(** ** The budgets of a result *)

Section budgets.
Context `{Target} `{Serde}.

(** The values inside a cell: those of the JSON text it holds, if a column may be JSON. *)
Definition inside_values (expected : list LogicalType) (cell : value) : Z :=
  match cell with
  | Value.String text =>
      if bool_decide (LogicalType.Json ∈ expected) then
        let '(n, ok) := stream_values (fst (from_str_events text)) in if (ok : bool) then n else 0
      else 0
  | _ => 0
  end.
Fixpoint row_values (cells : list value) (types : list (list LogicalType)) : Z :=
  match cells, types with
  | cell :: cells, expected :: types => inside_values expected cell + row_values cells types
  | _, _ => 0
  end.
(** Every column, every cell, and every value inside one. *)
Definition result_values (types : list (list LogicalType)) (raw : RawResult) : Z :=
  Z.of_nat (length (raw_columns raw))
  + foldr Z.add 0 (map (fun row => Z.of_nat (length row) + row_values row types) (raw_rows raw)).

Lemma stream_values_nonneg s : 0 <= (stream_values s).1.
Proof. apply (proj1 (visited_stream 0 ltac:(done)) s). Qed.
Lemma inside_nonneg expected cell : 0 <= inside_values expected cell.
Proof.
  unfold inside_values. destruct cell as [| | |text| |]; try done. case_bool_decide; [|done].
  pose proof (stream_values_nonneg (fst (from_str_events text))) as Hn.
  destruct (stream_values _) as [n ok]. by destruct ok.
Qed.
Lemma row_values_nonneg cells : forall types, 0 <= row_values cells types.
Proof.
  induction cells as [|cell cells IH]; intros [|expected types]; simpl; try done.
  specialize (IH types). pose proof (inside_nonneg expected cell). lia.
Qed.

Context `{SerdeNumber} `{RuntimeSerde} `{Base64} `{Regex} `{Dialect} (r : PolicySqlRuntime).

Section counting.
Context (limit : Z) (limit_fits : 0 <= limit < U64_MAX).

Lemma count_inside text n k :
  0 <= n <= limit -> count_json_values text (limit - n) = Some k ->
  k = (let '(m, ok) := stream_values (fst (from_str_events text)) in if (ok : bool) then m else 0)
  /\ n + k <= limit.
Proof.
  intros Hn. pose proof (count_json_values_exact text (limit - n) ltac:(lia)) as Hc.
  destruct (stream_values _) as [m ok]. rewrite Hc. destruct (Z.ltb_spec (limit - n) m); [done|].
  destruct ok; intros [= <-]; split; try done; lia.
Qed.

Lemma read_cells_values cells : forall types n m read,
  0 <= n <= limit -> read_cells r limit n cells types = inl (m, read) ->
  m = n + row_values cells types /\ m <= limit.
Proof.
  induction cells as [|cell cells IH]; intros types n m read Hn Hr; simpl in Hr.
  { injection Hr as <- _. simpl. lia. }
  destruct types as [|expected types]; [done|]. apply result_bind_inl in Hr as (k & Hk & Hr).
  assert (Hinside : k = n + inside_values expected cell /\ k <= limit).
  { unfold inside_values. case_bool_decide; [|injection Hk as <-; destruct cell; lia].
    destruct cell as [| | |text| |]; try (injection Hk as <-; lia).
    apply result_bind_inl in Hk as (i & Hi%ok_or_inl & [= <-]).
    apply count_inside in Hi as [-> Hi]; [|done]. by split. }
  destruct Hinside as [-> Hle]. pose proof (inside_nonneg expected cell).
  apply result_bind_inl in Hr as (v & _ & Hr). apply result_bind_inl in Hr as ([m' rest] & Hm & [= <- _]).
  apply IH in Hm as [-> Hm]; [|lia]. simpl. lia.
Qed.

Lemma read_rows_values types rows : forall n m read,
  0 <= n <= limit -> read_rows r limit n types rows = inl (m, read) ->
  m = n + foldr Z.add 0 (map (fun row => Z.of_nat (length row) + row_values row types) rows)
  /\ m <= limit.
Proof.
  induction rows as [|row rows IH]; intros n m read Hn Hr; simpl in Hr.
  { injection Hr as <- _. simpl. lia. }
  destruct (Z.ltb_spec limit (sat_add64 n (Z.of_nat (length row)))) as [|Hle]; [done|].
  assert (Hadd : sat_add64 n (Z.of_nat (length row)) = n + Z.of_nat (length row))
    by (unfold sat_add64, sat_add in *; lia).
  rewrite Hadd in Hr, Hle. apply result_bind_inl in Hr as ([k cells] & Hk & Hr).
  apply read_cells_values in Hk as [-> Hk]; [|lia]. pose proof (row_values_nonneg row types).
  apply result_bind_inl in Hr as ([m' rest] & Hm & [= <- _]).
  apply IH in Hm as [-> Hm]; [|lia]. simpl. lia.
Qed.
End counting.

(** What a validated result counts: its own text and values, within what is left. *)
Record within_budget (p : Plans) (handle : Z) (index : nat) (raw : RawResult) (budget : ResultBudget)
    (v : Validated) : Prop := {
  within_bytes : val_raw_bytes v = raw_result_bytes raw /\ val_raw_bytes v <= budget_raw_bytes budget;
  within_values : exists statement, rt_plans p !! handle ≫= (.!! index) = Some statement
    /\ val_values v = result_values (expected_types (sealed (cs_plan statement))) raw
    /\ val_values v <= budget_values budget
}.

Lemma compiler_validate_within p handle index raw budget v :
  0 <= budget_values budget < U64_MAX ->
  compiler_validate r p handle index raw budget = inl v -> within_budget p handle index raw budget v.
Proof.
  intros Hb. unfold compiler_validate. intros (dto & _ & Hv)%result_bind_inl.
  apply result_bind_inl in Hv as (ve & Hve%map_error_inl & [= <-]).
  unfold validate_raw_result_within in Hve. destruct (Z.ltb_spec (budget_raw_bytes budget) (raw_result_bytes raw));
    [done|]. unfold validate_result_parts in Hve.
  destruct (rt_plans p !! handle ≫= _) as [statement|] eqn:Hs; [|done].
  destruct (Z.ltb_spec (budget_values budget) (Z.of_nat (length (raw_columns raw)))); [done|].
  destruct (read_rows _ _ _ _ _) as [[values rows]|e] eqn:Hr; [|done].
  destruct (validate_sealed_result_within _ _ _) as [result|stop]; [|by destruct (adapter_error stop)].
  simpl in Hve. apply result_bind_inl in Hve as (public & _ & [= <-]).
  apply read_rows_values in Hr as [-> Hle]; [|done..|lia].
  split; [done|]. exists statement. split; [done|]. by split.
Qed.
(** ** The budgets of an execution *)

Lemma raw_bytes_nonneg raw : 0 <= raw_result_bytes raw.
Proof. unfold raw_result_bytes. unfold len. lia. Qed.
Lemma result_values_nonneg types raw : 0 <= result_values types raw.
Proof.
  unfold result_values. assert (0 <= foldr Z.add 0 (map (fun row => Z.of_nat (length row) + row_values row types)
    (raw_rows raw))); [|lia].
  induction (raw_rows raw) as [|row rows IH]; simpl; [done|]. pose proof (row_values_nonneg row types). lia.
Qed.

Context `{StateSerde} `{Sha2} `{AtomicSerde} `{Unicode} `{Machine.Env}.
#[local] Existing Instance runtime_compiler.

(** The plans the runtime keeps in a state of the step machine. *)
Definition plans_of (s : St (H := runtime_compiler r)) : Plans := proj1_sig (compiler s).

Definition total {A} (f : A -> Z) (l : list A) : Z := foldr Z.add 0 (map f l).

(** Each result as its statement counts it. *)
Definition counted (p : Plans) (handle : Z) (first : nat) (l : list (DriverResult * AtomicStatement))
    (validated : list Validated) : Prop :=
  length validated = length l
  /\ forall i result st v, l !! i = Some (result, st) -> validated !! i = Some v ->
       let raw := raw_result_of (ast_operation st) result in
       val_raw_bytes v = raw_result_bytes raw
       /\ exists statement, rt_plans p !! handle ≫= (.!! (first + i)%nat) = Some statement
            /\ val_values v = result_values (expected_types (sealed (cs_plan statement))) raw.

Lemma validate_all_within lane h l : forall first left s validated s',
  0 <= budget_values left < U64_MAX -> 0 <= budget_raw_bytes left ->
  validate_all lane h (Z.of_nat first) l left s = (inl (Some validated), s') ->
  counted (plans_of s) h first l validated
  /\ total val_raw_bytes validated <= budget_raw_bytes left
  /\ total val_values validated <= budget_values left.
Proof.
  induction l as [|[result st] l IH]; intros first left s validated s' Hv Hb; simpl.
  { intros [= <- _]. split; [by split|]. split; [done|]. unfold total. simpl. lia. }
  destruct (codec_failure result); [by unfold mbind, M_bind; destruct (close_failed _ _ s) as [[]]|].
  rewrite at_gets. unfold validate. simpl. rewrite Nat2Z.id.
  destruct (compiler_validate _ _ _ _ _ _) as [v|e] eqn:Ev.
  - apply compiler_validate_within in Ev as [[Hraw Hle] (statement & Hst & Hval & Hvle)]; [|done].
    pose proof (raw_bytes_nonneg (raw_result_of (ast_operation st) result)).
    pose proof (result_values_nonneg (expected_types (sealed (cs_plan statement)))
      (raw_result_of (ast_operation st) result)).
    unfold mbind, M_bind. destruct (validate_all _ _ _ _ _ s) as [[[vs|]|f] s1] eqn:E; try done.
    intros [= <- <-]. replace (Z.of_nat first + 1) with (Z.of_nat (S first)) in E by lia.
    apply IH in E as ([Hlen Heach] & Hbytes & Hvalues); simpl; unfold sat_sub; [|lia..].
    simpl in Hbytes, Hvalues. unfold sat_sub in Hbytes, Hvalues. unfold total in *. simpl.
    split; [|lia]. split; [simpl; congruence|]. intros [|i] result' st' v' Hl Hv'; simpl in Hl, Hv'.
    + injection Hl as <- <-. injection Hv' as <-. split; [done|]. exists statement.
      by rewrite Nat.add_0_r.
    + destruct (Heach i _ _ _ Hl Hv') as [? (statement' & ? & ?)]. split; [done|]. exists statement'.
      by rewrite <- Nat.add_succ_comm.
  - unfold mbind, M_bind. destruct (log_core_error e s) as [[u|f] s1]; [|done].
    by destruct (close _ _ _ s1) as [[]].
Qed.

(** C24: the results of an execution share one budget. When the step machine over the runtime goes on
    from the results of an envelope, it has taken the results of its own statements in order: each
    reports the bytes of its text and counts every column, every cell and every value inside a JSON
    cell, and all together stay within the bytes and the values given for the envelope. *)
Theorem results_share_budget lane h l left s validated s' :
  0 <= budget_values left < U64_MAX -> 0 <= budget_raw_bytes left ->
  validate_all lane h 0 l left s = (inl (Some validated), s') ->
  counted (plans_of s) h 0 l validated
  /\ total val_raw_bytes validated <= budget_raw_bytes left
  /\ total val_values validated <= budget_values left.
Proof. apply (validate_all_within lane h l 0). Qed.
End budgets.

(** ** Explain without values *)

Lemma parameter_checked_inl `{Regex} catalog values max name contract :
  check_value catalog values max (name, contract) = inl () ->
  exists v, values !! name = Some v
    /\ (v = LogicalValue.Null /\ cpc_nullable contract = true
        \/ logical_value_matches v (cpc_logical_type contract) max = true)
    /\ forall column d, column ∈ cpc_columns contract -> column_descriptor catalog column = Some d ->
         value_satisfies_contract v d max = true.
Proof.
  unfold check_value. intros (v & Hv%ok_or_inl & Hc)%result_bind_inl. exists v. split; [done|].
  destruct (_ && _) eqn:Hm; [done|]. apply for_each_inl in Hc. split.
  - apply andb_false_iff in Hm as [Hm%negb_false_iff|Hm%negb_false_iff]; [left|by right].
    apply andb_true_iff in Hm as [Hn ?]. by apply bool_decide_eq_true in Hn.
  - intros column d Hin Hd. rewrite Forall_forall in Hc. specialize (Hc _ Hin). rewrite Hd in Hc.
    by apply require_inl in Hc.
Qed.

(** The parameters a compiled statement reports are those its plan was checked with. *)
Lemma compile_request_parameters `{Regex} `{Dialect} g session index request bytes compiled bytes' :
  compile_request g session index request bytes = inl (compiled, bytes') ->
  dom (cs_client_parameters compiled) = dom (rq_parameters request)
  /\ forall name contract, cs_client_parameters compiled !! name = Some contract ->
       check_value (gw_catalog g) (rq_parameters request) (el_max_bytes_per_value (gw_limits g))
         (name, contract) = inl ().
Proof.
  unfold compile_request. intros (document & _ & Hc)%result_bind_inl.
  apply result_bind_inl in Hc as (out & _ & Hc). apply result_bind_inl in Hc as (affected & _ & Hc).
  apply result_bind_inl in Hc as (plan & Hs%map_error_inl & Hc). case_match; [done|].
  apply result_bind_inl in Hc as (found & Hk%map_err_inl & [= <- _]). cbn [cs_client_parameters].
  set (requested := requested_plan _ _ _ _) in *.
  assert (Hv : validate_client_parameters
    (analyze_client_parameters (pp_statement requested) (gw_catalog g)) (gw_catalog g)
    (rq_parameters request) (el_max_bytes_per_value (gw_limits g)) = inl ()).
  { assert (Ho : compile_verified (GatewayFacts.operation_of (pp_statement requested)) requested
      (gw_catalog g) (rq_parameters request) (gw_limits g) (gw_snapshot g) = inl plan).
    { revert Hs. unfold seal_statement. by destruct (pp_statement requested). }
    apply compile_verified_passed in Ho. by destruct Ho as (_ & ? & ? & ? & _ & ? & _). }
  unfold validate_client_parameters in Hv. case_bool_decide as Hn; [|done]. cbn [negb] in Hv.
  rewrite Hk in Hv. cbn in Hv. apply for_each_inl in Hv. unfold contracts in Hk.
  destruct (cpa_type_conflict _); [done|]. injection Hk as <-. split; [done|].
  intros name contract Hc. rewrite Forall_forall in Hv. by apply Hv, elem_of_map_to_list.
Qed.

(** The formats no empty text has. *)
Definition TEXT_FORMATS : list string := ["uuid"; "email"; "iso-date"; "sqlite-datetime"; "rfc3339"].

Lemma placeholder_no_format contract format :
  placeholder_value contract <> LogicalValue.Null ->
  format_accepts (placeholder_value contract) (Some format) = true -> format ∉ TEXT_FORMATS.
Proof.
  intros Hn Hf Hin. unfold TEXT_FORMATS in Hin. unfold placeholder_value in *.
  destruct (cpc_nullable contract); [done|].
  repeat (apply elem_of_cons in Hin as [->|Hin]; [destruct (cpc_logical_type contract); done|]).
  by apply elem_of_nil in Hin.
Qed.

Lemma date_formats t format :
  t ∈ [LogicalType.Date; LogicalType.DateTime; LogicalType.Instant] -> format_allowed t format = true ->
  exists name, format = Some name /\ name ∈ TEXT_FORMATS.
Proof.
  unfold format_allowed. intros Ht Hf%bool_decide_eq_true.
  repeat (apply elem_of_cons in Ht as [->|Ht];
    [apply list_elem_of_singleton in Hf as ->; eexists; split; [reflexivity|];
     by apply (bool_decide_eq_true (_ ∈ TEXT_FORMATS))|]).
  by apply elem_of_nil in Ht.
Qed.

Lemma explained_parameters `{Serde} `{Base64} `{Dialect} catalog limits max raw request name v :
  statement_request catalog limits max raw EndpointPermission.Explain = inl request ->
  name ∉ map fst (rs_params raw) -> rq_parameters request !! name = Some v ->
  exists contract, v = placeholder_value contract.
Proof.
  unfold statement_request. case_match; [done|]. intros (statement & _ & Hr)%result_bind_inl Hname.
  apply result_bind_inl in Hr as (types & _ & Hr).
  apply result_bind_inl in Hr as (parameters & Hp%collect_inl & [= <-]). cbn [rq_parameters].
  intros [Hv|[_ Hv]]%lookup_union_Some_raw.
  - apply elem_of_list_to_map_2, list_elem_of_In, in_rev, list_elem_of_In, list_elem_of_lookup_1
      in Hv as (i & Hi). exfalso.
    destruct (Forall2_lookup_r _ _ _ _ _ Hp Hi) as ([given text] & Hg & Hread). apply Hname.
    unfold read_parameter in Hread. apply result_bind_inl in Hread as (n & Hn%map_err_inl & Hread).
    apply result_bind_inl in Hread as (x & _ & [= -> _]). unfold client_parameter_name_new in Hn.
    repeat case_match; simplify_eq. apply (list_elem_of_fmap_2 fst _ (name, text)).
    by eapply list_elem_of_lookup_2.
  - apply lookup_fmap_Some in Hv as (contract & <- & _). by exists contract.
Qed.

Lemma column_descriptor_in catalog column d :
  column_descriptor catalog column = Some d ->
  exists resource c, resource ∈ Catalog.resources catalog /\ c ∈ Catalog.columns resource
    /\ d = cd_value c.
Proof.
  unfold column_descriptor. intros Hd. apply bind_Some in Hd as (resource & Hr & Hd).
  apply bind_Some in Hd as (c & Hc & [= <-]). exists resource, c.
  apply find_some in Hr as [Hr _]. unfold column_by_id in Hc. destruct (_ =? _)%Z; [|done].
  apply find_some in Hc as [Hc _]. by rewrite !list_elem_of_In.
Qed.

(** C28: Explain without values. A statement that Explain answers has no parameter left out of the
    request that cannot be NULL and that is assigned to or compared with a column of a date, a
    datetime, an instant, a UUID or an email: the value the runtime fills in for it is the empty
    text, which those columns refuse, so such a statement is refused as an invalid parameter. *)
Theorem explain_needs_values `{Target} `{Serde} `{SerdeNumber} `{RuntimeSerde} `{ManifestSerde} `{Yaml}
    `{Base64} `{Regex} `{Dialect} catalog_yaml policy_yaml schema_version policy_version limits_json
    physical r auth_json request_json response retained auth request i raw :
  build_runtime catalog_yaml policy_yaml schema_version policy_version limits_json physical = inl r ->
  compile_request_json r auth_json request_json "explain" = inl (response, retained) ->
  read_request r auth_json request_json "explain" = inl (EndpointPermission.Explain, auth, request) ->
  ar_statements request !! i = Some raw ->
  exists statement dto,
    cr_statements response !! i = Some dto
    /\ Runtime.compiled_statement (rt_catalog r) statement = inl dto
    /\ forall name contract column d,
         cs_client_parameters statement !! name = Some contract ->
         name ∉ map fst (rs_params raw) -> cpc_nullable contract = false ->
         column ∈ cpc_columns contract -> column_descriptor (rt_catalog r) column = Some d ->
         (forall format, vd_format d = Some format -> format ∉ TEXT_FORMATS)
         /\ vd_logical_type d ∉ [LogicalType.Date; LogicalType.DateTime; LogicalType.Instant].
Proof.
  intros Hr Hc Hread Hraw. apply build_runtime_deployed in Hr as [_ Hcolumns _ (Hgc & _) _ _ _].
  apply compile_request_json_inl in Hc as (? & ? & ? & requests & compiled & Hread' & _ & _ & Hall).
  rewrite Hread in Hread'. injection Hread' as <- <- <-.
  destruct (Hall _ _ Hraw) as (req & statement & dto & _ & Hd & [Hreq (index & bytes & bytes' & Hg) Htold]).
  exists statement, dto. split; [done|]. split; [done|]. intros name contract column d Hk Hname Hnull Hin Hcd.
  apply compile_request_parameters in Hg as [_ Hg]. apply Hg, parameter_checked_inl in Hk as (v & Hv & Hm & Hs).
  destruct (explained_parameters _ _ _ _ _ _ _ Hreq Hname Hv) as [filled ->].
  assert (Hn : placeholder_value filled <> LogicalValue.Null).
  { intros He. rewrite He, Hnull in Hm. by destruct Hm as [[_ ?]|?]. }
  rewrite <- Hgc in Hcd. specialize (Hs column d Hin Hcd).
  assert (Hformat : forall format, vd_format d = Some format -> format ∉ TEXT_FORMATS).
  { intros format Hf. apply (placeholder_no_format filled); [done|]. unfold value_satisfies_contract in Hs.
    destruct (match placeholder_value filled with LogicalValue.Bytes _ => _ | _ => _ end); [done|].
    rewrite bool_decide_false, Hf in Hs by done. by destruct (format_accepts _ _). }
  split; [done|]. intros Htype. rewrite Hgc in Hcd.
  apply column_descriptor_in in Hcd as (resource & c & Hres & Hcol & ->).
  destruct (Hcolumns _ _ Hres Hcol) as (ph & declared & [_ _ Hallowed _ _ _ _]).
  destruct (date_formats _ _ Htype Hallowed) as (format & Hf & Htext). by apply (Hformat format).
Qed.

(** ** A concrete deployment *)

#[local] Existing Instance plain_regex.
#[local] Existing Instance member_dialect.
#[local] Existing Instance world_serde.

Definition limits_text : string :=
  requote "{'max_rows':100,'max_result_bytes':64000,'timeout_ms':1000,'max_statements':8}".
Definition member_json : string := "member".
Definition query_json : string := requote "{'statements':[{'sql':'query','params':{'n':10}}]}".
(** The same statement, without the value of its parameter. *)
Definition bare_json : string := requote "{'statements':[{'sql':'query','params':{}}]}".

Definition query_statement (params : list (string * string)) : RequestStatement :=
  {| rs_sql := "query"; rs_params := params; rs_expect := None |}.
Definition atomic_request (statements : list RequestStatement) : AtomicRequest :=
  {| ar_expected := None; ar_statements := statements |}.

(** The projects of an owner, without and with the owner. *)
Definition owned_json : string := requote "{'statements':[{'sql':'owned','params':{}}]}".
Definition owned_statement (params : list (string * string)) : RequestStatement :=
  {| rs_sql := "owned"; rs_params := params; rs_expect := None |}.
Definition owner_text : string := requote "'123e4567-e89b-12d3-a456-426614174000'".

#[local] Instance member_requests : RuntimeSerde := {|
  request_from_str text :=
    Some (atomic_request
      [if String.eqb text query_json then query_statement [("n", "10")]
       else if String.eqb text bare_json then query_statement []
       else if String.eqb text owned_json then owned_statement []
       else owned_statement [("owner", owner_text)]]%string);
  authorized_from_str text :=
    Some {| as_principal := "https://issuer.test:ann"; as_subject := "ann"; as_role := "member";
            as_roles := ["member"]; as_access := ["execute"; "explain"]; as_session := [] |}%string;
  session_from_str _ := None; begin_body_from_str _ := None; raw_result_from_str _ := None
|}.
#[local] Instance decimal_numbers : SerdeNumber := {| number_from_str _ := None |}.

Definition no_limits : RuntimeLimits :=
  Build_RuntimeLimits 0 0 0 0 0 0 0 0 0 0 0 0 0 0 0 0 0 0 0 0 0.
Definition no_runtime : PolicySqlRuntime :=
  {| rt_gateway := member_gateway; rt_catalog := no_catalog; rt_policies := no_bundle;
     rt_schema_version := ""; rt_policy_version := ""; rt_snapshot := ""; rt_limits := no_limits |}.
Definition member_runtime : PolicySqlRuntime :=
  PolicyWorld.get no_runtime (build_runtime "catalog" "bundle" "s1" "p1" limits_text (Some world_schema)).

Lemma member_builds :
  build_runtime "catalog" "bundle" "s1" "p1" limits_text (Some world_schema) = inl member_runtime.
Proof. vm_compute. reflexivity. Qed.

Definition no_response : CompileResponse * option (list CompiledStatement) :=
  ({| cr_abi_version := 0; cr_profile := ""; cr_schema_version := ""; cr_policy_version := "";
      cr_snapshot := ""; cr_transaction_mode := ""; cr_execution_handle := None; cr_statements := [];
      cr_commit_checks := [] |}, None).


Definition member_auth_context : AuthContext :=
  {| auth_session := world_session;
     auth_permissions := list_to_set [EndpointPermission.Execute; EndpointPermission.Explain] |}.




(** ** Values, by example *)

(** A number in quotes is no int64, and five is no number. *)
Lemma parameters_read_exactly_witness :
  logical_parameter_value 8 "10" (Some LogicalType.Int64) = inl (LogicalValue.Int64 10)
  /\ ~ (logical_parameter_value 8 (requote "'10'") (Some LogicalType.Int64)
          = inl (LogicalValue.String "10")
        /\ (LogicalValue.String "10" = LogicalValue.Null
            \/ logical_value_matches (LogicalValue.String "10") LogicalType.Int64 8 = true))
  /\ ~ (logical_parameter_value 8 "5" (Some LogicalType.Number) = inl (LogicalValue.Int64 5)
        /\ (LogicalValue.Int64 5 = LogicalValue.Null
            \/ logical_value_matches (LogicalValue.Int64 5) LogicalType.Number 8 = true)).
Proof.
  split; [|split].
  - apply (parameters_read_exactly 8 "10" LogicalType.Int64 (LogicalValue.Int64 10)).
    exists (Value.Number (Number.PosInt 10)). split; [vm_compute; reflexivity|]. split.
    + exists (Number.PosInt 10). split; reflexivity.
    + right. left. reflexivity.
  - intros Hr. apply (parameters_read_exactly 8 (requote "'10'") LogicalType.Int64 (LogicalValue.String "10"))
      in Hr as (v & _ & _ & [Hn|Ht]); [discriminate Hn|discriminate Ht].
  - intros Hr. apply (parameters_read_exactly 8 "5" LogicalType.Number (LogicalValue.Int64 5))
      in Hr as (v & _ & _ & [Hn|[Ht|[Ht _]]]); discriminate.
Defined.

(** A boolean is stored as 1, and five is no cell of a column of numbers. *)
Lemma cells_read_back_witness :
  logical_result_value 8 (Value.Number (Number.PosInt 1)) [LogicalType.Boolean]
    = inl (LogicalValue.Boolean true)
  /\ ~ (logical_result_value 8 (Value.Number (Number.PosInt 5)) [LogicalType.Number]
          = inl (LogicalValue.Int64 5)
        /\ (LogicalValue.Int64 5 = LogicalValue.Null
            \/ type_matches (LogicalValue.Int64 5) LogicalType.Number = true))
  /\ logical_result_value 8 (encode_parameter_value (LogicalValue.Bytes [104; 105])) [LogicalType.Bytes]
     = inl (LogicalValue.Bytes [104; 105]).
Proof.
  destruct (cells_read_back 8 LogicalType.Boolean) as [Hb _].
  destruct (cells_read_back 8 LogicalType.Number) as [Hn _].
  destruct (cells_read_back 8 LogicalType.Bytes) as [_ Hback].
  split; [|split].
  - apply Hb. split; [reflexivity|]. right. exists (Number.PosInt 1). split; reflexivity.
  - intros Hr. apply Hn in Hr as [[Ht|Ht] _]; discriminate Ht.
  - apply Hback; [right; reflexivity|]. split; [|simpl; lia].
    repeat (apply Forall_cons; split; [split; vm_compute; congruence|]). constructor.
Defined.

(** ** Handles, by example *)

(** The request is compiled twice and the first plan released. *)
Definition member_calls : list call :=
  [CompileCall member_json query_json "execute"; CompileCall member_json query_json "execute";
   ReleaseCall 1].

Lemma handles_fresh_witness :
  (serve_all member_runtime member_calls).2 = [2; 1]
  /\ (is_Some (rt_plans (serve_all member_runtime member_calls).1 !! 2)
      <-> in_use member_runtime member_calls 2).
Proof.
  destruct (handles_fresh member_runtime member_calls (serve_all member_runtime member_calls).1
    (serve_all member_runtime member_calls).2 (surjective_pairing _))
    as (Hgiven & _ & _ & _ & Hlive).
  split; [|exact (Hlive 2)].
  etransitivity; [exact Hgiven|]. vm_compute. reflexivity.
Defined.

(** ** Budgets, by example *)

(** The table after the compile, and the step machine's state with it. *)
Definition member_table : GivenPlans :=
  (compile (Compiler := runtime_compiler member_runtime) (exist _ no_plans no_plans_given)
     member_json query_json).1.
Definition member_state : @St (runtime_compiler member_runtime) :=
  @start (runtime_compiler member_runtime) member_table None None.
Definition member_select : AtomicStatement :=
  {| ast_operation := Operation.Select; ast_resource := None;
     ast_limits := {| max_rows := 100; max_result_bytes := 64000; timeout_ms := 1000 |};
     ast_explain_resource := None |}.
Definition member_rows : DriverResult :=
  driver_result ["number"; "name"; "__policysql_visibility_1"]%string
    [[Value.u64 1; Value.String "apple"; Value.u64 1]; [Value.u64 2; Value.Null; Value.u64 0]] 0.
Definition budget_of (values : Z) : ResultBudget :=
  {| budget_raw_bytes := 107; budget_values := values; budget_result_bytes := U64_MAX |}.
Definition member_validates (values : Z) : option (list Validated) + Fault :=
  fst (@validate_all _ (runtime_compiler member_runtime) (world_env 1000) WorkLane.Client 1 0
         [(member_rows, member_select)] (budget_of values) member_state).
Definition member_validated : list Validated :=
  match member_validates 9 with inl (Some validated) => validated | _ => [] end.

Lemma member_accepted : member_validates 9 = inl (Some member_validated).
Proof. vm_compute. reflexivity. Qed.

(** Three columns and six cells are nine values: a budget of eight refuses them. *)
Lemma results_share_budget_witness :
  map val_values member_validated = [9] /\ total val_values member_validated <= 9
  /\ member_validates 8 = inl None.
Proof.
  split; [vm_compute; reflexivity|]. split; [|vm_compute; reflexivity].
  refine (proj2 (proj2 (results_share_budget member_runtime (H10 := world_env 1000) WorkLane.Client 1
    [(member_rows, member_select)] (budget_of 9) member_state member_validated _ _ _
    (eq_trans (surjective_pairing _) (f_equal (fun r => (r, _)) member_accepted))))).
  - split; vm_compute; [discriminate|reflexivity].
  - vm_compute. discriminate.
Defined.

(** ** Explain *)

Definition explained : CompileResponse * option (list CompiledStatement) :=
  PolicyWorld.get no_response (compile_request_json member_runtime member_json bare_json "explain").

Lemma explain_needs_values_witness :
  exists statement dto,
    cr_statements explained.1 !! 0%nat = Some dto
    /\ Runtime.compiled_statement (rt_catalog member_runtime) statement = inl dto.
Proof.
  destruct (explain_needs_values "catalog" "bundle" "s1" "p1" limits_text (Some world_schema) member_runtime
    member_json bare_json explained.1 explained.2 member_auth_context
    (atomic_request [query_statement []]) 0 (query_statement [])) as (statement & dto & Hd & Ht & _).
  - exact member_builds.
  - vm_compute. reflexivity.
  - vm_compute. reflexivity.
  - reflexivity.
  - exists statement, dto. split; [exact Hd|exact Ht].
Defined.

(** The owner is compared with a column of UUIDs: without it the statement is not explained, and with
    one it is. *)
Example owner_needed :
  compile_request_json member_runtime member_json owned_json "explain"
  = inr (RuntimeError.RejectedAt RejectionKind.InvalidParameter 0)
  /\ match compile_request_json member_runtime member_json "{}" "explain" with
     | inl (response, None) => length (cr_statements response) = 1%nat
     | _ => False
     end.
Proof. split; vm_compute; reflexivity. Qed.
